(* ===== verification/_CoqProject ===== *)
-Q . S2P
Prelude.v
Timestamp.v
NumTheory.v
Fb.v
SkipList.v
TimeQueue.v
RegionList.v
RegionSkip.v
RegionHash.v
RegionAlloc.v
RegionMerge.v
RegionFree.v
RegionOps.v
RegionThms.v
SigIndex.v
Riul.v
Sizes.v
PqShare.v
PqCore.v
Xlen.v
AutoShift.v
XdrData.v
ProdClass.v
ProdInfo.v
PqOps.v
PqCtl.v
PqRead.v
PqStat.v
PqEntry.v
Down6.v
PqCreate.v
PqInv.v
PqAccess.v
PqDelete.v
PqRoom.v
PqNew.v
PqReserve.v
PqSession.v
PqSeq.v
PqSearch.v
PqReport.v
PqFind.v
PqProcess.v
PqInsert.v
PqReserved.v
Down6Ok.v
Down6Run.v
PqMake.v
PqExample.v
PqReach.v
PqReadThms.v
PqEntryThms.v
PqThms.v
DownThms.v
SemRWLock.v
Uldb.v
UldbOk.v
UldbThms.v
