(* ===== verification/Prelude.v ===== *)
(** * A verification library for the Unidata LDM: the product-queue, the downstream LDM
    and the registry of upstream LDM processes

    The LDM moves data-products between hosts.  Its heart is the product-queue, a
    file that all processes of a host map into memory: ingesters and downstream
    sessions insert products, upstream sessions and pqact(1) read them, and the
    oldest products are deleted when room is needed.  This library models the
    product-queue of src/pq/pq.c, with what it uses of src/pq/lcm.c,
    src/protocol2/timestamp.c, src/protocol2/ldm_xlen.c,
    src/protocol2/prod_class.c and src/misc/RegularExpressions.c, and the downstream
    LDM that fills it with what arrives over the network (src/protocol2/down6.c, with
    DownHelp.c, autoshift.c, xdr_data.c, prod_info.c, data_prod.c, savedInfo.c
    and the service procedures of ldm_server.c), and the table in shared memory by which the
    processes that send products to other hosts are vetted (src/protocol2/uldb.c, with
    the lock of src/misc/semRWLock.c), as executable functions, and
    proves what each layer promises to the one above.

    ** Layers and files

    - [Prelude]: machine integers, faults, the error monad and arrays.
    - [Timestamp] (timestamp.c): arithmetic and order of time-stamps.
    - [NumTheory] (lcm.c, pq.c): [gcd()], [lcm()] and the primes that size hash tables.
    - [Fb] (pq.c, "fb"): the arena of skip-list blocks that the indexes share.
    - [SkipList]: skip lists over such blocks, the search and the link and unlink loops
      that the time queue and the region list have in common.
    - [TimeQueue] (pq.c, "tq"): the index by insertion time.
    - [RegionList], [RegionSkip], [RegionHash], [RegionAlloc], [RegionMerge],
      [RegionFree], [RegionOps], [RegionThms] (pq.c, "rl"): the allocator of the data segment; two
      skip lists of free regions, by offset and by extent, and a hash table of
      regions in use.
    - [SigIndex] (pq.c, "sx"): the hash table of signatures that detects duplicates.
    - [Riul] (pq.c, "riul"): the sorted array of the regions that a process has locked.
    - [Sizes] (pq.c, "ix"): the sizes of the indexes and their layout in the file.
    - [PqShare]: the time queue and the region list on one arena.
    - [PqCore] (pq.c): the control block, the queue object, and the access to the file:
      [fgrow()], [fd_lock()], [rgn2_*()] and the three pairs [*_ftom()] and [*_mtof()].
    - [Xlen] (ldm_xlen.c): the length of the XDR encoding of a product.
    - [ProdClass] (prod_class.c, RegularExpressions.c): the classes of products that
      subscribers and readers ask for; regcomp(3) and regexec(3) are the class [Regex].
    - [PqOps], [PqCtl], [PqCreate] (pq.c): eviction, reservation, critical sections,
      insertion and creation.
    - [PqRead] (pq.c): the cursor, [pq_sequence()] and the other readers, access and
      deletion by signature.
    - [PqStat] (pq.c): [pq_stats()], [pq_fext_dump()] and the other reports, [pq_last()]
      and [pq_clss_setfrom()].
    - [PqEntry] (pq.c, "pqe"): regions that are reserved for products that are yet to be
      received.
    - [PqInv]: the invariant of the queue and the laws of the operating system.
    - [PqAccess], [PqDelete], [PqRoom], [PqNew], [PqReserve], [PqSession], [PqInsert],
      [PqMake], [PqThms]: the proofs about the queue object and its theorems.
    - [PqSeq], [PqSearch], [PqReport], [PqFind], [PqProcess], [PqReadThms]: the proofs about
      readers and reports and their theorems.
    - [PqReserved], [PqEntryThms]: the proofs about reserved regions and their theorems.
    - [AutoShift] (autoshift.c): the queue of outcomes and the switch between modes.
    - [XdrData] (xdr_data.c, ldm.x): the buffer that data is decoded into, on a memory of
      allocated blocks.
    - [ProdInfo] (prod_info.c, data_prod.c, savedInfo.c, DownHelp.c): buffers of metadata,
      the nil product, the saved metadata and the origin of a relay.
    - [Down6] (down6.c, DownHelp.c, ldm_server.c): the handlers of the messages of an upstream
      LDM.  Their state is [process], the static variables of all these modules and the
      queue.  [Down6Ok] and [Down6Run] are the proofs about one message and about
      sequences of messages, [DownThms] the theorems.
    - [PqReach]: the calls of a process as a step relation, and the states that they reach.
    - [PqExample]: an operating system that grants everything, and queues on it, for the
      witnesses.

    - [SemRWLock] (semRWLock.c): the read/write lock on two semaphores, with the processes that share
      it as a step relation.
    - [Uldb] (uldb.c): the segment of shared memory, its entries, their vetting, and the functions
      of the module.  [UldbOk] are the proofs about a well-formed segment, [UldbThms] the
      theorems.

    ** How the code is modelled

    A C function is a function of the state that it reads and returns the state that it
    leaves.  Arrays in the file are finite maps from indexes; a read or a write
    outside of an array is the fault [OutOfBounds], a [log_assert()] that fails is
    [AssertFail].  A loop that is not structural has fuel: the number of elements
    of the structure it walks ([tq_fuel] and the like), or the number of turns computed from its
    bounds ([fgrow_loop]); the theorems show that the fuel is never used up.
    Widths are written out where values can wrap.  The operating system is the
    class [System] (PqCore.v), its calls functions on a state of any type; what is relied on is
    the class [SystemLaws] (PqInv.v), and [PqExample.world_system] is an instance on which all of it
    holds.  The XDR functions that rpcgen(1) makes are members of [System] too.

    The objects of a segment of shared memory have different sizes and follow each
    other; the segment is a map from the offsets at which they begin.  A function of the
    lock is a tree of its calls to [semop()] ([SemRWLock.call]), between which other
    processes run; uldb.c, which runs under the lock, is a function on a state that holds the
    outcomes of the system calls to come.

    ** What the theorems show

    - Each index is a simulation: an invariant ties the arrays to lists, and an operation
      is an operation of the abstract value: a list sorted by time ([tq_view]), a map
      of regions ([rl_view]), a map of signatures ([sx_view]), a sorted list of
      reserved regions.  [Fb] proves that blocks are never handed out twice.
    - The allocator is best fit, merges free neighbours and never overlaps regions.
    - The invariant [pq_inv] says that the indexes agree: every entry of the time queue has a
      region in use that begins with metadata whose signature is entered with
      the offset of the region.
    - Eviction deletes the oldest unlocked product from all indexes; making room and reserving
      end, and delete a product only while there is no slot or no free region
      ([PqRoom.evictions]); insertion takes one step of [PqInsert.insert_step] on the
      contents, at the first free time from what the clock says after the encoding;
      critical sections are undone; creation establishes the invariant.
    - A reader takes one of the steps of [PqSeq.seq_result]; its loop visits every product of
      its class once, in the order of insertion; what it locks it can release; a
      product is found by its signature wherever the search begins, and deleted from
      all indexes.  Every state that a process can reach by such calls, under the conditions of
      [PqReach.pq_step], is well formed.
    - The reports account for the whole data segment.  A region that is reserved can be
      filled and entered, or discarded, which undoes the reservation.
    - Membership in a class is the interval of its times and one of its specifications.
    - A downstream LDM enters exactly the product that was announced, however its data is
      divided among packets ([down6_transfer_correct]), replies to an announcement by whether a region
      can be had ([down6_comingsoon_correct]), and, from HIYA on, touches no memory but its
      own on any message that the protocol allows, with memory for its buffer
      ([downstream_safe], an
      invariant of the step relation [Down6Run.downstream]).  Its metadata keeps the creating
      host over any chain of relays.
    - The read/write lock excludes writers from all others, whatever calls of
      whatever processes are interleaved, interrupted or killed ([srwl_mutual_exclusion]),
      and no killed process leaves it locked ([srwl_available]).
    - Registering a process appends the entry of what is granted, also when the segment has to grow
      ([uldb_addProcess_correct]); vetting loses nothing that a host asked for and
      grants nothing that another process feeds it ([uldb_vet_covers]); entries are
      removed, iterated over and read back.
    - Where the code does not do what it says, a theorem shows what it does instead
      ([diff_timestamp_negative], [fb_ranlev_sticky], [sx_find_delete_absent],
      [tq_add_after_endt], [ix_sz_stale], [pq_sequence_all_held],
      [clss_remove_out_of_bounds], [clss_intersect_times], [pqe_new_oversize],
      [hereis_intrudes_correct], [dp_isNil_correct], [uldb_remove_correct],
      [growth_loses_entries]).

    ** Bounds

    The number of products is below 2^28 and at least 4 to 16, the limit at which [fb_init()]
    works; offsets are below 2^62; the clock is before the end of time (2038).  The
    block arena is sized for the expected number of levels, so that the
    theorems about operations that take blocks assume enough spare blocks
    ([fb_spare]), in the worst case of all random levels: an insertion those for the
    deletions that make room for the product ([PqInsert.spare_for]; eight when there is
    room, [spare_for_room]), the downstream LDM those to delete every product
    ([PqInsert.spare_ok]).  Metadata that is decoded has a signature of 16 bytes and a
    time before 2038; twice the extent of a product is below 2^32.  Queues in
    memory have as much fuel as allocated elements ([q_fuel]).  The loops over entries have one more than
    there are objects ([seg_fuel], [epc_fuel]); the theorems on uldb.c assume that no system call
    fails, that patterns and a subscription take less than 2^31 bytes, and that twice the entries
    stay below 2^32 ([fits_registry]); a count of locks stays below 2^32 - 1 ([shallow]).

    ** Not modelled

    Threads of one process and their mutex, signal masks but for their flag, logging, and the
    processes that run between two critical sections (the state at the start of
    a critical section is arbitrary, subject to the invariant).  [pq_open()] and
    [pq_close()].  Of the network protocols: the RPC layer (a message comes decoded, but for the
    data in it), the access-control list of [hiya_6_svc()], and the sending side
    (up6.c).  Of uldb.c: the text of an entry for the log.  [pq_insert()] reads the data of a product where it begins, also when it comes
    to reject the product.  The configuration file, pqact(1), the multicast LDM and
    the ingesters. *)

From Stdlib Require Export Sorted.
From stdpp Require Export base numbers list gmap.

Open Scope Z_scope.

(** ** Machine integers

    The C sources are compiled for an LP64 machine: [size_t], [unsigned long]
    and [fblk_t] are 64-bit unsigned, [off_t], [long] and [time_t] are 64-bit
    signed and [unsigned int] is 32-bit unsigned.  A value of such a type is a
    [Z]; wrap-around is written out with [u64] and [u32]. *)

Definition u64 (z : Z) : Z := z mod 2 ^ 64.
Definition u32 (z : Z) : Z := z mod 2 ^ 32.

(** ** Faults

    [Ok] is a run that returns.  [Err] is a run that leaves the language's
    defined behaviour (an access outside an array), that fails a [log_assert()]
    or that exhausts the fuel of a loop. *)

Inductive fault := AssertFail | OutOfBounds | OutOfFuel.

Inductive res (A : Type) := Ok (x : A) | Err (f : fault).
Arguments Ok {A} x.
Arguments Err {A} f.

#[global] Instance fault_eq_dec : EqDecision fault.
Proof. solve_decision. Defined.

#[global] Instance res_eq_dec `{EqDecision A} : EqDecision (res A).
Proof. solve_decision. Defined.

Definition is_ok {A} (m : res A) : bool := match m with Ok _ => true | Err _ => false end.

Definition rbind {A B} (m : res A) (f : A → res B) : res B :=
  match m with Ok x => f x | Err e => Err e end.

(** [log_assert(b)] (src/log/log.h), with assertions enabled. *)
Definition log_assert (b : bool) : res unit :=
  if b then Ok () else Err AssertFail.

(** Sequencing: a fault stops the run. *)
Declare Scope ldm_scope.
Delimit Scope ldm_scope with ldm.
Notation "'let!' x := m 'in' k" := (rbind m (λ x, k))
  (at level 10, x name, m at level 100, k at level 200) : ldm_scope.
Notation "'let!' ' p := m 'in' k" := (rbind m (λ x, match x with p => k end))
  (at level 10, p pattern, m at level 100, k at level 200) : ldm_scope.
Notation "'assert!' b 'in' k" := (rbind (log_assert b) (λ _, k))
  (at level 10, b at level 100, k at level 200) : ldm_scope.
Open Scope ldm_scope.

(** ** Arrays

    A C array is a finite map from its valid indexes; reading or writing
    outside of it faults. *)

Definition rd {A} (a : gmap Z A) (i : Z) : res A :=
  match a !! i with Some x => Ok x | None => Err OutOfBounds end.

Definition wr {A} (a : gmap Z A) (i : Z) (x : A) : res (gmap Z A) :=
  match a !! i with Some _ => Ok (<[i := x]> a) | None => Err OutOfBounds end.

(** The array of [n] elements [f 0], ..., [f (n-1)]. *)
Definition arr_tabulate {A} (n : Z) (f : Z → A) : gmap Z A :=
  list_to_map ((λ i, (i, f i)) <$> seqZ 0 n).

(** ** Linked lists in arrays

    [linked nxt nil h l]: starting at index [h] and following [nxt] one visits
    exactly [l] and then arrives at [nil]. *)
Fixpoint linked (nxt : Z → option Z) (nil h : Z) (l : list Z) : Prop :=
  match l with
  | [] => h = nil
  | b :: l => h = b ∧ ∃ n, nxt b = Some n ∧ linked nxt nil n l
  end.

Lemma linked_ext nxt nxt' nil h l :
  (∀ b, b ∈ l → nxt' b = nxt b) → linked nxt nil h l → linked nxt' nil h l.
Proof.
  revert h. induction l as [|b l IH]; intros h Hf; simpl; [done|].
  intros (-> & n & Hn & Hc). split; [done|]. exists n.
  rewrite Hf by constructor. split; [done|]. apply IH; [|done].
  intros. apply Hf. by constructor.
Qed.

(** The list that a newly initialised free list threads. *)
Lemma linked_seqZ nxt nil h n :
  0 < n → (∀ i, h ≤ i < h + n → nxt i = Some (if i =? h + n - 1 then nil else i + 1)) →
  linked nxt nil h (seqZ h n).
Proof.
  intros Hn. replace n with (Z.of_nat (S (Z.to_nat (n - 1)))) by lia.
  generalize (Z.to_nat (n - 1)). clear n Hn. intros n. revert h.
  induction n as [|n IH]; intros h Hx.
  - simpl. split; [done|]. exists nil. rewrite Hx by lia.
    by rewrite (proj2 (Z.eqb_eq _ _)) by lia.
  - rewrite seqZ_cons by lia. split; [done|]. exists (h + 1). rewrite Hx by lia.
    rewrite (proj2 (Z.eqb_neq _ _)) by lia. split; [done|].
    replace (Z.pred (Z.of_nat (S (S n)))) with (Z.of_nat (S n)) by lia.
    replace (Z.succ h) with (h + 1) by lia.
    apply IH. intros i Hi. rewrite Hx by lia.
    replace (h + Z.of_nat (S (S n)) - 1) with (h + 1 + Z.of_nat (S n) - 1) by lia. done.
Qed.

(** ** Strict total orders as boolean tests

    The ordered indexes of the product-queue compare keys with a boolean
    "less than"; what their proofs need of it is collected in a class. *)

Class KeyOrder {K : Type} (ltb : K → K → bool) : Prop := {
  ltb_irrefl x : ltb x x = false;
  ltb_trans x y z : ltb x y = true → ltb y z = true → ltb x z = true;
  ltb_total x y : ltb x y = false → ltb y x = false → x = y;
}.

Section key_order.
Context {K : Type} (ltb : K → K → bool) `{!KeyOrder ltb}.

Lemma ltb_asym x y : ltb x y = true → ltb y x = false.
Proof.
  intros H1. destruct (ltb y x) eqn:H2; [|done].
  pose proof (ltb_trans _ _ _ H1 H2) as H3. by rewrite ltb_irrefl in H3.
Qed.

Lemma ltb_ge_trans x y z : ltb y x = false → ltb y z = true → ltb x z = true.
Proof.
  intros H1 H2. destruct (ltb x y) eqn:H3; [by eapply ltb_trans|].
  by rewrite (ltb_total _ _ H3 H1).
Qed.

Lemma ltb_lt_ge_trans x y z : ltb x y = true → ltb z y = false → ltb x z = true.
Proof.
  intros H1 H2. destruct (ltb y z) eqn:H3; [by eapply ltb_trans|].
  by rewrite <- (ltb_total _ _ H3 H2).
Qed.
End key_order.

(** Lexicographic order on pairs of integers: the shape of every composite key
    of the product-queue ([tv_sec],[tv_usec]) and ([extent],[offset]). *)
Definition lex_ltb (a b : Z * Z) : bool :=
  (a.1 <? b.1) || ((a.1 =? b.1) && (a.2 <? b.2)).

#[global] Instance lex_ltb_order : KeyOrder lex_ltb.
Proof.
  split; unfold lex_ltb.
  - intros [x y]. simpl. lia.
  - intros [x1 y1] [x2 y2] [x3 y3]. simpl. lia.
  - intros [x1 y1] [x2 y2]. simpl. intros. f_equal; lia.
Qed.

#[global] Instance Zltb_order : KeyOrder Z.ltb.
Proof. split; intros; lia. Qed.

(** Case analysis on the outermost test of the goal. *)
Ltac case_if H :=
  match goal with
  | |- context [if ?b then _ else _] => destruct b eqn:H
  end.

(** Linear arithmetic with divisions and remainders by constants. *)
Ltac div_lia := Z.to_euclidean_division_equations; lia.

(** ** Lemmas on machine integers *)

Lemma u64_small z : 0 ≤ z < 2 ^ 64 → u64 z = z.
Proof. apply Z.mod_small. Qed.

Lemma u64_range z : 0 ≤ u64 z < 2 ^ 64.
Proof. apply Z.mod_pos_bound. lia. Qed.

Lemma u32_small z : 0 ≤ z < 2 ^ 32 → u32 z = z.
Proof. apply Z.mod_small. Qed.

Lemma u32_range z : 0 ≤ u32 z < 2 ^ 32.
Proof. apply Z.mod_pos_bound. lia. Qed.

(** ** Lemmas on faults and arrays *)

Section arrays.
Context {A : Type}.
Implicit Types (a : gmap Z A) (i j n : Z) (x y : A).

Lemma rd_Ok a i x : a !! i = Some x → rd a i = Ok x.
Proof. unfold rd. by intros ->. Qed.

Lemma rd_inv a i x : rd a i = Ok x → a !! i = Some x.
Proof. unfold rd. destruct (a !! i); congruence. Qed.

Lemma wr_Ok a i x : is_Some (a !! i) → wr a i x = Ok (<[i := x]> a).
Proof. unfold wr. by intros [? ->]. Qed.

Lemma arr_tabulate_lookup n (f : Z → A) i :
  arr_tabulate n f !! i = if decide (0 ≤ i < n) then Some (f i) else None.
Proof.
  unfold arr_tabulate. case_decide as Hi.
  - apply elem_of_list_to_map_1.
    + rewrite <- list_fmap_compose. apply NoDup_fmap_2; [|apply NoDup_seqZ].
      by intros ??.
    + apply list_elem_of_fmap. exists i. split; [done|]. apply elem_of_seqZ. lia.
  - apply not_elem_of_list_to_map_1. rewrite <- list_fmap_compose.
    intros (j & Hj & Hin)%list_elem_of_fmap. simpl in Hj. subst j.
    apply elem_of_seqZ in Hin. lia.
Qed.
End arrays.

Lemma map_size_pos {A} (m : gmap Z A) i x : m !! i = Some x → (0 < size m)%nat.
Proof.
  intros Hi. destruct (size m) eqn:Hz; [|lia].
  apply map_size_empty_inv in Hz. by rewrite Hz, lookup_empty in Hi.
Qed.

(** Pigeonhole: distinct indexes below [lim] are at most [lim]. *)
Lemma NoDup_bound (l : list Z) lim :
  0 ≤ lim → NoDup l → (∀ i, i ∈ l → 0 ≤ i < lim) → Z.of_nat (length l) ≤ lim.
Proof.
  intros Hl Hnd Hin.
  assert (list_to_set (C := gset Z) l ⊆ list_to_set (seqZ 0 lim)) as Hsub.
  { intros i Hi%elem_of_list_to_set. apply elem_of_list_to_set, elem_of_seqZ.
    apply Hin in Hi. lia. }
  apply subseteq_size in Hsub. rewrite !size_list_to_set in Hsub by (done || apply NoDup_seqZ).
  rewrite length_seqZ in Hsub. lia.
Qed.

Lemma submseteq_length_le_of {A} (l k : list A) (n : nat) :
  (length k < n)%nat → NoDup l → (∀ x, x ∈ l → x ∈ k) → (length l < n)%nat.
Proof.
  intros Hn Hnd Hin. apply NoDup_submseteq in Hin; [|done].
  apply submseteq_length in Hin. lia.
Qed.

Lemma map_size_bound {A} (m : gmap Z A) lim :
  0 ≤ lim → (∀ i x, m !! i = Some x → 0 ≤ i < lim) → Z.of_nat (size m) ≤ lim.
Proof.
  intros Hl Hin. rewrite <- (size_dom m). unfold size, set_size. simpl.
  apply NoDup_bound; [done|apply NoDup_elements|].
  intros i [x Hx]%elem_of_elements%elem_of_dom. eauto.
Qed.

Lemma filter_all {A} (P : A → Prop) `{∀ x, Decision (P x)} (l : list A) :
  (∀ x, x ∈ l → P x) → filter P l = l.
Proof.
  induction l as [|x l IH]; intros Hl; [done|].
  rewrite filter_cons_True by (apply Hl; constructor). f_equal. apply IH.
  intros. apply Hl. by constructor.
Qed.

Lemma filter_none {A} (P : A → Prop) `{∀ x, Decision (P x)} (l : list A) :
  (∀ x, x ∈ l → ¬ P x) → filter P l = [].
Proof.
  induction l as [|x l IH]; intros Hl; [done|].
  rewrite filter_cons_False by (apply Hl; constructor). apply IH.
  intros. apply Hl. by constructor.
Qed.

Lemma filter_fmap {A B} (f : A → B) (P : B → Prop) `{∀ x, Decision (P x)} (l : list A) :
  filter P (f <$> l) = f <$> filter (λ x, P (f x)) l.
Proof.
  induction l as [|x l IH]; [done|]. cbn [fmap list_fmap]. rewrite !filter_cons.
  case_decide; [|done]. rewrite fmap_cons. by f_equal.
Qed.

Lemma filter_remove_perm `{EqDecision A} (p : A) (l : list A) :
  NoDup l → p ∈ l → l ≡ₚ p :: filter (λ x, x ≠ p) l.
Proof.
  intros Hnd (l1 & l2 & ->)%list_elem_of_split.
  apply NoDup_app in Hnd as (_ & Hd & [Hp _]%NoDup_cons).
  rewrite filter_app, filter_cons_False by tauto. rewrite !filter_all.
  - by rewrite Permutation_middle.
  - intros x Hx ->. done.
  - intros x Hx ->. apply (Hd p Hx). constructor.
Qed.

Lemma filter_length_lt {A} (P Q : A → Prop) `{∀ x, Decision (P x), ∀ x, Decision (Q x)}
    (l : list A) q :
  (∀ x, x ∈ l → P x → Q x) → q ∈ l → Q q → ¬ P q →
  (length (filter P l) < length (filter Q l))%nat.
Proof.
  intros Himp Hq HQ HP.
  assert (∀ l', (∀ x, x ∈ l' → x ∈ l) →
    (length (filter P l') ≤ length (filter Q l'))%nat) as Hle.
  { intros l' Hin. induction l' as [|x l' IH]; [done|].
    assert (∀ x, x ∈ l' → x ∈ l) as Hin' by (intros; apply Hin; by constructor).
    specialize (IH Hin'). rewrite !filter_cons.
    repeat case_decide; simpl; try lia. exfalso. specialize (Hin x ltac:(constructor)). eauto. }
  apply list_elem_of_split in Hq as (l1 & l2 & ->).
  rewrite !filter_app, !length_app, filter_cons_False, filter_cons_True by done. simpl.
  assert (length (filter P l1) ≤ length (filter Q l1))%nat.
  { apply Hle. intros. apply elem_of_app. by left. }
  assert (length (filter P l2) ≤ length (filter Q l2))%nat.
  { apply Hle. intros. apply elem_of_app. right. by constructor. }
  lia.
Qed.

Lemma bind_Ok {A B} (x : A) (f : A → res B) : rbind (Ok x) f = f x.
Proof. done. Qed.

Lemma bind_inv {A B} (m : res A) (f : A → res B) y :
  rbind m f = Ok y → ∃ x, m = Ok x ∧ f x = Ok y.
Proof. destruct m as [x|e]; [eauto|done]. Qed.

Lemma assert_Ok (b : bool) : b = true → log_assert b = Ok ().
Proof. by intros ->. Qed.

Lemma assert_inv (b : bool) u : log_assert b = Ok u → b = true.
Proof. by destruct b. Qed.

(** Runs the next step of a computation whose outcome the context determines:
    reads of cells with known contents, writes of existing cells and assertions
    that linear arithmetic proves. *)
Ltac run_step :=
  first
    [ rewrite bind_Ok
    | erewrite rd_Ok by eassumption
    | rewrite wr_Ok by (first [eassumption | eexists; eassumption | assumption])
    | rewrite assert_Ok by (simpl; lia) ].
Ltac run := repeat run_step; simpl.

(** Facts that every layer uses. *)
Create HintDb ldm.
#[export] Hint Resolve u64_range u64_small Z.log2_nonneg Z.sqrt_nonneg : ldm.

(** An element that occurs once splits a list in one way. *)
Lemma NoDup_split_eq {A} (l1 l2 k1 k2 : list A) x :
  NoDup (l1 ++ x :: l2) → l1 ++ x :: l2 = k1 ++ x :: k2 → l1 = k1 ∧ l2 = k2.
Proof.
  revert k1. induction l1 as [|a l1 IH]; intros [|b k1] Hnd He; simpl in *.
  - by injection He as ->.
  - injection He as -> ->. apply NoDup_cons in Hnd as [Hnd _]. set_solver.
  - injection He as -> <-. apply NoDup_cons in Hnd as [Hnd _]. set_solver.
  - injection He as -> He. apply NoDup_cons in Hnd as [_ Hnd]. by destruct (IH k1 Hnd He) as [-> ->].
Qed.

Lemma NoDup_remove_mid {A} (l1 l2 : list A) x : NoDup (l1 ++ x :: l2) → NoDup (l1 ++ l2).
Proof.
  intros (H1 & H2 & [_ H3]%NoDup_cons)%NoDup_app. apply NoDup_app. split_and!; [done| |done].
  intros y Hy ?. apply (H2 y Hy). by right.
Qed.
