(* ===== verification/Timestamp.v ===== *)
(** * Timestamps (src/protocol2/timestamp.c, src/protocol2/timestamp.h)

    A [timestampt] is a [struct timeval]; [us] is its value in microseconds.
    Creation-times, insertion-times and residence-times of data-products are
    timestamps, and the time-queue of the product-queue is ordered by them.
    The arithmetic on [tv_sec] is on unbounded integers: a 64-bit [time_t]
    overflows only for times some 10^11 years away. *)

From S2P Require Import Prelude.

Record timestampt := Timestamp { tv_sec : Z; tv_usec : Z }.

#[global] Instance timestampt_eq_dec : EqDecision timestampt.
Proof. solve_decision. Defined.

Definition TS_NONE : timestampt := Timestamp (-1) (-1).
Definition TS_ZERO : timestampt := Timestamp 0 0.
Definition TS_ENDT : timestampt := Timestamp 0x7fffffff 999999.

(** The comparison macros of src/pq/pq.c and src/protocol2/timestamp.h. *)

Definition TV_CMP_LT (tv uv : timestampt) : bool :=
  (tv_sec tv <? tv_sec uv)
  || ((tv_sec tv =? tv_sec uv) && (tv_usec tv <? tv_usec uv)).

Definition TV_CMP_LE (tv uv : timestampt) : bool :=
  (tv_sec tv <? tv_sec uv)
  || ((tv_sec tv =? tv_sec uv) && (tv_usec tv <=? tv_usec uv)).

Definition TV_CMP_EQ (tv uv : timestampt) : bool :=
  (tv_sec tv =? tv_sec uv) && (tv_usec tv =? tv_usec uv).

Definition tvIsNone (tv : timestampt) : bool := TV_CMP_EQ tv TS_NONE.

Definition timestamp_add (left rght : timestampt) : timestampt :=
  let sec := tv_sec left + tv_sec rght in
  let usec := tv_usec left + tv_usec rght in
  if 1000000 <=? usec then Timestamp (sec + 1) (usec - 1000000)
  else Timestamp sec usec.

Definition timestamp_incr (ts : timestampt) : timestampt :=
  if tv_usec ts =? 999999 then Timestamp (tv_sec ts + 1) 0
  else Timestamp (tv_sec ts) (tv_usec ts + 1).

Definition timestamp_decr (ts : timestampt) : timestampt :=
  if tv_usec ts =? 0 then Timestamp (tv_sec ts - 1) 999999
  else Timestamp (tv_sec ts) (tv_usec ts - 1).

Definition diff_timestamp (afta b4 : timestampt) : timestampt :=
  let sec := tv_sec afta - tv_sec b4 in
  let usec := tv_usec afta - tv_usec b4 in
  if usec <? 0 then
    if 0 <? sec then Timestamp (sec - 1) (usec + 1000000)
    else Timestamp 0 0
  else Timestamp sec usec.

(** C's [/] and [%] truncate towards zero: [Z.quot] and [Z.rem]. *)
Definition timeval_normalize (tv : timestampt) : timestampt :=
  let tv1 :=
    if (1000000 <=? tv_usec tv) || (tv_usec tv <=? -1000000)
    then Timestamp (tv_sec tv + Z.quot (tv_usec tv) 1000000)
                   (Z.rem (tv_usec tv) 1000000)
    else tv in
  if (0 <? tv_sec tv1) && (tv_usec tv1 <? 0)
  then Timestamp (tv_sec tv1 - 1) (tv_usec tv1 + 1000000)
  else if (tv_sec tv1 <? 0) && (0 <? tv_usec tv1)
  then Timestamp (tv_sec tv1 + 1) (tv_usec tv1 - 1000000)
  else tv1.

Definition timeval_init_from_difference (later earlier : timestampt) : timestampt :=
  timeval_normalize
    (Timestamp (tv_sec later - tv_sec earlier) (tv_usec later - tv_usec earlier)).

(** [timespec] is given by its two members. *)
Definition timeval_init_from_timespec (ts_sec ts_nsec : Z) : timestampt :=
  timeval_normalize (Timestamp ts_sec (Z.quot (ts_nsec + 500) 1000)).

(** ** The value of a timestamp *)

Definition us (t : timestampt) : Z := tv_sec t * 1000000 + tv_usec t.

(** What [gettimeofday()] returns and every stored timestamp satisfies. *)
Definition ts_valid (t : timestampt) : Prop := 0 ≤ tv_usec t < 1000000.

#[global] Instance ts_valid_dec t : Decision (ts_valid t).
Proof. unfold ts_valid. apply _. Defined.

(** A duration in the canonical form of [timeval_normalize()]: less than a
    second's worth of microseconds, of the same sign as the seconds. *)
Definition dur_canonical (t : timestampt) : Prop :=
  -1000000 < tv_usec t < 1000000 ∧
  (0 < tv_sec t → 0 ≤ tv_usec t) ∧ (tv_sec t < 0 → tv_usec t ≤ 0).

Ltac ts_unfold :=
  unfold TV_CMP_LT, TV_CMP_LE, TV_CMP_EQ, tvIsNone, timestamp_add, timestamp_incr,
    timestamp_decr, diff_timestamp, ts_valid, us, dur_canonical,
    timeval_init_from_difference, timeval_init_from_timespec in *.

(** Case analysis on every test of a goal over concrete timestamp fields. *)
Ltac ts_cases :=
  repeat match goal with
         | |- context [if ?b then _ else _] => destruct b eqn:?; simpl in *
         end.

#[global] Instance TV_CMP_LT_order : KeyOrder TV_CMP_LT.
Proof.
  split; ts_unfold.
  - intros [a b]. simpl. lia.
  - intros [a b] [c d] [e f]. simpl. lia.
  - intros [a b] [c d]. simpl. intros. f_equal; lia.
Qed.

Lemma TV_CMP_EQ_eq t u : TV_CMP_EQ t u = true ↔ t = u.
Proof.
  ts_unfold. destruct t as [a b], u as [c d]. simpl. split; [|intros [= -> ->]; lia].
  intros. f_equal; lia.
Qed.

Lemma TV_CMP_LT_us t u :
  ts_valid t → ts_valid u → TV_CMP_LT t u = true ↔ us t < us u.
Proof. ts_unfold. destruct t, u. simpl. lia. Qed.

Lemma us_inj t u : ts_valid t → ts_valid u → us t = us u → t = u.
Proof. ts_unfold. destruct t, u. simpl. intros. f_equal; lia. Qed.

Lemma timestamp_incr_valid t : ts_valid t → ts_valid (timestamp_incr t).
Proof. ts_unfold. destruct t. simpl. ts_cases; lia. Qed.

Lemma timestamp_incr_us t : us (timestamp_incr t) = us t + 1.
Proof. ts_unfold. destruct t. simpl. ts_cases; lia. Qed.

Lemma timestamp_incr_lt t : ts_valid t → TV_CMP_LT t (timestamp_incr t) = true.
Proof. ts_unfold. destruct t. simpl. ts_cases; lia. Qed.

(** Nothing lies strictly between a valid timestamp and its increment. *)
Lemma timestamp_incr_least t u :
  ts_valid t → ts_valid u → TV_CMP_LT t u = true →
  TV_CMP_LT u (timestamp_incr t) = false.
Proof. ts_unfold. destruct t, u. simpl. ts_cases; lia. Qed.

Lemma timestamp_decr_valid t : ts_valid t → ts_valid (timestamp_decr t).
Proof. ts_unfold. destruct t. simpl. ts_cases; lia. Qed.

Lemma timestamp_decr_incr t : ts_valid t → timestamp_decr (timestamp_incr t) = t.
Proof.
  intros Hv. ts_unfold. destruct t as [s m]. simpl in *.
  ts_cases; simpl in *; f_equal; lia.
Qed.

Lemma timestamp_incr_decr t : ts_valid t → timestamp_incr (timestamp_decr t) = t.
Proof.
  intros Hv. ts_unfold. destruct t as [s m]. simpl in *.
  ts_cases; simpl in *; f_equal; lia.
Qed.

Lemma timestamp_add_spec t u :
  ts_valid t → ts_valid u →
  ts_valid (timestamp_add t u) ∧ us (timestamp_add t u) = us t + us u.
Proof. ts_unfold. destruct t, u. simpl. ts_cases; lia. Qed.

Lemma timeval_normalize_us t : us (timeval_normalize t) = us t.
Proof.
  destruct t as [s m]. unfold timeval_normalize. simpl.
  pose proof (Z.quot_rem' m 1000000).
  ts_unfold. ts_cases; lia.
Qed.

Lemma timeval_normalize_canonical t : dur_canonical (timeval_normalize t).
Proof.
  destruct t as [s m]. unfold timeval_normalize. simpl.
  pose proof (Z.rem_bound_abs m 1000000).
  ts_unfold. ts_cases; lia.
Qed.

(** The difference of two valid timestamps, the later one first, is the
    valid timestamp that holds their distance in microseconds; adding it back
    to the earlier one gives the later one. *)
Theorem diff_timestamp_correct afta b4 :
  ts_valid afta → ts_valid b4 → TV_CMP_LT afta b4 = false →
  ts_valid (diff_timestamp afta b4) ∧
  us (diff_timestamp afta b4) = us afta - us b4 ∧
  timestamp_add b4 (diff_timestamp afta b4) = afta.
Proof.
  intros Ha Hb Hlt.
  assert (ts_valid (diff_timestamp afta b4) ∧
          us (diff_timestamp afta b4) = us afta - us b4) as [Hv Hus].
  { ts_unfold. destruct afta, b4. simpl in *. ts_cases; lia. }
  split_and!; [done..|].
  destruct (timestamp_add_spec b4 (diff_timestamp afta b4)) as [Hv' Hus']; [done..|].
  apply us_inj; [done..|lia].
Qed.

Lemma diff_timestamp_correct_witness :
  diff_timestamp (Timestamp 7 100) (Timestamp 5 999999) = Timestamp 1 101 ∧
  timestamp_add (Timestamp 5 999999) (Timestamp 1 101) = Timestamp 7 100.
Proof.
  split; [reflexivity|].
  apply (diff_timestamp_correct (Timestamp 7 100) (Timestamp 5 999999));
    vm_compute; [split; congruence..|reflexivity].
Defined.

(** When the first argument is the earlier one the result is zero only if
    its microseconds are below the other's; otherwise a negative number of
    seconds is returned, though the function's comment promises that negative
    differences map to TS_ZERO. *)
Theorem diff_timestamp_negative afta b4 :
  ts_valid afta → ts_valid b4 → TV_CMP_LT afta b4 = true →
  (diff_timestamp afta b4 = TS_ZERO ↔ tv_usec afta < tv_usec b4) ∧
  (tv_usec b4 ≤ tv_usec afta → tv_sec (diff_timestamp afta b4) < 0).
Proof.
  intros Ha Hb Hlt. ts_unfold. destruct afta, b4. simpl in *.
  unfold TS_ZERO.
  ts_cases; (split; [split|]; intros; simplify_eq; simpl in *; try lia; try done).
Qed.

Lemma diff_timestamp_negative_witness :
  tv_sec (diff_timestamp (Timestamp 1 500000) (Timestamp 2 100000)) < 0.
Proof.
  apply (diff_timestamp_negative (Timestamp 1 500000) (Timestamp 2 100000));
    vm_compute; first [reflexivity | split; congruence | congruence].
Defined.

(** A duration computed from any two time-values has the value of their
    difference and is in canonical form: fewer than 10^6 microseconds, never of
    the opposite sign of the seconds. *)
Theorem timeval_difference_correct later earlier :
  us (timeval_init_from_difference later earlier) = us later - us earlier ∧
  dur_canonical (timeval_init_from_difference later earlier).
Proof.
  unfold timeval_init_from_difference. rewrite timeval_normalize_us.
  split; [unfold us; simpl; lia|apply timeval_normalize_canonical].
Qed.

(** The time-value made from a non-negative time-specification is the closest
    one: the error is at most half a microsecond. *)
Lemma timeval_from_timespec_closest s n :
  0 ≤ n →
  let t := timeval_init_from_timespec s n in
  dur_canonical t ∧
  -500 ≤ (s * 1000000000 + n) - us t * 1000 < 500.
Proof.
  intros Hn t. unfold t, timeval_init_from_timespec.
  split; [apply timeval_normalize_canonical|].
  rewrite timeval_normalize_us. unfold us. simpl.
  rewrite Z.quot_div_nonneg by lia.
  pose proof (Z.div_mod (n + 500) 1000 ltac:(lia)).
  pose proof (Z.mod_pos_bound (n + 500) 1000 ltac:(lia)). lia.
Qed.
