(* ===== verification/NumTheory.v ===== *)
(** * Number-theoretic helpers of the product-queue

    - [gcd0], [gcd], [lcm]: src/pq/lcm.c, used to reconcile the alignment of
      data regions with the page size;
    - [isprime], [prevprime]: src/pq/pq.c, used to size the hash tables of the
      region list and of the signature index;
    - [rlhash_nchains] and [nchains]: the sizes themselves.

    [unsigned long] is 64 bits wide. *)

From Stdlib Require Import Znumtheory.
From S2P Require Import Prelude.

Definition ULONG_MAX : Z := 2 ^ 64 - 1.

(** ** lcm.c *)

(** The loop of [gcd0()]: [while(nn > 1) { tmp = nn; nn = mm % nn; mm = tmp; }]. *)
Fixpoint gcd0_loop (fuel : nat) (mm nn : Z) : res (Z * Z) :=
  match fuel with
  | O => Err OutOfFuel
  | S fuel => if 1 <? nn then gcd0_loop fuel nn (mm mod nn) else Ok (mm, nn)
  end.

(** Two turns of the loop at least halve [nn]. *)
Definition gcd0_fuel (nn : Z) : nat := S (S (2 * Z.to_nat (Z.log2 nn))).

Definition gcd0 (mm nn : Z) : res Z :=
  assert! nn <=? mm in
  let! '(mm, nn) := gcd0_loop (gcd0_fuel nn) mm nn in
  if nn =? 0 then Ok mm
  else assert! nn =? 1 in Ok 1.

Definition gcd (mm nn : Z) : res Z :=
  if mm <? nn then gcd0 nn mm else gcd0 mm nn.

(** [lcm()] returns its value and whether it set [errno] to [ERANGE]. *)
Definition lcm (mm nn : Z) : res (Z * bool) :=
  if mm =? nn then Ok (mm, false)
  else
    let '(mm, nn) := if mm <? nn then (nn, mm) else (mm, nn) in
    if nn =? 0 then Ok (0, false)
    else if nn =? 1 then Ok (mm, false)
    else
      let! gg := gcd0 mm nn in
      assert! negb (gg =? 0) in
      let mm := mm / gg in
      let gg := ULONG_MAX / nn in
      if (mm <? gg) || ((mm =? gg) && negb (ULONG_MAX mod nn =? 0))
      then Ok (u64 (mm * nn), false)
      else Ok (ULONG_MAX, true).

(** ** Primes (src/pq/pq.c) *)

(** [for(d = 23; d*d <= n; d += 2) if (n % d == 0) return 0; return 1;] *)
Fixpoint isprime_loop (fuel : nat) (n d : Z) : res bool :=
  match fuel with
  | O => Err OutOfFuel
  | S fuel =>
      if u64 (d * d) <=? n then
        if n mod d =? 0 then Ok false else isprime_loop fuel n (d + 2)
      else Ok true
  end.

Definition isprime (n : Z) : res bool :=
  assert! n <=? 4294967290 in
  if n <=? 1 then Ok false
  else if (n <=? 19) && ((n =? 2) || (n =? 3) || (n =? 5) || (n =? 7) || (n =? 11)
                         || (n =? 13) || (n =? 17) || (n =? 19))
  then Ok true
  else if (n mod 2 =? 0) || (n mod 3 =? 0) || (n mod 5 =? 0) || (n mod 7 =? 0)
          || (n mod 11 =? 0) || (n mod 13 =? 0) || (n mod 17 =? 0) || (n mod 19 =? 0)
  then Ok false
  else isprime_loop (S (Z.to_nat (Z.sqrt n))) n 23.

(** [while(n > 0) { if(isprime(n)) return n; n -= 2; } return 0;] *)
Fixpoint prevprime_loop (fuel : nat) (n : Z) : res Z :=
  match fuel with
  | O => Err OutOfFuel
  | S fuel =>
      if 0 <? n then
        let! b := isprime n in
        if b then Ok n else prevprime_loop fuel (u64 (n - 2))
      else Ok 0
  end.

Definition prevprime (n : Z) : res Z :=
  assert! 1 <? n in
  if n =? 2 then Ok n
  else
    let n := if n mod 2 =? 0 then n - 1 else n in
    prevprime_loop (S (Z.to_nat n)) n.

Definition RL_EXP_CHAIN_LEN : Z := 4.
Definition SX_EXP_CHAIN_LEN : Z := 4.

Definition rlhash_nchains (nelems : Z) : res Z :=
  prevprime (nelems / RL_EXP_CHAIN_LEN).

Definition nchains (nelems : Z) : res Z :=
  prevprime (nelems / SX_EXP_CHAIN_LEN).

(** ** gcd and lcm *)

Lemma gcd0_loop_spec fuel mm nn :
  0 ≤ nn ≤ mm → (nn ≤ 1 ∧ (1 ≤ fuel)%nat) ∨
                 (1 < nn ∧ ∃ k, nn < 2 ^ Z.of_nat k ∧ (2 * k ≤ fuel)%nat) →
  ∃ a b, gcd0_loop fuel mm nn = Ok (a, b) ∧
         Z.gcd a b = Z.gcd mm nn ∧ (b = 0 ∨ b = 1) ∧ 0 ≤ a.
Proof.
  revert mm nn. induction fuel as [fuel IH] using lt_wf_ind.
  intros mm nn Hnn [[H1 Hf]|(H1 & k & Hk & Hf)].
  { destruct fuel as [|fuel]; [lia|]. simpl. destruct (Z.ltb_spec 1 nn); [lia|].
    exists mm, nn. split_and!; [done..|lia|lia]. }
  destruct k as [|k]; [change (2 ^ Z.of_nat 0) with 1 in Hk; lia|].
  destruct fuel as [|[|fuel]]; [lia..|].
  cbn [gcd0_loop]. destruct (Z.ltb_spec 1 nn) as [_|]; [|lia].
  set (r := mm mod nn). assert (0 ≤ r < nn) by (apply Z.mod_pos_bound; lia).
  assert (Z.gcd nn r = Z.gcd mm nn) as <-.
  { unfold r. rewrite Z.gcd_comm, Z.gcd_mod by lia. apply Z.gcd_comm. }
  destruct (Z.ltb_spec 1 r) as [Hr|Hr].
  - set (s := nn mod r). assert (0 ≤ s < r) by (apply Z.mod_pos_bound; lia).
    assert (2 * s < nn).
    { pose proof (Z.div_mod nn r ltac:(lia)). fold s in H2.
      assert (1 ≤ nn / r) by (apply Z.div_le_lower_bound; lia). nia. }
    assert (Z.gcd r s = Z.gcd nn r) as <-.
    { unfold s. rewrite Z.gcd_comm, Z.gcd_mod by lia. apply Z.gcd_comm. }
    rewrite Nat2Z.inj_succ, Z.pow_succ_r in Hk by lia.
    apply IH; [lia..|]. destruct (Z.le_gt_cases s 1); [|right; split; [lia|exists k; lia]].
    left. split; [lia|]. destruct k; [change (2 ^ Z.of_nat 0) with 1 in Hk; lia|lia].
  - exists nn, r. split_and!; [done..|lia|lia].
Qed.

Lemma gcd0_correct mm nn : 0 ≤ nn ≤ mm → gcd0 mm nn = Ok (Z.gcd mm nn).
Proof.
  intros Hn. unfold gcd0. rewrite assert_Ok by lia. rewrite bind_Ok.
  destruct (gcd0_loop_spec (gcd0_fuel nn) mm nn) as (a & b & -> & Hg & Hb & Ha); [lia|..].
  { unfold gcd0_fuel. destruct (Z.le_gt_cases nn 1); [left; lia|right].
    split; [lia|]. exists (S (Z.to_nat (Z.log2 nn))).
    pose proof (Z.log2_spec nn ltac:(lia)).
    split; [|lia]. rewrite Nat2Z.inj_succ, Z2Nat.id by apply Z.log2_nonneg. lia. }
  rewrite bind_Ok, <- Hg. destruct Hb as [-> | ->]; simpl.
  - by rewrite Z.gcd_0_r, Z.abs_eq by lia.
  - by rewrite Z.gcd_1_r.
Qed.

(** [gcd()] terminates on every pair of unsigned longs and returns their
    greatest common divisor; its assertions never fail. *)
Theorem gcd_correct mm nn : 0 ≤ mm → 0 ≤ nn → gcd mm nn = Ok (Z.gcd mm nn).
Proof.
  intros. unfold gcd. destruct (Z.ltb_spec mm nn).
  - rewrite gcd0_correct by lia. by rewrite Z.gcd_comm.
  - by rewrite gcd0_correct by lia.
Qed.

Lemma gcd_correct_witness : gcd 4096 24 = Ok 8.
Proof. rewrite (gcd_correct 4096 24); [reflexivity|lia..]. Defined.

Lemma lcm_quot_gcd a b : 0 < a → 0 < b → a / Z.gcd a b * b = Z.lcm a b.
Proof.
  intros. rewrite <- Z.lcm_comm. unfold Z.lcm.
  pose proof (Z.gcd_divide_l a b) as [q Hq]. pose proof (Z.gcd_divide_r a b) as [r Hr].
  pose proof (Z.gcd_nonneg a b). assert (Z.gcd a b ≠ 0) by (intros Hz; nia).
  rewrite (Z.gcd_comm b a). set (g := Z.gcd a b) in *.
  assert (a / g = q) as -> by (rewrite Hq; apply Z.div_mul; lia).
  rewrite Z.abs_eq; [lia|]. apply Z.mul_nonneg_nonneg; [lia|]. nia.
Qed.

Lemma lcm_spec mm nn :
  0 ≤ mm ≤ ULONG_MAX → 0 ≤ nn ≤ ULONG_MAX →
  ∃ v e, lcm mm nn = Ok (v, e) ∧
         v = Z.min (Z.lcm mm nn) ULONG_MAX ∧
         (e = false → v = Z.lcm mm nn) ∧
         (e = true → ULONG_MAX ≤ Z.lcm mm nn).
Proof.
  intros Hm Hn. unfold lcm. destruct (Z.eqb_spec mm nn) as [->|Hne].
  { exists nn, false. rewrite Z.lcm_diag, Z.abs_eq by lia.
    split_and!; [done|lia|done|done]. }
  assert (∃ a b, (if mm <? nn then (nn, mm) else (mm, nn)) = (a, b) ∧
                 Z.lcm mm nn = Z.lcm a b ∧ 0 ≤ b < a ∧ a ≤ ULONG_MAX)
    as (a & b & -> & -> & Hb & Ha).
  { destruct (Z.ltb_spec mm nn).
    - exists nn, mm. rewrite Z.lcm_comm. split_and!; [done|done|lia..].
    - exists mm, nn. split_and!; [done|done|lia..]. }
  destruct (Z.eqb_spec b 0) as [->|Hb0].
  { exists 0, false. rewrite Z.lcm_0_r. split_and!; done. }
  destruct (Z.eqb_spec b 1) as [->|Hb1].
  { exists a, false. rewrite Z.lcm_1_r, Z.abs_eq by lia. split_and!; [done|lia|done|done]. }
  rewrite gcd0_correct, bind_Ok by lia.
  pose proof (Z.gcd_nonneg a b).
  assert (Z.gcd a b ≠ 0) by (intros ?%Z.gcd_eq_0_l; lia).
  rewrite assert_Ok, bind_Ok by lia.
  pose proof (lcm_quot_gcd a b ltac:(lia) ltac:(lia)) as Hl.
  assert (0 ≤ a / Z.gcd a b) by (apply Z.div_pos; lia).
  set (q := a / Z.gcd a b) in *.
  pose proof (Z.div_mod ULONG_MAX b ltac:(lia)).
  pose proof (Z.mod_pos_bound ULONG_MAX b ltac:(lia)).
  set (g := ULONG_MAX / b) in *. set (r := ULONG_MAX mod b) in *.
  destruct ((q <? g) || ((q =? g) && negb (r =? 0))) eqn:Hc.
  - assert (q * b < ULONG_MAX) by nia.
    exists (q * b), false. rewrite u64_small by (unfold ULONG_MAX in *; nia).
    split_and!; [done|lia|lia|done].
  - exists ULONG_MAX, true.
    assert (ULONG_MAX ≤ q * b) by nia.
    split_and!; [done|lia|done|lia].
Qed.

(** [lcm()] returns the least common multiple of two unsigned longs, or
    [ULONG_MAX] when it does not fit; it reports [ERANGE] only when the true
    value is at least [ULONG_MAX], and what it returns without [ERANGE] is the
    least common multiple itself: the product never wraps around. *)
Theorem lcm_correct mm nn :
  0 ≤ mm ≤ ULONG_MAX → 0 ≤ nn ≤ ULONG_MAX →
  ∃ v e, lcm mm nn = Ok (v, e) ∧
         v = Z.min (Z.lcm mm nn) ULONG_MAX ∧
         (e = false → v = Z.lcm mm nn) ∧
         (e = true → ULONG_MAX ≤ Z.lcm mm nn).
Proof. apply lcm_spec. Qed.

Lemma lcm_correct_witness :
  (∃ v e, lcm 4096 24 = Ok (v, e) ∧ v = Z.min (Z.lcm 4096 24) ULONG_MAX ∧
     (e = false → v = Z.lcm 4096 24) ∧ (e = true → ULONG_MAX ≤ Z.lcm 4096 24)) ∧
  lcm 4096 24 = Ok (12288, false) ∧ lcm (2 ^ 63) 3 = Ok (ULONG_MAX, true).
Proof.
  split; [apply (lcm_correct 4096 24); vm_compute; split; congruence|].
  split; vm_compute; reflexivity.
Defined.

(** ** Primes *)

(** Trial division by the first eight primes. *)
Definition small_free (n : Z) : Prop :=
  n mod 2 ≠ 0 ∧ n mod 3 ≠ 0 ∧ n mod 5 ≠ 0 ∧ n mod 7 ≠ 0 ∧
  n mod 11 ≠ 0 ∧ n mod 13 ≠ 0 ∧ n mod 17 ≠ 0 ∧ n mod 19 ≠ 0.

Lemma mod_divide_trans n d p : 0 < p → (d | n) → n mod p ≠ 0 → d mod p ≠ 0.
Proof.
  intros Hp [q ->] Hn Hd. apply Hn. apply Z.mod_divide; [lia|].
  apply Z.mod_divide in Hd; [|lia]. by apply Z.divide_mul_r.
Qed.

Lemma small_free_divisor n d : 1 < d → (d | n) → small_free n → 23 ≤ d ∧ d mod 2 = 1.
Proof.
  intros Hd Hdiv (H2 & H3 & H5 & H7 & H11 & H13 & H17 & H19).
  apply (mod_divide_trans n d) in H2, H3, H5, H7, H11, H13, H17, H19; [|done..].
  clear Hdiv n. split; [|pose proof (Z.mod_pos_bound d 2); lia].
  destruct (Z.le_gt_cases 23 d); [done|exfalso].
  assert (Forall (λ d, d mod 2 = 0 ∨ d mod 3 = 0 ∨ d mod 5 = 0 ∨ d mod 7 = 0 ∨
    d mod 11 = 0 ∨ d mod 13 = 0 ∨ d mod 17 = 0 ∨ d mod 19 = 0) (seqZ 2 21)) as Hall.
  { apply (bool_decide_unpack _). by vm_compute. }
  rewrite Forall_forall in Hall. specialize (Hall d).
  rewrite elem_of_seqZ in Hall. lia.
Qed.

Lemma composite_divisor n : 1 < n → ¬ prime n → ∃ d, 1 < d ∧ d * d ≤ n ∧ (d | n).
Proof.
  intros Hn Hp. destruct (not_prime_divide n Hn Hp) as (a & Ha & [b Hb]).
  destruct (Z.le_gt_cases a b).
  - exists a. split_and!; [lia|nia|]. by exists b.
  - exists b. split_and!; [nia|nia|]. exists a. lia.
Qed.

Lemma isprime_loop_spec fuel n d :
  23 ≤ n ≤ 4294967290 → 23 ≤ d ≤ 70000 → Z.sqrt n < d + Z.of_nat fuel →
  ∃ b, isprime_loop (S fuel) n d = Ok b ∧
       (b = true ↔ ∀ e, d ≤ e → e mod 2 = d mod 2 → e * e ≤ n → ¬ (e | n)).
Proof.
  pose proof (λ e, Z.sqrt_le_square n e) as Hsq.
  revert d. induction fuel as [|fuel IH]; intros d Hn Hd Hf;
    cbn [isprime_loop]; rewrite u64_small by nia;
    (destruct (Z.leb_spec (d * d) n) as [Hle|Hgt];
     [|exists true; split; [done|]; split; [|done]; intros _ e He _ Hs; nia]).
  { exfalso. apply Hsq in Hle; [|lia..]. simpl in Hf. lia. }
  destruct (Z.eqb_spec (n mod d) 0) as [H0|H0].
  - exists false. split; [done|]. split; [done|]. intros Hall. exfalso.
    apply (Hall d); [lia..|]. by apply Z.mod_divide; [lia|].
  - assert (d < 65536) by nia.
    destruct (IH (d + 2)) as (b & Hb & Hall); [lia..|]. exists b. split; [done|].
    rewrite Hall. clear Hb Hall IH. split; intros Hall e He Hm Hs.
    + destruct (decide (e = d)) as [->|]; [by rewrite <- Z.mod_divide by lia|].
      apply Hall; [div_lia|div_lia|done].
    + apply Hall; [lia|div_lia|done].
Qed.

Lemma small_primes p : p ∈ [2; 3; 5; 7; 11; 13; 17; 19] → prime p.
Proof.
  intros Hp.
  assert (Forall (λ p, 1 < p < 20 ∧ Forall (λ d, d * d ≤ p → p mod d ≠ 0) [2; 3; 4])
            [2; 3; 5; 7; 11; 13; 17; 19]) as Hall.
  { apply (bool_decide_unpack _). by vm_compute. }
  rewrite Forall_forall in Hall. destruct (Hall p Hp) as [Hr Hd].
  rewrite Forall_forall in Hd.
  destruct (prime_dec p) as [|Hnp]; [done|exfalso].
  destruct (composite_divisor p) as (d & Hd1 & Hd2 & Hd3); [lia|done|].
  apply Z.mod_divide in Hd3; [|lia]. apply (Hd d); [|done..].
  rewrite !elem_of_cons. assert (d < 5) by nia. lia.
Qed.

Lemma prime_divisor p a : prime p → (a | p) → 1 < a → a = p.
Proof.
  intros [Hp Hall]%prime_alt Hdiv Ha. pose proof (Z.divide_pos_le a p ltac:(lia) Hdiv).
  destruct (decide (a = p)) as [|Hne]; [done|]. by destruct (Hall a); [lia|].
Qed.

#[export] Instance prime_decision n : Decision (prime n) := prime_dec n.

Lemma isprime_spec n : n ≤ 4294967290 → ∃ b, isprime n = Ok b ∧ (b = true ↔ prime n).
Proof.
  intros Hn. unfold isprime. rewrite assert_Ok, bind_Ok by lia.
  destruct (Z.leb_spec n 1).
  { exists false. split; [done|]. split; [done|]. intros [? _]. lia. }
  case_if Hs.
  { exists true. split; [done|]. split; [|done]. intros _. apply small_primes.
    set_unfold. lia. }
  case_if Hm.
  { exists false. split; [done|]. split; [done|]. intros Hp. exfalso.
    assert (∃ p, p ∈ [2; 3; 5; 7; 11; 13; 17; 19] ∧ n mod p = 0) as (p & Hin & Hmod).
    { apply orb_true_iff in Hm as [Hm|Hm]; [|exists 19; split; [by repeat constructor|lia]].
      repeat (apply orb_true_iff in Hm as [Hm|Hm];
              [|eexists; split; [|apply Z.eqb_eq, Hm]; by repeat constructor]).
      eexists; split; [|apply Z.eqb_eq, Hm]; by repeat constructor. }
    assert (1 < p) by (set_unfold; lia).
    apply Z.mod_divide in Hmod; [|lia].
    apply prime_divisor in Hmod; [|done..]. subst p. set_unfold. lia. }
  assert (small_free n) as Hsf by (unfold small_free; lia).
  destruct (isprime_loop_spec (Z.to_nat (Z.sqrt n)) n 23) as (b & Hb & Hall).
  { split; [|done]. eapply small_free_divisor; [done|done|done]. }
  { lia. } { pose proof (Z.sqrt_nonneg n). lia. }
  exists b. split; [done|]. rewrite Hall. split.
  - intros H23. destruct (prime_dec n) as [|Hnp]; [done|exfalso].
    destruct (composite_divisor n) as (d & Hd1 & Hd2 & Hd3); [lia|done|].
    destruct (small_free_divisor n d) as [? ?]; [done..|].
    by apply (H23 d).
  - intros Hp e He _ Hsq Hdiv. apply prime_divisor in Hdiv; [|done|lia]. nia.
Qed.

(** [isprime()] terminates for every argument it admits and decides
    primality. *)
Theorem isprime_correct n :
  n ≤ 4294967290 → isprime n = Ok (bool_decide (prime n)).
Proof.
  intros (b & -> & Hb)%isprime_spec. f_equal. symmetry.
  destruct b; [apply bool_decide_eq_true_2|apply bool_decide_eq_false_2]; naive_solver.
Qed.

Lemma isprime_correct_witness : isprime 4099 = Ok (bool_decide (prime 4099)).
Proof. apply (isprime_correct 4099). vm_compute. congruence. Defined.

Lemma prevprime_loop_spec fuel n :
  3 ≤ n ≤ 4294967290 → n mod 2 = 1 → n < Z.of_nat fuel →
  ∃ p, prevprime_loop fuel n = Ok p ∧ prime p ∧ p ≤ n ∧
       ∀ q, prime q → q mod 2 = 1 → q ≤ n → q ≤ p.
Proof.
  revert n. induction fuel as [|fuel IH]; intros n Hn Hodd Hf; [lia|].
  cbn [prevprime_loop]. destruct (Z.ltb_spec 0 n); [|lia].
  destruct (isprime_spec n) as (b & -> & Hb); [lia|]. rewrite bind_Ok.
  destruct b.
  - exists n. split_and!; [done|by apply Hb|lia|lia].
  - assert (n ≠ 3) as H3.
    { intros ->. destruct Hb as [_ Hb]. by discriminate Hb; apply small_primes; repeat constructor. }
    rewrite u64_small by lia.
    destruct (IH (n - 2)) as (p & -> & Hp & Hle & Hmax); [div_lia|div_lia|lia|].
    exists p. split_and!; [done|done|lia|].
    intros q Hq Hqo Hqn. destruct (decide (q = n)) as [->|].
    + destruct Hb as [_ Hb]. by discriminate (Hb Hq).
    + apply Hmax; [done|done|div_lia].
Qed.

Lemma prime_2_or_odd q : prime q → q = 2 ∨ (3 ≤ q ∧ q mod 2 = 1).
Proof.
  intros Hq. destruct (decide (q mod 2 = 0)) as [H0|H0].
  - left. apply Z.mod_divide in H0; [|lia]. by apply prime_divisor in H0.
  - right. destruct Hq as [? _]. div_lia.
Qed.

Lemma prevprime_spec n :
  1 < n ≤ 4294967290 →
  ∃ p, prevprime n = Ok p ∧ prime p ∧ p ≤ n ∧ ∀ q, prime q → q ≤ n → q ≤ p.
Proof.
  intros Hn. unfold prevprime. rewrite assert_Ok, bind_Ok by lia.
  destruct (Z.eqb_spec n 2) as [->|Hn2].
  { exists 2. split_and!; [done|apply small_primes; repeat constructor|lia|done]. }
  set (m := if n mod 2 =? 0 then n - 1 else n).
  assert (3 ≤ m ≤ n ∧ m mod 2 = 1 ∧ n - 1 ≤ m ∧ (m < n → n mod 2 = 0)) as (? & ? & ? & ?).
  { unfold m. case_if Hm; div_lia. }
  destruct (prevprime_loop_spec (S (Z.to_nat m)) m) as (p & -> & Hp & Hle & Hmax); [lia..|].
  exists p. split_and!; [done|done|lia|]. intros q Hq Hqn.
  assert (3 ≤ p). { apply Hmax; [apply small_primes; repeat constructor|done|lia]. }
  destruct (prime_2_or_odd q Hq) as [->|[? ?]]; [lia|].
  apply Hmax; [done|done|]. div_lia.
Qed.

(** For every argument above 1 (and within the range [isprime()] admits)
    [prevprime()] terminates and returns the largest prime that is not above
    its argument; so the number of hash chains of an index of at least eight
    slots is always defined and positive. *)
Theorem prevprime_correct n :
  1 < n ≤ 4294967290 →
  ∃ p, prevprime n = Ok p ∧ prime p ∧ p ≤ n ∧ ∀ q, prime q → q ≤ n → q ≤ p.
Proof. apply prevprime_spec. Qed.

Lemma prevprime_correct_witness :
  (∃ p, prevprime 1000 = Ok p ∧ prime p ∧ p ≤ 1000 ∧ ∀ q, prime q → q ≤ 1000 → q ≤ p) ∧
  prevprime 1000 = Ok 997.
Proof. split; [apply (prevprime_correct 1000); lia|vm_compute; reflexivity]. Defined.

Lemma nchains_pos nelems :
  8 ≤ nelems ≤ 2 ^ 32 → ∃ p, nchains nelems = Ok p ∧ 2 ≤ p ≤ nelems / 4.
Proof.
  intros Hn. unfold nchains, SX_EXP_CHAIN_LEN.
  destruct (prevprime_spec (nelems / 4)) as (p & -> & [? _] & Hle & _); [div_lia|].
  exists p. split; [done|lia].
Qed.

Lemma rlhash_nchains_pos nelems :
  8 ≤ nelems ≤ 2 ^ 32 → ∃ p, rlhash_nchains nelems = Ok p ∧ 2 ≤ p ≤ nelems / 4.
Proof. apply nchains_pos. Qed.
