(* ===== verification/Fb.v ===== *)
(** * The skip-list block allocator (layer "fb" of src/pq/pq.c)

    A data-product queue keeps the forward-pointer blocks of its three skip
    lists in one arena of cells, [fblks], inside the memory-mapped file.  A
    block of [k] consecutive cells is named by the index of its first cell.
    Free blocks of each size are kept on a list threaded through their first
    cells; [free[maxsize]] heads a list of spare blocks of the greatest size.

    [fb] is the C structure.  [fb_inv] is its representation invariant, stated
    with a ghost map [bs] from every block to its size and owner.  Clients see
    only [fb_own f U]: the allocator is well-formed and [U] maps every block
    the clients hold to its size. *)

From S2P Require Import Prelude.

Definition MAXLEVELS : Z := 15.
Definition FB_MAGIC : Z := 0x54514642.

(** [OFF_NONE] as an [off_t] and, cast, as an [fblk_t]. *)
Definition OFF_NONE : Z := -1.
Definition FBLK_NONE : Z := u64 OFF_NONE.

Record fb := Fb {
  fb_magic : Z;
  fb_maxsize : Z;
  fb_arena_sz : Z;
  fb_avail : Z;
  fb_allocated : Z;
  fb_nfree : gmap Z Z;
  fb_free : gmap Z Z;
  fb_fblks : gmap Z Z;
}.

Definition fb_set_fblks (f : fb) (m : gmap Z Z) : fb :=
  Fb (fb_magic f) (fb_maxsize f) (fb_arena_sz f) (fb_avail f) (fb_allocated f)
     (fb_nfree f) (fb_free f) m.

Definition fb_set_allocated (f : fb) (n : Z) : fb :=
  Fb (fb_magic f) (fb_maxsize f) (fb_arena_sz f) (fb_avail f) n
     (fb_nfree f) (fb_free f) (fb_fblks f).

(** ** Random levels *)

(** The static variables of [fb_ranlev()]; [xsubi] is the 48-bit state that its
    three [unsigned short]s hold, least significant first. *)
Record rng := Rng { randomsLeft : Z; randomBits : Z; xsubi : Z }.

Definition rng_init : rng := Rng 0 0 (0xf1c4 + 0x8c4e * 2 ^ 16 + 0xda48 * 2 ^ 32).

(** [nrand48(3)] of the C library: one step of the POSIX linear congruential
    generator, of which the 31 high-order bits are returned. *)
Definition nrand48 (x : Z) : Z * Z :=
  let x' := (0x5DEECE66D * x + 0xB) mod 2 ^ 48 in (Z.shiftr x' 17, x').

Definition BITS_IN_RANDOM : Z := 31.
Definition BITS_IN_PIECE : Z := 2.
Definition PIECE_MASK : Z := Z.shiftl 1 BITS_IN_PIECE - 1.

(** [if (--randomsLeft <= 0) { randomBits = nrand48(xsubi); randomsLeft = 15; }] *)
Definition fb_refill (g : rng) : rng :=
  let left := randomsLeft g - 1 in
  if left <=? 0
  then let '(bits, x) := nrand48 (xsubi g) in
       Rng (BITS_IN_RANDOM / BITS_IN_PIECE) bits x
  else Rng left (randomBits g) (xsubi g).

Fixpoint fb_ranlev_loop (n : nat) (level : Z) (g : rng) : Z * rng :=
  match n with
  | O => (level, g)
  | S n =>
      let g1 := fb_refill g in
      if Z.land (randomBits g1) PIECE_MASK =? 0
      then fb_ranlev_loop n (level + 1)
             (Rng (randomsLeft g1) (Z.shiftr (randomBits g1) BITS_IN_PIECE) (xsubi g1))
      else (level, g1)
  end.

Definition fb_ranlev (f : fb) (g : rng) : Z * rng :=
  fb_ranlev_loop (Z.to_nat (fb_maxsize f - 1)) 0 g.

(** ** Sizes *)

(** [(int)(log(n + 0.5)/log(4.0))]: the integer part of the base-4 logarithm. *)
Definition log4 (n : Z) : res Z :=
  assert! 0 <? n in Ok (Z.log2 n / 2).

(** [numblks] of the next level. *)
Definition next_numblks (numblks : Z) : Z :=
  if 4 <=? numblks then numblks / 4 else 1.

Fixpoint fb_arena_loop (n : nat) (level numblks total : Z) : Z :=
  match n with
  | O => total
  | S n => fb_arena_loop n (level + 1) (next_numblks numblks) (total + (level + 1) * numblks)
  end.

(** [3*sqrt((double)nelems)*log4(nelems)*maxsize], truncated, is the integer
    square root of the square of that product. *)
Definition fb_arena_sz_of (nelems : Z) : res Z :=
  let! l := log4 nelems in
  let maxsize := l + 1 in
  let numblks := 3 * nelems / 4 in
  let total := fb_arena_loop (Z.to_nat maxsize) 0 numblks 0 in
  Ok (total + Z.sqrt (9 * nelems * (l * maxsize) ^ 2)).

(** ** Initialisation *)

(** [for (int i = 0; i < numblks - 1; i++) { fblks[off] = off + blksize; off += blksize; }] *)
Fixpoint fb_link_loop (n : nat) (blksize : Z) (m : gmap Z Z) (off : Z) : res (gmap Z Z * Z) :=
  match n with
  | O => Ok (m, off)
  | S n =>
      let! m := wr m off (off + blksize) in
      fb_link_loop n blksize m (off + blksize)
  end.

Definition fb_initLevel (f : fb) (offset level blksize numblks : Z) : res (fb * Z) :=
  assert! (0 <=? level) && (level <=? fb_maxsize f) in
  assert! (0 <? blksize) && (level <=? blksize) in
  assert! 0 <? numblks in
  let! free := wr (fb_free f) level offset in
  let! '(m, off) := fb_link_loop (Z.to_nat (numblks - 1)) blksize (fb_fblks f) offset in
  let! m := wr m off FBLK_NONE in
  let! nfree := wr (fb_nfree f) level numblks in
  Ok (Fb (fb_magic f) (fb_maxsize f) (fb_arena_sz f) (u64 (fb_avail f + numblks))
         (fb_allocated f) nfree free m,
      off + blksize).

(** [for (int level = 0; level < maxsize; level++) fb_initLevel(...)] *)
Fixpoint fb_init_loop (n : nat) (f : fb) (offset level numblks : Z) : res (fb * Z) :=
  match n with
  | O => Ok (f, offset)
  | S n =>
      let! '(f, offset) := fb_initLevel f offset level (level + 1) numblks in
      fb_init_loop n f offset (level + 1) (next_numblks numblks)
  end.

(** The arena is part of a newly made file, so [nfree] and [free] start zeroed. *)
Definition fb_init (nalloc : Z) : res fb :=
  assert! 0 <? nalloc in
  let! l := log4 nalloc in
  let maxsize := l + 1 in
  assert! maxsize <? MAXLEVELS in
  let! fblk_sz := fb_arena_sz_of nalloc in
  let f := Fb FB_MAGIC maxsize 0 0 0
              (arr_tabulate MAXLEVELS (λ _, 0)) (arr_tabulate MAXLEVELS (λ _, 0))
              (arr_tabulate fblk_sz (λ _, FBLK_NONE)) in
  let! '(f, offset) := fb_init_loop (Z.to_nat maxsize) f 0 0 (3 * nalloc / 4) in
  let numblks := Z.sqrt (9 * nalloc * l ^ 2) in
  let! '(f, offset) := fb_initLevel f offset maxsize maxsize numblks in
  assert! (offset <=? fblk_sz) && (fblk_sz <? offset + maxsize) in
  Ok (Fb (fb_magic f) (fb_maxsize f) offset (fb_avail f) (fb_allocated f)
         (fb_nfree f) (fb_free f) (fb_fblks f)).

(** ** Release and allocation *)

Definition fb_rel (f : fb) (size fblk : Z) : res fb :=
  let level := size - 1 in
  assert! (0 <? size) && (size <=? fb_maxsize f) in
  assert! fblk <? fb_arena_sz f in
  let! head := rd (fb_free f) level in
  let! m := wr (fb_fblks f) fblk head in
  let! free := wr (fb_free f) level fblk in
  let! n := rd (fb_nfree f) level in
  let! nfree := wr (fb_nfree f) level (u64 (n + 1)) in
  Ok (Fb (fb_magic f) (fb_maxsize f) (fb_arena_sz f) (u64 (fb_avail f + 1))
         (u64 (fb_allocated f - 1)) nfree free m).

(** One turn of the loop of [fb_get()]: takes the first block of the list of
    [level], which is not empty, and splits it when it is too large. *)
Definition fb_take (f : fb) (wantSize level n : Z) : res (Z * fb) :=
  let! fblk := rd (fb_free f) level in
  assert! negb (fblk =? FBLK_NONE) in
  assert! fblk <? fb_arena_sz f in
  let! next := rd (fb_fblks f) fblk in
  let! free := wr (fb_free f) level next in
  assert! 0 <? n in
  let! nfree := wr (fb_nfree f) level (u64 (n - 1)) in
  assert! 0 <? fb_avail f in
  let f := Fb (fb_magic f) (fb_maxsize f) (fb_arena_sz f) (u64 (fb_avail f - 1))
              (u64 (fb_allocated f + 1)) nfree free (fb_fblks f) in
  let gotSize := level + 1 in
  if (level <? fb_maxsize f) && (wantSize <? gotSize) then
    let! f := fb_rel f (gotSize - wantSize) (fblk + wantSize) in
    Ok (fblk, fb_set_allocated f (u64 (fb_allocated f + 1)))
  else Ok (fblk, f).

Fixpoint fb_get_loop (n : nat) (f : fb) (wantSize level : Z) : res (Z * fb) :=
  match n with
  | O => Ok (FBLK_NONE, f)
  | S n =>
      let! nf := rd (fb_nfree f) level in
      if 0 <? nf then fb_take f wantSize level nf
      else fb_get_loop n f wantSize (level + 1)
  end.

(** [FBLK_NONE] is returned when no block of at least that level is left. *)
Definition fb_get (f : fb) (level : Z) : res (Z * fb) :=
  assert! (0 <=? level) && (level <? fb_maxsize f) in
  fb_get_loop (Z.to_nat (fb_maxsize f + 1 - level)) f (level + 1) level.

(** ** Representation invariant *)

Inductive owner := Free (l : Z) | Used.

Definition isfree (o : owner) : bool :=
  match o with Free _ => true | Used => false end.

Definition disj (b1 s1 b2 s2 : Z) : Prop := b1 + s1 ≤ b2 ∨ b2 + s2 ≤ b1.

(** A free list that starts at [h], threaded through first cells. *)
Fixpoint fchain (m : gmap Z Z) (h : Z) (l : list Z) : Prop :=
  match l with
  | [] => h = FBLK_NONE
  | b :: l => h = b ∧ ∃ n, m !! b = Some n ∧ fchain m n l
  end.

Definition used_of (bs : gmap Z (Z * owner)) : gmap Z Z :=
  fst <$> filter (λ p, isfree p.2.2 = false) bs.

Definition free_of (bs : gmap Z (Z * owner)) : gmap Z (Z * owner) :=
  filter (λ p, isfree p.2.2 = true) bs.

(** What holds of the blocks and of the free lists. *)
Record fb_struct (f : fb) (bs : gmap Z (Z * owner)) : Prop := {
  fs_magic : fb_magic f = FB_MAGIC;
  fs_max : 1 ≤ fb_maxsize f < MAXLEVELS;
  fs_arena : 0 ≤ fb_arena_sz f < 2 ^ 63;
  fs_cells c : 0 ≤ c < fb_arena_sz f → is_Some (fb_fblks f !! c);
  fs_blk b s o : bs !! b = Some (s, o) →
    0 ≤ b ∧ 1 ≤ s ≤ fb_maxsize f ∧ b + s ≤ fb_arena_sz f;
  fs_level b s l : bs !! b = Some (s, Free l) →
    0 ≤ l ≤ fb_maxsize f ∧ s = Z.min (l + 1) (fb_maxsize f);
  fs_disj b1 s1 o1 b2 s2 o2 : b1 ≠ b2 → bs !! b1 = Some (s1, o1) →
    bs !! b2 = Some (s2, o2) → disj b1 s1 b2 s2;
  fs_list l : 0 ≤ l ≤ fb_maxsize f → ∃ h fl,
    fb_free f !! l = Some h ∧ fb_nfree f !! l = Some (Z.of_nat (length fl)) ∧
    NoDup fl ∧ fchain (fb_fblks f) h fl ∧
    (∀ b, b ∈ fl ↔ ∃ s, bs !! b = Some (s, Free l));
}.

(** The invariant: moreover the two counters are exact. *)
Record fb_inv (f : fb) (bs : gmap Z (Z * owner)) : Prop := {
  fi_struct : fb_struct f bs;
  fi_avail : fb_avail f = Z.of_nat (size (free_of bs));
  fi_alloc : fb_allocated f = Z.of_nat (size (used_of bs));
}.

(** What clients know. *)
Definition fb_own (f : fb) (U : gmap Z Z) : Prop :=
  ∃ bs, fb_inv f bs ∧ U = used_of bs.

(** *** Ghost maps *)

Lemma used_of_lookup bs b s : used_of bs !! b = Some s ↔ bs !! b = Some (s, Used).
Proof.
  unfold used_of. rewrite lookup_fmap, fmap_Some. split.
  - intros ([s' o] & [H1 H2]%map_lookup_filter_Some & ->). by destruct o.
  - intros H. exists (s, Used). split; [|done]. by apply map_lookup_filter_Some.
Qed.

Lemma free_of_lookup bs b x :
  free_of bs !! b = Some x ↔ bs !! b = Some x ∧ isfree x.2 = true.
Proof. apply map_lookup_filter_Some. Qed.

Lemma used_of_insert_used bs b s :
  used_of (<[b := (s, Used)]> bs) = <[b := s]> (used_of bs).
Proof.
  apply map_eq. intros c. apply option_eq. intros t.
  rewrite used_of_lookup, !lookup_insert_Some, used_of_lookup. naive_solver.
Qed.

Lemma used_of_insert_free bs b s l :
  used_of (<[b := (s, Free l)]> bs) = delete b (used_of bs).
Proof.
  apply map_eq. intros c. apply option_eq. intros t.
  rewrite used_of_lookup, lookup_insert_Some, lookup_delete_Some, used_of_lookup. naive_solver.
Qed.

Lemma free_of_insert_used bs b s :
  free_of (<[b := (s, Used)]> bs) = delete b (free_of bs).
Proof.
  apply map_eq. intros c. apply option_eq. intros x.
  rewrite free_of_lookup, lookup_insert_Some, lookup_delete_Some, free_of_lookup.
  naive_solver.
Qed.

Lemma free_of_insert_free bs b s l :
  free_of (<[b := (s, Free l)]> bs) = <[b := (s, Free l)]> (free_of bs).
Proof.
  apply map_eq. intros c. apply option_eq. intros x.
  rewrite free_of_lookup, !lookup_insert_Some, free_of_lookup. naive_solver.
Qed.

Lemma fchain_frame m m' h l :
  (∀ b, b ∈ l → m' !! b = m !! b) → fchain m h l → fchain m' h l.
Proof.
  revert h. induction l as [|b l IH]; intros h Hf; simpl; [done|].
  intros (-> & n & Hn & Hc). split; [done|]. exists n.
  rewrite Hf by constructor. split; [done|]. apply IH; [|done].
  intros. apply Hf. by constructor.
Qed.

Lemma FBLK_NONE_eq : FBLK_NONE = 2 ^ 64 - 1.
Proof. done. Qed.

(** *** Bounds of the counters *)

Lemma bs_size_bound f bs : fb_struct f bs → Z.of_nat (size bs) ≤ fb_arena_sz f.
Proof.
  intros Hs. apply map_size_bound; [pose proof (fs_arena _ _ Hs); lia|].
  intros b [s o] Hb. pose proof (fs_blk _ _ Hs _ _ _ Hb). lia.
Qed.

(** The free list of a level is not longer than the arena. *)
Lemma fb_list_bound f bs l fl :
  fb_struct f bs → NoDup fl → (∀ b, b ∈ fl → ∃ s, bs !! b = Some (s, Free l)) →
  Z.of_nat (length fl) ≤ fb_arena_sz f.
Proof.
  intros Hs Hnd Hin. apply NoDup_bound; [pose proof (fs_arena _ _ Hs); lia|done|].
  intros b [s Hb]%Hin. pose proof (fs_blk _ _ Hs _ _ _ Hb). lia.
Qed.

Lemma size_free_used bs : (size (free_of bs) + size (used_of bs) = size bs)%nat.
Proof.
  unfold used_of, free_of. rewrite map_size_fmap.
  rewrite <- (map_filter_union_complement (λ p, isfree p.2.2 = true) bs) at 3.
  rewrite map_size_disj_union by apply map_disjoint_filter_complement.
  f_equal. f_equal. apply map_filter_ext. intros b [s o] _. simpl.
  destruct o; simpl; naive_solver.
Qed.

Lemma fb_counters f bs :
  fb_struct f bs →
  Z.of_nat (size (free_of bs)) + Z.of_nat (size (used_of bs)) ≤ fb_arena_sz f.
Proof. intros Hs%bs_size_bound. pose proof (size_free_used bs). lia. Qed.

(** *** [fb_rel] *)

Lemma fb_rel_struct f bs s b :
  fb_struct f bs → 1 ≤ s ≤ fb_maxsize f → 0 ≤ b → b + s ≤ fb_arena_sz f →
  (∀ b' s' o', b' ≠ b → bs !! b' = Some (s', o') → disj b s b' s') →
  (∀ s' l, bs !! b ≠ Some (s', Free l)) →
  ∃ f', fb_rel f s b = Ok f' ∧ fb_struct f' (<[b := (s, Free (s - 1))]> bs) ∧
        fb_maxsize f' = fb_maxsize f ∧ fb_arena_sz f' = fb_arena_sz f ∧
        fb_avail f' = u64 (fb_avail f + 1) ∧
        fb_allocated f' = u64 (fb_allocated f - 1) ∧
        (∀ c, c ≠ b → fb_fblks f' !! c = fb_fblks f !! c).
Proof.
  intros Hs Hsz Hb0 Hb1 Hdisj Hnf. pose proof Hs as [].
  destruct (fs_list0 (s - 1)) as (h & fl & Hh & Hn & Hnd & Hch & Hin); [lia|].
  destruct (fs_cells0 b) as [v Hv]; [lia|].
  pose proof (fb_list_bound _ _ (s - 1) fl Hs Hnd (λ b, proj1 (Hin b))) as Hlen.
  unfold fb_rel. run. eexists. split; [done|]. simpl.
  split_and!; [|done..|by intros c Hc; rewrite lookup_insert_ne].
  assert (b ∉ fl) as Hbfl by (rewrite Hin; naive_solver).
  split; simpl; try done.
  - intros c Hc. rewrite lookup_insert. case_decide; [done|auto].
  - intros c s' o. rewrite lookup_insert_Some. intros [[<- [= <- <-]]|[_ Hc]]; [lia|eauto].
  - intros c s' l. rewrite lookup_insert_Some. intros [[<- [= <- <-]]|[_ Hc]]; [lia|eauto].
  - intros b1 s1 o1 b2 s2 o2 Hne. rewrite !lookup_insert_Some.
    intros [[<- [= <- <-]]|[? H1]] [[<- [= <- <-]]|[? H2]]; [done|eauto..].
    destruct (Hdisj b1 s1 o1) as [?|?]; [done..|right; lia|left; lia].
  - intros l Hl. destruct (decide (l = s - 1)) as [->|Hne].
    + exists b, (b :: fl). rewrite !lookup_insert_eq.
      split_and!; [done| |by constructor| |].
      * f_equal. rewrite u64_small by lia. simpl. lia.
      * split; [done|]. exists h. rewrite lookup_insert_eq. split; [done|].
        eapply fchain_frame, Hch. intros c Hc. rewrite lookup_insert_ne; [done|congruence].
      * intros c. rewrite elem_of_cons, Hin. setoid_rewrite lookup_insert_Some. naive_solver.
    + destruct (fs_list0 l Hl) as (h' & fl' & Hh' & Hn' & Hnd' & Hch' & Hin').
      exists h', fl'. rewrite !lookup_insert_ne by lia.
      split_and!; [done..| |].
      * eapply fchain_frame, Hch'. intros c Hc. rewrite lookup_insert_ne; [done|].
        intros ->. apply Hin' in Hc. naive_solver.
      * intros c. rewrite Hin'. setoid_rewrite lookup_insert_Some. naive_solver.
Qed.

(** *** [fb_get] *)

(** Taking the first block of a list that is not empty. *)
Lemma fb_pop_struct f bs want level n fblk next :
  fb_struct f bs → 0 ≤ level ≤ fb_maxsize f → 1 ≤ want ≤ Z.min (level + 1) (fb_maxsize f) →
  fb_nfree f !! level = Some n → 0 < n →
  fb_free f !! level = Some fblk → fb_fblks f !! fblk = Some next →
  bs !! fblk = Some (Z.min (level + 1) (fb_maxsize f), Free level) →
  fb_struct
    (Fb (fb_magic f) (fb_maxsize f) (fb_arena_sz f) (u64 (fb_avail f - 1))
        (u64 (fb_allocated f + 1)) (<[level := u64 (n - 1)]> (fb_nfree f))
        (<[level := next]> (fb_free f)) (fb_fblks f))
    (<[fblk := (want, Used)]> bs).
Proof.
  intros Hs Hl Hw Hn Hn0 Hfree Hnext Hb. pose proof Hs as [].
  pose proof (fs_blk0 _ _ _ Hb) as Hbb.
  split; simpl; try done.
  - intros c s' o. rewrite lookup_insert_Some. intros [[<- [= <- <-]]|[_ Hc]]; [lia|eauto].
  - intros c s' l. rewrite lookup_insert_Some. intros [[_ ?]|[_ Hc]]; [done|eauto].
  - intros b1 s1 o1 b2 s2 o2 Hne. rewrite !lookup_insert_Some.
    intros [[<- [= <- <-]]|[? H1]] [[<- [= <- <-]]|[? H2]]; [done| | |eauto].
    + destruct (fs_disj0 _ _ _ _ _ _ Hne Hb H2); [left|right]; lia.
    + destruct (fs_disj0 _ _ _ _ _ _ Hne H1 Hb); [left|right]; lia.
  - intros l Hl'. destruct (fs_list0 l Hl') as (h & fl & Hh & Hnf & Hnd & Hch & Hin).
    destruct (decide (l = level)) as [->|Hne].
    + rewrite !lookup_insert_eq. simplify_eq.
      destruct fl as [|c fl]; [simpl in Hn0; lia|]. simpl in Hch.
      destruct Hch as (-> & next' & Hnext' & Hch). simplify_eq.
      apply NoDup_cons in Hnd as [Hnin Hnd].
      exists next, fl. split_and!; [done| |done|done|].
      * f_equal. simpl. rewrite u64_small; [lia|].
        pose proof (fb_list_bound _ _ level fl Hs Hnd) as Hlen.
        assert (Z.of_nat (length fl) ≤ fb_arena_sz f); [|lia].
        apply Hlen. intros d Hd. apply Hin. by constructor.
      * intros d. setoid_rewrite lookup_insert_Some. split.
        -- intros Hd. destruct (proj1 (Hin d)) as [s' Hs']; [by constructor|].
           exists s'. right. split; [|done]. intros ->. done.
        -- intros [s' [[_ ?]|[Hd Hs']]]; [done|].
           assert (d ∈ c :: fl) as [->|]%elem_of_cons by (apply Hin; eauto); done.
    + exists h, fl. rewrite !lookup_insert_ne by done. split_and!; [done..|].
      intros d. rewrite Hin. setoid_rewrite lookup_insert_Some. split.
      * intros [s' Hs']. exists s'. right. split; [|done]. intros ->. by simplify_eq.
      * intros [s' [[_ ?]|[Hd Hs']]]; [done|eauto].
Qed.

Lemma fb_list_head f bs level n :
  fb_struct f bs → 0 ≤ level ≤ fb_maxsize f → fb_nfree f !! level = Some n → 0 < n →
  ∃ fblk next, fb_free f !! level = Some fblk ∧ fb_fblks f !! fblk = Some next ∧
    bs !! fblk = Some (Z.min (level + 1) (fb_maxsize f), Free level).
Proof.
  intros Hs Hl Hn Hn0.
  destruct (fs_list _ _ Hs level Hl) as (h & fl & Hh & Hnf & Hnd & Hch & Hin). simplify_eq.
  destruct fl as [|b fl]; [simpl in Hn0; lia|]. destruct Hch as (-> & next & Hnext & _).
  exists b, next. split_and!; [done..|].
  destruct (proj1 (Hin b)) as [s Hb]; [constructor|].
  rewrite Hb. by destruct (fs_level _ _ Hs _ _ _ Hb) as [_ ->].
Qed.

(** What a successful allocation of [want] cells does: the block is new to the
    clients, and no cell of a block that they hold is changed. *)
Definition fb_got (f : fb) (U : gmap Z Z) (want fblk : Z) (f' : fb) : Prop :=
  U !! fblk = None ∧ fb_own f' (<[fblk := want]> U) ∧
  fb_maxsize f' = fb_maxsize f ∧ fb_arena_sz f' = fb_arena_sz f ∧
  ∀ b s c, U !! b = Some s → b ≤ c < b + s → fb_fblks f' !! c = fb_fblks f !! c.

Lemma used_of_None bs b : (∀ s, bs !! b ≠ Some (s, Used)) → used_of bs !! b = None.
Proof. intros H. apply eq_None_not_Some. intros [s Hu%used_of_lookup]. by destruct (H s). Qed.

Lemma free_of_None bs b : bs !! b = None → free_of bs !! b = None.
Proof. intros H. apply eq_None_not_Some. intros [s [Hu _]%free_of_lookup]. congruence. Qed.

(** No block starts strictly inside another one. *)
Lemma fb_inside f bs b s o c :
  fb_struct f bs → bs !! b = Some (s, o) → b < c < b + s → bs !! c = None.
Proof.
  intros Hs Hb Hc. apply eq_None_not_Some. intros [[s' o'] Hx].
  pose proof (fs_blk _ _ Hs _ _ _ Hx). assert (b ≠ c) as Hne by lia.
  destruct (fs_disj _ _ Hs _ _ _ _ _ _ Hne Hb Hx); lia.
Qed.

(** Turning a free block into a used one moves one unit between the counts. *)
Lemma fb_pop_counts bs b s l want :
  bs !! b = Some (s, Free l) →
  (size (free_of bs) = S (size (free_of (<[b := (want, Used)]> bs))) ∧
   size (used_of (<[b := (want, Used)]> bs)) = S (size (used_of bs)))%nat.
Proof.
  intros Hb. assert (free_of bs !! b = Some (s, Free l)) as Hf by by apply free_of_lookup.
  rewrite free_of_insert_used, used_of_insert_used. split.
  - rewrite <- (insert_delete_id (free_of bs) b (s, Free l)) at 1 by done.
    rewrite map_size_insert_None; [done|apply lookup_delete_eq].
  - apply map_size_insert_None, used_of_None. congruence.
Qed.

(** Splitting: the cells of a used block [b] beyond the first [want] become a
    free block. *)
Lemma fb_split_spec f bs want got b :
  fb_struct f (<[b := (want, Used)]> bs) → 1 ≤ want < got → got ≤ fb_maxsize f →
  b + got ≤ fb_arena_sz f → 0 ≤ b →
  (∀ b' s' o', b' ≠ b → bs !! b' = Some (s', o') → disj b got b' s') →
  bs !! (b + want) = None →
  fb_avail f = Z.of_nat (size (free_of (<[b := (want, Used)]> bs))) →
  fb_allocated f = Z.of_nat (size (used_of (<[b := (want, Used)]> bs))) →
  ∃ f', fb_rel f (got - want) (b + want) = Ok f' ∧
    fb_own (fb_set_allocated f' (u64 (fb_allocated f' + 1))) (<[b := want]> (used_of bs)) ∧
    fb_maxsize f' = fb_maxsize f ∧ fb_arena_sz f' = fb_arena_sz f ∧
    ∀ c, c ≠ b + want → fb_fblks f' !! c = fb_fblks f !! c.
Proof.
  intros Hs Hw Hg Hb1 Hb0 Hdisj Hnone Hav Hal.
  set (bs1 := <[b := (want, Used)]> bs) in *.
  assert (bs1 !! (b + want) = None) as Hnone1 by (unfold bs1; by rewrite lookup_insert_ne by lia).
  destruct (fb_rel_struct f bs1 (got - want) (b + want))
    as (f2 & Hrel & Hs2 & Hm2 & Ha2 & Hav2 & Hal2 & Hfr2); [done|lia..| |by rewrite Hnone1|].
  { intros b' s' o' Hne. unfold bs1. rewrite lookup_insert_Some.
    intros [[<- [= <- <-]]|[Hne' Hb']]; [right; lia|].
    destruct (Hdisj b' s' o') as [?|?]; [done..|left|right]; lia. }
  exists f2. split_and!; [done| |done..].
  eexists. split; [|by rewrite used_of_insert_free, delete_id,
    <- used_of_insert_used by (apply used_of_None; by rewrite Hnone1)].
  pose proof (fb_counters _ _ Hs) as Hc. pose proof (fs_arena _ _ Hs) as Ha.
  assert (0 < size (used_of bs1))%nat as Hpos.
  { apply (map_size_pos _ b want). unfold bs1. by rewrite used_of_insert_used, lookup_insert_eq. }
  pose proof (fb_counters _ _ Hs2) as Hc2. rewrite Ha2, free_of_insert_free,
    map_size_insert_None, used_of_insert_free, delete_id in Hc2
    by first [by apply free_of_None|by apply used_of_None; rewrite Hnone1].
  split; simpl.
  - destruct Hs2. by split.
  - rewrite Hav2, free_of_insert_free, map_size_insert_None by by apply free_of_None.
    rewrite u64_small; lia.
  - rewrite Hal2, used_of_insert_free, delete_id by by apply used_of_None; rewrite Hnone1.
    rewrite !u64_small by (rewrite ?u64_small; lia). lia.
Qed.

Lemma fb_take_spec f bs want level n :
  fb_inv f bs → 0 ≤ level ≤ fb_maxsize f → 1 ≤ want ≤ Z.min (level + 1) (fb_maxsize f) →
  fb_nfree f !! level = Some n → 0 < n →
  ∃ fblk f', fb_take f want level n = Ok (fblk, f') ∧ fb_got f (used_of bs) want fblk f'.
Proof.
  intros [Hs Hav Hal] Hl Hw Hn Hn0.
  destruct (fb_list_head f bs level n) as (fblk & next & Hfree & Hnext & Hb); [done..|].
  pose proof (fs_blk _ _ Hs _ _ _ Hb) as Hbb.
  pose proof (fb_pop_struct f bs want level n fblk next Hs Hl Hw Hn Hn0 Hfree Hnext Hb) as Hp.
  destruct (fb_pop_counts bs fblk _ _ want Hb) as [Hf1 Hu1].
  pose proof (fb_counters _ _ Hp) as Hc1. pose proof (fs_arena _ _ Hs) as Har.
  assert (used_of bs !! fblk = None) as Hub by (apply used_of_None; congruence).
  unfold fb_take. rewrite (rd_Ok _ _ _ Hfree). run_step.
  rewrite assert_Ok by (rewrite FBLK_NONE_eq; lia). repeat run_step.
  set (f1 := Fb _ _ _ _ _ _ _ _) in *.
  assert (fb_avail f1 = Z.of_nat (size (free_of (<[fblk := (want, Used)]> bs)))) as Hav1
    by (simpl in *; rewrite u64_small; lia).
  assert (fb_allocated f1 = Z.of_nat (size (used_of (<[fblk := (want, Used)]> bs)))) as Hal1
    by (simpl in *; rewrite u64_small; lia).
  destruct ((level <? fb_maxsize f1) && (want <? level + 1)) eqn:Hsplit.
  - change (fb_maxsize f1) with (fb_maxsize f) in Hsplit.
    destruct (fb_split_spec f1 bs want (level + 1) fblk) as (f2 & -> & Hown & Hm & Ha & Hfr);
      [done|simpl; lia|simpl; lia|simpl; lia|lia| | |done|done|].
    { intros b' s' o' Hne Hb'. replace (level + 1) with (Z.min (level + 1) (fb_maxsize f)) by lia.
      by eapply (fs_disj _ _ Hs). }
    { apply (fb_inside f bs fblk (Z.min (level + 1) (fb_maxsize f)) (Free level)); [done..|lia]. }
    rewrite bind_Ok. eexists _, _. split; [done|].
    split_and!; [done..|]. intros b s c Hu Hrange. simpl. apply Hfr. intros ->.
    apply used_of_lookup in Hu. assert (b ≠ fblk) as Hne by congruence.
    destruct (fs_disj _ _ Hs _ _ _ _ _ _ Hne Hu Hb); lia.
  - eexists _, _. split; [done|]. split_and!; [done| |done..].
    exists (<[fblk := (want, Used)]> bs). by rewrite used_of_insert_used.
Qed.

(** *** What the layer promises to its clients *)

Section clients.
Context (f : fb) (U : gmap Z Z) (Hown : fb_own f U).

Lemma fb_own_magic : (fb_magic f =? FB_MAGIC) = true.
Proof. destruct Hown as (bs & [Hs _ _] & ->). rewrite (fs_magic _ _ Hs). done. Qed.

Lemma fb_own_max : 1 ≤ fb_maxsize f < MAXLEVELS.
Proof. destruct Hown as (bs & [Hs _ _] & ->). apply (fs_max _ _ Hs). Qed.

Lemma fb_own_blk b s :
  U !! b = Some s → 0 ≤ b ∧ 1 ≤ s ≤ fb_maxsize f ∧ b + s ≤ fb_arena_sz f ∧ fb_arena_sz f < 2 ^ 63.
Proof.
  destruct Hown as (bs & [Hs _ _] & ->). rewrite used_of_lookup. intros Hb.
  pose proof (fs_blk _ _ Hs _ _ _ Hb). pose proof (fs_arena _ _ Hs). lia.
Qed.

Lemma fb_own_not_none b s : U !! b = Some s → b ≠ FBLK_NONE.
Proof. intros Hb%fb_own_blk. rewrite FBLK_NONE_eq. lia. Qed.

Lemma fb_own_cell b s c : U !! b = Some s → b ≤ c < b + s → is_Some (fb_fblks f !! c).
Proof.
  intros Hb Hc. apply fb_own_blk in Hb. destruct Hown as (bs & [Hs _ _] & _).
  apply (fs_cells _ _ Hs). lia.
Qed.

Lemma fb_own_disj b1 s1 b2 s2 :
  b1 ≠ b2 → U !! b1 = Some s1 → U !! b2 = Some s2 → disj b1 s1 b2 s2.
Proof.
  destruct Hown as (bs & [Hs _ _] & ->). rewrite !used_of_lookup. apply (fs_disj _ _ Hs).
Qed.

(** Writing a cell of a block that is held does not disturb the allocator. *)
Lemma fb_own_write b s c v :
  U !! b = Some s → b ≤ c < b + s →
  fb_own (fb_set_fblks f (<[c := v]> (fb_fblks f))) U.
Proof.
  intros Hb Hc. destruct Hown as (bs & [Hs Hav Hal] & ->). exists bs. split; [|done].
  split; [|done..]. rewrite used_of_lookup in Hb. destruct Hs. split; simpl; try done.
  - intros d Hd. rewrite lookup_insert. case_decide; [done|auto].
  - intros l Hl. destruct (fs_list0 l Hl) as (h & fl & Hh & Hn & Hnd & Hch & Hin).
    exists h, fl. split_and!; [done..| |done]. eapply fchain_frame, Hch.
    intros d [s' Hd]%Hin. apply lookup_insert_ne. intros <-.
    destruct (decide (b = c)) as [->|Hne]; [congruence|].
    pose proof (fs_blk0 _ _ _ Hd). destruct (fs_disj0 _ _ _ _ _ _ Hne Hb Hd); lia.
Qed.

Lemma fb_rel_spec b s :
  U !! b = Some s →
  ∃ f', fb_rel f s b = Ok f' ∧ fb_own f' (delete b U) ∧
    fb_maxsize f' = fb_maxsize f ∧ fb_arena_sz f' = fb_arena_sz f ∧
    ∀ c, c ≠ b → fb_fblks f' !! c = fb_fblks f !! c.
Proof.
  destruct Hown as (bs & [Hs Hav Hal] & HU). rewrite HU, used_of_lookup. intros Hb.
  pose proof (fs_blk _ _ Hs _ _ _ Hb) as (Hb0 & Hb1 & Hb2).
  destruct (fb_rel_struct f bs s b) as (f' & Hrel & Hs' & Hm & Ha & Hav' & Hal' & Hfr);
    [done..| |by rewrite Hb|].
  { intros b' s' o' Hne Hb'. by eapply (fs_disj _ _ Hs). }
  exists f'. split_and!; [done| |done..].
  exists (<[b := (s, Free (s - 1))]> bs). rewrite used_of_insert_free. split; [|done].
  assert (free_of bs !! b = None) as Hf.
  { apply eq_None_not_Some. intros [x [Hx Hf]%free_of_lookup]. by simplify_eq. }
  assert (used_of bs !! b = Some s) as Hu by by apply used_of_lookup.
  pose proof (fb_counters _ _ Hs') as Hc. pose proof (fs_arena _ _ Hs').
  pose proof (map_size_pos _ _ _ Hu). pose proof (fb_counters _ _ Hs).
  rewrite free_of_insert_free, map_size_insert_None in Hc by done.
  split; [done|..].
  - rewrite Hav', free_of_insert_free, map_size_insert_None by done. rewrite u64_small; lia.
  - rewrite Hal', used_of_insert_free, map_size_delete_Some by eauto. rewrite u64_small; lia.
Qed.

Lemma fb_get_loop_spec n want level :
  1 ≤ want ≤ level + 1 → want ≤ fb_maxsize f → Z.of_nat n = fb_maxsize f + 1 - level →
  (∃ b f', fb_get_loop n f want level = Ok (b, f') ∧ fb_got f U want b f') ∨
  (fb_get_loop n f want level = Ok (FBLK_NONE, f) ∧
   ∀ l, level ≤ l ≤ fb_maxsize f → fb_nfree f !! l = Some 0).
Proof.
  revert level. induction n as [|n IH]; intros level Hw Hmax Hn.
  { right. split; [done|]. intros l Hl. lia. }
  destruct Hown as (bs & Hinv & HU). pose proof Hinv as [Hs _ _].
  destruct (fs_list _ _ Hs level) as (h & fl & Hh & Hnf & _); [lia|].
  cbn [fb_get_loop]. rewrite (rd_Ok _ _ _ Hnf), bind_Ok.
  destruct (Z.ltb_spec 0 (Z.of_nat (length fl))).
  - left. rewrite HU. eapply fb_take_spec; [done|lia..|done|done].
  - destruct (IH (level + 1)) as [?|[? Hall]]; [lia..|by left|right].
    split; [done|]. intros l Hl. destruct (decide (l = level)) as [->|]; [|apply Hall; lia].
    rewrite Hnf. f_equal. lia.
Qed.

Lemma fb_get_spec level :
  0 ≤ level < fb_maxsize f →
  (∃ b f', fb_get f level = Ok (b, f') ∧ b ≠ FBLK_NONE ∧ fb_got f U (level + 1) b f') ∨
  (fb_get f level = Ok (FBLK_NONE, f) ∧
   ∀ l, level ≤ l ≤ fb_maxsize f → fb_nfree f !! l = Some 0).
Proof.
  intros Hl. unfold fb_get. rewrite assert_Ok, bind_Ok by lia.
  destruct (fb_get_loop_spec (Z.to_nat (fb_maxsize f + 1 - level)) (level + 1) level)
    as [(b & f' & Hb & Hgot)|?]; [lia..|left|by right].
  exists b, f'. split_and!; [done| |done].
  destruct Hgot as (_ & (bs & [Hs _ _] & HU) & _).
  assert (used_of bs !! b = Some (level + 1)) as Hu by (rewrite <- HU; apply lookup_insert_eq).
  apply used_of_lookup in Hu. pose proof (fs_blk _ _ Hs _ _ _ Hu).
  pose proof (fs_arena _ _ Hs). rewrite FBLK_NONE_eq. lia.
Qed.
End clients.

(** ** Spare blocks

    The blocks on the list of level [maxsize] serve requests of every size, so
    as long as one is left no request fails. *)

Definition fb_spare (f : fb) : Z := default 0 (fb_nfree f !! fb_maxsize f).

Lemma wr_inv {A} (a a' : gmap Z A) i x : wr a i x = Ok a' → a' = <[i := x]> a.
Proof. unfold wr. destruct (a !! i); congruence. Qed.

Lemma fb_spare_nonneg f U : fb_own f U → 0 ≤ fb_spare f.
Proof.
  intros (bs & [Hs _ _] & _). pose proof (fs_max _ _ Hs). unfold fb_spare.
  destruct (fs_list _ _ Hs (fb_maxsize f) ltac:(lia)) as (h & fl & _ & -> & _). simpl. lia.
Qed.

Lemma fb_rel_spare f s b f' :
  fb_rel f s b = Ok f' → fb_maxsize f' = fb_maxsize f ∧ fb_spare f' = fb_spare f.
Proof.
  unfold fb_rel. intros H.
  apply bind_inv in H as (? & Hs%assert_inv & H). apply bind_inv in H as (? & _ & H).
  apply bind_inv in H as (? & _ & H). apply bind_inv in H as (m & _ & H).
  apply bind_inv in H as (fr & _ & H). apply bind_inv in H as (n & _ & H).
  apply bind_inv in H as (nf & Hnf%wr_inv & H). injection H as <-. split; [done|].
  unfold fb_spare. simpl. rewrite Hnf, lookup_insert_ne by lia. done.
Qed.

Lemma fb_take_spare f want level n b f' :
  fb_nfree f !! level = Some n → n < 2 ^ 64 → level ≤ fb_maxsize f →
  fb_take f want level n = Ok (b, f') → fb_spare f - 1 ≤ fb_spare f'.
Proof.
  unfold fb_take. intros Hn Hb Hl H.
  apply bind_inv in H as (blk & _ & H). apply bind_inv in H as (? & _ & H).
  apply bind_inv in H as (? & _ & H). apply bind_inv in H as (nx & _ & H).
  apply bind_inv in H as (fr & _ & H). apply bind_inv in H as (? & Hpos%assert_inv & H).
  apply bind_inv in H as (nf & Hnf%wr_inv & H). apply bind_inv in H as (? & _ & H).
  rewrite u64_small in Hnf by lia. unfold fb_spare at 1. simpl in H.
  assert (default 0 (fb_nfree f !! fb_maxsize f) - 1 ≤ default 0 (nf !! fb_maxsize f)) as Hle.
  { rewrite Hnf, lookup_insert. case_decide as Hd; [|lia]. rewrite <- Hd, Hn. simpl. lia. }
  revert H. case_if Hc; intros H.
  - apply bind_inv in H as (f2 & Hrel & H). injection H as <- <-.
    apply fb_rel_spare in Hrel as [Hm Hs]. unfold fb_spare in Hs |- *. simpl in *.
    rewrite Hs. done.
  - injection H as <- <-. done.
Qed.

Lemma fb_get_spare f U level :
  fb_own f U → 0 ≤ level < fb_maxsize f → 0 < fb_spare f →
  ∃ b f', fb_get f level = Ok (b, f') ∧ b ≠ FBLK_NONE ∧ fb_got f U (level + 1) b f' ∧
    fb_spare f - 1 ≤ fb_spare f'.
Proof.
  intros Hown Hl Hsp. destruct (fb_get_spec f U Hown level Hl) as [(b & f' & Hget & Hb & Hgot)|[_ Hz]].
  - exists b, f'. split_and!; [done..|].
    unfold fb_get in Hget. rewrite assert_Ok, bind_Ok in Hget by lia.
    destruct Hown as (bs & [Hs _ _] & _).
    assert (∀ n lev, 0 ≤ lev → Z.of_nat n = fb_maxsize f + 1 - lev →
      fb_get_loop n f (level + 1) lev = Ok (b, f') → fb_spare f - 1 ≤ fb_spare f') as Hloop.
    { induction n as [|n IH]; intros lev Hlev Hn; cbn [fb_get_loop].
      - intros [= <- <-]. done.
      - destruct (fs_list _ _ Hs lev ltac:(lia)) as (h & fl & _ & Hnf & Hnd & _ & Hin).
        rewrite (rd_Ok _ _ _ Hnf), bind_Ok. case_if Hc; intros H.
        + eapply fb_take_spare; [done| |lia|done].
          pose proof (fb_list_bound _ _ lev fl Hs Hnd (λ b, proj1 (Hin b))).
          pose proof (fs_arena _ _ Hs). lia.
        + apply (IH (lev + 1)); [lia..|done]. }
    eapply (Hloop _ level); [lia| |done]. lia.
  - unfold fb_spare in Hsp. rewrite Hz in Hsp by lia. simpl in Hsp. lia.
Qed.

(** ** Initialisation establishes the invariant *)

(** The starts of [n] adjacent blocks of [blksize] cells. *)
Fixpoint blks_from (off blksize : Z) (n : nat) : list Z :=
  match n with
  | O => []
  | S n => off :: blks_from (off + blksize) blksize n
  end.

Lemma elem_of_blks_from off blksize n b :
  0 < blksize → b ∈ blks_from off blksize n →
  off ≤ b ∧ b + blksize ≤ off + Z.of_nat n * blksize.
Proof.
  intros Hz. revert off. induction n as [|n IH]; intros off; [by intros ?%elem_of_nil|].
  simpl. intros [->|Hin]%elem_of_cons; [nia|]. apply IH in Hin. nia.
Qed.

Lemma blks_from_disj off blksize n b1 b2 :
  0 < blksize → b1 ∈ blks_from off blksize n → b2 ∈ blks_from off blksize n →
  b1 ≠ b2 → disj b1 blksize b2 blksize.
Proof.
  intros Hz. revert off. induction n as [|n IH]; intros off; [by intros ?%elem_of_nil|].
  simpl. intros [->|H1]%elem_of_cons [->|H2]%elem_of_cons Hne; [done|..|by eapply IH].
  - apply elem_of_blks_from in H2; [|done]. left. lia.
  - apply elem_of_blks_from in H1; [|done]. right. lia.
Qed.

Lemma blks_from_NoDup off blksize n : 0 < blksize → NoDup (blks_from off blksize n).
Proof.
  intros Hz. revert off. induction n as [|n IH]; intros off; constructor; [|apply IH].
  intros Hin%elem_of_blks_from; lia.
Qed.

Lemma length_blks_from off blksize n : length (blks_from off blksize n) = n.
Proof. revert off. induction n; intros; simpl; auto. Qed.

Lemma fb_link_loop_spec n blksize m off :
  0 < blksize →
  (∀ c, off ≤ c < off + Z.of_nat (S n) * blksize → is_Some (m !! c)) →
  ∃ m', fb_link_loop n blksize m off = Ok (m', off + Z.of_nat n * blksize) ∧
    fchain (<[off + Z.of_nat n * blksize := FBLK_NONE]> m') off (blks_from off blksize (S n)) ∧
    (∀ c, is_Some (m !! c) → is_Some (m' !! c)) ∧
    (∀ c, c < off ∨ off + Z.of_nat (S n) * blksize ≤ c → m' !! c = m !! c).
Proof.
  intros Hz. revert m off. induction n as [|n IH]; intros m off Hcells.
  { exists m. cbn [fb_link_loop]. replace (off + Z.of_nat 0 * blksize) with off by lia.
    split_and!; [done| |done|done]. simpl. split; [done|]. exists FBLK_NONE.
    by rewrite lookup_insert_eq. }
  cbn [fb_link_loop]. rewrite wr_Ok, bind_Ok by (apply Hcells; nia).
  destruct (IH (<[off := off + blksize]> m) (off + blksize)) as (m' & -> & Hch & Hdom & Hfr).
  { intros c Hc. rewrite lookup_insert. case_decide; [done|]. apply Hcells. nia. }
  exists m'. replace (off + blksize + Z.of_nat n * blksize)
    with (off + Z.of_nat (S n) * blksize) in * by lia.
  split_and!; [done| | |].
  - split; [done|]. exists (off + blksize). split; [|done].
    rewrite lookup_insert_ne by nia. rewrite Hfr by lia. apply lookup_insert_eq.
  - intros c Hc. apply Hdom. rewrite lookup_insert. case_decide; [done|done].
  - intros c Hc. rewrite Hfr by nia. apply lookup_insert_ne. nia.
Qed.

(** The state between two calls of [fb_initLevel()]: the lists below [hi] are
    made, their blocks fill the arena up to [off], and [cap] cells exist. *)
Record fb_part (f : fb) (bs : gmap Z (Z * owner)) (cap off hi : Z) : Prop := {
  fp_magic : fb_magic f = FB_MAGIC;
  fp_max : 1 ≤ fb_maxsize f < MAXLEVELS;
  fp_off : 0 ≤ off ≤ cap;
  fp_cells c : 0 ≤ c < cap → is_Some (fb_fblks f !! c);
  fp_arr l : 0 ≤ l < MAXLEVELS → is_Some (fb_free f !! l) ∧ is_Some (fb_nfree f !! l);
  fp_blk b s o : bs !! b = Some (s, o) → 0 ≤ b ∧ 1 ≤ s ≤ fb_maxsize f ∧ b + s ≤ off;
  fp_level b s o : bs !! b = Some (s, o) →
    ∃ l, o = Free l ∧ 0 ≤ l < hi ∧ s = Z.min (l + 1) (fb_maxsize f);
  fp_disj b1 s1 o1 b2 s2 o2 : b1 ≠ b2 → bs !! b1 = Some (s1, o1) →
    bs !! b2 = Some (s2, o2) → disj b1 s1 b2 s2;
  fp_list l : 0 ≤ l < hi → ∃ h fl,
    fb_free f !! l = Some h ∧ fb_nfree f !! l = Some (Z.of_nat (length fl)) ∧
    NoDup fl ∧ fchain (fb_fblks f) h fl ∧
    (∀ b, b ∈ fl ↔ ∃ s, bs !! b = Some (s, Free l));
  fp_avail : fb_avail f = Z.of_nat (size bs);
  fp_alloc : fb_allocated f = 0;
}.

Definition lvl_blocks (off blksize level : Z) (n : nat) : gmap Z (Z * owner) :=
  gset_to_gmap (blksize, Free level) (list_to_set (blks_from off blksize n)).

Lemma lvl_blocks_lookup off blksize level n b x :
  lvl_blocks off blksize level n !! b = Some x ↔
  b ∈ blks_from off blksize n ∧ x = (blksize, Free level).
Proof.
  unfold lvl_blocks. rewrite lookup_gset_to_gmap_Some, elem_of_list_to_set. naive_solver.
Qed.

Lemma fb_initLevel_spec f bs cap off level numblks :
  fb_part f bs cap off level → 0 ≤ level ≤ fb_maxsize f → 1 ≤ numblks → cap < 2 ^ 63 →
  let bz := Z.min (level + 1) (fb_maxsize f) in
  off + numblks * bz ≤ cap →
  ∃ f', fb_initLevel f off level bz numblks = Ok (f', off + numblks * bz) ∧
    fb_part f' (lvl_blocks off bz level (Z.to_nat numblks) ∪ bs) cap
      (off + numblks * bz) (level + 1) ∧
    fb_maxsize f' = fb_maxsize f.
Proof.
  intros Hp Hl Hn Hcap bz Hoff. pose proof Hp as [].
  assert (1 ≤ bz ≤ fb_maxsize f) as Hbz by lia.
  set (n := Z.to_nat numblks). set (fl := blks_from off bz n).
  assert (∀ b, b ∈ fl → off ≤ b ∧ b + bz ≤ off + numblks * bz) as Hfl.
  { intros b Hb. apply elem_of_blks_from in Hb; lia. }
  assert (∀ b x, (lvl_blocks off bz level n ∪ bs) !! b = Some x ↔
                 (b ∈ fl ∧ x = (bz, Free level)) ∨ bs !! b = Some x) as Hlk.
  { intros b x. rewrite lookup_union_Some, lvl_blocks_lookup; [done|].
    apply map_disjoint_spec. intros c y [s o] [Hc _]%lvl_blocks_lookup Hc'.
    apply Hfl in Hc. apply fp_blk0 in Hc'. lia. }
  destruct (fb_link_loop_spec (Z.to_nat (numblks - 1)) bz (fb_fblks f) off)
    as (m & Hloop & Hch & Hdom & Hfr); [lia|intros c Hc; apply fp_cells0; nia|].
  replace (S (Z.to_nat (numblks - 1))) with n in * by lia. fold fl in Hch.
  replace (Z.of_nat (Z.to_nat (numblks - 1))) with (numblks - 1) in * by lia.
  destruct (fp_arr0 level) as [[v1 Hv1] [v2 Hv2]]; [lia|].
  destruct (Hdom (off + (numblks - 1) * bz)) as [v3 Hv3]; [apply fp_cells0; nia|].
  unfold fb_initLevel. run. rewrite Hloop. run.
  replace (off + (numblks - 1) * bz + bz) with (off + numblks * bz) by lia.
  eexists. split; [done|]. split; [|done].
  assert (∀ b, b ∈ dom bs → b < off) as Hold.
  { intros b [[s o] Hb]%elem_of_dom. apply fp_blk0 in Hb. lia. }
  split; simpl; try done.
  - nia.
  - intros c Hc. rewrite lookup_insert. case_decide; [done|auto].
  - intros l Hl'. rewrite !lookup_insert. destruct (fp_arr0 l Hl'). case_decide; auto.
  - intros b s o [[Hb [= -> ->]]|Hb]%Hlk; [apply Hfl in Hb; lia|apply fp_blk0 in Hb; nia].
  - intros b s o [[Hb [= -> ->]]|Hb]%Hlk; [exists level; split_and!; (done || lia)|].
    apply fp_level0 in Hb as (l & -> & ? & ?). exists l. split_and!; (done || lia).
  - intros b1 s1 o1 b2 s2 o2 Hne.
    intros [[H1 [= -> ->]]|H1]%Hlk [[H2 [= -> ->]]|H2]%Hlk; [|..|by eapply fp_disj0].
    + apply (blks_from_disj off bz n); [lia|done..].
    + apply Hfl in H1. apply fp_blk0 in H2. right. lia.
    + apply Hfl in H2. apply fp_blk0 in H1. left. lia.
  - intros l Hl'. destruct (decide (l = level)) as [->|Hne].
    + exists off, fl. rewrite !lookup_insert_eq. unfold fl at 1. rewrite length_blks_from.
      split_and!; [done|f_equal; lia|apply blks_from_NoDup; lia|done|].
      intros b. setoid_rewrite Hlk. split; [eauto|].
      intros [s [[? _]|Hb]]; [done|]. apply fp_level0 in Hb as (l & [= <-] & ? & _). lia.
    + destruct (fp_list0 l ltac:(lia)) as (h & fl' & Hh & Hnf & Hnd & Hch' & Hin).
      exists h, fl'. rewrite !lookup_insert_ne by done. split_and!; [done..| |].
      * eapply fchain_frame, Hch'. intros b [s Hb]%Hin.
        assert (b < off) by (apply Hold; apply elem_of_dom; eauto).
        rewrite lookup_insert_ne by nia. apply Hfr. lia.
      * intros b. rewrite Hin. setoid_rewrite Hlk. split; [naive_solver|].
        intros [s [[_ ?]|Hb]]; [simplify_eq|eauto].
  - assert (size (lvl_blocks off bz level n ∪ bs) = (n + size bs)%nat) as Hsz.
    { rewrite map_size_disj_union.
      - f_equal. unfold lvl_blocks. rewrite <- size_dom, dom_gset_to_gmap, size_list_to_set.
        + apply length_blks_from.
        + apply blks_from_NoDup. lia.
      - apply map_disjoint_spec. intros c y [s o] [Hc _]%lvl_blocks_lookup Hc'.
        apply Hfl in Hc. apply fp_blk0 in Hc'. lia. }
    assert (Z.of_nat (n + size bs) ≤ cap) as Hle.
    { rewrite <- Hsz. apply map_size_bound; [lia|]. intros b [s o].
      intros [[Hb [= -> ->]]|Hb]%Hlk; [apply Hfl in Hb; lia|apply fp_blk0 in Hb; nia]. }
    rewrite Hsz, fp_avail0, u64_small; lia.
Qed.

Lemma next_numblks_range nb : 1 ≤ nb → 1 ≤ next_numblks nb ≤ nb.
Proof. intros. unfold next_numblks. case_if H1; div_lia. Qed.

Lemma fb_arena_loop_bounds n level nb total :
  0 ≤ level → 1 ≤ nb →
  total ≤ fb_arena_loop n level nb total ≤ total + Z.of_nat n * (level + Z.of_nat n) * nb.
Proof.
  revert level nb total. induction n as [|n IH]; intros level nb total Hl Hn; [simpl; lia|].
  cbn [fb_arena_loop]. pose proof (next_numblks_range nb Hn).
  specialize (IH (level + 1) (next_numblks nb) (total + (level + 1) * nb) ltac:(lia) ltac:(lia)).
  split; [nia|]. etransitivity; [apply IH|].
  assert (Z.of_nat n * (level + 1 + Z.of_nat n) * next_numblks nb ≤
          Z.of_nat n * (level + 1 + Z.of_nat n) * nb) by (apply Z.mul_le_mono_nonneg_l; nia).
  nia.
Qed.

Lemma fb_init_loop_spec n f bs cap off level nb :
  fb_part f bs cap off level → 0 ≤ level → level + Z.of_nat n ≤ fb_maxsize f →
  1 ≤ nb → cap < 2 ^ 63 → fb_arena_loop n level nb off ≤ cap →
  ∃ f' bs', fb_init_loop n f off level nb = Ok (f', fb_arena_loop n level nb off) ∧
    fb_part f' bs' cap (fb_arena_loop n level nb off) (level + Z.of_nat n) ∧
    fb_maxsize f' = fb_maxsize f.
Proof.
  revert f bs off level nb. induction n as [|n IH]; intros f bs off level nb Hp Hl Hm Hn Hc Ha.
  { exists f, bs. simpl. by rewrite Z.add_0_r. }
  cbn [fb_init_loop fb_arena_loop] in *. pose proof (next_numblks_range nb Hn).
  pose proof (fb_arena_loop_bounds n (level + 1) (next_numblks nb) (off + (level + 1) * nb)).
  destruct (fb_initLevel_spec f bs cap off level nb) as (f1 & Hinit & Hp1 & Hm1);
    [done|lia..| |]; rewrite Z.min_l in * by lia; [lia|].
  rewrite Hinit, bind_Ok.
  replace (off + nb * (level + 1)) with (off + (level + 1) * nb) in * by lia.
  edestruct (IH f1) as (f2 & bs2 & -> & Hp2 & Hm2); [done|lia..|].
  exists f2, bs2. replace (level + Z.of_nat (S n)) with (level + 1 + Z.of_nat n) by lia.
  split_and!; [done|done|congruence].
Qed.

(** Truncating the product of a square root and an integer loses less than
    that integer against multiplying the truncated root. *)
Lemma sqrt_scale x m :
  0 ≤ x → 1 ≤ m → m * Z.sqrt x ≤ Z.sqrt (m ^ 2 * x) < m * Z.sqrt x + m.
Proof.
  intros Hx Hm. pose proof (Z.sqrt_spec x Hx) as Hs. pose proof (Z.sqrt_nonneg x).
  cbv zeta in Hs. generalize dependent (Z.sqrt x). intros r Hr Hr0.
  assert (0 ≤ m ^ 2 * x) by (apply Z.mul_nonneg_nonneg; nia).
  split.
  - apply Z.sqrt_le_square; [done|nia|].
    replace (m * r * (m * r)) with (m ^ 2 * (r * r)) by ring.
    apply Z.mul_le_mono_nonneg_l; nia.
  - apply Z.sqrt_lt_square; [done|nia|].
    replace ((m * r + m) * (m * r + m)) with (m ^ 2 * (Z.succ r * Z.succ r)) by ring.
    apply Z.mul_lt_mono_pos_l; nia.
Qed.

Lemma fb_init_arith nalloc l :
  4 ≤ nalloc < 2 ^ 28 → l = Z.log2 nalloc / 2 →
  1 ≤ l ≤ 13 ∧ 1 ≤ Z.sqrt (9 * nalloc * l ^ 2) ∧
  (l + 1) * Z.sqrt (9 * nalloc * l ^ 2) ≤ Z.sqrt (9 * nalloc * (l * (l + 1)) ^ 2)
    < (l + 1) * Z.sqrt (9 * nalloc * l ^ 2) + (l + 1) ∧
  Z.sqrt (9 * nalloc * (l * (l + 1)) ^ 2) < 2 ^ 47.
Proof.
  intros Hn ->.
  assert (2 ≤ Z.log2 nalloc) by (apply Z.log2_le_pow2; lia).
  assert (Z.log2 nalloc < 28) by (apply Z.log2_lt_pow2; lia).
  set (l := Z.log2 nalloc / 2). assert (1 ≤ l ≤ 13) as Hl by (unfold l; div_lia).
  clearbody l. split; [done|].
  assert (1 ≤ l ^ 2 ≤ 13 ^ 2) by nia.
  assert (9 ≤ 9 * nalloc * l ^ 2 ≤ 9 * 2 ^ 28 * 13 ^ 2) by nia.
  split; [apply Z.sqrt_le_square; lia|].
  replace (9 * nalloc * (l * (l + 1)) ^ 2) with ((l + 1) ^ 2 * (9 * nalloc * l ^ 2)) by ring.
  split; [apply sqrt_scale; lia|].
  assert (0 ≤ (l + 1) ^ 2 ≤ 14 ^ 2) by nia.
  eapply Z.le_lt_trans; [apply Z.sqrt_le_lin; apply Z.mul_nonneg_nonneg; lia|].
  eapply Z.le_lt_trans; [apply Z.mul_le_mono_nonneg; [lia|apply H3|lia|apply H2]|]. lia.
Qed.

(** When the last list is made, the allocator is well-formed and holds nothing. *)
Lemma fb_part_complete f bs cap off :
  fb_part f bs cap off (fb_maxsize f + 1) → cap < 2 ^ 63 →
  fb_own (Fb (fb_magic f) (fb_maxsize f) off (fb_avail f) (fb_allocated f)
             (fb_nfree f) (fb_free f) (fb_fblks f)) ∅.
Proof.
  intros [] Hcap.
  assert (used_of bs = ∅) as Hu.
  { apply map_eq. intros b. rewrite lookup_empty. apply used_of_None.
    intros s Hb. by apply fp_level0 in Hb as (? & ? & _). }
  exists bs. split; [|done]. split; [split; simpl; try done; try lia|..]; simpl.
  - intros c Hc. apply fp_cells0. lia.
  - intros b s l Hb. destruct (fp_level0 _ _ _ Hb) as (l' & [= <-] & ? & ?). lia.
  - intros l Hl. apply fp_list0. lia.
  - rewrite fp_avail0. f_equal. f_equal. symmetry. apply map_filter_id.
    intros b [s o] Hb. by destruct (fp_level0 _ _ _ Hb) as (? & -> & _).
  - by rewrite fp_alloc0, Hu, map_size_empty.
Qed.

Lemma fb_initLevel_nfree f off level bz n f' o :
  fb_initLevel f off level bz n = Ok (f', o) → fb_nfree f' !! level = Some n.
Proof.
  intros (? & _ & H)%bind_inv. apply bind_inv in H as (? & _ & H). apply bind_inv in H as (? & _ & H).
  apply bind_inv in H as (? & _ & H). apply bind_inv in H as ([m off'] & _ & H).
  apply bind_inv in H as (? & _ & H). apply bind_inv in H as (nf & Hnf & H).
  injection H as <- _. apply wr_inv in Hnf as ->. apply lookup_insert_eq.
Qed.

(** The spare blocks of the new arena. *)
Definition fb_spares (nalloc : Z) : Z := Z.sqrt (9 * nalloc * (Z.log2 nalloc / 2) ^ 2).

Lemma fb_spares_ge nalloc : 16 ≤ nalloc → 24 ≤ fb_spares nalloc.
Proof.
  intros Hn. unfold fb_spares. assert (4 ≤ Z.log2 nalloc) by (apply Z.log2_le_pow2; lia).
  assert (2 ≤ Z.log2 nalloc / 2) by div_lia. apply Z.sqrt_le_square; nia.
Qed.

Lemma fb_init_spec nalloc :
  4 ≤ nalloc < 2 ^ 28 →
  ∃ f, fb_init nalloc = Ok f ∧ fb_own f ∅ ∧ fb_maxsize f = Z.log2 nalloc / 2 + 1 ∧
    fb_spare f = fb_spares nalloc.
Proof.
  intros Hn. destruct (fb_init_arith nalloc _ Hn eq_refl) as (Hl & Hnb & Hsq & Hsz).
  unfold fb_init, log4. rewrite !assert_Ok, !bind_Ok by lia.
  set (l := Z.log2 nalloc / 2) in *.
  rewrite assert_Ok, bind_Ok by (unfold MAXLEVELS; lia).
  unfold fb_arena_sz_of, log4. rewrite assert_Ok, !bind_Ok by lia. fold l.
  assert (3 ≤ 3 * nalloc / 4 < 2 ^ 28) as Hq by div_lia.
  pose proof (fb_arena_loop_bounds (Z.to_nat (l + 1)) 0 (3 * nalloc / 4) 0
                ltac:(lia) ltac:(lia)) as Htot.
  rewrite Z2Nat.id in Htot by lia.
  set (total := fb_arena_loop _ _ _ _) in *.
  set (cap := total + Z.sqrt (9 * nalloc * (l * (l + 1)) ^ 2)).
  assert (total < 2 ^ 40) by nia.
  assert (0 ≤ cap < 2 ^ 63) as Hcap by lia.
  set (f0 := Fb _ _ _ _ _ _ _ _).
  assert (fb_part f0 ∅ cap 0 0) as Hp0.
  { split; simpl; try done.
    - unfold MAXLEVELS. lia.
    - lia.
    - intros c Hc. rewrite arr_tabulate_lookup. by case_decide.
    - intros c Hc. rewrite !arr_tabulate_lookup. by case_decide.
    - intros. lia. }
  destruct (fb_init_loop_spec (Z.to_nat (l + 1)) f0 ∅ cap 0 0 (3 * nalloc / 4))
    as (f1 & bs1 & -> & Hp1 & Hm1); [done|lia|simpl; lia|lia|lia|fold total; lia|].
  rewrite bind_Ok. fold total in Hp1 |- *. rewrite Z.add_0_l, Z2Nat.id in Hp1 by lia.
  change (fb_maxsize f0) with (l + 1) in Hm1.
  destruct (fb_initLevel_spec f1 bs1 cap total (l + 1) (Z.sqrt (9 * nalloc * l ^ 2)))
    as (f2 & Hinit & Hp2 & Hm2); [done|lia..| |]; rewrite Hm1, Z.min_r in * by lia; [lia|].
  rewrite Hinit, bind_Ok. rewrite assert_Ok, bind_Ok by lia.
  eexists. split; [done|]. split; [|split; [exact Hm2|]].
  - eapply fb_part_complete; [by rewrite Hm2|lia].
  - unfold fb_spare. simpl. by rewrite Hm2, (fb_initLevel_nfree _ _ _ _ _ _ _ Hinit).
Qed.

(** ** Random levels *)

Lemma fb_ranlev_loop_range n level g :
  level ≤ (fb_ranlev_loop n level g).1 ≤ level + Z.of_nat n.
Proof.
  revert level g. induction n as [|n IH]; intros level g; [simpl; lia|].
  cbn [fb_ranlev_loop]. case_if Hb; [|simpl; lia].
  match goal with |- context [fb_ranlev_loop n ?l ?g] => specialize (IH l g) end. lia.
Qed.

Lemma fb_ranlev_range f g :
  1 ≤ fb_maxsize f → 0 ≤ (fb_ranlev f g).1 < fb_maxsize f.
Proof.
  intros Hm. unfold fb_ranlev.
  pose proof (fb_ranlev_loop_range (Z.to_nat (fb_maxsize f - 1)) 0 g). lia.
Qed.

(** The results of [n] successive calls of [fb_ranlev()]. *)
Fixpoint fb_ranlevs (f : fb) (n : nat) (g : rng) : list Z :=
  match n with
  | O => []
  | S n => let '(l, g) := fb_ranlev f g in l :: fb_ranlevs f n g
  end.

(** ** Properties *)

(** Initialisation for [4 <= nalloc < 2^28] products passes all of its
    assertions and yields an allocator that satisfies its invariant: every list
    is well-formed, the blocks are pairwise disjoint and inside the arena, the
    counters are exact, and no block is handed out yet. *)
Theorem fb_init_correct nalloc :
  4 ≤ nalloc < 2 ^ 28 →
  ∃ f, fb_init nalloc = Ok f ∧ fb_own f ∅ ∧ fb_maxsize f = Z.log2 nalloc / 2 + 1 ∧
    fb_spare f = fb_spares nalloc.
Proof. apply fb_init_spec. Qed.

Lemma fb_init_correct_witness :
  ∃ f, fb_init 10000 = Ok f ∧ fb_own f ∅ ∧ fb_maxsize f = 7 ∧ fb_spare f = 1800.
Proof. apply (fb_init_correct 10000). lia. Defined.

(** On a well-formed allocator [fb_get()] never faults.  Either it returns a
    block of [level + 1] cells that the clients do not hold, after which the
    allocator is well-formed, owns exactly the clients' blocks plus the new one,
    counts them exactly and has changed no cell of the clients' blocks; or it
    returns [OFF_NONE], changes nothing, and every list from [level] up is
    empty. *)
Theorem fb_get_correct f U level :
  fb_own f U → 0 ≤ level < fb_maxsize f →
  (∃ b f', fb_get f level = Ok (b, f') ∧ b ≠ FBLK_NONE ∧ U !! b = None ∧
     fb_own f' (<[b := level + 1]> U) ∧
     fb_allocated f' = fb_allocated f + 1 ∧
     (∀ b' s, U !! b' = Some s → disj b (level + 1) b' s) ∧
     ∀ b' s c, U !! b' = Some s → b' ≤ c < b' + s → fb_fblks f' !! c = fb_fblks f !! c) ∨
  (fb_get f level = Ok (FBLK_NONE, f) ∧
   ∀ l, level ≤ l ≤ fb_maxsize f → fb_nfree f !! l = Some 0).
Proof.
  intros Hown Hl.
  destruct (fb_get_spec f U Hown level Hl) as [(b & f' & Hget & Hb & Hgot)|?]; [left|by right].
  destruct Hgot as (Hnone & Hown' & _ & _ & Hfr). exists b, f'.
  split_and!; [done..| | |done].
  - destruct Hown as (bs & [_ _ Hal] & HU), Hown' as (bs' & [_ _ Hal'] & HU').
    rewrite Hal, Hal', <- HU, <- HU', map_size_insert_None by done. lia.
  - intros b' s Hb'. assert (b ≠ b') as Hne by congruence.
    apply (fb_own_disj _ _ Hown'); [done|apply lookup_insert_eq|by rewrite lookup_insert_ne].
Qed.

Lemma fb_get_correct_witness :
  ∃ f, fb_own f ∅ ∧
  ((∃ b f', fb_get f 2 = Ok (b, f') ∧ b ≠ FBLK_NONE ∧ (∅ : gmap Z Z) !! b = None ∧
     fb_own f' (<[b := 2 + 1]> ∅) ∧ fb_allocated f' = fb_allocated f + 1 ∧
     (∀ b' s, (∅ : gmap Z Z) !! b' = Some s → disj b (2 + 1) b' s) ∧
     ∀ b' s c, (∅ : gmap Z Z) !! b' = Some s → b' ≤ c < b' + s →
       fb_fblks f' !! c = fb_fblks f !! c) ∨
   (fb_get f 2 = Ok (FBLK_NONE, f) ∧
    ∀ l, 2 ≤ l ≤ fb_maxsize f → fb_nfree f !! l = Some 0)).
Proof.
  destruct (fb_init_spec 1000 ltac:(lia)) as (f & Hf & Hown & Hm & _).
  exists f. split; [done|]. apply (fb_get_correct f ∅ 2 Hown).
  rewrite Hm. split; [lia|reflexivity].
Defined.

(** [fb_rel()] of a block that a client holds never faults; the allocator
    stays well-formed, no longer counts the block as held, counts one more free
    block, and changes at most the block's first cell. *)
Theorem fb_rel_correct f U b s :
  fb_own f U → U !! b = Some s →
  ∃ f', fb_rel f s b = Ok f' ∧ fb_own f' (delete b U) ∧
    fb_allocated f' = fb_allocated f - 1 ∧
    ∀ c, c ≠ b → fb_fblks f' !! c = fb_fblks f !! c.
Proof.
  intros Hown Hb. destruct (fb_rel_spec f U Hown b s Hb) as (f' & Hrel & Hown' & _ & _ & Hfr).
  exists f'. split_and!; [done..| |done].
  pose proof (map_size_pos _ _ _ Hb).
  destruct Hown as (bs & [_ _ Hal] & HU), Hown' as (bs' & [_ _ Hal'] & HU').
  rewrite Hal, Hal', <- HU, <- HU', map_size_delete_Some by eauto. lia.
Qed.

Lemma fb_rel_correct_witness :
  ∃ f b, fb_own f (<[b := 2]> ∅) ∧
  ∃ f', fb_rel f 2 b = Ok f' ∧ fb_own f' (delete b (<[b := 2]> ∅)) ∧
    fb_allocated f' = fb_allocated f - 1 ∧
    ∀ c, c ≠ b → fb_fblks f' !! c = fb_fblks f !! c.
Proof.
  destruct (fb_init_spec 16 ltac:(lia)) as (f & Hf & Hown & Hm & _).
  destruct (fb_get_spec f ∅ Hown 1) as [(b & f' & Hget & Hb & _ & Hown' & _)|[Hnone _]].
  - rewrite Hm. split; [lia|reflexivity].
  - exists f', b. split; [done|]. apply (fb_rel_correct f' (<[b := 2]> ∅) b 2 Hown').
    apply lookup_insert_eq.
  - exfalso. assert (rbind (fb_init 16) (λ f, rbind (fb_get f 1) (λ p, Ok p.1)) = Ok 12) as Hc
      by (vm_compute; reflexivity).
    rewrite Hf in Hc. cbn [rbind] in Hc. rewrite Hnone in Hc. vm_compute in Hc. discriminate.
Defined.

(** The bits that ended a level search are not consumed.  Once the low-order
    piece of the random bits is not zero, every following call returns level 0
    until the bits are renewed; so levels do not have the distribution (3/4, 3/16, ...) that
    the comment of [fb_ranlev()] gives. *)
Theorem fb_ranlev_sticky f n g :
  1 < fb_maxsize f → Z.land (randomBits g) PIECE_MASK ≠ 0 → Z.of_nat n < randomsLeft g →
  fb_ranlevs f n g = replicate n 0.
Proof.
  intros Hm. revert g. induction n as [|n IH]; intros g Hb Hn; [done|].
  cbn [fb_ranlevs replicate]. unfold fb_ranlev.
  destruct (Z.to_nat (fb_maxsize f - 1)) as [|m] eqn:Hz; [lia|]. cbn [fb_ranlev_loop].
  unfold fb_refill. destruct (Z.leb_spec (randomsLeft g - 1) 0); [lia|]. simpl.
  destruct (Z.eqb_spec (Z.land (randomBits g) PIECE_MASK) 0); [done|].
  f_equal. apply IH; simpl; [done|lia].
Qed.

Lemma fb_ranlev_sticky_witness :
  ∃ f g, fb_init 1000 = Ok f ∧ (fb_ranlev f rng_init).2 = g ∧
         fb_ranlevs f 13 g = replicate 13 0.
Proof.
  destruct (fb_init_spec 1000 ltac:(lia)) as (f & Hf & _ & Hm & _).
  exists f, (fb_ranlev f rng_init).2. split_and!; [done|done|].
  unfold fb_ranlev at 1. rewrite Hm.
  apply (fb_ranlev_sticky f 13); [rewrite Hm; reflexivity|vm_compute; congruence|reflexivity].
Defined.
