(* ===== verification/SkipList.v ===== *)
(** * Skip lists over the block arena

    src/pq/pq.c contains one skip-list algorithm three times: for the
    time-queue ([tq_add()], [tqe_find()], [tq_delete()]), for the free regions by
    offset ([rl_foff_add()], [rl_foff_del()], [rl_foff_prev()]) and for the free
    regions by extent ([rl_fext_add()], [rl_fext_del()], [rl_fext_find()],
    [rl_fext_prev()]).  The copies differ in the array that holds the nodes, in the
    member that holds a node's forward block and in the key comparison.  This
    file has the common loops, with those three as parameters, and their
    correctness; TimeQueue.v and RegionList.v instantiate them.

    Nodes are indexes of the component's array.  [blkof p] reads the forward
    block of node [p]; cell [k] of that block is the successor of [p] on the
    level-[k] list.  [before q] evaluates [q->key < key]. *)

From S2P Require Import Prelude Fb.

Section algorithm.
Context (blkof : Z → res Z).
Implicit Types (m upd : gmap Z Z) (k p q n : Z).

(** [p->forward[k]], that is [fblks[p->fblk + k]]. *)
Definition sl_fwd m p k : res Z := let! b := blkof p in rd m (b + k).

(** [q = p->forward[k]; while(q->key < key) { p = q; q = p->forward[k]; }] *)
Fixpoint sl_scan (fuel : nat) (before : Z → res bool) m k p : res (Z * Z) :=
  match fuel with
  | O => Err OutOfFuel
  | S fuel =>
      let! q := sl_fwd m p k in
      let! b := before q in
      if b then sl_scan fuel before m k q else Ok (p, q)
  end.

(** [do { ...scan...; update[k] = p; } while(--k >= 0);] from level [k] of node
    [p]; returns [update], and the last [p] and [q]. *)
Fixpoint sl_search (fuel : nat) (before : Z → res bool) m (k : nat) p upd :
    res (gmap Z Z * Z * Z) :=
  let! '(p, q) := sl_scan fuel before m (Z.of_nat k) p in
  let upd := <[Z.of_nat k := p]> upd in
  match k with
  | O => Ok (upd, p, q)
  | S k => sl_search fuel before m k p upd
  end.

(** The same with a check of the first [q] of every level. *)
Fixpoint sl_search_chk (fuel : nat) (chk : Z → res unit) (before : Z → res bool) m (k : nat)
    p upd : res (gmap Z Z * Z * Z) :=
  let! q := sl_fwd m p (Z.of_nat k) in
  let! _ := chk q in
  let! '(p, q) := sl_scan fuel before m (Z.of_nat k) p in
  let upd := <[Z.of_nat k := p]> upd in
  match k with
  | O => Ok (upd, p, q)
  | S k => sl_search_chk fuel chk before m k p upd
  end.

(** [do { p = update[k]; n->forward[k] = p->forward[k]; p->forward[k] = n; }
    while(--k >= 0);] *)
Fixpoint sl_link (k : nat) m upd n : res (gmap Z Z) :=
  let! p := rd upd (Z.of_nat k) in
  let! nb := blkof n in
  let! pb := blkof p in
  let! x := rd m (pb + Z.of_nat k) in
  let! m := wr m (nb + Z.of_nat k) x in
  let! m := wr m (pb + Z.of_nat k) n in
  match k with
  | O => Ok m
  | S k => sl_link k m upd n
  end.

(** [for(k...; k <= m; k++) { p = update[k]; if (p->forward[k] != q) break;
    p->forward[k] = q->forward[k]; }] with [t] turns left; returns the last [k]. *)
Fixpoint sl_unlink (t : nat) k m upd q : res (gmap Z Z * Z) :=
  match t with
  | O => Ok (m, k)
  | S t =>
      let! p := rd upd k in
      let! pb := blkof p in
      let! x := rd m (pb + k) in
      if x =? q then
        let! qb := blkof q in
        let! y := rd m (qb + k) in
        let! m := wr m (pb + k) y in
        sl_unlink t (k + 1) m upd q
      else Ok (m, k)
  end.

(** [while(header->forward[lev] == NIL && lev > 0) lev--;] *)
Fixpoint sl_shrink (lev : nat) m hd tl : res Z :=
  let! x := sl_fwd m hd (Z.of_nat lev) in
  match lev with
  | O => Ok 0
  | S lev' => if x =? tl then sl_shrink lev' m hd tl else Ok (Z.of_nat lev)
  end.
End algorithm.

(** [for(i=0; i < fbp->maxsize; i++) fblkp[i] = NIL;] with [n] turns left *)
Fixpoint fill_block (n : nat) (m : gmap Z Z) (b i v : Z) : res (gmap Z Z) :=
  match n with
  | O => Ok m
  | S n => let! m := wr m (b + i) v in fill_block n m b (i + 1) v
  end.

(** ** Lists *)

Definition last_or (d : Z) (l : list Z) : Z := default d (last l).
Definition head_or (d : Z) (l : list Z) : Z := default d (head l).

Lemma last_or_snoc d l x : last_or d (l ++ [x]) = x.
Proof. unfold last_or. by rewrite last_snoc. Qed.

Lemma last_or_cons d x l : last_or d (x :: l) = last_or x l.
Proof.
  unfold last_or. destruct l as [|y l]; [done|]. rewrite last_cons_cons.
  destruct (last_is_Some (y :: l)) as [_ [z ->]]; done.
Qed.

Lemma last_or_app d l1 l2 : last_or d (l1 ++ l2) = last_or (last_or d l1) l2.
Proof.
  revert d. induction l1 as [|x l1 IH]; intros d; [done|].
  simpl. by rewrite !last_or_cons.
Qed.

Lemma last_or_elem d l : last_or d l ∈ d :: l.
Proof.
  revert d. induction l as [|x l IH]; intros d; [by left|].
  rewrite last_or_cons. right. apply IH.
Qed.

Lemma last_or_split d l : last_or d l = d ∧ l = [] ∨ ∃ l', l = l' ++ [last_or d l].
Proof.
  induction l as [|x l _] using rev_ind; [by left|right].
  exists l. by rewrite last_or_snoc.
Qed.

(** ** Representation *)

(** Block and height of a node, as functions of what [blkof] and the clients'
    block map say. *)
Definition sl_blk (blkof : Z → res Z) (n : Z) : Z :=
  match blkof n with Ok b => b | Err _ => 0 end.

Definition sl_ht (blkof : Z → res Z) (U : gmap Z Z) (n : Z) : Z :=
  default 0 (U !! sl_blk blkof n) - 1.

(** The nodes that take part in the list of level [k]. *)
Definition lvl (ht : Z → Z) (k : Z) (l : list Z) : list Z := filter (λ n, k ≤ ht n) l.

(** From node [p], the level-[k] list visits [l] and ends at [t]. *)
Fixpoint lchain (m : gmap Z Z) (blk : Z → Z) (k p : Z) (l : list Z) (t : Z) : Prop :=
  match l with
  | [] => m !! (blk p + k) = Some t
  | n :: l => m !! (blk p + k) = Some n ∧ lchain m blk k n l t
  end.

(** [ns] are the nodes between [hd] and [tl], in order, in a list of level
    [lev]. *)
Record sl_rep (blkof : Z → res Z) (f : fb) (U : gmap Z Z) (hd tl lev : Z) (ns : list Z) : Prop := {
  sr_lev : 0 ≤ lev < fb_maxsize f;
  sr_nodup : NoDup (hd :: tl :: ns);
  sr_hd : ∃ b, blkof hd = Ok b ∧ U !! b = Some (fb_maxsize f);
  sr_node n : n ∈ ns → ∃ b s, blkof n = Ok b ∧ U !! b = Some s ∧ 1 ≤ s ≤ lev + 1;
  sr_inj n1 n2 b : n1 ∈ hd :: ns → n2 ∈ hd :: ns →
    blkof n1 = Ok b → blkof n2 = Ok b → n1 = n2;
  sr_chain k : 0 ≤ k < fb_maxsize f →
    lchain (fb_fblks f) (sl_blk blkof) k hd (lvl (sl_ht blkof U) k ns) tl;
}.

(** *** Levels *)

Section lvl.
Context (ht : Z → Z).
Implicit Types (l : list Z) (k : Z).

Lemma lvl_app k l1 l2 : lvl ht k (l1 ++ l2) = lvl ht k l1 ++ lvl ht k l2.
Proof. apply filter_app. Qed.

Lemma lvl_cons_in k n l : k ≤ ht n → lvl ht k (n :: l) = n :: lvl ht k l.
Proof. intros. unfold lvl. by rewrite filter_cons_True. Qed.

Lemma lvl_cons_out k n l : ht n < k → lvl ht k (n :: l) = lvl ht k l.
Proof. intros. unfold lvl. rewrite filter_cons_False; [done|lia]. Qed.

Lemma elem_of_lvl k n l : n ∈ lvl ht k l ↔ k ≤ ht n ∧ n ∈ l.
Proof. unfold lvl. by rewrite list_elem_of_filter. Qed.

Lemma lvl_nil k l : (∀ n, n ∈ l → ht n < k) → lvl ht k l = [].
Proof.
  intros Hl. destruct (lvl ht k l) as [|n l'] eqn:Hf; [done|].
  assert (n ∈ lvl ht k l) as [? Hn]%elem_of_lvl by (rewrite Hf; constructor).
  apply Hl in Hn. lia.
Qed.

Lemma lvl_all k l : (∀ n, n ∈ l → k ≤ ht n) → lvl ht k l = l.
Proof.
  intros Hl. induction l as [|n l IH]; [done|].
  rewrite lvl_cons_in by (apply Hl; constructor). f_equal. apply IH.
  intros. apply Hl. by constructor.
Qed.
End lvl.

Lemma lvl_ext ht ht' k l : (∀ n, n ∈ l → ht n = ht' n) → lvl ht k l = lvl ht' k l.
Proof.
  intros Hl. induction l as [|n l IH]; [done|].
  specialize (Hl n ltac:(constructor)) as Hn.
  assert (lvl ht k l = lvl ht' k l) as IH' by (apply IH; intros; apply Hl; by constructor).
  destruct (decide (k ≤ ht n)).
  - rewrite !lvl_cons_in by lia. by rewrite IH'.
  - by rewrite !lvl_cons_out by lia.
Qed.

(** *** Chains *)

Lemma lchain_app m blk k p l1 n l2 t :
  lchain m blk k p (l1 ++ n :: l2) t ↔ lchain m blk k p l1 n ∧ lchain m blk k n l2 t.
Proof.
  revert p. induction l1 as [|x l1 IH]; intros p; simpl; [done|]. rewrite IH. tauto.
Qed.

(** The successor of the last node of a prefix, and what follows it. *)
Lemma lchain_mid m blk k p l1 l2 t :
  lchain m blk k p (l1 ++ l2) t ↔
  lchain m blk k p l1 (head_or t l2) ∧ lchain m blk k (last_or p l1) l2 t.
Proof.
  destruct l2 as [|n l2].
  - rewrite app_nil_r. unfold head_or. simpl.
    revert p. induction l1 as [|x l1 IH]; intros p; simpl; [tauto|].
    rewrite last_or_cons. specialize (IH x). tauto.
  - rewrite lchain_app. unfold head_or. simpl.
    assert (lchain m blk k p l1 n → m !! (blk (last_or p l1) + k) = Some n); [|tauto].
    revert p. induction l1 as [|x l1 IH]; intros p; simpl; [done|].
    rewrite last_or_cons. intros [_ H]. by apply IH.
Qed.

Lemma lchain_ext m m' blk blk' k p l t :
  (∀ x, x ∈ p :: l → m' !! (blk' x + k) = m !! (blk x + k)) →
  lchain m blk k p l t → lchain m' blk' k p l t.
Proof.
  revert p. induction l as [|n l IH]; intros p Hx; simpl;
    rewrite (Hx p) by constructor; [done|].
  intros [? Hc]. split; [done|]. apply IH; [|done]. intros x Hin. apply Hx. by constructor.
Qed.

(** Redirecting the last link of a prefix. *)
Lemma lchain_redirect m blk k p l t t' :
  NoDup (p :: l) → (∀ x y, x ∈ p :: l → y ∈ p :: l → blk x + k = blk y + k → x = y) →
  lchain m blk k p l t → lchain (<[blk (last_or p l) + k := t']> m) blk k p l t'.
Proof.
  revert p. induction l as [|n l IH]; intros p Hnd Hinj; simpl.
  { intros _. apply lookup_insert_eq. }
  intros [Hp Hc]. rewrite last_or_cons. split.
  - rewrite lookup_insert_ne; [done|]. intros Heq.
    apply Hinj in Heq; [|right; apply last_or_elem|constructor].
    apply NoDup_cons in Hnd as [Hnd _]. apply Hnd. rewrite <- Heq. apply last_or_elem.
  - apply IH; [by apply NoDup_cons in Hnd as [_ Hnd]| |done].
    intros x y Hx Hy. apply Hinj; by right.
Qed.

(** ** Facts about a represented list *)

Section facts.
Context (blkof : Z → res Z) (f : fb) (U : gmap Z Z) (hd tl lev : Z) (ns : list Z).
Context (Hrep : sl_rep blkof f U hd tl lev ns).
Abbreviation blk := (sl_blk blkof).
Abbreviation ht := (sl_ht blkof U).

Lemma sl_blkof n : n ∈ hd :: ns → blkof n = Ok (blk n).
Proof.
  unfold sl_blk. intros [->|Hn]%elem_of_cons.
  - by destruct (sr_hd _ _ _ _ _ _ _ Hrep) as (b & -> & _).
  - by destruct (sr_node _ _ _ _ _ _ _ Hrep n Hn) as (b & s & -> & _).
Qed.

(** Size of the block of a node: [ht n + 1], the whole of it for the head. *)
Lemma sl_U n : n ∈ hd :: ns → U !! blk n = Some (ht n + 1).
Proof.
  unfold sl_ht, sl_blk. intros [->|Hn]%elem_of_cons.
  - destruct (sr_hd _ _ _ _ _ _ _ Hrep) as (b & -> & Hb). rewrite Hb. simpl. f_equal. lia.
  - destruct (sr_node _ _ _ _ _ _ _ Hrep n Hn) as (b & s & -> & Hb & _).
    rewrite Hb. simpl. f_equal. lia.
Qed.

Lemma sl_ht_hd : ht hd = fb_maxsize f - 1.
Proof.
  unfold sl_ht, sl_blk. destruct (sr_hd _ _ _ _ _ _ _ Hrep) as (b & -> & ->). simpl. lia.
Qed.

Lemma sl_ht_node n : n ∈ ns → 0 ≤ ht n ≤ lev.
Proof.
  intros Hn. unfold sl_ht, sl_blk.
  destruct (sr_node _ _ _ _ _ _ _ Hrep n Hn) as (b & s & -> & -> & ?). simpl. lia.
Qed.

(** Cells of distinct nodes or levels are distinct. *)
Lemma sl_cell_inj g x y j k :
  fb_own g U → x ∈ hd :: ns → y ∈ hd :: ns → 0 ≤ j ≤ ht x → 0 ≤ k ≤ ht y →
  blk x + j = blk y + k → x = y ∧ j = k.
Proof.
  intros Hown Hx Hy Hj Hk Heq.
  destruct (decide (blk x = blk y)) as [Hb|Hb].
  - split; [|lia]. eapply (sr_inj _ _ _ _ _ _ _ Hrep); [done..|by apply sl_blkof|].
    rewrite Hb. by apply sl_blkof.
  - destruct (fb_own_disj g U Hown _ _ _ _ Hb (sl_U x Hx) (sl_U y Hy)); lia.
Qed.

Lemma sl_NoDup_prefix k l1 l2 : ns = l1 ++ l2 → NoDup (hd :: lvl ht k l1).
Proof.
  intros ->. pose proof (sr_nodup _ _ _ _ _ _ _ Hrep) as Hnd.
  apply NoDup_cons in Hnd as [Hhd Hnd]. apply NoDup_cons in Hnd as [_ Hnd].
  apply NoDup_app in Hnd as (Hnd & _ & _). constructor.
  - intros [_ Hin]%elem_of_lvl. apply Hhd. right. apply elem_of_app. by left.
  - unfold lvl. by apply NoDup_filter.
Qed.

(** The first node of a level, and the successor of a node. *)
Lemma sl_fwd_hd k :
  0 ≤ k < fb_maxsize f → sl_fwd blkof (fb_fblks f) hd k = Ok (head_or tl (lvl ht k ns)).
Proof.
  intros Hk. unfold sl_fwd. rewrite (sl_blkof hd ltac:(constructor)), bind_Ok. apply rd_Ok.
  pose proof (sr_chain _ _ _ _ _ _ _ Hrep k Hk) as Hch. unfold head_or.
  destruct (lvl ht k ns); [done|by destruct Hch].
Qed.

Lemma sl_lvl0 : lvl ht 0 ns = ns.
Proof. apply lvl_all. intros n Hn. by apply sl_ht_node. Qed.

Lemma sl_fwd_next l1 p l2 :
  ns = l1 ++ p :: l2 → sl_fwd blkof (fb_fblks f) p 0 = Ok (head_or tl l2).
Proof.
  intros Hns. pose proof (sr_lev _ _ _ _ _ _ _ Hrep).
  pose proof (sr_chain _ _ _ _ _ _ _ Hrep 0 ltac:(lia)) as Hch.
  rewrite sl_lvl0, Hns in Hch. apply lchain_app in Hch as [_ Hch].
  unfold sl_fwd. rewrite (sl_blkof p), bind_Ok.
  - apply rd_Ok. unfold head_or. destruct l2; [done|by destruct Hch].
  - rewrite Hns. right. apply elem_of_app. right. constructor.
Qed.

Lemma sl_chain_elem k p l x :
  0 ≤ k < fb_maxsize f → l = lvl ht k p → incl p ns → x ∈ hd :: l →
  x ∈ hd :: ns ∧ 0 ≤ k ≤ ht x.
Proof.
  intros Hk -> Hincl [->|[? Hx]%elem_of_lvl]%elem_of_cons.
  - rewrite sl_ht_hd. split; [constructor|lia].
  - split; [right|lia]. apply list_elem_of_In, Hincl. by apply list_elem_of_In.
Qed.
End facts.

(** ** Search *)

Section search.
Context (blkof : Z → res Z) (f : fb) (U : gmap Z Z) (hd tl lev : Z) (l1 l2 : list Z).
Context (Hrep : sl_rep blkof f U hd tl lev (l1 ++ l2)).
Context (before : Z → res bool) (fuel : nat).
Context (Hb1 : ∀ n, n ∈ l1 → before n = Ok true).
Context (Hb2 : ∀ n, n ∈ l2 → before n = Ok false).
Context (Hbt : before tl = Ok false).
Context (Hfuel : (length (l1 ++ l2) < fuel)%nat).
Abbreviation blk := (sl_blk blkof).
Abbreviation ht := (sl_ht blkof U).
Abbreviation m := (fb_fblks f).

Lemma sl_scan_spec k A B t :
  0 ≤ k < fb_maxsize f → lvl ht k l1 = A ++ B → (length B < t)%nat →
  sl_scan blkof t before m k (last_or hd A) =
    Ok (last_or hd (lvl ht k l1), head_or tl (lvl ht k l2)).
Proof using Hrep Hb1 Hb2 Hbt.
  clear Hfuel fuel.
  intros Hk. pose proof (sr_chain _ _ _ _ _ _ _ Hrep k Hk) as Hch.
  rewrite lvl_app in Hch. revert A t. induction B as [|b B IH]; intros A t Heq Ht.
  - destruct t as [|t]; [simpl in Ht; lia|]. cbn [sl_scan]. rewrite app_nil_r in Heq. subst A.
    unfold sl_fwd. rewrite (sl_blkof blkof f U hd tl lev (l1 ++ l2)).
    2: done.
    2: { destruct (proj1 (elem_of_cons _ _ _) (last_or_elem hd (lvl ht k l1))) as [->|Hin];
         [constructor|]. apply elem_of_lvl in Hin as [_ ?]. right. apply elem_of_app. by left. }
    rewrite bind_Ok. apply lchain_mid in Hch as [_ Hch].
    assert (m !! (blk (last_or hd (lvl ht k l1)) + k) = Some (head_or tl (lvl ht k l2))) as Hm.
    { unfold head_or. destruct (lvl ht k l2); [done|by destruct Hch]. }
    rewrite (rd_Ok _ _ _ Hm), bind_Ok.
    assert (before (head_or tl (lvl ht k l2)) = Ok false) as ->; [|done].
    unfold head_or. destruct (lvl ht k l2) as [|x l] eqn:Hl; simpl; [done|].
    apply Hb2. assert (x ∈ lvl ht k l2) as [_ ?]%elem_of_lvl by (rewrite Hl; constructor). done.
  - destruct t as [|t]; [simpl in Ht; lia|]. cbn [sl_scan].
    assert (b ∈ lvl ht k l1) as [_ Hb]%elem_of_lvl.
    { rewrite Heq. apply elem_of_app. right. constructor. }
    unfold sl_fwd. rewrite (sl_blkof blkof f U hd tl lev (l1 ++ l2)).
    2: done.
    2: { destruct (proj1 (elem_of_cons _ _ _) (last_or_elem hd A)) as [->|Hin];
         [constructor|]. assert (last_or hd A ∈ lvl ht k l1) as [_ ?]%elem_of_lvl.
         { rewrite Heq. apply elem_of_app. by left. }
         right. apply elem_of_app. by left. }
    rewrite bind_Ok. rewrite Heq, <- app_assoc in Hch. apply lchain_mid in Hch as [_ [Hm _]].
    rewrite (rd_Ok _ _ _ Hm), bind_Ok, (Hb1 b Hb), bind_Ok.
    rewrite <- (IH (A ++ [b]) t); [by rewrite last_or_snoc|by rewrite <- app_assoc|].
    simpl in Ht. lia.
Qed.

(** A node reached on a level is a starting point for the level below. *)
Lemma sl_start k :
  ∃ A B, lvl ht k l1 = A ++ B ∧ last_or hd A = last_or hd (lvl ht (k + 1) l1).
Proof using Type.
  clear Hfuel.
  destruct (last_or_split hd (lvl ht (k + 1) l1)) as [[-> _]|[l' Hl]].
  - by exists [], (lvl ht k l1).
  - set (p := last_or hd (lvl ht (k + 1) l1)) in *.
    assert (p ∈ lvl ht (k + 1) l1) as [Hp1 Hp2]%elem_of_lvl.
    { rewrite Hl. apply elem_of_app. right. constructor. }
    assert (p ∈ lvl ht k l1) as (A & B & HAB)%list_elem_of_split.
    { apply elem_of_lvl. split; [lia|done]. }
    exists (A ++ [p]), B. rewrite <- app_assoc, last_or_snoc. done.
Qed.

Lemma sl_search_loop (k : nat) A B upd :
  Z.of_nat k ≤ lev → lvl ht (Z.of_nat k) l1 = A ++ B →
  ∃ upd', sl_search blkof fuel before m k (last_or hd A) upd =
            Ok (upd', last_or hd (lvl ht 0 l1), head_or tl (lvl ht 0 l2)) ∧
    (∀ j, 0 ≤ j ≤ Z.of_nat k → upd' !! j = Some (last_or hd (lvl ht j l1))) ∧
    (∀ j, Z.of_nat k < j → upd' !! j = upd !! j).
Proof.
  revert A B upd. pose proof (sr_lev _ _ _ _ _ _ _ Hrep) as Hlev.
  induction k as [|k IH]; intros A B upd Hk HAB.
  - cbn [sl_search]. rewrite (sl_scan_spec _ A B), bind_Ok; [|lia|done|].
    2: { apply (f_equal length) in HAB. unfold lvl in HAB.
         pose proof (length_filter (λ n, Z.of_nat 0 ≤ ht n) l1).
         rewrite !length_app in *. lia. }
    eexists. split; [done|]. split.
    + intros j Hj. replace j with 0 by lia. apply lookup_insert_eq.
    + intros j Hj. apply lookup_insert_ne. lia.
  - cbn [sl_search]. rewrite (sl_scan_spec _ A B), bind_Ok; [|lia|done|].
    2: { apply (f_equal length) in HAB. unfold lvl in HAB.
         pose proof (length_filter (λ n, Z.of_nat (S k) ≤ ht n) l1).
         rewrite !length_app in *. lia. }
    destruct (sl_start (Z.of_nat k)) as (A' & B' & HA & Hlast).
    replace (Z.of_nat k + 1) with (Z.of_nat (S k)) in Hlast by lia. rewrite <- Hlast.
    edestruct (IH A' B') as (upd' & Hs & Hupd & Hup); [lia|done|]. rewrite Hs.
    exists upd'. split; [done|]. split.
    + intros j Hj. destruct (decide (j = Z.of_nat (S k))) as [->|]; [|apply Hupd; lia].
      rewrite Hup by lia. rewrite lookup_insert_eq. by rewrite <- Hlast.
    + intros j Hj. rewrite Hup by lia. apply lookup_insert_ne. lia.
Qed.

Lemma sl_search_spec upd :
  ∃ upd', sl_search blkof fuel before m (Z.to_nat lev) hd upd =
            Ok (upd', last_or hd l1, head_or tl l2) ∧
    (∀ j, 0 ≤ j ≤ lev → upd' !! j = Some (last_or hd (lvl ht j l1))).
Proof.
  pose proof (sr_lev _ _ _ _ _ _ _ Hrep) as Hlev.
  destruct (sl_search_loop (Z.to_nat lev) [] (lvl ht (Z.of_nat (Z.to_nat lev)) l1) upd)
    as (upd' & Hs & Hupd & _); [lia|done|].
  rewrite !lvl_all in Hs.
  - exists upd'. split; [done|]. intros j Hj. apply Hupd. lia.
  - intros n Hn. apply (sl_ht_node _ _ _ _ _ _ _ Hrep). apply elem_of_app. by right.
  - intros n Hn. apply (sl_ht_node _ _ _ _ _ _ _ Hrep). apply elem_of_app. by left.
Qed.

(** The successor, on a level, of a node that a search can stand on. *)
Lemma sl_fwd_start k A B :
  0 ≤ k < fb_maxsize f → lvl ht k l1 = A ++ B →
  ∃ q, sl_fwd blkof m (last_or hd A) k = Ok q ∧ q ∈ tl :: l1 ++ l2.
Proof using Hrep.
  intros Hk HAB. pose proof (sr_chain _ _ _ _ _ _ _ Hrep k Hk) as Hch.
  rewrite lvl_app, HAB, <- app_assoc in Hch. apply lchain_mid in Hch as [_ Hch].
  exists (head_or tl (B ++ lvl ht k l2)). split.
  - unfold sl_fwd. rewrite (sl_blkof blkof f U hd tl lev (l1 ++ l2)); [|done|].
    + rewrite bind_Ok. apply rd_Ok. unfold head_or.
      destruct (B ++ lvl ht k l2); [done|by destruct Hch].
    + destruct (proj1 (elem_of_cons _ _ _) (last_or_elem hd A)) as [->|Hin]; [constructor|].
      right. apply elem_of_app. left. apply (elem_of_lvl ht k). rewrite HAB.
      apply elem_of_app. by left.
  - destruct (B ++ lvl ht k l2) as [|x l] eqn:Hl; [constructor|]. right.
    assert (x ∈ B ++ lvl ht k l2) as Hx by (rewrite Hl; constructor).
    apply elem_of_app. apply elem_of_app in Hx as [Hx|Hx].
    + left. apply (elem_of_lvl ht k). rewrite HAB. apply elem_of_app. by right.
    + right. by apply elem_of_lvl in Hx as [_ ?].
Qed.

(** Checks that hold of every node do not change a search. *)
Lemma sl_search_chk_eq chk (k : nat) A B upd :
  (∀ q, q ∈ tl :: l1 ++ l2 → chk q = Ok ()) →
  Z.of_nat k ≤ lev → lvl ht (Z.of_nat k) l1 = A ++ B →
  sl_search_chk blkof fuel chk before m k (last_or hd A) upd =
  sl_search blkof fuel before m k (last_or hd A) upd.
Proof.
  intros Hchk. revert A B upd. pose proof (sr_lev _ _ _ _ _ _ _ Hrep) as Hlev.
  induction k as [|k IH]; intros A B upd Hk HAB; cbn [sl_search_chk sl_search];
    (edestruct (λ H, sl_fwd_start _ A B H HAB) as (q & -> & Hq); [lia|]);
    rewrite bind_Ok, Hchk, bind_Ok by done; [done|].
  rewrite (sl_scan_spec _ A B), !bind_Ok; [|lia|done|].
  - destruct (sl_start (Z.of_nat k)) as (A' & B' & HA & Hlast).
    replace (Z.of_nat k + 1) with (Z.of_nat (S k)) in Hlast by lia. rewrite <- Hlast.
    apply (IH A' B'); [lia|done].
  - apply (f_equal length) in HAB. unfold lvl in HAB.
    pose proof (length_filter (λ n, Z.of_nat (S k) ≤ ht n) l1).
    rewrite !length_app in *. lia.
Qed.

Lemma sl_search_chk_spec chk upd :
  (∀ q, q ∈ tl :: l1 ++ l2 → chk q = Ok ()) →
  ∃ upd', sl_search_chk blkof fuel chk before m (Z.to_nat lev) hd upd =
            Ok (upd', last_or hd l1, head_or tl l2) ∧
    (∀ j, 0 ≤ j ≤ lev → upd' !! j = Some (last_or hd (lvl ht j l1))).
Proof.
  intros Hchk. pose proof (sr_lev _ _ _ _ _ _ _ Hrep) as Hlev.
  rewrite (sl_search_chk_eq chk (Z.to_nat lev) [] (lvl ht (Z.of_nat (Z.to_nat lev)) l1));
    [|done|lia|done].
  apply sl_search_spec.
Qed.
End search.

(** ** Frames *)

(** Only cells of blocks of [nodes] differ between [m] and [m']. *)
Definition sl_frame (blkof : Z → res Z) (U : gmap Z Z) (nodes : list Z) (m m' : gmap Z Z) : Prop :=
  ∀ b s c, U !! b = Some s → b ≤ c < b + s → (∀ x, x ∈ nodes → blkof x ≠ Ok b) →
    m' !! c = m !! c.

Lemma sl_frame_refl blkof U nodes m : sl_frame blkof U nodes m m.
Proof. done. Qed.

Lemma sl_frame_trans blkof U nodes m1 m2 m3 :
  sl_frame blkof U nodes m1 m2 → sl_frame blkof U nodes m2 m3 →
  sl_frame blkof U nodes m1 m3.
Proof. intros H1 H2 b s c ???. by rewrite (H2 b s c), (H1 b s c). Qed.

(** A write to a cell of the block of a node is within the frame. *)
Lemma sl_frame_write blkof f U nodes x b s k v :
  fb_own f U → x ∈ nodes → blkof x = Ok b → U !! b = Some s → 0 ≤ k < s →
  sl_frame blkof U nodes (fb_fblks f) (<[b + k := v]> (fb_fblks f)).
Proof.
  intros Hown Hx Hb Hs Hk b' s' c Hb' Hc Hn. apply lookup_insert_ne. intros <-.
  destruct (decide (b = b')) as [->|Hne]; [by apply (Hn x)|].
  destruct (fb_own_disj f U Hown _ _ _ _ Hne Hs Hb'); lia.
Qed.

(** A represented list does not depend on anything but its own nodes and
    blocks. *)
Lemma sl_rep_ext blkof blkof' f f' U U' hd tl lev ns :
  sl_rep blkof f U hd tl lev ns →
  fb_maxsize f' = fb_maxsize f →
  (∀ x, x ∈ hd :: ns → blkof' x = blkof x) →
  (∀ x b s, x ∈ hd :: ns → blkof x = Ok b → U !! b = Some s →
     U' !! b = Some s ∧ ∀ c, b ≤ c < b + s → fb_fblks f' !! c = fb_fblks f !! c) →
  sl_rep blkof' f' U' hd tl lev ns.
Proof.
  intros Hrep Hm Hblk HU. pose proof Hrep as [].
  assert (∀ x, x ∈ hd :: ns → sl_blk blkof' x = sl_blk blkof x) as Hb.
  { intros x Hx. unfold sl_blk. by rewrite Hblk. }
  assert (∀ x, x ∈ hd :: ns → sl_ht blkof' U' x = sl_ht blkof U x) as Hht.
  { intros x Hx. unfold sl_ht at 1. rewrite Hb by done.
    pose proof (sl_U _ _ _ _ _ _ _ Hrep x Hx) as Hu.
    pose proof (sl_blkof _ _ _ _ _ _ _ Hrep x Hx) as Hbx.
    destruct (HU x _ _ Hx Hbx Hu) as [-> _]. simpl. lia. }
  split; try done.
  - by rewrite Hm.
  - destruct sr_hd0 as (b & Hbk & Hs). exists b. rewrite Hblk by constructor. rewrite Hm.
    split; [done|]. eapply HU; [constructor|done..].
  - intros n Hn. destruct (sr_node0 n Hn) as (b & s & Hbk & Hs & ?). exists b, s.
    rewrite Hblk by by constructor. split_and!; [done| |lia..]. eapply HU; [by constructor|done..].
  - intros n1 n2 b H1 H2. rewrite !Hblk by done. by apply sr_inj0.
  - intros k Hk. rewrite Hm in Hk.
    rewrite (lvl_ext _ (sl_ht blkof U)) by (intros; apply Hht; by constructor).
    eapply lchain_ext; [|by apply sr_chain0]. intros x Hx.
    destruct (sl_chain_elem blkof f U hd tl lev ns Hrep k ns _ x Hk eq_refl) as [Hx' ?];
      [by intros ?|done|].
    rewrite Hb by done.
    pose proof (sl_U _ _ _ _ _ _ _ Hrep x Hx') as Hu.
    pose proof (sl_blkof _ _ _ _ _ _ _ Hrep x Hx') as Hbx.
    destruct (HU x _ _ Hx' Hbx Hu) as [_ Hc]. apply Hc. lia.
Qed.

(** ** Insertion *)

Section link.
Context (blkof : Z → res Z) (f : fb) (U : gmap Z Z) (hd tl lev : Z) (l1 l2 : list Z).
Context (n nb h : Z).
Context (Hrep : sl_rep blkof f U hd tl lev (l1 ++ l2)).
Context (Hn : n ∉ hd :: tl :: l1 ++ l2).
Context (Hnb : blkof n = Ok nb) (HUn : U !! nb = Some (h + 1)) (Hh : 0 ≤ h < fb_maxsize f).
Context (Hfresh : ∀ x, x ∈ hd :: l1 ++ l2 → blkof x ≠ Ok nb).
Context (upd : gmap Z Z).
Abbreviation blk := (sl_blk blkof).
Abbreviation ht := (sl_ht blkof U).
Abbreviation nodes := (hd :: n :: l1 ++ l2).
Context (Hupd : ∀ j, 0 ≤ j ≤ h → upd !! j = Some (last_or hd (lvl ht j l1))).

Lemma link_cell_ne g x j k :
  fb_own g U → x ∈ hd :: l1 ++ l2 → 0 ≤ j ≤ ht x → 0 ≤ k ≤ h → blk x + j ≠ nb + k.
Proof.
  intros Hown Hx Hj Hk Heq.
  pose proof (sl_U _ _ _ _ _ _ _ Hrep x Hx) as Hu.
  pose proof (sl_blkof _ _ _ _ _ _ _ Hrep x Hx) as Hb.
  destruct (decide (blk x = nb)) as [Hbn|Hne]; [apply (Hfresh x Hx); congruence|].
  destruct (fb_own_disj g U Hown _ _ _ _ Hne Hu HUn); lia.
Qed.

Lemma link_ht : ht n = h.
Proof. unfold sl_ht, sl_blk. rewrite Hnb, HUn. simpl. lia. Qed.

Lemma link_blk : blk n = nb.
Proof. unfold sl_blk. by rewrite Hnb. Qed.

(** The predecessor on a level is a node of that level. *)
Lemma link_pred k :
  0 ≤ k ≤ h → last_or hd (lvl ht k l1) ∈ hd :: l1 ++ l2 ∧ k ≤ ht (last_or hd (lvl ht k l1)).
Proof.
  intros Hk. destruct (sl_chain_elem blkof f U hd tl lev (l1 ++ l2) Hrep k l1
    (lvl ht k l1) (last_or hd (lvl ht k l1))) as [? ?].
  - lia.
  - done.
  - apply incl_appl, incl_refl.
  - apply last_or_elem.
  - split; [done|lia].
Qed.

(** One turn of the loop of [sl_link], at level [k] in arena [m]. *)
Section step.
Context (m : gmap Z Z) (k : Z) (Hk : 0 ≤ k ≤ h).
Context (Hown : fb_own (fb_set_fblks f m) U).
Context (Hch : lchain m blk k hd (lvl ht k (l1 ++ l2)) tl).
Let p := last_or hd (lvl ht k l1).
Let x := head_or tl (lvl ht k l2).
Let m1 := <[nb + k := x]> m.
Let m2 := <[blk p + k := n]> m1.

Lemma link_p_facts :
  p ∈ hd :: l1 ++ l2 ∧ k ≤ ht p ∧ U !! blk p = Some (ht p + 1) ∧ blkof p = Ok (blk p).
Proof.
  destruct (link_pred k Hk) as [Hp Hpk]. split_and!; [done|done|..].
  - by apply (sl_U _ _ _ _ _ _ _ Hrep).
  - by apply (sl_blkof _ _ _ _ _ _ _ Hrep).
Qed.

Lemma link_read : m !! (blk p + k) = Some x.
Proof.
  rewrite lvl_app in Hch. apply lchain_mid in Hch as [_ Hc2].
  unfold x, head_or. destruct (lvl ht k l2); [done|by destruct Hc2].
Qed.

Lemma link_own1 : fb_own (fb_set_fblks f m1) U.
Proof. eapply (fb_own_write (fb_set_fblks f m)); [done..|lia]. Qed.

Lemma link_own2 : fb_own (fb_set_fblks f m2) U.
Proof.
  destruct link_p_facts as (_ & ? & ? & _).
  eapply (fb_own_write (fb_set_fblks f m1) U link_own1); [done|lia].
Qed.

(** Cells of the old nodes, the predecessor's at this level apart, keep
    their contents. *)
Lemma link_old y j :
  y ∈ hd :: l1 ++ l2 → 0 ≤ j ≤ ht y → j ≠ k ∨ y ≠ p →
  m2 !! (blk y + j) = m !! (blk y + j).
Proof.
  intros Hy Hj Hne. destruct link_p_facts as (Hp & Hpk & _ & _).
  unfold m2, m1. rewrite !lookup_insert_ne; [done|..].
  - intros Heq. symmetry in Heq. revert Heq. eapply link_cell_ne; [exact Hown|done..].
  - intros Heq. edestruct (sl_cell_inj _ _ _ _ _ _ _ Hrep (fb_set_fblks f m)) as [? ?];
      [exact Hown|exact Hp|exact Hy|split; [apply Hk|exact Hpk]|exact Hj|exact Heq|].
    destruct Hne; congruence.
Qed.

Lemma link_p_notin : p ∉ l2.
Proof.
  pose proof (sr_nodup _ _ _ _ _ _ _ Hrep) as Hnd.
  apply NoDup_cons in Hnd as [Hhd Hnd]. apply NoDup_cons in Hnd as [_ Hnd].
  apply NoDup_app in Hnd as (_ & Hnd & _). intros Hin.
  destruct (proj1 (elem_of_cons _ _ _) (last_or_elem hd (lvl ht k l1))) as [Hpe|Hpe].
  - apply Hhd. right. apply elem_of_app. right. fold p in Hpe. by rewrite <- Hpe.
  - apply elem_of_lvl in Hpe as [_ Hpe]. by apply (Hnd p).
Qed.

Lemma link_chain_prefix : lchain m2 blk k hd (lvl ht k l1) n.
Proof.
  assert (∀ y, y ∈ hd :: lvl ht k l1 → y ∈ hd :: l1 ++ l2 ∧ 0 ≤ k ≤ ht y) as Helem.
  { intros y Hy. eapply (sl_chain_elem _ _ _ _ _ _ _ Hrep k l1 _ y);
      [lia|done|apply incl_appl, incl_refl|done]. }
  unfold m2, p. apply lchain_redirect with (t := x).
  - by eapply sl_NoDup_prefix.
  - intros y z [? ?]%Helem [? ?]%Helem Heq. by destruct (sl_cell_inj _ _ _ _ _ _ _ Hrep (fb_set_fblks f m) y z k k).
  - eapply lchain_ext.
    + intros y [? ?]%Helem. unfold m1. rewrite lookup_insert_ne; [done|].
      intros Heq. symmetry in Heq. revert Heq. by eapply link_cell_ne.
    + rewrite lvl_app in Hch. by apply lchain_mid in Hch as [Hc1 _].
Qed.

Lemma link_chain_suffix : lchain m2 blk k n (lvl ht k l2) tl.
Proof.
  destruct link_p_facts as (Hp & Hpk & _ & _).
  assert (m2 !! (blk n + k) = Some x) as Hnk.
  { rewrite link_blk. unfold m2, m1. rewrite lookup_insert_ne, lookup_insert_eq; [done|].
    eapply link_cell_ne; [exact Hown|exact Hp|lia|done]. }
  rewrite lvl_app in Hch. apply lchain_mid in Hch as [_ Hc2]. fold p in Hc2.
  pose proof link_old as Hold. pose proof link_p_notin as Hpn.
  clearbody m2. unfold x, head_or in Hnk. destruct (lvl ht k l2) as [|y l] eqn:Hl2; [done|].
  simpl in Hnk |- *. split; [done|]. destruct Hc2 as [_ Hc2].
  eapply lchain_ext; [|done]. intros z Hz. rewrite <- Hl2 in Hz.
  apply elem_of_lvl in Hz as [? Hz]. apply Hold; [|lia|].
  - right. apply elem_of_app. by right.
  - right. by intros ->.
Qed.

Lemma link_chain : lchain m2 blk k hd (lvl ht k (l1 ++ n :: l2)) tl.
Proof.
  rewrite lvl_app, lvl_cons_in by (rewrite link_ht; lia). apply lchain_app.
  split; [apply link_chain_prefix|apply link_chain_suffix].
Qed.

Lemma link_other j ns :
  0 ≤ j < fb_maxsize f → j ≠ k → incl ns (n :: l1 ++ l2) →
  lchain m blk j hd (lvl ht j ns) tl → lchain m2 blk j hd (lvl ht j ns) tl.
Proof.
  intros Hj Hjk Hincl. apply lchain_ext. intros y Hy.
  destruct (decide (y = n)) as [->|Hyn].
  - destruct link_p_facts as (Hp & Hpk & _ & _).
    rewrite link_blk. unfold m2, m1. rewrite !lookup_insert_ne; [done|lia|].
    apply elem_of_cons in Hy as [->|[Hy _]%elem_of_lvl]; [by destruct Hn; left|].
    rewrite link_ht in Hy. eapply link_cell_ne; [exact Hown|exact Hp|lia|lia].
  - apply elem_of_cons in Hy as [->|[Hy1 Hy2]%elem_of_lvl].
    + apply link_old; [left|rewrite (sl_ht_hd _ _ _ _ _ _ _ Hrep); lia|by left].
    + apply link_old; [|lia|by left]. right.
      apply list_elem_of_In, Hincl, list_elem_of_In in Hy2.
      by apply elem_of_cons in Hy2 as [?|?].
Qed.

Lemma link_frame : sl_frame blkof U nodes m m2.
Proof.
  destruct link_p_facts as (Hp & Hpk & HUp & Hbp). 
  apply (sl_frame_trans _ _ _ _ m1).
  - apply (sl_frame_write blkof (fb_set_fblks f m) U nodes n nb (h + 1) k x);
      [done|right; left|done|done|lia].
  - apply (sl_frame_write blkof (fb_set_fblks f m1) U nodes p (blk p) (ht p + 1) k n);
      [apply link_own1| |done|done|lia].
    apply elem_of_cons in Hp as [->|Hp]; [left|by right; right].
Qed.
End step.

(** The levels above [k] have the new node, the others not yet. *)
Definition link_inv (k : Z) (m : gmap Z Z) : Prop :=
  fb_own (fb_set_fblks f m) U ∧ sl_frame blkof U nodes (fb_fblks f) m ∧
  (∀ j, 0 ≤ j ≤ k → lchain m blk j hd (lvl ht j (l1 ++ l2)) tl) ∧
  (∀ j, k < j < fb_maxsize f → lchain m blk j hd (lvl ht j (l1 ++ n :: l2)) tl).

Lemma link_inv_step k m :
  0 ≤ k ≤ h → link_inv k m →
  let p := last_or hd (lvl ht k l1) in
  let m' := <[blk p + k := n]> (<[nb + k := head_or tl (lvl ht k l2)]> m) in
  link_inv (k - 1) m'.
Proof.
  intros Hk (Hown & Hfr & Hlo & Hhi) p m'.
  assert (lchain m blk k hd (lvl ht k (l1 ++ l2)) tl) as Hch by (apply Hlo; lia).
  split_and!.
  - by apply link_own2.
  - eapply sl_frame_trans; [done|by apply link_frame].
  - intros j Hj. apply link_other; [done..|lia|lia|by apply incl_tl, incl_refl|apply Hlo; lia].
  - intros j Hj. destruct (decide (j = k)) as [->|]; [by apply link_chain|].
    apply link_other; [done..|lia|lia| |apply Hhi; lia].
    intros y. rewrite !in_app_iff. simpl. rewrite in_app_iff. tauto.
Qed.

Lemma sl_link_turn (k : nat) m :
  Z.of_nat k ≤ h → link_inv (Z.of_nat k) m →
  let p := last_or hd (lvl ht (Z.of_nat k) l1) in
  let m' := <[blk p + Z.of_nat k := n]>
              (<[nb + Z.of_nat k := head_or tl (lvl ht (Z.of_nat k) l2)]> m) in
  sl_link blkof k m upd n =
    match k with O => Ok m' | S k => sl_link blkof k m' upd n end.
Proof.
  intros Hk (Hown & _ & Hlo & _) p m'.
  assert (0 ≤ Z.of_nat k ≤ h) as Hk' by lia.
  destruct (link_p_facts _ Hk') as (Hp & Hpk & HUp & Hbp).
  pose proof (link_read m (Z.of_nat k) (Hlo (Z.of_nat k) ltac:(lia))) as Hrd.
  destruct k as [|k]; cbn [sl_link];
    rewrite (rd_Ok _ _ _ (Hupd _ Hk')), bind_Ok, Hnb, bind_Ok, Hbp, bind_Ok,
      (rd_Ok _ _ _ Hrd), bind_Ok;
    (rewrite wr_Ok, bind_Ok
      by (apply (fb_own_cell (fb_set_fblks f m) U Hown nb (h + 1)); [done|lia]));
    (rewrite wr_Ok, bind_Ok by (rewrite lookup_insert; case_decide; [done|by rewrite Hrd]));
    done.
Qed.

Lemma sl_link_loop (k : nat) m :
  Z.of_nat k ≤ h → link_inv (Z.of_nat k) m →
  ∃ m', sl_link blkof k m upd n = Ok m' ∧ link_inv (-1) m'.
Proof.
  revert m. induction k as [|k IH]; intros m Hk Hinv; rewrite sl_link_turn by done;
    apply link_inv_step in Hinv; [|lia| |lia].
  - eexists. by split.
  - apply IH; [lia|]. by replace (Z.of_nat k) with (Z.of_nat (S k) - 1) by lia.
Qed.

(** Linking the new node between [l1] and [l2] on the levels up to [h]. *)
Lemma sl_link_spec :
  fb_own f U →
  ∃ m', sl_link blkof (Z.to_nat h) (fb_fblks f) upd n = Ok m' ∧
    fb_own (fb_set_fblks f m') U ∧
    sl_rep blkof (fb_set_fblks f m') U hd tl (Z.max lev h) (l1 ++ n :: l2) ∧
    sl_frame blkof U nodes (fb_fblks f) m'.
Proof.
  intros Hown. destruct (sl_link_loop (Z.to_nat h) (fb_fblks f))
    as (m' & Hlink & Hown' & Hfr & _ & Hhi); [lia|split_and!|].
  - by destruct f.
  - done.
  - intros j Hj. apply (sr_chain _ _ _ _ _ _ _ Hrep). lia.
  - intros j Hj. rewrite lvl_app, lvl_cons_out, <- lvl_app by (rewrite link_ht; lia).
    apply (sr_chain _ _ _ _ _ _ _ Hrep). lia.
  - exists m'. split_and!; [done..| |done]. pose proof Hrep as []. split; simpl.
    + lia.
    + assert (hd :: tl :: l1 ++ n :: l2 ≡ₚ n :: hd :: tl :: l1 ++ l2) as -> by solve_Permutation.
      by constructor.
    + done.
    + intros x Hx. assert (x = n ∨ x ∈ l1 ++ l2) as [->|Hx'] by set_solver.
      * exists nb, (h + 1). split_and!; [done..|lia|lia].
      * destruct (sr_node0 x Hx') as (b & s & ? & ? & ?). exists b, s. split_and!; [done..|lia|lia].
    + intros x y b Hx Hy Hbx Hby.
      assert (x = n ∨ x ∈ hd :: l1 ++ l2) as [->|Hx'] by set_solver;
      assert (y = n ∨ y ∈ hd :: l1 ++ l2) as [->|Hy'] by set_solver; [done|..|by eapply sr_inj0].
      * destruct (Hfresh y Hy'). congruence.
      * destruct (Hfresh x Hx'). congruence.
    + intros k Hk. apply Hhi. lia.
Qed.
End link.

(** ** Deletion *)

Section unlink.
Context (blkof : Z → res Z) (f : fb) (U : gmap Z Z) (hd tl lev : Z) (l1 l2 : list Z) (q : Z).
Context (Hrep : sl_rep blkof f U hd tl lev (l1 ++ q :: l2)).
Abbreviation blk := (sl_blk blkof).
Abbreviation ht := (sl_ht blkof U).
Abbreviation nodes := (hd :: l1).

Lemma unlink_q : q ∈ hd :: l1 ++ q :: l2 ∧ q ≠ tl ∧ (q ∉ l1) ∧ (q ∉ l2) ∧ q ≠ hd.
Proof.
  pose proof (sr_nodup _ _ _ _ _ _ _ Hrep) as Hnd.
  apply NoDup_cons in Hnd as [Hhd Hnd]. apply NoDup_cons in Hnd as [Htl Hnd].
  apply NoDup_app in Hnd as (_ & Hq & Hnd). apply NoDup_cons in Hnd as [Hq2 _].
  split_and!; [set_solver..|].
  intros ->. apply Hhd. set_solver.
Qed.

Lemma unlink_ht_q : 0 ≤ ht q ≤ lev.
Proof. apply (sl_ht_node _ _ _ _ _ _ _ Hrep). set_solver. Qed.

Section step.
Context (m : gmap Z Z) (k : Z) (Hk : 0 ≤ k ≤ ht q).
Context (Hown : fb_own (fb_set_fblks f m) U).
Context (Hch : lchain m blk k hd (lvl ht k (l1 ++ q :: l2)) tl).
Let p := last_or hd (lvl ht k l1).
Let x := head_or tl (lvl ht k l2).
Let m1 := <[blk p + k := x]> m.

Lemma unlink_p_facts :
  p ∈ nodes ∧ k ≤ ht p ∧ U !! blk p = Some (ht p + 1) ∧ blkof p = Ok (blk p).
Proof.
  pose proof unlink_ht_q. pose proof (sr_lev _ _ _ _ _ _ _ Hrep).
  destruct (sl_chain_elem blkof f U hd tl lev _ Hrep k l1 (lvl ht k l1) p) as [Hp ?];
    [lia|done|apply incl_appl, incl_refl|apply last_or_elem|].
  split_and!; [|lia|by apply (sl_U _ _ _ _ _ _ _ Hrep)|by apply (sl_blkof _ _ _ _ _ _ _ Hrep)].
  destruct (proj1 (elem_of_cons _ _ _) (last_or_elem hd (lvl ht k l1))) as [Hp'|Hp'].
  - unfold p. rewrite Hp'. left.
  - apply elem_of_lvl in Hp' as [_ Hp']. by right.
Qed.

Lemma unlink_chain_split :
  lchain m blk k hd (lvl ht k l1) q ∧ lchain m blk k q (lvl ht k l2) tl.
Proof.
  rewrite lvl_app, lvl_cons_in in Hch by lia. by apply lchain_app in Hch.
Qed.

Lemma unlink_read_p : m !! (blk p + k) = Some q.
Proof.
  destruct unlink_chain_split as [Hc _].
  rewrite <- (app_nil_r (lvl ht k l1)) in Hc. by apply lchain_mid in Hc as [_ Hc].
Qed.

Lemma unlink_read_q : m !! (blk q + k) = Some x.
Proof.
  destruct unlink_chain_split as [_ Hc].
  unfold x, head_or. destruct (lvl ht k l2); [done|by destruct Hc].
Qed.

Lemma unlink_own : fb_own (fb_set_fblks f m1) U.
Proof.
  destruct unlink_p_facts as (_ & ? & ? & _).
  apply (fb_own_write (fb_set_fblks f m) U Hown (blk p) (ht p + 1)); [done|lia].
Qed.

Lemma unlink_old y j :
  y ∈ hd :: l1 ++ q :: l2 → 0 ≤ j ≤ ht y → j ≠ k ∨ y ≠ p →
  m1 !! (blk y + j) = m !! (blk y + j).
Proof.
  intros Hy Hj Hne. destruct unlink_p_facts as (Hp & Hpk & _ & _).
  unfold m1. apply lookup_insert_ne. intros Heq.
  edestruct (sl_cell_inj _ _ _ _ _ _ _ Hrep (fb_set_fblks f m) p y k j) as [? ?];
    [done|set_solver|done|lia|done|done|]. destruct Hne; congruence.
Qed.

Lemma unlink_p_notin : p ∉ l2.
Proof.
  destruct unlink_p_facts as (Hp & _).
  pose proof (sr_nodup _ _ _ _ _ _ _ Hrep) as Hnd.
  apply NoDup_cons in Hnd as [Hhd Hnd]. apply NoDup_cons in Hnd as [_ Hnd].
  apply NoDup_app in Hnd as (_ & Hnd & _). intros Hin.
  apply elem_of_cons in Hp as [Hp|Hp].
  - apply Hhd. rewrite <- Hp. set_solver.
  - apply (Hnd p); [done|by right].
Qed.

Lemma unlink_chain : lchain m1 blk k hd (lvl ht k (l1 ++ l2)) tl.
Proof.
  destruct unlink_chain_split as [Hc1 Hc2].
  pose proof unlink_ht_q. pose proof (sr_lev _ _ _ _ _ _ _ Hrep).
  rewrite lvl_app. apply lchain_mid. split.
  - unfold m1, p. apply lchain_redirect with (t := q); [by eapply sl_NoDup_prefix| |done].
    intros y z Hy Hz Heq.
    assert (∀ w, w ∈ hd :: lvl ht k l1 → w ∈ hd :: l1 ++ q :: l2 ∧ 0 ≤ k ≤ ht w) as Helem.
    { intros w Hw. eapply (sl_chain_elem _ _ _ _ _ _ _ Hrep k l1 _ w);
        [lia|done|apply incl_appl, incl_refl|done]. }
    apply Helem in Hy as [? ?], Hz as [? ?].
    by destruct (sl_cell_inj _ _ _ _ _ _ _ Hrep (fb_set_fblks f m) y z k k).
  - assert (m1 !! (blk p + k) = Some x) as Hpk by apply lookup_insert_eq. fold p.
    pose proof unlink_old as Hold. pose proof unlink_p_notin as Hpn.
    clearbody m1. unfold x, head_or in Hpk. destruct (lvl ht k l2) as [|y l] eqn:Hl2; [done|].
    destruct Hc2 as [_ Hc2]. split; [done|].
    eapply lchain_ext; [|done]. intros z Hz. rewrite <- Hl2 in Hz.
    apply elem_of_lvl in Hz as [? Hz]. apply Hold; [set_solver|lia|].
    right. by intros ->.
Qed.

Lemma unlink_other j ns :
  0 ≤ j < fb_maxsize f → j ≠ k → incl ns (l1 ++ q :: l2) →
  lchain m blk j hd (lvl ht j ns) tl → lchain m1 blk j hd (lvl ht j ns) tl.
Proof.
  intros Hj Hjk Hincl. apply lchain_ext. intros y Hy.
  edestruct (sl_chain_elem _ _ _ _ _ _ _ Hrep j ns _ y Hj eq_refl Hincl Hy).
  apply unlink_old; [done..|by left].
Qed.

Lemma unlink_frame : sl_frame blkof U nodes m m1.
Proof.
  destruct unlink_p_facts as (Hp & Hpk & HUp & Hbp).
  apply (sl_frame_write blkof (fb_set_fblks f m) U nodes p (blk p) (ht p + 1) k x);
    [done..|lia].
Qed.
End step.

Definition unlink_inv (k : Z) (m : gmap Z Z) : Prop :=
  fb_own (fb_set_fblks f m) U ∧ sl_frame blkof U nodes (fb_fblks f) m ∧
  (∀ j, 0 ≤ j < k → lchain m blk j hd (lvl ht j (l1 ++ l2)) tl) ∧
  (∀ j, k ≤ j < fb_maxsize f → lchain m blk j hd (lvl ht j (l1 ++ q :: l2)) tl).

Lemma unlink_inv_step k m :
  0 ≤ k ≤ ht q → unlink_inv k m →
  unlink_inv (k + 1) (<[blk (last_or hd (lvl ht k l1)) + k := head_or tl (lvl ht k l2)]> m).
Proof.
  intros Hk (Hown & Hfr & Hlo & Hhi). pose proof unlink_ht_q.
  pose proof (sr_lev _ _ _ _ _ _ _ Hrep).
  assert (lchain m blk k hd (lvl ht k (l1 ++ q :: l2)) tl) as Hch by (apply Hhi; lia).
  split_and!.
  - by apply unlink_own.
  - eapply sl_frame_trans; [done|by apply unlink_frame].
  - intros j Hj. destruct (decide (j = k)) as [->|]; [by apply unlink_chain|].
    apply unlink_other; [done..|lia|lia| |apply Hlo; lia].
    intros y. rewrite !in_app_iff. simpl. tauto.
  - intros j Hj. apply unlink_other; [done..|lia|lia|apply incl_refl|apply Hhi; lia].
Qed.

Context (upd : gmap Z Z).
Context (Hupd : ∀ j, 0 ≤ j ≤ lev → upd !! j = Some (last_or hd (lvl ht j l1))).

Lemma sl_unlink_loop (t : nat) k m :
  0 ≤ k ≤ ht q + 1 → Z.of_nat t = lev + 1 - k → unlink_inv k m →
  ∃ m', sl_unlink blkof t k m upd q = Ok (m', ht q + 1) ∧ unlink_inv (ht q + 1) m'.
Proof.
  pose proof unlink_ht_q as Hq. destruct unlink_q as (Hqin & Hqt & _ & Hq2 & _).
  pose proof (sr_lev _ _ _ _ _ _ _ Hrep) as Hlev.
  revert k m. induction t as [|t IH]; intros k m Hk Ht Hinv.
  { exists m. cbn [sl_unlink]. replace (ht q + 1) with k by lia. done. }
  cbn [sl_unlink]. rewrite (rd_Ok _ _ _ (Hupd k ltac:(lia))), bind_Ok.
  pose proof Hinv as (Hown & _ & _ & Hhi).
  destruct (decide (k ≤ ht q)) as [Hkq|Hkq].
  - assert (0 ≤ k ≤ ht q) as Hk' by lia.
    destruct (unlink_p_facts k Hk') as (Hp & Hpk & HUp & Hbp).
    assert (lchain m blk k hd (lvl ht k (l1 ++ q :: l2)) tl) as Hch by (apply Hhi; lia).
    rewrite Hbp, bind_Ok, (rd_Ok _ _ _ (unlink_read_p m k Hk' Hch)), bind_Ok, Z.eqb_refl.
    rewrite (sl_blkof _ _ _ _ _ _ _ Hrep q Hqin), bind_Ok,
      (rd_Ok _ _ _ (unlink_read_q m k Hk' Hch)), bind_Ok.
    rewrite wr_Ok, bind_Ok by (rewrite (unlink_read_p m k Hk' Hch); eauto).
    apply IH; [lia..|by apply unlink_inv_step].
  - assert (k = ht q + 1) as -> by lia.
    set (k := ht q + 1) in *.
    destruct (sl_chain_elem blkof f U hd tl lev _ Hrep k l1 (lvl ht k l1)
                (last_or hd (lvl ht k l1))) as [Hp ?];
      [lia|done|apply incl_appl, incl_refl|apply last_or_elem|].
    assert (lchain m blk k hd (lvl ht k (l1 ++ q :: l2)) tl) as Hch by (apply Hhi; lia).
    rewrite lvl_app, lvl_cons_out in Hch by lia. apply lchain_mid in Hch as [_ Hch].
    assert (m !! (blk (last_or hd (lvl ht k l1)) + k) = Some (head_or tl (lvl ht k l2))) as Hrd.
    { unfold head_or. destruct (lvl ht k l2); [done|by destruct Hch]. }
    rewrite (sl_blkof _ _ _ _ _ _ _ Hrep _ Hp), bind_Ok, (rd_Ok _ _ _ Hrd), bind_Ok.
    destruct (Z.eqb_spec (head_or tl (lvl ht k l2)) q) as [Heq|_]; [exfalso|by exists m].
    unfold head_or in Heq. destruct (lvl ht k l2) as [|y l] eqn:Hl2; simpl in Heq; [done|].
    subst y. assert (q ∈ lvl ht k l2) as [_ ?]%elem_of_lvl by (rewrite Hl2; constructor). done.
Qed.

(** Unlinking [q] from all of its levels; [ht q + 1] is the size of its block. *)
Lemma sl_unlink_spec :
  fb_own f U →
  ∃ m', sl_unlink blkof (Z.to_nat (lev + 1)) 0 (fb_fblks f) upd q = Ok (m', ht q + 1) ∧
    fb_own (fb_set_fblks f m') U ∧
    sl_rep blkof (fb_set_fblks f m') U hd tl lev (l1 ++ l2) ∧
    sl_frame blkof U nodes (fb_fblks f) m'.
Proof.
  intros Hown. pose proof unlink_ht_q. pose proof Hrep as [].
  destruct (sl_unlink_loop (Z.to_nat (lev + 1)) 0 (fb_fblks f))
    as (m' & Hun & Hown' & Hfr & Hlo & Hhi); [lia|lia|split_and!|].
  - by destruct f.
  - done.
  - intros j Hj. lia.
  - intros j Hj. apply sr_chain0. lia.
  - exists m'. split_and!; [done..| |done]. split; simpl.
    + done.
    + assert (hd :: tl :: l1 ++ q :: l2 ≡ₚ q :: hd :: tl :: l1 ++ l2) as Hp by solve_Permutation.
      rewrite Hp in sr_nodup0. by apply NoDup_cons in sr_nodup0 as [_ ?].
    + done.
    + intros x Hx. apply sr_node0. set_solver.
    + intros x y b Hx Hy. apply sr_inj0; set_solver.
    + intros k Hk. destruct (decide (k ≤ ht q)); [apply Hlo; lia|].
      specialize (Hhi k ltac:(lia)). rewrite lvl_app, lvl_cons_out in Hhi by lia.
      by rewrite lvl_app.
Qed.
End unlink.

(** ** Lowering the level *)

Section shrink.
Context (blkof : Z → res Z) (f : fb) (U : gmap Z Z) (hd tl : Z) (ns : list Z).

Lemma sl_shrink_loop (lev : nat) :
  sl_rep blkof f U hd tl (Z.of_nat lev) ns →
  ∃ lev', sl_shrink blkof lev (fb_fblks f) hd tl = Ok lev' ∧
    sl_rep blkof f U hd tl lev' ns.
Proof.
  induction lev as [|lev IH]; intros Hrep; pose proof Hrep as []; cbn [sl_shrink];
    rewrite (sl_fwd_hd _ _ _ _ _ _ _ Hrep) by done; rewrite bind_Ok.
  - by exists 0.
  - destruct (Z.eqb_spec (head_or tl (lvl (sl_ht blkof U) (Z.of_nat (S lev)) ns)) tl)
      as [Hxv|Hne]; [|by exists (Z.of_nat (S lev))].
    apply IH. split; [lia|done|done| |done|done].
    intros n Hn. destruct (sr_node0 n Hn) as (b & s & Hb & Hs & Hr).
    exists b, s. split_and!; [done..|lia|].
    destruct (decide (s = Z.of_nat (S lev) + 1)) as [->|]; [exfalso|lia].
    assert (n ∈ lvl (sl_ht blkof U) (Z.of_nat (S lev)) ns) as Hin.
    { apply elem_of_lvl. split; [|done]. unfold sl_ht, sl_blk. rewrite Hb, Hs. simpl. lia. }
    unfold head_or in Hxv. destruct (lvl _ _ ns) as [|y l] eqn:Hl; [by apply elem_of_nil in Hin|].
    simpl in Hxv. subst y.
    assert (tl ∈ lvl (sl_ht blkof U) (Z.of_nat (S lev)) ns) as [_ Htl]%elem_of_lvl
      by (rewrite Hl; constructor).
    apply NoDup_cons in sr_nodup0 as [_ Hnd]. by apply NoDup_cons in Hnd as [? _].
Qed.

Lemma sl_shrink_spec lev :
  sl_rep blkof f U hd tl lev ns →
  ∃ lev', sl_shrink blkof (Z.to_nat lev) (fb_fblks f) hd tl = Ok lev' ∧
    sl_rep blkof f U hd tl lev' ns.
Proof.
  intros Hrep. pose proof (sr_lev _ _ _ _ _ _ _ Hrep). apply sl_shrink_loop.
  by rewrite Z2Nat.id by lia.
Qed.
End shrink.

(** ** Insertion and deletion beside other users of the arena

    [U] are the blocks of the component that the list belongs to and [V] those
    of the others. *)

(** The cells of the blocks of [V] are the same in [f] and [f']. *)
Definition keeps (V : gmap Z Z) (f f' : fb) : Prop :=
  ∀ b s c, V !! b = Some s → b ≤ c < b + s → fb_fblks f' !! c = fb_fblks f !! c.

Lemma keeps_refl V f : keeps V f f.
Proof. done. Qed.

Lemma keeps_trans V f1 f2 f3 : keeps V f1 f2 → keeps V f2 f3 → keeps V f1 f3.
Proof. intros H1 H2 b s c Hb Hc. by rewrite (H2 b s c), (H1 b s c). Qed.

Lemma keeps_mono V V' f f' : V' ⊆ V → keeps V f f' → keeps V' f f'.
Proof. intros Hsub H b s c Hb Hc. eapply H; [by eapply lookup_weaken|done]. Qed.

(** A list survives what happens to blocks that are not its own. *)
Lemma sl_rep_keeps blkof f f' U hd tl lev ns :
  sl_rep blkof f U hd tl lev ns → fb_maxsize f' = fb_maxsize f → keeps U f f' →
  sl_rep blkof f' U hd tl lev ns.
Proof.
  intros Hrep Hm Hk. eapply sl_rep_ext; [done..|]. intros x b s _ _ Hb. split; [done|].
  intros c Hc. by eapply Hk.
Qed.

Lemma sl_rep_weaken blkof f U W hd tl lev ns :
  sl_rep blkof f U hd tl lev ns → U ⊆ W → sl_rep blkof f W hd tl lev ns.
Proof.
  intros Hrep Hsub. eapply sl_rep_ext; [done..|]. intros x b s _ _ Hb.
  split; [by eapply lookup_weaken|done].
Qed.

(** Conversely, a list whose blocks all are in [U] is a list over [U]. *)
Lemma sl_rep_strengthen blkof f U W hd tl lev ns :
  sl_rep blkof f W hd tl lev ns → U ⊆ W →
  (∀ x b, x ∈ hd :: ns → blkof x = Ok b → is_Some (U !! b)) →
  sl_rep blkof f U hd tl lev ns.
Proof.
  intros Hrep Hsub Hin. eapply sl_rep_ext; [done..|]. intros x b s Hx Hb Hs.
  split; [|done]. destruct (Hin x b Hx Hb) as [s' Hs'].
  rewrite Hs'. pose proof (lookup_weaken _ _ _ _ Hs' Hsub). congruence.
Qed.

Lemma sl_block blkof f U hd tl lev ns x b :
  sl_rep blkof f U hd tl lev ns → x ∈ hd :: ns → blkof x = Ok b → is_Some (U !! b).
Proof.
  intros Hrep Hx Hb. pose proof (sl_U _ _ _ _ _ _ _ Hrep x Hx) as Hu.
  unfold sl_blk in Hu. rewrite Hb in Hu. eauto.
Qed.

(** The level of a list may be raised. *)
Lemma sl_rep_raise blkof f U hd tl lev lev' ns :
  sl_rep blkof f U hd tl lev ns → lev ≤ lev' < fb_maxsize f → sl_rep blkof f U hd tl lev' ns.
Proof.
  intros [] Hl. split; [lia|done..| |done|done].
  intros n Hn. destruct (sr_node0 n Hn) as (b & s & ? & ? & ?). exists b, s. split_and!; [done..|lia|lia].
Qed.

(** Levels do not depend on the part of the block map that is not the list's. *)
Lemma sl_ht_weaken blkof f U W hd tl lev ns n :
  sl_rep blkof f U hd tl lev ns → U ⊆ W → n ∈ hd :: ns → sl_ht blkof W n = sl_ht blkof U n.
Proof.
  intros Hrep Hsub Hn. pose proof (sl_U _ _ _ _ _ _ _ Hrep n Hn) as Hu.
  unfold sl_ht at 1. rewrite (lookup_weaken _ _ _ _ Hu Hsub). simpl. lia.
Qed.

Section insert.
Context (blkof blkof' : Z → res Z) (f f1 : fb) (U V : gmap Z Z) (hd tl lev : Z).
Context (l1 l2 : list Z) (n nb h : Z) (upd : gmap Z Z).
Context (Hrep : sl_rep blkof f U hd tl lev (l1 ++ l2)).
Context (HUV : U ##ₘ V).
Context (Hgot : fb_got f (U ∪ V) (h + 1) nb f1).
Context (Hnb : blkof' n = Ok nb) (Hold : ∀ x, x ∈ hd :: l1 ++ l2 → blkof' x = blkof x).
Context (Hn : n ∉ hd :: tl :: l1 ++ l2) (Hh : 0 ≤ h < fb_maxsize f).
Context (Hupd : ∀ j, 0 ≤ j ≤ h → upd !! j = Some (last_or hd (lvl (sl_ht blkof U) j l1))).

Let U' := <[nb := h + 1]> U.

Lemma insert_disjoint : U' ##ₘ V ∧ U' ∪ V = <[nb := h + 1]> (U ∪ V).
Proof.
  destruct Hgot as (Hnone & _). apply lookup_union_None in Hnone as [_ HV].
  split; [by apply map_disjoint_insert_l_2|]. unfold U'. by rewrite insert_union_l.
Qed.

Lemma insert_rep : sl_rep blkof' f1 (U' ∪ V) hd tl lev (l1 ++ l2).
Proof.
  destruct Hgot as (Hnone & _ & Hm & _ & Hfr). destruct insert_disjoint as [_ ->].
  eapply sl_rep_ext; [exact Hrep|done|done|].
  intros x b s Hx Hb Hs. assert ((U ∪ V) !! b = Some s) as Hs'
    by by apply lookup_union_Some_l.
  split; [rewrite lookup_insert_ne; [done|congruence]|]. intros c Hc. by eapply Hfr.
Qed.

Lemma insert_ht x : x ∈ l1 ++ l2 → sl_ht blkof' (U' ∪ V) x = sl_ht blkof U x.
Proof.
  intros Hx. assert (x ∈ hd :: l1 ++ l2) as Hx' by by right.
  pose proof (sl_U _ _ _ _ _ _ _ Hrep x Hx') as Hu.
  unfold sl_ht at 1, sl_blk. rewrite Hold by done.
  rewrite (sl_blkof _ _ _ _ _ _ _ Hrep x Hx').
  destruct Hgot as (Hnone & _). destruct insert_disjoint as [_ ->].
  rewrite lookup_insert_ne.
  - rewrite (lookup_union_Some_l _ _ _ _ Hu). simpl. lia.
  - intros ->. rewrite (lookup_union_Some_l _ _ _ _ Hu) in Hnone. done.
Qed.

Lemma sl_insert_spec :
  ∃ m', sl_link blkof' (Z.to_nat h) (fb_fblks f1) upd n = Ok m' ∧
    fb_own (fb_set_fblks f1 m') (U' ∪ V) ∧ U' ##ₘ V ∧
    sl_rep blkof' (fb_set_fblks f1 m') U' hd tl (Z.max lev h) (l1 ++ n :: l2) ∧
    fb_maxsize f1 = fb_maxsize f ∧
    keeps V f (fb_set_fblks f1 m').
Proof.
  pose proof Hgot as (Hnone & Hown & Hm & _ & Hfr).
  destruct insert_disjoint as [Hdisj Heq]. rewrite <- Heq in Hown.
  assert ((U' ∪ V) !! nb = Some (h + 1)) as HUn by (rewrite Heq; apply lookup_insert_eq).
  assert (0 ≤ h < fb_maxsize f1) as Hh1 by by rewrite Hm.
  assert (∀ x, x ∈ hd :: l1 ++ l2 → blkof' x ≠ Ok nb) as Hfresh.
  { intros x Hx Hb. rewrite Hold in Hb by done.
    destruct (sl_block _ _ _ _ _ _ _ x nb Hrep Hx Hb) as [s Hs].
    by rewrite (lookup_union_Some_l _ _ _ _ Hs) in Hnone. }
  destruct (sl_link_spec blkof' f1 (U' ∪ V) hd tl lev l1 l2 n nb h insert_rep Hn Hnb HUn Hh1
    Hfresh upd) as (m' & Hlink & Hown' & Hrep' & Hframe).
  - intros j Hj. rewrite Hupd by done. f_equal. f_equal. symmetry. apply lvl_ext.
    intros x Hx. apply insert_ht. set_solver.
  - done.
  - exists m'. split_and!; [done..| |done|].
    + eapply sl_rep_strengthen; [done|by apply map_union_subseteq_l|].
      intros x b Hx Hb. assert (x = n ∨ x ∈ hd :: l1 ++ l2) as [->|Hx'] by set_solver.
      * assert (b = nb) as -> by congruence. unfold U'. rewrite lookup_insert_eq. eauto.
      * rewrite Hold in Hb by done. unfold U'. rewrite lookup_insert. case_decide; [eauto|].
        by eapply sl_block.
    + intros b s c Hb Hc. simpl. rewrite (Hframe b s c).
      * eapply Hfr; [by apply lookup_union_Some_r|done].
      * rewrite Heq. rewrite lookup_insert_ne; [by apply lookup_union_Some_r|].
        intros ->. by rewrite (lookup_union_Some_r _ _ _ _ HUV Hb) in Hnone.
      * done.
      * intros x Hx Hbx. assert (x = n ∨ x ∈ hd :: l1 ++ l2) as [->|Hx'] by set_solver.
        -- assert (b = nb) as -> by congruence.
           by rewrite (lookup_union_Some_r _ _ _ _ HUV Hb) in Hnone.
        -- rewrite Hold in Hbx by done.
           destruct (sl_block _ _ _ _ _ _ _ x b Hrep Hx' Hbx) as [s' Hs'].
           by apply (map_disjoint_spec U V) with (i := b) (x := s') (y := s) in HUV.
Qed.
End insert.

Section delete.
Context (blkof : Z → res Z) (f : fb) (U V : gmap Z Z) (hd tl lev : Z).
Context (l1 l2 : list Z) (q : Z) (upd : gmap Z Z).
Context (Hrep : sl_rep blkof f U hd tl lev (l1 ++ q :: l2)).
Context (Hown : fb_own f (U ∪ V)) (HUV : U ##ₘ V).
Context (Hupd : ∀ j, 0 ≤ j ≤ lev → upd !! j = Some (last_or hd (lvl (sl_ht blkof U) j l1))).

Lemma sl_delete_spec :
  ∃ m' s b f', sl_unlink blkof (Z.to_nat (lev + 1)) 0 (fb_fblks f) upd q = Ok (m', s) ∧
    blkof q = Ok b ∧ U !! b = Some s ∧
    fb_rel (fb_set_fblks f m') s b = Ok f' ∧
    fb_own f' (delete b U ∪ V) ∧ delete b U ##ₘ V ∧
    sl_rep blkof f' (delete b U) hd tl lev (l1 ++ l2) ∧
    fb_maxsize f' = fb_maxsize f ∧ keeps V f f'.
Proof.
  pose proof (map_union_subseteq_l U V) as Hsub.
  assert (sl_rep blkof f (U ∪ V) hd tl lev (l1 ++ q :: l2)) as HrepW by by eapply sl_rep_weaken.
  assert (∀ x, x ∈ hd :: l1 ++ q :: l2 → sl_ht blkof (U ∪ V) x = sl_ht blkof U x) as Hht.
  { intros. by eapply sl_ht_weaken. }
  destruct (sl_unlink_spec blkof f (U ∪ V) hd tl lev l1 l2 q HrepW upd)
    as (m' & Hun & Hown1 & Hrep1 & Hframe); [|done|].
  { intros j Hj. rewrite Hupd by done. f_equal. f_equal. symmetry. apply lvl_ext.
    intros x Hx. apply Hht. set_solver. }
  assert (q ∈ hd :: l1 ++ q :: l2) as Hq by set_solver.
  pose proof (sl_U _ _ _ _ _ _ _ Hrep q Hq) as HUq.
  pose proof (sl_blkof _ _ _ _ _ _ _ Hrep q Hq) as Hbq.
  set (b := sl_blk blkof q) in *. rewrite Hht in Hun by done.
  assert ((U ∪ V) !! b = Some (sl_ht blkof U q + 1)) as HWq by by eapply lookup_weaken.
  destruct (fb_rel_spec (fb_set_fblks f m') (U ∪ V) Hown1 b _ HWq)
    as (f' & Hrel & Hown2 & Hm2 & _ & Hfr2).
  assert (V !! b = None) as HVb by (eapply map_disjoint_Some_l; [exact HUV|exact HUq]).
  rewrite delete_union, (delete_id V) in Hown2 by done.
  exists m', (sl_ht blkof U q + 1), b, f'. split_and!; [done..| | |done|].
  - by apply map_disjoint_delete_l.
  - eapply (sl_rep_ext _ blkof _ f' (U ∪ V)); [exact Hrep1|done|done|].
    intros x bx s Hx Hbx Hs.
    assert (x ∈ hd :: l1 ++ q :: l2) as Hx' by set_solver.
    assert (bx ≠ b) as Hne.
    { intros ->. destruct (unlink_q blkof f U hd tl lev l1 l2 q Hrep) as (_ & _ & Hq1 & Hq2 & Hq3).
      assert (x = q) as ->; [|set_solver].
      by eapply (sr_inj _ _ _ _ _ _ _ Hrep). }
    destruct (sl_block _ _ _ _ _ _ _ x bx Hrep Hx' Hbx) as [s' Hs'].
    assert (s' = s) as ->.
    { rewrite (lookup_union_Some_l _ _ _ _ Hs') in Hs. congruence. }
    split; [by rewrite lookup_delete_ne|]. intros c Hc. apply Hfr2. intros ->.
    destruct (fb_own_disj _ _ Hown _ _ _ _ Hne Hs HWq); [lia|].
    pose proof (fb_own_blk _ _ Hown b _ HWq). lia.
  - intros b' s c Hb' Hc. rewrite Hfr2.
    + eapply Hframe; [by apply lookup_union_Some_r|done|].
      intros x Hx Hbx. assert (x ∈ hd :: l1 ++ q :: l2) as Hx' by set_solver.
      destruct (sl_block _ _ _ _ _ _ _ x b' Hrep Hx' Hbx) as [s' Hs'].
      by apply (map_disjoint_spec U V) with (i := b') (x := s') (y := s) in HUV.
    + intros ->. assert (b' ≠ b) as Hne by congruence.
      assert ((U ∪ V) !! b' = Some s) as Hb'' by by apply lookup_union_Some_r.
      destruct (fb_own_disj _ _ Hown _ _ _ _ Hne Hb'' HWq); [lia|].
      pose proof (fb_own_blk _ _ Hown b _ HWq). lia.
Qed.
End delete.

(** ** The empty list *)

Lemma fill_block_spec n f U b s i v :
  fb_own f U → U !! b = Some s → 0 ≤ i → i + Z.of_nat n ≤ s →
  ∃ m, fill_block n (fb_fblks f) b i v = Ok m ∧ fb_own (fb_set_fblks f m) U ∧
    (∀ j, i ≤ j < i + Z.of_nat n → m !! (b + j) = Some v) ∧
    (∀ c, ¬ (b + i ≤ c < b + i + Z.of_nat n) → m !! c = fb_fblks f !! c).
Proof.
  revert f i. induction n as [|n IH]; intros f i Hown Hb Hi Hn.
  { exists (fb_fblks f). split_and!; [done| |intros; lia|done]. by destruct f. }
  cbn [fill_block]. rewrite wr_Ok, bind_Ok by (eapply fb_own_cell; [done..|lia]).
  destruct (IH (fb_set_fblks f (<[b + i := v]> (fb_fblks f))) (i + 1)) as (m & Hm & Hown' & Hin & Hout);
    [apply (fb_own_write _ _ Hown b s); [done|lia]|done|lia..|].
  exists m. split_and!; [done..| |].
  - intros j Hj. destruct (decide (j = i)) as [->|]; [|apply Hin; lia].
    rewrite Hout by lia. apply lookup_insert_eq.
  - intros c Hc. rewrite Hout by lia. apply lookup_insert_ne. lia.
Qed.

Lemma sl_rep_empty blkof f U hd tl b :
  hd ≠ tl → 1 ≤ fb_maxsize f → blkof hd = Ok b → U !! b = Some (fb_maxsize f) →
  (∀ k, 0 ≤ k < fb_maxsize f → fb_fblks f !! (b + k) = Some tl) →
  sl_rep blkof f U hd tl 0 [].
Proof.
  intros Hne Hm Hb HU Hc. split; [lia| |eauto| | |].
  - apply NoDup_cons. split; [|apply NoDup_singleton]. by rewrite list_elem_of_singleton.
  - by intros n ?%elem_of_nil.
  - intros ? ? ? ->%list_elem_of_singleton ->%list_elem_of_singleton. done.
  - intros k Hk. simpl. unfold sl_blk. rewrite Hb. auto.
Qed.

(** ** Ordered nodes *)

Section ordered.
Context {K : Type} (ltb : K → K → bool) `{!KeyOrder ltb} (key : Z → K).

Definition node_lt (a b : Z) : Prop := ltb (key a) (key b) = true.
Definition below (v : K) (ns : list Z) : list Z := filter (λ n, ltb (key n) v = true) ns.
Definition above (v : K) (ns : list Z) : list Z := filter (λ n, ltb (key n) v = false) ns.

Lemma elem_of_below v ns n : n ∈ below v ns ↔ ltb (key n) v = true ∧ n ∈ ns.
Proof. unfold below. by rewrite list_elem_of_filter. Qed.

Lemma elem_of_above v ns n : n ∈ above v ns ↔ ltb (key n) v = false ∧ n ∈ ns.
Proof. unfold above. by rewrite list_elem_of_filter. Qed.

Lemma sorted_app l1 l2 :
  StronglySorted node_lt (l1 ++ l2) ↔
  StronglySorted node_lt l1 ∧ StronglySorted node_lt l2 ∧
  ∀ a b, a ∈ l1 → b ∈ l2 → node_lt a b.
Proof.
  induction l1 as [|x l1 IH]; simpl.
  - split; [intros; split_and!; [constructor|done|by intros ?? ?%elem_of_nil]|naive_solver].
  - split.
    + intros [Hs Hf]%StronglySorted_inv. apply IH in Hs as (? & ? & H).
      rewrite Forall_app in Hf. destruct Hf as [? Hf]. rewrite Forall_forall in Hf.
      split_and!; [by constructor|done|]. intros a b [->|?]%elem_of_cons ?; auto.
    + intros ([Hs Hf]%StronglySorted_inv & ? & H). constructor.
      * apply IH. split_and!; [done..|]. intros. apply H; [by constructor|done].
      * apply Forall_app. split; [done|]. apply Forall_forall. intros. apply H; [constructor|done].
Qed.

Lemma sorted_split v ns : StronglySorted node_lt ns → ns = below v ns ++ above v ns.
Proof.
  induction ns as [|n ns IH]; intros Hs; [done|].
  apply StronglySorted_inv in Hs as [Hs Hf]. specialize (IH Hs).
  unfold below, above. destruct (ltb (key n) v) eqn:Hn.
  - rewrite filter_cons_True, filter_cons_False by congruence. simpl. by f_equal.
  - rewrite filter_cons_False, filter_cons_True by congruence.
    assert (below v ns = []) as Hb.
    { destruct (below v ns) as [|x l] eqn:Hb; [done|].
      assert (x ∈ below v ns) as [Hx Hin]%elem_of_below by (rewrite Hb; constructor).
      rewrite Forall_forall in Hf. specialize (Hf x Hin).
      pose proof (ltb_trans _ _ _ Hf Hx). congruence. }
    unfold below in Hb. rewrite Hb. simpl. f_equal. rewrite IH at 1. unfold below. by rewrite Hb.
Qed.

(** The key of a member splits the list in front of it. *)
Lemma sorted_at l1 q l2 :
  StronglySorted node_lt (l1 ++ q :: l2) →
  (∀ n, n ∈ l1 → ltb (key n) (key q) = true) ∧ (∀ n, n ∈ q :: l2 → ltb (key n) (key q) = false).
Proof.
  intros (H1 & [_ Hf]%StronglySorted_inv & H)%sorted_app. split.
  - intros n Hn. apply H; [done|constructor].
  - intros n [->|Hn]%elem_of_cons; [apply ltb_irrefl|]. rewrite Forall_forall in Hf.
    apply ltb_asym; [done|]. by apply Hf.
Qed.

Lemma sorted_delete l1 q l2 :
  StronglySorted node_lt (l1 ++ q :: l2) → StronglySorted node_lt (l1 ++ l2).
Proof.
  intros (H1 & [H2 _]%StronglySorted_inv & H)%sorted_app. apply sorted_app.
  split_and!; [done..|]. intros a b ??. apply H; [done|by constructor].
Qed.

Lemma sorted_insert l1 n l2 :
  StronglySorted node_lt (l1 ++ l2) → (∀ a, a ∈ l1 → node_lt a n) → (∀ b, b ∈ l2 → node_lt n b) →
  StronglySorted node_lt (l1 ++ n :: l2).
Proof.
  intros (H1 & H2 & H)%sorted_app Ha Hb. apply sorted_app. split_and!; [done| |].
  - constructor; [done|]. by apply Forall_forall.
  - intros a b Hain [->|Hbin]%elem_of_cons; auto.
Qed.
End ordered.

Lemma sorted_ext {K} (ltb : K → K → bool) (key key' : Z → K) ns :
  (∀ n, n ∈ ns → key' n = key n) →
  StronglySorted (node_lt ltb key) ns → StronglySorted (node_lt ltb key') ns.
Proof.
  intros Hext. induction 1 as [|n ns Hs IH Hf]; [constructor|]. constructor.
  - apply IH. intros. apply Hext. by constructor.
  - rewrite Forall_forall in *. intros x Hx. unfold node_lt.
    rewrite !Hext by (by constructor). by apply Hf.
Qed.
