(* ===== verification/TimeQueue.v ===== *)
(** * The time-queue (layer "tqueue" of src/pq/pq.c)

    The index of the product-queue by insertion-time: a skip list of
    [tqelem]s, whose keys must be unique.  Elements are named by their index in
    [tqep]; indexes 0 and 1 are the tail [TQ_NIL] and the head [TQ_HEAD].
    Elements that are not in use are on a list threaded through [offset].

    [tq_inv] is the representation invariant.  [tq_view] is the abstract
    contents: insertion-times and region offsets in order of time.  The
    theorems say that [tq_add()], [tqe_find()], [tqe_first()], [tq_next()] and
    [tq_delete()] implement the operations of a strictly ordered list of
    (time, offset) pairs. *)

From S2P Require Import Prelude Timestamp Fb SkipList.

Definition TQ_NONE : Z := OFF_NONE.
Definition TQ_OVERHEAD_ELEMS : Z := 2.
Definition TQ_NIL : Z := 0.
Definition TQ_HEAD : Z := 1.

Record tqelem := Tqelem { te_tv : timestampt; te_offset : Z; te_fblk : Z }.

(** [fbp_off], the distance to the [fb] structure, is replaced by passing the
    structure along. *)
Record tqueue := Tqueue {
  tq_nalloc : Z;
  tq_nelems : Z;
  tq_nfree : Z;
  tq_free : Z;
  tq_level : Z;
  tq_tqep : gmap Z tqelem;
}.

Definition tq_set_tqep (tq : tqueue) (a : gmap Z tqelem) : tqueue :=
  Tqueue (tq_nalloc tq) (tq_nelems tq) (tq_nfree tq) (tq_free tq) (tq_level tq) a.
Definition tq_set_level (tq : tqueue) (l : Z) : tqueue :=
  Tqueue (tq_nalloc tq) (tq_nelems tq) (tq_nfree tq) (tq_free tq) l (tq_tqep tq).

(** The forward block of element [p]. *)
Definition tq_blkof (a : gmap Z tqelem) (p : Z) : res Z :=
  let! e := rd a p in Ok (te_fblk e).

(** Bound on the steps of a walk along one level. *)
Definition tq_fuel (tq : tqueue) : nat := S (Z.to_nat (tq_nalloc tq)).

Definition tq_init (nalloc0 : Z) (f : fb) : res (tqueue * fb) :=
  assert! fb_magic f =? FB_MAGIC in
  let! '(bnil, f) := fb_get f 0 in
  let maxlevel := fb_maxsize f - 1 in
  let! '(bhead, f) := fb_get f maxlevel in
  let! m := fill_block (Z.to_nat (fb_maxsize f)) (fb_fblks f) bhead 0 TQ_NIL in
  let last := nalloc0 + 2 - 1 in
  let elem i :=
    if i =? TQ_NIL then Tqelem TS_ENDT OFF_NONE bnil
    else if i =? TQ_HEAD then Tqelem TS_NONE OFF_NONE bhead
    else Tqelem TS_NONE (if i =? last then TQ_NONE else i + 1) FBLK_NONE in
  Ok (Tqueue nalloc0 TQ_OVERHEAD_ELEMS nalloc0 TQ_OVERHEAD_ELEMS 0
        (arr_tabulate (nalloc0 + TQ_OVERHEAD_ELEMS) elem),
      fb_set_fblks f m).

Definition tq_HasSpace (tq : tqueue) : res bool :=
  assert! u64 (tq_nelems tq - TQ_OVERHEAD_ELEMS) <=? tq_nalloc tq in
  Ok (u64 (tq_nelems tq - TQ_OVERHEAD_ELEMS) <? tq_nalloc tq).

Definition tq_get_tqelem (tq : tqueue) : res (Z * tqueue) :=
  if 0 <? tq_nfree tq then
    let result := tq_free tq in
    let! e := rd (tq_tqep tq) result in
    assert! (TQ_HEAD <? result) && negb (result =? TQ_NONE) in
    Ok (result, Tqueue (tq_nalloc tq) (u64 (tq_nelems tq + 1)) (u64 (tq_nfree tq - 1))
                       (te_offset e) (tq_level tq) (tq_tqep tq))
  else Ok (TQ_NONE, tq).

Definition tq_rel_tqelem (tq : tqueue) (f : fb) (level p : Z) : res (tqueue * fb) :=
  let! e := rd (tq_tqep tq) p in
  assert! fb_magic f =? FB_MAGIC in
  assert! (TQ_HEAD <? p) && (p <? tq_nalloc tq + TQ_OVERHEAD_ELEMS) in
  let! f := fb_rel f (level + 1) (te_fblk e) in
  let! a := wr (tq_tqep tq) p (Tqelem TS_NONE (tq_free tq) FBLK_NONE) in
  Ok (Tqueue (tq_nalloc tq) (u64 (tq_nelems tq - 1)) (u64 (tq_nfree tq + 1)) p
             (tq_level tq) a, f).

(** [tqp->tv < tv] *)
Definition tq_before (a : gmap Z tqelem) (tv : timestampt) (q : Z) : res bool :=
  let! e := rd a q in Ok (TV_CMP_LT (te_tv e) tv).

(** The search loop of [tq_add()] from level [k] of element [tpp]; an element
    with the same time makes it increment the time of the new element and start
    again. *)
Fixpoint tq_add_loop (fuel : nat) (tq : tqueue) (m : gmap Z Z) (k tpp : Z) (upd : gmap Z Z)
    (tv : timestampt) : res (gmap Z Z * timestampt) :=
  match fuel with
  | O => Err OutOfFuel
  | S fuel =>
      let! '(tpp, tqp) := sl_scan (tq_blkof (tq_tqep tq)) (tq_fuel tq)
                            (tq_before (tq_tqep tq) tv) m k tpp in
      let! e := rd (tq_tqep tq) tqp in
      if negb (TV_CMP_EQ (te_tv e) tv) then
        let upd := <[k := tpp]> upd in
        if 0 <=? k - 1 then tq_add_loop fuel tq m (k - 1) tpp upd tv else Ok (upd, tv)
      else
        let tv := timestamp_incr tv in
        if k <? tq_level tq then
          let! tpp := rd upd (tq_level tq) in
          tq_add_loop fuel tq m (tq_level tq) tpp upd tv
        else tq_add_loop fuel tq m k tpp upd tv
  end.

(** Each of the at most [nalloc] restarts descends at most [MAXLEVELS] levels. *)
Definition tq_add_fuel (tq : tqueue) : nat :=
  (Z.to_nat MAXLEVELS * S (Z.to_nat (tq_nalloc tq)))%nat.

(** [for (int i = tq->level + 1; i <= k; i++) update[i] = TQE_PTR(TQ_HEAD);] *)
Definition upd_raise (level k : Z) (upd : gmap Z Z) : gmap Z Z :=
  foldr (λ i upd, <[i := TQ_HEAD]> upd) upd (seqZ (level + 1) (k - level)).

Definition ENOSPC : Z := 28.

(** [clk] is the outcome of [set_timestamp()]: an error or the current time. *)
Definition tq_add (tq : tqueue) (f : fb) (g : rng) (clk : Z + timestampt) (offset : Z) :
    res (Z * tqueue * fb * rng) :=
  assert! fb_magic f =? FB_MAGIC in
  assert! negb (tq_nalloc tq =? 0) in
  let! b := tq_HasSpace tq in
  assert! b in
  let! '(tpix, tq) := tq_get_tqelem tq in
  assert! negb (tpix =? TQ_NONE) in
  match clk with
  | inl status => Ok (status, tq, f, g)
  | inr now =>
      let! '(upd, tv) := tq_add_loop (tq_add_fuel tq) tq (fb_fblks f) (tq_level tq)
                           TQ_HEAD ∅ now in
      let! e := rd (tq_tqep tq) tpix in
      let '(k, g) := fb_ranlev f g in
      let k := if tq_level tq <? k then tq_level tq + 1 else k in
      let! '(fblk, f) := fb_get f k in
      if fblk =? FBLK_NONE then
        let! a := wr (tq_tqep tq) tpix (Tqelem tv (te_offset e) (te_fblk e)) in
        Ok (ENOSPC, tq_set_tqep tq a, f, g)
      else
        let! a := wr (tq_tqep tq) tpix (Tqelem tv offset fblk) in
        let upd := if tq_level tq <? k then upd_raise (tq_level tq) k upd else upd in
        let level := if tq_level tq <? k then k else tq_level tq in
        let! m := sl_link (tq_blkof a) (Z.to_nat k) (fb_fblks f) upd tpix in
        Ok (0, tq_set_level (tq_set_tqep tq a) level, fb_set_fblks f m, g)
  end.

Inductive pq_match := TV_LT | TV_EQ | TV_GT.

(** An element is returned by its index; [None] is the null pointer. *)
Definition tqe_find (tq : tqueue) (f : fb) (key : timestampt) (mt : pq_match) :
    res (option Z) :=
  if u64 (tq_nelems tq - TQ_OVERHEAD_ELEMS) =? 0 then Ok None
  else
    assert! fb_magic f =? FB_MAGIC in
    let! '(_, p, q) := sl_search (tq_blkof (tq_tqep tq)) (tq_fuel tq)
                         (tq_before (tq_tqep tq) key) (fb_fblks f)
                         (Z.to_nat (tq_level tq)) TQ_HEAD ∅ in
    let! e := rd (tq_tqep tq) q in
    match mt with
    | TV_LT => Ok (if p =? TQ_HEAD then None else Some p)
    | TV_EQ => Ok (if TV_CMP_EQ (te_tv e) key then Some q else None)
    | TV_GT =>
        if q =? TQ_NIL then Ok None
        else if TV_CMP_EQ (te_tv e) key then
          let! q := rd (fb_fblks f) (te_fblk e) in
          Ok (if q =? TQ_NIL then None else Some q)
        else Ok (Some q)
    end.

Definition tqe_first (tq : tqueue) (f : fb) : res (option Z) :=
  assert! fb_magic f =? FB_MAGIC in
  let! q := sl_fwd (tq_blkof (tq_tqep tq)) (fb_fblks f) TQ_HEAD 0 in
  if q =? TQ_NIL then Ok None else Ok (Some q).

Definition tq_next (tq : tqueue) (f : fb) (p : Z) : res Z :=
  assert! fb_magic f =? FB_MAGIC in
  sl_fwd (tq_blkof (tq_tqep tq)) (fb_fblks f) p 0.

(** [(q == TQ_NIL) || (TQ_HEAD < q && q < tq->nalloc + TQ_OVERHEAD_ELEMS)] *)
Definition tq_index_ok (tq : tqueue) (q : Z) : bool :=
  (q =? TQ_NIL) || ((TQ_HEAD <? q) && (q <? tq_nalloc tq + TQ_OVERHEAD_ELEMS)).

(** The loop test of [tq_delete()], with the assertion that precedes it. *)
Definition tq_del_before (tq : tqueue) (key : tqelem) (q : Z) : res bool :=
  let! e := rd (tq_tqep tq) q in
  assert! tq_index_ok tq q in
  Ok (TV_CMP_LT (te_tv e) (te_tv key)
      || (TV_CMP_EQ (te_tv e) (te_tv key) && (te_offset e <? te_offset key))).

Definition tq_delete (tq : tqueue) (f : fb) (tqep : Z) : res (tqueue * fb) :=
  let! key := rd (tq_tqep tq) tqep in
  assert! fb_magic f =? FB_MAGIC in
  let lev := tq_level tq in
  let! '(upd, _, q) := sl_search (tq_blkof (tq_tqep tq)) (tq_fuel tq) (tq_del_before tq key)
                         (fb_fblks f) (Z.to_nat lev) TQ_HEAD ∅ in
  assert! tq_index_ok tq q in
  let! e := rd (tq_tqep tq) q in
  if TV_CMP_EQ (te_tv e) (te_tv key) && (te_offset e =? te_offset key) then
    let! '(m, k) := sl_unlink (tq_blkof (tq_tqep tq)) (Z.to_nat (lev + 1)) 0 (fb_fblks f) upd q in
    let! '(tq, f) := tq_rel_tqelem tq (fb_set_fblks f m) (k - 1) q in
    let! lev := sl_shrink (tq_blkof (tq_tqep tq)) (Z.to_nat lev) (fb_fblks f) TQ_HEAD TQ_NIL in
    Ok (tq_set_level tq lev, f)
  else Ok (tq, f).

(** ** Representation invariant *)

Definition tq_key (a : gmap Z tqelem) (n : Z) : timestampt := default TS_NONE (te_tv <$> a !! n).
Definition tq_off (a : gmap Z tqelem) (n : Z) : Z := default OFF_NONE (te_offset <$> a !! n).

(** The abstract contents: (insertion-time, offset) pairs, oldest first. *)
Definition tq_view (tq : tqueue) (ns : list Z) : list (timestampt * Z) :=
  (λ n, (tq_key (tq_tqep tq) n, tq_off (tq_tqep tq) n)) <$> ns.

(** [ns] are the elements in the queue, [fl] the free ones and [lk] those that
    failed insertions have lost; [U] has the blocks of the queue. *)
Record tq_inv (tq : tqueue) (f : fb) (U : gmap Z Z) (ns fl lk : list Z) : Prop := {
  ti_nalloc : 0 < tq_nalloc tq < 2 ^ 32;
  ti_rep : sl_rep (tq_blkof (tq_tqep tq)) f U TQ_HEAD TQ_NIL (tq_level tq) ns;
  ti_perm : fl ++ ns ++ lk ≡ₚ seqZ 2 (tq_nalloc tq);
  ti_dom i : 0 ≤ i < tq_nalloc tq + 2 → is_Some (tq_tqep tq !! i);
  ti_nfree : tq_nfree tq = Z.of_nat (length fl);
  ti_nelems : tq_nelems tq = 2 + Z.of_nat (length ns + length lk);
  ti_free : linked (λ i, te_offset <$> tq_tqep tq !! i) TQ_NONE (tq_free tq) fl;
  ti_nil : ∃ e, tq_tqep tq !! TQ_NIL = Some e ∧ te_tv e = TS_ENDT ∧ te_offset e = OFF_NONE;
  ti_sorted : StronglySorted (node_lt TV_CMP_LT (tq_key (tq_tqep tq))) ns;
  ti_valid n : n ∈ ns →
    ts_valid (tq_key (tq_tqep tq) n) ∧ TV_CMP_LT (tq_key (tq_tqep tq) n) TS_ENDT = true;
}.

Lemma tq_key_at a n e : a !! n = Some e → tq_key a n = te_tv e.
Proof. unfold tq_key. by intros ->. Qed.

Lemma tq_off_at a n e : a !! n = Some e → tq_off a n = te_offset e.
Proof. unfold tq_off. by intros ->. Qed.

Section queue.
Context (tq : tqueue) (f : fb) (U : gmap Z Z) (ns fl lk : list Z).
Context (Hinv : tq_inv tq f U ns fl lk).
Abbreviation key := (tq_key (tq_tqep tq)).
Abbreviation blkof := (tq_blkof (tq_tqep tq)).
Abbreviation ht := (sl_ht blkof U).

Lemma tq_counts :
  Z.of_nat (length fl) + Z.of_nat (length ns) + Z.of_nat (length lk) = tq_nalloc tq.
Proof.
  pose proof (ti_perm _ _ _ _ _ _ Hinv) as Hp. apply Permutation_length in Hp.
  rewrite !length_app, length_seqZ in Hp. pose proof (ti_nalloc _ _ _ _ _ _ Hinv). lia.
Qed.

Lemma tq_index i : i ∈ fl ++ ns ++ lk → 2 ≤ i < tq_nalloc tq + 2.
Proof. rewrite (ti_perm _ _ _ _ _ _ Hinv), elem_of_seqZ. lia. Qed.

Lemma tq_NoDup : NoDup (fl ++ ns ++ lk).
Proof. rewrite (ti_perm _ _ _ _ _ _ Hinv). apply NoDup_seqZ. Qed.

Lemma tq_node n : n ∈ ns → ∃ e, tq_tqep tq !! n = Some e ∧ te_tv e = key n.
Proof.
  intros Hn. assert (n ∈ fl ++ ns ++ lk) as Hi%tq_index by set_solver.
  destruct (ti_dom _ _ _ _ _ _ Hinv n) as [e He]; [lia|]. exists e. split; [done|].
  unfold tq_key. by rewrite He.
Qed.

Lemma tq_length_fuel : (length ns < tq_fuel tq)%nat.
Proof. unfold tq_fuel. pose proof tq_counts. lia. Qed.

Lemma tq_before_node tv n : n ∈ ns → tq_before (tq_tqep tq) tv n = Ok (TV_CMP_LT (key n) tv).
Proof.
  intros (e & He & Hk)%tq_node. unfold tq_before. by rewrite (rd_Ok _ _ _ He), bind_Ok, Hk.
Qed.

Lemma tq_before_nil tv :
  TV_CMP_LT TS_ENDT tv = false → tq_before (tq_tqep tq) tv TQ_NIL = Ok false.
Proof.
  intros Htv. destruct (ti_nil _ _ _ _ _ _ Hinv) as (e & He & Hk & _).
  unfold tq_before. by rewrite (rd_Ok _ _ _ He), bind_Ok, Hk, Htv.
Qed.

Abbreviation lo tv := (below TV_CMP_LT key tv ns).
Abbreviation hi tv := (above TV_CMP_LT key tv ns).

Lemma tq_split tv : ns = lo tv ++ hi tv.
Proof. apply sorted_split; [apply _|]. apply (ti_sorted _ _ _ _ _ _ Hinv). Qed.

Lemma tq_rep_split tv : sl_rep blkof f U TQ_HEAD TQ_NIL (tq_level tq) (lo tv ++ hi tv).
Proof. rewrite <- tq_split. apply (ti_rep _ _ _ _ _ _ Hinv). Qed.

(** Raising the time extends the part below it. *)
Lemma tq_lo_incr tv tv' :
  TV_CMP_LT tv tv' = true → lo tv' = lo tv ++ below TV_CMP_LT key tv' (hi tv).
Proof.
  intros Hlt. rewrite (tq_split tv) at 1. unfold below at 1. rewrite filter_app. f_equal.
  apply filter_all. intros n [Hn _]%elem_of_below. by eapply ltb_trans.
Qed.

Lemma tq_scan_spec k tv A B :
  0 ≤ k < fb_maxsize f → TV_CMP_LT TS_ENDT tv = false → lvl ht k (lo tv) = A ++ B →
  sl_scan blkof (tq_fuel tq) (tq_before (tq_tqep tq) tv) (fb_fblks f) k (last_or TQ_HEAD A) =
    Ok (last_or TQ_HEAD (lvl ht k (lo tv)), head_or TQ_NIL (lvl ht k (hi tv))).
Proof.
  intros Hk Htv HAB. pose proof tq_length_fuel as Hf.
  eapply (sl_scan_spec blkof f U TQ_HEAD TQ_NIL (tq_level tq) (lo tv) (hi tv)
    (tq_rep_split tv)).
  - intros n [Hn ?]%elem_of_below. by rewrite tq_before_node, Hn.
  - intros n [Hn ?]%elem_of_above. by rewrite tq_before_node, Hn.
  - by apply tq_before_nil.
  - done.
  - done.
  - apply (f_equal length) in HAB. rewrite length_app in HAB.
    pose proof (length_filter (λ n, k ≤ ht n) (lo tv)) as H1. unfold lvl in HAB.
    pose proof (length_filter (λ n, TV_CMP_LT (key n) tv = true) ns) as H2.
    unfold below in *. lia.
Qed.

Lemma tq_search_spec tv upd :
  TV_CMP_LT TS_ENDT tv = false →
  ∃ upd', sl_search blkof (tq_fuel tq) (tq_before (tq_tqep tq) tv) (fb_fblks f)
            (Z.to_nat (tq_level tq)) TQ_HEAD upd =
          Ok (upd', last_or TQ_HEAD (lo tv), head_or TQ_NIL (hi tv)).
Proof.
  intros Htv. pose proof tq_length_fuel as Hf. rewrite (tq_split tv) in Hf.
  edestruct (sl_search_spec blkof f U TQ_HEAD TQ_NIL (tq_level tq) (lo tv) (hi tv)
    (tq_rep_split tv) (tq_before (tq_tqep tq) tv) (tq_fuel tq)) as (upd' & Hs & _).
  - intros n [Hn ?]%elem_of_below. by rewrite tq_before_node, Hn.
  - intros n [Hn ?]%elem_of_above. by rewrite tq_before_node, Hn.
  - by apply tq_before_nil.
  - done.
  - by exists upd'.
Qed.

(** *** The search of [tq_add()] *)

(** The predecessors of a new element of time [tv] on the levels above [k]. *)
Definition tq_preds (k : Z) (tv : timestampt) (upd : gmap Z Z) : Prop :=
  ∀ j, k < j ≤ tq_level tq → upd !! j = Some (last_or TQ_HEAD (lvl ht j (lo tv))).

(** [tv'] is the least time from [tv] on that no element has. *)
Definition tq_least_free (tv tv' : timestampt) : Prop :=
  ts_valid tv' ∧ us tv ≤ us tv' ∧ (∀ n, n ∈ ns → key n ≠ tv') ∧
  (∀ t, ts_valid t → us tv ≤ us t < us tv' → ∃ n, n ∈ ns ∧ key n = t).

(** The element that a level-[k] scan stops at. *)
Lemma tq_stop k tv :
  us tv < us TS_ENDT → ts_valid tv →
  ∃ e, rd (tq_tqep tq) (head_or TQ_NIL (lvl ht k (hi tv))) = Ok e ∧
    (TV_CMP_EQ (te_tv e) tv = true →
     head_or TQ_NIL (lvl ht k (hi tv)) ∈ hi tv ∧
     key (head_or TQ_NIL (lvl ht k (hi tv))) = tv).
Proof.
  intros Hend Hv. unfold head_or. destruct (lvl ht k (hi tv)) as [|q l] eqn:Hl; simpl.
  - destruct (ti_nil _ _ _ _ _ _ Hinv) as (e & He & Hk & _). exists e.
    split; [by apply rd_Ok|]. rewrite Hk, TV_CMP_EQ_eq. intros <-. lia.
  - assert (q ∈ lvl ht k (hi tv)) as [_ Hq]%elem_of_lvl by (rewrite Hl; constructor).
    pose proof Hq as [_ Hin]%elem_of_above. destruct (tq_node q Hin) as (e & He & Hk).
    exists e. split; [by apply rd_Ok|]. rewrite Hk, TV_CMP_EQ_eq. done.
Qed.

(** If the first element that is not earlier has another time, all have. *)
Lemma tq_head_unique tv n :
  key (head_or TQ_NIL (hi tv)) ≠ tv → n ∈ ns → key n ≠ tv.
Proof.
  intros Hh Hn Hkey. pose proof (ti_sorted _ _ _ _ _ _ Hinv) as Hs.
  rewrite (tq_split tv) in Hs. apply sorted_app in Hs as (_ & Hs & _).
  assert (n ∈ hi tv) as Hin.
  { apply elem_of_above. split; [|done]. rewrite Hkey. apply ltb_irrefl. }
  destruct (hi tv) as [|q l] eqn:Hhi; [by apply elem_of_nil in Hin|].
  unfold head_or in Hh. simpl in Hh.
  apply elem_of_cons in Hin as [->|Hin]; [done|].
  apply StronglySorted_inv in Hs as [_ Hf]. rewrite Forall_forall in Hf.
  specialize (Hf n Hin). unfold node_lt in Hf. rewrite Hkey in Hf.
  assert (q ∈ hi tv) as [Hq _]%elem_of_above by (rewrite Hhi; constructor). congruence.
Qed.

(** An element with the time [tv] is passed when the time is incremented. *)
Lemma tq_hi_incr tv q :
  ts_valid tv → q ∈ hi tv → key q = tv →
  (length (hi (timestamp_incr tv)) < length (hi tv))%nat.
Proof.
  intros Hv [Hq Hin]%elem_of_above Hkey. pose proof (timestamp_incr_lt tv Hv) as Hlt.
  apply filter_length_lt with (q := q); [|done..|].
  - intros n _ Hn. destruct (TV_CMP_LT (key n) tv) eqn:Hc; [|done].
    pose proof (ltb_trans _ _ _ Hc Hlt). congruence.
  - rewrite Hkey. congruence.
Qed.

Lemma tq_add_loop_spec fuel : ∀ k A B upd tv,
  0 ≤ k ≤ tq_level tq → ts_valid tv → us tv + Z.of_nat (length (hi tv)) < us TS_ENDT →
  lvl ht k (lo tv) = A ++ B → tq_preds k tv upd →
  Z.of_nat (length (hi tv)) * (tq_level tq + 1) + k < Z.of_nat fuel →
  ∃ upd' tv', tq_add_loop fuel tq (fb_fblks f) k (last_or TQ_HEAD A) upd tv = Ok (upd', tv') ∧
    tq_preds (-1) tv' upd' ∧ us tv' < us TS_ENDT ∧ tq_least_free tv tv'.
Proof.
  pose proof (sr_lev _ _ _ _ _ _ _ (ti_rep _ _ _ _ _ _ Hinv)) as Hlev.
  induction fuel as [|fuel IH]; intros k A B upd tv Hk Hv Hend HAB Hupd Hfuel; [lia|].
  cbn [tq_add_loop]. rewrite (tq_scan_spec k tv A B), bind_Ok; [|lia| |done].
  2: { apply ltb_asym; [apply _|]. apply TV_CMP_LT_us; [done|by vm_compute|lia]. }
  destruct (tq_stop k tv) as (e & He & Heq); [lia|done|]. rewrite He, bind_Ok.
  destruct (TV_CMP_EQ (te_tv e) tv) eqn:Hc; simpl.
  - destruct (Heq eq_refl) as [Hq Hkey]. pose proof (tq_hi_incr tv _ Hv Hq Hkey) as Hlen.
    pose proof (timestamp_incr_lt tv Hv) as Hlt. pose proof (timestamp_incr_us tv) as Hus.
    assert (∃ upd' tv', tq_add_loop fuel tq (fb_fblks f) (tq_level tq)
        (last_or TQ_HEAD (lvl ht (tq_level tq) (lo tv))) upd (timestamp_incr tv)
        = Ok (upd', tv') ∧ tq_preds (-1) tv' upd' ∧ us tv' < us TS_ENDT ∧
        tq_least_free (timestamp_incr tv) tv') as (upd' & tv' & Hrun & Hp & He' & Hfree).
    { eapply IH; [lia|by apply timestamp_incr_valid|lia| |intros j Hj; lia|nia].
      rewrite (tq_lo_incr tv) by done. apply lvl_app. }
    exists upd', tv'. split_and!; [|done..|].
    + destruct (Z.ltb_spec k (tq_level tq)).
      * rewrite (rd_Ok _ _ _ (Hupd (tq_level tq) ltac:(lia))). done.
      * replace k with (tq_level tq) by lia. done.
    + destruct Hfree as (Hv' & Hle & Hne & Hall). split_and!; [done|lia|done|].
      intros t Ht Hr. destruct (decide (us t = us tv)) as [Hz|]; [|apply Hall; [done|lia]].
      apply us_inj in Hz as ->; [|done..]. apply elem_of_above in Hq as [_ Hq]. eauto.
  - assert (tq_preds (k - 1) tv (<[k := last_or TQ_HEAD (lvl ht k (lo tv))]> upd)) as Hupd'.
    { intros j Hj. rewrite lookup_insert. case_decide as Hd; [by subst|apply Hupd; lia]. }
    destruct (Z.leb_spec 0 (k - 1)).
    + destruct (sl_start blkof U TQ_HEAD (lo tv) (k - 1)) as (A' & B' & HA' & Hlast).
      replace (k - 1 + 1) with k in Hlast by lia. rewrite <- Hlast in Hupd' |- *.
      apply (IH _ A' B'); [lia|done|done|done|done|lia].
    + replace k with 0 in * by lia. eexists _, tv. split_and!; [done|done|lia|].
      split_and!; [done|lia| |intros; lia].
      intros n Hn. apply tq_head_unique; [|done]. intros Hkey.
      rewrite lvl_all in He.
      2: { intros x [_ Hx]%elem_of_above.
           by apply (sl_ht_node _ _ _ _ _ _ _ (ti_rep _ _ _ _ _ _ Hinv)). }
      apply rd_inv in He. rewrite (tq_key_at _ _ _ He) in Hkey.
      apply (TV_CMP_EQ_eq (te_tv e)) in Hkey. congruence.
Qed.

Lemma tq_add_search now :
  ts_valid now → us now + Z.of_nat (length ns) < us TS_ENDT → fb_maxsize f < MAXLEVELS →
  ∃ upd tv, tq_add_loop (tq_add_fuel tq) tq (fb_fblks f) (tq_level tq) TQ_HEAD ∅ now
      = Ok (upd, tv) ∧
    tq_preds (-1) tv upd ∧ us tv < us TS_ENDT ∧ tq_least_free now tv.
Proof.
  intros Hv Hend Hmax. pose proof tq_counts as Hc.
  pose proof (sr_lev _ _ _ _ _ _ _ (ti_rep _ _ _ _ _ _ Hinv)) as Hlev.
  pose proof (length_filter (λ n, TV_CMP_LT (key n) now = false) ns) as Hle.
  fold (hi now) in Hle.
  apply (tq_add_loop_spec _ _ [] (lvl ht (tq_level tq) (lo now)));
    [lia|done|lia|done|intros j Hj; lia|].
  unfold tq_add_fuel. nia.
Qed.
End queue.

(** ** The abstract queue

    A strictly ordered list of (insertion-time, offset) pairs. *)

Abbreviation absq := (list (timestampt * Z)).

Definition abs_before (tv : timestampt) (q : absq) : absq :=
  filter (λ p, TV_CMP_LT p.1 tv = true) q.
Definition abs_from (tv : timestampt) (q : absq) : absq :=
  filter (λ p, TV_CMP_LT p.1 tv = false) q.
Definition abs_after (tv : timestampt) (q : absq) : absq :=
  filter (λ p, TV_CMP_LT tv p.1 = true) q.

Definition abs_insert (tv : timestampt) (off : Z) (q : absq) : absq :=
  abs_before tv q ++ (tv, off) :: abs_from tv q.
Definition abs_delete (tv : timestampt) (q : absq) : absq := filter (λ p, p.1 ≠ tv) q.

(** [tv] is the least time from [now] on that is not taken. *)
Definition abs_least_free (now : timestampt) (q : absq) (tv : timestampt) : Prop :=
  ts_valid tv ∧ us now ≤ us tv ∧ (tv ∉ q.*1) ∧
  ∀ t, ts_valid t → us now ≤ us t < us tv → t ∈ q.*1.

Section views.
Context (tq : tqueue).
Abbreviation key := (tq_key (tq_tqep tq)).

Lemma tq_view_app l1 l2 : tq_view tq (l1 ++ l2) = tq_view tq l1 ++ tq_view tq l2.
Proof. apply fmap_app. Qed.

Lemma tq_view_keys ns : (tq_view tq ns).*1 = key <$> ns.
Proof. unfold tq_view. rewrite <- list_fmap_compose. done. Qed.

Lemma tq_view_before tv ns :
  abs_before tv (tq_view tq ns) = tq_view tq (below TV_CMP_LT key tv ns).
Proof. unfold abs_before, tq_view, below. by rewrite filter_fmap. Qed.

Lemma tq_view_from tv ns :
  abs_from tv (tq_view tq ns) = tq_view tq (above TV_CMP_LT key tv ns).
Proof. unfold abs_from, tq_view, above. by rewrite filter_fmap. Qed.

Lemma tq_view_ext tq' ns :
  (∀ n, n ∈ ns → tq_tqep tq' !! n = tq_tqep tq !! n) → tq_view tq' ns = tq_view tq ns.
Proof.
  intros Hn. apply list_fmap_ext. intros i n Hi%list_elem_of_lookup_2.
  unfold tq_key, tq_off. by rewrite Hn.
Qed.
End views.

Lemma tq_blkof_upd a n e x : x ≠ n → tq_blkof (<[n := e]> a) x = tq_blkof a x.
Proof. intros. unfold tq_blkof, rd. by rewrite lookup_insert_ne. Qed.

Lemma tq_key_upd a n e x : x ≠ n → tq_key (<[n := e]> a) x = tq_key a x.
Proof. intros. unfold tq_key. by rewrite lookup_insert_ne. Qed.

(** ** Preservation of the invariant *)

Section update.
Context (tq : tqueue) (f : fb) (U : gmap Z Z) (ns fl lk : list Z).
Context (Hinv : tq_inv tq f U ns fl lk).

Lemma tq_HasSpace_spec : tq_HasSpace tq = Ok (bool_decide (fl ≠ [])).
Proof.
  pose proof (tq_counts _ _ _ _ _ _ Hinv). destruct Hinv.
  unfold tq_HasSpace. rewrite ti_nelems0.
  replace (2 + Z.of_nat (length ns + length lk) - TQ_OVERHEAD_ELEMS)
    with (Z.of_nat (length ns + length lk)) by (unfold TQ_OVERHEAD_ELEMS; lia).
  rewrite u64_small by lia.
  rewrite assert_Ok by (apply Z.leb_le; lia). rewrite bind_Ok. f_equal.
  case_bool_decide as Hfl; [apply Z.ltb_lt|apply Z.ltb_ge].
  - assert (length fl ≠ 0%nat) by by rewrite length_zero_iff_nil. lia.
  - apply (f_equal length) in Hfl. simpl in Hfl. lia.
Qed.

(** The queue does not depend on blocks of others. *)
Lemma tq_inv_keeps f' :
  fb_maxsize f' = fb_maxsize f → keeps U f f' → tq_inv tq f' U ns fl lk.
Proof. intros Hm Hk. destruct Hinv. split; try done. by eapply sl_rep_keeps. Qed.

(** [tq_get_tqelem()] moves the first free element out of the free list. *)
Lemma tq_get_tqelem_spec n fl' :
  fl = n :: fl' →
  ∃ tq', tq_get_tqelem tq = Ok (n, tq') ∧ tq_inv tq' f U ns fl' (n :: lk) ∧
    tq_tqep tq' = tq_tqep tq ∧ tq_level tq' = tq_level tq ∧ tq_nalloc tq' = tq_nalloc tq.
Proof.
  intros Hfl. pose proof (tq_counts _ _ _ _ _ _ Hinv) as Hc.
  pose proof (tq_index _ _ _ _ _ _ Hinv n ltac:(rewrite Hfl; constructor)) as Hn.
  destruct Hinv. rewrite Hfl in *. simpl in Hc. destruct ti_free0 as (Hh & nx & Hnx & Hl).
  apply fmap_Some in Hnx as (e & He & ->).
  unfold tq_get_tqelem. rewrite (proj2 (Z.ltb_lt _ _)) by (rewrite ti_nfree0; simpl; lia).
  rewrite Hh, (rd_Ok _ _ _ He), bind_Ok, assert_Ok by (unfold TQ_HEAD, TQ_NONE, OFF_NONE; lia).
  rewrite bind_Ok. eexists. split; [done|]. split_and!; [|done..].
  split; simpl; try done.
  - rewrite <- ti_perm0. solve_Permutation.
  - rewrite ti_nfree0, u64_small; simpl; lia.
  - rewrite ti_nelems0, u64_small; simpl; lia.
Qed.

Lemma tq_not_in n : n ∈ lk → (n ∉ TQ_HEAD :: TQ_NIL :: ns) ∧ n ∉ fl.
Proof.
  intros Hn. pose proof (tq_index _ _ _ _ _ _ Hinv n ltac:(set_solver)) as Hi.
  pose proof (tq_NoDup _ _ _ _ _ _ Hinv) as Hnd.
  apply NoDup_app in Hnd as (_ & Hf & Hnd). apply NoDup_app in Hnd as (_ & Hns & _).
  unfold TQ_HEAD, TQ_NIL. split.
  - intros [?|[?|?]%elem_of_cons]%elem_of_cons; [lia..|]. by eapply Hns.
  - intros ?. eapply Hf; [done|]. set_solver.
Qed.

(** Writing an element that is neither queued nor free. *)
Lemma tq_inv_write n e :
  n ∈ lk → tq_inv (tq_set_tqep tq (<[n := e]> (tq_tqep tq))) f U ns fl lk.
Proof.
  intros Hn. destruct (tq_not_in n Hn) as [Hni Hnf].
  apply not_elem_of_cons in Hni as [Hh Hni]. apply not_elem_of_cons in Hni as [Hz Hni].
  destruct Hinv. split; simpl; try done.
  - eapply sl_rep_ext; [exact ti_rep0|done| |eauto].
    intros x Hx. apply tq_blkof_upd. intros ->. set_solver.
  - intros i Hi. rewrite lookup_insert. case_decide; [eauto|auto].
  - eapply linked_ext; [|exact ti_free0]. intros b Hb. simpl.
    rewrite lookup_insert_ne; [done|congruence].
  - by rewrite lookup_insert_ne by done.
  - eapply sorted_ext; [|exact ti_sorted0]. intros x Hx. apply tq_key_upd. congruence.
  - intros x Hx. rewrite tq_key_upd by congruence. auto.
Qed.
End update.

(** ** [tq_add()] *)

Lemma upd_raise_lookup level k upd j :
  upd_raise level k upd !! j =
    if decide (level < j ≤ k) then Some TQ_HEAD else upd !! j.
Proof.
  unfold upd_raise.
  assert (∀ l, foldr (λ i upd, <[i := TQ_HEAD]> upd) upd l !! j =
    if decide (j ∈ l) then Some TQ_HEAD else upd !! j) as Hf.
  { induction l as [|i l IH]; cbn [foldr].
    - by rewrite decide_False by apply not_elem_of_nil.
    - rewrite lookup_insert, IH. repeat case_decide; set_solver. }
  rewrite Hf. apply decide_ext. rewrite elem_of_seqZ. lia.
Qed.

Section add.
Context (tq : tqueue) (f : fb) (U V : gmap Z Z) (ns fl lk : list Z) (n : Z).
Context (Hinv : tq_inv tq f U ns fl (n :: lk)) (HUV : U ##ₘ V).
Context (tv : timestampt) (upd : gmap Z Z).
Context (Hv : ts_valid tv) (Hend : us tv < us TS_ENDT).
Context (Hfree : ∀ x, x ∈ ns → tq_key (tq_tqep tq) x ≠ tv).
Context (Hupd : tq_preds tq U ns (-1) tv upd).
Abbreviation l1 := (below TV_CMP_LT (tq_key (tq_tqep tq)) tv ns).
Abbreviation l2 := (above TV_CMP_LT (tq_key (tq_tqep tq)) tv ns).

(** Linking the new element, once it has its block. *)
Lemma tq_insert_spec k b f1 offset :
  0 ≤ k < fb_maxsize f → fb_got f (U ∪ V) (k + 1) b f1 →
  let a := <[n := Tqelem tv offset b]> (tq_tqep tq) in
  let upd' := if tq_level tq <? k then upd_raise (tq_level tq) k upd else upd in
  let level := if tq_level tq <? k then k else tq_level tq in
  ∃ m, sl_link (tq_blkof a) (Z.to_nat k) (fb_fblks f1) upd' n = Ok m ∧
    tq_inv (tq_set_level (tq_set_tqep tq a) level) (fb_set_fblks f1 m)
      (<[b := k + 1]> U) (l1 ++ n :: l2) fl lk ∧
    fb_own (fb_set_fblks f1 m) (<[b := k + 1]> U ∪ V) ∧ <[b := k + 1]> U ##ₘ V ∧
    fb_maxsize f1 = fb_maxsize f ∧ keeps V f (fb_set_fblks f1 m).
Proof.
  intros Hk Hgot a upd' level.
  destruct (tq_not_in _ _ _ _ _ _ Hinv n ltac:(constructor)) as [Hni Hnf].
  pose proof (tq_inv_write _ _ _ _ _ _ Hinv n (Tqelem tv offset b) ltac:(constructor)) as Hinv'.
  fold a in Hinv'.
  assert (is_Some (tq_tqep tq !! n)) as [e He].
  { apply (ti_dom _ _ _ _ _ _ Hinv).
    pose proof (tq_index _ _ _ _ _ _ Hinv n ltac:(set_solver)). lia. }
  assert (∀ x, x ∈ TQ_HEAD :: ns → tq_blkof a x = tq_blkof (tq_tqep tq) x) as Hold.
  { intros x Hx. apply tq_blkof_upd. intros ->. set_solver. }
  assert (level = Z.max (tq_level tq) k) as Hlevel by (unfold level; case_if Hc; lia).
  destruct (sl_insert_spec (tq_blkof (tq_tqep tq)) (tq_blkof a) f f1 U V TQ_HEAD TQ_NIL
    (tq_level tq) l1 l2 n b k upd') as (m & Hlink & Hown & Hdisj & Hrep & Hm & Hkeeps).
  - rewrite <- (tq_split _ _ _ _ _ _ Hinv tv). apply (ti_rep _ _ _ _ _ _ Hinv).
  - done.
  - done.
  - unfold tq_blkof, a. erewrite rd_Ok by apply lookup_insert_eq. done.
  - rewrite <- (tq_split _ _ _ _ _ _ Hinv tv). done.
  - rewrite <- (tq_split _ _ _ _ _ _ Hinv tv). done.
  - done.
  - intros j Hj. unfold upd'. destruct (Z.ltb_spec (tq_level tq) k); [|apply Hupd; lia].
    rewrite upd_raise_lookup. case_decide; [|apply Hupd; lia].
    rewrite lvl_nil; [done|]. intros x [_ Hx]%elem_of_below.
    pose proof (sl_ht_node _ _ _ _ _ _ _ (ti_rep _ _ _ _ _ _ Hinv) x Hx). lia.
  - exists m. split_and!; [done| |done..]. rewrite <- Hlevel in Hrep.
    assert (tq_key a n = tv) as Hkn by (by erewrite tq_key_at by apply lookup_insert_eq).
    assert (∀ x, x ∈ ns → tq_key a x = tq_key (tq_tqep tq) x) as Hkold.
    { intros x Hx. apply tq_key_upd. set_solver. }
    pose proof (tq_split _ _ _ _ _ _ Hinv tv) as Hns.
    destruct Hinv'. split; simpl in *; try done.
    + rewrite <- ti_perm0. rewrite Hns at 3. solve_Permutation.
    + rewrite ti_nelems0. apply (f_equal length) in Hns.
      rewrite !length_app in *. simpl. lia.
    + apply sorted_insert; [by rewrite <- Hns|..].
      * intros x [Hx Hin]%elem_of_below. unfold node_lt. rewrite Hkn, Hkold by done. done.
      * intros x [Hx Hin]%elem_of_above. unfold node_lt. rewrite Hkn, Hkold by done.
        destruct (TV_CMP_LT tv (tq_key (tq_tqep tq) x)) eqn:Hc; [done|].
        exfalso. apply (Hfree x Hin). by apply (ltb_total (ltb := TV_CMP_LT)).
    + intros x Hx. assert (x = n ∨ x ∈ ns) as [->|Hin].
      { rewrite Hns. set_solver. }
      * rewrite Hkn. split; [done|]. apply TV_CMP_LT_us; [done|by vm_compute|done].
      * auto.
Qed.
End add.

(** What a successful [tq_add()] at time [now] establishes. *)
Definition tq_added (V : gmap Z Z) (now : timestampt) (offset : Z) (tq : tqueue) (f : fb)
    (ns fl lk : list Z) (tq' : tqueue) (f' : fb) (U' : gmap Z Z) (tv : timestampt)
    (ns' : list Z) : Prop :=
  tq_inv tq' f' U' ns' (tail fl) lk ∧ fb_own f' (U' ∪ V) ∧ U' ##ₘ V ∧
  abs_least_free now (tq_view tq ns) tv ∧
  tq_view tq' ns' = abs_insert tv offset (tq_view tq ns).

Lemma tq_least_free_view tq ns now tv :
  tq_least_free tq ns now tv → abs_least_free now (tq_view tq ns) tv.
Proof.
  intros (Hv & Hle & Hne & Hall). unfold abs_least_free. rewrite tq_view_keys.
  split_and!; [done..| |].
  - intros (n & -> & Hn)%list_elem_of_fmap. by apply (Hne n).
  - intros t Ht Hr. apply list_elem_of_fmap. destruct (Hall t Ht Hr) as (n & Hn & Hk). eauto.
Qed.

Lemma tq_add_spec tq f U V ns fl lk g now offset :
  tq_inv tq f U ns fl lk → fb_own f (U ∪ V) → U ##ₘ V → fl ≠ [] →
  ts_valid now → us now + Z.of_nat (length ns) < us TS_ENDT →
  ∃ st tq' f' g', tq_add tq f g (inr now) offset = Ok (st, tq', f', g') ∧
    fb_maxsize f' = fb_maxsize f ∧ keeps V f f' ∧
    ((st = 0 ∧ ∃ U' tv ns', tq_added V now offset tq f ns fl lk tq' f' U' tv ns') ∨
     (st = ENOSPC ∧ fb_spare f = 0 ∧ f' = f ∧ tq_view tq' ns = tq_view tq ns ∧
      ∃ n, tq_inv tq' f U ns (tail fl) (n :: lk))).
Proof.
  intros Hinv Hown HUV Hfl Hv Hend. destruct fl as [|n fl]; [done|].
  destruct (tq_get_tqelem_spec _ _ _ _ _ _ Hinv n fl eq_refl)
    as (tq1 & Hget & Hinv1 & Htq & Hlv & Hna).
  pose proof (fb_own_max _ _ Hown) as Hmax. pose proof (ti_nalloc _ _ _ _ _ _ Hinv) as Hn.
  unfold tq_add. rewrite assert_Ok by by eapply fb_own_magic.
  rewrite bind_Ok, assert_Ok by lia. rewrite bind_Ok.
  rewrite (tq_HasSpace_spec _ _ _ _ _ _ Hinv), bind_Ok, assert_Ok by done.
  rewrite bind_Ok, Hget, bind_Ok.
  pose proof (tq_index _ _ _ _ _ _ Hinv n ltac:(constructor)) as Hi.
  rewrite assert_Ok by (unfold TQ_NONE, OFF_NONE; lia). rewrite bind_Ok.
  destruct (tq_add_search _ _ _ _ _ _ Hinv1 now) as (upd & tv & Hloop & Hp & He & Hleast);
    [done..|lia|].
  rewrite Hloop, bind_Ok.
  destruct (ti_dom _ _ _ _ _ _ Hinv n ltac:(lia)) as [e Hen]. rewrite <- Htq in Hen.
  rewrite (rd_Ok _ _ _ Hen), bind_Ok.
  destruct (fb_ranlev f g) as [k0 g'] eqn:Hlev.
  assert (0 ≤ k0 < fb_maxsize f) as Hk0.
  { replace k0 with (fb_ranlev f g).1 by by rewrite Hlev. apply fb_ranlev_range. lia. }
  pose proof (sr_lev _ _ _ _ _ _ _ (ti_rep _ _ _ _ _ _ Hinv1)) as Hl1.
  set (k := if tq_level tq1 <? k0 then tq_level tq1 + 1 else k0).
  assert (0 ≤ k < fb_maxsize f) as Hk by (unfold k; case_if Hc; lia).
  pose proof (tq_least_free_view _ _ _ _ Hleast) as Habs.
  assert (tq_view tq1 ns = tq_view tq ns) as Hview by (unfold tq_view; by rewrite Htq).
  destruct Hleast as (Htv & _ & Hne & _).
  destruct (tq_not_in _ _ _ _ _ _ Hinv1 n ltac:(constructor)) as [Hni _].
  destruct (fb_get_spec f (U ∪ V) Hown k Hk) as [(b & f1 & -> & Hb & Hgot)|[Hnone _]]; [rewrite bind_Ok|].
  - apply Z.eqb_neq in Hb. rewrite Hb, wr_Ok, bind_Ok by eauto.
    destruct (tq_insert_spec _ _ _ V _ _ _ n Hinv1 HUV tv upd Htv He Hne Hp k b f1 offset Hk Hgot)
      as (m & Hlink & Hinv2 & Hown2 & Hdisj & Hm & Hkeeps).
    rewrite Hlink, bind_Ok. eexists 0, _, _, _. split_and!; [done|done|done|left].
    split; [done|]. eexists _, tv, _. split_and!; [exact Hinv2|done|done| |].
    + by rewrite <- Hview.
    + rewrite <- Hview. unfold abs_insert. rewrite tq_view_before, tq_view_from, tq_view_app.
      f_equal; [|cbn [tq_view fmap list_fmap]; f_equal].
      * apply tq_view_ext. intros x [_ Hx]%elem_of_below. simpl.
        rewrite lookup_insert_ne; [done|set_solver].
      * simpl. erewrite tq_key_at, tq_off_at by apply lookup_insert_eq. done.
      * apply tq_view_ext. intros x [_ Hx]%elem_of_above. simpl.
        rewrite lookup_insert_ne; [done|set_solver].
  - assert (fb_spare f = 0) as Hsp0.
    { pose proof (fb_spare_nonneg _ _ Hown). destruct (decide (fb_spare f = 0)) as [|Hsp]; [done|].
      destruct (fb_get_spare f (U ∪ V) k Hown Hk ltac:(lia)) as (b & f1 & Hget1 & Hb & _). congruence. }
    rewrite Hnone, bind_Ok, Z.eqb_refl, wr_Ok, bind_Ok by eauto.
    eexists ENOSPC, _, f, g'. split_and!; [done..|right]. split_and!; [done..| |].
    + rewrite <- Hview. apply tq_view_ext. intros x Hx. simpl.
      rewrite lookup_insert_ne; [done|set_solver].
    + exists n. apply tq_inv_write; [done|constructor].
Qed.

(** ** Lookup *)

(** What an element holds: its time and the offset of its region. *)
Definition tq_entry (tq : tqueue) (n : Z) : timestampt * Z :=
  (tq_key (tq_tqep tq) n, tq_off (tq_tqep tq) n).

(** What [tqe_find()] promises, on the abstract queue. *)
Definition abs_find (key : timestampt) (mt : pq_match) (q : absq) : option (timestampt * Z) :=
  match mt with
  | TV_LT => last (abs_before key q)
  | TV_EQ => head (filter (λ p, p.1 = key) q)
  | TV_GT => head (abs_after key q)
  end.

Section lookup.
Context (tq : tqueue) (f : fb) (U V : gmap Z Z) (ns fl lk : list Z).
Context (Hinv : tq_inv tq f U ns fl lk) (Hown : fb_own f (U ∪ V)).
Abbreviation key := (tq_key (tq_tqep tq)).
Abbreviation lo tv := (below TV_CMP_LT key tv ns).
Abbreviation hi tv := (above TV_CMP_LT key tv ns).

Lemma tq_view_last l : last (tq_view tq l) = tq_entry tq <$> last l.
Proof. apply fmap_last. Qed.

Lemma tq_view_head l : head (tq_view tq l) = tq_entry tq <$> head l.
Proof. by destruct l. Qed.

Lemma tq_not_special n : n ∈ ns → n ≠ TQ_HEAD ∧ n ≠ TQ_NIL.
Proof.
  intros Hn. pose proof (tq_index _ _ _ _ _ _ Hinv n ltac:(set_solver)).
  unfold TQ_HEAD, TQ_NIL. lia.
Qed.

Lemma tq_last_index l :
  incl l ns → (if last_or TQ_HEAD l =? TQ_HEAD then None else Some (last_or TQ_HEAD l)) = last l.
Proof.
  intros Hl. destruct (last_or_split TQ_HEAD l) as [[-> ->]|[l' Hl']]; [done|].
  destruct (Z.eqb_spec (last_or TQ_HEAD l) TQ_HEAD) as [Heq|Hne].
  - exfalso. destruct (tq_not_special (last_or TQ_HEAD l)) as [? _]; [|done].
    apply list_elem_of_In, Hl. rewrite Hl' at 2. apply in_or_app. right. by left.
  - rewrite Hl' at 2. by rewrite last_snoc.
Qed.

Lemma tq_head_index l :
  incl l ns → (if head_or TQ_NIL l =? TQ_NIL then None else Some (head_or TQ_NIL l)) = head l.
Proof.
  intros Hl. destruct l as [|x l]; [done|]. unfold head_or. simpl.
  destruct (Z.eqb_spec x TQ_NIL) as [->|]; [|done].
  exfalso. destruct (tq_not_special TQ_NIL) as [_ ?]; [|done]. apply list_elem_of_In, Hl. by left.
Qed.

(** The elements with the time [tv], and those after it, from the first that
    is not earlier. *)
Lemma tq_at_from tv :
  filter (λ n, key n = tv) ns =
    match hi tv with q :: _ => if decide (key q = tv) then [q] else [] | [] => [] end ∧
  filter (λ n, TV_CMP_LT tv (key n) = true) ns =
    match hi tv with q :: l => if decide (key q = tv) then l else q :: l | [] => [] end.
Proof.
  pose proof (ti_sorted _ _ _ _ _ _ Hinv) as Hs. pose proof (tq_split _ _ _ _ _ _ Hinv tv) as Hns.
  rewrite Hns in Hs. apply sorted_app in Hs as (_ & Hs & _).
  assert (∀ n, n ∈ lo tv → TV_CMP_LT (key n) tv = true) as Hlo by by intros n [? _]%elem_of_below.
  assert (∀ n, n ∈ hi tv → TV_CMP_LT (key n) tv = false) as Hhi by by intros n [? _]%elem_of_above.
  assert (∀ (P : Z → Prop) (Pd : ∀ n, Decision (P n)), (∀ n, n ∈ lo tv → ¬ P n) →
    filter P ns = filter P (hi tv)) as Hskip.
  { intros P HP Hn. rewrite Hns at 1. by rewrite filter_app, filter_none. }
  rewrite !Hskip.
  2: { intros n Hn%Hlo Hc. by rewrite (ltb_asym TV_CMP_LT _ _ Hn) in Hc. }
  2: { intros n Hn%Hlo Hc. rewrite Hc in Hn. by rewrite ltb_irrefl in Hn. }
  clear Hskip Hns Hlo. destruct (hi tv) as [|q l]; [done|].
  apply StronglySorted_inv in Hs as [_ Hf]. rewrite Forall_forall in Hf.
  assert (∀ n, n ∈ l → TV_CMP_LT tv (key n) = true) as Hl.
  { intros n Hn. eapply (ltb_ge_trans TV_CMP_LT _ (key q)); [apply Hhi; constructor|].
    by apply Hf. }
  rewrite !filter_cons. rewrite (filter_none _ l), (filter_all _ l); [|done|].
  2: { intros n Hn Hc. specialize (Hl n Hn). rewrite Hc in Hl. by rewrite ltb_irrefl in Hl. }
  destruct (decide (key q = tv)) as [Hq|Hq].
  - split; [done|]. rewrite decide_False; [done|]. by rewrite Hq, ltb_irrefl.
  - split; [done|]. rewrite decide_True; [done|].
    destruct (TV_CMP_LT tv (key q)) eqn:Hc; [done|]. exfalso. apply Hq.
    apply (ltb_total (ltb := TV_CMP_LT)); [|done]. apply Hhi. constructor.
Qed.

Lemma tq_incl_filter (P : Z → Prop) `{∀ n, Decision (P n)} : incl (filter P ns) ns.
Proof. intros n. rewrite <- !list_elem_of_In, list_elem_of_filter. by intros [_ ?]. Qed.

Lemma tq_rd_head l :
  incl l ns → ∃ e, rd (tq_tqep tq) (head_or TQ_NIL l) = Ok e ∧
    te_tv e = match l with q :: _ => key q | [] => TS_ENDT end.
Proof.
  intros Hl. destruct l as [|q l]; unfold head_or; simpl.
  - destruct (ti_nil _ _ _ _ _ _ Hinv) as (e & He & Hk & _). exists e. by rewrite (rd_Ok _ _ _ He).
  - destruct (tq_node _ _ _ _ _ _ Hinv q) as (e & He & Hk).
    + apply list_elem_of_In, Hl. by left.
    + exists e. by rewrite (rd_Ok _ _ _ He).
Qed.

(** The element that [tqe_find()] is to return. *)
Definition tq_found (tv : timestampt) (mt : pq_match) : option Z :=
  match mt, hi tv with
  | TV_LT, _ => last (lo tv)
  | _, [] => None
  | TV_EQ, q :: _ => if decide (key q = tv) then Some q else None
  | TV_GT, q :: l => if decide (key q = tv) then head l else Some q
  end.

Lemma tq_found_view tv mt :
  tq_entry tq <$> tq_found tv mt = abs_find tv mt (tq_view tq ns).
Proof.
  destruct (tq_at_from tv) as [Hat Hafter]. unfold tq_found, abs_find. destruct mt.
  - by rewrite tq_view_before, tq_view_last.
  - unfold tq_view at 1. rewrite filter_fmap. simpl.
    rewrite Hat. destruct (hi tv); [done|]. by case_decide.
  - unfold abs_after, tq_view at 1. rewrite filter_fmap. simpl.
    rewrite Hafter. destruct (hi tv); [done|]. case_decide; [|done].
    symmetry. apply tq_view_head.
Qed.

Lemma tq_found_in tv mt n : tq_found tv mt = Some n → n ∈ ns.
Proof.
  unfold tq_found. intros Hn.
  assert (∀ x, x ∈ hi tv → x ∈ ns) as Hhi by by intros x [_ ?]%elem_of_above.
  destruct mt.
  - apply (elem_of_below TV_CMP_LT key tv). rewrite last_Some in Hn.
    destruct Hn as [l ->]. apply elem_of_app. right. constructor.
  - destruct (hi tv) as [|q l]; [done|]. case_decide; simplify_eq. apply Hhi. constructor.
  - destruct (hi tv) as [|q l]; [done|]. case_decide; simplify_eq.
    + destruct l; simplify_eq/=. apply Hhi. set_solver.
    + apply Hhi. constructor.
Qed.

Lemma tq_CMP_EQ_decide t u : TV_CMP_EQ t u = bool_decide (t = u).
Proof.
  case_bool_decide as H; [by apply TV_CMP_EQ_eq|]. apply not_true_iff_false.
  by rewrite TV_CMP_EQ_eq.
Qed.

Lemma tqe_find_spec tv mt :
  TV_CMP_LT TS_ENDT tv = false → (mt = TV_EQ → tv ≠ TS_ENDT) →
  tqe_find tq f tv mt = Ok (tq_found tv mt).
Proof.
  intros Htv Heq. unfold tqe_find. pose proof (tq_counts _ _ _ _ _ _ Hinv) as Hc.
  pose proof (ti_nelems _ _ _ _ _ _ Hinv) as Hel. pose proof (ti_nalloc _ _ _ _ _ _ Hinv).
  unfold TQ_OVERHEAD_ELEMS. rewrite u64_small by lia.
  destruct (Z.eqb_spec (tq_nelems tq - 2) 0).
  { assert (ns = []) as Hns by (apply length_zero_iff_nil; lia). unfold tq_found.
    rewrite Hns. by destruct mt. }
  rewrite assert_Ok by by eapply fb_own_magic. rewrite bind_Ok.
  destruct (tq_search_spec _ _ _ _ _ _ Hinv tv ∅ Htv) as (upd & ->). rewrite bind_Ok.
  destruct (tq_rd_head (hi tv)) as (e & He & Hek); [apply tq_incl_filter|].
  rewrite He, bind_Ok, tq_CMP_EQ_decide, Hek. unfold tq_found. destruct mt.
  - by rewrite (tq_last_index (lo tv)) by apply tq_incl_filter.
  - destruct (hi tv) as [|q l]; [by rewrite bool_decide_false by naive_solver|].
    by case_bool_decide; case_decide.
  - pose proof (tq_split _ _ _ _ _ _ Hinv tv) as Hns.
    destruct (hi tv) as [|q l]; [done|].
    assert (q ∈ ns) as Hq by (rewrite Hns; set_solver).
    destruct (tq_not_special q Hq) as [_ Hnil%Z.eqb_neq]. unfold head_or in *. simpl in *.
    rewrite Hnil. case_bool_decide as Hk; [|by rewrite decide_False].
    rewrite decide_True by done.
    pose proof (sl_fwd_next _ _ _ _ _ _ _ (ti_rep _ _ _ _ _ _ Hinv) _ _ _ Hns) as Hfw.
    unfold sl_fwd, tq_blkof in Hfw. rewrite He in Hfw. simpl in Hfw. rewrite Z.add_0_r in Hfw.
    rewrite Hfw, bind_Ok. f_equal. apply tq_head_index. intros x Hx.
    rewrite Hns. apply in_or_app. right. by right.
Qed.

Lemma tqe_first_spec : tqe_first tq f = Ok (head ns).
Proof.
  unfold tqe_first. rewrite assert_Ok by by eapply fb_own_magic. rewrite bind_Ok.
  pose proof (ti_rep _ _ _ _ _ _ Hinv) as Hrep. pose proof (sr_lev _ _ _ _ _ _ _ Hrep).
  rewrite (sl_fwd_hd _ _ _ _ _ _ _ Hrep), bind_Ok by lia.
  rewrite (sl_lvl0 _ _ _ _ _ _ _ Hrep). rewrite <- (tq_head_index ns) by apply incl_refl.
  by case_if Hc.
Qed.

Lemma tq_next_spec l1 p l2 : ns = l1 ++ p :: l2 → tq_next tq f p = Ok (head_or TQ_NIL l2).
Proof.
  intros Hns. unfold tq_next. rewrite assert_Ok by by eapply fb_own_magic. rewrite bind_Ok.
  by apply (sl_fwd_next _ _ _ _ _ _ _ (ti_rep _ _ _ _ _ _ Hinv) l1 p l2).
Qed.
End lookup.

(** ** [tq_delete()] *)

Section remove.
Context (tq : tqueue) (f : fb) (U V : gmap Z Z) (fl lk l1 l2 : list Z) (q : Z).
Abbreviation ns := (l1 ++ q :: l2).
Context (Hinv : tq_inv tq f U ns fl lk) (Hown : fb_own f (U ∪ V)) (HUV : U ##ₘ V).
Abbreviation key := (tq_key (tq_tqep tq)).

Lemma tq_index_ok_node n : n ∈ ns → tq_index_ok tq n = true.
Proof.
  intros Hn. pose proof (tq_index _ _ _ _ _ _ Hinv n ltac:(set_solver)).
  unfold tq_index_ok, TQ_NIL, TQ_HEAD, TQ_OVERHEAD_ELEMS. lia.
Qed.

Lemma tq_del_before_spec kq :
  tq_tqep tq !! q = Some kq →
  (∀ n, n ∈ l1 → tq_del_before tq kq n = Ok true) ∧
  (∀ n, n ∈ q :: l2 → tq_del_before tq kq n = Ok false) ∧
  tq_del_before tq kq TQ_NIL = Ok false.
Proof.
  intros Hq. pose proof (tq_key_at _ _ _ Hq) as Hkq.
  destruct (sorted_at _ _ _ _ _ (ti_sorted _ _ _ _ _ _ Hinv)) as [Hlt Hge].
  assert (∀ n, n ∈ ns → ∃ e, rd (tq_tqep tq) n = Ok e ∧ te_tv e = key n) as Hrd.
  { intros n Hn. destruct (tq_node _ _ _ _ _ _ Hinv n Hn) as (e & He & ?).
    exists e. by rewrite (rd_Ok _ _ _ He). }
  unfold tq_del_before. split_and!.
  - intros n Hn. destruct (Hrd n ltac:(set_solver)) as (e & -> & Hk).
    rewrite bind_Ok, assert_Ok by (apply tq_index_ok_node; set_solver).
    rewrite bind_Ok, Hk, <- Hkq, Hlt by done. done.
  - intros n Hn. assert (n ∈ ns) as Hns by set_solver.
    destruct (Hrd n Hns) as (e & He & Hk).
    rewrite He, bind_Ok, assert_Ok by by apply tq_index_ok_node.
    rewrite bind_Ok, Hk, <- Hkq, Hge by done. simpl. rewrite tq_CMP_EQ_decide.
    case_bool_decide as Heq; [|done]. simpl.
    assert (n = q) as ->.
    { apply elem_of_cons in Hn as [->|Hn]; [done|].
      destruct (proj1 (sorted_app _ _ _ _) (ti_sorted _ _ _ _ _ _ Hinv)) as (_ & Hs & _).
      apply StronglySorted_inv in Hs as [_ Hf]. rewrite Forall_forall in Hf.
      specialize (Hf n Hn). unfold node_lt in Hf. rewrite Heq in Hf.
      by rewrite ltb_irrefl in Hf. }
    rewrite (rd_Ok _ _ _ Hq) in He. simplify_eq. by rewrite Z.ltb_irrefl.
  - destruct (ti_nil _ _ _ _ _ _ Hinv) as (e & He & Hk & _).
    destruct (ti_valid _ _ _ _ _ _ Hinv q ltac:(set_solver)) as [_ Hend].
    rewrite (rd_Ok _ _ _ He), bind_Ok, assert_Ok, bind_Ok by done.
    rewrite Hk, <- Hkq, (ltb_asym TV_CMP_LT _ _ Hend). simpl. rewrite tq_CMP_EQ_decide.
    rewrite bool_decide_false; [done|]. intros Heq. rewrite <- Heq in Hend.
    by rewrite ltb_irrefl in Hend.
Qed.

(** The queue without [q], whose element is on the free list. *)
Lemma tq_inv_remove f' U' lev e :
  sl_rep (tq_blkof (tq_tqep tq)) f' U' TQ_HEAD TQ_NIL lev (l1 ++ l2) →
  te_offset e = tq_free tq →
  tq_inv (Tqueue (tq_nalloc tq) (u64 (tq_nelems tq - 1)) (u64 (tq_nfree tq + 1)) q lev
            (<[q := e]> (tq_tqep tq))) f' U' (l1 ++ l2) (q :: fl) lk.
Proof.
  intros Hrep He. pose proof (tq_counts _ _ _ _ _ _ Hinv) as Hc.
  pose proof (tq_NoDup _ _ _ _ _ _ Hinv) as Hnd.
  pose proof (tq_index _ _ _ _ _ _ Hinv q ltac:(set_solver)) as Hi.
  assert (q ∉ fl) as Hqf.
  { intros Hf. apply NoDup_app in Hnd as (_ & Hd & _). apply (Hd q Hf). set_solver. }
  assert (q ∉ l1 ++ l2) as Hq12.
  { apply NoDup_app in Hnd as (_ & _ & Hnd). apply NoDup_app in Hnd as (Hnd & _).
    apply NoDup_app in Hnd as (_ & Hd & Hnd). apply NoDup_cons in Hnd as [? _].
    intros [H1|H2]%elem_of_app; [|done]. apply (Hd q H1). constructor. }
  rewrite length_app in Hc. simpl in Hc. destruct Hinv. split; simpl; try done.
  - eapply sl_rep_ext; [exact Hrep|done| |eauto]. intros x Hx. apply tq_blkof_upd. intros ->.
    apply elem_of_cons in Hx as [Hx|Hx]; [|done]. unfold TQ_HEAD in Hx. lia.
  - rewrite <- ti_perm0. solve_Permutation.
  - intros i Hir. rewrite lookup_insert. case_decide; [eauto|auto].
  - rewrite ti_nfree0, u64_small; lia.
  - rewrite ti_nelems0, u64_small; rewrite !length_app in *; simpl in *; lia.
  - split; [done|]. exists (tq_free tq). rewrite lookup_insert_eq. simpl. rewrite He.
    split; [done|]. eapply linked_ext; [|exact ti_free0]. intros b Hb. simpl.
    rewrite lookup_insert_ne; [done|congruence].
  - rewrite lookup_insert_ne; [done|]. unfold TQ_NIL. lia.
  - eapply sorted_ext; [|eapply sorted_delete; exact ti_sorted0].
    intros x Hx. apply tq_key_upd. congruence.
  - intros x Hx. rewrite tq_key_upd by congruence. apply ti_valid0. set_solver.
Qed.

Lemma tq_view_delete tq' :
  (∀ n, n ≠ q → tq_tqep tq' !! n = tq_tqep tq !! n) →
  tq_view tq' (l1 ++ l2) = abs_delete (key q) (tq_view tq ns).
Proof.
  intros Hext. destruct (sorted_at _ _ _ _ _ (ti_sorted _ _ _ _ _ _ Hinv)) as [Hlt _].
  destruct (proj1 (sorted_app _ _ _ _) (ti_sorted _ _ _ _ _ _ Hinv)) as (_ & Hs & _).
  apply StronglySorted_inv in Hs as [_ Hf]. rewrite Forall_forall in Hf.
  assert (∀ n, n ∈ l1 ++ l2 → key n ≠ key q) as Hne.
  { intros n [Hn|Hn]%elem_of_app Hk.
    - specialize (Hlt n Hn). rewrite Hk in Hlt. by rewrite ltb_irrefl in Hlt.
    - specialize (Hf n Hn). unfold node_lt in Hf. rewrite Hk in Hf. by rewrite ltb_irrefl in Hf. }
  unfold abs_delete, tq_view at 2. rewrite filter_fmap, filter_app, filter_cons_False.
  2: { simpl. by intros ?. }
  rewrite <- filter_app, filter_all.
  - apply tq_view_ext. intros n Hn. apply Hext. intros ->. by apply (Hne q).
  - intros n Hn. simpl. by apply Hne.
Qed.

Lemma tq_delete_spec :
  ∃ tq' f' U', tq_delete tq f q = Ok (tq', f') ∧
    tq_inv tq' f' U' (l1 ++ l2) (q :: fl) lk ∧ fb_own f' (U' ∪ V) ∧ U' ##ₘ V ∧
    fb_maxsize f' = fb_maxsize f ∧ keeps V f f' ∧
    tq_view tq' (l1 ++ l2) = abs_delete (key q) (tq_view tq ns) ∧
    tq_nalloc tq' = tq_nalloc tq ∧ fb_spare f' = fb_spare f ∧
    (∀ n, n ≠ q → tq_tqep tq' !! n = tq_tqep tq !! n).
Proof.
  pose proof (ti_rep _ _ _ _ _ _ Hinv) as Hrep. pose proof (sr_lev _ _ _ _ _ _ _ Hrep) as Hlev.
  assert (q ∈ ns) as Hqn by set_solver.
  destruct (tq_node _ _ _ _ _ _ Hinv q Hqn) as (kq & Hkq & _).
  destruct (tq_del_before_spec kq Hkq) as (Hb1 & Hb2 & Hbn).
  unfold tq_delete. rewrite (rd_Ok _ _ _ Hkq), bind_Ok, assert_Ok by by eapply fb_own_magic.
  rewrite bind_Ok.
  destruct (sl_search_spec _ f U TQ_HEAD TQ_NIL (tq_level tq) l1 (q :: l2) Hrep
    (tq_del_before tq kq) (tq_fuel tq) Hb1 Hb2 Hbn (tq_length_fuel _ _ _ _ _ _ Hinv) ∅)
    as (upd & Hs & Hupd).
  rewrite Hs, bind_Ok. unfold head_or. simpl head. simpl default.
  rewrite assert_Ok, bind_Ok, (rd_Ok _ _ _ Hkq), bind_Ok by by apply tq_index_ok_node.
  rewrite (proj2 (TV_CMP_EQ_eq _ _) eq_refl), Z.eqb_refl. simpl andb. cbv iota.
  destruct (sl_delete_spec _ f U V TQ_HEAD TQ_NIL (tq_level tq) l1 l2 q upd Hrep Hown HUV Hupd)
    as (m & s & b & f' & Hun & Hbq & HUb & Hrel & Hown' & Hdisj & Hrep' & Hm & Hkeeps).
  rewrite Hun, bind_Ok. unfold tq_rel_tqelem.
  unfold tq_blkof in Hbq. rewrite (rd_Ok _ _ _ Hkq), bind_Ok in *.
  injection Hbq as Hbq. pose proof (tq_index _ _ _ _ _ _ Hinv q ltac:(set_solver)) as Hi.
  rewrite assert_Ok by (simpl; by eapply (fb_own_magic f)). rewrite bind_Ok.
  rewrite assert_Ok by (unfold TQ_HEAD, TQ_OVERHEAD_ELEMS; lia). rewrite bind_Ok.
  replace (s - 1 + 1) with s by lia. rewrite Hbq, Hrel, bind_Ok, wr_Ok, !bind_Ok by eauto.
  pose proof (tq_inv_remove f' _ _ (Tqelem TS_NONE (tq_free tq) FBLK_NONE) Hrep' eq_refl) as Hinv1.
  destruct (sl_shrink_spec _ _ _ _ _ _ _ (ti_rep _ _ _ _ _ _ Hinv1)) as (lev & Hshr & Hrep2).
  simpl in Hshr |- *. rewrite Hshr, bind_Ok. eexists _, f', _. split_and!; [done| |done|done|done|done| |done| |].
  - destruct Hinv1. by split.
  - apply tq_view_delete. intros n Hn. simpl. by rewrite lookup_insert_ne.
  - by destruct (fb_rel_spare _ _ _ _ Hrel) as [_ ->].
  - intros n Hn. simpl. by rewrite lookup_insert_ne.
Qed.
End remove.

(** ** [tq_init()] *)

Lemma tq_init_spec nalloc f V b0 f0 b1 f1 :
  0 < nalloc < 2 ^ 32 → fb_own f V →
  fb_get f 0 = Ok (b0, f0) → b0 ≠ FBLK_NONE →
  fb_get f0 (fb_maxsize f0 - 1) = Ok (b1, f1) → b1 ≠ FBLK_NONE →
  ∃ tq f' U, tq_init nalloc f = Ok (tq, f') ∧
    tq_inv tq f' U [] (seqZ 2 nalloc) [] ∧ fb_own f' (U ∪ V) ∧ U ##ₘ V ∧
    fb_maxsize f' = fb_maxsize f ∧ keeps V f f' ∧ tq_nalloc tq = nalloc ∧ fb_spare f' = fb_spare f1.
Proof.
  intros Hn Hown Hg0 Hne0 Hg1 Hne1. pose proof (fb_own_max _ _ Hown) as Hmax.
  destruct (fb_get_spec f V Hown 0 ltac:(lia)) as [(? & ? & Hg & _ & Hgot0)|[Hg _]];
    rewrite Hg0 in Hg; [injection Hg as <- <-|congruence].
  destruct Hgot0 as (HV0 & Hown0 & Hm0 & _ & Hfr0).
  destruct (fb_get_spec f0 _ Hown0 (fb_maxsize f0 - 1) ltac:(lia))
    as [(? & ? & Hg & _ & Hgot1)|[Hg _]]; rewrite Hg1 in Hg;
    [injection Hg as <- <-|congruence].
  destruct Hgot1 as (HV1 & Hown1 & Hm1 & _ & Hfr1).
  replace (fb_maxsize f0 - 1 + 1) with (fb_maxsize f) in * by lia.
  apply lookup_insert_None in HV1 as [HV1 Hb01].
  destruct (fill_block_spec (Z.to_nat (fb_maxsize f1)) f1 _ b1 (fb_maxsize f) 0 TQ_NIL Hown1)
    as (m & Hfill & Hown2 & Hcells & Hfr2); [apply lookup_insert_eq|lia|lia|].
  unfold tq_init. rewrite assert_Ok by by eapply fb_own_magic.
  rewrite bind_Ok, Hg0, bind_Ok, Hg1, bind_Ok, Hfill, bind_Ok.
  set (U := <[b1 := fb_maxsize f]> {[b0 := 0 + 1]} : gmap Z Z).
  assert (U ∪ V = <[b1 := fb_maxsize f]> (<[b0 := 0 + 1]> V)) as HU.
  { unfold U. by rewrite <- insert_union_l, <- insert_union_singleton_l. }
  assert (U ##ₘ V) as HUV.
  { unfold U. apply map_disjoint_insert_l_2; [done|]. by apply map_disjoint_singleton_l_2. }
  eexists _, _, U. split; [done|]. rewrite HU. split_and!; [|done|done|simpl; congruence| |done|done].
  - split; simpl; try done.
    + apply sl_rep_empty with b1; [unfold TQ_HEAD, TQ_NIL; lia|simpl; lia| | |].
      * unfold tq_blkof. erewrite rd_Ok; [|rewrite arr_tabulate_lookup, decide_True; [done|]].
        { done. } unfold TQ_HEAD, TQ_OVERHEAD_ELEMS. lia.
      * unfold U. rewrite lookup_insert_eq. simpl. congruence.
      * intros k Hk. apply Hcells. simpl in Hk. lia.
    + by rewrite !app_nil_r.
    + intros i Hi. rewrite arr_tabulate_lookup, decide_True; [done|]. unfold TQ_OVERHEAD_ELEMS. lia.
    + rewrite length_seqZ. lia.
    + apply linked_seqZ; [lia|]. intros i Hi.
      rewrite arr_tabulate_lookup, decide_True by (unfold TQ_OVERHEAD_ELEMS; lia). simpl.
      rewrite (proj2 (Z.eqb_neq i TQ_NIL)), (proj2 (Z.eqb_neq i TQ_HEAD))
        by (unfold TQ_NIL, TQ_HEAD; lia). simpl.
      by replace (nalloc + 2 - 1) with (2 + nalloc - 1) by lia.
    + rewrite arr_tabulate_lookup, decide_True by (unfold TQ_NIL, TQ_OVERHEAD_ELEMS; lia). eauto.
    + constructor.
    + by intros ? ?%elem_of_nil.
  - intros b s c Hb Hc. simpl. assert (b ≠ b0) by congruence. assert (b ≠ b1) by congruence.
    rewrite Hfr2, (Hfr1 b s c), (Hfr0 b s c); try done.
    + by rewrite lookup_insert_ne.
    + intros Hr. assert (b1 ≠ b) as Hne by congruence.
      destruct (fb_own_disj _ _ Hown1 b1 (fb_maxsize f) b s Hne); [apply lookup_insert_eq| |lia..].
      by rewrite !lookup_insert_ne.
Qed.

(** Two spare blocks are enough. *)
Lemma tq_init_spare nalloc f V :
  0 < nalloc < 2 ^ 32 → fb_own f V → 2 ≤ fb_spare f →
  ∃ tq f' U, tq_init nalloc f = Ok (tq, f') ∧
    tq_inv tq f' U [] (seqZ 2 nalloc) [] ∧ fb_own f' (U ∪ V) ∧ U ##ₘ V ∧
    fb_maxsize f' = fb_maxsize f ∧ keeps V f f' ∧ tq_nalloc tq = nalloc ∧
    fb_spare f - 2 ≤ fb_spare f'.
Proof.
  intros Hn Hown Hsp. pose proof (fb_own_max _ _ Hown) as Hmax.
  destruct (fb_get_spare f V 0 Hown) as (b0 & f0 & Hg0 & Hne0 & Hgot0 & Hs0); [lia..|].
  destruct Hgot0 as (_ & Hown0 & Hm0 & _).
  destruct (fb_get_spare f0 _ (fb_maxsize f0 - 1) Hown0) as (b1 & f1 & Hg1 & Hne1 & _ & Hs1); [lia..|].
  destruct (tq_init_spec nalloc f V b0 f0 b1 f1 Hn Hown Hg0 Hne0 Hg1 Hne1)
    as (tq & f' & U & ? & ? & ? & ? & ? & ? & ? & ?).
  exists tq, f', U. split_and!; try assumption. lia.
Qed.

(** ** Properties *)

(** [tq_init()], with two spare blocks for its tail and its head, makes an empty
    well-formed queue of which all [nalloc] elements are free, and leaves the
    blocks of others alone. *)
Theorem tq_init_correct nalloc f V :
  0 < nalloc < 2 ^ 32 → fb_own f V → 2 ≤ fb_spare f →
  ∃ tq f' U, tq_init nalloc f = Ok (tq, f') ∧
    tq_inv tq f' U [] (seqZ 2 nalloc) [] ∧ fb_own f' (U ∪ V) ∧ U ##ₘ V ∧ keeps V f f' ∧
    tq_nalloc tq = nalloc ∧ fb_spare f - 2 ≤ fb_spare f'.
Proof.
  intros Hn Hown Hsp.
  destruct (tq_init_spare nalloc f V Hn Hown Hsp) as (tq & f' & U & ? & ? & ? & ? & _ & ? & ? & ?). eauto 10.
Qed.

(** C37: insertion.  On a well-formed queue with a free element, [tq_add()] at
    time [now] terminates without a fault.  If it returns 0, the queue is
    well-formed and its contents are the old ones with ([tv], [offset])
    inserted in order of time, where [tv] is the least time from [now] on that
    no element had, so that times stay unique.  It returns ENOSPC only when there is no
    spare block; then the contents and the block arena are unchanged, but one element is
    lost.  The blocks of others are left alone. *)
Theorem tq_add_correct tq f U V ns fl lk g now offset :
  tq_inv tq f U ns fl lk → fb_own f (U ∪ V) → U ##ₘ V → fl ≠ [] →
  ts_valid now → us now + Z.of_nat (length ns) < us TS_ENDT →
  ∃ st tq' f' g', tq_add tq f g (inr now) offset = Ok (st, tq', f', g') ∧ keeps V f f' ∧
    ((st = 0 ∧ ∃ U' tv ns', tq_added V now offset tq f ns fl lk tq' f' U' tv ns') ∨
     (st = ENOSPC ∧ fb_spare f = 0 ∧ f' = f ∧ tq_view tq' ns = tq_view tq ns ∧
      ∃ n, tq_inv tq' f U ns (tail fl) (n :: lk))).
Proof.
  intros H1 H2 H3 H4 H5 H6.
  destruct (tq_add_spec tq f U V ns fl lk g now offset H1 H2 H3 H4 H5 H6)
    as (st & tq' & f' & g' & ? & _ & ? & ?). eauto 10.
Qed.

(** Lookup.  [tqe_find()] terminates and returns an element of the queue that
    holds: for [TV_LT] the last entry before [key], for [TV_EQ] the entry of
    time [key], for [TV_GT] the first entry after [key]; or null when there is
    none.  For [TV_EQ] the key must not be the end of time, which is the time
    of the tail element. *)
Theorem tqe_find_correct tq f U V ns fl lk tv mt :
  tq_inv tq f U ns fl lk → fb_own f (U ∪ V) →
  TV_CMP_LT TS_ENDT tv = false → (mt = TV_EQ → tv ≠ TS_ENDT) →
  ∃ o, tqe_find tq f tv mt = Ok o ∧ (∀ n, o = Some n → n ∈ ns) ∧
    tq_entry tq <$> o = abs_find tv mt (tq_view tq ns).
Proof.
  intros Hinv Hown Htv Heq. exists (tq_found tq ns tv mt). split_and!.
  - by eapply tqe_find_spec.
  - intros n Hn. by eapply tq_found_in.
  - by eapply tq_found_view.
Qed.

(** Traversal.  [tqe_first()] returns the first element of the queue (null if
    it is empty) and [tq_next()] takes every element to its successor, the tail
    after the last, so that the two visit exactly the elements in order. *)
Theorem tq_traversal_correct tq f U V ns fl lk :
  tq_inv tq f U ns fl lk → fb_own f (U ∪ V) →
  tqe_first tq f = Ok (head ns) ∧
  ∀ i p, ns !! i = Some p → tq_next tq f p = Ok (default TQ_NIL (ns !! S i)).
Proof.
  intros Hinv Hown. split; [by eapply tqe_first_spec|]. intros i p Hi.
  pose proof (take_drop_middle ns i p Hi) as Hns.
  rewrite (tq_next_spec _ _ _ _ _ _ _ Hinv Hown _ _ _ (eq_sym Hns)). f_equal. unfold head_or.
  f_equal. by rewrite head_lookup, lookup_drop, Nat.add_0_r.
Qed.

(** Deletion.  [tq_delete()] of an element of a well-formed queue terminates
    without a fault; the queue is well-formed, its contents are the old ones
    without the entry of that time, the element is free again and its block is
    returned.  The blocks of others are left alone. *)
Theorem tq_delete_correct tq f U V ns fl lk q :
  tq_inv tq f U ns fl lk → fb_own f (U ∪ V) → U ##ₘ V → q ∈ ns →
  ∃ tq' f' U' ns', tq_delete tq f q = Ok (tq', f') ∧
    tq_inv tq' f' U' ns' (q :: fl) lk ∧ fb_own f' (U' ∪ V) ∧ U' ##ₘ V ∧ keeps V f f' ∧
    tq_view tq' ns' = abs_delete (tq_key (tq_tqep tq) q) (tq_view tq ns).
Proof.
  intros Hinv Hown HUV (l1 & l2 & ->)%list_elem_of_split.
  destruct (tq_delete_spec tq f U V fl lk l1 l2 q Hinv Hown HUV)
    as (tq' & f' & U' & ? & ? & ? & ? & _ & ? & ? & _). eauto 10.
Qed.

(** *** Examples *)

#[local] Opaque fb_init.

(** A new queue of ten elements on an arena for 64. *)
Definition tq_ex_init : res (tqueue * fb) := let! f := fb_init 64 in tq_init 10 f.

(** The same with two products that arrived at the same time. *)
Definition tq_ex_now : timestampt := Timestamp 1700000000 999999.
Definition tq_ex_one : res (tqueue * fb) :=
  let! '(tq, f) := tq_ex_init in
  let! '(st, tq, f, g) := tq_add tq f rng_init (inr tq_ex_now) 4096 in
  assert! st =? 0 in Ok (tq, f).

Lemma tq_ex_arena : ∃ f, fb_init 64 = Ok f ∧ fb_own f ∅ ∧ 2 ≤ fb_spare f.
Proof.
  destruct (fb_init_spec 64 ltac:(lia)) as (f & Hf & Hown & _ & Hs).
  exists f. rewrite Hs. split_and!; [exact Hf|exact Hown|]. vm_compute. discriminate.
Qed.

Lemma tq_ex_init_inv :
  ∃ tq f U, tq_ex_init = Ok (tq, f) ∧ tq_inv tq f U [] (seqZ 2 10) [] ∧ fb_own f (U ∪ ∅) ∧ U ##ₘ ∅.
Proof.
  destruct tq_ex_arena as (f & Hf & Hown & Hs). destruct (tq_init_spare 10 f ∅ ltac:(lia) Hown Hs)
    as (tq & f' & U & Hi & Hinv & Hown' & HUV & _).
  exists tq, f', U. unfold tq_ex_init. rewrite Hf, bind_Ok. split_and!; assumption.
Qed.

Lemma tq_ex_time n :
  (n ≤ 10)%nat → ts_valid tq_ex_now ∧ us tq_ex_now + Z.of_nat n < us TS_ENDT.
Proof. intros. unfold ts_valid, us. simpl. lia. Qed.

Lemma tq_ex_free : seqZ 2 10 ≠ [].
Proof. discriminate. Qed.

Lemma tq_ex_one_inv :
  ∃ tq f U n fl, tq_ex_one = Ok (tq, f) ∧ tq_inv tq f U [n] fl [] ∧ fb_own f (U ∪ ∅) ∧
    U ##ₘ ∅ ∧ tq_view tq [n] = [(tq_ex_now, 4096)].
Proof.
  destruct tq_ex_init_inv as (tq & f & U & Hi & Hinv & Hown & HUV).
  destruct (tq_ex_time 0 ltac:(lia)) as [Hv Hend].
  destruct (tq_add_spec tq f U ∅ [] (seqZ 2 10) [] rng_init tq_ex_now 4096 Hinv Hown HUV
    tq_ex_free Hv Hend) as (st & tq' & f' & g' & Hadd & _ & _ & Hst).
  assert (is_ok tq_ex_one = true) as Hok by (vm_compute; reflexivity).
  unfold tq_ex_one in *. rewrite Hi, bind_Ok, Hadd, bind_Ok in *.
  destruct Hst as [(-> & U' & tv & ns' & Hinv' & Hown' & HUV' & Hleast & Hview)|(-> & _)]; [|done].
  assert (tv = tq_ex_now) as ->.
  { destruct Hleast as (Htv & Hle & _ & Hall). destruct (decide (us tq_ex_now = us tv)) as [Hz|Hz].
    - symmetry. apply us_inj; assumption.
    - exfalso. apply (not_elem_of_nil tq_ex_now). apply Hall; [assumption|lia]. }
  destruct ns' as [|n [|? ?]]; [done| |done].
  eexists _, _, U', n, _. split_and!; [done|eassumption..].
Qed.

Lemma tq_init_correct_witness :
  ∃ f, fb_init 64 = Ok f ∧ ∃ tq f' U, tq_init 10 f = Ok (tq, f') ∧
    tq_inv tq f' U [] (seqZ 2 10) [] ∧ fb_own f' (U ∪ ∅) ∧ U ##ₘ ∅ ∧ keeps ∅ f f' ∧
    tq_nalloc tq = 10 ∧ fb_spare f - 2 ≤ fb_spare f'.
Proof.
  destruct tq_ex_arena as (f & Hf & Hown & Hs). exists f. split; [assumption|].
  exact (tq_init_correct 10 f ∅ ltac:(lia) Hown Hs).
Defined.

(** The second product of the same microsecond gets the next one. *)
Lemma tq_add_correct_witness :
  ∃ tq f U n fl, tq_ex_one = Ok (tq, f) ∧
  ∃ st tq' f' g', tq_add tq f rng_init (inr tq_ex_now) 8192 = Ok (st, tq', f', g') ∧ keeps ∅ f f' ∧
    ((st = 0 ∧ ∃ U' tv ns', tq_added ∅ tq_ex_now 8192 tq f [n] fl [] tq' f' U' tv ns') ∨
     (st = ENOSPC ∧ fb_spare f = 0 ∧ f' = f ∧ tq_view tq' [n] = tq_view tq [n] ∧
      ∃ n', tq_inv tq' f U [n] (tail fl) [n'])).
Proof.
  destruct tq_ex_one_inv as (tq & f & U & n & fl & Hi & Hinv & Hown & HUV & _).
  exists tq, f, U, n, fl. split; [assumption|].
  destruct (tq_ex_time 1 ltac:(lia)) as [Hv Hend].
  refine (tq_add_correct tq f U ∅ [n] fl [] rng_init tq_ex_now 8192 Hinv Hown HUV _ Hv Hend).
  intros ->. pose proof (tq_counts _ _ _ _ _ _ Hinv) as Hc.
  assert ((let! '(tq, _) := tq_ex_one in Ok (tq_nalloc tq)) = Ok 10) as Hn by (vm_compute; reflexivity).
  rewrite Hi in Hn. injection Hn as Hn. simpl in Hc. lia.
Defined.

(** The entry is the one before the end of time. *)
Lemma tqe_find_correct_witness :
  ∃ tq f ns, tq_ex_one = Ok (tq, f) ∧ tq_view tq ns = [(tq_ex_now, 4096)] ∧
  ∃ o, tqe_find tq f TS_ENDT TV_LT = Ok o ∧ (∀ n, o = Some n → n ∈ ns) ∧
    tq_entry tq <$> o = abs_find TS_ENDT TV_LT (tq_view tq ns).
Proof.
  destruct tq_ex_one_inv as (tq & f & U & n & fl & Hi & Hinv & Hown & HUV & Hview).
  exists tq, f, [n]. split; [assumption|]. split; [assumption|].
  refine (tqe_find_correct tq f U ∅ [n] fl [] TS_ENDT TV_LT Hinv Hown _ _).
  - apply ltb_irrefl.
  - intros H. discriminate H.
Defined.

Lemma tq_traversal_correct_witness :
  ∃ tq f n, tq_ex_one = Ok (tq, f) ∧ tqe_first tq f = Ok (Some n) ∧
    ∀ i p, [n] !! i = Some p → tq_next tq f p = Ok (default TQ_NIL ([n] !! S i)).
Proof.
  destruct tq_ex_one_inv as (tq & f & U & n & fl & Hi & Hinv & Hown & HUV & Hview).
  exists tq, f, n. split; [assumption|].
  exact (tq_traversal_correct tq f U ∅ [n] fl [] Hinv Hown).
Defined.

Lemma tq_delete_correct_witness :
  ∃ tq f n fl, tq_ex_one = Ok (tq, f) ∧
  ∃ tq' f' U' ns', tq_delete tq f n = Ok (tq', f') ∧
    tq_inv tq' f' U' ns' (n :: fl) [] ∧ fb_own f' (U' ∪ ∅) ∧ U' ##ₘ ∅ ∧ keeps ∅ f f' ∧
    tq_view tq' ns' = abs_delete (tq_key (tq_tqep tq) n) (tq_view tq [n]).
Proof.
  destruct tq_ex_one_inv as (tq & f & U & n & fl & Hi & Hinv & Hown & HUV & Hview).
  exists tq, f, n, fl. split; [assumption|].
  refine (tq_delete_correct tq f U ∅ [n] fl [] n Hinv Hown HUV _).
  apply list_elem_of_singleton. reflexivity.
Defined.

(** *** The end of time *)

(** The walk from the head of a queue whose tail is earlier than [now] and links
    back to the head. *)
Lemma tq_scan_diverges a m now fuel :
  TV_CMP_LT (tq_key a TQ_NIL) now = true → TV_CMP_LT (tq_key a TQ_HEAD) now = true →
  is_Some (a !! TQ_NIL) → is_Some (a !! TQ_HEAD) →
  sl_fwd (tq_blkof a) m TQ_HEAD 0 = Ok TQ_NIL → sl_fwd (tq_blkof a) m TQ_NIL 0 = Ok TQ_HEAD →
  sl_scan (tq_blkof a) fuel (tq_before a now) m 0 TQ_HEAD = Err OutOfFuel ∧
  sl_scan (tq_blkof a) fuel (tq_before a now) m 0 TQ_NIL = Err OutOfFuel.
Proof.
  intros Hn Hh [en Hen] [eh Heh] Hf1 Hf2. induction fuel as [|fuel [IH1 IH2]]; [done|].
  cbn [sl_scan]. rewrite Hf1, Hf2, !bind_Ok. unfold tq_before.
  rewrite (rd_Ok _ _ _ Hen), (rd_Ok _ _ _ Heh), !bind_Ok.
  rewrite (tq_key_at _ _ _ Hen) in Hn. rewrite (tq_key_at _ _ _ Heh) in Hh.
  by rewrite Hn, Hh.
Qed.

(** A new queue does not survive the end of 2^31 seconds.  When the clock
    reads later than [TS_ENDT], the time of the tail, the first scan of
    [tq_add()] leaves the tail through the unset links of its block, which
    lead back to the head, and never ends. *)
Theorem tq_add_after_endt now :
  TV_CMP_LT TS_ENDT now = true →
  ∃ tq f, tq_ex_init = Ok (tq, f) ∧
    (∀ fuel, sl_scan (tq_blkof (tq_tqep tq)) fuel (tq_before (tq_tqep tq) now) (fb_fblks f)
       (tq_level tq) TQ_HEAD = Err OutOfFuel) ∧
    ∀ g offset, tq_add tq f g (inr now) offset = Err OutOfFuel.
Proof.
  intros Hnow. destruct tq_ex_init_inv as (tq & f & U & Hi & Hinv & Hown & HUV).
  exists tq, f. split; [assumption|].
  assert ((let! '(tq, f) := tq_ex_init in
           let! a := sl_fwd (tq_blkof (tq_tqep tq)) (fb_fblks f) TQ_HEAD 0 in
           let! b := sl_fwd (tq_blkof (tq_tqep tq)) (fb_fblks f) TQ_NIL 0 in
           Ok (a, b, tq_level tq, tq_key (tq_tqep tq) TQ_HEAD, tq_key (tq_tqep tq) TQ_NIL))
          = Ok (TQ_NIL, TQ_HEAD, 0, TS_NONE, TS_ENDT)) as Hc by (vm_compute; reflexivity).
  rewrite Hi, bind_Ok in Hc. apply bind_inv in Hc as (a & Ha & Hc).
  apply bind_inv in Hc as (b & Hb & Hc). injection Hc as -> -> Hlev Hkh Hkn.
  assert (∀ fuel, sl_scan (tq_blkof (tq_tqep tq)) fuel (tq_before (tq_tqep tq) now) (fb_fblks f)
    (tq_level tq) TQ_HEAD = Err OutOfFuel) as Hscan.
  { intros fuel. rewrite Hlev. apply tq_scan_diverges; [| | | |assumption..].
    - rewrite Hkn. assumption.
    - rewrite Hkh. eapply (ltb_trans (ltb := TV_CMP_LT)); [|eassumption]. reflexivity.
    - apply (ti_dom _ _ _ _ _ _ Hinv). pose proof (ti_nalloc _ _ _ _ _ _ Hinv).
      unfold TQ_NIL. lia.
    - apply (ti_dom _ _ _ _ _ _ Hinv). pose proof (ti_nalloc _ _ _ _ _ _ Hinv).
      unfold TQ_HEAD. lia. }
  split; [assumption|]. intros g offset.
  destruct (tq_get_tqelem_spec _ _ _ _ _ _ Hinv 2 (seqZ 3 9) eq_refl)
    as (tq1 & Hget & _ & Htq & Hlv & _).
  unfold tq_add. rewrite assert_Ok by (eapply fb_own_magic; eassumption).
  pose proof (ti_nalloc _ _ _ _ _ _ Hinv). rewrite bind_Ok, assert_Ok by lia.
  rewrite bind_Ok, (tq_HasSpace_spec _ _ _ _ _ _ Hinv), bind_Ok, assert_Ok by reflexivity.
  rewrite bind_Ok, Hget, bind_Ok, assert_Ok, bind_Ok by reflexivity.
  unfold tq_add_fuel. change (Z.to_nat MAXLEVELS) with (S 14). cbn [Nat.mul Nat.add tq_add_loop].
  rewrite Htq, Hlv, Hscan. reflexivity.
Qed.

Lemma tq_add_after_endt_witness :
  ∃ tq f, tq_ex_init = Ok (tq, f) ∧
    (∀ fuel, sl_scan (tq_blkof (tq_tqep tq)) fuel
       (tq_before (tq_tqep tq) (Timestamp 2147483648 0)) (fb_fblks f)
       (tq_level tq) TQ_HEAD = Err OutOfFuel) ∧
    ∀ g offset, tq_add tq f g (inr (Timestamp 2147483648 0)) offset = Err OutOfFuel.
Proof. apply (tq_add_after_endt (Timestamp 2147483648 0)). reflexivity. Defined.
