(* ===== verification/RegionList.v ===== *)
(** * The region list (layers "region" and "regionl" of src/pq/pq.c)

    The data segment of the product-queue is cut into regions, each in use or
    free.  The table [rp] has a slot for every region; slots without a region
    are empty and on a list threaded through [next].  Free regions are on two
    skip lists, by offset (forward block in [next]) and by extent (forward block
    in [prev]); regions in use are in a hash table of doubly linked chains,
    keyed by offset.  Slots 0 to 3 are the heads and tails of the skip lists.

    The two skip lists are the same code twice; [skl] collects what differs. *)

From S2P Require Import Prelude NumTheory Fb SkipList.

Record region := Region { rg_offset : Z; rg_extent : Z; rg_next : Z; rg_prev : Z }.

Definition RL_NONE : Z := 2 ^ 64 - 1.
Definition ISALLOC : Z := 1.
Definition RL_MAGIC : Z := 0x524c4841.
Definition RL_FREE_OVERHEAD : Z := 4.
Definition RL_EMPTY_HD : Z := RL_FREE_OVERHEAD.
Definition RL_FOFF_HD : Z := 0.
Definition RL_FOFF_TL : Z := 1.
Definition RL_FEXT_HD : Z := 2.
Definition RL_FEXT_TL : Z := 3.
Definition PQ_SYSTEM : Z := -4.
Definition ENOMEM : Z := 12.
(** [huge_off_t], the greatest [off_t]. *)
Definition huge_off_t : Z := Z.shiftl 1 62 + (Z.shiftl 1 62 - 1).
Definition MAX_SIZE_T : Z := 2 ^ 64 - 1.

(** The flag macros of src/pq/fbits.h on [extent]. *)
Definition set_IsAlloc (r : region) : region :=
  Region (rg_offset r) (Z.lor (rg_extent r) ISALLOC) (rg_next r) (rg_prev r).
Definition clear_IsAlloc (r : region) : region :=
  Region (rg_offset r) (Z.ldiff (rg_extent r) ISALLOC) (rg_next r) (rg_prev r).
Definition IsAlloc (r : region) : bool := negb (Z.land (rg_extent r) ISALLOC =? 0).
Definition IsFree (r : region) : bool := negb (IsAlloc r).
Definition Extent (r : region) : Z := Z.ldiff (rg_extent r) ISALLOC.

Definition rg_set_extent (r : region) (e : Z) : region :=
  Region (rg_offset r) e (rg_next r) (rg_prev r).
Definition rg_set_next (r : region) (n : Z) : region :=
  Region (rg_offset r) (rg_extent r) n (rg_prev r).
Definition rg_set_prev (r : region) (p : Z) : region :=
  Region (rg_offset r) (rg_extent r) (rg_next r) p.

(** [regionl] with the [rlhash] that follows it in the file ([rl_magic] and
    [rl_chains]). *)
Record regionl := Regionl {
  rl_nalloc : Z;
  rl_nchains : Z;
  rl_empty : Z;
  rl_nelems : Z;
  rl_maxelems : Z;
  rl_nfree : Z;
  rl_maxfree : Z;
  rl_maxfextent : Z;
  rl_nempty : Z;
  rl_minempty : Z;
  rl_nbytes : Z;
  rl_maxbytes : Z;
  rl_level_foff : Z;
  rl_foff : Z;
  rl_level_fext : Z;
  rl_fext : Z;
  rl_rp : gmap Z region;
  rl_magic : Z;
  rl_chains : gmap Z Z;
}.

(** *** Assignments to members *)

Section set_members.
Context (rl : regionl).
Definition rl_set_rp (v : gmap Z region) : regionl :=
  let '(Regionl a b c d e f g h i j k l m n o p _ q r) := rl in
  Regionl a b c d e f g h i j k l m n o p v q r.
Definition rl_set_chains (v : gmap Z Z) : regionl :=
  let '(Regionl a b c d e f g h i j k l m n o p q r _) := rl in
  Regionl a b c d e f g h i j k l m n o p q r v.
Definition rl_set_level_foff (v : Z) : regionl :=
  let '(Regionl a b c d e f g h i j k l _ n o p q r s) := rl in
  Regionl a b c d e f g h i j k l v n o p q r s.
Definition rl_set_level_fext (v : Z) : regionl :=
  let '(Regionl a b c d e f g h i j k l m n _ p q r s) := rl in
  Regionl a b c d e f g h i j k l m n v p q r s.
Definition rl_set_empty (ix n mn : Z) : regionl :=
  let '(Regionl a b _ d e f g h _ _ k l m n' o p q r s) := rl in
  Regionl a b ix d e f g h n mn k l m n' o p q r s.
Definition rl_set_nelems (v mx : Z) : regionl :=
  let '(Regionl a b c _ _ f g h i j k l m n o p q r s) := rl in
  Regionl a b c v mx f g h i j k l m n o p q r s.
Definition rl_set_nfree (v mx : Z) : regionl :=
  let '(Regionl a b c d e _ _ h i j k l m n o p q r s) := rl in
  Regionl a b c d e v mx h i j k l m n o p q r s.
Definition rl_set_maxfextent (v : Z) : regionl :=
  let '(Regionl a b c d e f g _ i j k l m n o p q r s) := rl in
  Regionl a b c d e f g v i j k l m n o p q r s.
Definition rl_set_nbytes (v mx : Z) : regionl :=
  let '(Regionl a b c d e f g h i j _ _ m n o p q r s) := rl in
  Regionl a b c d e f g h i j v mx m n o p q r s.
End set_members.

(** ** Empty slots *)

(** The slots that [rp_init()] makes: all empty, linked in order. *)
Definition rp_init_slot (nalloc i : Z) : region :=
  Region OFF_NONE 0 (if i =? nalloc + RL_FREE_OVERHEAD - 1 then RL_NONE else i + 1) 0.

Definition rp_get (rl : regionl) : res (Z * regionl) :=
  if rl_empty rl =? RL_NONE then
    assert! rl_nempty rl =? 0 in Ok (RL_NONE, rl)
  else
    let ix := rl_empty rl in
    let! rep := rd (rl_rp rl) ix in
    let n := u64 (rl_nempty rl - 1) in
    let mn := if n <? rl_minempty rl then n else rl_minempty rl in
    Ok (ix, rl_set_empty rl (rg_next rep) n mn).

Definition rp_rel (rl : regionl) (rlix : Z) : res regionl :=
  let! rep := rd (rl_rp rl) rlix in
  assert! (0 <? rlix) && (rlix <? rl_nalloc rl + RL_FREE_OVERHEAD) in
  let! rp := wr (rl_rp rl) rlix (Region OFF_NONE 0 (rl_empty rl) (rg_prev rep)) in
  Ok (rl_set_empty (rl_set_rp rl rp) rlix (u64 (rl_nempty rl + 1)) (rl_minempty rl)).

(** ** The hash table of regions in use *)

Definition rl_hash (nchains offset : Z) : Z := u32 offset mod nchains.

Definition rlhash_add (rl : regionl) (rpix : Z) : res regionl :=
  assert! rl_magic rl =? RL_MAGIC in
  let! rep := rd (rl_rp rl) rpix in
  assert! IsAlloc rep in
  let try := rl_hash (rl_nchains rl) (rg_offset rep) in
  let! next := rd (rl_chains rl) try in
  let! rp :=
    if negb (next =? RL_NONE) then
      let! rnp := rd (rl_rp rl) next in
      assert! IsAlloc rnp in
      wr (rl_rp rl) next (rg_set_prev rnp rpix)
    else Ok (rl_rp rl) in
  let! rep := rd rp rpix in
  let! rp := wr rp rpix (rg_set_prev (rg_set_next rep next) RL_NONE) in
  let! chains := wr (rl_chains rl) try rpix in
  Ok (rl_set_chains (rl_set_rp rl rp) chains).

Definition rlhash_del (rl : regionl) (rlix : Z) : res regionl :=
  let! rep := rd (rl_rp rl) rlix in
  let rpix := rg_prev rep in
  let rnix := rg_next rep in
  let! rl :=
    if negb (rpix =? RL_NONE) then
      let! rpp := rd (rl_rp rl) rpix in
      let! rp := wr (rl_rp rl) rpix (rg_set_next rpp rnix) in
      Ok (rl_set_rp rl rp)
    else
      let! chains := wr (rl_chains rl) (rl_hash (rl_nchains rl) (rg_offset rep)) rnix in
      Ok (rl_set_chains rl chains) in
  if negb (rnix =? RL_NONE) then
    let! rnp := rd (rl_rp rl) rnix in
    assert! IsAlloc rnp in
    let! rp := wr (rl_rp rl) rnix (rg_set_prev rnp rpix) in
    Ok (rl_set_rp rl rp)
  else Ok rl.

(** The loop of [rl_find()] along a chain. *)
Fixpoint rl_find_loop (fuel : nat) (rp : gmap Z region) (offset next : Z) : res Z :=
  match fuel with
  | O => Err OutOfFuel
  | S fuel =>
      if next =? RL_NONE then Ok RL_NONE
      else
        let! rep := rd rp next in
        if offset =? rg_offset rep then
          assert! IsAlloc rep in Ok next
        else rl_find_loop fuel rp offset (rg_next rep)
  end.

(** A chain has at most [nalloc] members. *)
Definition rl_fuel (rl : regionl) : nat := S (Z.to_nat (rl_nalloc rl)).

Definition rl_find (rl : regionl) (offset : Z) : res Z :=
  assert! rl_magic rl =? RL_MAGIC in
  let! next := rd (rl_chains rl) (rl_hash (rl_nchains rl) offset) in
  rl_find_loop (rl_fuel rl) (rl_rp rl) offset next.

(** ** The skip lists of free regions *)

Record skl := Skl {
  sk_hd : regionl → Z;                       (* rl->foff, rl->fext *)
  sk_tl : Z;
  sk_blk : region → Z;                       (* member with the forward block *)
  sk_set_blk : region → Z → region;
  sk_level : regionl → Z;
  sk_set_level : regionl → Z → regionl;
  sk_lt : region → region → bool;            (* q->key < key *)
}.

Definition foff_lt (q r : region) : bool := rg_offset q <? rg_offset r.
Definition fext_lt (q r : region) : bool :=
  (rg_extent q <? rg_extent r)
  || ((rg_extent q =? rg_extent r) && (rg_offset q <? rg_offset r)).

Definition foff : skl :=
  Skl rl_foff RL_FOFF_TL rg_next rg_set_next rl_level_foff rl_set_level_foff foff_lt.
Definition fext : skl :=
  Skl rl_fext RL_FEXT_TL rg_prev rg_set_prev rl_level_fext rl_set_level_fext fext_lt.

Definition sk_blkof (s : skl) (rp : gmap Z region) (p : Z) : res Z :=
  let! r := rd rp p in Ok (sk_blk s r).

Definition sk_before (s : skl) (rp : gmap Z region) (rep : region) (q : Z) : res bool :=
  let! r := rd rp q in Ok (sk_lt s r rep).

(** The body of [rl_foff_add()] and [rl_fext_add()]. *)
Definition sk_add (s : skl) (rl : regionl) (f : fb) (g : rng) (rlix : Z) :
    res (Z * regionl * fb * rng) :=
  let! rep := rd (rl_rp rl) rlix in
  assert! fb_magic f =? FB_MAGIC in
  let! '(upd, _, _) := sl_search (sk_blkof s (rl_rp rl)) (rl_fuel rl)
                         (sk_before s (rl_rp rl) rep) (fb_fblks f)
                         (Z.to_nat (sk_level s rl)) (sk_hd s rl) ∅ in
  let '(k, g) := fb_ranlev f g in
  let raise := sk_level s rl <? k in
  let k := if raise then sk_level s rl + 1 else k in
  let upd := if raise then <[k := sk_hd s rl]> upd else upd in
  let rl := if raise then sk_set_level s rl k else rl in
  let! '(blk, f) := fb_get f k in
  let! rp := wr (rl_rp rl) rlix (sk_set_blk s rep blk) in
  let rl := rl_set_rp rl rp in
  if blk =? FBLK_NONE then Ok (PQ_SYSTEM, rl, f, g)
  else
    let! m := sl_link (sk_blkof s rp) (Z.to_nat k) (fb_fblks f) upd rlix in
    Ok (0, rl, fb_set_fblks f m, g).

Definition rl_foff_add := sk_add foff.
Definition rl_fext_add := sk_add fext.

(** The body of [rl_foff_del()] and [rl_fext_del()]: [chk] are the assertions on
    the first region of a level, [fin] those after the search and [eqk] the test
    for the region to be deleted. *)
Definition sk_del (s : skl) (chk fin : Z → res unit) (eqk : region → region → bool)
    (rl : regionl) (f : fb) (rlix : Z) : res (regionl * fb) :=
  let! rep := rd (rl_rp rl) rlix in
  assert! fb_magic f =? FB_MAGIC in
  let m := sk_level s rl in
  let! '(upd, _, q) := sl_search_chk (sk_blkof s (rl_rp rl)) (rl_fuel rl) chk
                         (sk_before s (rl_rp rl) rep) (fb_fblks f)
                         (Z.to_nat m) (sk_hd s rl) ∅ in
  let! _ := fin q in
  let! sqp := rd (rl_rp rl) q in
  if eqk sqp rep then
    let! '(fm, k) := sl_unlink (sk_blkof s (rl_rp rl)) (Z.to_nat (m + 1)) 0
                       (fb_fblks f) upd q in
    let! f := fb_rel (fb_set_fblks f fm) k (sk_blk s sqp) in
    let! lev := sl_shrink (sk_blkof s (rl_rp rl)) (Z.to_nat m) (fb_fblks f)
                  (sk_hd s rl) (sk_tl s) in
    Ok (sk_set_level s rl lev, f)
  else Ok (rl, f).

(** [(q == TL) || (head < q && q < rl->nalloc + RL_FREE_OVERHEAD)] *)
Definition sk_index_ok (s : skl) (rl : regionl) (q : Z) : bool :=
  (q =? sk_tl s) || ((sk_hd s rl <? q) && (q <? rl_nalloc rl + RL_FREE_OVERHEAD)).

Definition rl_foff_del (rl : regionl) : fb → Z → res (regionl * fb) :=
  let chk q := log_assert (sk_index_ok foff rl q) in
  sk_del foff chk chk (λ q r, rg_offset q =? rg_offset r) rl.

Definition rl_fext_del (rl : regionl) : fb → Z → res (regionl * fb) :=
  let chk q :=
    assert! sk_index_ok fext rl q in
    let! sqp := rd (rl_rp rl) q in
    log_assert (0 <? rg_extent sqp) in
  sk_del fext chk (λ _, Ok ()) (λ q r, rg_extent q =? rg_extent r) rl.

(** The search of [rl_foff_prev()] and [rl_fext_prev()]. *)
Definition sk_prev (s : skl) (rl : regionl) (f : fb) (rlix : Z) : res Z :=
  let! rep := rd (rl_rp rl) rlix in
  assert! IsFree rep in
  assert! fb_magic f =? FB_MAGIC in
  let! '(_, p, _) := sl_search (sk_blkof s (rl_rp rl)) (rl_fuel rl)
                       (sk_before s (rl_rp rl) rep) (fb_fblks f)
                       (Z.to_nat (sk_level s rl)) (sk_hd s rl) ∅ in
  Ok p.

Definition rl_foff_prev (rl : regionl) (f : fb) (rlix : Z) : res Z :=
  let! spix := sk_prev foff rl f rlix in
  let! rep := rd (rl_rp rl) rlix in
  let! left := rd (rl_rp rl) spix in
  assert! IsFree left in
  assert! rg_offset left <? rg_offset rep in
  Ok spix.

Definition rl_fext_prev (rl : regionl) (f : fb) (rlix : Z) : res Z :=
  let! spix := sk_prev fext rl f rlix in
  let! rep := rd (rl_rp rl) rlix in
  let! left := rd (rl_rp rl) spix in
  assert! IsFree left in
  assert! rg_extent left <=? rg_extent rep in
  Ok spix.

Definition rl_foff_next (rl : regionl) (f : fb) (rlix : Z) : res Z :=
  let! rep := rd (rl_rp rl) rlix in
  assert! IsFree rep in
  assert! fb_magic f =? FB_MAGIC in
  let! rnix := rd (fb_fblks f) (rg_next rep) in
  let! rght := rd (rl_rp rl) rnix in
  assert! IsFree rght in
  assert! rg_offset rep <? rg_offset rght in
  Ok rnix.

Definition rl_maxfextent_of (rl : regionl) (f : fb) : res Z :=
  let! rmix := rl_fext_prev rl f RL_FEXT_TL in
  let! rmp := rd (rl_rp rl) rmix in
  Ok (rg_extent rmp).

Definition rl_fext_find (rl : regionl) (f : fb) (extent : Z) : res Z :=
  assert! fb_magic f =? FB_MAGIC in
  let before q := let! sqp := rd (rl_rp rl) q in Ok (rg_extent sqp <? extent) in
  let! '(_, _, q) := sl_search (sk_blkof fext (rl_rp rl)) (rl_fuel rl) before (fb_fblks f)
                       (Z.to_nat (rl_level_fext rl)) (rl_fext rl) ∅ in
  Ok q.

(** ** Allocation and release of regions *)

Definition rl_HasSpace (rl : regionl) : bool := 0 <? rl_nempty rl.

Definition rl_get (rl : regionl) (f : fb) (extent : Z) : res (Z * regionl * fb) :=
  if rl_maxfextent rl <? extent then Ok (RL_NONE, rl, f)
  else
    let! sqbest := rl_fext_find rl f extent in
    if sqbest =? RL_FEXT_TL then Ok (RL_NONE, rl, f)
    else
      let! '(rl, f) := rl_foff_del rl f sqbest in
      let! '(rl, f) := rl_fext_del rl f sqbest in
      let rl := rl_set_nfree rl (u64 (rl_nfree rl - 1)) (rl_maxfree rl) in
      let! rep := rd (rl_rp rl) sqbest in
      let! rl :=
        if rg_extent rep =? rl_maxfextent rl then
          let! mx := rl_maxfextent_of rl f in Ok (rl_set_maxfextent rl mx)
        else Ok rl in
      let n := u64 (rl_nelems rl + 1) in
      let rl := rl_set_nelems rl n (if rl_maxelems rl <? n then n else rl_maxelems rl) in
      Ok (sqbest, rl, f).

Definition rl_rel (rl : regionl) (f : fb) (g : rng) (rlix : Z) : res (Z * regionl * fb * rng) :=
  let! '(status, rl, f, g) := rl_foff_add rl f g rlix in
  if negb (status =? 0) then Ok (status, rl, f, g)
  else
    let! '(status, rl, f, g) := rl_fext_add rl f g rlix in
    if negb (status =? 0) then
      let! '(rl, f) := rl_foff_del rl f rlix in Ok (status, rl, f, g)
    else Ok (0, rl_set_nfree rl (u64 (rl_nfree rl + 1)) (rl_maxfree rl), f, g).

(** Both branches of [rl_consolidate()]: region [a] absorbs region [b], which
    follows it.  The outcome of [rl_fext_add()] is ignored. *)
Definition rl_merge (rl : regionl) (f : fb) (g : rng) (a b : Z) : res (regionl * fb * rng) :=
  let! '(rl, f) := rl_fext_del rl f a in
  let! ra := rd (rl_rp rl) a in
  let! rb := rd (rl_rp rl) b in
  let! rp := wr (rl_rp rl) a (rg_set_extent ra (u64 (rg_extent ra + rg_extent rb))) in
  let! '(_, rl, f, g) := rl_fext_add (rl_set_rp rl rp) f g a in
  let rl := rl_set_nfree rl (u64 (rl_nfree rl - 1)) (rl_maxfree rl) in
  let! '(rl, f) := rl_foff_del rl f b in
  let! '(rl, f) := rl_fext_del rl f b in
  let! rl := rp_rel rl b in
  Ok (rl, f, g).

(** [a->offset + a->extent == b->offset], in [size_t]. *)
Definition mergeable (ra rb : region) : bool :=
  u64 (rg_offset ra + rg_extent ra) =? u64 (rg_offset rb).

Definition rl_consolidate (rl : regionl) (f : fb) (g : rng) (rpix : Z) :
    res (regionl * fb * rng) :=
  let! rghtix := rl_foff_next rl f rpix in
  let! leftix := rl_foff_prev rl f rpix in
  let! '(rl, f, g) :=
    if negb (rghtix =? RL_FOFF_TL) then
      let! rep := rd (rl_rp rl) rpix in
      let! rght := rd (rl_rp rl) rghtix in
      if mergeable rep rght then rl_merge rl f g rpix rghtix else Ok (rl, f, g)
    else Ok (rl, f, g) in
  let! '(rl, f, g, repix) :=
    if negb (leftix =? RL_FOFF_HD) then
      let! left := rd (rl_rp rl) leftix in
      let! rep := rd (rl_rp rl) rpix in
      if mergeable left rep then
        let! '(rl, f, g) := rl_merge rl f g leftix rpix in Ok (rl, f, g, leftix)
      else Ok (rl, f, g, rpix)
    else Ok (rl, f, g, rpix) in
  let! rep := rd (rl_rp rl) repix in
  let rl := if rl_maxfextent rl <? rg_extent rep
            then rl_set_maxfextent rl (rg_extent rep) else rl in
  Ok (rl, f, g).

(** [log_assert(rl->nelems + rl->nfree + rl->nempty == rl->nalloc)] *)
Definition rl_balanced (rl : regionl) : bool :=
  u64 (rl_nelems rl + rl_nfree rl + rl_nempty rl) =? rl_nalloc rl.

Definition rl_note_maxfree (rl : regionl) : regionl :=
  if rl_maxfree rl <? rl_nfree rl then rl_set_nfree rl (rl_nfree rl) (rl_nfree rl) else rl.

(** [None] is the null pointer. *)
Definition rl_add (rl : regionl) (f : fb) (g : rng) (offset extent : Z) :
    res (option Z * regionl * fb * rng) :=
  let! '(rpix, rl) := rp_get rl in
  if rpix =? RL_NONE then Ok (None, rl, f, g)
  else
    assert! rl_nelems rl <? rl_nalloc rl in
    let! rep := rd (rl_rp rl) rpix in
    let! rp := wr (rl_rp rl) rpix (Region offset extent (rg_next rep) (rg_prev rep)) in
    let! '(status, rl, f, g) := rl_rel (rl_set_rp rl rp) f g rpix in
    if negb (status =? 0) then
      let! rl := rp_rel rl rpix in Ok (None, rl, f, g)
    else
      let rl := rl_note_maxfree rl in
      assert! rl_balanced rl in
      Ok (Some rpix, rl, f, g).

Definition rl_split (rl : regionl) (f : fb) (g : rng) (rlix extent : Z) :
    res (Z * regionl * fb * rng) :=
  let! low := rd (rl_rp rl) rlix in
  assert! IsFree low in
  assert! extent <=? rg_extent low in
  let rem := rg_extent low - extent in
  let newoff := rg_offset low + extent in
  let! '(new, rl, f, g) := rl_add rl f g newoff rem in
  match new with
  | Some new =>
      let! r := rd (rl_rp rl) new in
      assert! IsFree r in
      let! low := rd (rl_rp rl) rlix in
      let! rp := wr (rl_rp rl) rlix (rg_set_extent low extent) in
      let rl := rl_set_rp rl rp in
      let rl := if rl_maxfextent rl <? rem then rl_set_maxfextent rl rem else rl in
      Ok (0, rl, f, g)
  | None => Ok (ENOMEM, rl, f, g)
  end.

(** The outcome of [rl_rel()] is ignored here and in [rl_free()]. *)
Definition rl_put (rl : regionl) (f : fb) (g : rng) (rlix : Z) : res (regionl * fb * rng) :=
  assert! rlix <? rl_nalloc rl in
  let rl := rl_set_nelems rl (u64 (rl_nelems rl - 1)) (rl_maxelems rl) in
  let! '(_, rl, f, g) := rl_rel rl f g rlix in
  let! '(rl, f, g) := rl_consolidate rl f g rlix in
  let rl := rl_note_maxfree rl in
  assert! rl_balanced rl in
  Ok (rl, f, g).

Definition rl_free (rl : regionl) (f : fb) (g : rng) (rpix : Z) : res (regionl * fb * rng) :=
  let! rep := rd (rl_rp rl) rpix in
  let! rp := wr (rl_rp rl) rpix (clear_IsAlloc rep) in
  let rl := rl_set_rp rl rp in
  let rl := rl_set_nbytes rl (u64 (rl_nbytes rl - rg_extent (clear_IsAlloc rep)))
              (rl_maxbytes rl) in
  let! rl := rlhash_del rl rpix in
  let rl := rl_set_nelems rl (u64 (rl_nelems rl - 1)) (rl_maxelems rl) in
  let! '(_, rl, f, g) := rl_rel rl f g rpix in
  let! '(rl, f, g) := rl_consolidate rl f g rpix in
  let rl := rl_note_maxfree rl in
  assert! rl_balanced rl in
  Ok (rl, f, g).

(** ** Initialisation *)

(** [rl_foff_init()] and [rl_fext_init()]: the slots of head and tail of each
    list, and the links of the head. *)
Definition rl_foff_init (rl : regionl) (f : fb) : res (regionl * fb) :=
  let! '(b0, f) := fb_get f (fb_maxsize f - 1) in
  let! rp := wr (rl_rp rl) RL_FOFF_HD (Region 0 0 b0 0) in
  let! '(b1, f) := fb_get f 0 in
  let! rp := wr rp RL_FOFF_TL (Region huge_off_t 0 b1 0) in
  let! m := fill_block (Z.to_nat (fb_maxsize f)) (fb_fblks f) b0 0 RL_FOFF_TL in
  let '(Regionl a b c d e f' g h i j k l _ _ o p _ q r) := rl in
  Ok (Regionl a b c d e f' g h i j k l 0 RL_FOFF_HD o p rp q r, fb_set_fblks f m).

Definition rl_fext_init (rl : regionl) (f : fb) : res (regionl * fb) :=
  let! '(b0, f) := fb_get f (fb_maxsize f - 1) in
  let! rp := wr (rl_rp rl) RL_FEXT_HD (Region 0 0 0 b0) in
  let! '(b1, f) := fb_get f 0 in
  let! rp := wr rp RL_FEXT_TL (rg_set_prev (clear_IsAlloc (Region 0 MAX_SIZE_T 0 0)) b1) in
  let! m := fill_block (Z.to_nat (fb_maxsize f)) (fb_fblks f) b0 0 RL_FEXT_TL in
  let '(Regionl a b c d e f' g h i j k l n o _ _ _ q r) := rl in
  Ok (Regionl a b c d e f' g h i j k l n o 0 RL_FEXT_HD rp q r, fb_set_fblks f m).

Definition rl_init (nalloc : Z) (f : fb) : res (regionl * fb) :=
  assert! fb_magic f =? FB_MAGIC in
  let! nchains := rlhash_nchains nalloc in
  let rl := Regionl nalloc nchains RL_EMPTY_HD 0 0 0 0 0 nalloc nalloc 0 0 0 0 0 0
              (arr_tabulate (nalloc + RL_FREE_OVERHEAD)
                 (λ i, if i <? RL_EMPTY_HD then Region 0 0 0 0 else rp_init_slot nalloc i))
              RL_MAGIC (arr_tabulate nchains (λ _, RL_NONE)) in
  let! '(rl, f) := rl_foff_init rl f in
  let! '(rl, f) := rl_fext_init rl f in
  assert! rl_balanced rl in
  Ok (rl, f).
