(* ===== verification/RegionSkip.v ===== *)
(** * The skip lists of free regions are ordered lists

    [rl_foff_add()], [rl_foff_del()], [rl_foff_next()], [rl_foff_prev()] and their
    counterparts by extent, as operations on an ordered list of slots.  The class
    [SkLaws] says what the two sets of members ([skl]) have in common; every
    lemma is proved once, against it. *)

From S2P Require Import Prelude NumTheory Fb SkipList RegionList.

(** The keys: by offset, and by extent and then offset. *)
Definition foff_key (r : region) : Z * Z := (rg_offset r, 0).
Definition fext_key (r : region) : Z * Z := (rg_extent r, rg_offset r).

Class SkLaws (s : skl) (key : region → Z * Z) : Prop := {
  sk_lt_key q r : sk_lt s q r = lex_ltb (key q) (key r);
  sk_blk_set r b : sk_blk s (sk_set_blk s r b) = b;
  sk_key_set r b : key (sk_set_blk s r b) = key r;
  sk_level_set rl v : sk_level s (sk_set_level s rl v) = v;
  sk_level_id rl : sk_set_level s rl (sk_level s rl) = rl;
  sk_level_rp rl v : rl_rp (sk_set_level s rl v) = rl_rp rl;
  sk_level_hd rl v : sk_hd s (sk_set_level s rl v) = sk_hd s rl;
  sk_level_nalloc rl v : rl_nalloc (sk_set_level s rl v) = rl_nalloc rl;
  sk_rp_level rl rp : sk_level s (rl_set_rp rl rp) = sk_level s rl;
  sk_rp_hd rl rp : sk_hd s (rl_set_rp rl rp) = sk_hd s rl;
  sk_rp_comm rl rp v : rl_set_rp (sk_set_level s rl v) rp = sk_set_level s (rl_set_rp rl rp) v;
}.

#[global] Instance foff_laws : SkLaws foff foff_key.
Proof.
  split; try (intros []; done).
  intros q r. unfold lex_ltb. simpl. unfold foff_lt.
  by rewrite Z.ltb_irrefl, andb_false_r, orb_false_r.
Qed.

#[global] Instance fext_laws : SkLaws fext fext_key.
Proof. split; try (intros []; done). Qed.

Lemma rl_rp_set rl rp : rl_rp (rl_set_rp rl rp) = rp.
Proof. by destruct rl. Qed.

Lemma rl_nalloc_set_rp rl rp : rl_nalloc (rl_set_rp rl rp) = rl_nalloc rl.
Proof. by destruct rl. Qed.

(** The key of a slot. *)
Definition nkey (key : region → Z * Z) (rp : gmap Z region) (n : Z) : Z * Z :=
  default (0, 0) (key <$> rp !! n).

Lemma nkey_at key rp n r : rp !! n = Some r → nkey key rp n = key r.
Proof. unfold nkey. by intros ->. Qed.

(** [ns] are the slots on the list, in order. *)
Record sk_inv (s : skl) (key : region → Z * Z) (rl : regionl) (f : fb) (U : gmap Z Z)
    (ns : list Z) : Prop := {
  ki_rep : sl_rep (sk_blkof s (rl_rp rl)) f U (sk_hd s rl) (sk_tl s) (sk_level s rl) ns;
  ki_sorted : StronglySorted (node_lt lex_ltb (nkey key (rl_rp rl))) ns;
  ki_dom n : n ∈ sk_tl s :: ns → is_Some (rl_rp rl !! n);
  ki_tail n : n ∈ ns →
    lex_ltb (nkey key (rl_rp rl) n) (nkey key (rl_rp rl) (sk_tl s)) = true;
  ki_len : (length ns < rl_fuel rl)%nat;
}.

Section skip.
Context (s : skl) (key : region → Z * Z) `{HL : !SkLaws s key}.
Context (rl : regionl) (f : fb) (U V : gmap Z Z) (ns : list Z).
Context (Hinv : sk_inv s key rl f U ns).
Context (Hown : fb_own f (U ∪ V)) (HUV : U ##ₘ V).
Abbreviation rp := (rl_rp rl).
Abbreviation blkof := (sk_blkof s rp).
Abbreviation hd := (sk_hd s rl).
Abbreviation tl := (sk_tl s).
Abbreviation lo v := (below lex_ltb (nkey key rp) v ns).
Abbreviation hi v := (above lex_ltb (nkey key rp) v ns).

Lemma sk_before_at rep n :
  n ∈ tl :: ns → sk_before s rp rep n = Ok (lex_ltb (nkey key rp n) (key rep)).
Proof.
  intros [r Hr]%(ki_dom _ _ _ _ _ _ Hinv). unfold sk_before.
  by rewrite (rd_Ok _ _ _ Hr), bind_Ok, (nkey_at _ _ _ _ Hr), (sk_lt_key (s := s)).
Qed.

Lemma sk_split v : ns = lo v ++ hi v.
Proof. apply sorted_split; [apply _|]. apply (ki_sorted _ _ _ _ _ _ Hinv). Qed.

Lemma sk_rep_split v : sl_rep blkof f U hd tl (sk_level s rl) (lo v ++ hi v).
Proof. rewrite <- sk_split. apply (ki_rep _ _ _ _ _ _ Hinv). Qed.

(** A search by a test that agrees with the order on keys. *)
Lemma sk_search_by before v upd :
  (∀ n, n ∈ ns → before n = Ok (lex_ltb (nkey key rp n) v)) → before tl = Ok false →
  ∃ upd', sl_search blkof (rl_fuel rl) before (fb_fblks f) (Z.to_nat (sk_level s rl)) hd upd =
      Ok (upd', last_or hd (lo v), head_or tl (hi v)) ∧
    ∀ j, 0 ≤ j ≤ sk_level s rl →
      upd' !! j = Some (last_or hd (lvl (sl_ht blkof U) j (lo v))).
Proof.
  intros Hb Ht. apply sl_search_spec; [apply sk_rep_split| | |done|].
  - intros n [Hn ?]%elem_of_below. by rewrite Hb, Hn.
  - intros n [Hn ?]%elem_of_above. by rewrite Hb, Hn.
  - rewrite <- sk_split. apply (ki_len _ _ _ _ _ _ Hinv).
Qed.

Lemma sk_search_spec rep upd :
  lex_ltb (nkey key rp tl) (key rep) = false →
  ∃ upd', sl_search blkof (rl_fuel rl) (sk_before s rp rep) (fb_fblks f)
            (Z.to_nat (sk_level s rl)) hd upd =
      Ok (upd', last_or hd (lo (key rep)), head_or tl (hi (key rep))) ∧
    ∀ j, 0 ≤ j ≤ sk_level s rl →
      upd' !! j = Some (last_or hd (lvl (sl_ht blkof U) j (lo (key rep)))).
Proof.
  intros Htl. apply sk_search_by.
  - intros n Hn. apply sk_before_at. by constructor.
  - rewrite sk_before_at by constructor. by rewrite Htl.
Qed.

(** [rl_foff_prev()], [rl_fext_prev()]: the last slot of a smaller key. *)
Lemma sk_prev_spec n rep :
  rp !! n = Some rep → IsFree rep = true → lex_ltb (nkey key rp tl) (key rep) = false →
  sk_prev s rl f n = Ok (last_or hd (lo (key rep))).
Proof.
  intros Hn Hf Htl. unfold sk_prev. rewrite (rd_Ok _ _ _ Hn), bind_Ok, assert_Ok by done.
  rewrite bind_Ok, assert_Ok by by eapply fb_own_magic. rewrite bind_Ok.
  destruct (sk_search_spec rep ∅ Htl) as (upd & -> & _). done.
Qed.

(** Slots that are not on the list may change, and so may the other members. *)
Lemma sk_inv_ext rl' f' :
  (∀ n, n ∈ hd :: tl :: ns → ∃ r r', rp !! n = Some r ∧ rl_rp rl' !! n = Some r' ∧
     sk_blk s r' = sk_blk s r ∧ key r' = key r) →
  sk_hd s rl' = hd → sk_level s rl' = sk_level s rl → rl_nalloc rl' = rl_nalloc rl →
  fb_maxsize f' = fb_maxsize f → keeps U f f' →
  sk_inv s key rl' f' U ns.
Proof using Hinv.
  clear HUV Hown V HL.
  intros Hn Hhd Hlv Hna Hm Hk.
  assert (∀ n, n ∈ tl :: ns → nkey key (rl_rp rl') n = nkey key rp n) as Hkey.
  { intros n Hin. destruct (Hn n) as (r & r' & Hr & Hr' & _ & He); [by right|].
    by rewrite (nkey_at _ _ _ _ Hr), (nkey_at _ _ _ _ Hr'), He. }
  destruct Hinv. split.
  - rewrite Hhd, Hlv. eapply sl_rep_ext; [exact ki_rep0|done| |].
    + intros n Hin. destruct (Hn n) as (r & r' & Hr & Hr' & He & _); [set_solver|].
      unfold sk_blkof. by rewrite (rd_Ok _ _ _ Hr), (rd_Ok _ _ _ Hr'), !bind_Ok, He.
    + intros x b z _ _ Hb. split; [done|]. intros c Hc. by eapply Hk.
  - eapply sorted_ext; [|exact ki_sorted0]. intros n Hin. apply Hkey. by right.
  - intros n Hin. destruct (Hn n) as (r & r' & _ & Hr' & _); [by right|]. by rewrite Hr'.
  - intros n Hin. rewrite !Hkey by (by constructor). auto.
  - unfold rl_fuel in *. by rewrite Hna.
Qed.
End skip.

Lemma sk_blkof_upd s rp n r x : x ≠ n → sk_blkof s (<[n := r]> rp) x = sk_blkof s rp x.
Proof. intros. unfold sk_blkof, rd. by rewrite lookup_insert_ne. Qed.

Lemma nkey_upd key rp n r x : x ≠ n → nkey key (<[n := r]> rp) x = nkey key rp x.
Proof. intros. unfold nkey. by rewrite lookup_insert_ne. Qed.

(** ** Insertion *)

Section add.
Context (s : skl) (key : region → Z * Z) `{HL : !SkLaws s key}.
Context (rl : regionl) (f : fb) (U V : gmap Z Z) (ns : list Z).
Context (Hinv : sk_inv s key rl f U ns).
Context (Hown : fb_own f (U ∪ V)) (HUV : U ##ₘ V).
Context (n : Z) (rep : region).
Context (Hn : rl_rp rl !! n = Some rep) (Hni : n ∉ sk_hd s rl :: sk_tl s :: ns).
Context (Hnew : ∀ x, x ∈ ns → nkey key (rl_rp rl) x ≠ key rep).
Context (Htl : lex_ltb (key rep) (nkey key (rl_rp rl) (sk_tl s)) = true).
Context (Hlen : (S (length ns) < rl_fuel rl)%nat).
Abbreviation lo := (below lex_ltb (nkey key (rl_rp rl)) (key rep) ns).
Abbreviation hi := (above lex_ltb (nkey key (rl_rp rl)) (key rep) ns).

(** The list with slot [n], whose member now names block [b]. *)
Lemma sk_inv_insert b f' U' lev :
  let rl' := sk_set_level s (rl_set_rp rl (<[n := sk_set_blk s rep b]> (rl_rp rl))) lev in
  sl_rep (sk_blkof s (rl_rp rl')) f' U' (sk_hd s rl) (sk_tl s) lev (lo ++ n :: hi) →
  sk_inv s key rl' f' U' (lo ++ n :: hi).
Proof.
  intros rl' Hrep.
  assert (rl_rp rl' = <[n := sk_set_blk s rep b]> (rl_rp rl)) as Hrp.
  { unfold rl'. by rewrite (sk_level_rp (s := s)), rl_rp_set. }
  assert (nkey key (rl_rp rl') n = key rep) as Hkn.
  { rewrite Hrp. erewrite nkey_at by apply lookup_insert_eq. apply (sk_key_set (s := s)). }
  assert (∀ x, x ∈ sk_tl s :: ns → nkey key (rl_rp rl') x = nkey key (rl_rp rl) x) as Hold.
  { intros x Hx. rewrite Hrp. apply nkey_upd. set_solver. }
  pose proof (sk_split _ _ _ _ _ _ Hinv (key rep)) as Hns.
  assert (∀ x, x ∈ lo ++ n :: hi → x = n ∨ x ∈ ns) as Hcase.
  { intros x [[_ ?]%elem_of_below|[->|[_ ?]%elem_of_above]%elem_of_cons]%elem_of_app; auto. }
  destruct Hinv. split.
  - unfold rl' at 2 3. rewrite (sk_level_hd (s := s)), (sk_level_set (s := s)).
    by rewrite (sk_rp_hd (s := s)).
  - apply sorted_insert.
    + rewrite <- Hns. eapply sorted_ext; [|exact ki_sorted0]. intros x Hx. apply Hold. by right.
    + intros x [Hx Hin]%elem_of_below. unfold node_lt. rewrite Hkn, Hold by (by right). done.
    + intros x [Hx Hin]%elem_of_above. unfold node_lt. rewrite Hkn, Hold by (by right).
      destruct (lex_ltb (key rep) (nkey key (rl_rp rl) x)) eqn:Hc; [done|].
      exfalso. apply (Hnew x Hin). by apply (ltb_total (ltb := lex_ltb)).
  - intros x Hx. rewrite Hrp, lookup_insert. case_decide; [eauto|]. apply ki_dom0.
    apply elem_of_cons in Hx as [->|Hx]; [constructor|]. right.
    destruct (Hcase x Hx); [congruence|done].
  - intros x Hx. rewrite (Hold (sk_tl s)) by constructor.
    destruct (Hcase x Hx) as [->|Hin]; [by rewrite Hkn|]. rewrite Hold by (by right). auto.
  - apply (f_equal length) in Hns. rewrite length_app in *. simpl. unfold rl_fuel in *.
    unfold rl'. rewrite (sk_level_nalloc (s := s)), rl_nalloc_set_rp. lia.
Qed.

(** Linking slot [n] at level [k] once it has a block. *)
Lemma sk_link_spec k b f1 upd :
  0 ≤ k ≤ sk_level s rl + 1 → k < fb_maxsize f → fb_got f (U ∪ V) (k + 1) b f1 →
  (∀ j, 0 ≤ j ≤ sk_level s rl →
     upd !! j = Some (last_or (sk_hd s rl)
                        (lvl (sl_ht (sk_blkof s (rl_rp rl)) U) j lo))) →
  let rp' := <[n := sk_set_blk s rep b]> (rl_rp rl) in
  let upd' := if sk_level s rl <? k then <[k := sk_hd s rl]> upd else upd in
  ∃ m, sl_link (sk_blkof s rp') (Z.to_nat k) (fb_fblks f1) upd' n = Ok m ∧
    sk_inv s key (sk_set_level s (rl_set_rp rl rp') (Z.max (sk_level s rl) k))
      (fb_set_fblks f1 m) (<[b := k + 1]> U) (lo ++ n :: hi) ∧
    fb_own (fb_set_fblks f1 m) (<[b := k + 1]> U ∪ V) ∧ <[b := k + 1]> U ##ₘ V ∧
    fb_maxsize f1 = fb_maxsize f ∧ keeps V f (fb_set_fblks f1 m).
Proof.
  intros Hk Hkm Hgot Hupd rp' upd'.
  pose proof (sk_split _ _ _ _ _ _ Hinv (key rep)) as Hns.
  destruct (sl_insert_spec (sk_blkof s (rl_rp rl)) (sk_blkof s rp') f f1 U V (sk_hd s rl)
    (sk_tl s) (sk_level s rl) lo hi n b k upd') as (m & Hlink & Ho & Hd & Hrep & Hm & Hke).
  - rewrite <- Hns. apply (ki_rep _ _ _ _ _ _ Hinv).
  - done.
  - done.
  - unfold sk_blkof, rp'. erewrite rd_Ok by apply lookup_insert_eq.
    by rewrite bind_Ok, (sk_blk_set (s := s)).
  - rewrite <- Hns. intros x Hx. apply sk_blkof_upd. set_solver.
  - by rewrite <- Hns.
  - lia.
  - intros j Hj. unfold upd'. destruct (Z.ltb_spec (sk_level s rl) k); [|apply Hupd; lia].
    rewrite lookup_insert. case_decide as Hjk; [|apply Hupd; lia].
    rewrite lvl_nil; [done|]. intros x [_ Hx]%elem_of_below.
    pose proof (sl_ht_node _ _ _ _ _ _ _ (ki_rep _ _ _ _ _ _ Hinv) x Hx). lia.
  - exists m. split_and!; [done| |done..]. apply sk_inv_insert.
    by rewrite (sk_level_rp (s := s)), rl_rp_set.
Qed.

(** The slots of the list do not notice a change of slot [n]. *)
Lemma sk_inv_other r' lev :
  sk_level s rl ≤ lev < fb_maxsize f →
  sk_inv s key (sk_set_level s (rl_set_rp rl (<[n := r']> (rl_rp rl))) lev) f U ns.
Proof.
  intros Hlev.
  assert (∀ x, x ∈ sk_tl s :: ns → nkey key (<[n := r']> (rl_rp rl)) x = nkey key (rl_rp rl) x) as Hold.
  { intros x Hx. apply nkey_upd. set_solver. }
  destruct Hinv. split; rewrite ?(sk_level_rp (s := s)), ?rl_rp_set.
  - rewrite (sk_level_hd (s := s)), (sk_level_set (s := s)), (sk_rp_hd (s := s)).
    eapply sl_rep_ext; [|done| |eauto].
    + eapply sl_rep_raise; [exact ki_rep0|done].
    + intros x Hx. apply sk_blkof_upd. set_solver.
  - eapply sorted_ext; [|exact ki_sorted0]. intros x Hx. apply Hold. by right.
  - intros x Hx. rewrite lookup_insert_ne; [auto|set_solver].
  - intros x Hx. rewrite !Hold by (by constructor). auto.
  - unfold rl_fuel in *. by rewrite (sk_level_nalloc (s := s)), rl_nalloc_set_rp.
Qed.

(** The result of a successful insertion, by a block [b]. *)
Definition sk_added (b : Z) (rl' : regionl) (f' : fb) (U' : gmap Z Z) : Prop :=
  (∃ lev, rl' = sk_set_level s (rl_set_rp rl (<[n := sk_set_blk s rep b]> (rl_rp rl))) lev) ∧
  sk_inv s key rl' f' U' (lo ++ n :: hi) ∧ fb_own f' (U' ∪ V) ∧ U' ##ₘ V ∧
  fb_maxsize f' = fb_maxsize f ∧ keeps V f f' ∧ fb_spare f - 1 ≤ fb_spare f'.

Lemma sk_add_spec g :
  ∃ st rl' f' g' b, sk_add s rl f g n = Ok (st, rl', f', g') ∧
    ((st = 0 ∧ ∃ U', sk_added b rl' f' U') ∨
     (st = PQ_SYSTEM ∧ fb_spare f ≤ 0 ∧ f' = f ∧ sk_inv s key rl' f U ns ∧
      ∃ lev, rl' = sk_set_level s (rl_set_rp rl (<[n := sk_set_blk s rep b]> (rl_rp rl))) lev)).
Proof.
  pose proof (fb_own_max _ _ Hown) as Hmax.
  pose proof (sr_lev _ _ _ _ _ _ _ (ki_rep _ _ _ _ _ _ Hinv)) as Hlev.
  unfold sk_add. rewrite (rd_Ok _ _ _ Hn), bind_Ok, assert_Ok by by eapply fb_own_magic.
  rewrite bind_Ok.
  destruct (sk_search_spec _ _ _ _ _ _ Hinv rep ∅) as (upd & -> & Hupd);
    [by apply ltb_asym; [apply _|]|]. rewrite bind_Ok.
  destruct (fb_ranlev f g) as [k0 g'] eqn:Hr.
  assert (0 ≤ k0 < fb_maxsize f) as Hk0.
  { replace k0 with (fb_ranlev f g).1 by by rewrite Hr. apply fb_ranlev_range. lia. }
  set (k := if sk_level s rl <? k0 then sk_level s rl + 1 else k0).
  assert (0 ≤ k ≤ sk_level s rl + 1 ∧ k < fb_maxsize f ∧
          (sk_level s rl <? k0) = (sk_level s rl <? k)) as (Hk1 & Hk2 & Hk3).
  { unfold k. destruct (Z.ltb_spec (sk_level s rl) k0); split_and!; lia. }
  rewrite Hk3.
  assert ((if sk_level s rl <? k then sk_set_level s rl k else rl) =
          sk_set_level s rl (Z.max (sk_level s rl) k)) as ->.
  { destruct (Z.ltb_spec (sk_level s rl) k).
    - by rewrite Z.max_r by lia.
    - by rewrite Z.max_l, (sk_level_id (s := s)) by lia. }
  destruct (fb_get_spec f (U ∪ V) Hown k ltac:(lia)) as [(b & f1 & Hg & Hb & Hgot)|[Hg Hz]].
  - assert (fb_spare f - 1 ≤ fb_spare f1) as Hsp.
    { destruct (decide (0 < fb_spare f)) as [Hpos|Hneg].
      - destruct (fb_get_spare f _ k Hown ltac:(lia) Hpos) as (b' & f1' & Hg' & _ & _ & ?).
        congruence.
      - pose proof (fb_spare_nonneg f1 _ (proj1 (proj2 Hgot))). lia. }
    rewrite Hg, bind_Ok, (sk_level_rp (s := s)), wr_Ok, bind_Ok by eauto.
    rewrite (proj2 (Z.eqb_neq _ _) Hb), (sk_rp_comm (s := s)).
    destruct (sk_link_spec k b f1 upd Hk1 Hk2 Hgot Hupd) as (m & Hl & Hi & Ho & Hd & Hm & Hke).
    rewrite Hl, bind_Ok. eexists 0, _, _, _, b. split; [done|]. left. split; [done|].
    exists (<[b := k + 1]> U). unfold sk_added. split_and!; eauto.
  - rewrite Hg, bind_Ok, (sk_level_rp (s := s)), wr_Ok, bind_Ok by eauto.
    rewrite Z.eqb_refl, (sk_rp_comm (s := s)).
    eexists _, _, _, _, FBLK_NONE. split; [done|]. right. split_and!; [done| |done| |eauto].
    + unfold fb_spare. rewrite Hz by lia. done.
    + apply sk_inv_other. lia.
Qed.
End add.

(** ** Deletion *)

Section del.
Context (s : skl) (key : region → Z * Z) `{HL : !SkLaws s key}.
Context (rl : regionl) (f : fb) (U V : gmap Z Z) (l1 l2 : list Z) (q : Z) (rep : region).
Abbreviation ns := (l1 ++ q :: l2).
Context (Hinv : sk_inv s key rl f U ns).
Context (Hown : fb_own f (U ∪ V)) (HUV : U ##ₘ V).
Context (Hq : rl_rp rl !! q = Some rep).

Lemma sk_del_spec chk fin eqk :
  (∀ x, x ∈ sk_tl s :: ns → chk x = Ok ()) → fin q = Ok () → eqk rep rep = true →
  ∃ lev f' U', sk_del s chk fin eqk rl f q = Ok (sk_set_level s rl lev, f') ∧
    sk_inv s key (sk_set_level s rl lev) f' U' (l1 ++ l2) ∧
    fb_own f' (U' ∪ V) ∧ U' ##ₘ V ∧ fb_maxsize f' = fb_maxsize f ∧ keeps V f f' ∧
    fb_spare f' = fb_spare f.
Proof.
  intros Hchk Hfin Heq. pose proof (ki_rep _ _ _ _ _ _ Hinv) as Hrep.
  pose proof (sr_lev _ _ _ _ _ _ _ Hrep) as Hlev. pose proof (nkey_at key _ _ _ Hq) as Hkq.
  destruct (sorted_at _ _ _ _ _ (ki_sorted _ _ _ _ _ _ Hinv)) as [Hlt Hge].
  unfold sk_del. rewrite (rd_Ok _ _ _ Hq), bind_Ok, assert_Ok by by eapply fb_own_magic.
  rewrite bind_Ok.
  destruct (sl_search_chk_spec _ f U _ _ _ l1 (q :: l2) Hrep (sk_before s (rl_rp rl) rep)
    (rl_fuel rl)) with (chk := chk) (upd := ∅ : gmap Z Z) as (upd & Hs & Hupd).
  - intros n Hn. rewrite (sk_before_at _ _ _ _ _ _ Hinv) by set_solver. by rewrite <- Hkq, Hlt.
  - intros n Hn. rewrite (sk_before_at _ _ _ _ _ _ Hinv) by set_solver. by rewrite <- Hkq, Hge.
  - rewrite (sk_before_at _ _ _ _ _ _ Hinv) by constructor. rewrite <- Hkq. f_equal.
    apply ltb_asym; [apply _|]. apply (ki_tail _ _ _ _ _ _ Hinv). set_solver.
  - apply (ki_len _ _ _ _ _ _ Hinv).
  - done.
  - rewrite Hs, bind_Ok. unfold head_or. simpl head. simpl default.
    rewrite Hfin, bind_Ok, (rd_Ok _ _ _ Hq), bind_Ok, Heq.
    destruct (sl_delete_spec _ f U V _ _ _ l1 l2 q upd Hrep Hown HUV Hupd)
      as (m & z & b & f' & Hun & Hbq & HUb & Hrel & Ho & Hd & Hrep' & Hm & Hke).
    rewrite Hun, bind_Ok.
    unfold sk_blkof in Hbq. rewrite (rd_Ok _ _ _ Hq), bind_Ok in Hbq. injection Hbq as ->.
    rewrite Hrel, bind_Ok.
    destruct (sl_shrink_spec _ _ _ _ _ _ _ Hrep') as (lev & -> & Hrep2). rewrite bind_Ok.
    exists lev, f', (delete b U). split_and!; [done| |done..|].
    + destruct Hinv. split; rewrite ?(sk_level_rp (s := s)), ?(sk_level_hd (s := s)),
        ?(sk_level_set (s := s)).
      * done.
      * by eapply sorted_delete.
      * intros n Hn. apply ki_dom0. set_solver.
      * intros n Hn. apply ki_tail0. set_solver.
      * unfold rl_fuel in *. rewrite (sk_level_nalloc (s := s)).
        rewrite length_app in *. simpl in *. lia.
    + by apply fb_rel_spare in Hrel as [_ ->].
Qed.
End del.

(** ** The two lists together

    A step on one of the lists leaves the other alone: their blocks are
    disjoint, and the member that one uses for its block is neither the block
    nor part of the key of the other. *)

Class SkPair (s1 s2 : skl) (key2 : region → Z * Z) : Prop := {
  sp_blk r b : sk_blk s2 (sk_set_blk s1 r b) = sk_blk s2 r;
  sp_key r b : key2 (sk_set_blk s1 r b) = key2 r;
  sp_level rl v : sk_level s2 (sk_set_level s1 rl v) = sk_level s2 rl;
  sp_hd rl v : sk_hd s2 (sk_set_level s1 rl v) = sk_hd s2 rl;
}.

#[global] Instance foff_fext_pair : SkPair foff fext fext_key.
Proof. split; by intros []. Qed.

#[global] Instance fext_foff_pair : SkPair fext foff foff_key.
Proof. split; by intros []. Qed.

(** All members but the table and the levels. *)
Definition rl_frame (rl : regionl) : regionl :=
  rl_set_level_fext (rl_set_level_foff (rl_set_rp rl ∅) 0) 0.

Class SkFrame (s : skl) : Prop := sk_frame rl v : rl_frame (sk_set_level s rl v) = rl_frame rl.

#[global] Instance foff_frame : SkFrame foff.
Proof. by intros []. Qed.

#[global] Instance fext_frame : SkFrame fext.
Proof. by intros []. Qed.

Lemma rl_frame_rp rl rp : rl_frame (rl_set_rp rl rp) = rl_frame rl.
Proof. by destruct rl. Qed.

Section two.
Context (s1 s2 : skl) (k1 k2 : region → Z * Z).

(** [V] are the blocks of the other users of the arena. *)
Definition sk2 (rl : regionl) (f : fb) (V : gmap Z Z) (ns1 ns2 : list Z) : Prop :=
  ∃ U1 U2, sk_inv s1 k1 rl f U1 ns1 ∧ sk_inv s2 k2 rl f U2 ns2 ∧
    fb_own f (U1 ∪ (U2 ∪ V)) ∧ U1 ##ₘ U2 ∪ V ∧ U2 ##ₘ V.
End two.

Lemma sk2_sym s1 s2 k1 k2 rl f V ns1 ns2 :
  sk2 s1 s2 k1 k2 rl f V ns1 ns2 → sk2 s2 s1 k2 k1 rl f V ns2 ns1.
Proof.
  intros (U1 & U2 & H1 & H2 & Hown & Hd1 & Hd2). exists U2, U1.
  apply map_disjoint_union_r in Hd1 as [Hd12 Hd1]. split_and!; [done..| | |done].
  - rewrite (assoc_L (∪)), (map_union_comm U2 U1) by done. by rewrite <- (assoc_L (∪)).
  - by apply map_disjoint_union_r.
Qed.

Lemma sk2_maxsize s1 s2 k1 k2 rl f V ns1 ns2 :
  sk2 s1 s2 k1 k2 rl f V ns1 ns2 → 1 ≤ fb_maxsize f < MAXLEVELS.
Proof. intros (U1 & U2 & _ & _ & Hown & _). by eapply fb_own_max. Qed.

Section two_steps.
Context (s1 s2 : skl) (k1 k2 : region → Z * Z) `{!SkLaws s1 k1, !SkLaws s2 k2}.
Context `{!SkPair s1 s2 k2, !SkFrame s1}.
Context (rl : regionl) (f : fb) (V : gmap Z Z) (ns1 ns2 : list Z).
Context (Hinv : sk2 s1 s2 k1 k2 rl f V ns1 ns2).
Abbreviation rp := (rl_rp rl).

(** The other list, when slot [n] gets a block of the first. *)
Lemma sk2_other U2 n rep b lev f' :
  sk_inv s2 k2 rl f U2 ns2 → is_Some (rp !! sk_hd s2 rl) → rp !! n = Some rep →
  fb_maxsize f' = fb_maxsize f → keeps U2 f f' →
  sk_inv s2 k2 (sk_set_level s1 (rl_set_rp rl (<[n := sk_set_blk s1 rep b]> rp)) lev) f' U2 ns2.
Proof.
  intros H2 Hhd Hn Hm Hk. eapply (sk_inv_ext s2 k2 rl f U2 ns2 H2); [ | | | |done|done].
  - intros x Hx. assert (is_Some (rp !! x)) as [r Hr].
    { apply elem_of_cons in Hx as [->|Hx]; [done|]. by apply (ki_dom _ _ _ _ _ _ H2). }
    exists r. rewrite (sk_level_rp (s := s1)), rl_rp_set, lookup_insert. case_decide as Hc.
    + subst x. exists (sk_set_blk s1 rep b). rewrite Hn in Hr. injection Hr as <-.
      split_and!; [done..|apply (sp_blk (s1 := s1))|apply (sp_key (s1 := s1))].
    + eauto.
  - by rewrite (sp_hd (s1 := s1)), (sk_rp_hd (s := s2)).
  - by rewrite (sp_level (s1 := s1)), (sk_rp_level (s := s2)).
  - by rewrite (sk_level_nalloc (s := s1)), rl_nalloc_set_rp.
Qed.

Lemma sk2_add n rep g :
  rp !! n = Some rep → n ∉ sk_hd s1 rl :: sk_tl s1 :: ns1 →
  (∀ x, x ∈ ns1 → nkey k1 rp x ≠ k1 rep) →
  lex_ltb (k1 rep) (nkey k1 rp (sk_tl s1)) = true →
  (S (length ns1) < rl_fuel rl)%nat → is_Some (rp !! sk_hd s2 rl) → 0 < fb_spare f →
  ∃ rl' f' g' b, sk_add s1 rl f g n = Ok (0, rl', f', g') ∧
    rl_rp rl' = <[n := sk_set_blk s1 rep b]> rp ∧ rl_frame rl' = rl_frame rl ∧
    sk2 s1 s2 k1 k2 rl' f' V (below lex_ltb (nkey k1 rp) (k1 rep) ns1 ++ n ::
                              above lex_ltb (nkey k1 rp) (k1 rep) ns1) ns2 ∧
    fb_maxsize f' = fb_maxsize f ∧ keeps V f f' ∧ fb_spare f - 1 ≤ fb_spare f'.
Proof.
  intros Hn Hni Hnew Htl Hlen Hhd Hsp.
  destruct Hinv as (U1 & U2 & H1 & H2 & Hown & Hd1 & Hd2).
  destruct (sk_add_spec s1 k1 rl f U1 (U2 ∪ V) ns1 H1 Hown Hd1 n rep Hn Hni Hnew Htl Hlen g)
    as (st & rl' & f' & g' & b & Hadd & [(-> & U1' & Hadded)|(_ & ? & _)]); [|lia].
  destruct Hadded as ((lev & ->) & Hi & Ho & Hd & Hm & Hk & Hs).
  eexists _, f', g', b. split_and!; [done|..|done].
  - by rewrite (sk_level_rp (s := s1)), rl_rp_set.
  - rewrite (sk_frame (s := s1)). apply rl_frame_rp.
  - exists U1', U2. split_and!; [done| |done..]. apply sk2_other; [done..|].
    eapply keeps_mono; [|done]. by apply map_union_subseteq_l.
  - done.
  - eapply keeps_mono; [|done]. by apply map_union_subseteq_r.
Qed.

Lemma sk2_del l1 l2 q rep chk fin eqk :
  ns1 = l1 ++ q :: l2 → rp !! q = Some rep → is_Some (rp !! sk_hd s2 rl) →
  (∀ x, x ∈ sk_tl s1 :: ns1 → chk x = Ok ()) → fin q = Ok () → eqk rep rep = true →
  ∃ lev f', sk_del s1 chk fin eqk rl f q = Ok (sk_set_level s1 rl lev, f') ∧
    sk2 s1 s2 k1 k2 (sk_set_level s1 rl lev) f' V (l1 ++ l2) ns2 ∧
    fb_maxsize f' = fb_maxsize f ∧ keeps V f f' ∧ fb_spare f' = fb_spare f.
Proof.
  intros Hns Hq Hhd Hchk Hfin Heq.
  destruct Hinv as (U1 & U2 & H1 & H2 & Hown & Hd1 & Hd2). rewrite Hns in H1, Hchk.
  destruct (sk_del_spec s1 k1 rl f U1 (U2 ∪ V) l1 l2 q rep H1 Hown Hd1 Hq chk fin eqk Hchk
    Hfin Heq) as (lev & f' & U1' & Hdel & Hi & Ho & Hd & Hm & Hk & Hs).
  exists lev, f'. split_and!; [done| |done| |done].
  - exists U1', U2. split_and!; [done| |done..].
    eapply (sk_inv_ext s2 k2 rl f U2 ns2 H2); [ | | | |done|].
    + intros x Hx. rewrite (sk_level_rp (s := s1)).
      assert (is_Some (rp !! x)) as [r Hr]; [|eauto 10].
      apply elem_of_cons in Hx as [->|Hx]; [done|]. by apply (ki_dom _ _ _ _ _ _ H2).
    + by rewrite (sp_hd (s1 := s1)).
    + by rewrite (sp_level (s1 := s1)).
    + by rewrite (sk_level_nalloc (s := s1)).
    + eapply keeps_mono; [|done]. by apply map_union_subseteq_l.
  - eapply keeps_mono; [|done]. by apply map_union_subseteq_r.
Qed.
End two_steps.
