(* ===== verification/RegionHash.v ===== *)
(** * The hash table of regions in use

    [rlhash_add()], [rlhash_del()] and [rl_find()] keep and search chains that
    are doubly linked through [prev] and [next].  [hash_inv rl us] says that the
    chains hold exactly the slots [us], each in the chain of its offset. *)

From S2P Require Import Prelude NumTheory Fb SkipList RegionList RegionSkip.

(** From index [h], whose predecessor is [prv], the chain visits [l] and arrives
    at [nxt]. *)
Fixpoint dseg (rp : gmap Z region) (prv h : Z) (l : list Z) (nxt : Z) : Prop :=
  match l with
  | [] => h = nxt
  | n :: l => h = n ∧ ∃ r, rp !! n = Some r ∧ rg_prev r = prv ∧ dseg rp n (rg_next r) l nxt
  end.

Definition rg_off (rp : gmap Z region) (n : Z) : Z := default OFF_NONE (rg_offset <$> rp !! n).

Record hash_inv (rl : regionl) (us : list Z) : Prop := {
  hi_magic : rl_magic rl = RL_MAGIC;
  hi_nchains : 0 < rl_nchains rl;
  hi_nodup : NoDup us;
  hi_index n : n ∈ us → 0 ≤ n < RL_NONE;
  hi_len : (length us < rl_fuel rl)%nat;
  hi_dom n : n ∈ us → is_Some (rl_rp rl !! n);
  hi_chain c : 0 ≤ c < rl_nchains rl → ∃ h l,
    rl_chains rl !! c = Some h ∧ dseg (rl_rp rl) RL_NONE h l RL_NONE ∧ NoDup l ∧
    ∀ n, n ∈ l ↔ n ∈ us ∧ rl_hash (rl_nchains rl) (rg_off (rl_rp rl) n) = c;
}.

(** Slot [n] holds a region marked as in use. *)
Definition in_use (rp : gmap Z region) (n : Z) : Prop :=
  ∃ r, rp !! n = Some r ∧ IsAlloc r = true.

(** Only links of [us] differ between two tables. *)
Definition links_only (us : list Z) (rp rp' : gmap Z region) : Prop :=
  (∀ n, n ∉ us → rp' !! n = rp !! n) ∧
  (∀ n r, rp !! n = Some r → ∃ r', rp' !! n = Some r' ∧
     rg_offset r' = rg_offset r ∧ rg_extent r' = rg_extent r).

Lemma links_only_refl us rp : links_only us rp rp.
Proof. split; eauto. Qed.

Lemma links_only_trans us rp1 rp2 rp3 :
  links_only us rp1 rp2 → links_only us rp2 rp3 → links_only us rp1 rp3.
Proof.
  intros [H1 H1'] [H2 H2']. split.
  - intros n Hn. by rewrite H2, H1.
  - intros n r Hr. destruct (H1' n r Hr) as (r2 & Hr2 & ? & ?).
    destruct (H2' n r2 Hr2) as (r3 & Hr3 & ? & ?). exists r3. split_and!; congruence.
Qed.

Lemma links_only_upd us rp n r r' :
  n ∈ us → rp !! n = Some r → rg_offset r' = rg_offset r → rg_extent r' = rg_extent r →
  links_only us rp (<[n := r']> rp).
Proof.
  intros Hn Hr Ho He. split.
  - intros x Hx. rewrite lookup_insert_ne; [done|congruence].
  - intros x rx Hx. rewrite lookup_insert. case_decide; [|eauto]. simplify_eq. eauto.
Qed.

Lemma links_only_off us rp rp' n r :
  links_only us rp rp' → rp !! n = Some r → rg_off rp' n = rg_off rp n.
Proof.
  intros [_ H] Hr. destruct (H n r Hr) as (r' & Hr' & Ho & _). unfold rg_off.
  rewrite Hr, Hr'. simpl. congruence.
Qed.

(** *** Chains *)

Lemma dseg_app rp prv h l1 l2 nxt :
  dseg rp prv h (l1 ++ l2) nxt ↔
  ∃ m, dseg rp prv h l1 m ∧ dseg rp (last_or prv l1) m l2 nxt.
Proof.
  revert prv h. induction l1 as [|n l1 IH]; intros prv h; simpl.
  - split; [eauto|]. by intros (m & -> & ?).
  - rewrite last_or_cons. setoid_rewrite IH. naive_solver.
Qed.

Lemma dseg_ext rp rp' prv h l nxt :
  (∀ n, n ∈ l → rp' !! n = rp !! n) → dseg rp prv h l nxt → dseg rp' prv h l nxt.
Proof.
  revert prv h. induction l as [|n l IH]; intros prv h Hx; simpl; [done|].
  intros (-> & r & Hr & Hp & Hd). split; [done|]. exists r.
  rewrite Hx by constructor. split_and!; [done..|]. apply IH; [|done].
  intros. apply Hx. by constructor.
Qed.

(** Redirecting what a non-empty segment arrives at. *)
Lemma dseg_set_next rp prv h l p m m' r :
  NoDup (l ++ [p]) → rp !! p = Some r → dseg rp prv h (l ++ [p]) m →
  dseg (<[p := rg_set_next r m']> rp) prv h (l ++ [p]) m'.
Proof.
  intros Hnd Hr. rewrite !dseg_app. intros (x & Hl & -> & r' & Hr' & Hp & _).
  exists p. split.
  - eapply dseg_ext; [|done]. intros n Hn. apply lookup_insert_ne. intros <-.
    apply NoDup_app in Hnd as (_ & Hd & _). apply (Hd _ Hn). constructor.
  - split; [done|]. exists (rg_set_next r m'). rewrite lookup_insert_eq.
    simplify_eq. done.
Qed.

(** Redirecting where the first of a segment comes from. *)
Lemma dseg_set_prev rp prv prv' h n l nxt r :
  NoDup (n :: l) → rp !! n = Some r → dseg rp prv h (n :: l) nxt →
  dseg (<[n := rg_set_prev r prv']> rp) prv' h (n :: l) nxt.
Proof.
  intros Hnd Hr (-> & r' & Hr' & Hp & Hd). rewrite Hr in Hr'. injection Hr' as <-.
  split; [done|]. exists (rg_set_prev r prv'). rewrite lookup_insert_eq. split_and!; [done..|].
  eapply dseg_ext; [|done]. intros x Hx. apply lookup_insert_ne. intros <-.
  by apply NoDup_cons in Hnd as [? _].
Qed.

Lemma rl_hash_range nchains off : 0 < nchains → 0 ≤ rl_hash nchains off < nchains.
Proof. intros. unfold rl_hash. apply Z.mod_pos_bound. lia. Qed.

(** ** [rl_find()] *)

Lemma rl_find_loop_spec fuel rp offset prv h l :
  (∀ n, n ∈ l → 0 ≤ n < RL_NONE ∧ in_use rp n) →
  dseg rp prv h l RL_NONE → (length l < fuel)%nat →
  rl_find_loop fuel rp offset h =
    Ok (default RL_NONE (head (filter (λ n, rg_off rp n = offset) l))).
Proof.
  revert fuel prv h. induction l as [|n l IH]; intros fuel prv h Hl Hd Hf.
  - simpl in Hd. subst h. destruct fuel as [|fuel]; [simpl in Hf; lia|]. simpl. done.
  - destruct Hd as (-> & r & Hr & Hp & Hd). destruct fuel as [|fuel]; [simpl in Hf; lia|].
    cbn [rl_find_loop]. destruct (Hl n) as (Hn & r' & Hr' & Ha); [constructor|].
    rewrite Hr in Hr'. injection Hr' as <-.
    rewrite (proj2 (Z.eqb_neq _ _)) by lia. rewrite (rd_Ok _ _ _ Hr), bind_Ok.
    assert (rg_off rp n = rg_offset r) as Ho by (unfold rg_off; by rewrite Hr).
    destruct (Z.eqb_spec offset (rg_offset r)) as [Heq|Hne].
    + rewrite assert_Ok, bind_Ok by done. rewrite filter_cons_True by congruence. done.
    + rewrite filter_cons_False by congruence. eapply IH; [|done|simpl in Hf; lia].
      intros. apply Hl. by constructor.
Qed.

(** [rl_find()] returns a slot of [us] with that offset, and [RL_NONE] if there is none. *)
Lemma rl_find_spec rl us offset :
  hash_inv rl us → (∀ n, n ∈ us → in_use (rl_rp rl) n) →
  ∃ ix, rl_find rl offset = Ok ix ∧
    ((ix ∈ us ∧ rg_off (rl_rp rl) ix = offset) ∨
     (ix = RL_NONE ∧ ∀ n, n ∈ us → rg_off (rl_rp rl) n ≠ offset)).
Proof.
  intros Hinv Hal. pose proof Hinv as []. unfold rl_find.
  rewrite assert_Ok, bind_Ok by (rewrite hi_magic0; done).
  pose proof (rl_hash_range (rl_nchains rl) offset hi_nchains0) as Hc.
  destruct (hi_chain0 _ Hc) as (h & l & Hh & Hd & Hnd & Hin).
  rewrite (rd_Ok _ _ _ Hh), bind_Ok.
  rewrite (rl_find_loop_spec _ _ _ RL_NONE h l); [|..|done|].
  - eexists. split; [done|].
    destruct (filter (λ n, rg_off (rl_rp rl) n = offset) l) as [|n l'] eqn:Hf; simpl.
    + right. split; [done|]. intros n Hn Ho.
      assert (n ∈ filter (λ n, rg_off (rl_rp rl) n = offset) l) as Hx.
      { apply list_elem_of_filter. split; [done|]. apply Hin. by rewrite Ho. }
      rewrite Hf in Hx. by apply elem_of_nil in Hx.
    + left. assert (n ∈ filter (λ n, rg_off (rl_rp rl) n = offset) l) as Hx
        by (rewrite Hf; constructor).
      apply list_elem_of_filter in Hx as [Ho Hx]. apply Hin in Hx as [? _]. done.
  - intros n [Hn _]%Hin. split; [by apply hi_index0|by apply Hal].
  - apply Nat.le_lt_trans with (length us); [|done].
    apply NoDup_incl_length; [by apply NoDup_ListNoDup|].
    intros n. rewrite <- !list_elem_of_In, Hin. by intros [? _].
Qed.

(** ** Updates *)

Lemma links_only_alloc us rp rp' n :
  links_only us rp rp' → in_use rp n → in_use rp' n.
Proof.
  intros [_ H] (r & Hr & Ha). destruct (H n r Hr) as (r' & Hr' & _ & He). exists r'. split; [done|].
  unfold IsAlloc in *. by rewrite He.
Qed.

(** The table after chain [c] became [l'], which starts at [h']: [us'] differs
    from [us] in members of chain [c] only. *)
Lemma hash_inv_chain rl us us' rp' c h' l' :
  hash_inv rl us → NoDup us' → (∀ n, n ∈ us' → 0 ≤ n < RL_NONE) →
  (length us' < rl_fuel rl)%nat →
  (∀ n, n ∈ us' → is_Some (rl_rp rl !! n)) →
  links_only (us ++ us') (rl_rp rl) rp' →
  dseg rp' RL_NONE h' l' RL_NONE → NoDup l' →
  (∀ n, n ∈ l' ↔ n ∈ us' ∧ rl_hash (rl_nchains rl) (rg_off (rl_rp rl) n) = c) →
  (∀ n, rl_hash (rl_nchains rl) (rg_off (rl_rp rl) n) ≠ c → (n ∈ us' ↔ n ∈ us)) →
  (∀ n, n ∈ us → rl_hash (rl_nchains rl) (rg_off (rl_rp rl) n) ≠ c →
        rp' !! n = rl_rp rl !! n) →
  hash_inv (rl_set_chains (rl_set_rp rl rp') (<[c := h']> (rl_chains rl))) us'.
Proof.
  intros Hinv Hnd Hix Hlen Hal Hlo Hd Hndl Hl' Hus Hsame.
  assert (∀ n, n ∈ us' → rg_off rp' n = rg_off (rl_rp rl) n) as Hoff.
  { intros n [r Hr]%Hal. by eapply links_only_off. }
  destruct Hinv. destruct rl. simpl in *. split; simpl; try done.
  - intros n [r Hr]%Hal. destruct Hlo as [_ Hlo]. destruct (Hlo n r Hr) as (r' & -> & _). eauto.
  - intros c' Hc'. rewrite lookup_insert. case_decide as Hd'.
    + subst c'. exists h', l'. split_and!; [done..|].
      intros n. rewrite Hl'. split; intros [Hn Hh]; (split; [done|]); by rewrite Hoff in *.
    + destruct (hi_chain0 c' Hc') as (h & l & Hh & Hdl & Hndl' & Hin). exists h, l.
      split_and!; [done| |done|].
      * eapply dseg_ext; [|done]. intros n [Hn Hc]%Hin. apply Hsame; [done|congruence].
      * intros n. rewrite Hin. split.
        -- intros [Hn Hc]. assert (n ∈ us') as Hn' by (apply Hus; congruence).
           by rewrite Hoff.
        -- intros [Hn Hc]. rewrite Hoff in Hc by done. split; [apply Hus; congruence|done].
Qed.

Lemma rlhash_add_spec rl us n r :
  hash_inv rl us → (∀ x, x ∈ us → in_use (rl_rp rl) x) → n ∉ us → 0 ≤ n < RL_NONE → (S (length us) < rl_fuel rl)%nat →
  rl_rp rl !! n = Some r → IsAlloc r = true →
  ∃ rp' ch', rlhash_add rl n = Ok (rl_set_chains (rl_set_rp rl rp') ch') ∧
    links_only (n :: us) (rl_rp rl) rp' ∧
    hash_inv (rl_set_chains (rl_set_rp rl rp') ch') (n :: us).
Proof.
  intros Hinv Hal Hn Hix Hlen Hr Ha. pose proof Hinv as []. unfold rlhash_add.
  rewrite assert_Ok, bind_Ok by (rewrite hi_magic0; done).
  rewrite (rd_Ok _ _ _ Hr), bind_Ok, assert_Ok, bind_Ok by done.
  set (c := rl_hash (rl_nchains rl) (rg_offset r)).
  assert (rg_off (rl_rp rl) n = rg_offset r) as Ho by (unfold rg_off; by rewrite Hr).
  destruct (hi_chain0 c) as (h & l & Hh & Hd & Hnd & Hin); [by apply rl_hash_range|].
  rewrite (rd_Ok _ _ _ Hh), bind_Ok.
  assert (n ∉ l) as Hnl by (by intros [? _]%Hin).
  assert (∃ rp1, (if negb (h =? RL_NONE) then
            let! rnp := rd (rl_rp rl) h in assert! IsAlloc rnp in
            wr (rl_rp rl) h (rg_set_prev rnp n) else Ok (rl_rp rl)) = Ok rp1 ∧
          links_only us (rl_rp rl) rp1 ∧ rp1 !! n = Some r ∧ dseg rp1 n h l RL_NONE ∧
          ∀ x, x ∉ l → rp1 !! x = rl_rp rl !! x) as (rp1 & -> & Hlo & Hn1 & Hd1 & Hx1).
  { destruct l as [|y l].
    - simpl in Hd. subst h. rewrite Z.eqb_refl. exists (rl_rp rl). split_and!; try done.
      apply links_only_refl.
    - assert (y ∈ us) as Hy by (apply (Hin y); constructor).
      pose proof Hd as (-> & _). destruct (Hal y Hy) as (ry & Hry & Hay).
      rewrite (proj2 (Z.eqb_neq _ _)) by (apply hi_index0 in Hy; lia).
      simpl negb. cbv iota. rewrite (rd_Ok _ _ _ Hry), bind_Ok, assert_Ok, bind_Ok, wr_Ok by eauto.
      eexists. split_and!; [done| | | |].
      + by eapply links_only_upd.
      + rewrite lookup_insert_ne; [done|set_solver].
      + by eapply dseg_set_prev.
      + intros x Hx. apply lookup_insert_ne. set_solver. }
  rewrite bind_Ok, (rd_Ok _ _ _ Hn1), bind_Ok, wr_Ok, bind_Ok, wr_Ok, bind_Ok by eauto.
  eexists _, _. split; [done|].
  set (rp' := <[n := _]> rp1).
  assert (links_only (n :: us) (rl_rp rl) rp') as Hlo'.
  { eapply links_only_trans.
    - destruct Hlo as [H1 H2]. split; [|exact H2]. intros x Hx. apply H1. set_solver.
    - eapply links_only_upd; [constructor|done..]. }
  split; [done|].
  eapply (hash_inv_chain rl us (n :: us) rp' c n (n :: l)); [done| | |done| | | | | | |].
  - by constructor.
  - intros x [->|Hx]%elem_of_cons; [done|auto].
  - intros x [->|Hx]%elem_of_cons; [eauto|auto].
  - destruct Hlo' as [H1 H2]. split; [|exact H2]. intros x Hx. apply H1. set_solver.
  - split; [done|]. eexists. unfold rp'. rewrite lookup_insert_eq. split_and!; [done..|].
    eapply dseg_ext; [|exact Hd1]. intros x Hx. apply lookup_insert_ne. congruence.
  - by constructor.
  - intros x. rewrite !elem_of_cons, Hin. split.
    + intros [->|[Hx Hc]]; [split; [by left|by rewrite Ho]|split; [by right|done]].
    + intros [[->|Hx] Hc]; [by left|by right].
  - intros x Hx. rewrite elem_of_cons. split; [|by right]. intros [->|?]; [|done].
    by rewrite Ho in Hx.
  - intros x Hx Hc. unfold rp'. rewrite lookup_insert_ne by congruence. apply Hx1.
    rewrite Hin. by intros [_ ?].
Qed.

(** Taking slot [n] out of its chain. *)
Lemma dseg_unlink rp h l1 n l2 r :
  NoDup (l1 ++ n :: l2) → dseg rp RL_NONE h (l1 ++ n :: l2) RL_NONE → rp !! n = Some r →
  (∀ x, x ∈ l1 ++ n :: l2 → x ≠ RL_NONE) →
  rg_prev r = last_or RL_NONE l1 ∧ rg_next r = head_or RL_NONE l2 ∧
  (l1 = [] → h = n).
Proof.
  intros Hnd Hd Hr Hx. apply dseg_app in Hd as (m & H1 & -> & r' & Hr' & Hp & Hd).
  rewrite Hr in Hr'. injection Hr' as <-. split_and!; [done| |by intros ->].
  destruct l2; [done|]. by destruct Hd as (-> & _).
Qed.

Section del.
Context (rl : regionl) (us : list Z) (Hinv : hash_inv rl us).
Context (n h : Z) (l1 l2 : list Z) (r : region).
Context (Hal : ∀ x, x ∈ us → x ≠ n → in_use (rl_rp rl) x).
Context (Hr : rl_rp rl !! n = Some r) (Hnd : NoDup (l1 ++ n :: l2)).
Context (Hd : dseg (rl_rp rl) RL_NONE h (l1 ++ n :: l2) RL_NONE).
Context (Hus : ∀ x, x ∈ l1 ++ n :: l2 → x ∈ us).
Abbreviation c := (rl_hash (rl_nchains rl) (rg_offset r)).
Context (Hc : 0 ≤ c < rl_nchains rl) (Hh : rl_chains rl !! c = Some h).

Let h1 := match l1 with [] => head_or RL_NONE l2 | _ => h end.

Lemma del_links : rg_prev r = last_or RL_NONE l1 ∧ rg_next r = head_or RL_NONE l2 ∧ (l1 = [] → h = n).
Proof.
  apply dseg_unlink with (rl_rp rl); [done..|].
  intros x Hx%Hus%(hi_index _ _ Hinv). lia.
Qed.

(** The predecessor, or the head of the chain, is set to the successor. *)
Lemma del_step1 :
  ∃ rp1, (if negb (rg_prev r =? RL_NONE) then
            let! rpp := rd (rl_rp rl) (rg_prev r) in
            let! rp := wr (rl_rp rl) (rg_prev r) (rg_set_next rpp (rg_next r)) in
            Ok (rl_set_rp rl rp)
          else
            let! chains := wr (rl_chains rl) c (rg_next r) in
            Ok (rl_set_chains rl chains)) =
         Ok (rl_set_chains (rl_set_rp rl rp1) (<[c := h1]> (rl_chains rl))) ∧
    links_only us (rl_rp rl) rp1 ∧
    dseg rp1 RL_NONE h1 l1 (head_or RL_NONE l2) ∧ dseg rp1 n (head_or RL_NONE l2) l2 RL_NONE ∧
    (∀ x, x ∉ l1 → rp1 !! x = rl_rp rl !! x).
Proof.
  destruct del_links as (-> & -> & Hhn). pose proof Hd as (m & H1 & _ & r' & Hr' & _ & H2)%dseg_app.
  rewrite Hr in Hr'. injection Hr' as <-. rewrite (proj1 (proj2 del_links)) in H2.
  apply NoDup_app in Hnd as (Hnd1 & Hdis & [Hn2 Hnd2]%NoDup_cons).
  destruct l1 as [|x0 l0] eqn:Hl1 using rev_ind.
  - simpl negb. cbv iota. rewrite wr_Ok, bind_Ok by eauto.
    exists (rl_rp rl). split_and!; [by destruct rl|apply links_only_refl|done|done|done].
  - clear IHl0. rewrite last_or_snoc. rename x0 into p.
    assert (p ∈ us) as Hp by (apply Hus; set_solver).
    pose proof (hi_index _ _ Hinv p Hp). rewrite (proj2 (Z.eqb_neq p RL_NONE)) by lia.
    destruct (hi_dom _ _ Hinv p Hp) as [rpp Hrpp]. simpl negb. cbv iota.
    rewrite (rd_Ok _ _ _ Hrpp), bind_Ok, wr_Ok, bind_Ok by eauto.
    assert (h1 = h) as -> by (unfold h1; by destruct l0).
    exists (<[p := rg_set_next rpp (head_or RL_NONE l2)]> (rl_rp rl)).
    rewrite (insert_id (rl_chains rl) c h Hh). split_and!.
    + by destruct rl.
    + by eapply links_only_upd.
    + by eapply dseg_set_next.
    + eapply dseg_ext; [|done]. intros x Hx. apply lookup_insert_ne. intros <-.
      apply (Hdis p); set_solver.
    + intros x Hx. apply lookup_insert_ne. set_solver.
Qed.

Lemma del_run :
  ∃ rp', rlhash_del rl n = Ok (rl_set_chains (rl_set_rp rl rp') (<[c := h1]> (rl_chains rl))) ∧
    links_only us (rl_rp rl) rp' ∧ dseg rp' RL_NONE h1 (l1 ++ l2) RL_NONE ∧
    (∀ x, x ∉ l1 → x ∉ l2 → rp' !! x = rl_rp rl !! x).
Proof.
  destruct del_step1 as (rp1 & Hs1 & Hlo & H1 & H2 & Hx1).
  unfold rlhash_del. rewrite (rd_Ok _ _ _ Hr), bind_Ok, Hs1, bind_Ok.
  destruct del_links as (Hp & -> & _).
  apply NoDup_app in Hnd as (Hnd1 & Hdis & [Hn2 Hnd2]%NoDup_cons).
  destruct l2 as [|y l3] eqn:Hl2; unfold head_or; simpl.
  - exists rp1. split_and!; [done|done| |auto]. rewrite app_nil_r. done.
  - assert (y ∈ us) as Hy by (apply Hus; set_solver).
    pose proof (hi_index _ _ Hinv y Hy). rewrite (proj2 (Z.eqb_neq y RL_NONE)) by lia.
    destruct (links_only_alloc _ _ _ y Hlo) as (ry & Hry & Hay); [apply Hal; [done|set_solver]|].
    simpl negb. cbv iota.
    assert (rl_rp (rl_set_chains (rl_set_rp rl rp1) (<[c := h1]> (rl_chains rl))) = rp1) as ->
      by by destruct rl.
    rewrite (rd_Ok _ _ _ Hry), bind_Ok, assert_Ok, bind_Ok, wr_Ok, bind_Ok by eauto.
    eexists. split_and!; [by destruct rl| | |].
    + eapply links_only_trans; [done|]. by eapply links_only_upd.
    + apply dseg_app. exists y. split.
      * eapply dseg_ext; [|done]. intros x Hx. apply lookup_insert_ne. intros <-.
        apply (Hdis y); set_solver.
      * rewrite <- Hp. by eapply dseg_set_prev.
    + intros x Hxa Hxb. rewrite lookup_insert_ne by set_solver. auto.
Qed.
End del.

Lemma rlhash_del_spec rl us n r :
  hash_inv rl us → (∀ x, x ∈ us → x ≠ n → in_use (rl_rp rl) x) →
  n ∈ us → rl_rp rl !! n = Some r →
  ∃ rp' ch', rlhash_del rl n = Ok (rl_set_chains (rl_set_rp rl rp') ch') ∧
    links_only us (rl_rp rl) rp' ∧ rp' !! n = Some r ∧
    hash_inv (rl_set_chains (rl_set_rp rl rp') ch') (filter (λ x, x ≠ n) us).
Proof.
  intros Hinv Hal Hn Hr. pose proof Hinv as [].
  assert (rg_off (rl_rp rl) n = rg_offset r) as Ho by (unfold rg_off; by rewrite Hr).
  pose proof (rl_hash_range (rl_nchains rl) (rg_offset r) hi_nchains0) as Hc.
  destruct (hi_chain0 _ Hc) as (h & l & Hh & Hd & Hnd & Hin).
  assert (n ∈ l) as (l1 & l2 & Hl)%list_elem_of_split by (apply Hin; by rewrite Ho).
  rewrite Hl in Hd, Hnd.
  assert (∀ x, x ∈ l1 ++ n :: l2 → x ∈ us) as Hsub by (intros x; rewrite <- Hl, Hin; by intros [? _]).
  destruct (del_run rl us Hinv n h l1 l2 r Hal Hr Hnd Hd Hsub Hc Hh) as (rp' & Hrun & Hlo & Hd' & Hx).
  apply NoDup_app in Hnd as (Hnd1 & Hdis & [Hn2 Hnd2]%NoDup_cons).
  assert (n ∉ l1) as Hn1 by (intros Hx1; apply (Hdis n Hx1); constructor).
  eexists rp', _. split_and!; [exact Hrun|done|by rewrite Hx|].
  eapply (hash_inv_chain rl us _ rp' _ _ (l1 ++ l2)); try done.
  - by apply NoDup_filter.
  - intros x [_ Hx']%list_elem_of_filter. auto.
  - eapply Nat.le_lt_trans; [apply length_filter|done].
  - intros x [_ Hx']%list_elem_of_filter. auto.
  - destruct Hlo as [H1 H2]. split; [|exact H2]. intros x Hx'. apply H1. set_solver.
  - apply NoDup_app. split_and!; [done| |done]. intros x Hx1 Hx2. apply (Hdis x Hx1). by right.
  - intros x. rewrite list_elem_of_filter.
    assert (x ∈ l1 ++ l2 ↔ x ∈ l ∧ x ≠ n) as ->.
    { rewrite Hl, !elem_of_app, elem_of_cons. split; [|naive_solver].
      intros [?|?]; (split; [auto|congruence]). }
    rewrite Hin. naive_solver.
  - intros x Hx'. rewrite list_elem_of_filter. split; [naive_solver|]. intros Hxu. split; [|done].
    intros ->. by rewrite Ho in Hx'.
  - intros x Hxu Hxc. apply Hx; intros Hxl; apply Hxc;
      apply (Hin x); rewrite Hl; apply elem_of_app; [by left|right; by right].
Qed.

(** The table depends only on the links and offsets of its members. *)
Lemma hash_inv_ext rl rl' us :
  hash_inv rl us → rl_nalloc rl' = rl_nalloc rl → rl_nchains rl' = rl_nchains rl →
  rl_magic rl' = rl_magic rl → rl_chains rl' = rl_chains rl →
  (∀ n r, n ∈ us → rl_rp rl !! n = Some r → ∃ r', rl_rp rl' !! n = Some r' ∧
     rg_offset r' = rg_offset r ∧ rg_next r' = rg_next r ∧ rg_prev r' = rg_prev r) →
  hash_inv rl' us.
Proof.
  intros [] Hna Hnc Hmg Hch Hx.
  assert (∀ n, n ∈ us → rg_off (rl_rp rl') n = rg_off (rl_rp rl) n) as Hoff.
  { intros n Hn. destruct (hi_dom0 n Hn) as [r Hr]. destruct (Hx n r Hn Hr) as (r' & Hr' & Ho & _).
    unfold rg_off. rewrite Hr, Hr'. simpl. congruence. }
  assert (∀ prv h l nxt, (∀ n, n ∈ l → n ∈ us) → dseg (rl_rp rl) prv h l nxt →
    dseg (rl_rp rl') prv h l nxt) as Hds.
  { intros prv h l. revert prv h. induction l as [|n l IH]; intros prv h nxt Hl; simpl; [done|].
    intros (-> & r & Hr & Hp & Hd). split; [done|].
    destruct (Hx n r (Hl n ltac:(constructor)) Hr) as (r' & Hr' & _ & Hn & Hp'). exists r'.
    split_and!; [done|congruence|]. rewrite Hn. apply IH; [|done]. intros. apply Hl. by constructor. }
  split; rewrite ?Hna, ?Hnc, ?Hmg, ?Hch; try done.
  - unfold rl_fuel in *. by rewrite Hna.
  - intros n Hn. destruct (hi_dom0 n Hn) as [r Hr]. destruct (Hx n r Hn Hr) as (r' & -> & _). eauto.
  - intros c Hc. destruct (hi_chain0 c Hc) as (h & l & Hh & Hd & Hnd & Hin). exists h, l.
    split_and!; [done| |done|].
    + apply Hds; [|done]. intros n Hn. by apply Hin.
    + intros n. rewrite Hin. split; intros [Hn Hc']; (split; [done|]); by rewrite Hoff in *.
Qed.
