(* ===== verification/RegionAlloc.v ===== *)
(** * The region list as an allocator of the data segment

    [rl_inv] is the invariant of the region list: every slot is empty, free, in
    use or in transit (taken by [rl_get()], not yet hashed); the regions tile
    the data segment without gap or overlap; the skip lists hold exactly the
    free regions, the hash table exactly those in use; no two adjacent regions
    are free; the counters and the greatest free extent are exact.  The theorems
    say that [rl_get()] finds the best fit, that [rl_split()] cuts a region in two
    and that [rl_put()] and [rl_free()] return a region and restore maximal free
    regions. *)

From S2P Require Import Prelude NumTheory Fb SkipList RegionList RegionSkip RegionHash.

(** ** Flags in the extent *)

Lemma land_1 e : Z.land e 1 = e mod 2.
Proof. change 1 with (Z.ones 1). by rewrite Z.land_ones by lia. Qed.

Lemma ldiff_1 e : Z.ldiff e 1 = e - e mod 2.
Proof.
  change 1 with (Z.ones 1). rewrite Z.ldiff_ones_r by lia.
  rewrite Z.shiftl_mul_pow2, Z.shiftr_div_pow2 by lia.
  change (2 ^ 1) with 2. pose proof (Z.div_mod e 2). lia.
Qed.

Lemma lor_1 e : Z.lor e 1 = e + 1 - e mod 2.
Proof. pose proof (Z.add_lor_land e 1) as H. rewrite land_1 in H. lia. Qed.

Lemma IsFree_even r : IsFree r = true ↔ rg_extent r mod 2 = 0.
Proof. unfold IsFree, IsAlloc, ISALLOC. rewrite land_1, negb_involutive. apply Z.eqb_eq. Qed.

Lemma Extent_free r : IsFree r = true → Extent r = rg_extent r.
Proof. intros H%IsFree_even. unfold Extent, ISALLOC. rewrite ldiff_1. lia. Qed.

Lemma clear_IsAlloc_free r : IsFree (clear_IsAlloc r) = true ∧ Extent (clear_IsAlloc r) = Extent r.
Proof.
  assert (IsFree (clear_IsAlloc r) = true) as Hf.
  { apply IsFree_even. simpl. unfold ISALLOC. rewrite ldiff_1. div_lia. }
  split; [done|]. by rewrite Extent_free.
Qed.

Lemma set_IsAlloc_alloc r :
  IsAlloc (set_IsAlloc r) = true ∧ Extent (set_IsAlloc r) = Extent r.
Proof.
  unfold IsAlloc, Extent, ISALLOC. simpl. unfold ISALLOC.
  rewrite land_1, !ldiff_1, lor_1. split; [|div_lia].
  assert ((rg_extent r + 1 - rg_extent r mod 2) mod 2 = 1) as -> by div_lia. done.
Qed.

(** The extent of a slot's region, without the flag. *)
Definition rext (rp : gmap Z region) (n : Z) : Z := default 0 (Extent <$> rp !! n).

Lemma rext_at rp n r : rp !! n = Some r → rext rp n = Extent r.
Proof. unfold rext. by intros ->. Qed.

Lemma rg_off_at rp n r : rp !! n = Some r → rg_off rp n = rg_offset r.
Proof. unfold rg_off. by intros ->. Qed.

(** ** Tilings

    Adjacent regions, from [b] to [e]. *)

Section tiled.
Context (off ext : Z → Z).

Fixpoint tiled (b : Z) (ts : list Z) (e : Z) : Prop :=
  match ts with
  | [] => b = e
  | n :: ts => off n = b ∧ 0 < ext n ∧ tiled (b + ext n) ts e
  end.

Lemma tiled_app b l1 l2 e : tiled b (l1 ++ l2) e ↔ ∃ m, tiled b l1 m ∧ tiled m l2 e.
Proof.
  revert b. induction l1 as [|n l1 IH]; intros b; simpl.
  - split; [eauto|]. by intros (m & -> & ?).
  - setoid_rewrite IH. naive_solver.
Qed.

Lemma tiled_range b ts e :
  tiled b ts e → b ≤ e ∧ ∀ n, n ∈ ts → b ≤ off n ∧ 0 < ext n ∧ off n + ext n ≤ e.
Proof.
  revert b. induction ts as [|n ts IH]; intros b; simpl.
  - intros ->. split; [lia|]. by intros n ?%elem_of_nil.
  - intros (Hn & He & [Hle Hall]%IH). split; [lia|].
    intros x [->|Hx]%elem_of_cons; [lia|]. specialize (Hall x Hx). lia.
Qed.

(** Regions before and after a given one. *)
Lemma tiled_mid b l1 n l2 e :
  tiled b (l1 ++ n :: l2) e →
  (∀ x, x ∈ l1 → off x + ext x ≤ off n) ∧ 0 < ext n ∧ (∀ x, x ∈ l2 → off n + ext n ≤ off x) ∧
  tiled b l1 (off n) ∧ tiled (off n + ext n) l2 e.
Proof.
  intros (m & H1 & Hn & He & H2)%tiled_app. subst m. split_and!; [|done| |done|done].
  - intros x Hx. apply tiled_range in H1 as [_ H1]. specialize (H1 x Hx). lia.
  - intros x Hx. apply tiled_range in H2 as [_ H2]. specialize (H2 x Hx). lia.
Qed.

Lemma tiled_inj b ts e x y :
  tiled b ts e → NoDup ts → x ∈ ts → y ∈ ts → off x = off y → x = y.
Proof.
  intros Ht Hnd (l1 & l2 & ->)%list_elem_of_split Hy Ho.
  apply tiled_range in Ht as Hr. destruct Hr as [_ Hr].
  apply tiled_mid in Ht as (H1 & H0 & H2 & _).
  apply elem_of_app in Hy as [Hy|[->|Hy]%elem_of_cons]; [|done|].
  - specialize (H1 y Hy). destruct (Hr y ltac:(set_solver)) as (_ & ? & _). lia.
  - specialize (H2 y Hy). lia.
Qed.
End tiled.

Lemma tiled_ext off ext off' ext' b ts e :
  (∀ n, n ∈ ts → off' n = off n ∧ ext' n = ext n) → tiled off ext b ts e → tiled off' ext' b ts e.
Proof.
  revert b. induction ts as [|n ts IH]; intros b Hx; simpl; [done|].
  destruct (Hx n ltac:(constructor)) as [-> ->]. intros (? & ? & ?). split_and!; [done..|].
  apply IH; [|done]. intros. apply Hx. by constructor.
Qed.

(** No two adjacent members of [ts] are in [fs]. *)
Definition sep (fs ts : list Z) : Prop :=
  ∀ l1 x y l2, ts = l1 ++ x :: y :: l2 → x ∈ fs → y ∈ fs → False.

(** [m] is the greatest extent of [fs], 0 if there is none. *)
Definition exact_max (rp : gmap Z region) (fs : list Z) (m : Z) : Prop :=
  (∀ n, n ∈ fs → rext rp n ≤ m) ∧ (m = 0 ∧ fs = [] ∨ ∃ n, n ∈ fs ∧ rext rp n = m).

(** ** The invariant *)

(** Slots 0 to 3. *)
Record rl_ends (rl : regionl) : Prop := {
  re_nalloc : 0 < rl_nalloc rl < 2 ^ 32;
  re_foff : rl_foff rl = RL_FOFF_HD;
  re_fext : rl_fext rl = RL_FEXT_HD;
  re_dom i : 0 ≤ i < rl_nalloc rl + RL_FREE_OVERHEAD → is_Some (rl_rp rl !! i);
  re_foff_hd : ∃ r, rl_rp rl !! RL_FOFF_HD = Some r ∧ rg_offset r = 0 ∧ IsFree r = true;
  re_foff_tl : ∃ r, rl_rp rl !! RL_FOFF_TL = Some r ∧ rg_offset r = huge_off_t ∧ IsFree r = true;
  re_fext_hd : ∃ r, rl_rp rl !! RL_FEXT_HD = Some r ∧ rg_extent r = 0;
  re_fext_tl : ∃ r, rl_rp rl !! RL_FEXT_TL = Some r ∧ rg_offset r = 0 ∧ rg_extent r = MAX_SIZE_T - 1;
}.

(** The slots: [es] empty, [fs] free, [us] in use, [lb] in transit. *)
Record rl_tab (rl : regionl) (es fs us lb : list Z) : Prop := {
  rt_ends : rl_ends rl;
  rt_perm : es ++ fs ++ us ++ lb ≡ₚ seqZ 4 (rl_nalloc rl);
  rt_empty : linked (λ i, rg_next <$> rl_rp rl !! i) RL_NONE (rl_empty rl) es;
  rt_nempty : rl_nempty rl = Z.of_nat (length es);
  rt_nfree : rl_nfree rl = Z.of_nat (length fs);
  rt_nelems : rl_nelems rl = Z.of_nat (length us + length lb);
  rt_hash : hash_inv rl us;
  rt_used n : n ∈ us → in_use (rl_rp rl) n;
  rt_free n r : n ∈ fs ++ lb → rl_rp rl !! n = Some r → IsFree r = true;
}.

Abbreviation skoe := (sk2 foff fext foff_key fext_key).

(** [ts] are the regions of the data segment [base, limit) in order; [V] are the
    blocks of the other users of the arena. *)
Record rl_core (rl : regionl) (f : fb) (V : gmap Z Z) (base limit : Z)
    (es fs us lb ts : list Z) : Prop := {
  rc_tab : rl_tab rl es fs us lb;
  rc_skip : ∃ gs, gs ≡ₚ fs ∧ skoe rl f V fs gs;
  rc_range : 0 < base ∧ limit ≤ 2 ^ 62;
  rc_ts : ts ≡ₚ fs ++ us ++ lb;
  rc_tiled : tiled (rg_off (rl_rp rl)) (rext (rl_rp rl)) base ts limit;
}.

(** Moreover, free regions are maximal and the greatest free extent is exact. *)
Record rl_inv (rl : regionl) (f : fb) (V : gmap Z Z) (base limit : Z)
    (es fs us lb ts : list Z) : Prop := {
  ri_core : rl_core rl f V base limit es fs us lb ts;
  ri_sep : sep fs ts;
  ri_max : exact_max (rl_rp rl) fs (rl_maxfextent rl);
}.

(** *** Frames *)

Ltac frame_tac :=
  match goal with
  | H : rl_frame ?a = rl_frame ?b |- _ =>
      destruct a, b; unfold rl_frame in H; simpl in *; injection H as; subst; reflexivity
  end.

Section frames.
Context (rl rl' : regionl) (Hf : rl_frame rl' = rl_frame rl).
Lemma frame_nalloc : rl_nalloc rl' = rl_nalloc rl. Proof. frame_tac. Qed.
Lemma frame_nchains : rl_nchains rl' = rl_nchains rl. Proof. frame_tac. Qed.
Lemma frame_empty : rl_empty rl' = rl_empty rl. Proof. frame_tac. Qed.
Lemma frame_nempty : rl_nempty rl' = rl_nempty rl. Proof. frame_tac. Qed.
Lemma frame_nfree : rl_nfree rl' = rl_nfree rl. Proof. frame_tac. Qed.
Lemma frame_maxfree : rl_maxfree rl' = rl_maxfree rl. Proof. frame_tac. Qed.
Lemma frame_nelems : rl_nelems rl' = rl_nelems rl. Proof. frame_tac. Qed.
Lemma frame_maxelems : rl_maxelems rl' = rl_maxelems rl. Proof. frame_tac. Qed.
Lemma frame_maxfextent : rl_maxfextent rl' = rl_maxfextent rl. Proof. frame_tac. Qed.
Lemma frame_nbytes : rl_nbytes rl' = rl_nbytes rl. Proof. frame_tac. Qed.
Lemma frame_foff : rl_foff rl' = rl_foff rl. Proof. frame_tac. Qed.
Lemma frame_fext : rl_fext rl' = rl_fext rl. Proof. frame_tac. Qed.
Lemma frame_magic : rl_magic rl' = rl_magic rl. Proof. frame_tac. Qed.
Lemma frame_chains : rl_chains rl' = rl_chains rl. Proof. frame_tac. Qed.
End frames.

(** *** Steps on the skip lists *)

Section steps.
Context (rl : regionl) (f : fb) (V : gmap Z Z) (os gs : list Z).
Context (Hends : rl_ends rl) (Hsk : skoe rl f V os gs).
Abbreviation rp := (rl_rp rl).
Abbreviation slot n := (4 ≤ n < rl_nalloc rl + 4).

(** What a step on the lists leaves of the rest. *)
Definition step_ok (rl' : regionl) (f' : fb) (os' gs' : list Z) (cost : Z) : Prop :=
  rl_frame rl' = rl_frame rl ∧ skoe rl' f' V os' gs' ∧
  fb_maxsize f' = fb_maxsize f ∧ keeps V f f' ∧ fb_spare f - cost ≤ fb_spare f'.

Lemma hd_foff : is_Some (rp !! sk_hd foff rl).
Proof. simpl. rewrite (re_foff _ Hends). destruct (re_foff_hd _ Hends) as (r & -> & _). eauto. Qed.

Lemma hd_fext : is_Some (rp !! sk_hd fext rl).
Proof. simpl. rewrite (re_fext _ Hends). destruct (re_fext_hd _ Hends) as (r & -> & _). eauto. Qed.

Lemma foff_del_step l1 q l2 :
  os = l1 ++ q :: l2 → (∀ x, x ∈ os → slot x) →
  ∃ rl' f', rl_foff_del rl f q = Ok (rl', f') ∧ rl_rp rl' = rp ∧
    step_ok rl' f' (l1 ++ l2) gs 0.
Proof.
  intros Hos Hslot. destruct (re_dom _ Hends q) as [rep Hq].
  { unfold RL_FREE_OVERHEAD. specialize (Hslot q ltac:(rewrite Hos; set_solver)). lia. }
  destruct (sk2_del foff fext foff_key fext_key rl f V os gs Hsk l1 l2 q rep
    (λ q, log_assert (sk_index_ok foff rl q)) (λ q, log_assert (sk_index_ok foff rl q))
    (λ q r, rg_offset q =? rg_offset r) Hos Hq hd_fext)
    as (lev & f' & Hdel & Hs & Hm & Hk & Hsp).
  - intros x Hx. apply assert_Ok. unfold sk_index_ok, RL_FREE_OVERHEAD. simpl.
    rewrite (re_foff _ Hends). unfold RL_FOFF_HD, RL_FOFF_TL in *.
    apply elem_of_cons in Hx as [->|Hx]; [done|]. specialize (Hslot x Hx). lia.
  - apply assert_Ok. unfold sk_index_ok, RL_FREE_OVERHEAD. simpl.
    rewrite (re_foff _ Hends). unfold RL_FOFF_HD, RL_FOFF_TL in *.
    specialize (Hslot q ltac:(rewrite Hos; set_solver)). lia.
  - apply Z.eqb_refl.
  - eexists _, f'. split; [exact Hdel|]. split; [by destruct rl|].
    unfold step_ok. split_and!; [by destruct rl|done..|lia].
Qed.

Lemma fext_del_step l1 q l2 :
  gs = l1 ++ q :: l2 → (∀ x, x ∈ gs → slot x ∧ ∀ r, rp !! x = Some r → 0 < rg_extent r) →
  ∃ rl' f', rl_fext_del rl f q = Ok (rl', f') ∧ rl_rp rl' = rp ∧
    step_ok rl' f' os (l1 ++ l2) 0.
Proof.
  intros Hgs Hslot. destruct (re_dom _ Hends q) as [rep Hq].
  { unfold RL_FREE_OVERHEAD. destruct (Hslot q) as [? _]; [rewrite Hgs; set_solver|lia]. }
  destruct (sk2_del fext foff fext_key foff_key rl f V gs os (sk2_sym _ _ _ _ _ _ _ _ _ Hsk)
    l1 l2 q rep
    (λ q, assert! sk_index_ok fext rl q in
          let! sqp := rd (rl_rp rl) q in log_assert (0 <? rg_extent sqp)) (λ _, Ok ())
    (λ q r, rg_extent q =? rg_extent r) Hgs Hq hd_foff)
    as (lev & f' & Hdel & Hs & Hm & Hk & Hsp).
  - intros x Hx. assert (sk_index_ok fext rl x = true ∧
      ∃ r, rp !! x = Some r ∧ 0 < rg_extent r) as (Hi & r & Hr & Hpos).
    { unfold sk_index_ok, RL_FREE_OVERHEAD. simpl.
      rewrite (re_fext _ Hends). unfold RL_FEXT_HD, RL_FEXT_TL in *.
      apply elem_of_cons in Hx as [->|Hx].
      - split; [done|]. destruct (re_fext_tl _ Hends) as (r & Hr & _ & He).
        exists r. rewrite He. done.
      - destruct (Hslot x Hx) as [Hsx Hp]. destruct (re_dom _ Hends x) as [r Hr].
        { unfold RL_FREE_OVERHEAD. lia. }
        split; [lia|]. eauto. }
    rewrite assert_Ok, bind_Ok, (rd_Ok _ _ _ Hr), bind_Ok by done. apply assert_Ok. lia.
  - done.
  - apply Z.eqb_refl.
  - eexists _, f'. split; [exact Hdel|]. split; [by destruct rl|].
    unfold step_ok. split_and!; [by destruct rl|by apply sk2_sym|done|done|lia].
Qed.

Lemma foff_add_step n rep g :
  rp !! n = Some rep → slot n → n ∉ os → (length os < Z.to_nat (rl_nalloc rl))%nat →
  (∀ x, x ∈ os → is_Some (rp !! x) ∧ rg_off rp x ≠ rg_offset rep) →
  rg_offset rep < 2 ^ 62 → 0 < fb_spare f →
  ∃ rl' f' g' b, rl_foff_add rl f g n = Ok (0, rl', f', g') ∧
    rl_rp rl' = <[n := rg_set_next rep b]> rp ∧
    step_ok rl' f' (below lex_ltb (nkey foff_key rp) (foff_key rep) os ++ n ::
                    above lex_ltb (nkey foff_key rp) (foff_key rep) os) gs 1.
Proof.
  intros Hn Hslot Hni Hlen Hnew Hlim Hsp.
  destruct (re_foff_tl _ Hends) as (rt & Hrt & Hto & _).
  destruct (sk2_add foff fext foff_key fext_key rl f V os gs Hsk n rep g Hn)
    as (rl' & f' & g' & b & Hadd & Hrp & Hfr & Hs & Hm & Hk & Hspare).
  - simpl. rewrite (re_foff _ Hends). unfold RL_FOFF_HD, RL_FOFF_TL.
    intros [?|[?|?]%elem_of_cons]%elem_of_cons; [lia..|done].
  - intros x Hx. destruct (Hnew x Hx) as [[r Hr] Ho]. rewrite (nkey_at _ _ _ _ Hr).
    rewrite (rg_off_at _ _ _ Hr) in Ho. unfold foff_key. congruence.
  - simpl. rewrite (nkey_at _ _ _ _ Hrt). unfold lex_ltb, foff_key. simpl. rewrite Hto.
    change huge_off_t with (2 ^ 63 - 1). lia.
  - unfold rl_fuel. lia.
  - apply hd_fext.
  - done.
  - exists rl', f', g', b. split_and!; [done..|]. unfold step_ok. split_and!; [done..|lia].
Qed.

Lemma fext_add_step n rep g :
  rp !! n = Some rep → slot n → n ∉ gs → (length gs < Z.to_nat (rl_nalloc rl))%nat →
  (∀ x, x ∈ gs → is_Some (rp !! x) ∧ rg_off rp x ≠ rg_offset rep) →
  rg_extent rep < 2 ^ 63 → 0 < fb_spare f →
  ∃ rl' f' g' b, rl_fext_add rl f g n = Ok (0, rl', f', g') ∧
    rl_rp rl' = <[n := rg_set_prev rep b]> rp ∧
    step_ok rl' f' os (below lex_ltb (nkey fext_key rp) (fext_key rep) gs ++ n ::
                       above lex_ltb (nkey fext_key rp) (fext_key rep) gs) 1.
Proof.
  intros Hn Hslot Hni Hlen Hnew Hlim Hsp.
  destruct (re_fext_tl _ Hends) as (rt & Hrt & Hto & Hte).
  destruct (sk2_add fext foff fext_key foff_key rl f V gs os (sk2_sym _ _ _ _ _ _ _ _ _ Hsk)
    n rep g Hn) as (rl' & f' & g' & b & Hadd & Hrp & Hfr & Hs & Hm & Hk & Hspare).
  - simpl. rewrite (re_fext _ Hends). unfold RL_FEXT_HD, RL_FEXT_TL.
    intros [?|[?|?]%elem_of_cons]%elem_of_cons; [lia..|done].
  - intros x Hx. destruct (Hnew x Hx) as [[r Hr] Ho]. rewrite (nkey_at _ _ _ _ Hr).
    rewrite (rg_off_at _ _ _ Hr) in Ho. unfold fext_key. congruence.
  - simpl. rewrite (nkey_at _ _ _ _ Hrt). unfold lex_ltb, fext_key. simpl. rewrite Hte.
    change (MAX_SIZE_T - 1) with (2 ^ 64 - 2). lia.
  - unfold rl_fuel. lia.
  - apply hd_foff.
  - done.
  - exists rl', f', g', b. split_and!; [done..|]. unfold step_ok.
    split_and!; [done|by apply sk2_sym|done|done|lia].
Qed.
End steps.

(** *** Composition *)

Lemma step_ok_trans rl f V rl1 f1 os1 gs1 c1 rl2 f2 os2 gs2 c2 :
  step_ok rl f V rl1 f1 os1 gs1 c1 → step_ok rl1 f1 V rl2 f2 os2 gs2 c2 →
  step_ok rl f V rl2 f2 os2 gs2 (c1 + c2).
Proof.
  intros (Hf1 & _ & Hm1 & Hk1 & Hs1) (Hf2 & Hs & Hm2 & Hk2 & Hs2). unfold step_ok.
  split_and!; [congruence|done|congruence|by eapply keeps_trans|lia].
Qed.

(** The ends do not notice changes of the other slots. *)
Lemma rl_ends_ext rl rl' :
  rl_ends rl → rl_nalloc rl' = rl_nalloc rl → rl_foff rl' = rl_foff rl → rl_fext rl' = rl_fext rl →
  (∀ i, i < 4 → rl_rp rl' !! i = rl_rp rl !! i) →
  (∀ i, is_Some (rl_rp rl !! i) → is_Some (rl_rp rl' !! i)) → rl_ends rl'.
Proof.
  intros [] Hn Ho He Hi Hd.
  split; [by rewrite Hn|by rewrite Ho|by rewrite He| |by rewrite Hi by done..].
  intros i Hr. rewrite Hn in Hr. auto.
Qed.

Lemma rl_ends_frame rl rl' :
  rl_ends rl → rl_frame rl' = rl_frame rl →
  (∀ i, i < 4 → rl_rp rl' !! i = rl_rp rl !! i) →
  (∀ i, is_Some (rl_rp rl !! i) → is_Some (rl_rp rl' !! i)) → rl_ends rl'.
Proof.
  intros He Hf Hi Hd. apply rl_ends_ext with rl; [done|by apply frame_nalloc|
    by apply frame_foff|by apply frame_fext|done|done].
Qed.

(** Neither do the lists notice changes of slots that are not on them. *)
Lemma skoe_ext rl rl' f f' V os gs :
  skoe rl f V os gs → rl_ends rl →
  (∀ n, 0 ≤ n < 4 ∨ n ∈ os → ∃ r r', rl_rp rl !! n = Some r ∧ rl_rp rl' !! n = Some r' ∧
     rg_next r' = rg_next r ∧ rg_offset r' = rg_offset r) →
  (∀ n, 0 ≤ n < 4 ∨ n ∈ gs → ∃ r r', rl_rp rl !! n = Some r ∧ rl_rp rl' !! n = Some r' ∧
     rg_prev r' = rg_prev r ∧ rg_offset r' = rg_offset r ∧ rg_extent r' = rg_extent r) →
  rl_foff rl' = rl_foff rl → rl_fext rl' = rl_fext rl → rl_level_foff rl' = rl_level_foff rl →
  rl_level_fext rl' = rl_level_fext rl → rl_nalloc rl' = rl_nalloc rl → f' = f →
  skoe rl' f' V os gs.
Proof.
  intros (U1 & U2 & H1 & H2 & Hown & Hd1 & Hd2) He Ho Hg Hfo Hfe Hlo Hle Hn ->.
  exists U1, U2. split_and!; [| |done..].
  - eapply (sk_inv_ext foff foff_key rl f U1 os H1); [|done..]. intros n Hin.
    destruct (Ho n) as (r & r' & Hr & Hr' & Hx & Hy).
    { simpl in Hin. rewrite (re_foff _ He) in Hin. unfold RL_FOFF_HD, RL_FOFF_TL in Hin.
      apply elem_of_cons in Hin as [->|[->|?]%elem_of_cons]; [lia..|by right]. }
    exists r, r'. split_and!; [done..|]. unfold foff_key. congruence.
  - eapply (sk_inv_ext fext fext_key rl f U2 gs H2); [|done..]. intros n Hin.
    destruct (Hg n) as (r & r' & Hr & Hr' & Hx & Hy & Hz).
    { simpl in Hin. rewrite (re_fext _ He) in Hin. unfold RL_FEXT_HD, RL_FEXT_TL in Hin.
      apply elem_of_cons in Hin as [->|[->|?]%elem_of_cons]; [lia..|by right]. }
    exists r, r'. split_and!; [done..|]. unfold fext_key. congruence.
Qed.

(** ** What the invariant says of a slot *)

Section facts.
Context (rl : regionl) (es fs us lb : list Z) (Htab : rl_tab rl es fs us lb).
Abbreviation rp := (rl_rp rl).

Lemma rt_slot n : n ∈ es ++ fs ++ us ++ lb → 4 ≤ n < rl_nalloc rl + 4.
Proof. rewrite (rt_perm _ _ _ _ _ Htab), elem_of_seqZ. lia. Qed.

Lemma rt_NoDup : NoDup (es ++ fs ++ us ++ lb).
Proof. rewrite (rt_perm _ _ _ _ _ Htab). apply NoDup_seqZ. Qed.

Lemma rt_counts :
  Z.of_nat (length es) + Z.of_nat (length fs) + Z.of_nat (length us) + Z.of_nat (length lb)
    = rl_nalloc rl ∧ rl_nalloc rl < 2 ^ 32.
Proof.
  pose proof (rt_perm _ _ _ _ _ Htab) as Hp. apply Permutation_length in Hp.
  rewrite !length_app, length_seqZ in Hp.
  pose proof (re_nalloc _ (rt_ends _ _ _ _ _ Htab)). lia.
Qed.

Lemma rt_dom n : n ∈ es ++ fs ++ us ++ lb → is_Some (rp !! n).
Proof.
  intros Hn%rt_slot. apply (re_dom _ (rt_ends _ _ _ _ _ Htab)). unfold RL_FREE_OVERHEAD. lia.
Qed.
End facts.

Section segment.
Context (rl : regionl) (f : fb) (V : gmap Z Z) (base limit : Z) (es fs us lb ts : list Z).
Context (Htab : rl_tab rl es fs us lb) (Hrange : 0 < base ∧ limit ≤ 2 ^ 62).
Context (Hts : ts ≡ₚ fs ++ us ++ lb).
Context (Htl : tiled (rg_off (rl_rp rl)) (rext (rl_rp rl)) base ts limit).
Abbreviation rp := (rl_rp rl).

Lemma ts_NoDup : NoDup ts.
Proof.
  rewrite Hts. pose proof (rt_NoDup _ _ _ _ _ Htab) as Hnd.
  by apply NoDup_app in Hnd as (_ & _ & ?).
Qed.

Lemma ts_region n :
  n ∈ ts → ∃ r, rp !! n = Some r ∧ 0 < rg_offset r ∧ 0 < Extent r ∧
    rg_offset r + Extent r ≤ 2 ^ 62 ∧ base ≤ rg_offset r ∧ rg_offset r + Extent r ≤ limit.
Proof.
  intros Hn. destruct (rt_dom _ _ _ _ _ Htab n) as [r Hr].
  { rewrite Hts in Hn. set_solver. }
  destruct (tiled_range _ _ _ _ _ Htl) as [_ Hall]. specialize (Hall n Hn).
  rewrite (rg_off_at _ _ _ Hr), (rext_at _ _ _ Hr) in Hall. exists r. split; [done|]. lia.
Qed.

Lemma free_region n :
  n ∈ fs → ∃ r, rp !! n = Some r ∧ 0 < rg_offset r ∧ 0 < rg_extent r ∧
    rg_offset r + rg_extent r ≤ 2 ^ 62 ∧ IsFree r = true ∧ rext rp n = rg_extent r.
Proof.
  intros Hn. destruct (ts_region n) as (r & Hr & ? & ? & ? & _); [rewrite Hts; set_solver|].
  assert (IsFree r = true) as Hf by (eapply (rt_free _ _ _ _ _ Htab); [|done]; set_solver).
  rewrite Extent_free in * by done. exists r. split_and!; [done|lia..|done|].
  by rewrite (rext_at _ _ _ Hr), Extent_free.
Qed.

Lemma ts_off_inj x y : x ∈ ts → y ∈ ts → rg_off rp x = rg_off rp y → x = y.
Proof. intros. eapply tiled_inj; [done|apply ts_NoDup|done..]. Qed.
End segment.

(** ** Searches by extent *)

Section by_extent.
Context (rl : regionl) (f : fb) (V : gmap Z Z) (os gs : list Z).
Context (Hends : rl_ends rl) (Hsk : skoe rl f V os gs).
Context (Hgs : ∀ x, x ∈ gs → 4 ≤ x ∧ ∃ r, rl_rp rl !! x = Some r ∧ 0 < rg_offset r ∧
  0 < rg_extent r < 2 ^ 63 ∧ IsFree r = true).
Abbreviation rp := (rl_rp rl).

(** The first region in the order of extents that is large enough. *)
Lemma rl_fext_find_spec e :
  e < 2 ^ 63 →
  rl_fext_find rl f e =
    Ok (head_or RL_FEXT_TL (above lex_ltb (nkey fext_key rp) (e, 0) gs)).
Proof.
  intros He. destruct Hsk as (U1 & U2 & _ & H2 & Hown & _). unfold rl_fext_find.
  rewrite assert_Ok by by eapply fb_own_magic. rewrite bind_Ok.
  edestruct (sk_search_by fext fext_key rl f U2 gs H2) as (upd & Hs & _);
    [| |unfold sk_hd, sk_level, sk_tl in Hs; simpl in Hs; rewrite Hs; done].
  - intros n Hn. destruct (Hgs n Hn) as (_ & r & Hr & Ho & _). rewrite (rd_Ok _ _ _ Hr), bind_Ok.
    rewrite (nkey_at _ _ _ _ Hr). unfold lex_ltb, fext_key. simpl. f_equal.
    destruct (Z.ltb_spec (rg_extent r) e), (Z.eqb_spec (rg_extent r) e),
      (Z.ltb_spec (rg_offset r) 0); simpl; try done; lia.
  - simpl. destruct (re_fext_tl _ Hends) as (r & Hr & _ & Hre). rewrite (rd_Ok _ _ _ Hr), bind_Ok.
    rewrite Hre. change (MAX_SIZE_T - 1) with (2 ^ 64 - 2). f_equal. apply Z.ltb_ge. lia.
Qed.

(** The greatest extent: that of the last region in the order of extents. *)
Lemma rl_maxfextent_of_spec :
  rl_maxfextent_of rl f = Ok (match last gs with Some n => rext rp n | None => 0 end).
Proof.
  destruct Hsk as (U1 & U2 & _ & H2 & Hown & Hd1 & Hd2).
  destruct (re_fext_tl _ Hends) as (rt & Hrt & Hto & Hte).
  destruct (re_fext_hd _ Hends) as (rh & Hrh & Hhe).
  assert (IsFree rt = true) as Hft.
  { apply IsFree_even. rewrite Hte. done. }
  assert (below lex_ltb (nkey fext_key rp) (fext_key rt) gs = gs) as Hall.
  { apply filter_all. intros x Hx. destruct (Hgs x Hx) as (_ & r & Hr & _ & Hre & _).
    rewrite (nkey_at _ _ _ _ Hr). unfold lex_ltb, fext_key. simpl. rewrite Hte.
    change (MAX_SIZE_T - 1) with (2 ^ 64 - 2). lia. }
  assert (sk_prev fext rl f RL_FEXT_TL = Ok (last_or RL_FEXT_HD gs)) as Hprev.
  { rewrite (sk_prev_spec fext fext_key rl f U2 (U1 ∪ V) gs H2) with (rep := rt); [|..|done|done|].
    - rewrite Hall. simpl. by rewrite (re_fext _ Hends).
    - apply map_disjoint_union_r in Hd1 as [Hd12 Hd1].
      rewrite (assoc_L (∪)), (map_union_comm U2 U1) by done. by rewrite <- (assoc_L (∪)).
    - rewrite (nkey_at _ _ _ _ Hrt). apply ltb_irrefl. }
  unfold rl_maxfextent_of, rl_fext_prev. rewrite Hprev, bind_Ok, (rd_Ok _ _ _ Hrt), bind_Ok.
  assert (∃ r, rp !! last_or RL_FEXT_HD gs = Some r ∧ IsFree r = true ∧ rg_extent r < 2 ^ 63 ∧
    rg_extent r = match last gs with Some n => rext rp n | None => 0 end) as (r & Hr & Hf & Hlt & He).
  { unfold last_or. destruct (last gs) as [n|] eqn:Hl; simpl.
    - assert (n ∈ gs) as Hn by (rewrite last_Some in Hl; destruct Hl as [l ->]; set_solver).
      destruct (Hgs n Hn) as (_ & r & Hr & _ & Hre & Hf). exists r.
      rewrite (rext_at _ _ _ Hr), Extent_free by done. split_and!; [done|done|lia|done].
    - exists rh. split_and!; [done| |lia|done]. apply IsFree_even. by rewrite Hhe. }
  rewrite (rd_Ok _ _ _ Hr), bind_Ok, assert_Ok, bind_Ok by done.
  rewrite assert_Ok by (rewrite Hte; change (MAX_SIZE_T - 1) with (2 ^ 64 - 2); lia).
  by rewrite !bind_Ok, (rd_Ok _ _ _ Hr), bind_Ok, He.
Qed.

(** The list by extent is sorted by extent, so its last member has the greatest. *)
Lemma gs_max :
  exact_max rp gs (match last gs with Some n => rext rp n | None => 0 end).
Proof.
  destruct Hsk as (U1 & U2 & _ & H2 & _). pose proof (ki_sorted _ _ _ _ _ _ H2) as Hs.
  destruct (last gs) as [n|] eqn:Hl; [|apply last_None in Hl].
  2: { split; [rewrite Hl; by intros ? ?%elem_of_nil|by left]. }
  apply last_Some in Hl as [l Hl]. split.
  - intros x Hx. rewrite Hl in Hs, Hx.
    apply elem_of_app in Hx as [Hx|Hx%list_elem_of_singleton]; [|by subst].
    apply sorted_app in Hs as (_ & _ & Hlt). specialize (Hlt x n Hx ltac:(constructor)).
    destruct (Hgs x) as (_ & r & Hr & _ & _ & Hf); [rewrite Hl; set_solver|].
    destruct (Hgs n) as (_ & r' & Hr' & _ & _ & Hf'); [rewrite Hl; set_solver|].
    unfold node_lt, lex_ltb in Hlt. rewrite (nkey_at _ _ _ _ Hr), (nkey_at _ _ _ _ Hr') in Hlt.
    rewrite (rext_at _ _ _ Hr), (rext_at _ _ _ Hr'), !Extent_free by done.
    unfold fext_key in Hlt. simpl in Hlt. lia.
  - right. exists n. split; [rewrite Hl; set_solver|done].
Qed.
End by_extent.

(** The members that the ends depend on, and those that the lists depend on. *)
Definition same_table (rl rl' : regionl) : Prop :=
  rl_rp rl' = rl_rp rl ∧ rl_nalloc rl' = rl_nalloc rl ∧ rl_foff rl' = rl_foff rl ∧
  rl_fext rl' = rl_fext rl.
Definition same_lists (rl rl' : regionl) : Prop :=
  same_table rl rl' ∧ rl_level_foff rl' = rl_level_foff rl ∧
  rl_level_fext rl' = rl_level_fext rl.

(** An equation for a member of [rl'], which is computed from [rl2], which has
    the frame of [rl]. *)
Ltac via rl2 lem := etrans; [|apply lem; eassumption]; by destruct rl2.

Lemma skoe_same rl rl' f V os gs :
  same_lists rl rl' → skoe rl f V os gs → skoe rl' f V os gs.
Proof.
  intros ((Hrp & Hn & Ho & He) & Hlo & Hle) (U1 & U2 & H1 & H2 & Hr).
  exists U1, U2. split_and!; [..|apply Hr|apply Hr|apply Hr].
  - destruct H1. split; unfold rl_fuel in *; simpl in *; by rewrite ?Hrp, ?Ho, ?Hlo, ?Hn.
  - destruct H2. split; unfold rl_fuel in *; simpl in *; by rewrite ?Hrp, ?He, ?Hle, ?Hn.
Qed.

Lemma rl_ends_same rl rl' : same_table rl rl' → rl_ends rl → rl_ends rl'.
Proof.
  intros (Hrp & Hn & Ho & He) Hends. apply rl_ends_ext with rl; try done; by rewrite Hrp.
Qed.

(** Taking a slot off both lists. *)

Definition free_ok (rl : regionl) (x : Z) : Prop :=
  4 ≤ x < rl_nalloc rl + 4 ∧ ∃ r, rl_rp rl !! x = Some r ∧ 0 < rg_offset r ∧
    0 < rg_extent r < 2 ^ 63 ∧ IsFree r = true ∧ rext (rl_rp rl) x = rg_extent r.

Lemma take_off rl f V fs gs q :
  rl_ends rl → skoe rl f V fs gs → gs ≡ₚ fs → (∀ x, x ∈ fs → free_ok rl x) → q ∈ fs →
  ∃ rl1 f1 rl2 f2 F1 F2 gs', rl_foff_del rl f q = Ok (rl1, f1) ∧
    rl_fext_del rl1 f1 q = Ok (rl2, f2) ∧ rl_rp rl2 = rl_rp rl ∧ fs = F1 ++ q :: F2 ∧
    gs' ≡ₚ F1 ++ F2 ∧ step_ok rl f V rl2 f2 (F1 ++ F2) gs' 0.
Proof.
  intros Hends Hsk Hp Hok Hq.
  pose proof (list_elem_of_split _ _ Hq) as (F1 & F2 & Hfs).
  assert (q ∈ gs) as (G1 & G2 & Hgs)%list_elem_of_split by by rewrite Hp.
  destruct (foff_del_step rl f V fs gs Hends Hsk F1 q F2 Hfs) as (rl1 & f1 & Hd1 & Hrp1 & Hs1).
  { intros x Hx. by apply Hok. }
  pose proof Hs1 as (Hfr1 & Hsk1 & _).
  assert (rl_ends rl1) as Hends1.
  { apply rl_ends_frame with rl; [done..| |]; by rewrite Hrp1. }
  destruct (fext_del_step rl1 f1 V (F1 ++ F2) gs Hends1 Hsk1 G1 q G2 Hgs)
    as (rl2 & f2 & Hd2 & Hrp2 & Hs2).
  { intros x Hx. rewrite Hp in Hx. rewrite (frame_nalloc _ _ Hfr1), Hrp1.
    destruct (Hok x Hx) as (? & r & Hr & _ & ? & _). split; [done|]. intros r' Hr'.
    rewrite Hr in Hr'. injection Hr' as <-. lia. }
  exists rl1, f1, rl2, f2, F1, F2, (G1 ++ G2). split_and!; [done..|congruence|done| |].
  - apply (Permutation_cons_inv (a := q)). trans gs; [rewrite Hgs; solve_Permutation|].
    rewrite Hp, Hfs. solve_Permutation.
  - by apply (step_ok_trans _ _ _ _ _ _ _ 0 _ _ _ _ 0 Hs1 Hs2).
Qed.

(** ** [rl_get()] *)

Section core.
Context (rl : regionl) (f : fb) (V : gmap Z Z) (base limit : Z) (es fs us lb ts : list Z).
Context (Hinv : rl_core rl f V base limit es fs us lb ts).
Abbreviation rp := (rl_rp rl).

Lemma inv_free n : n ∈ fs → free_ok rl n.
Proof.
  destruct Hinv. intros Hn. split.
  - apply (rt_slot _ _ _ _ _ rc_tab0). set_solver.
  - destruct (free_region rl base limit es fs us lb ts rc_tab0 rc_range0 rc_ts0 rc_tiled0 n Hn)
      as (r & Hr & ? & ? & ? & ? & ?). exists r. split_and!; [done|lia..|done|done].
Qed.

Lemma inv_gs gs :
  gs ≡ₚ fs → ∀ x, x ∈ gs → 4 ≤ x ∧ ∃ r, rp !! x = Some r ∧ 0 < rg_offset r ∧
    0 < rg_extent r < 2 ^ 63 ∧ IsFree r = true.
Proof.
  intros Hp x Hx. rewrite Hp in Hx. destruct (inv_free x Hx) as (? & r & ? & ? & ? & ? & _).
  split; [lia|]. eauto 10.
Qed.

(** Moving slot [q] from the free list to those in transit. *)
Lemma rl_tab_take q rl' :
  q ∈ fs → rl_tab rl es fs us lb → same_table rl rl' →
  rl_nchains rl' = rl_nchains rl → rl_magic rl' = rl_magic rl → rl_chains rl' = rl_chains rl →
  rl_empty rl' = rl_empty rl → rl_nempty rl' = rl_nempty rl →
  rl_nfree rl' = u64 (rl_nfree rl - 1) → rl_nelems rl' = u64 (rl_nelems rl + 1) →
  ∀ F1 F2, fs = F1 ++ q :: F2 → rl_tab rl' es (F1 ++ F2) us (q :: lb).
Proof.
  intros Hq Htab Hsame Hnc Hmg Hch Hem Hne Hnf Hnl F1 F2 Hfs.
  pose proof (rt_counts _ _ _ _ _ Htab) as [Hc Hc2]. pose proof Hsame as (Hrp & Hna & _).
  destruct Htab. split.
  - by eapply rl_ends_same.
  - rewrite Hna, <- rt_perm0, Hfs. solve_Permutation.
  - by rewrite Hrp, Hem.
  - by rewrite Hne.
  - rewrite Hnf, rt_nfree0, Hfs in *. rewrite !length_app in *. simpl in *.
    rewrite u64_small; lia.
  - rewrite Hnl, rt_nelems0. simpl. rewrite u64_small; lia.
  - eapply hash_inv_ext; [exact rt_hash0|done..|]. rewrite Hrp. eauto.
  - by rewrite Hrp.
  - rewrite Hrp. intros n r Hn. apply rt_free0. rewrite Hfs. set_solver.
Qed.

(** [q] is the best fit for [e]: of the free regions of at least that extent, it
    has the least extent, and of those the least offset. *)
Definition best_fit (e q : Z) : Prop :=
  q ∈ fs ∧ e ≤ rext rp q ∧
  ∀ x, x ∈ fs → e ≤ rext rp x → lex_ltb (rext rp x, rg_off rp x) (rext rp q, rg_off rp q) = false.

Lemma nkey_fext gs x : gs ≡ₚ fs → x ∈ gs → nkey fext_key rp x = (rext rp x, rg_off rp x).
Proof.
  intros Hp Hx. rewrite Hp in Hx. destruct (inv_free x Hx) as (_ & r & Hr & _ & _ & _ & He).
  rewrite (nkey_at _ _ _ _ Hr), (rg_off_at _ _ _ Hr), He. done.
Qed.

Lemma above_ext gs e x :
  gs ≡ₚ fs → x ∈ gs → (x ∈ above lex_ltb (nkey fext_key rp) (e, 0) gs ↔ e ≤ rext rp x).
Proof.
  intros Hp Hx. rewrite elem_of_above, (nkey_fext gs) by done.
  rewrite Hp in Hx. destruct (inv_free x Hx) as (_ & r & Hr & Ho & _).
  unfold lex_ltb. simpl. rewrite (rg_off_at _ _ _ Hr).
  split; [intros [H _]; lia|]. intros. split; [lia|by rewrite Hp].
Qed.

Lemma best_fit_head gs e q l :
  gs ≡ₚ fs → skoe rl f V fs gs → above lex_ltb (nkey fext_key rp) (e, 0) gs = q :: l →
  best_fit e q.
Proof.
  intros Hp (U1 & U2 & _ & H2 & _) Hhi.
  assert (q ∈ above lex_ltb (nkey fext_key rp) (e, 0) gs) as Hq by (rewrite Hhi; constructor).
  assert (q ∈ gs) as Hqg by by apply elem_of_above in Hq as [_ ?].
  pose proof (ki_sorted _ _ _ _ _ _ H2) as Hs.
  rewrite (sk_split _ _ _ _ _ _ H2 (e, 0)) in Hs. apply sorted_app in Hs as (_ & Hs & _).
  split_and!; [by rewrite <- Hp|by apply (above_ext gs) in Hq|].
  intros x Hx He. rewrite <- Hp in Hx.
  assert (x ∈ q :: l) as Hxh by (rewrite <- Hhi; by apply above_ext).
  rewrite <- !(nkey_fext gs) by done. rewrite Hhi in Hs.
  apply elem_of_cons in Hxh as [->|Hxl]; [apply ltb_irrefl|].
  apply StronglySorted_inv in Hs as [_ Hf]. rewrite Forall_forall in Hf.
  apply ltb_asym; [apply _|]. by apply Hf.
Qed.

End core.

Section get.
Context (rl : regionl) (f : fb) (V : gmap Z Z) (base limit : Z) (es fs us lb ts : list Z).
Context (Hinv : rl_inv rl f V base limit es fs us lb ts).
Abbreviation rp := (rl_rp rl).
Let Hcore := ri_core _ _ _ _ _ _ _ _ _ _ Hinv.

Lemma exact_max_perm rp0 l l' m : l ≡ₚ l' → exact_max rp0 l m → exact_max rp0 l' m.
Proof.
  intros Hp [Hle Hex]. split.
  - intros n Hn. apply Hle. by rewrite Hp.
  - destruct Hex as [[-> ->]|(n & Hn & Hm)].
    + left. split; [done|]. by apply Permutation_nil_l in Hp.
    + right. exists n. by rewrite <- Hp.
Qed.

(** The new greatest extent. *)
Lemma get_max q F1 F2 gs' rl2 f2 :
  fs = F1 ++ q :: F2 → gs' ≡ₚ F1 ++ F2 → rl_ends rl2 → skoe rl2 f2 V (F1 ++ F2) gs' →
  rl_rp rl2 = rp → rl_maxfextent rl2 = rl_maxfextent rl →
  ∃ m, (if rext rp q =? rl_maxfextent rl2 then
          let! mx := rl_maxfextent_of rl2 f2 in Ok (rl_set_maxfextent rl2 mx) else Ok rl2) =
       Ok (rl_set_maxfextent rl2 m) ∧ exact_max rp (F1 ++ F2) m.
Proof.
  intros Hfs Hgs' Hends2 Hsk2 Hrp2 Hmx.
  destruct (ri_max _ _ _ _ _ _ _ _ _ _ Hinv) as [Hle Hex].
  assert (∀ x, x ∈ gs' → 4 ≤ x ∧ ∃ r, rl_rp rl2 !! x = Some r ∧ 0 < rg_offset r ∧
    0 < rg_extent r < 2 ^ 63 ∧ IsFree r = true) as Hg.
  { intros x Hx. rewrite Hgs' in Hx. rewrite Hrp2.
    destruct (inv_free rl f V base limit es fs us lb ts Hcore x) as (? & r & ? & ? & ? & ? & _); [rewrite Hfs; set_solver|].
    split; [lia|]. eauto 10. }
  destruct (Z.eqb_spec (rext rp q) (rl_maxfextent rl2)) as [Heq|Hne].
  - rewrite (rl_maxfextent_of_spec rl2 f2 V (F1 ++ F2) gs' Hends2 Hsk2 Hg), bind_Ok.
    eexists. split; [done|]. eapply exact_max_perm; [exact Hgs'|].
    pose proof (gs_max rl2 f2 V (F1 ++ F2) gs' Hends2 Hsk2 Hg) as Hmax. by rewrite Hrp2 in *.
  - exists (rl_maxfextent rl2). split; [by destruct rl2|]. rewrite Hmx in *. split.
    + intros n Hn. apply Hle. rewrite Hfs. set_solver.
    + destruct Hex as [[_ Hnil]|(n & Hn & Hm)].
      { rewrite Hnil in Hfs. by destruct F1. }
      right. exists n. split; [|done]. rewrite Hfs in Hn. set_solver.
Qed.

Lemma rl_get_spec e :
  (∃ q rl' f' fs', rl_get rl f e = Ok (q, rl', f') ∧ best_fit rl fs e q ∧ fs ≡ₚ q :: fs' ∧
     rl_inv rl' f' V base limit es fs' us (q :: lb) ts ∧ rl_rp rl' = rp ∧
     rl_nbytes rl' = rl_nbytes rl ∧
     (∀ l1 x y l2, ts = l1 ++ x :: y :: l2 → (x = q → y ∉ fs') ∧ (y = q → x ∉ fs')) ∧
     fb_maxsize f' = fb_maxsize f ∧ keeps V f f' ∧ fb_spare f ≤ fb_spare f') ∨
  (rl_get rl f e = Ok (RL_NONE, rl, f) ∧ ∀ x, x ∈ fs → rext rp x < e).
Proof.
  pose proof Hinv as [[Htab (gs & Hgs & Hsk) Hrange Hts Htl] Hsep Hmax].
  pose proof (rt_ends _ _ _ _ _ Htab) as Hends. unfold rl_get.
  destruct (Z.ltb_spec (rl_maxfextent rl) e) as [Hlt|Hge].
  { right. split; [done|]. intros x Hx. destruct Hmax as [Hle _]. specialize (Hle x Hx). lia. }
  assert (e < 2 ^ 63) as He.
  { destruct Hmax as [_ [[Hz _]|(n & Hn & Hz)]]; [lia|].
    destruct (inv_free rl f V base limit es fs us lb ts Hcore n Hn) as (_ & r & _ & _ & ? & _ & ?). lia. }
  rewrite (rl_fext_find_spec rl f V fs gs Hends Hsk (inv_gs rl f V base limit es fs us lb ts Hcore gs Hgs) e He), bind_Ok.
  destruct (above lex_ltb (nkey fext_key rp) (e, 0) gs) as [|q l] eqn:Hhi; unfold head_or; simpl.
  { right. split; [done|]. intros x Hx. rewrite <- Hgs in Hx.
    destruct (Z_lt_ge_dec (rext rp x) e) as [|Hx']; [done|exfalso].
    apply Z.ge_le, (above_ext rl f V base limit es fs us lb ts Hcore gs e x Hgs Hx) in Hx'. rewrite Hhi in Hx'.
    by apply elem_of_nil in Hx'. }
  left. pose proof (best_fit_head rl f V base limit es fs us lb ts Hcore gs e q l Hgs Hsk Hhi) as Hbest. pose proof Hbest as (Hq & _).
  destruct (inv_free rl f V base limit es fs us lb ts Hcore q Hq) as (Hslot & r & Hr & _ & Hre & Hfree & Hext).
  rewrite (proj2 (Z.eqb_neq q RL_FEXT_TL)) by (unfold RL_FEXT_TL; lia).
  destruct (take_off rl f V fs gs q Hends Hsk Hgs (inv_free rl f V base limit es fs us lb ts Hcore) Hq) as (rl1 & f1 & rl2 & f2 & F1 & F2 & gs' & -> & Hd2 & Hrp2 &
    Hfs & Hgs' & Hfr & Hsk2 & Hm & Hk & Hsp).
  rewrite bind_Ok, Hd2, bind_Ok.
  set (rl3 := rl_set_nfree rl2 (u64 (rl_nfree rl2 - 1)) (rl_maxfree rl2)).
  assert (rl_rp rl3 = rp) as Hrp3 by (rewrite <- Hrp2; by destruct rl2).
  assert (same_lists rl2 rl3) as Hsame by (by destruct rl2).
  assert (rl_ends rl2) as Hends2.
  { apply rl_ends_frame with rl; [done..| |]; by rewrite Hrp2. }
  rewrite Hrp3, (rd_Ok _ _ _ Hr), bind_Ok, <- Hext.
  destruct (get_max q F1 F2 gs' rl3 f2 Hfs Hgs') as (m & Hmx & Hex).
  { by eapply rl_ends_same; [apply Hsame|]. }
  { by eapply skoe_same. }
  { done. }
  { rewrite <- (frame_maxfextent _ _ Hfr). by destruct rl2. }
  rewrite Hmx, bind_Ok.
  eexists q, _, f2, (F1 ++ F2). split; [done|].
  match goal with |- context [rl_inv ?r _ _ _ _ _ _ _ _ _] => set (rl' := r) end.
  assert (same_table rl rl') as Hsame'.
  { split_and!; [by destruct rl2|via rl2 frame_nalloc|via rl2 frame_foff|via rl2 frame_fext]. }
  split_and!; [done|rewrite Hfs; solve_Permutation| | |via rl2 frame_nbytes| |done|done|lia].
  - split; [split|..].
    + apply (rl_tab_take rl f V base limit es fs us lb ts Hcore q rl'); try done.
      * via rl2 frame_nchains.
      * via rl2 frame_magic.
      * via rl2 frame_chains.
      * via rl2 frame_empty.
      * via rl2 frame_nempty.
      * rewrite <- (frame_nfree _ _ Hfr). by destruct rl2.
      * rewrite <- (frame_nelems _ _ Hfr). by destruct rl2.
    + exists gs'. split; [done|]. eapply skoe_same; [|exact Hsk2]. by destruct rl2.
    + done.
    + rewrite Hts, Hfs. solve_Permutation.
    + destruct Hsame' as (-> & _). done.
    + intros l1 x y l2 Heq Hx Hy. eapply Hsep; [done|rewrite Hfs; set_solver..].
    + destruct Hsame' as (-> & _). by destruct rl2.
  - by destruct Hsame' as (-> & _).
  - intros l1 x y l2 Heq. split; intros -> Hx; (eapply Hsep; [exact Heq|rewrite Hfs; set_solver..]).
Qed.
End get.
