(* ===== verification/RegionMerge.v ===== *)
(** * Merging adjacent free regions

    What [rl_rel()] does to the lists of free regions, what a merge does to the
    whole region list, and which regions [rl_foff_next()] and [rl_foff_prev()]
    find. *)

From S2P Require Import Prelude NumTheory Fb SkipList RegionList RegionSkip RegionHash RegionAlloc.

(** ** [rl_rel()] *)

Lemma rl_rp_nfree rl a b : rl_rp (rl_set_nfree rl a b) = rl_rp rl.
Proof. by destruct rl. Qed.

Lemma below_above_perm {K} (ltb : K → K → bool) `{!KeyOrder ltb} key v ns (n : Z) :
  StronglySorted (node_lt ltb key) ns →
  below ltb key v ns ++ n :: above ltb key v ns ≡ₚ n :: ns.
Proof. intros Hs. rewrite (sorted_split ltb key v ns Hs) at 3. solve_Permutation. Qed.

Lemma skoe_sorted rl f V os gs :
  skoe rl f V os gs →
  StronglySorted (node_lt lex_ltb (nkey foff_key (rl_rp rl))) os ∧
  StronglySorted (node_lt lex_ltb (nkey fext_key (rl_rp rl))) gs.
Proof. intros (U1 & U2 & H1 & H2 & _). split; [apply H1|apply H2]. Qed.

Lemma rl_rel_spec rl f V fs gs n r g :
  rl_ends rl → skoe rl f V fs gs → gs ≡ₚ fs → rl_rp rl !! n = Some r →
  4 ≤ n < rl_nalloc rl + 4 → n ∉ fs → Z.of_nat (length fs) < rl_nalloc rl →
  (∀ x, x ∈ fs → is_Some (rl_rp rl !! x) ∧ rg_off (rl_rp rl) x ≠ rg_offset r) →
  rg_offset r < 2 ^ 62 → rg_extent r < 2 ^ 63 → 2 ≤ fb_spare f →
  ∃ rl' f' g' r' fs' gs', rl_rel rl f g n = Ok (0, rl', f', g') ∧
    rl_rp rl' = <[n := r']> (rl_rp rl) ∧ rg_offset r' = rg_offset r ∧ rg_extent r' = rg_extent r ∧
    fs' ≡ₚ n :: fs ∧ gs' ≡ₚ n :: fs ∧ skoe rl' f' V fs' gs' ∧
    rl_frame rl' = rl_frame (rl_set_nfree rl (u64 (rl_nfree rl + 1)) (rl_maxfree rl)) ∧
    fb_maxsize f' = fb_maxsize f ∧ keeps V f f' ∧ fb_spare f - 2 ≤ fb_spare f'.
Proof.
  intros Hends Hsk Hgs Hn Hslot Hni Hlen Hnew Ho He Hsp.
  destruct (skoe_sorted _ _ _ _ _ Hsk) as [Hso Hsg].
  destruct (foff_add_step rl f V fs gs Hends Hsk n r g)
    as (rl1 & f1 & g1 & b1 & Hadd1 & Hrp1 & Hs1); [done..|lia|done|done|lia|].
  pose proof Hs1 as (Hfr1 & Hsk1 & _ & _ & Hsp1).
  assert (rl_ends rl1) as Hends1.
  { apply rl_ends_frame with rl; [done..| |]; rewrite Hrp1.
    - intros i Hi. apply lookup_insert_ne. lia.
    - intros i Hi. rewrite lookup_insert. case_decide; eauto. }
  assert (n ∉ gs) as Hng by by rewrite Hgs.
  destruct (fext_add_step rl1 f1 V _ gs Hends1 Hsk1 n (rg_set_next r b1) g1)
    as (rl2 & f2 & g2 & b2 & Hadd2 & Hrp2 & Hs2).
  - rewrite Hrp1. apply lookup_insert_eq.
  - by rewrite (frame_nalloc _ _ Hfr1).
  - done.
  - rewrite (frame_nalloc _ _ Hfr1), Hgs. lia.
  - intros x Hx. rewrite Hrp1. unfold rg_off. rewrite lookup_insert_ne by congruence.
    rewrite Hgs in Hx. by apply Hnew.
  - done.
  - lia.
  - unfold rl_rel. rewrite Hadd1, bind_Ok. simpl. rewrite Hadd2, bind_Ok. simpl.
    destruct (step_ok_trans _ _ _ _ _ _ _ _ _ _ _ _ _ Hs1 Hs2) as (Hfr & Hsk2 & Hm & Hk & Hs).
    match type of Hsk2 with skoe _ _ _ ?os' ?gs' =>
      eexists _, f2, g2, (rg_set_prev (rg_set_next r b1) b2), os', gs' end.
    split_and!; [done|..].
    + rewrite rl_rp_nfree, Hrp2, Hrp1. apply insert_insert_eq.
    + done.
    + done.
    + by apply below_above_perm; [apply _|].
    + rewrite <- Hgs. apply below_above_perm; [apply _|]. by apply skoe_sorted in Hsk1 as [_ ?].
    + eapply skoe_same; [|exact Hsk2]. by destruct rl2.
    + rewrite (frame_nfree _ _ Hfr), (frame_maxfree _ _ Hfr).
      destruct rl2, rl; unfold rl_frame in *; simpl in *. injection Hfr as; subst; done.
    + done.
    + done.
    + lia.
Qed.

(** *** Writing a slot *)

Lemma ends_write rl a r' :
  rl_ends rl → 4 ≤ a → rl_ends (rl_set_rp rl (<[a := r']> (rl_rp rl))).
Proof.
  intros Hends Ha. apply rl_ends_ext with rl; [done|by destruct rl..| |]; rewrite rl_rp_set.
  - intros i Hi. apply lookup_insert_ne. lia.
  - intros i Hi. rewrite lookup_insert. case_decide; eauto.
Qed.

Lemma skoe_dom rl f V os gs x :
  rl_ends rl → skoe rl f V os gs → 0 ≤ x < 4 ∨ x ∈ os ∨ x ∈ gs → is_Some (rl_rp rl !! x).
Proof.
  intros Hends (U1 & U2 & H1 & H2 & _) [Hx|[Hx|Hx]].
  - apply (re_dom _ Hends). unfold RL_FREE_OVERHEAD. pose proof (re_nalloc _ Hends). lia.
  - apply (ki_dom _ _ _ _ _ _ H1). by right.
  - apply (ki_dom _ _ _ _ _ _ H2). by right.
Qed.

(** The list by extent must not have the slot; the list by offset may, if its
    link and offset stay. *)
Lemma skoe_write rl f V os gs a r r' :
  rl_ends rl → skoe rl f V os gs → rl_rp rl !! a = Some r → 4 ≤ a → a ∉ gs →
  (a ∈ os → rg_next r' = rg_next r ∧ rg_offset r' = rg_offset r) →
  skoe (rl_set_rp rl (<[a := r']> (rl_rp rl))) f V os gs.
Proof.
  intros Hends Hsk Hr Ha Hg Ho.
  eapply skoe_ext; [exact Hsk|done| | |by destruct rl..|done]; intros x Hx; rewrite rl_rp_set.
  - destruct (decide (x = a)) as [->|Hxa].
    + exists r, r'. rewrite lookup_insert_eq. destruct Hx as [Hx|Hx]; [lia|].
      destruct (Ho Hx). done.
    + rewrite lookup_insert_ne by done.
      destruct (skoe_dom rl f V os gs x Hends Hsk) as [rx Hrx]; [tauto|eauto 10].
  - assert (x ≠ a) as Hxa by (intros ->; destruct Hx; [lia|done]).
    rewrite lookup_insert_ne by done.
    destruct (skoe_dom rl f V os gs x Hends Hsk) as [rx Hrx]; [tauto|eauto 10].
Qed.

(** ** Merging two adjacent free regions *)

(** Removing slot [a] from the list by extent, changing its extent to [E] and
    inserting it again. *)
Lemma resize_spec rl f V fs gs a ra E g :
  rl_ends rl → skoe rl f V fs gs → gs ≡ₚ fs → (∀ x, x ∈ fs → free_ok rl x) → NoDup fs →
  a ∈ fs → rl_rp rl !! a = Some ra → E < 2 ^ 63 → Z.of_nat (length fs) ≤ rl_nalloc rl →
  (∀ x, x ∈ fs → x ≠ a → rg_off (rl_rp rl) x ≠ rg_offset ra) → 1 ≤ fb_spare f →
  ∃ rl1 f1 rl2 f2 g2 ra' gs', rl_fext_del rl f a = Ok (rl1, f1) ∧ rl_rp rl1 = rl_rp rl ∧
    rl_fext_add (rl_set_rp rl1 (<[a := rg_set_extent ra E]> (rl_rp rl))) f1 g a = Ok (0, rl2, f2, g2) ∧
    rl_rp rl2 = <[a := ra']> (rl_rp rl) ∧ rg_offset ra' = rg_offset ra ∧ rg_extent ra' = E ∧
    gs' ≡ₚ fs ∧ step_ok rl f V rl2 f2 fs gs' 1.
Proof.
  intros Hends Hsk Hgs Hok Hnd Ha Hra HE Hlen Hoff Hsp.
  assert (a ∈ gs) as (G1 & G2 & HG)%list_elem_of_split by by rewrite Hgs.
  assert (NoDup gs) as Hndg by by rewrite Hgs.
  destruct (fext_del_step rl f V fs gs Hends Hsk G1 a G2 HG) as (rl1 & f1 & Hd1 & Hrp1 & Hs1).
  { intros x Hx. rewrite Hgs in Hx. destruct (Hok x Hx) as (? & r & Hr & _ & ? & _).
    split; [done|]. intros r' Hr'. rewrite Hr in Hr'. injection Hr' as <-. lia. }
  pose proof Hs1 as (Hfr1 & Hsk1 & Hm1 & Hk1 & Hsp1).
  assert (a ∉ G1 ++ G2) as Hna.
  { rewrite HG in Hndg. apply NoDup_app in Hndg as (_ & Hd & [? _]%NoDup_cons).
    intros [Hx|Hx]%elem_of_app; [|done]. apply (Hd a Hx). constructor. }
  assert (rl_ends rl1) as Hends1 by (apply rl_ends_frame with rl; [done..| |]; by rewrite Hrp1).
  assert (4 ≤ a < rl_nalloc rl + 4) as Hslot by apply (Hok a Ha).
  rewrite <- Hrp1 in Hra |- *.
  set (rlx := rl_set_rp rl1 (<[a := rg_set_extent ra E]> (rl_rp rl1))).
  assert (rl_ends rlx) as Hendsx by (apply ends_write; [done|lia]).
  assert (skoe rlx f1 V fs (G1 ++ G2)) as Hskx by (eapply skoe_write; [done..|lia|done|done]).
  assert (rl_nalloc rlx = rl_nalloc rl) as Hnax.
  { unfold rlx. rewrite rl_nalloc_set_rp. by apply frame_nalloc. }
  destruct (fext_add_step rlx f1 V fs (G1 ++ G2) Hendsx Hskx a (rg_set_extent ra E) g)
    as (rl2 & f2 & g2 & b & Hadd & Hrp2 & Hs2).
  - unfold rlx. rewrite rl_rp_set. apply lookup_insert_eq.
  - by rewrite Hnax.
  - done.
  - rewrite Hnax. apply Permutation_length in Hgs. rewrite HG, length_app in Hgs. simpl in Hgs.
    rewrite length_app. lia.
  - intros x Hx. assert (x ≠ a) as Hxa by congruence. unfold rg_off, rlx.
    rewrite rl_rp_set, lookup_insert_ne, Hrp1 by done.
    assert (x ∈ fs) as Hxf by (rewrite <- Hgs, HG; set_solver).
    split; [|by apply Hoff]. destruct (Hok x Hxf) as (_ & r & -> & _). eauto.
  - done.
  - lia.
  - match type of Hs2 with step_ok _ _ _ _ _ _ ?gs' _ =>
      exists rl1, f1, rl2, f2, g2, (rg_set_prev (rg_set_extent ra E) b), gs' end.
    destruct Hs2 as (Hfr2 & Hsk2 & Hm2 & Hk2 & Hsp2).
    split_and!; [done..| |done|done| |].
    + rewrite Hrp2. unfold rlx. rewrite rl_rp_set. apply insert_insert_eq.
    + rewrite <- Hgs, HG. rewrite below_above_perm; [solve_Permutation|apply _|].
      by apply skoe_sorted in Hskx as [_ ?].
    + unfold step_ok. split_and!; [|done|congruence|by eapply keeps_trans|lia].
      rewrite Hfr2. unfold rlx. by rewrite rl_frame_rp.
Qed.

(** The tiling when [a] absorbs [b]. *)
Lemma tiled_merge off ext off' ext' base limit T1 a b T2 :
  tiled off ext base (T1 ++ a :: b :: T2) limit → NoDup (T1 ++ a :: b :: T2) →
  off' a = off a → ext' a = ext a + ext b →
  (∀ x, x ≠ a → x ≠ b → off' x = off x ∧ ext' x = ext x) →
  tiled off' ext' base (T1 ++ a :: T2) limit.
Proof.
  intros (m & H1 & Ha & Hea & Hb & Heb & H2)%tiled_app Hnd Ho He Hx.
  apply NoDup_app in Hnd as (_ & Hd & [Ha2 [Hb2 _]%NoDup_cons]%NoDup_cons).
  apply tiled_app. exists m. split.
  - eapply tiled_ext; [|exact H1]. intros x Hx1. apply Hx; intros ->; apply (Hd _ Hx1); set_solver.
  - simpl. split_and!; [congruence|lia|]. rewrite He, Z.add_assoc.
    eapply tiled_ext; [|exact H2]. intros x Hx2. apply Hx; set_solver.
Qed.

(** The slots when free slot [b] becomes empty and free slot [a] is resized. *)
Lemma rl_tab_discard rl rl' es fs us lb a b fs' ra' rb' :
  rl_tab rl es fs us lb → fs ≡ₚ b :: fs' → a ∈ fs → a ≠ b →
  rl_rp rl' = <[b := rb']> (<[a := ra']> (rl_rp rl)) →
  IsFree ra' = true → rg_next rb' = rl_empty rl →
  rl_nalloc rl' = rl_nalloc rl → rl_foff rl' = rl_foff rl → rl_fext rl' = rl_fext rl →
  rl_nchains rl' = rl_nchains rl → rl_magic rl' = rl_magic rl → rl_chains rl' = rl_chains rl →
  rl_empty rl' = b → rl_nempty rl' = u64 (rl_nempty rl + 1) →
  rl_nfree rl' = u64 (rl_nfree rl - 1) → rl_nelems rl' = rl_nelems rl →
  rl_tab rl' (b :: es) fs' us lb.
Proof.
  intros Htab Hfs Ha Hab Hrp Hfa Hnb Hna Hfo Hfe Hnc Hmg Hch Hem Hne Hnf Hnl.
  pose proof (rt_counts _ _ _ _ _ Htab) as [Hc Hc2].
  pose proof (rt_NoDup _ _ _ _ _ Htab) as Hnd.
  assert (b ∈ fs) as Hb by (rewrite Hfs; constructor).
  pose proof (rt_slot _ _ _ _ _ Htab a ltac:(set_solver)) as Hsa.
  pose proof (rt_slot _ _ _ _ _ Htab b ltac:(set_solver)) as Hsb.
  pose proof (Permutation_length Hfs) as Hlen. simpl in Hlen.
  apply NoDup_app in Hnd as (_ & Hd1 & Hnd). apply NoDup_app in Hnd as (Hndf & Hd2 & _).
  assert (∀ x, x ∉ fs → rl_rp rl' !! x = rl_rp rl !! x) as Hsame.
  { intros x Hx. rewrite Hrp, !lookup_insert_ne by congruence. done. }
  destruct Htab. split.
  - apply rl_ends_ext with rl; try done.
    + intros i Hi. rewrite Hrp, !lookup_insert_ne by lia. done.
    + intros i Hi. rewrite Hrp, !lookup_insert. repeat case_decide; eauto.
  - rewrite Hna, <- rt_perm, Hfs. solve_Permutation.
  - rewrite Hem. split; [done|]. exists (rl_empty rl). rewrite Hrp, lookup_insert_eq. simpl.
    rewrite Hnb. split; [done|]. eapply linked_ext; [|exact rt_empty]. intros x Hx. simpl.
    rewrite !lookup_insert_ne; [done|intros ->; apply (Hd1 x Hx); set_solver..].
  - rewrite Hne, rt_nempty, u64_small; simpl; lia.
  - rewrite Hnf, rt_nfree, u64_small; lia.
  - by rewrite Hnl.
  - eapply hash_inv_ext; [exact rt_hash|done..|]. intros x r Hx Hr.
    exists r. rewrite Hsame; [done|]. intros Hxf. apply (Hd2 x Hxf). set_solver.
  - intros x Hx. unfold in_use. rewrite Hsame; [by apply rt_used|].
    intros Hxf. apply (Hd2 x Hxf). set_solver.
  - intros x r Hx Hr. rewrite Hrp in Hr.
    assert (x ≠ b) as Hxb.
    { intros ->. rewrite Hfs in Hndf. apply NoDup_cons in Hndf as [? _].
      apply elem_of_app in Hx as [Hx|Hx]; [done|]. apply (Hd2 b Hb). set_solver. }
    rewrite lookup_insert_ne in Hr by done. rewrite lookup_insert in Hr.
    case_decide; [congruence|]. eapply rt_free; [|done]. rewrite Hfs. set_solver.
Qed.

(** The members that a frame fixes and that the slots depend on. *)
Lemma frame_members rl rl' :
  rl_frame rl' = rl_frame rl →
  rl_nalloc rl' = rl_nalloc rl ∧ rl_foff rl' = rl_foff rl ∧ rl_fext rl' = rl_fext rl ∧
  rl_nchains rl' = rl_nchains rl ∧ rl_magic rl' = rl_magic rl ∧ rl_chains rl' = rl_chains rl ∧
  rl_empty rl' = rl_empty rl ∧ rl_nempty rl' = rl_nempty rl ∧ rl_nfree rl' = rl_nfree rl ∧
  rl_nelems rl' = rl_nelems rl ∧ rl_maxfextent rl' = rl_maxfextent rl ∧
  rl_nbytes rl' = rl_nbytes rl.
Proof.
  intros Hf. split_and!; [by apply frame_nalloc|by apply frame_foff|by apply frame_fext|
    by apply frame_nchains|by apply frame_magic|by apply frame_chains|by apply frame_empty|
    by apply frame_nempty|by apply frame_nfree|by apply frame_nelems|by apply frame_maxfextent|
    by apply frame_nbytes].
Qed.

(** [rp_rel()] of a slot that is on no list. *)
Lemma rp_rel_spec rl f V os gs b rb :
  rl_ends rl → skoe rl f V os gs → rl_rp rl !! b = Some rb → 4 ≤ b < rl_nalloc rl + 4 →
  b ∉ os → b ∉ gs →
  ∃ rl', rp_rel rl b = Ok rl' ∧ skoe rl' f V os gs ∧
    rl_rp rl' = <[b := Region OFF_NONE 0 (rl_empty rl) (rg_prev rb)]> (rl_rp rl) ∧
    rl_nalloc rl' = rl_nalloc rl ∧ rl_foff rl' = rl_foff rl ∧ rl_fext rl' = rl_fext rl ∧
    rl_nchains rl' = rl_nchains rl ∧ rl_magic rl' = rl_magic rl ∧ rl_chains rl' = rl_chains rl ∧
    rl_empty rl' = b ∧ rl_nempty rl' = u64 (rl_nempty rl + 1) ∧ rl_nfree rl' = rl_nfree rl ∧
    rl_nelems rl' = rl_nelems rl ∧ rl_maxfextent rl' = rl_maxfextent rl ∧
    rl_nbytes rl' = rl_nbytes rl.
Proof.
  intros Hends Hsk Hb Hs Ho Hg. unfold rp_rel. rewrite (rd_Ok _ _ _ Hb), bind_Ok.
  rewrite assert_Ok by (unfold RL_FREE_OVERHEAD; lia). rewrite bind_Ok, wr_Ok, bind_Ok by eauto.
  eexists. split; [done|]. split; [|by destruct rl].
  eapply skoe_same; [|eapply (skoe_write rl f V os gs b rb); [done..|lia|done|done]].
  by destruct rl.
Qed.

Lemma core_facts rl f V base limit es fs us lb ts :
  rl_core rl f V base limit es fs us lb ts →
  NoDup fs ∧ Z.of_nat (length fs) ≤ rl_nalloc rl ∧
  (∀ x y, x ∈ ts → y ∈ ts → rg_off (rl_rp rl) x = rg_off (rl_rp rl) y → x = y).
Proof.
  intros []. pose proof (rt_counts _ _ _ _ _ rc_tab) as [? _].
  pose proof (rt_NoDup _ _ _ _ _ rc_tab) as Hnd.
  apply NoDup_app in Hnd as (_ & _ & Hnd). apply NoDup_app in Hnd as (? & _).
  split_and!; [done|lia|]. by eapply ts_off_inj.
Qed.

Section merge.
Context (rl : regionl) (f : fb) (V : gmap Z Z) (base limit : Z) (es fs us lb : list Z).
Context (T1 : list Z) (a b : Z) (T2 : list Z).
Context (Hcore : rl_core rl f V base limit es fs us lb (T1 ++ a :: b :: T2)).
Context (Ha : a ∈ fs) (Hb : b ∈ fs) (Hsp : 1 ≤ fb_spare f).
Abbreviation rp := (rl_rp rl).

(** The outcome of a merge. *)
Definition merged (rl' : regionl) (f' : fb) (fs' : list Z) : Prop :=
  fs ≡ₚ b :: fs' ∧ rl_core rl' f' V base limit (b :: es) fs' us lb (T1 ++ a :: T2) ∧
  rext (rl_rp rl') a = rext rp a + rext rp b ∧ rg_off (rl_rp rl') a = rg_off rp a ∧
  (∀ x, x ≠ a → x ≠ b → rl_rp rl' !! x = rp !! x) ∧
  rl_maxfextent rl' = rl_maxfextent rl ∧ rl_nbytes rl' = rl_nbytes rl ∧
  fb_maxsize f' = fb_maxsize f ∧ keeps V f f' ∧ fb_spare f - 1 ≤ fb_spare f'.

Lemma merge_regions :
  a ≠ b ∧ ∃ ra rb, rp !! a = Some ra ∧ rp !! b = Some rb ∧ IsFree ra = true ∧ IsFree rb = true ∧
    0 < rg_extent ra ∧ 0 < rg_extent rb ∧ 0 < rg_offset ra ∧ rg_extent ra + rg_extent rb < 2 ^ 63 ∧
    rext rp a = rg_extent ra ∧ rext rp b = rg_extent rb.
Proof.
  destruct (inv_free _ _ _ _ _ _ _ _ _ _ Hcore a Ha) as (_ & ra & Hra & ? & ? & ? & ?).
  destruct (inv_free _ _ _ _ _ _ _ _ _ _ Hcore b Hb) as (_ & rb & Hrb & ? & ? & ? & ?).
  pose proof (rc_tiled _ _ _ _ _ _ _ _ _ _ Hcore) as Ht.
  pose proof (rc_range _ _ _ _ _ _ _ _ _ _ Hcore) as [_ Hlim].
  destruct (tiled_range _ _ _ _ _ Ht) as [_ Hall].
  destruct (Hall a ltac:(set_solver)) as (Ha1 & _ & Ha2).
  destruct (Hall b ltac:(set_solver)) as (Hb1 & _ & Hb2).
  rewrite (rg_off_at _ _ _ Hra) in *. rewrite (rg_off_at _ _ _ Hrb) in *.
  apply tiled_mid in Ht as (_ & _ & Ht & _). specialize (Ht b ltac:(constructor)).
  rewrite (rg_off_at _ _ _ Hra), (rg_off_at _ _ _ Hrb) in Ht.
  split; [intros ->; rewrite Hra in Hrb; injection Hrb as ->; lia|].
  exists ra, rb. split_and!; try done; lia.
Qed.

(** The steps of [rl_merge()] on the lists. *)
Lemma merge_lists g ra rb :
  rp !! a = Some ra → rp !! b = Some rb →
  ∃ rl1 f1 rl2 f2 g2 rl4 f4 rl5 f5 ra' fs' gs', rl_fext_del rl f a = Ok (rl1, f1) ∧
    rl_rp rl1 = rp ∧
    rl_fext_add (rl_set_rp rl1 (<[a := rg_set_extent ra (rg_extent ra + rg_extent rb)]> rp)) f1 g a
      = Ok (0, rl2, f2, g2) ∧
    rl_foff_del (rl_set_nfree rl2 (u64 (rl_nfree rl2 - 1)) (rl_maxfree rl2)) f2 b = Ok (rl4, f4) ∧
    rl_fext_del rl4 f4 b = Ok (rl5, f5) ∧
    rl_frame rl5 = rl_frame (rl_set_nfree rl (u64 (rl_nfree rl - 1)) (rl_maxfree rl)) ∧
    rl_rp rl5 = <[a := ra']> rp ∧ rg_offset ra' = rg_offset ra ∧
    rg_extent ra' = rg_extent ra + rg_extent rb ∧ IsFree ra' = true ∧
    fs ≡ₚ b :: fs' ∧ gs' ≡ₚ fs' ∧ skoe rl5 f5 V fs' gs' ∧
    fb_maxsize f5 = fb_maxsize f ∧ keeps V f f5 ∧ fb_spare f - 1 ≤ fb_spare f5.
Proof.
  intros Hra' Hrb'. destruct merge_regions
    as (Hab & ra0 & rb0 & Hra & Hrb & Hfa & Hfb & Hea & Heb & Hoa & Hsum & Hxa & Hxb).
  rewrite Hra in Hra'. injection Hra' as <-. rewrite Hrb in Hrb'. injection Hrb' as <-.
  rename ra0 into ra, rb0 into rb.
  destruct (core_facts _ _ _ _ _ _ _ _ _ _ Hcore) as (Hnd & Hlen & Hinj).
  pose proof Hcore as [Htab (gs & Hgs & Hsk) Hrange Hts Htl].
  pose proof (rt_ends _ _ _ _ _ Htab) as Hends.
  pose proof (inv_free _ _ _ _ _ _ _ _ _ _ Hcore) as Hfree.
  destruct (resize_spec rl f V fs gs a ra (rg_extent ra + rg_extent rb) g Hends Hsk Hgs Hfree
    Hnd Ha Hra Hsum Hlen)
    as (rl1 & f1 & rl2 & f2 & g2 & ra' & gs2 & Hd1 & Hrp1 & Hadd & Hrp2 & Ho2 & He2 & Hgs2 & Hs2).
  { intros x Hx Hxa' Hoff. apply Hxa', Hinj; [rewrite Hts; set_solver..|].
    by rewrite Hoff, (rg_off_at _ _ _ Hra). }
  { done. }
  destruct Hs2 as (Hfr2 & Hsk2 & Hm2 & Hk2 & Hsp2).
  assert (IsFree ra' = true) as Hfa'.
  { apply IsFree_even. apply IsFree_even in Hfa, Hfb. rewrite He2. div_lia. }
  set (rl3 := rl_set_nfree rl2 (u64 (rl_nfree rl2 - 1)) (rl_maxfree rl2)).
  assert (same_lists rl2 rl3) as Hsame by (by destruct rl2).
  assert (rl_rp rl3 = <[a := ra']> rp) as Hrp3 by (unfold rl3; by rewrite rl_rp_nfree).
  assert (rl_ends rl3) as Hends3.
  { apply rl_ends_same with rl2; [apply Hsame|]. apply rl_ends_frame with rl; [done..| |];
      rewrite Hrp2.
    - intros i Hi. apply lookup_insert_ne. destruct (Hfree a Ha) as [? _]. lia.
    - intros i Hi. rewrite lookup_insert. case_decide; eauto. }
  destruct (take_off rl3 f2 V fs gs2 b Hends3 (skoe_same _ _ _ _ _ _ Hsame Hsk2) Hgs2)
    as (rl4 & f4 & rl5 & f5 & F1 & F2 & gs5 & Hd4 & Hd5 & Hrp5 & HF & Hgs5 & Hs5); [|done|].
  { intros x Hx. unfold free_ok. rewrite Hrp3.
    assert (rl_nalloc rl3 = rl_nalloc rl) as -> by (unfold rl3; via rl2 frame_nalloc).
    destruct (Hfree x Hx) as (? & r & Hr & ? & ? & ? & ?). split; [done|].
    unfold rext. rewrite lookup_insert. case_decide as Hd.
    - exists ra'. subst x. simpl. rewrite Extent_free by done. split_and!; try done; lia.
    - exists r. split_and!; try done; lia. }
  destruct Hs5 as (Hfr5 & Hsk5 & Hm5 & Hk5 & Hsp5).
  exists rl1, f1, rl2, f2, g2, rl4, f4, rl5, f5, ra', (F1 ++ F2), gs5.
  split_and!; [done..| | |done|done|done| |done|done|congruence|by eapply keeps_trans|lia].
  - rewrite Hfr5. unfold rl3. rewrite (frame_nfree _ _ Hfr2), (frame_maxfree _ _ Hfr2).
    destruct rl2, rl; unfold rl_frame in *; simpl in *. injection Hfr2 as; subst; done.
  - by rewrite Hrp5.
  - rewrite HF. solve_Permutation.
Qed.

Lemma rl_merge_spec g :
  ∃ rl' f' g' fs', rl_merge rl f g a b = Ok (rl', f', g') ∧ merged rl' f' fs'.
Proof.
  destruct merge_regions as (Hab & ra & rb & Hra & Hrb & _ & _ & ? & ? & _ & Hsum & Hxa & Hxb).
  destruct (merge_lists g ra rb Hra Hrb) as (rl1 & f1 & rl2 & f2 & g2 & rl4 & f4 & rl5 & f5 & ra' &
    fs' & gs' & Hd1 & Hrp1 & Hadd & Hd4 & Hd5 & Hfr & Hrp5 & Ho & He & Hfa & Hfs & Hgs & Hsk & Hm & Hk & Hs).
  pose proof Hcore as [Htab _ Hrange Hts Htl].
  destruct (core_facts _ _ _ _ _ _ _ _ _ _ Hcore) as (Hnd & _ & _).
  assert (rl_rp rl5 !! b = Some rb) as Hb5 by by rewrite Hrp5, lookup_insert_ne.
  destruct (frame_members _ _ Hfr) as (Hna & Hfo & Hfe & Hnc & Hmg & Hch & Hem & Hne & Hnf & Hnl & Hmx & Hnb).
  pose proof (rt_slot _ _ _ _ _ Htab b ltac:(set_solver)) as Hsb.
  pose proof (rt_slot _ _ _ _ _ Htab a ltac:(set_solver)) as Hsa.
  assert (b ∉ fs') as Hbf by (rewrite Hfs in Hnd; by apply NoDup_cons in Hnd as [? _]).
  destruct (rp_rel_spec rl5 f5 V fs' gs' b rb) as (rl6 & Hrel & Hsk6 & Hrp6 & Hna6 & Hfo6 & Hfe6 &
    Hnc6 & Hmg6 & Hch6 & Hem6 & Hne6 & Hnf6 & Hnl6 & Hmx6 & Hnb6).
  { apply rl_ends_ext with rl; [apply (rt_ends _ _ _ _ _ Htab)|..].
    - rewrite Hna. by destruct rl.
    - rewrite Hfo. by destruct rl.
    - rewrite Hfe. by destruct rl.
    - intros i Hi. rewrite Hrp5. apply lookup_insert_ne. lia.
    - intros i Hi. rewrite Hrp5, lookup_insert. case_decide; eauto. }
  { done. } { done. } { rewrite Hna. by destruct rl. } { done. } { by rewrite Hgs. }
  unfold rl_merge. rewrite Hd1, bind_Ok, Hrp1, (rd_Ok _ _ _ Hra), bind_Ok, (rd_Ok _ _ _ Hrb), bind_Ok.
  rewrite u64_small by lia. rewrite wr_Ok, bind_Ok, Hadd, bind_Ok, Hd4, bind_Ok, Hd5, bind_Ok by eauto.
  rewrite Hrel, bind_Ok. exists rl6, f5, g2, fs'. split; [done|].
  assert (rl_rp rl6 = <[b := Region OFF_NONE 0 (rl_empty rl5) (rg_prev rb)]> (<[a := ra']> rp))
    as Hrp by by rewrite Hrp6, Hrp5.
  assert (rext (rl_rp rl6) a = rext rp a + rext rp b) as Hext.
  { unfold rext at 1. rewrite Hrp, lookup_insert_ne, lookup_insert_eq by done. simpl.
    rewrite Extent_free by done. lia. }
  assert (rg_off (rl_rp rl6) a = rg_off rp a) as Hoff.
  { unfold rg_off at 1. rewrite Hrp, lookup_insert_ne, lookup_insert_eq by done. simpl.
    by rewrite (rg_off_at _ _ _ Hra). }
  assert (∀ x, x ≠ a → x ≠ b → rl_rp rl6 !! x = rp !! x) as Hx.
  { intros x ??. by rewrite Hrp, !lookup_insert_ne. }
  unfold merged. split_and!; [done| |done..| | |done|done|lia].
  - split.
    + eapply (rl_tab_discard rl rl6 es fs us lb a b fs'); [done|done|done|done|exact Hrp|done|..]; simpl.
      all: rewrite ?Hna6, ?Hfo6, ?Hfe6, ?Hnc6, ?Hmg6, ?Hch6, ?Hem6, ?Hne6, ?Hnf6, ?Hnl6,
             ?Hna, ?Hfo, ?Hfe, ?Hnc, ?Hmg, ?Hch, ?Hem, ?Hne, ?Hnf, ?Hnl; by destruct rl.
    + eauto.
    + done.
    + apply (Permutation_cons_inv (a := b)).
      trans (T1 ++ a :: b :: T2); [solve_Permutation|]. rewrite Hts, Hfs. solve_Permutation.
    + eapply tiled_merge; [exact Htl| |done|done|].
      * by eapply ts_NoDup.
      * intros x ??. unfold rg_off, rext. by rewrite Hx.
  - rewrite Hmx6, Hmx. by destruct rl.
  - rewrite Hnb6, Hnb. by destruct rl.
Qed.
End merge.

(** ** Neighbours *)

Section neighbours.
Context (rl : regionl) (f : fb) (V : gmap Z Z) (base limit : Z) (es fs us lb : list Z).
Context (T1 : list Z) (p : Z) (T2 F1 F2 : list Z).
Context (Hcore : rl_core rl f V base limit es fs us lb (T1 ++ p :: T2)).
Context (Hfs : fs = F1 ++ p :: F2).
Abbreviation rp := (rl_rp rl).

(** The list by offset is sorted by offset. *)
Lemma fs_order l1 x l2 y :
  fs = l1 ++ x :: l2 → y ∈ l2 → rg_off rp x < rg_off rp y.
Proof using Hcore.
  clear Hfs. intros Heq Hy. destruct (rc_skip _ _ _ _ _ _ _ _ _ _ Hcore) as (gs & _ & Hsk).
  apply skoe_sorted in Hsk as [Hs _]. rewrite Heq in Hs.
  apply sorted_app in Hs as (_ & Hs & _). apply StronglySorted_inv in Hs as [_ Hf].
  rewrite Forall_forall in Hf. specialize (Hf y Hy). unfold node_lt in Hf.
  destruct (inv_free _ _ _ _ _ _ _ _ _ _ Hcore x) as (_ & rx & Hrx & _); [rewrite Heq; set_solver|].
  destruct (inv_free _ _ _ _ _ _ _ _ _ _ Hcore y) as (_ & ry & Hry & _); [rewrite Heq; set_solver|].
  rewrite (nkey_at _ _ _ _ Hrx), (nkey_at _ _ _ _ Hry) in Hf.
  rewrite (rg_off_at _ _ _ Hrx), (rg_off_at _ _ _ Hry). unfold lex_ltb, foff_key in Hf. simpl in Hf.
  lia.
Qed.

(** Members of the tiling before and after [p]. *)
Lemma ts_sides x :
  x ∈ fs → x ≠ p →
  (x ∈ T1 ∧ rg_off rp x + rext rp x ≤ rg_off rp p ∧ 0 < rext rp x) ∨
  (x ∈ T2 ∧ rg_off rp p + rext rp p ≤ rg_off rp x).
Proof using Hcore.
  clear Hfs. intros Hx Hne. pose proof (rc_tiled _ _ _ _ _ _ _ _ _ _ Hcore) as Ht.
  assert (x ∈ T1 ++ p :: T2) as Hin by (rewrite (rc_ts _ _ _ _ _ _ _ _ _ _ Hcore); set_solver).
  pose proof (tiled_range _ _ _ _ _ Ht) as [_ Hr].
  apply tiled_mid in Ht as (H1 & Hp & H2 & _).
  apply elem_of_app in Hin as [Hin|[->|Hin]%elem_of_cons]; [left|done|right].
  - destruct (Hr x ltac:(set_solver)) as (_ & ? & _). auto.
  - auto.
Qed.

Lemma ext_pos : 0 < rext rp p.
Proof.
  pose proof (rc_tiled _ _ _ _ _ _ _ _ _ _ Hcore) as Ht. by apply tiled_mid in Ht as (_ & ? & _).
Qed.

(** The next free region touches [p] exactly if it is the next region. *)
Lemma right_next y F2' :
  F2 = y :: F2' → rg_off rp p + rext rp p = rg_off rp y → ∃ T2', T2 = y :: T2'.
Proof.
  intros HF2 Heq. pose proof ext_pos as Hp.
  assert (y ∈ fs) as Hy by (rewrite Hfs, HF2; set_solver).
  pose proof (fs_order F1 p F2 y Hfs ltac:(rewrite HF2; constructor)) as Hlt.
  destruct (ts_sides y Hy) as [(_ & ? & ?)|[HyT _]]; [intros ->; lia|lia|].
  destruct T2 as [|z T2'] eqn:HT; [by apply elem_of_nil in HyT|].
  pose proof (rc_tiled _ _ _ _ _ _ _ _ _ _ Hcore) as Ht. apply tiled_app in Ht as (m & _ & Hm & _ & Hz & _).
  exists T2'. f_equal. destruct (core_facts _ _ _ _ _ _ _ _ _ _ Hcore) as (_ & _ & Hinj).
  apply Hinj; [set_solver..|]. lia.
Qed.

Lemma right_none z T2' :
  T2 = z :: T2' → z ∈ fs →
  ∃ y F2', F2 = y :: F2' ∧ rg_off rp p + rext rp p = rg_off rp y.
Proof.
  intros HT Hz. pose proof ext_pos as Hp.
  pose proof (rc_tiled _ _ _ _ _ _ _ _ _ _ Hcore) as Ht. rewrite HT in Ht.
  apply tiled_app in Ht as (m & _ & Hm & _ & Hoz & _).
  assert (z ∈ F2) as HzF.
  { pose proof Hz as Hz'. rewrite Hfs in Hz'.
    apply elem_of_app in Hz' as [Hz'|[->|Hz']%elem_of_cons]; [|lia|done].
    apply list_elem_of_split in Hz' as (l1 & l2 & HF).
    assert (fs = l1 ++ z :: l2 ++ p :: F2) as HE by (rewrite Hfs, HF; by rewrite <- app_assoc).
    pose proof (fs_order l1 z (l2 ++ p :: F2) p HE ltac:(set_solver)). lia. }
  destruct F2 as [|y F2'] eqn:HF2; [by apply elem_of_nil in HzF|]. exists y, F2'. split; [done|].
  assert (y ∈ fs) as Hy by (rewrite Hfs; set_solver).
  pose proof (fs_order F1 p _ y Hfs ltac:(constructor)) as Hlt.
  assert (y ≠ p) as Hyp by (intros ->; lia).
  destruct (ts_sides y Hy Hyp) as [(_ & ? & ?)|[_ Hge]]; [lia|].
  apply elem_of_cons in HzF as [->|HzF]; [lia|].
  assert (fs = (F1 ++ [p]) ++ y :: F2') as Hfs' by (rewrite Hfs; by rewrite <- app_assoc).
  pose proof (fs_order _ y F2' z Hfs' HzF). lia.
Qed.

(** The same for the free region before [p]. *)
Lemma left_end z T1' : T1 = T1' ++ [z] → rg_off rp z + rext rp z = rg_off rp p ∧ z ∈ T1.
Proof.
  intros HT. pose proof (rc_tiled _ _ _ _ _ _ _ _ _ _ Hcore) as Ht. rewrite HT in Ht.
  rewrite <- app_assoc in Ht. apply tiled_app in Ht as (m & _ & Hz & _ & Hp & _).
  split; [lia|rewrite HT; set_solver].
Qed.

Lemma left_prev y F1' :
  F1 = F1' ++ [y] → rg_off rp y + rext rp y = rg_off rp p → ∃ T1', T1 = T1' ++ [y].
Proof.
  intros HF1 Heq. pose proof ext_pos as Hp.
  assert (y ∈ fs) as Hy by (rewrite Hfs, HF1; set_solver).
  assert (fs = F1' ++ y :: p :: F2) as HE by (rewrite Hfs, HF1; by rewrite <- app_assoc).
  pose proof (fs_order F1' y _ p HE ltac:(constructor)) as Hlt.
  destruct (ts_sides y Hy) as [(HyT & _ & Hpos)|[_ ?]]; [intros ->; lia| |lia].
  destruct (last T1) as [z|] eqn:Hl; [|apply last_None in Hl; rewrite Hl in HyT; by apply elem_of_nil in HyT].
  apply last_Some in Hl as [T1' HT]. exists T1'. rewrite HT. do 2 f_equal.
  destruct (left_end z T1' HT) as [Hz HzT].
  pose proof (rc_tiled _ _ _ _ _ _ _ _ _ _ Hcore) as Ht.
  pose proof (tiled_range _ _ _ _ _ Ht) as [_ Hr]. destruct (Hr z) as (_ & Hpz & _); [set_solver|].
  rewrite HT in HyT. apply elem_of_app in HyT as [HyT|HyT%list_elem_of_singleton]; [|done].
  rewrite HT, <- app_assoc in Ht. apply tiled_mid in Ht as (Hlo & _). specialize (Hlo y HyT). lia.
Qed.

Lemma left_none z T1' :
  T1 = T1' ++ [z] → z ∈ fs →
  ∃ y F1', F1 = F1' ++ [y] ∧ rg_off rp y + rext rp y = rg_off rp p.
Proof.
  intros HT Hz. destruct (left_end z T1' HT) as [Hze HzT]. pose proof ext_pos as Hp.
  pose proof (rc_tiled _ _ _ _ _ _ _ _ _ _ Hcore) as Ht.
  pose proof (tiled_range _ _ _ _ _ Ht) as [_ Hr]. destruct (Hr z) as (_ & Hpz & _); [set_solver|].
  assert (z ∈ F1) as HzF.
  { pose proof Hz as Hz'. rewrite Hfs in Hz'.
    apply elem_of_app in Hz' as [Hz'|[->|Hz']%elem_of_cons]; [done|lia|].
    pose proof (fs_order F1 p F2 z Hfs Hz'). lia. }
  destruct (last F1) as [y|] eqn:Hl; [|apply last_None in Hl; rewrite Hl in HzF; by apply elem_of_nil in HzF].
  apply last_Some in Hl as [F1' HF]. exists y, F1'. split; [done|].
  assert (fs = F1' ++ y :: p :: F2) as HE by (rewrite Hfs, HF; by rewrite <- app_assoc).
  rewrite HF in HzF. apply elem_of_app in HzF as [HzF|HzF%list_elem_of_singleton]; [|by subst].
  assert (y ∈ fs) as Hy by (rewrite HE; set_solver).
  pose proof (fs_order F1' y _ p HE ltac:(constructor)) as Hlt.
  destruct (ts_sides y Hy) as [(HyT & _ & Hpy)|[_ ?]]; [intros ->; lia| |lia].
  apply list_elem_of_split in HzF as (l1 & l2 & HF').
  assert (fs = l1 ++ z :: l2 ++ y :: p :: F2) as HE2 by (rewrite HE, HF'; by rewrite <- app_assoc).
  pose proof (fs_order l1 z _ y HE2 ltac:(set_solver)) as Hzy.
  rewrite HT, <- app_assoc in Ht. apply tiled_mid in Ht as (Hlo & _).
  rewrite HT in HyT. apply elem_of_app in HyT as [HyT|HyT%list_elem_of_singleton]; [|subst; lia].
  specialize (Hlo y HyT). lia.
Qed.

(** *** The neighbours that the code looks up *)

Lemma foff_key_free x : x ∈ fs → nkey foff_key rp x = (rg_off rp x, 0).
Proof using Hcore.
  intros Hx. destruct (inv_free _ _ _ _ _ _ _ _ _ _ Hcore x Hx) as (_ & r & Hr & _).
  by rewrite (nkey_at _ _ _ _ Hr), (rg_off_at _ _ _ Hr).
Qed.

Lemma rl_foff_next_spec : rl_foff_next rl f p = Ok (head_or RL_FOFF_TL F2).
Proof.
  destruct (rc_skip _ _ _ _ _ _ _ _ _ _ Hcore) as (gs & _ & U1 & U2 & H1 & _ & Hown & _).
  assert (p ∈ fs) as Hp by (rewrite Hfs; set_solver).
  destruct (inv_free _ _ _ _ _ _ _ _ _ _ Hcore p Hp) as (_ & r & Hr & _ & Hre & Hfree & _).
  pose proof (sl_fwd_next _ _ _ _ _ _ _ (ki_rep _ _ _ _ _ _ H1) F1 p F2 Hfs) as Hn.
  unfold sl_fwd, sk_blkof in Hn. rewrite (rd_Ok _ _ _ Hr) in Hn. simpl in Hn.
  rewrite Z.add_0_r in Hn.
  unfold rl_foff_next. rewrite (rd_Ok _ _ _ Hr), bind_Ok, assert_Ok, bind_Ok by done.
  rewrite assert_Ok by by eapply fb_own_magic. rewrite bind_Ok, Hn, bind_Ok.
  assert (∃ r', rp !! head_or RL_FOFF_TL F2 = Some r' ∧ IsFree r' = true ∧ rg_offset r < rg_offset r')
    as (r' & Hr' & Hf' & Ho').
  { unfold head_or. destruct F2 as [|y F2'] eqn:HF2; simpl.
    - destruct (re_foff_tl _ (rt_ends _ _ _ _ _ (rc_tab _ _ _ _ _ _ _ _ _ _ Hcore)))
        as (rt & Hrt & Ht & Hf). exists rt. split_and!; [done..|]. rewrite Ht.
      change huge_off_t with (2 ^ 63 - 1).
      destruct (free_region _ _ _ _ _ _ _ _ (rc_tab _ _ _ _ _ _ _ _ _ _ Hcore)
        (rc_range _ _ _ _ _ _ _ _ _ _ Hcore) (rc_ts _ _ _ _ _ _ _ _ _ _ Hcore)
        (rc_tiled _ _ _ _ _ _ _ _ _ _ Hcore) p Hp) as (r0 & Hr0 & _ & ? & ? & _).
      rewrite Hr in Hr0. injection Hr0 as <-. lia.
    - destruct (inv_free _ _ _ _ _ _ _ _ _ _ Hcore y) as (_ & ry & Hry & _ & _ & Hfy & _);
        [rewrite Hfs; set_solver|]. exists ry. split_and!; [done..|].
      pose proof (fs_order F1 p _ y Hfs ltac:(constructor)) as Hlt.
      by rewrite (rg_off_at _ _ _ Hr), (rg_off_at _ _ _ Hry) in Hlt. }
  rewrite (rd_Ok _ _ _ Hr'), bind_Ok, assert_Ok, bind_Ok, assert_Ok, bind_Ok by (done || lia). done.
Qed.

Lemma below_p r : rp !! p = Some r → below lex_ltb (nkey foff_key rp) (foff_key r) fs = F1.
Proof.
  intros Hr. destruct (rc_skip _ _ _ _ _ _ _ _ _ _ Hcore) as (gs & _ & Hsk).
  apply skoe_sorted in Hsk as [Hs _]. rewrite Hfs in Hs |- *.
  destruct (sorted_at lex_ltb (nkey foff_key rp) F1 p F2 Hs) as [Hlt Hge].
  rewrite (nkey_at _ _ _ _ Hr) in Hlt, Hge. unfold below. rewrite filter_app.
  rewrite filter_all, (filter_none _ (p :: F2)), app_nil_r; [done|..].
  - intros x Hx. rewrite (Hge x Hx). done.
  - intros x Hx. by rewrite (Hlt x Hx).
Qed.

Lemma rl_foff_prev_spec : rl_foff_prev rl f p = Ok (last_or RL_FOFF_HD F1).
Proof.
  destruct (rc_skip _ _ _ _ _ _ _ _ _ _ Hcore) as (gs & _ & U1 & U2 & H1 & _ & Hown & _).
  pose proof (rt_ends _ _ _ _ _ (rc_tab _ _ _ _ _ _ _ _ _ _ Hcore)) as Hends.
  assert (p ∈ fs) as Hp by (rewrite Hfs; set_solver).
  destruct (inv_free _ _ _ _ _ _ _ _ _ _ Hcore p Hp) as (_ & r & Hr & Hpos & Hre & Hfree & _).
  unfold rl_foff_prev.
  rewrite (sk_prev_spec foff foff_key rl f U1 (U2 ∪ V) fs H1 Hown p r Hr Hfree).
  2: { apply ltb_asym; [apply _|]. rewrite <- (nkey_at foff_key _ _ _ Hr).
       by apply (ki_tail _ _ _ _ _ _ H1). }
  rewrite bind_Ok, (below_p r Hr), (rd_Ok _ _ _ Hr), bind_Ok. simpl. rewrite (re_foff _ Hends).
  assert (∃ r', rp !! last_or RL_FOFF_HD F1 = Some r' ∧ IsFree r' = true ∧ rg_offset r' < rg_offset r)
    as (r' & Hr' & Hf' & Ho').
  { unfold last_or. destruct (last F1) as [y|] eqn:Hl; simpl.
    - apply last_Some in Hl as [F1' HF1].
      assert (fs = F1' ++ y :: p :: F2) as HE by (rewrite Hfs, HF1; by rewrite <- app_assoc).
      destruct (inv_free _ _ _ _ _ _ _ _ _ _ Hcore y) as (_ & ry & Hry & _ & _ & Hfy & _);
        [rewrite HE; set_solver|]. exists ry. split_and!; [done..|].
      pose proof (fs_order F1' y _ p HE ltac:(constructor)) as Hlt.
      by rewrite (rg_off_at _ _ _ Hr), (rg_off_at _ _ _ Hry) in Hlt.
    - destruct (re_foff_hd _ Hends) as (rh & Hrh & Hh & Hf). exists rh. rewrite Hh. done. }
  rewrite (rd_Ok _ _ _ Hr'), bind_Ok, assert_Ok, bind_Ok, assert_Ok, bind_Ok by (done || lia). done.
Qed.
End neighbours.

(** The test for adjacency, on free regions. *)
Lemma mergeable_touch rl f V base limit es fs us lb ts a b ra rb :
  rl_core rl f V base limit es fs us lb ts → a ∈ fs → b ∈ fs →
  rl_rp rl !! a = Some ra → rl_rp rl !! b = Some rb →
  mergeable ra rb = (rg_off (rl_rp rl) a + rext (rl_rp rl) a =? rg_off (rl_rp rl) b).
Proof.
  intros [Htab _ Hr Hts Htl] Ha Hb Hra Hrb. unfold mergeable.
  destruct (free_region _ _ _ _ _ _ _ _ Htab Hr Hts Htl a Ha) as (r1 & Hq1 & ? & ? & ? & _ & He).
  destruct (free_region _ _ _ _ _ _ _ _ Htab Hr Hts Htl b Hb) as (r2 & Hq2 & ? & ? & ? & _).
  rewrite Hra in Hq1. injection Hq1 as <-. rewrite Hrb in Hq2. injection Hq2 as <-.
  rewrite (rg_off_at _ _ _ Hra), (rg_off_at _ _ _ Hrb), He, !u64_small by lia. done.
Qed.

Lemma sep_sub fs fs' ts : sep fs ts → (∀ x, x ∈ ts → x ∈ fs' → x ∈ fs) → sep fs' ts.
Proof.
  intros Hs Hx l1 x y l2 -> H1 H2. eapply Hs; [done|apply Hx; [set_solver|done]..].
Qed.

Lemma sep_app_inv fs l1 p l2 : sep fs (l1 ++ p :: l2) → sep fs l1 ∧ sep fs l2.
Proof.
  intros Hs. split; intros A x y B HE; [apply (Hs A x y (B ++ p :: l2))|apply (Hs (l1 ++ p :: A) x y B)];
    rewrite HE; by rewrite <- app_assoc.
Qed.

Lemma sep_join fs l1 p l2 :
  sep fs l1 → sep fs l2 → (∀ z l, l1 = l ++ [z] → z ∉ fs) → (∀ z l, l2 = z :: l → z ∉ fs) →
  sep fs (l1 ++ p :: l2).
Proof.
  intros H1 H2 Hl Hr A x y B HE Hx Hy.
  apply app_eq_inv in HE as [(k & HA & HB)|(k & HA & HB)].
  - destruct k as [|z k]; simplify_eq/=.
    + by eapply (Hr y).
    + destruct k as [|z' k]; simplify_eq/=.
      * by eapply (Hl z).
      * by eapply H1.
  - destruct k as [|z k]; simplify_eq/=.
    + by eapply (Hr y).
    + by eapply H2.
Qed.
