(* ===== verification/RegionFree.v ===== *)
(** * Returning and cutting regions

    [rl_consolidate()], [rl_put()], [rl_free()], [rl_add()] and [rl_split()]
    preserve the invariant of RegionAlloc.v, and [rl_init()] establishes it. *)

From S2P Require Import Prelude NumTheory Fb SkipList RegionList RegionSkip RegionHash.
From S2P Require Import RegionAlloc RegionMerge.

(** ** [rl_consolidate()] *)

(** How the free regions changed while [p] grew into [p']. *)
Record fused (p : Z) (rp : gmap Z region) (fs us lb : list Z)
    (p' : Z) (rp' : gmap Z region) (fs' : list Z) : Prop := {
  fu_in : p' ∈ fs';
  fu_new x : x ∈ fs' → x ≠ p' → x ∈ fs ∧ x ≠ p ∧ rext rp' x = rext rp x;
  fu_old x : x ∈ fs → x ≠ p → (x ∈ fs' ∧ x ≠ p' ∧ rext rp' x = rext rp x) ∨ rext rp x < rext rp' p';
  fu_grow : rext rp p ≤ rext rp' p';
  fu_used x : x ∈ us ++ lb → rp' !! x = rp !! x;
}.

Lemma fused_refl p rp fs us lb : p ∈ fs → fused p rp fs us lb p rp fs.
Proof. split; try done. intros x Hx Hne. by left. Qed.

Lemma fused_trans p rp fs us lb p1 rp1 fs1 p2 rp2 fs2 :
  fused p rp fs us lb p1 rp1 fs1 → fused p1 rp1 fs1 us lb p2 rp2 fs2 →
  fused p rp fs us lb p2 rp2 fs2.
Proof.
  intros [] []. split; [done| | |lia|].
  - intros x Hx Hne. destruct (fu_new1 x Hx Hne) as (Hx1 & Hne1 & He1).
    destruct (fu_new0 x Hx1 Hne1) as (? & ? & He). split_and!; [done..|congruence].
  - intros x Hx Hne. destruct (fu_old0 x Hx Hne) as [(Hx1 & Hne1 & He1)|]; [|right; lia].
    destruct (fu_old1 x Hx1 Hne1) as [(? & ? & He)|]; [left|right; lia].
    split_and!; [done..|congruence].
  - intros x Hx. by rewrite fu_used1, fu_used0.
Qed.


(** Every free region but [p] counts in the greatest free extent [m]. *)
Definition max_but (rp : gmap Z region) (p : Z) (fs : list Z) (m : Z) : Prop :=
  (∀ x, x ∈ fs → x ≠ p → rext rp x ≤ m) ∧
  (m = 0 ∨ ∃ n, n ∈ fs ∧ n ≠ p ∧ rext rp n = m).

Section consolidate.
Context (rl : regionl) (f : fb) (V : gmap Z Z) (base limit : Z) (es fs us lb : list Z).
Context (T1 : list Z) (p : Z) (T2 : list Z).
Context (Hcore : rl_core rl f V base limit es fs us lb (T1 ++ p :: T2)) (Hp : p ∈ fs).
Context (Hsep1 : sep fs T1) (Hsep2 : sep fs T2).
Abbreviation rp := (rl_rp rl).

(** A step of the consolidation: [p] grew into [p'], [ts] became [ts']. *)
Definition cons_step (rl' : regionl) (f' : fb) (es' fs' ts' : list Z) (p' : Z) : Prop :=
  rl_core rl' f' V base limit es' fs' us lb ts' ∧ fused p rp fs us lb p' (rl_rp rl') fs' ∧
  rl_maxfextent rl' = rl_maxfextent rl ∧ rl_nbytes rl' = rl_nbytes rl ∧
  fb_maxsize f' = fb_maxsize f ∧ keeps V f f' ∧ fb_spare f - 1 ≤ fb_spare f' ∧
  (length es ≤ length es' ∧ length es' + length fs' = length es + length fs)%nat.

Lemma cons_T_NoDup : NoDup (T1 ++ p :: T2).
Proof using Hcore. destruct Hcore. by eapply ts_NoDup. Qed.

(** Merging [p] with the region after it. *)
Lemma right_merge y T2' g :
  T2 = y :: T2' → y ∈ fs → 1 ≤ fb_spare f →
  ∃ rl' f' g' fs', rl_merge rl f g p y = Ok (rl', f', g') ∧
    cons_step rl' f' (y :: es) fs' (T1 ++ p :: T2') p ∧ fs ≡ₚ y :: fs' ∧
    rg_off (rl_rp rl') p = rg_off rp p ∧ (∀ x, x ≠ p → x ≠ y → rl_rp rl' !! x = rp !! x).
Proof.
  intros HT Hy Hsp. pose proof Hcore as Hcore'. rewrite HT in Hcore'.
  destruct (rl_merge_spec rl f V base limit es fs us lb T1 p y T2' Hcore' Hp Hy Hsp g)
    as (rl' & f' & g' & fs' & Hm & Hfs & Hc & He & Ho & Hx & Hmx & Hnb & Hms & Hk & Hs).
  exists rl', f', g', fs'. split; [done|]. split; [|done].
  pose proof (ext_pos rl f V base limit es fs us lb T1 p (y :: T2') Hcore') as Hpp.
  destruct (tiled_range _ _ _ _ _ (rc_tiled _ _ _ _ _ _ _ _ _ _ Hcore')) as [_ Hr].
  destruct (Hr y ltac:(set_solver)) as (_ & Hpy & _).
  pose proof cons_T_NoDup as Hnd. rewrite HT in Hnd.
  pose proof (rt_NoDup _ _ _ _ _ (rc_tab _ _ _ _ _ _ _ _ _ _ Hcore)) as Hnd'.
  apply NoDup_app in Hnd' as (_ & _ & Hnd'). apply NoDup_app in Hnd' as (Hndf & Hdis & _).
  assert (p ≠ y) as Hpy'.
  { apply NoDup_app in Hnd as (_ & _ & [Hnd _]%NoDup_cons). set_solver. }
  rewrite Hfs in Hndf. apply NoDup_cons in Hndf as [Hyf _].
  apply Permutation_length in Hfs as Hlf. simpl in Hlf.
  unfold cons_step. split_and!; [done| |done|done|done|done|done|simpl; lia|simpl; lia]. split.
  - pose proof Hp as Hp'. rewrite Hfs in Hp'. set_solver.
  - intros x Hxf Hxp. assert (x ≠ y) as Hxy by congruence.
    split_and!; [rewrite Hfs; set_solver|done|]. unfold rext. by rewrite Hx.
  - intros x Hxf Hxp. destruct (decide (x = y)) as [->|Hxy]; [right; lia|left].
    rewrite Hfs in Hxf. split_and!; [set_solver|done|]. unfold rext. by rewrite Hx.
  - lia.
  - intros x Hxu. apply Hx; intros ->; [by apply (Hdis p Hp)|by apply (Hdis y Hy)].
Qed.

Lemma left_merge y T1' g :
  T1 = T1' ++ [y] → y ∈ fs → 1 ≤ fb_spare f →
  ∃ rl' f' g' fs', rl_merge rl f g y p = Ok (rl', f', g') ∧
    cons_step rl' f' (p :: es) fs' (T1' ++ y :: T2) y ∧ fs ≡ₚ p :: fs'.
Proof.
  intros HT Hy Hsp. pose proof Hcore as Hcore'. rewrite HT, <- app_assoc in Hcore'.
  destruct (rl_merge_spec rl f V base limit es fs us lb T1' y p T2 Hcore' Hy Hp Hsp g)
    as (rl' & f' & g' & fs' & Hm & Hfs & Hc & He & Ho & Hx & Hmx & Hnb & Hms & Hk & Hs).
  exists rl', f', g', fs'. split; [done|]. split; [|done].
  destruct (tiled_range _ _ _ _ _ (rc_tiled _ _ _ _ _ _ _ _ _ _ Hcore')) as [_ Hr].
  destruct (Hr y ltac:(set_solver)) as (_ & Hpy & _).
  destruct (Hr p ltac:(set_solver)) as (_ & Hpp & _).
  pose proof (rt_NoDup _ _ _ _ _ (rc_tab _ _ _ _ _ _ _ _ _ _ Hcore)) as Hnd'.
  apply NoDup_app in Hnd' as (_ & _ & Hnd'). apply NoDup_app in Hnd' as (Hndf & Hdis & _).
  pose proof cons_T_NoDup as Hnd. rewrite HT, <- app_assoc in Hnd.
  assert (y ≠ p) as Hpy'.
  { apply NoDup_app in Hnd as (_ & _ & [Hnd _]%NoDup_cons). set_solver. }
  rewrite Hfs in Hndf. apply NoDup_cons in Hndf as [Hyf _].
  apply Permutation_length in Hfs as Hlf. simpl in Hlf.
  unfold cons_step. split_and!; [done| |done|done|done|done|done|simpl; lia|simpl; lia]. split.
  - rewrite Hfs in Hy. set_solver.
  - intros x Hxf Hxp. assert (x ≠ p) as Hxy by congruence.
    split_and!; [rewrite Hfs; set_solver|done|]. unfold rext. by rewrite Hx.
  - intros x Hxf Hxp. destruct (decide (x = y)) as [->|Hxy]; [right; lia|left].
    rewrite Hfs in Hxf. split_and!; [set_solver|done|]. unfold rext. by rewrite Hx.
  - lia.
  - intros x Hxu. apply Hx; intros ->; [by apply (Hdis y Hy)|by apply (Hdis p Hp)].
Qed.

Lemma cons_refl : cons_step rl f es fs (T1 ++ p :: T2) p.
Proof using Hcore Hp. unfold cons_step. split_and!; [done|by apply fused_refl|done|done|done|done|lia|lia|lia]. Qed.

(** The branch of [rl_consolidate()] for the region on the right. *)
Lemma right_step F1 F2 g :
  fs = F1 ++ p :: F2 → 1 ≤ fb_spare f →
  ∃ rl' f' g' es' fs' T2',
    (if negb (head_or RL_FOFF_TL F2 =? RL_FOFF_TL) then
       let! rep := rd rp p in
       let! rght := rd rp (head_or RL_FOFF_TL F2) in
       if mergeable rep rght then rl_merge rl f g p (head_or RL_FOFF_TL F2) else Ok (rl, f, g)
     else Ok (rl, f, g)) = Ok (rl', f', g') ∧
    cons_step rl' f' es' fs' (T1 ++ p :: T2') p ∧ sep fs' T2' ∧
    (∀ z l, T2' = z :: l → z ∉ fs') ∧ rg_off (rl_rp rl') p = rg_off rp p ∧
    (∀ x, x ∈ T1 → rl_rp rl' !! x = rp !! x ∧ (x ∈ fs' ↔ x ∈ fs)).
Proof using Hcore Hp Hsep1 Hsep2.
  intros Hfs Hsp.
  destruct (inv_free _ _ _ _ _ _ _ _ _ _ Hcore p Hp) as (_ & ra & Hra & _).
  destruct F2 as [|y F2'] eqn:HF2; unfold head_or; simpl.
  { exists rl, f, g, es, fs, T2. split; [done|]. split_and!; [apply cons_refl|done| |done|done].
    intros z l HT Hz.
    destruct (right_none rl f V base limit es fs us lb T1 p T2 F1 [] Hcore Hfs z l HT Hz) as (? & ? & ? & _).
    done. }
  assert (y ∈ fs) as Hy by (rewrite Hfs; set_solver).
  destruct (inv_free _ _ _ _ _ _ _ _ _ _ Hcore y Hy) as (Hsl & rb & Hrb & _).
  rewrite (proj2 (Z.eqb_neq y RL_FOFF_TL)) by (unfold RL_FOFF_TL; lia). simpl.
  rewrite (rd_Ok _ _ _ Hra), bind_Ok, (rd_Ok _ _ _ Hrb), bind_Ok.
  rewrite (mergeable_touch _ _ _ _ _ _ _ _ _ _ p y ra rb Hcore Hp Hy Hra Hrb).
  destruct (Z.eqb_spec (rg_off rp p + rext rp p) (rg_off rp y)) as [Heq|Hne].
  - destruct (right_next rl f V base limit es fs us lb T1 p T2 F1 (y :: F2') Hcore Hfs y F2' eq_refl Heq)
      as [T2' HT].
    destruct (right_merge y T2' g HT Hy Hsp) as (rl' & f' & g' & fs' & -> & Hst & Hfs' & Ho & Hx).
    exists rl', f', g', (y :: es), fs', T2'. split; [done|]. split; [done|].
    pose proof cons_T_NoDup as Hnd. rewrite HT in Hnd.
    apply NoDup_app in Hnd as (_ & Hd & Hnd).
    split_and!.
    + eapply sep_sub; [apply (sep_app_inv fs [] y T2'); by rewrite <- HT|].
      intros x _. rewrite Hfs'. by right.
    + intros z l -> Hz. apply (Hsep2 [] y z l HT Hy). rewrite Hfs'. by right.
    + done.
    + intros x Hx1. assert (x ≠ p) by (intros ->; apply (Hd p Hx1); set_solver).
      assert (x ≠ y) by (intros ->; apply (Hd y Hx1); set_solver).
      split; [by apply Hx|]. rewrite Hfs'. set_solver.
  - exists rl, f, g, es, fs, T2. split; [done|]. split_and!; [apply cons_refl|done| |done|done].
    intros z l HT Hz.
    destruct (right_none rl f V base limit es fs us lb T1 p T2 F1 (y :: F2') Hcore Hfs z l HT Hz)
      as (y' & ? & ? & ?). simplify_eq.
Qed.

(** What is known of the region [y] that the code found on the left. *)
Definition left_ok (y : Z) : Prop :=
  y = RL_FOFF_HD ∧ (∀ z l, T1 = l ++ [z] → z ∉ fs) ∨
  y ∈ fs ∧ y ∈ T1 ∧ (rg_off rp y + rext rp y = rg_off rp p → ∃ T1', T1 = T1' ++ [y]) ∧
  (rg_off rp y + rext rp y ≠ rg_off rp p → ∀ z l, T1 = l ++ [z] → z ∉ fs).

Lemma left_found F1 F2 : fs = F1 ++ p :: F2 → left_ok (last_or RL_FOFF_HD F1).
Proof using Hcore.
  clear Hp Hsep1 Hsep2. intros Hfs. unfold last_or. destruct (last F1) as [y|] eqn:Hl; simpl; [right|left].
  - apply last_Some in Hl as [F1' HF].
    assert (fs = F1' ++ y :: p :: F2) as HE by (rewrite Hfs, HF; by rewrite <- app_assoc).
    assert (y ∈ fs) as Hy by (rewrite HE; set_solver).
    pose proof (fs_order rl f V base limit es fs us lb T1 p T2 Hcore F1' y _ p HE ltac:(constructor)) as Hlt.
    pose proof (ext_pos rl f V base limit es fs us lb T1 p T2 Hcore) as Hpos.
    split_and!; [done| | |].
    + destruct (ts_sides rl f V base limit es fs us lb T1 p T2 Hcore y Hy) as [[? _]|[_ ?]];
        [intros ->; lia|done|lia].
    + by apply (left_prev rl f V base limit es fs us lb T1 p T2 F1 F2 Hcore Hfs y F1').
    + intros Hne z l HT Hz.
      destruct (left_none rl f V base limit es fs us lb T1 p T2 F1 F2 Hcore Hfs z l HT Hz)
        as (y' & F' & HF' & ?). rewrite HF in HF'. apply app_inj_tail in HF' as [_ ->]. done.
  - apply last_None in Hl. split; [done|]. intros z l HT Hz.
    destruct (left_none rl f V base limit es fs us lb T1 p T2 F1 F2 Hcore Hfs z l HT Hz)
      as (y' & F' & HF' & ?). rewrite Hl in HF'. by destruct F'.
Qed.

(** The branch for the region on the left, when that on the right is done. *)
Lemma left_step y g :
  left_ok y → (∀ z l, T2 = z :: l → z ∉ fs) → 1 ≤ fb_spare f →
  ∃ rl' f' g' es' fs' ts' p',
    (if negb (y =? RL_FOFF_HD) then
       let! left := rd rp y in
       let! rep := rd rp p in
       if mergeable left rep then
         let! '(rl, f, g) := rl_merge rl f g y p in Ok (rl, f, g, y)
       else Ok (rl, f, g, p)
     else Ok (rl, f, g, p)) = Ok (rl', f', g', p') ∧
    cons_step rl' f' es' fs' ts' p' ∧ sep fs' ts'.
Proof using Hcore Hp Hsep1 Hsep2.
  intros Hy Hright Hsp.
  destruct (inv_free _ _ _ _ _ _ _ _ _ _ Hcore p Hp) as (_ & ra & Hra & _).
  assert ((∀ z l, T1 = l ++ [z] → z ∉ fs) → sep fs (T1 ++ p :: T2)) as Hdone.
  { intros Hl. by apply sep_join. }
  destruct Hy as [[-> Hnone]|(Hy & HyT & Htouch & Hapart)].
  { rewrite Z.eqb_refl. simpl. exists rl, f, g, es, fs, (T1 ++ p :: T2), p.
    split_and!; [done|apply cons_refl|by apply Hdone]. }
  destruct (inv_free _ _ _ _ _ _ _ _ _ _ Hcore y Hy) as (Hsl & rb & Hrb & _).
  rewrite (proj2 (Z.eqb_neq y RL_FOFF_HD)) by (unfold RL_FOFF_HD; lia). simpl.
  rewrite (rd_Ok _ _ _ Hrb), bind_Ok, (rd_Ok _ _ _ Hra), bind_Ok.
  rewrite (mergeable_touch _ _ _ _ _ _ _ _ _ _ y p rb ra Hcore Hy Hp Hrb Hra).
  destruct (Z.eqb_spec (rg_off rp y + rext rp y) (rg_off rp p)) as [Heq|Hne].
  - destruct (Htouch Heq) as [T1' HT].
    destruct (left_merge y T1' g HT Hy Hsp) as (rl' & f' & g' & fs' & -> & Hst & Hfs').
    rewrite bind_Ok. exists rl', f', g', (p :: es), fs', (T1' ++ y :: T2), y.
    split; [done|]. split; [done|].
    assert (∀ x, x ∈ fs' → x ∈ fs) as Hsub by (intros x; rewrite Hfs'; by right).
    pose proof Hsep1 as Hs1. rewrite HT in Hs1.
    apply sep_join.
    + eapply sep_sub; [by apply (sep_app_inv fs T1' y [])|intros x _; apply Hsub].
    + eapply sep_sub; [exact Hsep2|intros x _; apply Hsub].
    + intros z l -> Hz. apply (Hs1 l z y []); [by rewrite <- app_assoc|by apply Hsub|done].
    + intros z l HT2 Hz. by eapply (Hright z l); [|apply Hsub].
  - exists rl, f, g, es, fs, (T1 ++ p :: T2), p. split_and!; [done|apply cons_refl|by apply Hdone, Hapart].
Qed.
End consolidate.

(** The greatest free extent after the last step of [rl_consolidate()]. *)
Lemma max_fused p rp fs us lb p' rp' fs' m :
  fused p rp fs us lb p' rp' fs' → 0 < rext rp p → max_but rp p fs m →
  exact_max rp' fs' (if m <? rext rp' p' then rext rp' p' else m).
Proof.
  intros [Hin Hnew Hold Hgrow _] Hpos [Hle Hex].
  destruct (Z.ltb_spec m (rext rp' p')) as [Hlt|Hge].
  - split; [|right; eauto]. intros x Hx. destruct (decide (x = p')) as [->|Hne]; [done|].
    destruct (Hnew x Hx Hne) as (Hx' & Hxp & ->). specialize (Hle x Hx' Hxp). lia.
  - split.
    + intros x Hx. destruct (decide (x = p')) as [->|Hne]; [done|].
      destruct (Hnew x Hx Hne) as (Hx' & Hxp & ->). by apply Hle.
    + right. destruct Hex as [->|(n & Hn & Hnp & Hm)]; [lia|].
      destruct (Hold n Hn Hnp) as [(Hn' & _ & He)|]; [|lia]. exists n. split; [done|lia].
Qed.

Lemma if_set_maxfextent (b : bool) rl v :
  (if b then rl_set_maxfextent rl v else rl) =
  rl_set_maxfextent rl (if b then v else rl_maxfextent rl).
Proof. destruct b; [done|by destruct rl]. Qed.

(** The members that the slots and lists depend on. *)
Definition same_core (rl rl' : regionl) : Prop :=
  same_lists rl rl' ∧ rl_nchains rl' = rl_nchains rl ∧ rl_magic rl' = rl_magic rl ∧
  rl_chains rl' = rl_chains rl ∧ rl_empty rl' = rl_empty rl ∧ rl_nempty rl' = rl_nempty rl ∧
  rl_nfree rl' = rl_nfree rl ∧ rl_nelems rl' = rl_nelems rl.

Lemma tab_same rl rl' es fs us lb :
  same_core rl rl' → rl_tab rl es fs us lb → rl_tab rl' es fs us lb.
Proof.
  intros (Hsame & Hnc & Hmg & Hch & Hem & Hne & Hnf & Hnl) [].
  pose proof Hsame as ((Hrp & Hna & Hfo & Hfe) & _).
  split; rewrite ?Hrp, ?Hna, ?Hem, ?Hne, ?Hnf, ?Hnl; try done.
  - eapply rl_ends_same; [|done]. done.
  - eapply hash_inv_ext; [exact rt_hash|done..|]. rewrite Hrp. eauto.
Qed.

Lemma core_same rl rl' f V base limit es fs us lb ts :
  same_core rl rl' → rl_core rl f V base limit es fs us lb ts →
  rl_core rl' f V base limit es fs us lb ts.
Proof.
  intros Hsame [Htab (gs & Hgs & Hsk) Hr Hts Htl].
  split; [by eapply tab_same| |done|done|].
  - exists gs. split; [done|]. eapply skoe_same; [apply Hsame|done].
  - destruct Hsame as (((-> & _) & _) & _). done.
Qed.

Lemma inv_same rl rl' f V base limit es fs us lb ts :
  same_core rl rl' → rl_maxfextent rl' = rl_maxfextent rl →
  rl_inv rl f V base limit es fs us lb ts → rl_inv rl' f V base limit es fs us lb ts.
Proof.
  intros Hsame Hm [Hc Hs Hx]. split; [by eapply core_same|done|].
  pose proof Hsame as (((Hrp & _) & _) & _). by rewrite Hrp, Hm.
Qed.

Lemma tab_balanced rl es fs us lb : rl_tab rl es fs us lb → rl_balanced rl = true.
Proof.
  intros Htab. pose proof (rt_counts _ _ _ _ _ Htab) as [Hc Hn].
  pose proof (re_nalloc _ (rt_ends _ _ _ _ _ Htab)).
  unfold rl_balanced. rewrite (rt_nelems _ _ _ _ _ Htab), (rt_nfree _ _ _ _ _ Htab),
    (rt_nempty _ _ _ _ _ Htab), u64_small by lia. apply Z.eqb_eq. lia.
Qed.

Lemma same_note_maxfree rl :
  same_core rl (rl_note_maxfree rl) ∧ rl_maxfextent (rl_note_maxfree rl) = rl_maxfextent rl ∧
  rl_nbytes (rl_note_maxfree rl) = rl_nbytes rl ∧ rl_rp (rl_note_maxfree rl) = rl_rp rl.
Proof. unfold rl_note_maxfree. destruct (_ <? _); by destruct rl. Qed.

Section consolidate_all.
Context (rl : regionl) (f : fb) (V : gmap Z Z) (base limit : Z) (es fs us lb : list Z).
Context (T1 : list Z) (p : Z) (T2 : list Z).
Context (Hcore : rl_core rl f V base limit es fs us lb (T1 ++ p :: T2)) (Hp : p ∈ fs).
Context (Hsep1 : sep fs T1) (Hsep2 : sep fs T2) (Hsp : 2 ≤ fb_spare f).
Context (Hmax : max_but (rl_rp rl) p fs (rl_maxfextent rl)).

Lemma rl_consolidate_spec g :
  ∃ rl' f' g' es' fs' ts', rl_consolidate rl f g p = Ok (rl', f', g') ∧
    rl_inv rl' f' V base limit es' fs' us lb ts' ∧
    (∀ x, x ∈ us ++ lb → rl_rp rl' !! x = rl_rp rl !! x) ∧ rl_nbytes rl' = rl_nbytes rl ∧
    fb_maxsize f' = fb_maxsize f ∧ keeps V f f' ∧ fb_spare f - 2 ≤ fb_spare f' ∧
    (length es ≤ length es' ∧ length es' + length fs' = length es + length fs)%nat.
Proof.
  destruct (list_elem_of_split _ _ Hp) as (F1 & F2 & Hfs).
  pose proof (left_found rl f V base limit es fs us lb T1 p T2 Hcore F1 F2 Hfs) as Hleft.
  destruct (right_step rl f V base limit es fs us lb T1 p T2 Hcore Hp Hsep1 Hsep2 F1 F2 g Hfs ltac:(lia))
    as (rl1 & f1 & g1 & es1 & fs1 & T2' & Hr & (Hc1 & Hfu1 & Hm1 & Hn1 & Hms1 & Hk1 & Hs1 & Hl1) &
        Hsep & Hhead & Ho & HT1).
  unfold rl_consolidate.
  rewrite (rl_foff_next_spec rl f V base limit es fs us lb T1 p T2 F1 F2 Hcore Hfs), bind_Ok.
  rewrite (rl_foff_prev_spec rl f V base limit es fs us lb T1 p T2 F1 F2 Hcore Hfs), bind_Ok.
  rewrite Hr, bind_Ok.
  assert (left_ok rl1 fs1 T1 p (last_or RL_FOFF_HD F1)) as Hleft1.
  { destruct Hleft as [[-> Hl]|(Hy & HyT & Ht & Ha)]; [left|right].
    - split; [done|]. intros z l HT. rewrite (proj2 (HT1 z ltac:(rewrite HT; set_solver))). eauto.
    - destruct (HT1 _ HyT) as [Hy1 Hyf].
      assert (rg_off (rl_rp rl1) (last_or RL_FOFF_HD F1) + rext (rl_rp rl1) (last_or RL_FOFF_HD F1) =
        rg_off (rl_rp rl) (last_or RL_FOFF_HD F1) + rext (rl_rp rl) (last_or RL_FOFF_HD F1)) as HE
        by (unfold rg_off, rext; by rewrite Hy1).
      split_and!; [by apply Hyf|done|by rewrite HE, Ho|].
      rewrite HE, Ho. intros Hne z l HT.
      rewrite (proj2 (HT1 z ltac:(rewrite HT; set_solver))). eauto. }
  destruct (left_step rl1 f1 V base limit es1 fs1 us lb T1 p T2' Hc1) with (y := last_or RL_FOFF_HD F1) (g := g1)
    as (rl2 & f2 & g2 & es2 & fs2 & ts2 & p2 & Hl & (Hc2 & Hfu2 & Hm2 & Hn2 & Hms2 & Hk2 & Hs2 & Hl2) & Hsep').
  { apply Hfu1. }
  { eapply sep_sub; [exact Hsep1|]. intros x Hx. by apply HT1. }
  { done. } { done. } { done. } { lia. }
  rewrite Hl, bind_Ok.
  pose proof (fused_trans _ _ _ _ _ _ _ _ _ _ _ Hfu1 Hfu2) as Hfu.
  destruct (inv_free _ _ _ _ _ _ _ _ _ _ Hc2 p2 (fu_in _ _ _ _ _ _ _ _ Hfu)) as (_ & r2 & Hr2 & _ & _ & _ & He2).
  rewrite (rd_Ok _ _ _ Hr2), bind_Ok, <- He2, if_set_maxfextent, Hm2, Hm1.
  eexists _, f2, g2, es2, fs2, ts2. split; [done|].
  assert (∀ v, rl_rp (rl_set_maxfextent rl2 v) = rl_rp rl2) as Hrp by (by destruct rl2).
  split_and!; [| | |congruence|by eapply keeps_trans|lia|lia|lia].
  - split; [eapply core_same; [|exact Hc2]; by destruct rl2|done|]. rewrite Hrp.
    replace (rl_maxfextent (rl_set_maxfextent rl2 _)) with
      (if rl_maxfextent rl <? rext (rl_rp rl2) p2 then rext (rl_rp rl2) p2 else rl_maxfextent rl)
      by by destruct rl2.
    eapply max_fused; [exact Hfu| |done]. by eapply ext_pos.
  - intros x Hx. rewrite Hrp. by apply (fu_used _ _ _ _ _ _ _ _ Hfu).
  - rewrite <- Hn1, <- Hn2. by destruct rl2.
Qed.
End consolidate_all.

(** ** Returning a region: what [rl_put()] and [rl_free()] share *)

(** The slots when slot [p] moves from those in transit to the free ones. *)
Lemma rl_tab_release rl rl' es fs us lb p r r' fs' :
  rl_tab rl es fs us (p :: lb) → rl_rp rl !! p = Some r → rl_rp rl' = <[p := r']> (rl_rp rl) →
  rg_extent r' = rg_extent r → fs' ≡ₚ p :: fs →
  rl_nalloc rl' = rl_nalloc rl → rl_foff rl' = rl_foff rl → rl_fext rl' = rl_fext rl →
  rl_nchains rl' = rl_nchains rl → rl_magic rl' = rl_magic rl → rl_chains rl' = rl_chains rl →
  rl_empty rl' = rl_empty rl → rl_nempty rl' = rl_nempty rl →
  rl_nfree rl' = u64 (rl_nfree rl + 1) → rl_nelems rl' = u64 (rl_nelems rl - 1) →
  rl_tab rl' es fs' us lb.
Proof.
  intros Htab Hr Hrp He Hfs Hna Hfo Hfe Hnc Hmg Hch Hem Hne Hnf Hnl.
  pose proof (rt_counts _ _ _ _ _ Htab) as [Hc Hc2].
  pose proof (rt_NoDup _ _ _ _ _ Htab) as Hnd.
  pose proof (rt_slot _ _ _ _ _ Htab p ltac:(set_solver)) as Hsp.
  pose proof (Permutation_length Hfs) as Hlen. simpl in Hlen, Hc.
  assert (p ∉ es ++ fs ++ us) as Hni.
  { rewrite !(assoc_L (++)) in Hnd. apply NoDup_app in Hnd as (_ & Hd & _).
    rewrite <- !(assoc_L (++)) in Hd. intros Hp. apply (Hd p Hp). constructor. }
  assert (∀ x, x ≠ p → rl_rp rl' !! x = rl_rp rl !! x) as Hsame.
  { intros x Hx. by rewrite Hrp, lookup_insert_ne. }
  destruct Htab. split.
  - apply rl_ends_ext with rl; try done.
    + intros i Hi. apply Hsame. lia.
    + intros i Hi. rewrite Hrp, lookup_insert. case_decide; eauto.
  - rewrite Hna, <- rt_perm, Hfs. solve_Permutation.
  - rewrite Hem. eapply linked_ext; [|exact rt_empty]. intros x Hx. simpl.
    rewrite Hsame; [done|set_solver].
  - by rewrite Hne.
  - rewrite Hnf, rt_nfree, u64_small; lia.
  - rewrite Hnl, rt_nelems. simpl. rewrite u64_small; lia.
  - eapply hash_inv_ext; [exact rt_hash|done..|]. intros x rx Hx Hrx. exists rx.
    rewrite Hsame; [done|set_solver].
  - intros x Hx. unfold in_use. rewrite Hsame; [by apply rt_used|set_solver].
  - intros x rx Hx Hrx. rewrite Hrp, lookup_insert in Hrx. case_decide as Hd.
    + injection Hrx as <-. apply IsFree_even. rewrite He. apply IsFree_even.
      apply (rt_free p); [set_solver|done].
    + apply (rt_free x); [|done]. rewrite Hfs in Hx. set_solver.
Qed.

Section release.
Context (rl : regionl) (f : fb) (V : gmap Z Z) (base limit : Z) (es fs us lb : list Z).
Context (T1 : list Z) (p : Z) (T2 : list Z).
Context (Hinv : rl_inv rl f V base limit es fs us (p :: lb) (T1 ++ p :: T2)).
Context (Hsp : 4 ≤ fb_spare f).
Abbreviation rp := (rl_rp rl).
Let Hcore := ri_core _ _ _ _ _ _ _ _ _ _ Hinv.
Abbreviation rl0 := (rl_set_nelems rl (u64 (rl_nelems rl - 1)) (rl_maxelems rl)).

(** After [rl_rel()]. *)
Lemma rl_rel_core g :
  ∃ rl1 f1 g1 fs1, rl_rel rl0 f g p = Ok (0, rl1, f1, g1) ∧ fs1 ≡ₚ p :: fs ∧
    rl_core rl1 f1 V base limit es fs1 us lb (T1 ++ p :: T2) ∧
    (∀ x, x ≠ p → rl_rp rl1 !! x = rp !! x) ∧ rl_maxfextent rl1 = rl_maxfextent rl ∧
    rl_nbytes rl1 = rl_nbytes rl ∧
    fb_maxsize f1 = fb_maxsize f ∧ keeps V f f1 ∧ fb_spare f - 2 ≤ fb_spare f1.
Proof.
  pose proof Hcore as [Htab (gs & Hgs & Hsk) Hrange Hts Htl].
  pose proof (rt_ends _ _ _ _ _ Htab) as Hends. pose proof (rt_counts _ _ _ _ _ Htab) as [Hc _].
  simpl in Hc. pose proof (rt_slot _ _ _ _ _ Htab p ltac:(set_solver)) as Hslot.
  assert (p ∈ T1 ++ p :: T2) as Hpt by set_solver.
  destruct (ts_region rl base limit es fs us (p :: lb) _ Htab Hrange Hts Htl p Hpt)
    as (r & Hr & Ho & He & Hlim & _).
  assert (IsFree r = true) as Hfree by (eapply (rt_free _ _ _ _ _ Htab); [|exact Hr]; set_solver).
  rewrite Extent_free in * by done.
  assert (p ∉ fs) as Hpf.
  { pose proof (rt_NoDup _ _ _ _ _ Htab) as Hnd. apply NoDup_app in Hnd as (_ & _ & Hnd).
    apply NoDup_app in Hnd as (_ & Hd & _). intros Hp. apply (Hd p Hp). set_solver. }
  assert (same_lists rl rl0) as Hsame by (by destruct rl).
  assert (rl_rp rl0 = rp) as Hrp0 by by destruct rl.
  assert (rl_nalloc rl0 = rl_nalloc rl) as Hna0 by by destruct rl.
  destruct (rl_rel_spec rl0 f V fs gs p r g)
    as (rl1 & f1 & g1 & r' & fs1 & gs1 & Hrel & Hrp1 & Ho1 & He1 & Hfs1 & Hgs1 & Hsk1 & Hfr & Hm & Hk & Hs).
  { eapply rl_ends_same; [apply Hsame|done]. } { by eapply skoe_same. } { done. }
  { by rewrite Hrp0. } { by rewrite Hna0. } { done. } { rewrite Hna0. lia. }
  { intros x Hx. rewrite Hrp0. destruct (inv_free _ _ _ _ _ _ _ _ _ _ Hcore x Hx) as (_ & rx & Hrx & _).
    split; [eauto|]. rewrite <- (rg_off_at _ _ _ Hr). intros HE.
    assert (x = p) as ->; [|done].
    eapply (ts_off_inj rl base limit es fs us (p :: lb) (T1 ++ p :: T2)); [done..|rewrite Hts; set_solver|done|done]. }
  { lia. } { lia. } { lia. }
  rewrite Hrp0 in Hrp1.
  destruct (frame_members _ _ Hfr) as (Hna & Hfo & Hfe & Hnc & Hmg & Hch & Hem & Hne & Hnf & Hnl & Hmx & Hnb).
  exists rl1, f1, g1, fs1. split_and!; [done..| | | | |done|done|done].
  - split.
    + eapply (rl_tab_release rl rl1 es fs us lb p r r' fs1); [done..| | | | | | | | | |];
        rewrite ?Hna, ?Hfo, ?Hfe, ?Hnc, ?Hmg, ?Hch, ?Hem, ?Hne, ?Hnf, ?Hnl; by destruct rl.
    + exists gs1. split; [|done]. by rewrite Hfs1.
    + done.
    + rewrite Hts, Hfs1. solve_Permutation.
    + eapply tiled_ext; [|exact Htl]. intros x _. unfold rg_off, rext. rewrite Hrp1.
      rewrite lookup_insert. case_decide as Hd; [|done]. subst x. rewrite Hr. simpl.
      unfold Extent. by rewrite Ho1, He1.
  - intros x Hx. by rewrite Hrp1, lookup_insert_ne.
  - rewrite Hmx. by destruct rl.
  - rewrite Hnb. by destruct rl.
Qed.

Lemma rl_release_spec g :
  ∃ rl' f' g' es' fs' ts',
    (let! '(_, rl, f, g) := rl_rel rl0 f g p in
     let! '(rl, f, g) := rl_consolidate rl f g p in
     let rl := rl_note_maxfree rl in
     assert! rl_balanced rl in Ok (rl, f, g)) = Ok (rl', f', g') ∧
    rl_inv rl' f' V base limit es' fs' us lb ts' ∧
    (∀ x, x ∈ us ++ lb → rl_rp rl' !! x = rp !! x) ∧ rl_nbytes rl' = rl_nbytes rl ∧
    fb_maxsize f' = fb_maxsize f ∧ keeps V f f' ∧ fb_spare f - 4 ≤ fb_spare f' ∧
    (length es ≤ length es' ∧ length es' + length fs' = S (length es + length fs))%nat.
Proof.
  destruct (rl_rel_core g)
    as (rl1 & f1 & g1 & fs1 & -> & Hfs1 & Hc1 & Hx1 & Hmx1 & Hnb1 & Hm1 & Hk1 & Hs1).
  rewrite bind_Ok.
  pose proof Hinv as [_ Hsep [Hle Hex]]. pose proof Hcore as [Htab _ _ _ _].
  pose proof (rt_NoDup _ _ _ _ _ Htab) as Hnd. apply NoDup_app in Hnd as (_ & _ & Hnd).
  apply NoDup_app in Hnd as (Hndf & Hdf & Hnd).
  assert (p ∉ fs) as Hpf by (intros Hp; apply (Hdf p Hp); set_solver).
  assert (p ∉ us ++ lb) as Hpu.
  { apply NoDup_app in Hnd as (_ & Hdu & [? _]%NoDup_cons). intros [Hp|Hp]%elem_of_app; [|done].
    apply (Hdu p Hp). constructor. }
  pose proof (cons_T_NoDup _ _ _ _ _ _ _ _ _ _ _ _ Hc1) as HndT.
  apply NoDup_app in HndT as (_ & HdT & [HpT _]%NoDup_cons).
  assert (∀ x, x ∈ fs1 → x ≠ p → x ∈ fs) as Hback by (intros x; rewrite Hfs1; set_solver).
  apply sep_app_inv in Hsep as [Hsep1 Hsep2].
  destruct (rl_consolidate_spec rl1 f1 V base limit es fs1 us lb T1 p T2 Hc1) with (g := g1)
    as (rl2 & f2 & g2 & es2 & fs2 & ts2 & -> & Hinv2 & Hx2 & Hnb2 & Hm2 & Hk2 & Hs2 & Hl2).
  { rewrite Hfs1. constructor. }
  { eapply sep_sub; [exact Hsep1|]. intros x Hx Hxf. apply Hback; [done|].
    intros ->. apply (HdT p Hx). constructor. }
  { eapply sep_sub; [exact Hsep2|]. intros x Hx Hxf. apply Hback; [done|congruence]. }
  { lia. }
  { rewrite Hmx1. split.
    - intros x Hx Hxp. unfold rext. rewrite Hx1 by done. by apply Hle, Hback.
    - destruct Hex as [[-> _]|(n & Hn & Hm)]; [by left|right]. exists n.
      assert (n ≠ p) by congruence. split_and!; [rewrite Hfs1; by right|done|].
      unfold rext. by rewrite Hx1. }
  rewrite bind_Ok. destruct (same_note_maxfree rl2) as (Hsame & Hmx & Hnb & Hrp).
  pose proof (inv_same _ _ _ _ _ _ _ _ _ _ _ Hsame Hmx Hinv2) as Hinv3.
  cbn zeta. rewrite assert_Ok, bind_Ok by (eapply tab_balanced; apply Hinv3).
  eexists _, f2, g2, es2, fs2, ts2. split; [done|].
  apply Permutation_length in Hfs1 as Hlf. simpl in Hlf.
  split_and!; [done| |congruence|congruence|by eapply keeps_trans|lia|lia|lia].
  intros x Hx. rewrite Hrp, Hx2, Hx1; [done|congruence|done].
Qed.
End release.
