(* ===== verification/RegionOps.v ===== *)
(** * The operations of the region list

    What [rl_put()], [rl_free()], [rl_add()], [rl_split()] and [rl_init()] do,
    in terms of the invariant of RegionAlloc.v, and the theorems about the
    region list as an allocator. *)

From S2P Require Import Prelude NumTheory Fb SkipList RegionList RegionSkip RegionHash.
From S2P Require Import RegionAlloc RegionMerge RegionFree.

(** ** [rl_put()] *)

Lemma rl_put_spec rl f V base limit es fs us lb ts p g :
  rl_inv rl f V base limit es fs us (p :: lb) ts → p < rl_nalloc rl → 4 ≤ fb_spare f →
  ∃ rl' f' g' es' fs' ts', rl_put rl f g p = Ok (rl', f', g') ∧
    rl_inv rl' f' V base limit es' fs' us lb ts' ∧
    (∀ x, x ∈ us ++ lb → rl_rp rl' !! x = rl_rp rl !! x) ∧ rl_nbytes rl' = rl_nbytes rl ∧
    fb_maxsize f' = fb_maxsize f ∧ keeps V f f' ∧ fb_spare f - 4 ≤ fb_spare f' ∧
    (length es ≤ length es' ∧ length es' + length fs' = S (length es + length fs))%nat.
Proof.
  intros Hinv Hp Hsp.
  assert (p ∈ ts) as (T1 & T2 & ->)%list_elem_of_split.
  { rewrite (rc_ts _ _ _ _ _ _ _ _ _ _ (ri_core _ _ _ _ _ _ _ _ _ _ Hinv)). set_solver. }
  unfold rl_put. rewrite assert_Ok, bind_Ok by lia.
  apply (rl_release_spec rl f V base limit es fs us lb T1 p T2 Hinv Hsp g).
Qed.

(** ** Changes between regions in use and regions in transit *)

Lemma inv_retable rl rl' f V base limit es fs us lb ts us' lb' :
  rl_inv rl f V base limit es fs us lb ts →
  rl_nalloc rl' = rl_nalloc rl → rl_foff rl' = rl_foff rl → rl_fext rl' = rl_fext rl →
  rl_level_foff rl' = rl_level_foff rl → rl_level_fext rl' = rl_level_fext rl →
  rl_empty rl' = rl_empty rl → rl_nempty rl' = rl_nempty rl → rl_nfree rl' = rl_nfree rl →
  rl_nelems rl' = rl_nelems rl → rl_maxfextent rl' = rl_maxfextent rl →
  (∀ n, n ∉ us ++ lb → rl_rp rl' !! n = rl_rp rl !! n) →
  (∀ n r, rl_rp rl !! n = Some r → ∃ r', rl_rp rl' !! n = Some r' ∧
     rg_offset r' = rg_offset r ∧ Extent r' = Extent r) →
  us' ++ lb' ≡ₚ us ++ lb → hash_inv rl' us' → (∀ n, n ∈ us' → in_use (rl_rp rl') n) →
  (∀ n r, n ∈ lb' → rl_rp rl' !! n = Some r → IsFree r = true) →
  rl_inv rl' f V base limit es fs us' lb' ts.
Proof.
  intros Hinv Hna Hfo Hfe Hlo Hle Hem Hne Hnf Hnl Hmx Hsame Hkeep Hp Hh Hu Hf.
  pose proof Hinv as [[Htab (gs & Hgs & Hsk) Hrange Hts Htl] Hsep Hmax].
  pose proof (rt_NoDup _ _ _ _ _ Htab) as Hnd. pose proof (rt_ends _ _ _ _ _ Htab) as Hends.
  assert (∀ x, x ∈ es ++ fs ∨ x < 4 → rl_rp rl' !! x = rl_rp rl !! x) as Hx.
  { intros x Hx. apply Hsame. destruct Hx as [Hx|Hx].
    - rewrite (assoc_L (++)) in Hnd. apply NoDup_app in Hnd as (_ & Hd & _). by apply Hd.
    - intros Hin. pose proof (rt_slot _ _ _ _ _ Htab x ltac:(set_solver)). lia. }
  assert (∀ x, x ∈ ts → rg_off (rl_rp rl') x = rg_off (rl_rp rl) x ∧
    rext (rl_rp rl') x = rext (rl_rp rl) x) as Hoff.
  { intros x Hin. rewrite Hts in Hin. destruct (rt_dom _ _ _ _ _ Htab x ltac:(set_solver)) as [r Hr].
    destruct (Hkeep x r Hr) as (r' & Hr' & Ho & He).
    rewrite (rg_off_at _ _ _ Hr), (rg_off_at _ _ _ Hr'), (rext_at _ _ _ Hr), (rext_at _ _ _ Hr'). done. }
  assert (∀ x, x ∈ fs → rext (rl_rp rl') x = rext (rl_rp rl) x) as Hext.
  { intros x Hin. apply Hoff. rewrite Hts. set_solver. }
  split; [split|done|].
  - destruct Htab. split; rewrite ?Hna, ?Hem, ?Hne, ?Hnf, ?Hnl; try done.
    + apply rl_ends_ext with rl; try done; [intros; apply Hx; auto|].
      intros i [r Hr]. destruct (Hkeep i r Hr) as (r' & -> & _). eauto.
    + rewrite <- rt_perm. by rewrite Hp.
    + eapply linked_ext; [|exact rt_empty]. intros x Hin. simpl. rewrite Hx; [done|set_solver].
    + rewrite rt_nelems. f_equal. apply Permutation_length in Hp. by rewrite !length_app in Hp.
    + intros n r [Hn|Hn]%elem_of_app Hr; [|by eapply Hf].
      rewrite Hx in Hr by set_solver. eapply rt_free; [|done]. set_solver.
  - exists gs. split; [done|]. eapply skoe_ext; [exact Hsk|done| | |done..]; intros x Hin.
    + destruct (skoe_dom rl f V fs gs x Hends Hsk) as [r Hr]; [tauto|]. exists r, r.
      rewrite Hx; [done|]. destruct Hin; [right; lia|left; set_solver].
    + destruct (skoe_dom rl f V fs gs x Hends Hsk) as [r Hr]; [tauto|]. exists r, r.
      rewrite Hx; [done|]. rewrite Hgs in Hin. destruct Hin; [right; lia|left; set_solver].
  - done.
  - rewrite Hts. by rewrite Hp.
  - eapply tiled_ext; [|exact Htl]. exact Hoff.
  - rewrite Hmx. destruct Hmax as [Hle' Hex]. split.
    + intros n Hn. rewrite Hext by done. auto.
    + destruct Hex as [?|(n & Hn & Hm)]; [by left|right]. exists n. by rewrite Hext.
Qed.

(** Clearing the flag of a region in use and taking it off its chain. *)
Lemma unhash_spec rl f V base limit es fs us lb ts p r nb mb :
  rl_inv rl f V base limit es fs us lb ts → p ∈ us → rl_rp rl !! p = Some r →
  ∃ rl', rlhash_del (rl_set_nbytes (rl_set_rp rl (<[p := clear_IsAlloc r]> (rl_rp rl))) nb mb) p = Ok rl' ∧
    rl_inv rl' f V base limit es fs (filter (λ x, x ≠ p) us) (p :: lb) ts ∧
    rl_nbytes rl' = nb ∧
    (∀ n r, rl_rp rl !! n = Some r → ∃ r', rl_rp rl' !! n = Some r' ∧
     rg_offset r' = rg_offset r ∧ Extent r' = Extent r).
Proof.
  intros Hinv Hp Hr. pose proof Hinv as [[Htab _ _ _ _] _ _].
  set (rl1 := rl_set_nbytes _ nb mb).
  assert (rl_rp rl1 = <[p := clear_IsAlloc r]> (rl_rp rl)) as Hrp1 by by destruct rl.
  assert (rl_rp rl1 !! p = Some (clear_IsAlloc r)) as Hp1 by (rewrite Hrp1; apply lookup_insert_eq).
  destruct (rlhash_del_spec rl1 us p (clear_IsAlloc r)) as (rp' & ch' & Hdel & [Hlo1 Hlo2] & Hpr & Hh).
  { eapply hash_inv_ext; [apply (rt_hash _ _ _ _ _ Htab)|by destruct rl..|].
    intros n rn Hn Hrn. rewrite Hrp1, lookup_insert. case_decide as Hd; [|eauto].
    subst n. rewrite Hr in Hrn. injection Hrn as <-. eexists. done. }
  { intros x Hx Hne. destruct (rt_used _ _ _ _ _ Htab x Hx) as (rx & Hrx & Ha). exists rx.
    by rewrite Hrp1, lookup_insert_ne. }
  { done. } { done. }
  eexists. split; [exact Hdel|]. set (rl2 := rl_set_chains _ _) in *.
  assert (rl_rp rl2 = rp') as Hrp2 by by destruct rl.
  assert (NoDup us) as Hndu by apply (hi_nodup _ _ (rt_hash _ _ _ _ _ Htab)).
  assert (∀ n rn, rl_rp rl !! n = Some rn → ∃ r', rl_rp rl2 !! n = Some r' ∧
     rg_offset r' = rg_offset rn ∧ Extent r' = Extent rn) as Hkeep.
  { intros n rn Hn. rewrite Hrp2. destruct (decide (n = p)) as [->|Hne].
    - exists (clear_IsAlloc r). rewrite Hr in Hn. injection Hn as <-.
      split_and!; [done..|by apply clear_IsAlloc_free].
    - destruct (Hlo2 n rn) as (r' & Hr' & Ho & He); [by rewrite Hrp1, lookup_insert_ne|].
      exists r'. unfold Extent. rewrite He. done. }
  split_and!; [|by destruct rl|done].
  eapply (inv_retable rl rl2 f V base limit es fs us lb ts); [done|by destruct rl..| |done| |done| |].
  - intros n Hn. assert (n ≠ p) by set_solver.
    rewrite Hrp2, Hlo1, Hrp1, lookup_insert_ne by set_solver. done.
  - trans ((p :: filter (λ x, x ≠ p) us) ++ lb); [solve_Permutation|].
    by rewrite <- (filter_remove_perm p us).
  - intros n [Hne Hn]%list_elem_of_filter. rewrite Hrp2.
    destruct (rt_used _ _ _ _ _ Htab n Hn) as (rn & Hrn & Ha).
    destruct (Hlo2 n rn) as (r' & Hr' & _ & He); [by rewrite Hrp1, lookup_insert_ne|].
    exists r'. split; [done|]. unfold IsAlloc in *. by rewrite He.
  - intros n rn Hn Hrn. rewrite Hrp2 in Hrn. apply elem_of_cons in Hn as [->|Hn].
    + rewrite Hpr in Hrn. injection Hrn as <-. by apply clear_IsAlloc_free.
    + assert ((n ∉ us) ∧ n ≠ p) as [Hnu Hnp].
      { pose proof (rt_NoDup _ _ _ _ _ Htab) as Hnd. apply NoDup_app in Hnd as (_ & _ & Hnd).
        apply NoDup_app in Hnd as (_ & _ & Hnd). apply NoDup_app in Hnd as (_ & Hd & _).
        split; [intros Hnu; by apply (Hd n)|]. intros ->. by apply (Hd p). }
      rewrite Hlo1, Hrp1, lookup_insert_ne in Hrn by done.
      eapply (rt_free _ _ _ _ _ Htab); [|exact Hrn]. set_solver.
Qed.

(** ** [rl_free()] *)

Lemma rl_free_spec rl f V base limit es fs us lb ts p g :
  rl_inv rl f V base limit es fs us lb ts → p ∈ us → 4 ≤ fb_spare f →
  ∃ rl' f' g' es' fs' ts', rl_free rl f g p = Ok (rl', f', g') ∧
    rl_inv rl' f' V base limit es' fs' (filter (λ x, x ≠ p) us) lb ts' ∧
    (∀ x, x ∈ us ++ lb → x ≠ p → rg_off (rl_rp rl') x = rg_off (rl_rp rl) x ∧
       rext (rl_rp rl') x = rext (rl_rp rl) x) ∧
    rl_nbytes rl' = u64 (rl_nbytes rl - rext (rl_rp rl) p) ∧
    fb_maxsize f' = fb_maxsize f ∧ keeps V f f' ∧ fb_spare f - 4 ≤ fb_spare f' ∧
    (length es ≤ length es' ∧ length es' + length fs' = S (length es + length fs))%nat.
Proof.
  intros Hinv Hp Hsp. pose proof Hinv as [[Htab _ _ Hts _] _ _].
  destruct (rt_used _ _ _ _ _ Htab p Hp) as (r & Hr & Ha).
  assert (p ∈ ts) as (T1 & T2 & ->)%list_elem_of_split by (rewrite Hts; set_solver).
  unfold rl_free. rewrite (rd_Ok _ _ _ Hr), bind_Ok, wr_Ok, bind_Ok by eauto. cbn zeta.
  destruct (unhash_spec rl f V base limit es fs us lb _ p r
    (u64 (rl_nbytes (rl_set_rp rl (<[p := clear_IsAlloc r]> (rl_rp rl))) - rg_extent (clear_IsAlloc r)))
    (rl_maxbytes (rl_set_rp rl (<[p := clear_IsAlloc r]> (rl_rp rl)))) Hinv Hp Hr)
    as (rl1 & -> & Hinv1 & Hnb1 & Hkeep).
  rewrite bind_Ok.
  destruct (rl_release_spec rl1 f V base limit es fs _ lb T1 p T2 Hinv1 Hsp g)
    as (rl' & f' & g' & es' & fs' & ts' & Hrun & Hinv' & Hx & Hnb & Hm & Hk & Hs & Hl).
  exists rl', f', g', es', fs', ts'. split; [exact Hrun|]. split_and!; [done| | |done|done|done|apply Hl|apply Hl].
  - intros x Hxu Hne. assert (rl_rp rl' !! x = rl_rp rl1 !! x) as Hx1.
    { apply Hx. apply elem_of_app in Hxu as [Hxu|Hxu]; apply elem_of_app; [left|by right].
      by apply list_elem_of_filter. }
    destruct (rt_dom _ _ _ _ _ Htab x ltac:(set_solver)) as [rx Hrx].
    destruct (Hkeep x rx Hrx) as (r' & Hr' & Ho & He). rewrite Hr' in Hx1.
    rewrite (rg_off_at _ _ _ Hx1), (rg_off_at _ _ _ Hrx), (rext_at _ _ _ Hx1), (rext_at _ _ _ Hrx).
    done.
  - rewrite Hnb, Hnb1, (rext_at _ _ _ Hr). by destruct rl.
Qed.

(** ** [rl_add()] *)

Lemma rp_get_spec rl es fs us lb :
  rl_tab rl es fs us lb →
  match es with
  | [] => rp_get rl = Ok (RL_NONE, rl)
  | n :: es' => ∃ r mn, rl_rp rl !! n = Some r ∧
      rp_get rl = Ok (n, rl_set_empty rl (rg_next r) (u64 (rl_nempty rl - 1)) mn) ∧
      linked (λ i, rg_next <$> rl_rp rl !! i) RL_NONE (rg_next r) es'
  end.
Proof.
  intros Htab. pose proof (rt_empty _ _ _ _ _ Htab) as Hl. pose proof (rt_nempty _ _ _ _ _ Htab) as Hn.
  unfold rp_get. destruct es as [|n es'].
  - simpl in Hl. rewrite Hl, Z.eqb_refl, Hn. done.
  - destruct Hl as (Hh & x & Hx & Hl). pose proof (rt_counts _ _ _ _ _ Htab) as [_ Hc].
    pose proof (rt_slot _ _ _ _ _ Htab n ltac:(set_solver)) as Hs.
    rewrite Hh, (proj2 (Z.eqb_neq n RL_NONE)) by (change RL_NONE with (2 ^ 64 - 1); lia).
    simpl in Hx. destruct (rl_rp rl !! n) as [r|] eqn:Hr; [|done]. injection Hx as <-.
    rewrite (rd_Ok _ _ _ Hr), bind_Ok. eauto 10.
Qed.

(** The slots when the empty slot [n] becomes free. *)
Lemma rl_tab_add rl rl' n es fs us lb r r' fs' :
  rl_tab rl (n :: es) fs us lb → rl_rp rl !! n = Some r → rl_rp rl' = <[n := r']> (rl_rp rl) →
  IsFree r' = true → fs' ≡ₚ n :: fs →
  linked (λ i, rg_next <$> rl_rp rl !! i) RL_NONE (rg_next r) es →
  rl_nalloc rl' = rl_nalloc rl → rl_foff rl' = rl_foff rl → rl_fext rl' = rl_fext rl →
  rl_nchains rl' = rl_nchains rl → rl_magic rl' = rl_magic rl → rl_chains rl' = rl_chains rl →
  rl_empty rl' = rg_next r → rl_nempty rl' = u64 (rl_nempty rl - 1) →
  rl_nfree rl' = u64 (rl_nfree rl + 1) → rl_nelems rl' = rl_nelems rl →
  rl_tab rl' es fs' us lb.
Proof.
  intros Htab Hr Hrp Hf Hfs Hlk Hna Hfo Hfe Hnc Hmg Hch Hem Hne Hnf Hnl.
  pose proof (rt_counts _ _ _ _ _ Htab) as [Hc Hc2].
  pose proof (rt_NoDup _ _ _ _ _ Htab) as Hnd. apply NoDup_cons in Hnd as [Hni _].
  pose proof (rt_slot _ _ _ _ _ Htab n ltac:(set_solver)) as Hsp.
  pose proof (Permutation_length Hfs) as Hlen. simpl in Hlen, Hc.
  assert (∀ x, x ≠ n → rl_rp rl' !! x = rl_rp rl !! x) as Hsame.
  { intros x Hx. by rewrite Hrp, lookup_insert_ne. }
  destruct Htab. split; rewrite ?Hna.
  - apply rl_ends_ext with rl; try done.
    + intros i Hi. apply Hsame. lia.
    + intros i Hi. rewrite Hrp, lookup_insert. case_decide; eauto.
  - rewrite <- rt_perm, Hfs. solve_Permutation.
  - rewrite Hem. eapply linked_ext; [|exact Hlk]. intros x Hx. simpl.
    rewrite Hsame; [done|set_solver].
  - rewrite Hne, rt_nempty, u64_small; simpl; lia.
  - rewrite Hnf, rt_nfree, u64_small; lia.
  - by rewrite Hnl.
  - eapply hash_inv_ext; [exact rt_hash|done..|]. intros x rx Hx Hrx. exists rx.
    rewrite Hsame; [done|set_solver].
  - intros x Hx. unfold in_use. rewrite Hsame; [by apply rt_used|set_solver].
  - intros x rx Hx Hrx. rewrite Hrp, lookup_insert in Hrx. case_decide as Hd; [congruence|].
    apply (rt_free x); [|done]. rewrite Hfs in Hx. set_solver.
Qed.

Lemma rl_add_spec rl f V n es fs us lb gs off ext g :
  rl_tab rl (n :: es) fs us lb → skoe rl f V fs gs → gs ≡ₚ fs →
  (∀ x, x ∈ fs → rg_off (rl_rp rl) x ≠ off) → off < 2 ^ 62 → ext < 2 ^ 63 → ext mod 2 = 0 →
  2 ≤ fb_spare f →
  ∃ rl' f' g' r' fs' gs', rl_add rl f g off ext = Ok (Some n, rl', f', g') ∧
    rl_rp rl' = <[n := r']> (rl_rp rl) ∧ rg_offset r' = off ∧ rg_extent r' = ext ∧
    fs' ≡ₚ n :: fs ∧ gs' ≡ₚ fs' ∧ rl_tab rl' es fs' us lb ∧ skoe rl' f' V fs' gs' ∧
    rl_maxfextent rl' = rl_maxfextent rl ∧ rl_nbytes rl' = rl_nbytes rl ∧
    fb_maxsize f' = fb_maxsize f ∧ keeps V f f' ∧ fb_spare f - 2 ≤ fb_spare f'.
Proof.
  intros Htab Hsk Hgs Hnew Ho He Heven Hsp.
  destruct (rp_get_spec _ _ _ _ _ Htab) as (r & mn & Hr & Hget & Hlk).
  pose proof (rt_counts _ _ _ _ _ Htab) as [Hc _]. simpl in Hc.
  pose proof (rt_ends _ _ _ _ _ Htab) as Hends.
  pose proof (rt_slot _ _ _ _ _ Htab n ltac:(set_solver)) as Hslot.
  pose proof (rt_NoDup _ _ _ _ _ Htab) as Hnd. apply NoDup_cons in Hnd as [Hni _].
  unfold rl_add. rewrite Hget, bind_Ok.
  rewrite (proj2 (Z.eqb_neq n RL_NONE)).
  2: { change RL_NONE with (2 ^ 64 - 1). pose proof (re_nalloc _ Hends). lia. }
  set (rl1 := rl_set_empty rl _ _ mn).
  assert (rl_nelems rl1 = rl_nelems rl) as -> by by destruct rl.
  assert (rl_nalloc rl1 = rl_nalloc rl) as Hna1 by by destruct rl.
  assert (rl_rp rl1 = rl_rp rl) as Hrp1 by by destruct rl.
  rewrite Hna1, Hrp1, assert_Ok, bind_Ok by (rewrite (rt_nelems _ _ _ _ _ Htab); apply Z.ltb_lt; lia).
  rewrite (rd_Ok _ _ _ Hr), bind_Ok, wr_Ok, bind_Ok by eauto.
  set (rn := Region off ext (rg_next r) (rg_prev r)).
  assert (skoe (rl_set_rp rl1 (<[n := rn]> (rl_rp rl))) f V fs gs) as Hsk1.
  { eapply skoe_same; [|eapply (skoe_write rl f V fs gs n r rn); try done; [lia|rewrite Hgs; set_solver|set_solver]].
    by destruct rl. }
  assert (rl_ends (rl_set_rp rl1 (<[n := rn]> (rl_rp rl)))) as Hends1.
  { eapply rl_ends_same; [|eapply (ends_write rl n rn); [done|lia]]. by destruct rl. }
  destruct (rl_rel_spec (rl_set_rp rl1 (<[n := rn]> (rl_rp rl))) f V fs gs n rn g Hends1 Hsk1 Hgs)
    as (rl2 & f2 & g2 & r2 & fs2 & gs2 & -> & Hrp2 & Ho2 & He2 & Hfs2 & Hgs2 & Hsk2 & Hfr & Hm & Hk & Hs).
  { rewrite rl_rp_set. apply lookup_insert_eq. }
  { by rewrite rl_nalloc_set_rp, Hna1. } { set_solver. }
  { rewrite rl_nalloc_set_rp, Hna1. lia. }
  { intros x Hx. rewrite rl_rp_set. unfold rg_off. rewrite lookup_insert_ne by set_solver.
    split; [apply (rt_dom _ _ _ _ _ Htab); set_solver|by apply Hnew]. }
  { done. } { done. } { done. }
  rewrite bind_Ok. simpl. rewrite rl_rp_set, insert_insert_eq in Hrp2.
  destruct (frame_members _ _ Hfr) as (Hna & Hfo & Hfe & Hnc & Hmg & Hch & Hem & Hne & Hnf & Hnl & Hmx & Hnb).
  assert (rl_tab rl2 es fs2 us lb) as Htab2.
  { eapply (rl_tab_add rl rl2 n es fs us lb r r2 fs2); [done..| |done|done| | | | | | | | | |].
    { apply IsFree_even. rewrite He2. done. }
    all: rewrite ?Hna, ?Hfo, ?Hfe, ?Hnc, ?Hmg, ?Hch, ?Hem, ?Hne, ?Hnf, ?Hnl; by destruct rl. }
  destruct (same_note_maxfree rl2) as (Hsame & Hmx3 & Hnb3 & Hrp3).
  assert (rl_tab (rl_note_maxfree rl2) es fs2 us lb) as Htab3 by by eapply tab_same.
  rewrite assert_Ok, bind_Ok by by eapply tab_balanced.
  eexists _, f2, g2, r2, fs2, gs2. split; [done|].
  split_and!; [by rewrite Hrp3|done..| |done| | | |done|done|done].
  - by rewrite Hgs2, Hfs2.
  - eapply skoe_same; [|exact Hsk2]. apply Hsame.
  - rewrite Hmx3, Hmx. by destruct rl.
  - rewrite Hnb3, Hnb. by destruct rl.
Qed.

Lemma rl_add_full rl f g off ext fs us lb :
  rl_tab rl [] fs us lb → rl_add rl f g off ext = Ok (None, rl, f, g).
Proof. intros Htab. unfold rl_add. by rewrite (rp_get_spec _ _ _ _ _ Htab), bind_Ok. Qed.

(** ** [rl_split()] *)

Lemma tab_write_lb rl es fs us lb p r r' :
  rl_tab rl es fs us lb → p ∈ lb → rl_rp rl !! p = Some r → IsFree r' = true →
  rl_tab (rl_set_rp rl (<[p := r']> (rl_rp rl))) es fs us lb.
Proof.
  intros Htab Hp Hr Hf. pose proof (rt_NoDup _ _ _ _ _ Htab) as Hnd.
  pose proof (rt_slot _ _ _ _ _ Htab p ltac:(set_solver)) as Hs.
  assert (p ∉ es ++ fs ++ us) as Hni.
  { rewrite !(assoc_L (++)) in Hnd. apply NoDup_app in Hnd as (_ & Hd & _).
    rewrite <- !(assoc_L (++)) in Hd. intros Hin. by apply (Hd p Hin). }
  assert (∀ x, x ≠ p → <[p := r']> (rl_rp rl) !! x = rl_rp rl !! x) as Hsame.
  { intros x Hx. by apply lookup_insert_ne. }
  destruct Htab. split; rewrite ?rl_rp_set, ?rl_nalloc_set_rp; try (by destruct rl).
  - apply ends_write; [done|lia].
  - replace (rl_empty (rl_set_rp rl _)) with (rl_empty rl) by by destruct rl.
    eapply linked_ext; [|exact rt_empty]. intros x Hx. simpl. rewrite Hsame; [done|set_solver].
  - eapply hash_inv_ext; [exact rt_hash|by destruct rl..|]. intros x rx Hx Hrx. exists rx.
    rewrite rl_rp_set, Hsame; [done|set_solver].
  - intros x Hx. unfold in_use. rewrite Hsame; [by apply rt_used|set_solver].
  - intros x rx Hx Hrx. rewrite lookup_insert in Hrx. case_decide; [congruence|].
    by apply (rt_free x).
Qed.

Lemma sep_mid fs l1 p l2 : p ∉ fs → sep fs l1 → sep fs l2 → sep fs (l1 ++ p :: l2).
Proof.
  intros Hp H1 H2 A x y B HE Hx Hy.
  apply app_eq_inv in HE as [(k & HA & HB)|(k & HA & HB)].
  - destruct k as [|z [|z' k]]; simplify_eq/=; [done|done|by eapply H1].
  - destruct k as [|z k]; simplify_eq/=; [done|by eapply H2].
Qed.

Lemma tiled_split off ext off' ext' base limit A p n B e :
  tiled off ext base (A ++ p :: B) limit → p ∉ A → p ∉ B → n ∉ A ++ p :: B →
  0 < e < ext p → off' p = off p → ext' p = e → off' n = off p + e → ext' n = ext p - e →
  (∀ x, x ≠ p → x ≠ n → off' x = off x ∧ ext' x = ext x) →
  tiled off' ext' base (A ++ p :: n :: B) limit.
Proof.
  intros (m & H1 & Hp & Hep & H2)%tiled_app HpA HpB Hn He Ho1 He1 Ho2 He2 Hx.
  apply tiled_app. exists m. split.
  - eapply tiled_ext; [|exact H1]. intros x Hx1. apply Hx; set_solver.
  - simpl. split_and!; [lia|lia|lia|lia|].
    replace (m + ext' p + ext' n) with (m + ext p) by lia.
    eapply tiled_ext; [|exact H2]. intros x Hx2. apply Hx; set_solver.
Qed.

(** The greatest extent when [n] joins the free regions. *)
Lemma exact_max_add rp rp' fs fs' n m :
  exact_max rp fs m → fs' ≡ₚ n :: fs → (∀ x, x ∈ fs → rext rp' x = rext rp x) →
  0 < rext rp' n → exact_max rp' fs' (if m <? rext rp' n then rext rp' n else m).
Proof.
  intros [Hle Hex] Hfs Hx Hpos. split.
  - intros x Hxf. rewrite Hfs in Hxf. apply elem_of_cons in Hxf as [->|Hx1].
    + destruct (Z.ltb_spec m (rext rp' n)); lia.
    + rewrite Hx by done. specialize (Hle x Hx1). destruct (Z.ltb_spec m (rext rp' n)); lia.
  - right. destruct (Z.ltb_spec m (rext rp' n)) as [|Hge].
    + exists n. split; [rewrite Hfs; constructor|done].
    + destruct Hex as [[-> _]|(x & Hxin & HM)]; [lia|]. exists x.
      split; [rewrite Hfs; by right|by rewrite Hx].
Qed.

Section split.
Context (rl : regionl) (f : fb) (V : gmap Z Z) (base limit : Z) (es fs us lb : list Z).
Context (A : list Z) (p : Z) (B : list Z) (e : Z) (g : rng).
Context (Hinv : rl_inv rl f V base limit es fs us (p :: lb) (A ++ p :: B)).
Context (He : 0 < e < rext (rl_rp rl) p).
Abbreviation rp := (rl_rp rl).

Lemma split_region :
  ∃ r, rp !! p = Some r ∧ IsFree r = true ∧ rext rp p = rg_extent r ∧ 0 < rg_offset r ∧
    rg_offset r + rg_extent r ≤ 2 ^ 62 ∧ (p ∉ fs) ∧ (p ∉ A) ∧ (p ∉ B).
Proof using Hinv.
  clear He. destruct Hinv as [[Htab _ Hrange Hts Htl] _ _].
  destruct (ts_region rl base limit es fs us (p :: lb) _ Htab Hrange Hts Htl p ltac:(set_solver))
    as (r & Hr & ? & ? & ? & _).
  assert (IsFree r = true) as Hf by (eapply (rt_free _ _ _ _ _ Htab); [|exact Hr]; set_solver).
  rewrite Extent_free in * by done.
  pose proof (rt_NoDup _ _ _ _ _ Htab) as Hnd. apply NoDup_app in Hnd as (_ & _ & Hnd).
  pose proof Hnd as Hndt. rewrite <- Hts in Hndt. apply NoDup_app in Hndt as (_ & Hd & [HB _]%NoDup_cons).
  apply NoDup_app in Hnd as (_ & Hdf & _).
  exists r. split_and!; [done|done|by rewrite (rext_at _ _ _ Hr), Extent_free|done|done| | |].
  - intros Hp. apply (Hdf p Hp). set_solver.
  - intros Hp. apply (Hd p Hp). constructor.
  - done.
Qed.

(** With no empty slot, the region stays whole. *)
Lemma rl_split_full : es = [] → rl_split rl f g p e = Ok (ENOMEM, rl, f, g).
Proof using Hinv He.
  intros Hes. destruct split_region as (r & Hr & Hf & Hx & _). unfold rl_split.
  rewrite (rd_Ok _ _ _ Hr), bind_Ok, assert_Ok, bind_Ok, assert_Ok, bind_Ok by (done || lia).
  pose proof (rc_tab _ _ _ _ _ _ _ _ _ _ (ri_core _ _ _ _ _ _ _ _ _ _ Hinv)) as Htab.
  rewrite Hes in Htab. by erewrite rl_add_full.
Qed.

(** The new region starts where no free region does. *)
Lemma split_new r x : rp !! p = Some r → x ∈ fs → rg_off rp x ≠ rg_offset r + e.
Proof using Hinv He.
  intros Hr Hxf HE. destruct split_region as (_ & _ & _ & _ & _ & _ & Hpf & _).
  pose proof Hinv as [[_ _ _ Hts Htl] _ _].
  pose proof (tiled_mid _ _ _ _ _ _ _ Htl) as (HA & Hpp & HB' & _).
  pose proof (tiled_range _ _ _ _ _ Htl) as [_ Hrg].
  assert (x ∈ A ++ p :: B) as Hin by (rewrite Hts; set_solver).
  destruct (Hrg x Hin) as (_ & ? & _). rewrite (rg_off_at _ _ _ Hr) in *.
  apply elem_of_app in Hin as [Hin|[->|Hin]%elem_of_cons]; [|done|].
  - specialize (HA x Hin). lia.
  - specialize (HB' x Hin). lia.
Qed.

Lemma split_sep n fs' :
  (∀ z l, B = z :: l → z ∉ fs) → n ∉ A ++ p :: B → fs' ≡ₚ n :: fs →
  sep fs' (A ++ p :: n :: B).
Proof using Hinv.
  clear He. intros HB Hn Hfs'. destruct split_region as (_ & _ & _ & _ & _ & _ & Hpf & _).
  pose proof Hinv as [_ Hsep _].
  assert (∀ x, x ∈ A ++ p :: B → x ∈ fs' → x ∈ fs) as Hback.
  { intros x Hxt Hxf. rewrite Hfs' in Hxf. by apply elem_of_cons in Hxf as [->|?]. }
  apply sep_app_inv in Hsep as [HsA HsB]. apply sep_mid.
  - rewrite Hfs'. set_solver.
  - eapply sep_sub; [exact HsA|]. intros x Hxa. apply Hback. set_solver.
  - apply (sep_join fs' [] n B).
    + intros l1 x y l2 HE. by destruct l1.
    + eapply sep_sub; [exact HsB|]. intros x Hxa. apply Hback. set_solver.
    + intros z l HE. by destruct l.
    + intros z l HE Hz. eapply HB; [done|]. apply Hback; [rewrite HE; set_solver|done].
Qed.

(** The table and the region list after the split. *)
Lemma split_inv rl1 f1 n es' fs1 gs1 rn r :
  rp !! p = Some r → rl_rp rl1 = <[n := rn]> rp → rg_offset rn = rg_offset r + e →
  rg_extent rn = rg_extent r - e → e mod 2 = 0 → n ∉ fs ++ us ++ p :: lb →
  (∀ z l, B = z :: l → z ∉ fs) → fs1 ≡ₚ n :: fs → gs1 ≡ₚ fs1 →
  rl_tab rl1 es' fs1 us (p :: lb) → skoe rl1 f1 V fs1 gs1 → rl_maxfextent rl1 = rl_maxfextent rl →
  let rp2 := <[p := rg_set_extent r e]> (rl_rp rl1) in
  let m := if rl_maxfextent rl <? rg_extent r - e then rg_extent r - e else rl_maxfextent rl in
  rl_inv (rl_set_maxfextent (rl_set_rp rl1 rp2) m) f1 V base limit es' fs1 us (p :: lb)
    (A ++ p :: n :: B) ∧
  rext rp2 p = e ∧ rg_off rp2 p = rg_off rp p ∧ rext rp2 n = rext rp p - e ∧
  (∀ x, x ≠ p → x ≠ n → rp2 !! x = rp !! x).
Proof using Hinv He.
  intros Hr Hrp1 Hro Hre Heven Hnn HB Hfs1 Hgs1 Htab1 Hsk1 Hmx1 rp2 m.
  destruct split_region as (r0 & Hr0 & Hf & Hx & Ho & Hlim & Hpf & HpA & HpB).
  rewrite Hr in Hr0. injection Hr0 as <-.
  pose proof Hinv as [[_ _ Hrange Hts Htl] _ [Hle Hex]].
  assert (n ≠ p) as Hnp by set_solver.
  assert (IsFree (rg_set_extent r e) = true) as Hfp by by apply IsFree_even.
  assert (IsFree rn = true) as Hfn.
  { apply IsFree_even. apply IsFree_even in Hf. rewrite Hre. div_lia. }
  assert (rl_rp rl1 !! p = Some r) as Hp1 by (rewrite Hrp1, lookup_insert_ne; done).
  assert (∀ x, x ≠ p → x ≠ n → rp2 !! x = rp !! x) as Hx2.
  { intros x ??. unfold rp2. by rewrite lookup_insert_ne, Hrp1, lookup_insert_ne. }
  assert (rext rp2 p = e ∧ rg_off rp2 p = rg_off rp p) as [Hep Hop].
  { unfold rext, rg_off, rp2. rewrite lookup_insert_eq, Hr. simpl. by rewrite Extent_free. }
  assert (rext rp2 n = rext rp p - e ∧ rg_off rp2 n = rg_off rp p + e) as [Hen Hon].
  { unfold rext at 1, rg_off, rp2. rewrite lookup_insert_ne, Hrp1, lookup_insert_eq, Hr by done.
    simpl. rewrite Extent_free, Hre, Hro by done. split; lia. }
  assert (rl_rp (rl_set_maxfextent (rl_set_rp rl1 rp2) m) = rp2) as Hrp2 by by destruct rl1.
  split; [|done]. split; [split|..]; rewrite ?Hrp2.
  - eapply tab_same; [|eapply (tab_write_lb rl1 es' fs1 us (p :: lb) p r (rg_set_extent r e));
      [done|constructor|done|done]]. by destruct rl1.
  - exists gs1. split; [done|].
    eapply skoe_same; [|eapply (skoe_write rl1 f1 V fs1 gs1 p r (rg_set_extent r e))].
    + by destruct rl1.
    + apply Htab1.
    + done.
    + done.
    + pose proof (rt_slot _ _ _ _ _ Htab1 p ltac:(set_solver)). lia.
    + rewrite Hgs1, Hfs1. set_solver.
    + rewrite Hfs1. set_solver.
  - done.
  - trans (n :: A ++ p :: B); [solve_Permutation|]. rewrite Hts, Hfs1. solve_Permutation.
  - eapply (tiled_split (rg_off rp) (rext rp)); [done..| | |done|done|done|done|].
    + rewrite Hts. done.
    + lia.
    + intros x ??. unfold rg_off, rext. by rewrite Hx2.
  - apply split_sep; [done| |done]. by rewrite Hts.
  - replace (rl_maxfextent (rl_set_maxfextent (rl_set_rp rl1 rp2) m)) with m by by destruct rl1.
    unfold m. rewrite <- Hx, <- Hen. apply (exact_max_add rp rp2 fs fs1 n); [done..| |].
    + intros x Hxf. unfold rext. rewrite Hx2; [done|set_solver..].
    + rewrite Hen. lia.
Qed.

Lemma rl_split_spec n es' :
  es = n :: es' → (∀ z l, B = z :: l → z ∉ fs) → e mod 2 = 0 → 2 ≤ fb_spare f →
  ∃ rl' f' g' fs', rl_split rl f g p e = Ok (0, rl', f', g') ∧ fs' ≡ₚ n :: fs ∧
    rl_inv rl' f' V base limit es' fs' us (p :: lb) (A ++ p :: n :: B) ∧
    rext (rl_rp rl') p = e ∧ rg_off (rl_rp rl') p = rg_off rp p ∧
    rext (rl_rp rl') n = rext rp p - e ∧
    (∀ x, x ≠ p → x ≠ n → rl_rp rl' !! x = rp !! x) ∧ rl_nbytes rl' = rl_nbytes rl ∧
    fb_maxsize f' = fb_maxsize f ∧ keeps V f f' ∧ fb_spare f - 2 ≤ fb_spare f'.
Proof using Hinv He.
  intros Hes HB Heven Hsp. destruct split_region as (r & Hr & Hf & Hx & Ho & Hlim & Hpf & HpA & HpB).
  pose proof Hinv as [[Htab (gs & Hgs & Hsk) _ _ _] _ _]. rewrite Hes in Htab.
  assert (n ∉ fs ++ us ++ p :: lb) as Hnn.
  { pose proof (rt_NoDup _ _ _ _ _ Htab) as Hnd. apply NoDup_cons in Hnd as [Hnd _].
    by apply not_elem_of_app in Hnd as [_ ?]. }
  unfold rl_split.
  rewrite (rd_Ok _ _ _ Hr), bind_Ok, assert_Ok, bind_Ok, assert_Ok, bind_Ok by (done || lia).
  assert ((rg_extent r - e) mod 2 = 0) as Hrem by (apply IsFree_even in Hf; div_lia).
  destruct (rl_add_spec rl f V n es' fs us (p :: lb) gs (rg_offset r + e) (rg_extent r - e) g
    Htab Hsk Hgs (λ x, split_new r x Hr)) as (rl1 & f1 & g1 & rn & fs1 & gs1 & Hadd & Hrp1 & Hro &
    Hre & Hfs1 & Hgs1 & Htab1 & Hsk1 & Hmx1 & Hnb1 & Hm1 & Hk1 & Hs1); [lia|lia|done|done|].
  cbn zeta. rewrite Hadd, bind_Ok.
  assert (rl_rp rl1 !! n = Some rn) as Hn1 by (rewrite Hrp1; apply lookup_insert_eq).
  assert (rl_rp rl1 !! p = Some r) as Hp1 by (rewrite Hrp1, lookup_insert_ne; set_solver).
  assert (IsFree rn = true) as Hfn by (apply IsFree_even; by rewrite Hre).
  rewrite (rd_Ok _ _ _ Hn1), bind_Ok, assert_Ok, bind_Ok by done.
  rewrite (rd_Ok _ _ _ Hp1), bind_Ok, wr_Ok, bind_Ok by eauto.
  cbn zeta. rewrite if_set_maxfextent.
  destruct (split_inv rl1 f1 n es' fs1 gs1 rn r) as (Hinv' & Hep & Hop & Hen & Hx2); [done..|].
  set (rp2 := <[p := rg_set_extent r e]> (rl_rp rl1)) in *.
  replace (rl_maxfextent (rl_set_rp rl1 rp2)) with (rl_maxfextent rl) by (rewrite <- Hmx1; by destruct rl1).
  eexists _, f1, g1, fs1. split; [done|].
  assert (∀ m, rl_rp (rl_set_maxfextent (rl_set_rp rl1 rp2) m) = rp2) as -> by by destruct rl1.
  split_and!; [done..| |done|done|done]. rewrite <- Hnb1. by destruct rl1.
Qed.
End split.

(** ** Making a region in transit one in use *)

Lemma hash_spec rl f V base limit es fs us lb ts p r :
  rl_inv rl f V base limit es fs us (p :: lb) ts → rl_rp rl !! p = Some r →
  ∃ rl', rlhash_add (rl_set_rp rl (<[p := set_IsAlloc r]> (rl_rp rl))) p = Ok rl' ∧
    rl_inv rl' f V base limit es fs (p :: us) lb ts ∧ rl_nbytes rl' = rl_nbytes rl ∧
    rl_maxbytes rl' = rl_maxbytes rl ∧
    (∀ n r, rl_rp rl !! n = Some r → ∃ r', rl_rp rl' !! n = Some r' ∧
     rg_offset r' = rg_offset r ∧ Extent r' = Extent r).
Proof.
  intros Hinv Hr. pose proof Hinv as [[Htab _ _ _ _] _ _].
  set (rl1 := rl_set_rp rl _).
  assert (rl_rp rl1 = <[p := set_IsAlloc r]> (rl_rp rl)) as Hrp1 by by destruct rl.
  assert (rl_rp rl1 !! p = Some (set_IsAlloc r)) as Hp1 by (rewrite Hrp1; apply lookup_insert_eq).
  pose proof (rt_slot _ _ _ _ _ Htab p ltac:(set_solver)) as Hs.
  pose proof (rt_counts _ _ _ _ _ Htab) as [Hc Hc2]. simpl in Hc.
  pose proof (rt_NoDup _ _ _ _ _ Htab) as Hnd. apply NoDup_app in Hnd as (_ & _ & Hnd).
  apply NoDup_app in Hnd as (_ & _ & Hnd). apply NoDup_app in Hnd as (_ & Hdu & [Hpl _]%NoDup_cons).
  assert (p ∉ us) as Hpu by (intros Hp; apply (Hdu p Hp); constructor).
  destruct (rlhash_add_spec rl1 us p (set_IsAlloc r)) as (rp' & ch' & Hadd & [Hlo1 Hlo2] & Hh).
  { eapply hash_inv_ext; [apply (rt_hash _ _ _ _ _ Htab)|by destruct rl..|].
    intros n rn Hn Hrn. rewrite Hrp1, lookup_insert_ne by congruence. eauto. }
  { intros x Hx. destruct (rt_used _ _ _ _ _ Htab x Hx) as (rx & Hrx & Ha). exists rx.
    rewrite Hrp1, lookup_insert_ne; [done|congruence]. }
  { done. } { change RL_NONE with (2 ^ 64 - 1). lia. }
  { unfold rl_fuel, rl1. rewrite rl_nalloc_set_rp. lia. }
  { done. } { apply set_IsAlloc_alloc. }
  eexists. split; [exact Hadd|]. set (rl2 := rl_set_chains _ _) in *.
  assert (rl_rp rl2 = rp') as Hrp2 by by destruct rl.
  assert (∀ n rn, rl_rp rl !! n = Some rn → ∃ r', rl_rp rl2 !! n = Some r' ∧
     rg_offset r' = rg_offset rn ∧ Extent r' = Extent rn ∧
     (n ≠ p → rg_extent r' = rg_extent rn) ∧ (n = p → IsAlloc r' = true)) as Hkeep.
  { intros n rn Hn. rewrite Hrp2. destruct (decide (n = p)) as [->|Hne].
    - destruct (Hlo2 p _ Hp1) as (r' & Hr' & Ho & He). exists r'.
      rewrite Hr in Hn. injection Hn as <-. split_and!; [done|done| |done|].
      + unfold Extent at 1. rewrite He. apply set_IsAlloc_alloc.
      + intros _. unfold IsAlloc. rewrite He. apply set_IsAlloc_alloc.
    - destruct (Hlo2 n rn) as (r' & Hr' & Ho & He); [by rewrite Hrp1, lookup_insert_ne|].
      exists r'. unfold Extent. rewrite He. done. }
  split_and!; [|by destruct rl..|].
  2: { intros n rn Hn. destruct (Hkeep n rn Hn) as (r' & ? & ? & ? & _). eauto. }
  eapply (inv_retable rl rl2 f V base limit es fs us (p :: lb) ts);
    [done|by destruct rl..| | | |done| |].
  - intros n Hn. rewrite Hrp2, Hlo1, Hrp1, lookup_insert_ne; [done|set_solver..].
  - intros n rn Hn. destruct (Hkeep n rn Hn) as (r' & ? & ? & ? & _). eauto.
  - solve_Permutation.
  - intros n Hn. destruct (decide (n = p)) as [->|Hne].
    + destruct (Hkeep p r Hr) as (r' & Hr' & _ & _ & _ & Ha). exists r'. auto.
    + destruct (rt_used _ _ _ _ _ Htab n ltac:(set_solver)) as (rn & Hrn & Ha).
      destruct (Hkeep n rn Hrn) as (r' & Hr' & _ & _ & He & _). exists r'.
      split; [done|]. unfold IsAlloc in *. by rewrite He.
  - intros n rn Hn Hrn. assert (n ≠ p) as Hne by congruence.
    assert (n ∉ us) by (intros Hnu; apply (Hdu n Hnu); by constructor).
    rewrite Hrp2, Hlo1, Hrp1, lookup_insert_ne in Hrn by set_solver.
    eapply (rt_free _ _ _ _ _ Htab); [|exact Hrn]. set_solver.
Qed.

(** ** [rl_init()] *)

(** The blocks of the ends of a list. *)
Lemma ends_init f V tl :
  fb_own f V → 2 ≤ fb_spare f →
  ∃ b0 f0 b1 f1 m U, fb_get f (fb_maxsize f - 1) = Ok (b0, f0) ∧ fb_get f0 0 = Ok (b1, f1) ∧
    fill_block (Z.to_nat (fb_maxsize f1)) (fb_fblks f1) b0 0 tl = Ok m ∧
    fb_own (fb_set_fblks f1 m) (U ∪ V) ∧ U ##ₘ V ∧ U !! b0 = Some (fb_maxsize f) ∧
    (∀ k, 0 ≤ k < fb_maxsize f → m !! (b0 + k) = Some tl) ∧
    fb_maxsize f1 = fb_maxsize f ∧ keeps V f (fb_set_fblks f1 m) ∧ fb_spare f - 2 ≤ fb_spare f1.
Proof.
  intros Hown Hsp. pose proof (fb_own_max _ _ Hown) as Hmax.
  destruct (fb_get_spare f V (fb_maxsize f - 1) Hown) as (b0 & f0 & Hg0 & _ & Hgot0 & Hs0); [lia..|].
  destruct Hgot0 as (HV0 & Hown0 & Hm0 & _ & Hfr0).
  destruct (fb_get_spare f0 _ 0 Hown0) as (b1 & f1 & Hg1 & _ & Hgot1 & Hs1); [lia..|].
  destruct Hgot1 as (HV1 & Hown1 & Hm1 & _ & Hfr1).
  apply lookup_insert_None in HV1 as [HV1 Hb01].
  replace (fb_maxsize f - 1 + 1) with (fb_maxsize f) in * by lia.
  assert (<[b1 := 0 + 1]> (<[b0 := fb_maxsize f]> V) !! b0 = Some (fb_maxsize f)) as HU0
    by (rewrite lookup_insert_ne by done; apply lookup_insert_eq).
  destruct (fill_block_spec (Z.to_nat (fb_maxsize f1)) f1 _ b0 (fb_maxsize f) 0 tl Hown1 HU0)
    as (m & Hfill & Hown2 & Hcells & Hfr2); [lia..|].
  exists b0, f0, b1, f1, m, (<[b1 := 0 + 1]> {[b0 := fb_maxsize f]}).
  rewrite <- insert_union_l, <- insert_union_singleton_l.
  split_and!; [done..| | | |lia| |lia].
  - apply map_disjoint_insert_l_2; [done|]. by apply map_disjoint_singleton_l_2.
  - rewrite lookup_insert_ne by done. apply lookup_insert_eq.
  - intros k Hk. apply Hcells. lia.
  - intros b s c Hb Hc. simpl. assert (b ≠ b0) by congruence. assert (b ≠ b1) by congruence.
    rewrite Hfr2, (Hfr1 b s c), (Hfr0 b s c); try done.
    + by rewrite lookup_insert_ne.
    + intros Hr. assert (b0 ≠ b) as Hne by congruence.
      destruct (fb_own_disj _ _ Hown1 b0 (fb_maxsize f) b s Hne); [done| |lia..].
      by rewrite !lookup_insert_ne.
Qed.

Lemma sk_inv_empty (s : skl) key rl f U r b :
  sk_hd s rl ≠ sk_tl s → sk_level s rl = 0 → 1 ≤ fb_maxsize f →
  rl_rp rl !! sk_hd s rl = Some r → sk_blk s r = b → U !! b = Some (fb_maxsize f) →
  (∀ k, 0 ≤ k < fb_maxsize f → fb_fblks f !! (b + k) = Some (sk_tl s)) →
  is_Some (rl_rp rl !! sk_tl s) → sk_inv s key rl f U [].
Proof.
  intros Hne Hlev Hm Hr Hb HU Hc Ht. split.
  - rewrite Hlev. apply sl_rep_empty with b; [done|done| |done|done].
    unfold sk_blkof. by rewrite (rd_Ok _ _ _ Hr), bind_Ok, Hb.
  - constructor.
  - by intros n ->%list_elem_of_singleton.
  - by intros n ?%elem_of_nil.
  - unfold rl_fuel. simpl. lia.
Qed.

Section init.
Context (nalloc nc b0 b1 b2 b3 : Z).

(** The region list that [rl_init()] makes. *)
Definition rl_fresh : regionl :=
  Regionl nalloc nc RL_EMPTY_HD 0 0 0 0 0 nalloc nalloc 0 0 0 RL_FOFF_HD 0 RL_FEXT_HD
    (<[RL_FEXT_TL := rg_set_prev (clear_IsAlloc (Region 0 MAX_SIZE_T 0 0)) b3]>
      (<[RL_FEXT_HD := Region 0 0 0 b2]>
       (<[RL_FOFF_TL := Region huge_off_t 0 b1 0]>
        (<[RL_FOFF_HD := Region 0 0 b0 0]>
         (arr_tabulate (nalloc + RL_FREE_OVERHEAD)
           (λ i, if i <? RL_EMPTY_HD then Region 0 0 0 0 else rp_init_slot nalloc i))))))
    RL_MAGIC (arr_tabulate nc (λ _, RL_NONE)).

Lemma rl_fresh_slot i :
  4 ≤ i < nalloc + 4 → rl_rp rl_fresh !! i = Some (rp_init_slot nalloc i).
Proof.
  intros Hi. unfold rl_fresh, RL_FEXT_TL, RL_FEXT_HD, RL_FOFF_TL, RL_FOFF_HD. simpl.
  rewrite !lookup_insert_ne by lia. rewrite arr_tabulate_lookup, decide_True.
  2: { unfold RL_FREE_OVERHEAD. lia. }
  by rewrite (proj2 (Z.ltb_ge _ _)) by (unfold RL_EMPTY_HD, RL_FREE_OVERHEAD; lia).
Qed.

Lemma rl_fresh_ends : 0 < nalloc < 2 ^ 32 → rl_ends rl_fresh.
Proof.
  intros Hn. split; try done.
  - simpl in *. intros i Hi. unfold RL_FREE_OVERHEAD in Hi. destruct (decide (4 ≤ i)) as [|Hlt].
    + pose proof (rl_fresh_slot i ltac:(lia)) as Hs. simpl in Hs. rewrite Hs. eauto.
    + rewrite !lookup_insert. repeat case_decide; eauto. exfalso.
      unfold RL_FEXT_TL, RL_FEXT_HD, RL_FOFF_TL, RL_FOFF_HD in *. lia.
  - eexists. split; [simpl; rewrite ?lookup_insert_ne by done; apply lookup_insert_eq|done].
  - eexists. split; [simpl; rewrite ?lookup_insert_ne by done; apply lookup_insert_eq|done].
  - eexists. split; [simpl; rewrite ?lookup_insert_ne by done; apply lookup_insert_eq|done].
  - eexists. split; [simpl; rewrite ?lookup_insert_ne by done; apply lookup_insert_eq|done].
Qed.

Lemma rl_fresh_tab : 0 < nalloc < 2 ^ 32 → 0 < nc → rl_tab rl_fresh (seqZ 4 nalloc) [] [] [].
Proof.
  intros Hn Hnc. split; try done.
  - by apply rl_fresh_ends.
  - simpl. by rewrite !app_nil_r.
  - apply linked_seqZ; [lia|]. intros i Hi. rewrite rl_fresh_slot by lia. simpl.
    unfold RL_FREE_OVERHEAD. by replace (nalloc + 4 - 1) with (4 + nalloc - 1) by lia.
  - rewrite length_seqZ. simpl. lia.
  - split; try done; simpl; [constructor|by intros ? ?%elem_of_nil|unfold rl_fuel; simpl; lia|by intros ? ?%elem_of_nil|].
    intros c Hc. exists RL_NONE, []. rewrite arr_tabulate_lookup, decide_True by done.
    split_and!; [done|done|constructor|]. intros x. rewrite !elem_of_nil. tauto.
  - by intros n ?%elem_of_nil.
  - by intros n r ?%elem_of_nil.
Qed.
End init.

Lemma rl_init_spec nalloc f V base :
  8 ≤ nalloc < 2 ^ 32 → fb_own f V → 4 ≤ fb_spare f → 0 < base ≤ 2 ^ 62 →
  ∃ rl f', rl_init nalloc f = Ok (rl, f') ∧
    rl_inv rl f' V base base (seqZ 4 nalloc) [] [] [] [] ∧ rl_nalloc rl = nalloc ∧
    rl_nbytes rl = 0 ∧ fb_maxsize f' = fb_maxsize f ∧ keeps V f f' ∧ fb_spare f - 4 ≤ fb_spare f'.
Proof.
  intros Hn Hown Hsp Hb. pose proof (fb_own_max _ _ Hown) as Hmax.
  destruct (rlhash_nchains_pos nalloc) as (nc & Hnc & Hpos); [lia|].
  destruct (ends_init f V RL_FOFF_TL Hown)
    as (b0 & f0 & b1 & f1 & m1 & U1 & Hg0 & Hg1 & Hfill1 & Hown1 & Hd1 & HU1 & Hc1 & Hm1 & Hk1 & Hs1);
    [lia|].
  destruct (ends_init (fb_set_fblks f1 m1) (U1 ∪ V) RL_FEXT_TL Hown1)
    as (b2 & f2 & b3 & f3 & m2 & U2 & Hg2 & Hg3 & Hfill2 & Hown2 & Hd2 & HU2 & Hc2 & Hm2 & Hk2 & Hs2).
  { change (fb_spare (fb_set_fblks f1 m1)) with (fb_spare f1). lia. }
  change (fb_maxsize (fb_set_fblks f1 m1)) with (fb_maxsize f1) in *.
  change (fb_spare (fb_set_fblks f1 m1)) with (fb_spare f1) in *.
  pose proof (rl_fresh_ends nalloc nc b0 b1 b2 b3 ltac:(lia)) as Hends.
  pose proof (rl_fresh_tab nalloc nc b0 b1 b2 b3 ltac:(lia) ltac:(lia)) as Htab.
  assert (rl_init nalloc f = Ok (rl_fresh nalloc nc b0 b1 b2 b3, fb_set_fblks f3 m2)) as Hrun.
  { unfold rl_init. rewrite assert_Ok by by eapply fb_own_magic. rewrite bind_Ok, Hnc, bind_Ok.
    unfold rl_foff_init. rewrite Hg0, bind_Ok. simpl rl_rp.
    rewrite wr_Ok, bind_Ok, Hg1, bind_Ok.
    2: { rewrite arr_tabulate_lookup, decide_True; [eauto|]. unfold RL_FREE_OVERHEAD, RL_FOFF_HD. lia. }
    rewrite wr_Ok, bind_Ok.
    2: { rewrite lookup_insert_ne, arr_tabulate_lookup, decide_True; [eauto| |done].
         unfold RL_FREE_OVERHEAD, RL_FOFF_TL. lia. }
    rewrite Hfill1, !bind_Ok. unfold rl_fext_init.
    change (fb_maxsize (fb_set_fblks f1 m1)) with (fb_maxsize f1).
    rewrite Hg2, bind_Ok. simpl rl_rp. rewrite wr_Ok, bind_Ok, Hg3, bind_Ok.
    2: { rewrite !lookup_insert_ne, arr_tabulate_lookup, decide_True; [eauto| |done..].
         unfold RL_FREE_OVERHEAD, RL_FEXT_HD. lia. }
    rewrite wr_Ok, bind_Ok.
    2: { rewrite !lookup_insert_ne, arr_tabulate_lookup, decide_True; [eauto| |done..].
         unfold RL_FREE_OVERHEAD, RL_FEXT_TL. lia. }
    rewrite Hfill2, !bind_Ok. rewrite assert_Ok, bind_Ok; [done|]. by eapply tab_balanced. }
  eexists _, _. split; [exact Hrun|].
  split_and!; [|done|done|simpl; lia| |].
  - split; [split; [done| |lia|done|done]|by intros [] ? ? ?|].
    2: { split; [by intros ? ?%elem_of_nil|by left]. }
    exists []. split; [done|]. exists U1, U2.
    apply map_disjoint_union_r in Hd2 as [Hd21 Hd2].
    split_and!.
    + apply (sk_inv_empty foff foff_key _ _ U1 (Region 0 0 b0 0) b0);
        [done|done|simpl; lia| |done|simpl; congruence| |apply (re_dom _ Hends); simpl; unfold RL_FREE_OVERHEAD, RL_FOFF_TL, RL_FEXT_TL; lia].
      { simpl. rewrite !lookup_insert_ne by done. apply lookup_insert_eq. }
      intros k Hk. simpl in *. rewrite (Hk2 b0 (fb_maxsize f)).
      * apply Hc1. lia.
      * by apply lookup_union_Some_l.
      * lia.
    + apply (sk_inv_empty fext fext_key _ _ U2 (Region 0 0 0 b2) b2);
        [done|done|simpl; lia| |done|simpl; congruence| |apply (re_dom _ Hends); simpl; unfold RL_FREE_OVERHEAD, RL_FOFF_TL, RL_FEXT_TL; lia].
      { simpl. rewrite !lookup_insert_ne by done. apply lookup_insert_eq. }
      intros k Hk. simpl in *. apply Hc2. lia.
    + rewrite (assoc_L (∪)), (map_union_comm U1 U2) by done. by rewrite <- (assoc_L (∪)).
    + by apply map_disjoint_union_r.
    + done.
  - eapply keeps_trans; [exact Hk1|]. eapply keeps_mono; [|exact Hk2]. by apply map_union_subseteq_r.
  - change (fb_spare (fb_set_fblks f3 m2)) with (fb_spare f3). lia.
Qed.
