(* ===== verification/RegionThms.v ===== *)
(** * Theorems about the region list

    The abstract state of the region list is the map of the allocated regions,
    from offset to extent; the free space is what they leave of the data segment.
    The theorems say what each operation does to it. *)

From S2P Require Import Prelude NumTheory Fb SkipList RegionList RegionSkip RegionHash.
From S2P Require Import RegionAlloc RegionMerge RegionFree RegionOps.

(** The part of [ctl_init()] that makes the region list: one free region for the
    whole data segment. *)
Definition rl_create (nalloc : Z) (f : fb) (g : rng) (datao extent0 : Z) :
    res (regionl * fb * rng) :=
  let! '(rl, f) := rl_init nalloc f in
  let! '(new, rl, f, g) := rl_add rl f g datao extent0 in
  let rl := rl_set_maxfextent rl extent0 in
  match new with
  | None => Err AssertFail
  | Some ix =>
      let! r := rd (rl_rp rl) ix in
      assert! (rg_offset r =? datao) && (rg_extent r =? extent0) in
      Ok (rl, f, g)
  end.

(** ** The abstract state *)

Definition rl_view (rp : gmap Z region) (us : list Z) : gmap Z Z :=
  list_to_map ((λ n, (rg_off rp n, rext rp n)) <$> us).

Section view.
Context (rp : gmap Z region) (us : list Z).
Context (Hinj : ∀ x y, x ∈ us → y ∈ us → rg_off rp x = rg_off rp y → x = y).
Context (Hnd : NoDup us).

Lemma rl_view_lookup off e :
  rl_view rp us !! off = Some e ↔ ∃ n, n ∈ us ∧ rg_off rp n = off ∧ rext rp n = e.
Proof.
  unfold rl_view. rewrite <- elem_of_list_to_map.
  - rewrite list_elem_of_fmap. split.
    + intros (n & [= -> ->] & Hn). eauto.
    + intros (n & Hn & <- & <-). eauto.
  - rewrite <- list_fmap_compose. apply NoDup_fmap_2_strong; [|done].
    intros x y Hx Hy. simpl. auto.
Qed.

Lemma rl_view_None off : rl_view rp us !! off = None ↔ ∀ n, n ∈ us → rg_off rp n ≠ off.
Proof.
  rewrite eq_None_not_Some. split.
  - intros Hno n Hn Ho. apply Hno. exists (rext rp n). apply rl_view_lookup. eauto.
  - intros Hno [e (n & Hn & Ho & _)%rl_view_lookup]. by eapply Hno.
Qed.
End view.

Lemma rl_view_ext rp rp' us :
  (∀ x, x ∈ us → rg_off rp' x = rg_off rp x ∧ rext rp' x = rext rp x) →
  rl_view rp' us = rl_view rp us.
Proof.
  intros Hx. unfold rl_view. f_equal. apply list_fmap_ext. intros i n Hn.
  apply list_elem_of_lookup_2 in Hn. by destruct (Hx n Hn) as [-> ->].
Qed.

Lemma rl_view_cons rp n us : rl_view rp (n :: us) = <[rg_off rp n := rext rp n]> (rl_view rp us).
Proof. done. Qed.

(** Freeing [p] deletes its offset. *)
Lemma rl_view_remove rp us p :
  NoDup us → p ∈ us → (∀ x y, x ∈ us → y ∈ us → rg_off rp x = rg_off rp y → x = y) →
  rl_view rp (filter (λ x, x ≠ p) us) = delete (rg_off rp p) (rl_view rp us).
Proof.
  intros Hnd Hp Hinj. apply map_eq. intros off. apply option_eq. intros e.
  rewrite lookup_delete_Some, !rl_view_lookup; [|done|done| |by apply NoDup_filter].
  - split.
    + intros (n & [Hne Hn]%list_elem_of_filter & <- & <-). split; [|eauto].
      intros Ho. by apply Hne, Hinj.
    + intros (Hne & n & Hn & Ho & He). exists n. split_and!; [|done..].
      apply list_elem_of_filter. split; [congruence|done].
  - intros x y [_ Hx]%list_elem_of_filter [_ Hy]%list_elem_of_filter. by apply Hinj.
Qed.

Lemma inv_us rl f V base limit es fs us lb ts :
  rl_inv rl f V base limit es fs us lb ts →
  NoDup us ∧ (∀ x y, x ∈ us → y ∈ us → rg_off (rl_rp rl) x = rg_off (rl_rp rl) y → x = y) ∧
  (∀ x, x ∈ us → x ∈ ts).
Proof.
  intros [[Htab _ _ Hts Htl] _ _]. assert (∀ x, x ∈ us → x ∈ ts) as Hin
    by (intros x Hx; rewrite Hts; set_solver).
  split_and!; [apply (hi_nodup _ _ (rt_hash _ _ _ _ _ Htab))| |done].
  intros x y Hx Hy. eapply (ts_off_inj rl base limit es fs us lb ts); auto.
Qed.

(** The extents of a list of regions. *)
Lemma sum_perm (h : Z → Z) l l' :
  l ≡ₚ l' → foldr Z.add 0 (h <$> l) = foldr Z.add 0 (h <$> l').
Proof. intros Hp. induction Hp; csimpl; lia. Qed.

Lemma tiled_sum off ext base ts limit :
  tiled off ext base ts limit → foldr Z.add 0 (ext <$> ts) = limit - base.
Proof.
  revert base. induction ts as [|n ts IH]; intros base; csimpl; [lia|].
  intros (_ & _ & Ht%IH). lia.
Qed.

(** What is in use is at most the segment. *)
Lemma rl_regions_sum rl f V base limit es fs us lb ts :
  rl_inv rl f V base limit es fs us lb ts →
  0 ≤ foldr Z.add 0 (rext (rl_rp rl) <$> us) ≤ limit - base.
Proof.
  intros Hinv. pose proof Hinv as [[_ _ _ Hts Htl] _ _].
  apply tiled_range in Htl as Hr. destruct Hr as [_ Hr]. apply tiled_sum in Htl.
  rewrite (sum_perm _ _ _ Hts), !fmap_app, !foldr_app in Htl.
  assert (∀ l z, (∀ x, x ∈ l → x ∈ ts) → 0 ≤ z → 0 ≤ foldr Z.add z (rext (rl_rp rl) <$> l)) as Hpos.
  { intros l z Hl Hz. induction l as [|x l IH]; csimpl; [done|].
    destruct (Hr x ltac:(apply Hl; constructor)) as (_ & ? & _).
    assert (0 ≤ foldr Z.add z (rext (rl_rp rl) <$> l)); [|lia].
    apply IH. intros y Hy. apply Hl. by constructor. }
  assert (∀ l z, foldr Z.add z (rext (rl_rp rl) <$> l) = foldr Z.add 0 (rext (rl_rp rl) <$> l) + z) as Hadd.
  { intros l z. induction l as [|x l IH]; csimpl; lia. }
  rewrite (Hadd fs), (Hadd us (foldr _ _ _)) in Htl.
  pose proof (Hpos fs 0 ltac:(intros; rewrite Hts; set_solver) ltac:(done)).
  pose proof (Hpos us 0 ltac:(intros; rewrite Hts; set_solver) ltac:(done)).
  pose proof (Hpos lb 0 ltac:(intros; rewrite Hts; set_solver) ltac:(done)). lia.
Qed.

(** ** [rl_create] *)

Lemma rl_create_spec nalloc f V g datao extent0 :
  8 ≤ nalloc < 2 ^ 32 → fb_own f V → 6 ≤ fb_spare f → 0 < datao → 0 < extent0 →
  datao + extent0 ≤ 2 ^ 62 → extent0 mod 2 = 0 →
  ∃ rl f' g', rl_create nalloc f g datao extent0 = Ok (rl, f', g') ∧
    rl_inv rl f' V datao (datao + extent0) (seqZ 5 (nalloc - 1)) [4] [] [] [4] ∧
    rl_nalloc rl = nalloc ∧ rl_nbytes rl = 0 ∧ rext (rl_rp rl) 4 = extent0 ∧
    rg_off (rl_rp rl) 4 = datao ∧
    fb_maxsize f' = fb_maxsize f ∧ keeps V f f' ∧ fb_spare f - 6 ≤ fb_spare f'.
Proof.
  intros Hn Hown Hsp Hd He Hlim Heven.
  destruct (rl_init_spec nalloc f V datao Hn Hown) as (rl0 & f0 & Hi & Hinv0 & Hna0 & Hnb0 & Hm0 & Hk0 & Hs0);
    [lia..|].
  destruct Hinv0 as [[Htab0 (gs0 & Hgs0 & Hsk0) _ _ _] _ _].
  rewrite seqZ_cons in Htab0 by lia. change (Z.succ 4) with 5 in Htab0.
  replace (Z.pred nalloc) with (nalloc - 1) in Htab0 by lia.
  destruct (rl_add_spec rl0 f0 V 4 _ [] [] [] gs0 datao extent0 g Htab0 Hsk0 Hgs0)
    as (rl1 & f1 & g1 & r1 & fs1 & gs1 & Hadd & Hrp1 & Ho1 & He1 & Hfs1 & Hgs1 & Htab1 & Hsk1 &
        Hmx1 & Hnb1 & Hm1 & Hk1 & Hs1); [by intros ? ?%elem_of_nil|lia|lia|done|lia|].
  apply Permutation_singleton_r in Hfs1. subst fs1.
  unfold rl_create. rewrite Hi, bind_Ok, Hadd, bind_Ok. cbn zeta.
  assert (rl_rp (rl_set_maxfextent rl1 extent0) = rl_rp rl1) as Hrp2 by by destruct rl1.
  assert (rl_rp rl1 !! 4 = Some r1) as Hr1 by (rewrite Hrp1; apply lookup_insert_eq).
  rewrite Hrp2, (rd_Ok _ _ _ Hr1), bind_Ok, assert_Ok, bind_Ok by lia.
  assert (IsFree r1 = true) as Hf1 by (apply IsFree_even; by rewrite He1).
  assert (rext (rl_rp rl1) 4 = extent0) as Hx1 by (by rewrite (rext_at _ _ _ Hr1), Extent_free).
  assert (rg_off (rl_rp rl1) 4 = datao) as Hoff1 by by rewrite (rg_off_at _ _ _ Hr1).
  eexists _, f1, g1. split; [done|]. rewrite Hrp2.
  split_and!; [| | |done|done|congruence|by eapply keeps_trans|lia].
  - split; [split|..]; rewrite ?Hrp2.
    + eapply tab_same; [|exact Htab1]. by destruct rl1.
    + exists gs1. split; [done|]. eapply skoe_same; [|exact Hsk1]. by destruct rl1.
    + lia.
    + done.
    + simpl. split_and!; [done|lia|lia].
    + intros [|? [|? ?]] ? ? ? HE; done.
    + replace (rl_maxfextent _) with extent0 by by destruct rl1.
      split; [intros n ->%list_elem_of_singleton; lia|]. right. exists 4. split; [constructor|done].
  - rewrite <- Hna0. pose proof (rt_perm _ _ _ _ _ Htab1) as Hp1. pose proof (rt_perm _ _ _ _ _ Htab0) as Hp0.
    apply Permutation_length in Hp0, Hp1. rewrite !length_app, !length_seqZ in *. simpl in *.
    pose proof (re_nalloc _ (rt_ends _ _ _ _ _ Htab1)). pose proof (re_nalloc _ (rt_ends _ _ _ _ _ Htab0)).
    destruct rl1. simpl in *. lia.
  - rewrite <- Hnb0, <- Hnb1. by destruct rl1.
Qed.

(** ** Properties *)

(** Creating the region list leaves one free region that is the whole data
    segment; no region is in use and the invariant holds. *)
Theorem rl_create_correct nalloc f V g datao extent0 :
  8 ≤ nalloc < 2 ^ 32 → fb_own f V → 6 ≤ fb_spare f → 0 < datao → 0 < extent0 →
  datao + extent0 ≤ 2 ^ 62 → extent0 mod 2 = 0 →
  ∃ rl f' g' es ix, rl_create nalloc f g datao extent0 = Ok (rl, f', g') ∧
    rl_inv rl f' V datao (datao + extent0) es [ix] [] [] [ix] ∧
    rl_view (rl_rp rl) [] = ∅ ∧ rl_nbytes rl = 0 ∧ rl_nempty rl = nalloc - 1 ∧
    rl_maxfextent rl = extent0 ∧ keeps V f f'.
Proof.
  intros Hn Hown Hsp Hd He Hlim Heven.
  destruct (rl_create_spec nalloc f V g datao extent0 Hn Hown Hsp Hd He Hlim Heven)
    as (rl & f' & g' & Hrun & Hinv & Hna & Hnb & Hx & Ho & _ & Hk & _).
  exists rl, f', g', (seqZ 5 (nalloc - 1)), 4. split_and!; [done|done|done|done| | |done].
  - rewrite (rt_nempty _ _ _ _ _ (rc_tab _ _ _ _ _ _ _ _ _ _ (ri_core _ _ _ _ _ _ _ _ _ _ Hinv))).
    rewrite length_seqZ. lia.
  - destruct (ri_max _ _ _ _ _ _ _ _ _ _ Hinv) as [_ [[_ ?]|(n & Hin & <-)]]; [done|].
    apply list_elem_of_singleton in Hin as ->. done.
Qed.

(** A region that is not in use lies in the segment, apart from the regions in use. *)
Definition apart (rl : regionl) (base limit : Z) (us : list Z) (q : Z) : Prop :=
  let o := rg_off (rl_rp rl) q in
  let x := rext (rl_rp rl) q in
  base ≤ o ∧ 0 < x ∧ o + x ≤ limit ∧
  ∀ o' e', rl_view (rl_rp rl) us !! o' = Some e' → o + x ≤ o' ∨ o' + e' ≤ o.

Lemma free_apart rl f V base limit es fs us lb ts q :
  rl_inv rl f V base limit es fs us lb ts → q ∈ fs → apart rl base limit us q.
Proof.
  intros Hinv Hq. destruct (inv_us _ _ _ _ _ _ _ _ _ _ Hinv) as (Hnd & Hinj & Hin).
  pose proof Hinv as [[Htab _ _ Hts Htl] _ _]. assert (q ∈ ts) as Hqt by (rewrite Hts; set_solver).
  pose proof (tiled_range _ _ _ _ _ Htl) as [_ Hr]. destruct (Hr q Hqt) as (H1 & H2 & H3).
  split; [done|]. split; [done|]. split; [done|].
  intros o' e' (n & Hn & <- & <-)%rl_view_lookup; [|done..].
  apply list_elem_of_split in Hqt as (l1 & l2 & ->). apply tiled_mid in Htl as (Hlo & _ & Hhi & _).
  pose proof (Hin n Hn) as Hnt. apply elem_of_app in Hnt as [Hnt|[->|Hnt]%elem_of_cons].
  - right. by apply Hlo.
  - exfalso. pose proof (rt_NoDup _ _ _ _ _ Htab) as Hd. rewrite !NoDup_app in Hd. set_solver.
  - left. by apply Hhi.
Qed.

(** C38: allocation.  [rl_get()] is best fit: it returns RL_NONE, changing nothing, exactly if no
    free region has the extent; otherwise it returns a free region of least sufficient
    extent, the first of those in the segment, which lies in the segment and overlaps no
    region in use, and takes it off the free lists.  Regions in
    use and their extents stay. *)
Theorem rl_get_correct rl f V base limit es fs us lb ts e :
  rl_inv rl f V base limit es fs us lb ts →
  (∃ q rl' f' fs', rl_get rl f e = Ok (q, rl', f') ∧ q ≠ RL_NONE ∧ best_fit rl fs e q ∧
     apart rl base limit us q ∧ fs ≡ₚ q :: fs' ∧ rl_inv rl' f' V base limit es fs' us (q :: lb) ts ∧
     rl_rp rl' = rl_rp rl ∧ rl_nbytes rl' = rl_nbytes rl ∧ keeps V f f') ∨
  (rl_get rl f e = Ok (RL_NONE, rl, f) ∧ ∀ x, x ∈ fs → rext (rl_rp rl) x < e).
Proof.
  intros Hinv. destruct (rl_get_spec _ _ _ _ _ _ _ _ _ _ Hinv e)
    as [(q & rl' & f' & fs' & Hrun & Hbest & Hfs & Hinv' & Hrp & Hnb & _ & _ & Hk & _)|[? ?]]; [left|by right].
  exists q, rl', f', fs'. split_and!; try done.
  2: { eapply free_apart; [exact Hinv|]. rewrite Hfs. constructor. }
  destruct (inv_free _ _ _ _ _ _ _ _ _ _ (ri_core _ _ _ _ _ _ _ _ _ _ Hinv) q) as (Hs & _);
    [rewrite Hfs; constructor|].
  destruct (rt_counts _ _ _ _ _ (rc_tab _ _ _ _ _ _ _ _ _ _ (ri_core _ _ _ _ _ _ _ _ _ _ Hinv))) as [_ ?].
  change RL_NONE with (2 ^ 64 - 1). lia.
Qed.

(** [rl_split()] of a region taken by [rl_get()], at an even extent below its
    own, cuts it in two: the low part keeps slot and offset and has exactly the
    extent asked for, the rest is a free region in what was the first empty slot.
    Without an empty slot it is ENOMEM and nothing changes. *)
Theorem rl_split_correct rl f V base limit es fs us lb A p B e g :
  rl_inv rl f V base limit es fs us (p :: lb) (A ++ p :: B) → (∀ z l, B = z :: l → z ∉ fs) →
  0 < e < rext (rl_rp rl) p → e mod 2 = 0 → 2 ≤ fb_spare f →
  match es with
  | [] => rl_split rl f g p e = Ok (ENOMEM, rl, f, g)
  | n :: es' => ∃ rl' f' g' fs', rl_split rl f g p e = Ok (0, rl', f', g') ∧ fs' ≡ₚ n :: fs ∧
      rl_inv rl' f' V base limit es' fs' us (p :: lb) (A ++ p :: n :: B) ∧
      rext (rl_rp rl') p = e ∧ rg_off (rl_rp rl') p = rg_off (rl_rp rl) p ∧
      rext (rl_rp rl') n = rext (rl_rp rl) p - e ∧
      rl_view (rl_rp rl') us = rl_view (rl_rp rl) us ∧ keeps V f f'
  end.
Proof.
  intros Hinv HB He Heven Hsp. destruct es as [|n es'].
  - by eapply rl_split_full.
  - destruct (rl_split_spec rl f V base limit (n :: es') fs us lb A p B e g Hinv He n es' eq_refl HB Heven Hsp)
      as (rl' & f' & g' & fs' & Hrun & Hfs & Hinv' & Hep & Hop & Hen & Hx & _ & _ & Hk & _).
    exists rl', f', g', fs'. split_and!; try done. apply rl_view_ext. intros x Hxu.
    pose proof (rt_NoDup _ _ _ _ _ (rc_tab _ _ _ _ _ _ _ _ _ _ (ri_core _ _ _ _ _ _ _ _ _ _ Hinv))) as Hnd.
    apply NoDup_cons in Hnd as [Hn Hnd]. apply NoDup_app in Hnd as (_ & _ & Hnd).
    apply NoDup_app in Hnd as (_ & _ & Hnd). apply NoDup_app in Hnd as (_ & Hd & _).
    unfold rg_off, rext. rewrite Hx; [done|intros ->..].
    + apply (Hd p Hxu). constructor.
    + set_solver.
Qed.

(** C36: [rl_free()] of a region in use deletes it from the abstract state, keeps
    every other region in use, subtracts its extent from the bytes in use and
    merges it with its free neighbours, so that free regions are maximal again. *)
Theorem rl_free_correct rl f V base limit es fs us lb ts p g :
  rl_inv rl f V base limit es fs us lb ts → p ∈ us → 4 ≤ fb_spare f →
  ∃ rl' f' g' es' fs' us' ts', rl_free rl f g p = Ok (rl', f', g') ∧
    rl_inv rl' f' V base limit es' fs' us' lb ts' ∧
    rl_view (rl_rp rl') us' = delete (rg_off (rl_rp rl) p) (rl_view (rl_rp rl) us) ∧
    rl_nbytes rl' = u64 (rl_nbytes rl - rext (rl_rp rl) p) ∧
    keeps V f f' ∧ fb_spare f - 4 ≤ fb_spare f'.
Proof.
  intros Hinv Hp Hsp. destruct (inv_us _ _ _ _ _ _ _ _ _ _ Hinv) as (Hnd & Hinj & _).
  destruct (rl_free_spec rl f V base limit es fs us lb ts p g Hinv Hp Hsp)
    as (rl' & f' & g' & es' & fs' & ts' & Hrun & Hinv' & Hx & Hnb & _ & Hk & Hs & _).
  exists rl', f', g', es', fs', (filter (λ x, x ≠ p) us), ts'. split_and!; try done.
  rewrite <- rl_view_remove by done. apply rl_view_ext.
  intros x [Hne Hxu]%list_elem_of_filter. apply Hx; [set_solver|done].
Qed.

(** [rl_put()] returns a region that [rl_get()] took (and whose index passes its
    assertion) to the free space, merged with its free neighbours; the regions
    in use stay as they are. *)
Theorem rl_put_correct rl f V base limit es fs us lb ts p g :
  rl_inv rl f V base limit es fs us (p :: lb) ts → p < rl_nalloc rl → 4 ≤ fb_spare f →
  ∃ rl' f' g' es' fs' ts', rl_put rl f g p = Ok (rl', f', g') ∧
    rl_inv rl' f' V base limit es' fs' us lb ts' ∧
    rl_view (rl_rp rl') us = rl_view (rl_rp rl) us ∧ rl_nbytes rl' = rl_nbytes rl ∧
    keeps V f f'.
Proof.
  intros Hinv Hp Hsp.
  destruct (rl_put_spec rl f V base limit es fs us lb ts p g Hinv Hp Hsp)
    as (rl' & f' & g' & es' & fs' & ts' & Hrun & Hinv' & Hx & Hnb & _ & Hk & _).
  exists rl', f', g', es', fs', ts'. split_and!; try done. apply rl_view_ext.
  intros x Hxu. unfold rg_off, rext. rewrite Hx; [done|set_solver].
Qed.

(** [rl_find()] returns the slot of the region in use at the offset, RL_NONE if
    there is none. *)
Theorem rl_find_correct rl f V base limit es fs us lb ts off :
  rl_inv rl f V base limit es fs us lb ts →
  ∃ ix, rl_find rl off = Ok ix ∧
    match rl_view (rl_rp rl) us !! off with
    | Some e => ix ∈ us ∧ rg_off (rl_rp rl) ix = off ∧ rext (rl_rp rl) ix = e
    | None => ix = RL_NONE
    end.
Proof.
  intros Hinv. destruct (inv_us _ _ _ _ _ _ _ _ _ _ Hinv) as (Hnd & Hinj & _).
  pose proof (rc_tab _ _ _ _ _ _ _ _ _ _ (ri_core _ _ _ _ _ _ _ _ _ _ Hinv)) as Htab.
  destruct (rl_find_spec rl us off (rt_hash _ _ _ _ _ Htab) (rt_used _ _ _ _ _ Htab))
    as (ix & Hrun & [[Hix Ho]|[-> Hno]]).
  - exists ix. split; [done|]. erewrite (proj2 (rl_view_lookup _ _ Hinj Hnd off _)) by eauto. done.
  - exists RL_NONE. split; [done|]. by rewrite (proj2 (rl_view_None _ _ Hinj Hnd off)).
Qed.

Lemma rl_regions_apart rl f V base limit es fs us lb ts :
  rl_inv rl f V base limit es fs us lb ts →
  (∀ o e, rl_view (rl_rp rl) us !! o = Some e → base ≤ o ∧ 0 < e ∧ o + e ≤ limit) ∧
  (∀ o1 e1 o2 e2, rl_view (rl_rp rl) us !! o1 = Some e1 → rl_view (rl_rp rl) us !! o2 = Some e2 →
     o1 ≠ o2 → o1 + e1 ≤ o2 ∨ o2 + e2 ≤ o1) ∧
  foldr Z.add 0 (rext (rl_rp rl) <$> fs ++ us ++ lb) = limit - base.
Proof.
  intros Hinv. destruct (inv_us _ _ _ _ _ _ _ _ _ _ Hinv) as (Hnd & Hinj & Hin).
  pose proof Hinv as [[_ _ _ Hts Htl] _ _]. split_and!.
  - intros o e (n & Hn & <- & <-)%rl_view_lookup; [|done..].
    apply tiled_range in Htl as [_ Hr]. by apply Hr, Hin.
  - intros o1 e1 o2 e2 (n1 & H1 & <- & <-)%rl_view_lookup (n2 & H2 & <- & <-)%rl_view_lookup Hne; [|done..].
    apply Hin, list_elem_of_split in H1 as (l1 & l2 & ->).
    apply tiled_mid in Htl as (Hlo & _ & Hhi & _). apply Hin in H2.
    apply elem_of_app in H2 as [H2|[->|H2]%elem_of_cons]; [|done|].
    + right. by apply Hlo.
    + left. by apply Hhi.
  - rewrite <- (sum_perm (rext (rl_rp rl)) ts) by done. by eapply tiled_sum.
Qed.

(** ** Witnesses *)

(** Sixteen slots, a segment of 64 KiB after the first page. *)
Definition rl_ex_new : res (regionl * fb * rng) :=
  let! f := fb_init 64 in rl_create 16 f rng_init 4096 65536.

#[local] Opaque rl_ex_new.

Lemma rl_ex_arena : ∃ f, fb_init 64 = Ok f ∧ fb_own f ∅ ∧ 20 ≤ fb_spare f.
Proof.
  destruct (fb_init_spec 64 ltac:(lia)) as (f & Hf & Hown & _). exists f. split_and!; [done..|].
  assert ((let! f := fb_init 64 in Ok (20 <=? fb_spare f)) = Ok true) as Hs by (vm_compute; reflexivity).
  rewrite Hf, bind_Ok in Hs. injection Hs as Hs. lia.
Qed.

Lemma rl_ex_new_inv :
  ∃ rl f g, rl_ex_new = Ok (rl, f, g) ∧
    rl_inv rl f ∅ 4096 69632 (seqZ 5 15) [4] [] [] [4] ∧ rext (rl_rp rl) 4 = 65536 ∧
    rl_nalloc rl = 16 ∧ rl_nbytes rl = 0 ∧ 14 ≤ fb_spare f.
Proof.
  destruct rl_ex_arena as (f & Hf & Hown & Hsp).
  destruct (rl_create_spec 16 f ∅ rng_init 4096 65536 ltac:(lia) Hown)
    as (rl & f' & g & Hrun & Hinv & Hna & Hnb & Hx & _ & _ & _ & Hs); [lia..|done|].
  exists rl, f', g. with_strategy transparent [rl_ex_new] unfold rl_ex_new.
  rewrite Hf, bind_Ok. split_and!; [done..|lia].
Qed.

(** The region taken by [rl_get()]. *)
Definition rl_ex_got : res (regionl * fb * rng) :=
  let! '(rl, f, g) := rl_ex_new in
  let! '(q, rl, f) := rl_get rl f 4096 in
  assert! q =? 4 in Ok (rl, f, g).

#[local] Opaque rl_ex_got.

Lemma rl_ex_got_inv :
  ∃ rl f g, rl_ex_got = Ok (rl, f, g) ∧
    rl_inv rl f ∅ 4096 69632 (seqZ 5 15) [] [] [4] [4] ∧ rext (rl_rp rl) 4 = 65536 ∧
    rl_nalloc rl = 16 ∧ 14 ≤ fb_spare f.
Proof.
  destruct rl_ex_new_inv as (rl & f & g & Hrun & Hinv & Hx & Hna & Hnb & Hs).
  with_strategy transparent [rl_ex_got] unfold rl_ex_got. rewrite Hrun, bind_Ok.
  destruct (rl_get_spec _ _ _ _ _ _ _ _ _ _ Hinv 4096)
    as [(q & rl' & f' & fs' & Hget & Hbest & Hfs & Hinv' & Hrp & _ & _ & _ & _ & Hs')|[_ Hno]].
  - rewrite Hget, bind_Ok. apply Permutation_singleton_l in Hfs as HE. injection HE as <- <-.
    exists rl', f', g. split_and!; [reflexivity|exact Hinv'|rewrite Hrp; exact Hx| |lia].
    pose proof (rc_tab _ _ _ _ _ _ _ _ _ _ (ri_core _ _ _ _ _ _ _ _ _ _ Hinv')) as Htab'.
    apply rt_perm in Htab'. apply Permutation_length in Htab'.
    assert ((let! '(rl, f, g) := rl_ex_new in let! '(_, rl, _) := rl_get rl f 4096 in
      Ok (rl_nalloc rl)) = Ok 16) as Hn by (vm_compute; reflexivity).
    rewrite Hrun, bind_Ok, Hget, bind_Ok in Hn. congruence.
  - specialize (Hno 4 ltac:(constructor)). lia.
Qed.

(** One region in use, from the front of the segment. *)
Definition rl_ex_used : res (regionl * fb * rng) :=
  let! '(rl, f, g) := rl_ex_got in
  let! '(st, rl, f, g) := rl_split rl f g 4 4096 in
  let! r := rd (rl_rp rl) 4 in
  let! rp := wr (rl_rp rl) 4 (set_IsAlloc r) in
  let! rl := rlhash_add (rl_set_rp rl rp) 4 in
  Ok (rl, f, g).

#[local] Opaque rl_ex_used.

Lemma rl_ex_used_inv :
  ∃ rl f g es fs ts, rl_ex_used = Ok (rl, f, g) ∧
    rl_inv rl f ∅ 4096 69632 es fs [4] [] ts ∧ rext (rl_rp rl) 4 = 4096 ∧ 12 ≤ fb_spare f.
Proof.
  destruct rl_ex_got_inv as (rl & f & g & Hrun & Hinv & Hx & Hna & Hs).
  with_strategy transparent [rl_ex_used] unfold rl_ex_used. rewrite Hrun, bind_Ok.
  destruct (rl_split_spec rl f ∅ 4096 69632 (seqZ 5 15) [] [] [] [] 4 [] 4096 g Hinv) with
    (n := 5) (es' := seqZ 6 14) as (rl' & f' & g' & fs' & Hsp & Hfs & Hinv' & Hx' & _ & _ & _ & _ & _ & _ & Hs');
    [lia|done|done|done|lia|].
  rewrite Hsp, bind_Ok.
  destruct (rt_dom _ _ _ _ _ (rc_tab _ _ _ _ _ _ _ _ _ _ (ri_core _ _ _ _ _ _ _ _ _ _ Hinv')) 4) as [r Hr];
    [do 3 (apply elem_of_app; right); constructor|].
  destruct (hash_spec _ _ _ _ _ _ _ _ _ _ _ _ Hinv' Hr) as (rl2 & Hadd & Hinv2 & _ & _ & Hkeep).
  rewrite (rd_Ok _ _ _ Hr), bind_Ok, wr_Ok, bind_Ok, Hadd, bind_Ok by eauto.
  eexists rl2, f', g', _, _, _. split_and!; [reflexivity|exact Hinv2| |lia].
  destruct (Hkeep 4 r Hr) as (r2 & Hr2 & _ & He2).
  by rewrite (rext_at _ _ _ Hr2), He2, <- (rext_at _ _ _ Hr).
Qed.

Lemma rl_create_correct_witness :
  ∃ f, fb_init 64 = Ok f ∧
  ∃ rl f' g' es ix, rl_create 16 f rng_init 4096 65536 = Ok (rl, f', g') ∧
    rl_inv rl f' ∅ 4096 (4096 + 65536) es [ix] [] [] [ix] ∧
    rl_view (rl_rp rl) [] = ∅ ∧ rl_nbytes rl = 0 ∧ rl_nempty rl = 16 - 1 ∧
    rl_maxfextent rl = 65536 ∧ keeps ∅ f f'.
Proof.
  destruct rl_ex_arena as (f & Hf & Hown & Hsp). exists f. split; [exact Hf|].
  apply (rl_create_correct 16 f ∅ rng_init 4096 65536); [lia|exact Hown|lia|lia|lia|lia|reflexivity].
Defined.

Lemma rl_split_correct_witness :
  ∃ rl f g, rl_ex_got = Ok (rl, f, g) ∧
  ∃ rl' f' g' fs', rl_split rl f g 4 4096 = Ok (0, rl', f', g') ∧ fs' ≡ₚ [5] ∧
    rl_inv rl' f' ∅ 4096 69632 (seqZ 6 14) fs' [] [4] [4; 5] ∧
    rext (rl_rp rl') 4 = 4096 ∧ rg_off (rl_rp rl') 4 = rg_off (rl_rp rl) 4 ∧
    rext (rl_rp rl') 5 = rext (rl_rp rl) 4 - 4096 ∧
    rl_view (rl_rp rl') [] = rl_view (rl_rp rl) [] ∧ keeps ∅ f f'.
Proof.
  destruct rl_ex_got_inv as (rl & f & g & Hrun & Hinv & Hx & _ & Hs). exists rl, f, g.
  split; [exact Hrun|].
  refine (rl_split_correct rl f ∅ 4096 69632 (5 :: seqZ 6 14) [] [] [] [] 4 [] 4096 g Hinv _ _ _ _).
  - intros z l HE. discriminate HE.
  - lia.
  - reflexivity.
  - lia.
Defined.

Lemma rl_free_correct_witness :
  ∃ rl f g es fs ts, rl_ex_used = Ok (rl, f, g) ∧ rext (rl_rp rl) 4 = 4096 ∧
    rl_inv rl f ∅ 4096 69632 es fs [4] [] ts ∧
  ∃ rl' f' g' es' fs' us' ts', rl_free rl f g 4 = Ok (rl', f', g') ∧
    rl_inv rl' f' ∅ 4096 69632 es' fs' us' [] ts' ∧
    rl_view (rl_rp rl') us' = delete (rg_off (rl_rp rl) 4) (rl_view (rl_rp rl) [4]) ∧
    rl_nbytes rl' = u64 (rl_nbytes rl - rext (rl_rp rl) 4) ∧
    keeps ∅ f f' ∧ fb_spare f - 4 ≤ fb_spare f'.
Proof.
  destruct rl_ex_used_inv as (rl & f & g & es & fs & ts & Hrun & Hinv & Hx & Hs).
  exists rl, f, g, es, fs, ts. split; [exact Hrun|]. split; [exact Hx|]. split; [exact Hinv|].
  apply (rl_free_correct rl f ∅ 4096 69632 es fs [4] [] ts 4 g Hinv); [constructor|lia].
Defined.

Lemma rl_put_correct_witness :
  ∃ rl f g, rl_ex_got = Ok (rl, f, g) ∧
  ∃ rl' f' g' es' fs' ts', rl_put rl f g 4 = Ok (rl', f', g') ∧
    rl_inv rl' f' ∅ 4096 69632 es' fs' [] [] ts' ∧
    rl_view (rl_rp rl') [] = rl_view (rl_rp rl) [] ∧ rl_nbytes rl' = rl_nbytes rl ∧
    keeps ∅ f f'.
Proof.
  destruct rl_ex_got_inv as (rl & f & g & Hrun & Hinv & Hx & Hna & Hs). exists rl, f, g.
  split; [exact Hrun|].
  apply (rl_put_correct rl f ∅ 4096 69632 (seqZ 5 15) [] [] [] [4] 4 g Hinv); lia.
Defined.

Lemma rl_find_correct_witness :
  ∃ rl f g, rl_ex_used = Ok (rl, f, g) ∧
  ∃ ix, rl_find rl 4096 = Ok ix ∧
    match rl_view (rl_rp rl) [4] !! 4096 with
    | Some e => ix ∈ [4] ∧ rg_off (rl_rp rl) ix = 4096 ∧ rext (rl_rp rl) ix = e
    | None => ix = RL_NONE
    end.
Proof.
  destruct rl_ex_used_inv as (rl & f & g & es & fs & ts & Hrun & Hinv & Hx & Hs).
  exists rl, f, g. split; [exact Hrun|].
  exact (rl_find_correct rl f ∅ 4096 69632 es fs [4] [] ts 4096 Hinv).
Defined.

(** With one region in use. *)
Lemma rl_get_correct_witness :
  ∃ rl f g es fs ts, rl_ex_used = Ok (rl, f, g) ∧
  ((∃ q rl' f' fs', rl_get rl f 4096 = Ok (q, rl', f') ∧ q ≠ RL_NONE ∧ best_fit rl fs 4096 q ∧
     apart rl 4096 69632 [4] q ∧ fs ≡ₚ q :: fs' ∧ rl_inv rl' f' ∅ 4096 69632 es fs' [4] [q] ts ∧
     rl_rp rl' = rl_rp rl ∧ rl_nbytes rl' = rl_nbytes rl ∧ keeps ∅ f f') ∨
  (rl_get rl f 4096 = Ok (RL_NONE, rl, f) ∧ ∀ x, x ∈ fs → rext (rl_rp rl) x < 4096)).
Proof.
  destruct rl_ex_used_inv as (rl & f & g & es & fs & ts & Hrun & Hinv & Hx & Hs).
  exists rl, f, g, es, fs, ts. split; [exact Hrun|].
  exact (rl_get_correct rl f ∅ 4096 69632 es fs [4] [] ts 4096 Hinv).
Defined.
