(* ===== verification/SigIndex.v ===== *)
(** * The signature index (layer "sx" of src/pq/pq.c)

    A hash table with chaining from the MD5 signatures of the data-products to
    their offsets.  The elements are slots of an array; those in no chain are on
    a free list.  The abstract state is the map [sx_view]; the theorems say that
    [sx_find()], [sx_add()] and [sx_find_delete()] are lookup, insertion and
    deletion on it. *)

From S2P Require Import Prelude NumTheory Fb.

(** A signature is sixteen bytes. *)
Abbreviation signaturet := (list Z).

Record sxelem := Sxelem { se_sxi : signaturet; se_offset : Z; se_next : Z }.

(** [sx] with the [sxhash] that follows it in the file ([sx_magic] and
    [sx_chains]). *)
Record sx := Sx {
  sx_nalloc : Z;
  sx_nelems : Z;
  sx_nchains : Z;
  sx_free : Z;
  sx_nfree : Z;
  sx_sxep : gmap Z sxelem;
  sx_magic : Z;
  sx_chains : gmap Z Z;
}.

Definition SX_NONE : Z := 2 ^ 64 - 1.
Definition SX_MAGIC : Z := 0x53584841.

(** ** Operations *)

Definition sx_hash (nchains : Z) (sig : signaturet) : Z :=
  foldl (λ n i, u32 (256 * n + default 0 (sig !! i))) 0 [0; 1; 2; 3]%nat mod nchains.

Definition sx_init (nalloc : Z) : res sx :=
  let! nc := nchains nalloc in
  Ok (Sx nalloc 0 nc 0 nalloc
        (arr_tabulate nalloc (λ i, Sxelem (replicate 16 0) OFF_NONE
                                     (if i =? nalloc - 1 then SX_NONE else i + 1)))
        SX_MAGIC (arr_tabulate nc (λ _, SX_NONE))).

Definition sx_compare (sig1 sig2 : signaturet) : bool := bool_decide (sig1 = sig2).

Definition sxelem_new (s : sx) : res (Z * sx) :=
  if sx_nfree s =? 0 then Ok (SX_NONE, s)
  else
    let avail := sx_free s in
    let! e := rd (sx_sxep s) avail in
    Ok (avail, Sx (sx_nalloc s) (sx_nelems s) (sx_nchains s) (se_next e)
                 (u64 (sx_nfree s - 1)) (sx_sxep s) (sx_magic s) (sx_chains s)).

Definition sxelem_free (s : sx) (sxix : Z) : res sx :=
  let! e := rd (sx_sxep s) sxix in
  let! m := wr (sx_sxep s) sxix (Sxelem (se_sxi e) OFF_NONE (sx_free s)) in
  Ok (Sx (sx_nalloc s) (sx_nelems s) (sx_nchains s) sxix (u64 (sx_nfree s + 1)) m
        (sx_magic s) (sx_chains s)).

(** The loop of [sx_find()] along a chain. *)
Fixpoint sx_find_loop (fuel : nat) (m : gmap Z sxelem) (sig : signaturet) (next : Z) :
    res (option Z) :=
  match fuel with
  | O => Err OutOfFuel
  | S fuel =>
      if next =? SX_NONE then Ok None
      else
        let! e := rd m next in
        if sx_compare sig (se_sxi e) then Ok (Some next)
        else sx_find_loop fuel m sig (se_next e)
  end.

(** A chain has at most [nalloc] members. *)
Definition sx_fuel (s : sx) : nat := S (Z.to_nat (sx_nalloc s)).

Definition sx_find (s : sx) (sig : signaturet) : res (option Z) :=
  assert! sx_magic s =? SX_MAGIC in
  let! next := rd (sx_chains s) (sx_hash (sx_nchains s) sig) in
  sx_find_loop (sx_fuel s) (sx_sxep s) sig next.

(** [None] is the null pointer. *)
Definition sx_add (s : sx) (sig : signaturet) (offset : Z) : res (option Z * sx) :=
  assert! sx_magic s =? SX_MAGIC in
  assert! negb (sx_nalloc s =? 0) in
  assert! u64 (sx_nfree s + sx_nelems s) =? sx_nalloc s in
  let! '(sxix, s) := sxelem_new s in
  if sxix =? SX_NONE then Ok (None, s)
  else
    let try := sx_hash (sx_nchains s) sig in
    let! next := rd (sx_chains s) try in
    let! m := wr (sx_sxep s) sxix (Sxelem sig offset next) in
    let! ch := wr (sx_chains s) try sxix in
    Ok (Some sxix, Sx (sx_nalloc s) (u64 (sx_nelems s + 1)) (sx_nchains s) (sx_free s)
                     (sx_nfree s) m (sx_magic s) ch).

Definition sx_dec_nelems (s : sx) : sx :=
  Sx (sx_nalloc s) (u64 (sx_nelems s - 1)) (sx_nchains s) (sx_free s) (sx_nfree s)
    (sx_sxep s) (sx_magic s) (sx_chains s).

Definition sx_set_sxep (s : sx) (m : gmap Z sxelem) : sx :=
  Sx (sx_nalloc s) (sx_nelems s) (sx_nchains s) (sx_free s) (sx_nfree s) m (sx_magic s) (sx_chains s).

Definition sx_set_chains (s : sx) (ch : gmap Z Z) : sx :=
  Sx (sx_nalloc s) (sx_nelems s) (sx_nchains s) (sx_free s) (sx_nfree s) (sx_sxep s) (sx_magic s) ch.

(** The loop of [sx_find_delete()] after the first element of the chain: [old]
    is the element that links to [next]. *)
Fixpoint sx_del_loop (fuel : nat) (s : sx) (sig : signaturet) (old next : Z) : res (bool * sx) :=
  match fuel with
  | O => Err OutOfFuel
  | S fuel =>
      if next =? SX_NONE then Ok (false, s)
      else
        let! e := rd (sx_sxep s) next in
        if sx_compare sig (se_sxi e) then
          let! o := rd (sx_sxep s) old in
          let! m := wr (sx_sxep s) old (Sxelem (se_sxi o) (se_offset o) (se_next e)) in
          let! s := sxelem_free (sx_set_sxep s m) next in
          Ok (true, sx_dec_nelems s)
        else sx_del_loop fuel s sig next (se_next e)
  end.

(** The head of the chain is used without a test for SX_NONE. *)
Definition sx_find_delete (s : sx) (sig : signaturet) : res (bool * sx) :=
  assert! sx_magic s =? SX_MAGIC in
  assert! u64 (sx_nfree s + sx_nelems s) =? sx_nalloc s in
  let try := sx_hash (sx_nchains s) sig in
  let! next := rd (sx_chains s) try in
  let! e := rd (sx_sxep s) next in
  if sx_compare sig (se_sxi e) then
    let! ch := wr (sx_chains s) try (se_next e) in
    let! s := sxelem_free (sx_set_chains s ch) next in
    Ok (true, sx_dec_nelems s)
  else sx_del_loop (sx_fuel s) s sig next (se_next e).

(** ** The invariant *)

Definition sx_sig (m : gmap Z sxelem) (n : Z) : signaturet := default [] (se_sxi <$> m !! n).
Definition sx_off (m : gmap Z sxelem) (n : Z) : Z := default OFF_NONE (se_offset <$> m !! n).
Definition sx_nxt (m : gmap Z sxelem) (i : Z) : option Z := se_next <$> m !! i.

(** The slots [us] are in the chains, [fl] are free. *)
Record sx_inv (s : sx) (us fl : list Z) : Prop := {
  xi_magic : sx_magic s = SX_MAGIC;
  xi_nalloc : 0 < sx_nalloc s < 2 ^ 32;
  xi_nchains : 0 < sx_nchains s;
  xi_perm : us ++ fl ≡ₚ seqZ 0 (sx_nalloc s);
  xi_dom i : 0 ≤ i < sx_nalloc s ↔ is_Some (sx_sxep s !! i);
  xi_free : linked (sx_nxt (sx_sxep s)) SX_NONE (sx_free s) fl;
  xi_nfree : sx_nfree s = Z.of_nat (length fl);
  xi_nelems : sx_nelems s = Z.of_nat (length us);
  xi_chain c : 0 ≤ c < sx_nchains s → ∃ h l, sx_chains s !! c = Some h ∧
    linked (sx_nxt (sx_sxep s)) SX_NONE h l ∧ NoDup l ∧
    ∀ n, n ∈ l ↔ n ∈ us ∧ sx_hash (sx_nchains s) (sx_sig (sx_sxep s) n) = c;
  xi_distinct n1 n2 : n1 ∈ us → n2 ∈ us →
    sx_sig (sx_sxep s) n1 = sx_sig (sx_sxep s) n2 → n1 = n2;
}.

(** The signatures and the offsets of their products. *)
Definition sx_view (m : gmap Z sxelem) (us : list Z) : gmap signaturet Z :=
  list_to_map ((λ n, (sx_sig m n, sx_off m n)) <$> us).

Lemma sx_hash_range nc sig : 0 < nc → 0 ≤ sx_hash nc sig < nc.
Proof. intros. apply Z.mod_pos_bound. lia. Qed.

Lemma sx_sig_at m n e : m !! n = Some e → sx_sig m n = se_sxi e.
Proof. unfold sx_sig. by intros ->. Qed.

Lemma sx_compare_true a b : sx_compare a b = true ↔ a = b.
Proof. unfold sx_compare. apply bool_decide_eq_true. Qed.

Section facts.
Context (s : sx) (us fl : list Z) (Hinv : sx_inv s us fl).
Abbreviation m := (sx_sxep s).

Lemma sx_slot n : n ∈ us ++ fl → 0 ≤ n < sx_nalloc s ∧ n ≠ SX_NONE.
Proof.
  rewrite (xi_perm _ _ _ Hinv), elem_of_seqZ. pose proof (xi_nalloc _ _ _ Hinv).
  change SX_NONE with (2 ^ 64 - 1). lia.
Qed.

Lemma sx_NoDup : NoDup (us ++ fl).
Proof. rewrite (xi_perm _ _ _ Hinv). apply NoDup_seqZ. Qed.

Lemma sx_elem n : n ∈ us ++ fl → ∃ e, m !! n = Some e.
Proof. intros [Hn _]%sx_slot. by apply (xi_dom _ _ _ Hinv) in Hn. Qed.

Lemma sx_counts :
  Z.of_nat (length us) + Z.of_nat (length fl) = sx_nalloc s ∧ sx_nalloc s < 2 ^ 32.
Proof.
  pose proof (xi_perm _ _ _ Hinv) as Hp. apply Permutation_length in Hp.
  rewrite length_app, length_seqZ in Hp. pose proof (xi_nalloc _ _ _ Hinv). lia.
Qed.

Lemma sx_balanced : (u64 (sx_nfree s + sx_nelems s) =? sx_nalloc s) = true.
Proof.
  pose proof sx_counts. rewrite (xi_nfree _ _ _ Hinv), (xi_nelems _ _ _ Hinv), u64_small by lia.
  apply Z.eqb_eq. lia.
Qed.

(** A chain fits the fuel. *)
Lemma sx_chain_fuel l : NoDup l → (∀ n, n ∈ l → n ∈ us) → (length l < sx_fuel s)%nat.
Proof.
  intros Hnd Hin. eapply (submseteq_length_le_of l us); [|done|done].
  unfold sx_fuel. pose proof sx_counts. lia.
Qed.

Lemma sx_view_lookup sig off :
  sx_view m us !! sig = Some off ↔ ∃ n, n ∈ us ∧ sx_sig m n = sig ∧ sx_off m n = off.
Proof.
  unfold sx_view. rewrite <- elem_of_list_to_map.
  - rewrite list_elem_of_fmap. split.
    + intros (n & [= -> ->] & Hn). eauto.
    + intros (n & Hn & <- & <-). eauto.
  - rewrite <- list_fmap_compose. apply NoDup_fmap_2_strong.
    + intros x y Hx Hy. simpl. by apply (xi_distinct _ _ _ Hinv).
    + pose proof sx_NoDup as Hnd. by apply NoDup_app in Hnd as (? & _).
Qed.

Lemma sx_view_None sig : sx_view m us !! sig = None ↔ ∀ n, n ∈ us → sx_sig m n ≠ sig.
Proof.
  rewrite eq_None_not_Some. split.
  - intros Hno n Hn Ho. apply Hno. exists (sx_off m n). apply sx_view_lookup. eauto.
  - intros Hno [e (n & Hn & Ho & _)%sx_view_lookup]. by eapply Hno.
Qed.
End facts.

(** ** [sx_find()] *)

Lemma sx_find_loop_spec fuel m sig h l :
  (∀ n, n ∈ l → n ≠ SX_NONE) → linked (sx_nxt m) SX_NONE h l → (length l < fuel)%nat →
  sx_find_loop fuel m sig h = Ok (head (filter (λ n, sx_sig m n = sig) l)).
Proof.
  revert fuel h. induction l as [|n l IH]; intros fuel h Hn Hl Hf.
  - simpl in Hl. subst h. destruct fuel; [simpl in Hf; lia|]. done.
  - destruct Hl as (-> & nx & Hnx & Hl). destruct fuel as [|fuel]; [simpl in Hf; lia|].
    cbn [sx_find_loop]. rewrite (proj2 (Z.eqb_neq _ _)) by (apply Hn; constructor).
    unfold sx_nxt in Hnx. destruct (m !! n) as [e|] eqn:He; [|done]. injection Hnx as <-.
    rewrite (rd_Ok _ _ _ He), bind_Ok. rewrite filter_cons. rewrite (sx_sig_at _ _ _ He).
    destruct (sx_compare sig (se_sxi e)) eqn:Hc.
    + apply sx_compare_true in Hc. by rewrite decide_True.
    + rewrite decide_False.
      * apply IH; [|done|simpl in Hf; lia]. intros. apply Hn. by constructor.
      * intros Hx. by rewrite (proj2 (sx_compare_true _ _)) in Hc.
Qed.

Lemma sx_find_spec s us fl sig :
  sx_inv s us fl →
  ∃ o, sx_find s sig = Ok o ∧
    match o with
    | Some n => n ∈ us ∧ sx_sig (sx_sxep s) n = sig
    | None => ∀ n, n ∈ us → sx_sig (sx_sxep s) n ≠ sig
    end.
Proof.
  intros Hinv. pose proof (sx_hash_range (sx_nchains s) sig (xi_nchains _ _ _ Hinv)) as Hc.
  destruct (xi_chain _ _ _ Hinv _ Hc) as (h & l & Hh & Hl & Hnd & Hin).
  unfold sx_find. rewrite (xi_magic _ _ _ Hinv), assert_Ok, bind_Ok by done.
  rewrite (rd_Ok _ _ _ Hh), bind_Ok, (sx_find_loop_spec _ _ _ _ l); [|..|done|].
  - eexists. split; [done|]. destruct (filter _ l) as [|n l'] eqn:Hf; simpl.
    + intros n Hn Hs. assert (n ∈ filter (λ n, sx_sig (sx_sxep s) n = sig) l) as Hx.
      { apply list_elem_of_filter. split; [done|]. apply Hin. by rewrite Hs. }
      rewrite Hf in Hx. by apply elem_of_nil in Hx.
    + assert (n ∈ filter (λ n, sx_sig (sx_sxep s) n = sig) l) as Hx by (rewrite Hf; constructor).
      apply list_elem_of_filter in Hx as [Hs [Hu _]%Hin]. done.
  - intros n [Hu _]%Hin. eapply sx_slot; [done|]. set_solver.
  - eapply sx_chain_fuel; [done..|]. intros n Hn. by apply Hin.
Qed.

(** ** Changing a chain *)

Lemma sx_chains_upd s (us us' : list Z) m' c h' (l' : list Z) d :
  (∀ c, 0 ≤ c < sx_nchains s → ∃ h l, sx_chains s !! c = Some h ∧
    linked (sx_nxt (sx_sxep s)) SX_NONE h l ∧ NoDup l ∧
    ∀ n, n ∈ l ↔ n ∈ us ∧ sx_hash (sx_nchains s) (sx_sig (sx_sxep s) n) = c) →
  linked (sx_nxt m') SX_NONE h' l' → NoDup l' →
  (∀ n, n ∈ l' ↔ n ∈ us' ∧ sx_hash (sx_nchains s) (sx_sig m' n) = c) →
  (∀ n d, d ≠ c → n ∈ us ∧ sx_hash (sx_nchains s) (sx_sig (sx_sxep s) n) = d ↔
                  n ∈ us' ∧ sx_hash (sx_nchains s) (sx_sig m' n) = d) →
  (∀ n, n ∈ us → sx_hash (sx_nchains s) (sx_sig (sx_sxep s) n) ≠ c →
        sx_nxt m' n = sx_nxt (sx_sxep s) n) →
  0 ≤ d < sx_nchains s → ∃ h l, <[c := h']> (sx_chains s) !! d = Some h ∧
    linked (sx_nxt m') SX_NONE h l ∧ NoDup l ∧
    ∀ n, n ∈ l ↔ n ∈ us' ∧ sx_hash (sx_nchains s) (sx_sig m' n) = d.
Proof.
  intros Hold Hl' Hnd' Hin' Hsame Hnxt Hd. rewrite lookup_insert. case_decide as Hc.
  - subst d. exists h', l'. done.
  - destruct (Hold d Hd) as (h & l & Hh & Hl & Hnd & Hin). exists h, l. split_and!; [done| |done|].
    + eapply linked_ext; [|exact Hl]. intros n [Hn Hhash]%Hin. apply Hnxt; [done|congruence].
    + intros n. rewrite Hin. by apply Hsame.
Qed.

(** ** [sx_add()] *)

Section add.
Context (s : sx) (us fl : list Z) (Hinv : sx_inv s us fl).
Context (sig : signaturet) (off : Z).
Abbreviation m := (sx_sxep s).

Lemma sx_add_full : fl = [] → sx_add s sig off = Ok (None, s).
Proof using Hinv.
  intros Hfl. pose proof (xi_nalloc _ _ _ Hinv). unfold sx_add.
  rewrite (xi_magic _ _ _ Hinv), assert_Ok, bind_Ok, assert_Ok, bind_Ok by (done || lia).
  rewrite assert_Ok by by eapply sx_balanced. unfold sxelem_new.
  by rewrite bind_Ok, (xi_nfree _ _ _ Hinv), Hfl.
Qed.

Lemma sx_add_spec n fl' :
  fl = n :: fl' → (∀ x, x ∈ us → sx_sig m x ≠ sig) →
  ∃ s', sx_add s sig off = Ok (Some n, s') ∧ sx_inv s' (n :: us) fl' ∧
    sx_sig (sx_sxep s') n = sig ∧ sx_off (sx_sxep s') n = off ∧
    (∀ x, x ≠ n → sx_sxep s' !! x = m !! x) ∧ sx_nalloc s' = sx_nalloc s.
Proof using Hinv.
  intros Hfl Hnew. pose proof (xi_nalloc _ _ _ Hinv). pose proof (sx_counts _ _ _ Hinv) as [Hc1 Hc2].
  pose proof (sx_NoDup _ _ _ Hinv) as Hnd. rewrite Hfl in Hnd, Hc1. simpl in Hc1.
  apply NoDup_app in Hnd as (Hndu & Hdis & [Hnf _]%NoDup_cons).
  assert (n ∉ us) as Hnu by (intros Hn; apply (Hdis n Hn); constructor).
  destruct (sx_slot _ _ _ Hinv n) as [Hslot Hnone]; [rewrite Hfl; set_solver|].
  destruct (sx_elem _ _ _ Hinv n) as [e He]; [rewrite Hfl; set_solver|].
  pose proof (xi_free _ _ _ Hinv) as Hlk. rewrite Hfl in Hlk. destruct Hlk as (Hhd & nx & Hnx & Hlk).
  unfold sx_nxt in Hnx. rewrite He in Hnx. injection Hnx as <-.
  pose proof (sx_hash_range (sx_nchains s) sig (xi_nchains _ _ _ Hinv)) as Hc.
  destruct (xi_chain _ _ _ Hinv _ Hc) as (h & l & Hh & Hl & Hndl & Hin).
  set (m' := <[n := Sxelem sig off h]> m).
  assert (∀ x, x ≠ n → m' !! x = m !! x) as Hx by (intros; by apply lookup_insert_ne).
  assert (∀ x, x ≠ n → sx_nxt m' x = sx_nxt m x ∧ sx_sig m' x = sx_sig m x) as Hx'.
  { intros x Hxn. unfold sx_nxt, sx_sig. by rewrite Hx. }
  assert (sx_sig m' n = sig) as Hsn by (unfold sx_sig, m'; by rewrite lookup_insert_eq).
  unfold sx_add. rewrite (xi_magic _ _ _ Hinv), assert_Ok, bind_Ok, assert_Ok, bind_Ok by (done || lia).
  rewrite assert_Ok by by eapply sx_balanced. unfold sxelem_new.
  rewrite bind_Ok, (proj2 (Z.eqb_neq _ 0)), Hhd by (rewrite (xi_nfree _ _ _ Hinv), Hfl; simpl; lia).
  cbn zeta. rewrite (rd_Ok _ _ _ He), !bind_Ok, (proj2 (Z.eqb_neq n SX_NONE)) by done. simpl.
  rewrite (rd_Ok _ _ _ Hh), bind_Ok, wr_Ok, bind_Ok, wr_Ok, bind_Ok by eauto. fold m'.
  eexists. split; [done|]. split_and!; [|done|unfold sx_off; simpl; unfold m'; by rewrite lookup_insert_eq|done|done].
  assert (∀ x, x ∈ us → sx_sig m' x = sx_sig m x) as Hsu by (intros x Hxu; apply Hx'; congruence).
  destruct Hinv. split; simpl; try done.
  - rewrite <- xi_perm0, Hfl. solve_Permutation.
  - intros i. rewrite xi_dom0. unfold m'. rewrite lookup_insert. case_decide; [|done].
    subst i. rewrite He. split; eauto.
  - eapply linked_ext; [|exact Hlk]. intros x Hxf. apply Hx'. congruence.
  - rewrite xi_nfree0, Hfl, u64_small; simpl; lia.
  - rewrite xi_nelems0, u64_small; simpl; lia.
  - intros d Hd. eapply (sx_chains_upd s us (n :: us) m' _ n (n :: l)); [done|..|done].
    + split; [done|]. exists h. unfold sx_nxt, m'. rewrite lookup_insert_eq. split; [done|].
      eapply linked_ext; [|exact Hl]. intros x [Hxu _]%Hin. apply Hx'. congruence.
    + apply NoDup_cons. split; [|done]. by intros [? _]%Hin.
    + intros x. rewrite !elem_of_cons, Hin. destruct (decide (x = n)) as [->|Hxn].
      * rewrite Hsn. tauto.
      * destruct (Hx' x Hxn) as [_ ->]. tauto.
    + intros x d' Hd'. rewrite elem_of_cons. destruct (decide (x = n)) as [->|Hxn].
      * rewrite Hsn. split; [tauto|]. intros [_ ?]. congruence.
      * destruct (Hx' x Hxn) as [_ ->]. tauto.
    + intros x Hxu _. apply Hx'. congruence.
  - intros x y [->|Hxu]%elem_of_cons [->|Hyu]%elem_of_cons; [done|..].
    + rewrite Hsn, Hsu by done. intros HE. by destruct (Hnew y Hyu).
    + rewrite Hsn, Hsu by done. intros HE. by destruct (Hnew x Hxu).
    + rewrite !Hsu by done. by apply xi_distinct0.
Qed.
End add.

(** ** [sx_find_delete()] *)

(** Skipping [n] in a list. *)
Lemma linked_skip (nxt nxt' : Z → option Z) nil h A o n B :
  linked nxt nil h (A ++ o :: n :: B) → nxt' o = nxt n →
  (∀ x, x ∈ A ++ B → nxt' x = nxt x) → linked nxt' nil h (A ++ o :: B).
Proof.
  revert h. induction A as [|a A IH]; intros h; simpl.
  - intros (-> & x & Ho & -> & y & Hn & Hl) Hnx Hx. split; [done|]. exists y. split; [congruence|].
    eapply linked_ext; [|exact Hl]. done.
  - intros (-> & x & Ha & Hl) Hnx Hx. split; [done|]. exists x.
    split; [rewrite Hx; [done|constructor]|]. apply IH; [done|done|].
    intros z Hz. apply Hx. by constructor.
Qed.

Section del.
Context (s : sx) (us fl : list Z) (Hinv : sx_inv s us fl).
Context (n h : Z) (A B : list Z) (e : sxelem).
Abbreviation m := (sx_sxep s).
Abbreviation c := (sx_hash (sx_nchains s) (se_sxi e)).
Context (He : m !! n = Some e) (Hh : sx_chains s !! c = Some h).
Context (Hl : linked (sx_nxt m) SX_NONE h (A ++ n :: B)) (Hnd : NoDup (A ++ n :: B)).
Context (Hin : ∀ x, x ∈ A ++ n :: B ↔ x ∈ us ∧ sx_hash (sx_nchains s) (sx_sig m x) = c).

(** The index when the chain was relinked, in [m1] and [h1], and slot [n] freed. *)
Lemma sx_inv_delete m1 h1 :
  linked (sx_nxt m1) SX_NONE h1 (A ++ B) →
  (∀ x, sx_sig m1 x = sx_sig m x ∧ sx_off m1 x = sx_off m x) →
  (∀ x, is_Some (m1 !! x) ↔ is_Some (m !! x)) →
  (∀ x, x ∉ A → m1 !! x = m !! x) → m1 !! n = Some e →
  ∃ s', (let! s := sxelem_free (Sx (sx_nalloc s) (sx_nelems s) (sx_nchains s) (sx_free s) (sx_nfree s)
                       m1 (sx_magic s) (<[c := h1]> (sx_chains s))) n in
         Ok (true, sx_dec_nelems s)) = Ok (true, s') ∧
    sx_inv s' (filter (λ x, x ≠ n) us) (n :: fl) ∧
    (∀ x, x ≠ n → sx_sig (sx_sxep s') x = sx_sig m x ∧ sx_off (sx_sxep s') x = sx_off m x) ∧
    sx_nalloc s' = sx_nalloc s.
Proof using Hinv He Hh Hl Hnd Hin.
  intros Hl1 Hsig Hdom Hsame Hn1. unfold sxelem_free. simpl.
  rewrite (rd_Ok _ _ _ Hn1), bind_Ok, wr_Ok, !bind_Ok by eauto. eexists. split; [done|].
  set (m' := <[n := Sxelem (se_sxi e) OFF_NONE (sx_free s)]> m1).
  assert (n ∈ us) as Hnu by (apply (Hin n); set_solver).
  apply NoDup_app in Hnd as (HndA & Hdis & [HnB HndB]%NoDup_cons).
  assert (n ∉ A) as HnA by (intros Hx; apply (Hdis n Hx); constructor).
  assert (∀ x, x ≠ n → m' !! x = m1 !! x) as Hx by (intros; by apply lookup_insert_ne).
  assert (∀ x, sx_sig m' x = sx_sig m x) as Hs'.
  { intros x. destruct (decide (x = n)) as [->|Hne].
    - unfold m', sx_sig. by rewrite lookup_insert_eq, He.
    - transitivity (sx_sig m1 x); [|apply Hsig]. unfold sx_sig. by rewrite Hx. }
  pose proof (sx_counts _ _ _ Hinv) as [Hc1 Hc2]. pose proof (sx_NoDup _ _ _ Hinv) as Hndu.
  pose proof (filter_remove_perm n us) as Hperm.
  assert (∀ x, x ∈ fl → x ∉ us) as Hfl.
  { apply NoDup_app in Hndu as (_ & Hd & _). intros x Hxf Hxu. by apply (Hd x). }
  apply NoDup_app in Hndu as (Hndu & _). specialize (Hperm Hndu Hnu).
  pose proof (Permutation_length Hperm) as Hlen. simpl in Hlen.
  assert (∀ x, x ∈ A → x ∈ us) as HAu by (intros x HxA; apply Hin; set_solver).
  split_and!; [|simpl; fold m'|done].
  2: { intros x Hne. split; [apply Hs'|]. transitivity (sx_off m1 x); [|apply Hsig].
       unfold sx_off. by rewrite Hx. }
  destruct Hinv. split; simpl; fold m'; try done.
  - rewrite <- xi_perm0. rewrite Hperm at 2. solve_Permutation.
  - intros i. rewrite xi_dom0. unfold m'. rewrite lookup_insert. case_decide as Hd.
    + subst i. rewrite He. split; eauto.
    + by rewrite Hdom.
  - split; [done|]. exists (sx_free s). unfold sx_nxt, m'. rewrite lookup_insert_eq. split; [done|].
    eapply linked_ext; [|exact xi_free0]. intros x Hxf. unfold sx_nxt.
    assert (x ≠ n) by (intros ->; by apply (Hfl n)).
    rewrite lookup_insert_ne, Hsame by (done || (intros HxA; by apply (Hfl x), HAu)). done.
  - rewrite xi_nfree0, u64_small; lia.
  - rewrite xi_nelems0, u64_small; lia.
  - intros d Hd. eapply (sx_chains_upd s us _ m' _ h1 (A ++ B)); [done|..|done].
    + eapply linked_ext; [|exact Hl1]. intros x Hxl. unfold sx_nxt. rewrite Hx; [done|].
      intros ->. apply elem_of_app in Hxl as [?|?]; done.
    + apply NoDup_app. split_and!; [done| |done]. intros x HxA HxB. apply (Hdis x HxA). by constructor.
    + intros x. rewrite Hs', list_elem_of_filter. specialize (Hin x).
      rewrite elem_of_app, elem_of_cons in Hin. rewrite elem_of_app.
      destruct (decide (x = n)) as [->|Hne]; tauto.
    + intros x d' Hd'. rewrite Hs', list_elem_of_filter. destruct (decide (x = n)) as [->|Hne]; [|tauto].
      rewrite (sx_sig_at _ _ _ He). split; [intros [_ ?]; congruence|tauto].
    + intros x Hxu Hc. unfold sx_nxt. assert (x ≠ n) as Hne.
      { intros ->. by rewrite (sx_sig_at _ _ _ He) in Hc. }
      rewrite Hx, Hsame; [done| |done]. intros HxA. apply Hc, Hin. set_solver.
  - intros x y [_ Hxu]%list_elem_of_filter [_ Hyu]%list_elem_of_filter. rewrite !Hs'.
    by apply xi_distinct0.
Qed.
End del.

(** The loop finds the first element with the signature and unlinks it. *)
Lemma sx_del_loop_spec fuel s sig old next B :
  linked (sx_nxt (sx_sxep s)) SX_NONE next B → (∀ x, x ∈ B → x ≠ SX_NONE) → (length B < fuel)%nat →
  is_Some (sx_sxep s !! old) →
  ((∀ x, x ∈ B → sx_sig (sx_sxep s) x ≠ sig) ∧ sx_del_loop fuel s sig old next = Ok (false, s)) ∨
  ∃ B1 n B2 o e, B = B1 ++ n :: B2 ∧ sx_sxep s !! n = Some e ∧ se_sxi e = sig ∧
    sx_sxep s !! default old (last B1) = Some o ∧
    sx_del_loop fuel s sig old next =
      let m := <[default old (last B1) := Sxelem (se_sxi o) (se_offset o) (se_next e)]> (sx_sxep s) in
      let! s := sxelem_free (sx_set_sxep s m) n in Ok (true, sx_dec_nelems s).
Proof.
  revert fuel old next. induction B as [|b B IH]; intros fuel old next Hl Hn Hf [o Ho].
  - left. simpl in Hl. subst next. destruct fuel; [simpl in Hf; lia|].
    split; [by intros ? ?%elem_of_nil|done].
  - destruct Hl as (-> & nx & Hnx & Hl). destruct fuel as [|fuel]; [simpl in Hf; lia|].
    unfold sx_nxt in Hnx. destruct (sx_sxep s !! b) as [e|] eqn:He; [|done]. injection Hnx as <-.
    cbn [sx_del_loop]. rewrite (proj2 (Z.eqb_neq _ _)) by (apply Hn; constructor).
    rewrite (rd_Ok _ _ _ He), bind_Ok. destruct (sx_compare sig (se_sxi e)) eqn:Hc.
    + right. apply sx_compare_true in Hc. exists [], b, B, o, e. simpl. split_and!; [done..|].
      by rewrite (rd_Ok _ _ _ Ho), bind_Ok, wr_Ok, bind_Ok by eauto.
    + destruct (IH fuel b (se_next e) Hl) as [[Hno Hrun]|(B1 & n & B2 & o' & e' & -> & Hn' & Hs & Ho' & Hrun)].
      * intros. apply Hn. by constructor.
      * simpl in Hf. lia.
      * eauto.
      * left. split; [|done]. intros x [->|Hx]%elem_of_cons; [|auto].
        rewrite (sx_sig_at _ _ _ He). intros HE. by rewrite (proj2 (sx_compare_true _ _)) in Hc.
      * right. exists (b :: B1), n, B2, o', e'. rewrite last_cons.
        destruct (last B1) as [z|] eqn:Hz; simpl in *; split_and!; done.
Qed.

Section find_delete.
Context (s : sx) (us fl : list Z) (Hinv : sx_inv s us fl).
Context (sig : signaturet).
Abbreviation m := (sx_sxep s).

Lemma sx_find_delete_run h :
  sx_chains s !! sx_hash (sx_nchains s) sig = Some h →
  sx_find_delete s sig =
    let! e := rd m h in
    if sx_compare sig (se_sxi e) then
      let! s := sxelem_free (sx_set_chains s (<[sx_hash (sx_nchains s) sig := se_next e]> (sx_chains s))) h in
      Ok (true, sx_dec_nelems s)
    else sx_del_loop (sx_fuel s) s sig h (se_next e).
Proof using Hinv.
  intros Hh. unfold sx_find_delete. rewrite (xi_magic _ _ _ Hinv), assert_Ok, bind_Ok by done.
  rewrite assert_Ok by by eapply sx_balanced. rewrite bind_Ok, (rd_Ok _ _ _ Hh), bind_Ok.
  destruct (rd m h) as [e|]; [|done]. simpl. destruct (sx_compare _ _); [|done].
  by rewrite wr_Ok, bind_Ok by eauto.
Qed.

Lemma sx_delete_spec n :
  n ∈ us → sx_sig m n = sig →
  ∃ s', sx_find_delete s sig = Ok (true, s') ∧ sx_inv s' (filter (λ x, x ≠ n) us) (n :: fl) ∧
    (∀ x, x ≠ n → sx_sig (sx_sxep s') x = sx_sig m x ∧ sx_off (sx_sxep s') x = sx_off m x) ∧
    sx_nalloc s' = sx_nalloc s.
Proof using Hinv.
  intros Hn Hs. pose proof (sx_hash_range (sx_nchains s) sig (xi_nchains _ _ _ Hinv)) as Hc.
  destruct (xi_chain _ _ _ Hinv _ Hc) as (h & l & Hh & Hl & Hnd & Hin).
  rewrite (sx_find_delete_run h Hh).
  assert (n ∈ l) as Hnl by (apply Hin; by rewrite Hs).
  destruct (sx_elem _ _ _ Hinv n) as [e He]; [set_solver|].
  assert (se_sxi e = sig) as Hes by by rewrite <- (sx_sig_at _ _ _ He).
  assert (∀ x, x ∈ l → x ≠ SX_NONE) as Hnone.
  { intros x [Hx _]%Hin. eapply sx_slot; [done|]. set_solver. }
  assert (∀ x, x ∈ l → sx_sig m x = sig → x = n) as Huniq.
  { intros x [Hx _]%Hin HE. apply (xi_distinct _ _ _ Hinv); congruence. }
  destruct l as [|y B]; [by apply elem_of_nil in Hnl|].
  pose proof Hl as (-> & nx & Hnx & HlB). unfold sx_nxt in Hnx.
  destruct (m !! y) as [ey|] eqn:Hy; [|done]. injection Hnx as <-.
  rewrite (rd_Ok _ _ _ Hy), bind_Ok. rewrite <- Hes in Hh, Hin.
  destruct (sx_compare sig (se_sxi ey)) eqn:Hcmp.
  - apply sx_compare_true in Hcmp. assert (y = n) as ->.
    { apply Huniq; [constructor|]. by rewrite (sx_sig_at _ _ _ Hy). }
    rewrite He in Hy. injection Hy as <-. unfold sx_set_chains. rewrite <- Hes.
    apply (sx_inv_delete s us fl Hinv n n [] B e He Hh Hl Hnd Hin m (se_next e)); [done..|intros; done|done].
  - assert (y ≠ n) as Hyn.
    { intros ->. rewrite He in Hy. injection Hy as <-. by rewrite (proj2 (sx_compare_true _ _)) in Hcmp. }
    destruct (sx_del_loop_spec (sx_fuel s) s sig y (se_next ey) B HlB) as
      [[Hno _]|(B1 & n' & B2 & o & e' & -> & He' & Hs' & Ho & Hrun)].
    { intros. apply Hnone. by constructor. }
    { pose proof (sx_chain_fuel _ _ _ Hinv (y :: B) Hnd) as Hlen. simpl in Hlen.
      enough (S (length B) < sx_fuel s)%nat by lia. apply Hlen. intros x Hx. by apply Hin. }
    { eauto. }
    { apply elem_of_cons in Hnl as [->|Hnl]; [done|]. by destruct (Hno n Hnl). }
    assert (n' = n) as -> by (apply Huniq; [set_solver|by rewrite (sx_sig_at _ _ _ He')]).
    rewrite He in He'. injection He' as <-. rewrite Hrun. cbn zeta. unfold sx_set_sxep.
    set (p := default y (last B1)) in *.
    assert (∃ A', y :: B1 = A' ++ [p]) as [A' HA].
    { unfold p. destruct (last B1) as [z|] eqn:Hz; simpl.
      - apply last_Some in Hz as [B' ->]. by exists (y :: B').
      - apply last_None in Hz as ->. by exists []. }
    change (y :: B1 ++ n :: B2) with ((y :: B1) ++ n :: B2) in *. rewrite HA in *.
    set (m1 := <[p := Sxelem (se_sxi o) (se_offset o) (se_next e)]> m).
    rewrite <- (insert_id (sx_chains s) _ _ Hh).
    rewrite <- !app_assoc in Hl, Hnd. simpl in Hl, Hnd.
    assert (p ≠ n ∧ p ∉ A' ++ B2) as [Hpn HpAB].
    { pose proof Hnd as Hnd'. apply NoDup_app in Hnd' as (_ & Hd & [Hp1 _]%NoDup_cons).
      split; [set_solver|]. intros [Hx|Hx]%elem_of_app; [|set_solver].
      apply (Hd p Hx). constructor. }
    apply (sx_inv_delete s us fl Hinv n y (A' ++ [p]) B2 e He Hh); rewrite <- ?app_assoc; simpl; try done.
    + intros x. rewrite <- Hin. by rewrite <- app_assoc.
    + eapply linked_skip; [exact Hl| |].
      * unfold sx_nxt, m1. by rewrite lookup_insert_eq, He.
      * intros x Hx. unfold sx_nxt, m1. rewrite lookup_insert_ne; [done|congruence].
    + intros x. unfold sx_sig, sx_off, m1. rewrite lookup_insert. case_decide; [|done]. subst x. by rewrite Ho.
    + intros x. unfold m1. rewrite lookup_insert. case_decide; [|done]. subst x. rewrite Ho. split; eauto.
    + intros x Hx. unfold m1. apply lookup_insert_ne. set_solver.
    + unfold m1. by rewrite lookup_insert_ne.
Qed.

(** A signature that is not in the index: the chain decides. *)
Lemma sx_delete_absent h :
  (∀ n, n ∈ us → sx_sig m n ≠ sig) → sx_chains s !! sx_hash (sx_nchains s) sig = Some h →
  sx_find_delete s sig = if h =? SX_NONE then Err OutOfBounds else Ok (false, s).
Proof using Hinv.
  intros Hno Hh. pose proof (sx_hash_range (sx_nchains s) sig (xi_nchains _ _ _ Hinv)) as Hc.
  destruct (xi_chain _ _ _ Hinv _ Hc) as (h' & l & Hh' & Hl & Hnd & Hin).
  rewrite Hh in Hh'. injection Hh' as <-. rewrite (sx_find_delete_run h Hh).
  assert (∀ x, x ∈ l → x ≠ SX_NONE ∧ sx_sig m x ≠ sig) as Hx.
  { intros x [Hx _]%Hin. split; [|auto]. eapply sx_slot; [done|]. set_solver. }
  destruct l as [|y B].
  - simpl in Hl. subst h. rewrite Z.eqb_refl. unfold rd.
    destruct (m !! SX_NONE) eqn:He; [|done]. exfalso.
    assert (0 ≤ SX_NONE < sx_nalloc s) as Hr by (apply (xi_dom _ _ _ Hinv); eauto).
    pose proof (xi_nalloc _ _ _ Hinv). change SX_NONE with (2 ^ 64 - 1) in Hr. lia.
  - destruct Hl as (-> & nx & Hnx & Hl). destruct (Hx y) as [Hy1 Hy2]; [constructor|].
    rewrite (proj2 (Z.eqb_neq _ _)) by done. unfold sx_nxt in Hnx.
    destruct (m !! y) as [e|] eqn:He; [|done]. injection Hnx as <-.
    rewrite (rd_Ok _ _ _ He), bind_Ok. rewrite (sx_sig_at _ _ _ He) in Hy2.
    destruct (sx_compare sig (se_sxi e)) eqn:Hcmp; [by apply sx_compare_true in Hcmp|].
    destruct (sx_del_loop_spec (sx_fuel s) s sig y (se_next e) B Hl)
      as [[_ Hrun]|(B1 & n' & B2 & o & e' & -> & He' & Hs' & _)]; [| |eauto|done|].
    + intros x Hxb. apply Hx. by constructor.
    + pose proof (sx_chain_fuel _ _ _ Hinv (y :: B) Hnd) as Hlen. simpl in Hlen.
      enough (S (length B) < sx_fuel s)%nat by lia. apply Hlen. intros x Hxb. by apply Hin.
    + destruct (Hx n') as [_ Hbad]; [set_solver|]. by rewrite (sx_sig_at _ _ _ He') in Hbad.
Qed.
End find_delete.

(** ** [sx_init()] *)

Lemma sx_init_spec nalloc :
  8 ≤ nalloc < 2 ^ 32 → ∃ s, sx_init nalloc = Ok s ∧ sx_inv s [] (seqZ 0 nalloc) ∧ sx_nalloc s = nalloc.
Proof.
  intros Hn. destruct (rlhash_nchains_pos nalloc) as (nc & Hnc & Hpos); [lia|].
  unfold sx_init. change (nchains nalloc) with (rlhash_nchains nalloc). rewrite Hnc, bind_Ok.
  eexists. split; [done|]. split; [|done]. split; simpl; try done; try lia.
  - intros i. rewrite arr_tabulate_lookup. case_decide; [split; eauto|]. split; [done|]. by intros [].
  - apply linked_seqZ; [lia|]. intros i Hi. unfold sx_nxt.
    rewrite arr_tabulate_lookup, decide_True by lia. done.
  - rewrite length_seqZ. lia.
  - intros c Hc. exists SX_NONE, []. rewrite arr_tabulate_lookup, decide_True by done.
    split_and!; [done..|constructor|]. intros n. rewrite !elem_of_nil. tauto.
  - by intros ? ? ?%elem_of_nil.
Qed.

(** ** The abstract state *)

Lemma sx_view_add m m' us n :
  (∀ x, x ∈ us → m' !! x = m !! x) →
  sx_view m' (n :: us) = <[sx_sig m' n := sx_off m' n]> (sx_view m us).
Proof.
  intros Hx. unfold sx_view. simpl. f_equal. f_equal. apply list_fmap_ext. intros i x Hix.
  apply list_elem_of_lookup_2 in Hix. unfold sx_sig, sx_off. by rewrite Hx.
Qed.

Lemma sx_view_delete s us fl s' n fl' :
  sx_inv s us fl → sx_inv s' (filter (λ x, x ≠ n) us) fl' → n ∈ us →
  (∀ x, x ≠ n → sx_sig (sx_sxep s') x = sx_sig (sx_sxep s) x ∧ sx_off (sx_sxep s') x = sx_off (sx_sxep s) x) →
  sx_view (sx_sxep s') (filter (λ x, x ≠ n) us) = delete (sx_sig (sx_sxep s) n) (sx_view (sx_sxep s) us).
Proof.
  intros Hinv Hinv' Hn Hx. apply map_eq. intros sig. apply option_eq. intros off.
  rewrite lookup_delete_Some, (sx_view_lookup _ _ _ Hinv), (sx_view_lookup _ _ _ Hinv').
  split.
  - intros (x & [Hne Hxu]%list_elem_of_filter & <- & <-). destruct (Hx x Hne) as [-> ->].
    split; [|eauto]. intros HE. apply Hne. by apply (xi_distinct _ _ _ Hinv).
  - intros (Hne & x & Hxu & Hs & Ho). exists x.
    assert (x ≠ n) as Hxn by congruence. destruct (Hx x Hxn) as [-> ->].
    split_and!; [|done..]. by apply list_elem_of_filter.
Qed.

(** ** Properties *)

(** A new index, [sx_init()], is empty and well formed. *)
Theorem sx_init_correct nalloc :
  8 ≤ nalloc < 2 ^ 32 →
  ∃ s us fl, sx_init nalloc = Ok s ∧ sx_inv s us fl ∧ sx_view (sx_sxep s) us = ∅ ∧
    Z.of_nat (length fl) = nalloc.
Proof.
  intros Hn. destruct (sx_init_spec nalloc Hn) as (s & Hrun & Hinv & _).
  exists s, [], (seqZ 0 nalloc). split_and!; [done..|]. rewrite length_seqZ. lia.
Qed.

(** [sx_find()] ends without fault and finds exactly the signatures of the
    index; what it returns is the element with the offset of the product. *)
Theorem sx_find_correct s us fl (sig : signaturet) :
  sx_inv s us fl →
  ∃ o, sx_find s sig = Ok o ∧ sx_off (sx_sxep s) <$> o = sx_view (sx_sxep s) us !! sig.
Proof.
  intros Hinv. destruct (sx_find_spec s us fl sig Hinv) as (o & Hrun & Ho). exists o.
  split; [done|]. symmetry. destruct o as [n|]; simpl.
  - apply (sx_view_lookup _ _ _ Hinv). destruct Ho as [Hn Hs]. eauto.
  - by apply (sx_view_None _ _ _ Hinv).
Qed.

(** [sx_add()] of a signature that is not in the index inserts it with its offset
    while an element is free and returns null, changing nothing, when none is. *)
Theorem sx_add_correct s us fl (sig : signaturet) off :
  sx_inv s us fl → sx_view (sx_sxep s) us !! sig = None →
  match fl with
  | [] => sx_add s sig off = Ok (None, s)
  | n :: fl' => ∃ s', sx_add s sig off = Ok (Some n, s') ∧ sx_inv s' (n :: us) fl' ∧
      sx_view (sx_sxep s') (n :: us) = <[sig := off]> (sx_view (sx_sxep s) us)
  end.
Proof.
  intros Hinv Hv. pose proof (proj1 (sx_view_None _ _ _ Hinv sig) Hv) as Hno. destruct fl as [|n fl'].
  - by eapply sx_add_full.
  - destruct (sx_add_spec s us (n :: fl') Hinv sig off n fl' eq_refl Hno)
      as (s' & Hrun & Hinv' & Hs & Ho & Hx & _).
    exists s'. split_and!; [done..|]. rewrite (sx_view_add (sx_sxep s)), Hs, Ho; [done|].
    intros x Hxu. apply Hx. intros ->. pose proof (sx_NoDup _ _ _ Hinv) as Hnd.
    apply NoDup_app in Hnd as (_ & Hd & _). apply (Hd n Hxu). constructor.
Qed.

(** [sx_find_delete()] of a signature in the index deletes it and nothing else and
    frees its element. *)
Theorem sx_find_delete_correct s us fl (sig : signaturet) off :
  sx_inv s us fl → sx_view (sx_sxep s) us !! sig = Some off →
  ∃ s' us' n, sx_find_delete s sig = Ok (true, s') ∧ sx_inv s' us' (n :: fl) ∧
    sx_view (sx_sxep s') us' = delete sig (sx_view (sx_sxep s) us).
Proof.
  intros Hinv Hv. destruct (proj1 (sx_view_lookup _ _ _ Hinv sig off) Hv) as (n & Hn & Hs & _).
  destruct (sx_delete_spec s us fl Hinv sig n Hn Hs) as (s' & Hrun & Hinv' & Hx & _).
  exists s', (filter (λ x, x ≠ n) us), n. split_and!; [done..|].
  rewrite <- Hs. by eapply sx_view_delete.
Qed.

(** [sx_find_delete()] of a signature that is not in the index: with a non-empty
    chain it reports so and changes nothing; with an empty chain it reads the
    element SX_NONE, which is outside of the array. *)
Theorem sx_find_delete_absent s us fl (sig : signaturet) :
  sx_inv s us fl → sx_view (sx_sxep s) us !! sig = None →
  ∃ h, sx_chains s !! sx_hash (sx_nchains s) sig = Some h ∧
    sx_find_delete s sig = if h =? SX_NONE then Err OutOfBounds else Ok (false, s).
Proof.
  intros Hinv Hv. pose proof (proj1 (sx_view_None _ _ _ Hinv sig) Hv) as Hno.
  pose proof (sx_hash_range (sx_nchains s) sig (xi_nchains _ _ _ Hinv)) as Hc.
  destruct (xi_chain _ _ _ Hinv _ Hc) as (h & l & Hh & _). exists h. split; [done|].
  by eapply sx_delete_absent.
Qed.

(** ** Witnesses *)

Definition sx_ex_sig (a : Z) : signaturet := a :: replicate 15 7.

(** An index of sixteen elements with one signature. *)
Definition sx_ex : res sx :=
  let! s := sx_init 16 in let! '(_, s) := sx_add s (sx_ex_sig 1) 4096 in Ok s.

#[local] Opaque sx_ex.

Lemma sx_ex_inv :
  ∃ s, sx_ex = Ok s ∧ sx_inv s [0] (seqZ 1 15) ∧
    sx_view (sx_sxep s) [0] = {[ sx_ex_sig 1 := 4096 ]}.
Proof.
  destruct (sx_init_spec 16 ltac:(lia)) as (s & Hs & Hinv & _).
  destruct (sx_add_spec s [] (seqZ 0 16) Hinv (sx_ex_sig 1) 4096 0 (seqZ 1 15) eq_refl)
    as (s' & Hrun & Hinv' & Hsig & Hoff & _); [by intros ? ?%elem_of_nil|].
  exists s'. with_strategy transparent [sx_ex] unfold sx_ex. rewrite Hs, bind_Ok, Hrun, bind_Ok.
  split_and!; [reflexivity|exact Hinv'|].
  rewrite (sx_view_add (sx_sxep s)), Hsig, Hoff; [done|]. by intros ? ?%elem_of_nil.
Qed.

Lemma sx_init_correct_witness :
  ∃ s us fl, sx_init 16 = Ok s ∧ sx_inv s us fl ∧ sx_view (sx_sxep s) us = ∅ ∧
    Z.of_nat (length fl) = 16.
Proof. apply sx_init_correct. lia. Defined.

Lemma sx_find_correct_witness :
  ∃ s, sx_ex = Ok s ∧ sx_view (sx_sxep s) [0] !! sx_ex_sig 1 = Some 4096 ∧
  ∃ o, sx_find s (sx_ex_sig 1) = Ok o ∧
    sx_off (sx_sxep s) <$> o = sx_view (sx_sxep s) [0] !! sx_ex_sig 1.
Proof.
  destruct sx_ex_inv as (s & Hs & Hinv & Hv). exists s. split; [exact Hs|].
  split; [rewrite Hv; reflexivity|].
  exact (sx_find_correct s [0] (seqZ 1 15) (sx_ex_sig 1) Hinv).
Defined.

Lemma sx_add_correct_witness :
  ∃ s, sx_ex = Ok s ∧
  ∃ s', sx_add s (sx_ex_sig 2) 8192 = Ok (Some 1, s') ∧ sx_inv s' [1; 0] (seqZ 2 14) ∧
    sx_view (sx_sxep s') [1; 0] = <[sx_ex_sig 2 := 8192]> (sx_view (sx_sxep s) [0]).
Proof.
  destruct sx_ex_inv as (s & Hs & Hinv & Hv). exists s. split; [exact Hs|].
  refine (sx_add_correct s [0] (1 :: seqZ 2 14) (sx_ex_sig 2) 8192 Hinv _).
  rewrite Hv. reflexivity.
Defined.

Lemma sx_find_delete_correct_witness :
  ∃ s, sx_ex = Ok s ∧
  ∃ s' us' n, sx_find_delete s (sx_ex_sig 1) = Ok (true, s') ∧ sx_inv s' us' (n :: seqZ 1 15) ∧
    sx_view (sx_sxep s') us' = delete (sx_ex_sig 1) (sx_view (sx_sxep s) [0]).
Proof.
  destruct sx_ex_inv as (s & Hs & Hinv & Hv). exists s. split; [exact Hs|].
  apply (sx_find_delete_correct s [0] (seqZ 1 15) (sx_ex_sig 1) 4096 Hinv).
  rewrite Hv. reflexivity.
Defined.

(** The chain of this signature is empty. *)
Lemma sx_find_delete_absent_witness :
  ∃ s, sx_ex = Ok s ∧ sx_find_delete s (sx_ex_sig 2) = Err OutOfBounds ∧
  ∃ h, sx_chains s !! sx_hash (sx_nchains s) (sx_ex_sig 2) = Some h ∧
    sx_find_delete s (sx_ex_sig 2) = if h =? SX_NONE then Err OutOfBounds else Ok (false, s).
Proof.
  destruct sx_ex_inv as (s & Hs & Hinv & Hv). exists s. split; [exact Hs|]. split.
  - assert ((let! s := sx_ex in sx_find_delete s (sx_ex_sig 2)) = Err OutOfBounds) as H
      by (vm_compute; reflexivity).
    rewrite Hs, bind_Ok in H. exact H.
  - apply (sx_find_delete_absent s [0] (seqZ 1 15) (sx_ex_sig 2) Hinv). rewrite Hv. reflexivity.
Defined.
