(* ===== verification/Riul.v ===== *)
(** * The regions in use by a process (bsrch, "riu" and "riul" of src/pq/pq.c)

    Every process keeps a private array of the regions it has mapped or locked,
    sorted by offset and searched by bisection.  The abstract state is a map
    from offsets to regions. *)

From S2P Require Import Prelude Fb.

(** ** [bsrch()]

    [compar i] compares the key with element [i].  The pointers of the code are
    indexes into the array; [p] and [cmp] are the last element compared and the
    outcome. *)

Fixpoint bsrch_loop (fuel : nat) (compar : Z → res comparison) (base lim p : Z) (cmp : comparison) :
    res (bool * Z) :=
  match fuel with
  | O => Err OutOfFuel
  | S fuel =>
      if lim =? 0 then Ok (false, match cmp with Gt => p + 1 | _ => p end)
      else
        let p := base + lim / 2 in
        let! cmp := compar p in
        match cmp with
        | Eq => Ok (true, p)
        | Gt => bsrch_loop fuel compar (p + 1) ((lim - 1) / 2) p Gt
        | Lt => bsrch_loop fuel compar base (lim / 2) p Lt
        end
  end.

Definition bsrch (compar : Z → res comparison) (nmemb : Z) : res (bool * Z) :=
  bsrch_loop (S (Z.to_nat nmemb)) compar 0 nmemb 0 Eq.

(** ** The list *)

Record riu := Riu { ru_offset : Z; ru_extent : Z; ru_vp : Z; ru_rflags : Z }.

Record riul := Riul {
  rul_sz : Z;
  rul_nalloc : Z;
  rul_nelems : Z;
  rul_maxelems : Z;
  rul_rp : list riu;                  (* nalloc long *)
}.

Definition sizeof_size_t : Z := 8.
Definition sizeof_riu : Z := 32.
Definition MIN_RIUL_SZ : Z := 3 * sizeof_size_t.
Definition riu_none : riu := Riu OFF_NONE 0 0 0.

Definition rdl (l : list riu) (i : Z) : res riu :=
  if i <? 0 then Err OutOfBounds
  else match l !! Z.to_nat i with Some r => Ok r | None => Err OutOfBounds end.

Definition wrl (l : list riu) (i : Z) (r : riu) : res (list riu) :=
  if i <? 0 then Err OutOfBounds
  else match l !! Z.to_nat i with
       | Some _ => Ok (<[Z.to_nat i := r]> l)
       | None => Err OutOfBounds
       end.

(** [memmove(l + dst, l + src, n * sizeof(riu))] *)
Definition memmove (l : list riu) (dst src n : nat) : res (list riu) :=
  if ((dst + n <=? length l) && (src + n <=? length l))%nat
  then Ok (take dst l ++ take n (drop src l) ++ drop (dst + n) l)
  else Err OutOfBounds.

Definition riul_nalloc (sz : Z) : res Z :=
  assert! MIN_RIUL_SZ <? sz in
  Ok (u64 (sz - 4 * sizeof_size_t) / sizeof_riu).

(** The slots from [nelems] on are reset; [rp] are the contents before. *)
Definition riul_init (rl : riul) (nelems sz : Z) : res riul :=
  let! nalloc := riul_nalloc sz in
  assert! negb (sz =? 0) in
  assert! (nelems =? 0) || (rul_nelems rl =? nelems) in
  assert! (nelems =? 0) || (rul_nalloc rl <? nalloc) in
  Ok (Riul sz nalloc nelems (if nelems =? 0 then 0 else rul_maxelems rl)
        (take (Z.to_nat nelems) (rul_rp rl) ++ replicate (Z.to_nat (nalloc - nelems)) riu_none)).

Definition riul_HasSpace (rl : riul) : res bool :=
  assert! rul_nelems rl <=? rul_nalloc rl in
  Ok (rul_nelems rl <? rul_nalloc rl).

Definition riul_r_compare (offset : Z) (r : riu) : comparison :=
  let diff := offset - ru_offset r in
  if diff <? 0 then Lt else if diff =? 0 then Eq else Gt.

Definition riul_r_find (rl : riul) (offset : Z) : res (bool * Z) :=
  let! '(status, rp) :=
    bsrch (λ i, let! r := rdl (rul_rp rl) i in Ok (riul_r_compare offset r)) (rul_nelems rl) in
  if status then
    let! r := rdl (rul_rp rl) rp in
    assert! negb (ru_vp r =? 0) in Ok (true, rp)
  else Ok (false, rp).

Definition riul_find (rl : riul) (offset : Z) : res (option Z) :=
  let! '(status, rp) := riul_r_find rl offset in
  Ok (if status then Some rp else None).

(** [mem] is the outcome of [realloc()]: [None] if it succeeds, otherwise the value
    of [errno].  The outcome is the status, the list and the index of the new
    element. *)
Definition riul_add (rl : riul) (growby offset extent vp rflags : Z) (mem : option Z) :
    res (Z * riul * option Z) :=
  let! space := riul_HasSpace rl in
  let! grown :=
    if space then Ok (inl rl)
    else match mem with
         | Some errno => Ok (inr errno)
         | None => let! rl := riul_init rl (rul_nelems rl) (u64 (rul_sz rl + growby)) in Ok (inl rl)
         end in
  match grown with
  | inr errno => Ok (errno, rl, None)
  | inl rl =>
      let! '(found, rp) := riul_r_find rl offset in
      assert! negb found in
      let! l :=
        if rp <? rul_nelems rl
        then memmove (rul_rp rl) (Z.to_nat (rp + 1)) (Z.to_nat rp) (Z.to_nat (rul_nelems rl - rp))
        else Ok (rul_rp rl) in
      let! l := wrl l rp (Riu offset extent vp rflags) in
      let n := u64 (rul_nelems rl + 1) in
      Ok (0, Riul (rul_sz rl) (rul_nalloc rl) n
               (if rul_maxelems rl <? n then n else rul_maxelems rl) l, Some rp)
  end.

Definition riul_delete (rl : riul) (rp : Z) : res riul :=
  assert! (0 <=? rp) && (rp <? rul_nelems rl) in
  let! l :=
    if rp + 1 <? rul_nelems rl
    then memmove (rul_rp rl) (Z.to_nat rp) (Z.to_nat (rp + 1)) (Z.to_nat (rul_nelems rl - (rp + 1)))
    else Ok (rul_rp rl) in
  let! l := wrl l (rul_nelems rl - 1) riu_none in
  Ok (Riul (rul_sz rl) (rul_nalloc rl) (u64 (rul_nelems rl - 1)) (rul_maxelems rl) l).

(** ** Bisection *)

Section bsrch.
Context (compar : Z → res comparison) (nmemb : Z).

(** [key i] is how the key compares with element [i].  Those before it come first,
    and at most one, the next, equals it. *)
Context (key : Z → comparison) (Hcmp : ∀ i, 0 ≤ i < nmemb → compar i = Ok (key i)).
Context (Hmono : ∀ i j, 0 ≤ i < j → j < nmemb → key j ≠ Lt → key i = Gt).

Lemma bsrch_loop_spec fuel base lim p cmp :
  0 ≤ base → 0 ≤ lim → base + lim ≤ nmemb → (Z.to_nat lim < fuel)%nat →
  (∀ i, 0 ≤ i < base → key i = Gt) → (∀ i, base + lim ≤ i < nmemb → key i = Lt) →
  (lim = 0 → base = match cmp with Gt => p + 1 | _ => p end) →
  ∃ found q, bsrch_loop fuel compar base lim p cmp = Ok (found, q) ∧ 0 ≤ q ≤ nmemb ∧
    (∀ i, 0 ≤ i < q → key i = Gt) ∧
    if found then q < nmemb ∧ key q = Eq else ∀ i, q ≤ i < nmemb → key i = Lt.
Proof.
  revert base lim p cmp. induction fuel as [|fuel IH]; [lia|]. intros base lim p cmp Hb Hl Hn Hf Hlo Hhi Hp.
  cbn [bsrch_loop]. destruct (Z.eqb_spec lim 0) as [->|Hne].
  - exists false, base. rewrite <- Hp by done. split_and!; [done|lia|lia|done|].
    intros i Hi. apply Hhi. lia.
  - assert (0 ≤ lim / 2 < lim) as Hd by div_lia.
    rewrite Hcmp, bind_Ok by lia. destruct (key (base + lim / 2)) eqn:Hk.
    + exists true, (base + lim / 2). split_and!; [done|lia|lia| |lia|done].
      intros i Hi. apply (Hmono i (base + lim / 2)); [lia..|congruence].
    + apply IH; [lia..|div_lia|done| |].
      * intros i Hi. destruct (key i) eqn:Hki; [| done |]; exfalso.
        { destruct (decide (i = base + lim / 2)) as [->|]; [congruence|].
          rewrite (Hmono (base + lim / 2) i) in Hk; [done|lia..|congruence]. }
        { destruct (decide (i = base + lim / 2)) as [->|]; [congruence|].
          rewrite (Hmono (base + lim / 2) i) in Hk; [done|lia..|congruence]. }
      * intros. lia.
    + apply IH; [lia|div_lia|div_lia|div_lia| | |done].
      * intros i Hi. destruct (decide (i = base + lim / 2)) as [->|]; [done|].
        apply (Hmono i (base + lim / 2)); [lia..|congruence].
      * intros i Hi. apply Hhi. assert (base + lim / 2 + 1 + (lim - 1) / 2 = base + lim) by div_lia. lia.
Qed.

Lemma bsrch_spec :
  0 ≤ nmemb →
  ∃ found q, bsrch compar nmemb = Ok (found, q) ∧ 0 ≤ q ≤ nmemb ∧ (∀ i, 0 ≤ i < q → key i = Gt) ∧
    if found then q < nmemb ∧ key q = Eq else ∀ i, q ≤ i < nmemb → key i = Lt.
Proof. intros Hn. apply bsrch_loop_spec; [lia..|done]. Qed.
End bsrch.

(** ** The invariant *)

Definition riu_lt (a b : riu) : Prop := ru_offset a < ru_offset b.

(** [rs] are the regions in use. *)
Record riul_inv (rl : riul) (rs : list riu) : Prop := {
  ui_rp : ∃ k, rul_rp rl = rs ++ replicate k riu_none;
  ui_nelems : rul_nelems rl = Z.of_nat (length rs);
  ui_nalloc : rul_nalloc rl = Z.of_nat (length (rul_rp rl));
  ui_sz : 32 ≤ rul_sz rl < 2 ^ 62 ∧ rul_nalloc rl = (rul_sz rl - 32) / 32;
  ui_sorted : StronglySorted riu_lt rs;
  ui_vp r : r ∈ rs → ru_vp r ≠ 0;
}.

Definition riul_view (rs : list riu) : gmap Z riu :=
  list_to_map ((λ r, (ru_offset r, r)) <$> rs).

Lemma riu_sorted_lookup rs i j a b :
  StronglySorted riu_lt rs → (i < j)%nat → rs !! i = Some a → rs !! j = Some b → riu_lt a b.
Proof.
  intros Hs. revert i j. induction Hs as [|r rs Hs IH Hf]; intros i j Hij Hi Hj; [done|].
  destruct j as [|j]; [lia|]. destruct i as [|i].
  - simpl in *. injection Hi as <-. rewrite Forall_forall in Hf. apply Hf. by eapply list_elem_of_lookup_2.
  - apply (IH i j); [lia|done..].
Qed.

Lemma riu_sorted_NoDup rs : StronglySorted riu_lt rs → NoDup (ru_offset <$> rs).
Proof.
  induction 1 as [|r rs Hs IH Hf]; csimpl; [constructor|]. apply NoDup_cons. split; [|done].
  intros (x & Ho & Hx)%list_elem_of_fmap. rewrite Forall_forall in Hf. specialize (Hf x Hx).
  unfold riu_lt in Hf. lia.
Qed.

Lemma riul_view_lookup rs o r :
  StronglySorted riu_lt rs → riul_view rs !! o = Some r ↔ r ∈ rs ∧ ru_offset r = o.
Proof.
  intros Hs. unfold riul_view. rewrite <- elem_of_list_to_map.
  - rewrite list_elem_of_fmap. split; [by intros (x & [= -> ->] & ?)|]. intros [Hr <-]. eauto.
  - rewrite <- list_fmap_compose. by apply riu_sorted_NoDup.
Qed.

Lemma riul_view_None rs o :
  StronglySorted riu_lt rs → (∀ r, r ∈ rs → ru_offset r ≠ o) → riul_view rs !! o = None.
Proof.
  intros Hs Hno. apply eq_None_not_Some. intros [r [Hr Ho]%(riul_view_lookup _ _ _ Hs)].
  by apply (Hno r).
Qed.

Lemma riul_r_compare_spec o r :
  match riul_r_compare o r with
  | Lt => o < ru_offset r | Eq => ru_offset r = o | Gt => ru_offset r < o
  end.
Proof.
  unfold riul_r_compare. destruct (Z.ltb_spec (o - ru_offset r) 0); [lia|].
  destruct (Z.eqb_spec (o - ru_offset r) 0); lia.
Qed.

Lemma rdl_app (l k : list riu) i r : l !! i = Some r → rdl (l ++ k) (Z.of_nat i) = Ok r.
Proof.
  intros Hi. unfold rdl. rewrite (proj2 (Z.ltb_ge _ _)), Nat2Z.id by lia.
  by rewrite (lookup_app_l_Some _ _ _ _ Hi).
Qed.

Section list.
Context (rl : riul) (rs : list riu) (Hinv : riul_inv rl rs).

(** The search: [A] are the regions before the offset. *)
Lemma riul_r_find_spec offset :
  ∃ found A B, riul_r_find rl offset = Ok (found, Z.of_nat (length A)) ∧ rs = A ++ B ∧
    (∀ r, r ∈ A → ru_offset r < offset) ∧
    if found then ∃ r B', B = r :: B' ∧ ru_offset r = offset
    else ∀ r, r ∈ B → offset < ru_offset r.
Proof.
  destruct (ui_rp _ _ Hinv) as [k Hrp].
  set (key i := match rs !! Z.to_nat i with Some r => riul_r_compare offset r | None => Lt end).
  assert (∀ i r, rs !! Z.to_nat i = Some r → key i = riul_r_compare offset r) as Hkey.
  { intros i r Hi. unfold key. by rewrite Hi. }
  destruct (bsrch_spec (λ i, let! r := rdl (rul_rp rl) i in Ok (riul_r_compare offset r))
    (rul_nelems rl) key) as (found & q & Hrun & Hq & Hlo & Hhi).
  - intros i Hi. rewrite (ui_nelems _ _ Hinv) in Hi.
    destruct (lookup_lt_is_Some_2 rs (Z.to_nat i)) as [r Hr]; [lia|].
    rewrite Hrp. rewrite <- (Z2Nat.id i) by lia. rewrite (rdl_app _ _ _ _ Hr), bind_Ok.
    by rewrite (Hkey _ r) by by rewrite Nat2Z.id.
  - intros i j Hij Hj Hne. rewrite (ui_nelems _ _ Hinv) in Hj.
    destruct (lookup_lt_is_Some_2 rs (Z.to_nat i)) as [a Ha]; [lia|].
    destruct (lookup_lt_is_Some_2 rs (Z.to_nat j)) as [b Hb]; [lia|].
    pose proof (riu_sorted_lookup rs (Z.to_nat i) (Z.to_nat j) a b (ui_sorted _ _ Hinv) ltac:(lia) Ha Hb) as Hlt.
    rewrite (Hkey _ _ Ha). rewrite (Hkey _ _ Hb) in Hne. unfold riul_r_compare, riu_lt in *.
    destruct (Z.ltb_spec (offset - ru_offset b) 0); [done|].
    destruct (Z.ltb_spec (offset - ru_offset a) 0); [lia|].
    destruct (Z.eqb_spec (offset - ru_offset a) 0); [lia|done].
  - rewrite (ui_nelems _ _ Hinv). lia.
  - rewrite (ui_nelems _ _ Hinv) in Hq, Hhi.
    exists found, (take (Z.to_nat q) rs), (drop (Z.to_nat q) rs).
    rewrite length_take, take_drop. split_and!; [|done| |].
    + unfold riul_r_find. rewrite Hrun, bind_Ok. destruct found.
      * destruct Hhi as [Hq2 Hk]. destruct (lookup_lt_is_Some_2 rs (Z.to_nat q)) as [r Hr]; [lia|].
        rewrite Hrp. rewrite <- (Z2Nat.id q) at 1 by lia. rewrite (rdl_app _ _ _ _ Hr), bind_Ok, assert_Ok.
        { rewrite bind_Ok. do 2 f_equal. lia. }
        apply negb_true_iff, Z.eqb_neq. apply (ui_vp _ _ Hinv). by eapply list_elem_of_lookup_2.
      * do 2 f_equal. lia.
    + intros r (i & Hr & Hi)%elem_of_take. specialize (Hlo (Z.of_nat i) ltac:(lia)).
      rewrite (Hkey _ r) in Hlo by by rewrite Nat2Z.id.
      pose proof (riul_r_compare_spec offset r) as Hc. by rewrite Hlo in Hc.
    + destruct found.
      * destruct Hhi as [Hq2 Hk]. destruct (lookup_lt_is_Some_2 rs (Z.to_nat q)) as [r Hr]; [lia|].
        exists r, (drop (S (Z.to_nat q)) rs). split; [by apply drop_S|].
        rewrite (Hkey _ _ Hr) in Hk. pose proof (riul_r_compare_spec offset r) as Hc. by rewrite Hk in Hc.
      * intros r [j Hr]%list_elem_of_lookup. rewrite lookup_drop in Hr.
        apply lookup_lt_Some in Hr as Hlen.
        specialize (Hhi (Z.of_nat (Z.to_nat q + j)) ltac:(lia)). rewrite (Hkey _ r) in Hhi by by rewrite Nat2Z.id.
        pose proof (riul_r_compare_spec offset r) as Hc. by rewrite Hhi in Hc.
Qed.
End list.

(** ** Insertion and deletion *)

Lemma riu_sorted_insert A B r :
  StronglySorted riu_lt (A ++ B) → (∀ x, x ∈ A → ru_offset x < ru_offset r) →
  (∀ x, x ∈ B → ru_offset r < ru_offset x) → StronglySorted riu_lt (A ++ r :: B).
Proof.
  induction A as [|a A IH]; intros Hs HA HB; simpl in *.
  - constructor; [done|]. apply Forall_forall. intros x Hx. by apply HB.
  - apply StronglySorted_inv in Hs as [Hs Hf]. constructor.
    + apply IH; [done| |done]. intros x Hx. apply HA. by right.
    + rewrite Forall_forall in *. intros x Hx. rewrite elem_of_app, elem_of_cons in Hx.
      destruct Hx as [Hx|[->|Hx]].
      * apply Hf. set_solver.
      * apply HA. constructor.
      * apply Hf. set_solver.
Qed.

Lemma sorted_remove A B r : StronglySorted riu_lt (A ++ r :: B) → StronglySorted riu_lt (A ++ B).
Proof.
  induction A as [|a A IH]; simpl; intros [Hs Hf]%StronglySorted_inv; [done|].
  constructor; [by apply IH|]. rewrite Forall_forall in *. intros x Hx. apply Hf. set_solver.
Qed.

(** Shifting the tail to the right, into a free slot, and writing. *)
Lemma memmove_right A B x k r :
  (let! l := if Z.of_nat (length A) <? Z.of_nat (length (A ++ B))
     then memmove ((A ++ B) ++ x :: k) (Z.to_nat (Z.of_nat (length A) + 1)) (Z.to_nat (Z.of_nat (length A)))
            (Z.to_nat (Z.of_nat (length (A ++ B)) - Z.of_nat (length A)))
     else Ok ((A ++ B) ++ x :: k) in wrl l (Z.of_nat (length A)) r) = Ok ((A ++ r :: B) ++ k).
Proof.
  assert (∀ y l, wrl (A ++ y :: l) (Z.of_nat (length A)) r = Ok (A ++ r :: l)) as Hw.
  { intros y l. unfold wrl. rewrite (proj2 (Z.ltb_ge _ _)), Nat2Z.id by lia.
    rewrite lookup_app_r, Nat.sub_diag by lia. simpl. rewrite insert_app_r_alt by lia.
    by rewrite Nat.sub_diag. }
  rewrite length_app. destruct B as [|b B].
  - rewrite (proj2 (Z.ltb_ge _ _)) by (simpl; lia). rewrite bind_Ok, app_nil_r, Hw.
    by rewrite <- app_assoc.
  - rewrite (proj2 (Z.ltb_lt _ _)) by (simpl; lia).
    replace (Z.to_nat (Z.of_nat (length A) + 1)) with (S (length A)) by lia. rewrite Nat2Z.id.
    replace (Z.to_nat (Z.of_nat (length A + length (b :: B)) - Z.of_nat (length A)))
      with (length (b :: B)) by lia.
    unfold memmove. rewrite (proj2 (andb_true_iff _ _)), bind_Ok.
    2: { rewrite !Nat.leb_le, !length_app. simpl. lia. }
    rewrite <- app_assoc. rewrite drop_app_length, take_app_length.
    replace (take (S (length A)) (A ++ (b :: B) ++ x :: k)) with (A ++ [b]).
    2: { rewrite take_app_ge by lia. replace (S (length A) - length A)%nat with 1%nat by lia. done. }
    replace (drop (S (length A) + length (b :: B)) (A ++ (b :: B) ++ x :: k)) with k.
    2: { rewrite drop_app_ge by lia. replace (S (length A) + length (b :: B) - length A)%nat
           with (S (length (b :: B))) by lia.
         rewrite drop_app_ge by lia. by replace (S (length (b :: B)) - length (b :: B))%nat with 1%nat by lia. }
    rewrite <- (app_assoc A [b]). simpl. rewrite Hw. by rewrite <- app_assoc.
Qed.

(** Shifting the tail to the left and clearing the last slot. *)
Lemma memmove_left A r B k :
  let n := Z.of_nat (length (A ++ r :: B)) in
  (let! l := if Z.of_nat (length A) + 1 <? n
     then memmove ((A ++ r :: B) ++ k) (Z.to_nat (Z.of_nat (length A))) (Z.to_nat (Z.of_nat (length A) + 1))
            (Z.to_nat (n - (Z.of_nat (length A) + 1)))
     else Ok ((A ++ r :: B) ++ k) in wrl l (n - 1) riu_none) = Ok ((A ++ B) ++ riu_none :: k).
Proof.
  intros n. assert (∀ y l, wrl ((A ++ B) ++ y :: l) (n - 1) riu_none = Ok ((A ++ B) ++ riu_none :: l)) as Hw.
  { intros y l. unfold wrl, n. rewrite !length_app. simpl. rewrite (proj2 (Z.ltb_ge _ _)) by lia.
    replace (Z.to_nat (Z.of_nat (length A + S (length B)) - 1)) with (length (A ++ B))
      by (rewrite length_app; lia).
    rewrite lookup_app_r, Nat.sub_diag by lia. simpl. rewrite insert_app_r_alt by lia.
    by rewrite Nat.sub_diag. }
  unfold n at 1 2. rewrite length_app. destruct B as [|b B].
  - rewrite (proj2 (Z.ltb_ge _ _)) by (simpl; lia). rewrite bind_Ok. rewrite app_nil_r in *.
    specialize (Hw r k). by rewrite <- app_assoc.
  - rewrite (proj2 (Z.ltb_lt _ _)) by (simpl; lia). rewrite Nat2Z.id.
    replace (Z.to_nat (Z.of_nat (length A) + 1)) with (S (length A)) by lia.
    replace (Z.to_nat (Z.of_nat (length A + length (r :: b :: B)) - (Z.of_nat (length A) + 1)))
      with (length (b :: B)) by (simpl; lia).
    unfold memmove. rewrite (proj2 (andb_true_iff _ _)), bind_Ok.
    2: { rewrite !Nat.leb_le, !length_app. simpl. lia. }
    rewrite <- app_assoc. rewrite take_app_length.
    replace (drop (S (length A)) (A ++ (r :: b :: B) ++ k)) with ((b :: B) ++ k).
    2: { rewrite drop_app_ge by lia. by replace (S (length A) - length A)%nat with 1%nat by lia. }
    rewrite take_app_length.
    assert (∃ y, drop (length A + length (b :: B)) (A ++ (r :: b :: B) ++ k) = y :: k) as [y ->].
    { rewrite drop_app_ge by lia. replace (length A + length (b :: B) - length A)%nat
        with (S (length B)) by (simpl; lia). simpl.
      destruct (last (b :: B)) as [y|] eqn:Hl; [|by apply last_None in Hl].
      apply last_Some in Hl as [B' HB]. exists y.
      assert (length B = length B') as Hlen.
      { apply (f_equal length) in HB. rewrite length_app in HB. simpl in HB. lia. }
      change (b :: B ++ k) with ((b :: B) ++ k). rewrite HB, Hlen, <- app_assoc.
      by rewrite drop_app_length. }
    rewrite (assoc_L (++)). by rewrite Hw.
Qed.

Section ops.
Context (rl : riul) (rs : list riu) (Hinv : riul_inv rl rs).

(** Growing the array: afterwards there is a free slot. *)
Lemma riul_grow_spec growby :
  rul_nelems rl = rul_nalloc rl → 32 ≤ growby → rul_sz rl + growby < 2 ^ 62 →
  ∃ rl', riul_init rl (rul_nelems rl) (u64 (rul_sz rl + growby)) = Ok rl' ∧ riul_inv rl' rs ∧
    rul_nelems rl' < rul_nalloc rl'.
Proof using Hinv.
  intros Hfull Hg Hsz. pose proof Hinv as [[k Hrp] Hnl Hna [Hs1 Hs2] Hsort Hvp].
  rewrite u64_small by lia. unfold riul_init, riul_nalloc, MIN_RIUL_SZ, sizeof_size_t, sizeof_riu.
  rewrite assert_Ok, !bind_Ok by (apply Z.ltb_lt; lia).
  rewrite u64_small by lia. set (na := (rul_sz rl + growby - 4 * 8) / 32).
  assert (rul_nalloc rl < na) as Hlt by (unfold na; div_lia).
  rewrite assert_Ok, bind_Ok by (apply negb_true_iff, Z.eqb_neq; lia).
  rewrite Z.eqb_refl, orb_true_r, assert_Ok, bind_Ok by done.
  rewrite assert_Ok, bind_Ok by (apply orb_true_iff; right; by apply Z.ltb_lt).
  eexists. split; [done|]. split; [|simpl; lia].
  assert (take (Z.to_nat (rul_nelems rl)) (rul_rp rl) = rs) as Htk.
  { rewrite Hrp, Hnl, Nat2Z.id. apply take_app_length. }
  split; simpl; rewrite ?Htk; try done.
  - eauto.
  - rewrite length_app, length_replicate. lia.
  - unfold na. split; [lia|]. f_equal; lia.
Qed.

(** Adding a region when there is a free slot. *)
Lemma riul_insert_spec offset extent vp rflags growby mem :
  rul_nelems rl < rul_nalloc rl → vp ≠ 0 → (∀ r, r ∈ rs → ru_offset r ≠ offset) →
  ∃ rl' A B, riul_add rl growby offset extent vp rflags mem =
      Ok (0, rl', Some (Z.of_nat (length A))) ∧
    rs = A ++ B ∧ riul_inv rl' (A ++ Riu offset extent vp rflags :: B).
Proof using Hinv.
  intros Hroom Hv Hnew. pose proof Hinv as [[k Hrp] Hnl Hna [Hs1 Hs2] Hsort Hvp].
  unfold riul_add, riul_HasSpace. rewrite assert_Ok, !bind_Ok by lia.
  rewrite (proj2 (Z.ltb_lt _ _)) by done. rewrite bind_Ok.
  destruct (riul_r_find_spec rl rs Hinv offset) as (found & A & B & -> & HAB & HA & HB).
  rewrite bind_Ok. destruct found.
  { destruct HB as (r & B' & -> & Ho). exfalso. apply (Hnew r); [rewrite HAB; set_solver|done]. }
  rewrite assert_Ok, bind_Ok by done.
  destruct k as [|k]; [rewrite app_nil_r in Hrp; rewrite Hrp in Hna; lia|].
  simpl in Hrp. rewrite Hrp, Hnl, HAB.
  pose proof (memmove_right A B riu_none (replicate k riu_none) (Riu offset extent vp rflags)) as Hmove.
  apply bind_inv in Hmove as (l & -> & Hw). rewrite bind_Ok, Hw, bind_Ok.
  assert (Z.of_nat (length (A ++ B)) < 2 ^ 62) as Hsmall by (rewrite <- HAB; div_lia).
  eexists _, A, B. split; [done|]. split; [done|]. split; simpl.
  - eauto.
  - rewrite u64_small, !length_app by lia. simpl. lia.
  - rewrite Hna, Hrp, HAB, !length_app. simpl. lia.
  - done.
  - apply riu_sorted_insert; [by rewrite <- HAB|done|done].
  - intros r Hr. rewrite elem_of_app, elem_of_cons in Hr. destruct Hr as [Hr|[->|Hr]]; [|done|].
    + apply Hvp. rewrite HAB. set_solver.
    + apply Hvp. rewrite HAB. set_solver.
Qed.

Lemma riul_delete_spec A r B :
  rs = A ++ r :: B →
  ∃ rl', riul_delete rl (Z.of_nat (length A)) = Ok rl' ∧ riul_inv rl' (A ++ B).
Proof using Hinv.
  intros Hrs. pose proof Hinv as [[k Hrp] Hnl Hna [Hs1 Hs2] Hsort Hvp].
  assert (Z.of_nat (length rs) = Z.of_nat (length A) + Z.of_nat (length B) + 1) as Hlen
    by (rewrite Hrs, length_app; simpl; lia).
  unfold riul_delete. rewrite assert_Ok, bind_Ok by lia.
  rewrite Hrp, Hnl. pose proof (memmove_left A r B (replicate k riu_none)) as Hmove.
  cbn zeta in Hmove. rewrite <- Hrs in Hmove. apply bind_inv in Hmove as (l & -> & Hw).
  rewrite bind_Ok, Hw, bind_Ok. eexists. split; [done|]. split; simpl.
  - exists (S k). done.
  - rewrite length_app, u64_small; [lia|].
    assert (Z.of_nat (length rs) ≤ rul_nalloc rl) by (rewrite Hna, Hrp, length_app; lia).
    div_lia.
  - rewrite Hna, Hrp, Hrs, !length_app. simpl. lia.
  - done.
  - eapply sorted_remove. by rewrite <- Hrs.
  - intros x Hx. apply Hvp. rewrite Hrs. set_solver.
Qed.
End ops.

(** ** Properties *)

(** [riul_find()] returns the index of the region in use at the offset, or null
    exactly if there is none; the bisection ends and stays in the array. *)
Theorem riul_find_correct rl rs offset :
  riul_inv rl rs →
  ∃ o, riul_find rl offset = Ok o ∧
    match o with Some i => rs !! Z.to_nat i | None => None end = riul_view rs !! offset.
Proof.
  intros Hinv. destruct (riul_r_find_spec rl rs Hinv offset) as (found & A & B & Hrun & HAB & HA & HB).
  pose proof (ui_sorted _ _ Hinv) as Hs. unfold riul_find. rewrite Hrun, bind_Ok.
  eexists. split; [done|]. symmetry. destruct found.
  - destruct HB as (r & B' & -> & Ho). rewrite Nat2Z.id, HAB, lookup_app_r, Nat.sub_diag by lia.
    rewrite <- HAB. apply riul_view_lookup; [done|]. split; [rewrite HAB; set_solver|done].
  - apply riul_view_None; [done|]. intros r Hr Ho. rewrite HAB in Hr.
    apply elem_of_app in Hr as [Hr|Hr]; [specialize (HA r Hr)|specialize (HB r Hr)]; lia.
Qed.

(** [riul_add()] of a region at a new offset keeps the array sorted and inserts the
    region, growing a full array first; when memory for that is refused, the
    error is returned and nothing changes. *)
Theorem riul_add_correct rl rs growby offset extent vp rflags mem :
  riul_inv rl rs → 32 ≤ growby → rul_sz rl + growby < 2 ^ 62 → vp ≠ 0 →
  riul_view rs !! offset = None →
  (∃ rl' ix rs', riul_add rl growby offset extent vp rflags mem = Ok (0, rl', Some ix) ∧
     riul_inv rl' rs' ∧ rs' !! Z.to_nat ix = Some (Riu offset extent vp rflags) ∧
     riul_view rs' = <[offset := Riu offset extent vp rflags]> (riul_view rs)) ∨
  (∃ errno, mem = Some errno ∧ rul_nelems rl = rul_nalloc rl ∧
     riul_add rl growby offset extent vp rflags mem = Ok (errno, rl, None)).
Proof.
  intros Hinv Hg Hsz Hv Hno. pose proof (ui_sorted _ _ Hinv) as Hs.
  assert (∀ r, r ∈ rs → ru_offset r ≠ offset) as Hnew.
  { intros r Hr Ho. by rewrite (proj2 (riul_view_lookup rs offset r Hs)) in Hno. }
  assert (∀ rl', riul_inv rl' rs → rul_nelems rl' < rul_nalloc rl' →
    ∃ rl2 ix rs', riul_add rl' growby offset extent vp rflags mem = Ok (0, rl2, Some ix) ∧
     riul_inv rl2 rs' ∧ rs' !! Z.to_nat ix = Some (Riu offset extent vp rflags) ∧
     riul_view rs' = <[offset := Riu offset extent vp rflags]> (riul_view rs)) as Hins.
  { intros rl' Hinv' Hroom.
    destruct (riul_insert_spec rl' rs Hinv' offset extent vp rflags growby mem Hroom Hv Hnew)
      as (rl2 & A & B & Hrun & HAB & Hinv2). eexists rl2, _, _. split; [done|]. split; [done|].
    rewrite Nat2Z.id, lookup_app_r, Nat.sub_diag by lia. split; [done|].
    apply map_eq. intros o. apply option_eq. intros r.
    rewrite riul_view_lookup, lookup_insert_Some, riul_view_lookup, HAB by (done || apply Hinv2).
    rewrite HAB in Hnew. set_solver. }
  destruct (Z.ltb_spec (rul_nelems rl) (rul_nalloc rl)) as [Hroom|Hfull]; [left; by apply Hins|].
  assert (rul_nelems rl = rul_nalloc rl) as Heq.
  { destruct Hinv as [[k Hrp] Hnl Hna _ _ _]. rewrite Hrp, length_app in Hna. lia. }
  destruct mem as [errno|]; [right|left].
  - exists errno. split_and!; [done..|]. unfold riul_add, riul_HasSpace.
    rewrite assert_Ok, !bind_Ok by lia. rewrite (proj2 (Z.ltb_ge _ _)) by lia. done.
  - destruct (riul_grow_spec rl rs Hinv growby Heq Hg Hsz) as (rl1 & Hgrow & Hinv1 & Hroom).
    destruct (Hins rl1 Hinv1 Hroom) as (rl2 & ix & rs' & Hrun & ?).
    exists rl2, ix, rs'. split; [|done]. rewrite <- Hrun. unfold riul_add, riul_HasSpace.
    rewrite !assert_Ok, !bind_Ok by lia.
    rewrite (proj2 (Z.ltb_ge (rul_nelems rl) _)), Hgrow, !bind_Ok by lia.
    rewrite (proj2 (Z.ltb_lt (rul_nelems rl1) (rul_nalloc rl1))) by done. done.
Qed.

(** [riul_delete()] of an element deletes its region and keeps the rest sorted. *)
Theorem riul_delete_correct rl rs i r :
  riul_inv rl rs → rs !! i = Some r →
  ∃ rl' rs', riul_delete rl (Z.of_nat i) = Ok rl' ∧ riul_inv rl' rs' ∧
    riul_view rs' = delete (ru_offset r) (riul_view rs) ∧ length rs = S (length rs').
Proof.
  intros Hinv Hi. pose proof (ui_sorted _ _ Hinv) as Hs.
  apply list_elem_of_split_length in Hi as (A & B & HAB & ->).
  destruct (riul_delete_spec rl rs Hinv A r B HAB) as (rl' & Hrun & Hinv').
  exists rl', (A ++ B). split_and!; [done..| |rewrite HAB, !length_app; simpl; lia].
  apply map_eq. intros o. apply option_eq. intros x.
  rewrite lookup_delete_Some, !riul_view_lookup by (done || apply Hinv').
  pose proof (riu_sorted_NoDup _ Hs) as Hnd. rewrite HAB in Hnd |- *.
  rewrite fmap_app in Hnd. csimpl in *. apply NoDup_app in Hnd as (_ & Hd & [HrB _]%NoDup_cons).
  rewrite !elem_of_app, elem_of_cons. split.
  - intros [Hx <-]. split; [|tauto]. intros Ho. destruct Hx as [Hx|Hx].
    + apply (Hd (ru_offset x)); [apply list_elem_of_fmap; eauto|]. rewrite <- Ho. constructor.
    + apply HrB. rewrite Ho. apply list_elem_of_fmap. eauto.
  - intros (Hne & Hx & <-). split; [|done]. destruct Hx as [?|[->|?]]; [by left|done|by right].
Qed.

(** ** Witnesses *)

(** A list of two slots with one region. *)
Definition riul_ex : riul := Riul 96 2 1 1 [Riu 4096 512 7 1; riu_none].

Lemma riul_ex_inv : riul_inv riul_ex [Riu 4096 512 7 1].
Proof.
  split; simpl; try done.
  - by exists 1%nat.
  - repeat constructor.
  - intros r ->%list_elem_of_singleton. done.
Qed.

Lemma riul_find_correct_witness :
  ∃ o, riul_find riul_ex 4096 = Ok o ∧
    match o with Some i => [Riu 4096 512 7 1] !! Z.to_nat i | None => None end =
      riul_view [Riu 4096 512 7 1] !! 4096.
Proof. exact (riul_find_correct riul_ex [Riu 4096 512 7 1] 4096 riul_ex_inv). Defined.

Lemma riul_add_correct_witness :
  (∃ rl' ix rs', riul_add riul_ex 4096 8192 256 9 0 None = Ok (0, rl', Some ix) ∧
     riul_inv rl' rs' ∧ rs' !! Z.to_nat ix = Some (Riu 8192 256 9 0) ∧
     riul_view rs' = <[8192 := Riu 8192 256 9 0]> (riul_view [Riu 4096 512 7 1])) ∨
  (∃ errno, None = Some errno ∧ rul_nelems riul_ex = rul_nalloc riul_ex ∧
     riul_add riul_ex 4096 8192 256 9 0 None = Ok (errno, riul_ex, None)).
Proof.
  apply (riul_add_correct riul_ex [Riu 4096 512 7 1] 4096 8192 256 9 0 None riul_ex_inv);
    [lia|simpl; lia|lia|reflexivity].
Defined.

Lemma riul_delete_correct_witness :
  ∃ rl' rs', riul_delete riul_ex 0 = Ok rl' ∧ riul_inv rl' rs' ∧
    riul_view rs' = delete 4096 (riul_view [Riu 4096 512 7 1]) ∧ 1%nat = S (length rs').
Proof.
  exact (riul_delete_correct riul_ex [Riu 4096 512 7 1] 0 (Riu 4096 512 7 1) riul_ex_inv eq_refl).
Defined.
