(* ===== verification/Sizes.v ===== *)
(** * Layout of the indexes (layer "ix" of src/pq/pq.c)

    The four indexes are laid out one after the other at the end of the file,
    each rounded up to the alignment.  [ix_sz()] computes the room they need and
    [ix_ptrs()] where they start.  The functions cache their last result in
    static variables, which are the state [sizes] here. *)

From S2P Require Import Prelude NumTheory Fb TimeQueue RegionList SigIndex.

(** [_RNDUP(x, unit)] *)
Definition RNDUP (x unit : Z) : Z := (x + unit - 1) / unit * unit.

(** *** Sizes of the structures on an LP64 machine *)

Definition sizeof_fblk_t : Z := 8.
Definition FBLKS_NALLOC_INITIAL : Z := 2.
(** magic, maxsize (padded), arena_sz, avail, allocated, nfree[], free[], fblks[] *)
Definition sizeof_fb : Z := 5 * 8 + 2 * (MAXLEVELS * 8) + FBLKS_NALLOC_INITIAL * sizeof_fblk_t.
Definition sizeof_tqelem : Z := 16 + 8 + 8.
Definition TQ_NALLOC_INITIAL : Z := 84.
Definition sizeof_tqueue : Z := 6 * 8 + TQ_NALLOC_INITIAL * sizeof_tqelem.
Definition sizeof_region : Z := 4 * 8.
Definition RL_NALLOC_INITIAL : Z := 5.
Definition sizeof_regionl : Z := 17 * 8 + RL_NALLOC_INITIAL * sizeof_region.
Definition sizeof_rlhash : Z := 8 + RL_NALLOC_INITIAL * 8.
Definition sizeof_sxelem : Z := 16 + 8 + 8.
Definition SX_NALLOC_INITIAL : Z := 9.
Definition sizeof_sx : Z := 5 * 8 + SX_NALLOC_INITIAL * sizeof_sxelem.
Definition SXHASH_NALLOC_INITIAL : Z := 2.
Definition sizeof_sxhash : Z := 8 + SXHASH_NALLOC_INITIAL * 8.

(** *** A function that caches its last result

    [f] is computed when the argument differs from the last one. *)

Record memo := Memo { mm_prev : Z; mm_size : Z }.

Definition memo_init : memo := Memo 0 0.

Definition cached (f : Z → res Z) (c : memo) (nelems : Z) : res (Z * memo) :=
  assert! negb (nelems =? 0) in
  if nelems =? mm_prev c then Ok (mm_size c, c)
  else let! v := f nelems in Ok (v, Memo nelems v).

(** ** Sizes of the indexes *)

Definition tq_bytes (nelems : Z) : res Z :=
  Ok (u64 (sizeof_tqueue - sizeof_tqelem * TQ_NALLOC_INITIAL +
           (nelems + TQ_OVERHEAD_ELEMS) * sizeof_tqelem)).
Definition tq_sz := cached tq_bytes.

Definition fb_bytes (nelems : Z) : res Z :=
  let! a := fb_arena_sz_of nelems in
  Ok (u64 (sizeof_fb - sizeof_fblk_t * FBLKS_NALLOC_INITIAL + a * sizeof_fblk_t)).
Definition fb_sz := cached fb_bytes.

Definition rlhash_sz (nelems : Z) : Z :=
  u64 (sizeof_rlhash - 8 * RL_NALLOC_INITIAL + nelems * 8).
Definition rlwo_sz (nelems : Z) : Z :=
  u64 (sizeof_regionl - sizeof_region * RL_NALLOC_INITIAL +
       (nelems + RL_FREE_OVERHEAD) * sizeof_region).
Definition rl_bytes (nelems : Z) : res Z :=
  let! nc := rlhash_nchains nelems in
  Ok (u64 (rlwo_sz nelems + rlhash_sz nc)).
Definition rl_sz := cached rl_bytes.

Definition sxhash_sz (nelems : Z) : Z :=
  u64 (sizeof_sxhash - 8 * SXHASH_NALLOC_INITIAL + nelems * 8).
Definition sxwo_sz (nelems : Z) : Z :=
  u64 (sizeof_sx - sizeof_sxelem * SX_NALLOC_INITIAL + nelems * sizeof_sxelem).
Definition sx_bytes (nelems : Z) : res Z :=
  let! nc := nchains nelems in
  Ok (u64 (sxwo_sz nelems + sxhash_sz nc)).
Definition sx_sz := cached sx_bytes.

(** The caches of the four functions, of [ix_sz()] and of [ix_ptrs()]. *)
Record sizes := Sizes {
  sz_rl : memo; sz_tq : memo; sz_fb : memo; sz_sx : memo; sz_ix : memo;
  sz_prev : Z;
  sz_ptrs : Z * Z * Z * Z;
}.
Definition sizes_init : sizes :=
  Sizes memo_init memo_init memo_init memo_init memo_init 0 (0, 0, 0, 0).

(** The four sizes, with the caches updated. *)
Definition four_sz (c : sizes) (nelems : Z) : res (Z * Z * Z * Z * sizes) :=
  let! '(r, m1) := rl_sz (sz_rl c) nelems in
  let! '(t, m2) := tq_sz (sz_tq c) nelems in
  let! '(f, m3) := fb_sz (sz_fb c) nelems in
  let! '(s, m4) := sx_sz (sz_sx c) nelems in
  Ok (r, t, f, s, Sizes m1 m2 m3 m4 (sz_ix c) (sz_prev c) (sz_ptrs c)).

(** The cache of [ix_sz()] is looked up by [nelems] only. *)
Definition ix_sz (c : sizes) (nelems align : Z) : res (Z * sizes) :=
  assert! negb (nelems =? 0) in
  if nelems =? mm_prev (sz_ix c) then Ok (mm_size (sz_ix c), c)
  else
    let! '(r, t, f, s, c) := four_sz c nelems in
    let size := u64 (RNDUP r align + RNDUP t align + RNDUP f align + RNDUP s align) in
    Ok (size, Sizes (sz_rl c) (sz_tq c) (sz_fb c) (sz_sx c) (Memo nelems size) (sz_prev c) (sz_ptrs c)).

(** [ix] is the address of the index region.  The bounds check is an assertion. *)
Definition ix_ptrs (c : sizes) (ix ixsz nelems align : Z) : res (Z * Z * Z * Z * sizes) :=
  assert! negb (nelems =? 0) in
  let! c :=
    if nelems =? sz_prev c then Ok c
    else
      let! '(r, t, f, s, c) := four_sz c nelems in
      Ok (Sizes (sz_rl c) (sz_tq c) (sz_fb c) (sz_sx c) (sz_ix c) nelems (r, t, f, s)) in
  let '(r, t, f, s) := sz_ptrs c in
  let rlp := ix in
  let tqp := RNDUP (rlp + r) align in
  let fbp := RNDUP (tqp + t) align in
  let sxp := RNDUP (fbp + f) align in
  assert! sxp + s <=? ix + ixsz in
  Ok (rlp, tqp, fbp, sxp, c).

(** ** Correctness *)

Lemma RNDUP_spec x unit : 0 < unit → x ≤ RNDUP x unit < x + unit ∧ RNDUP x unit mod unit = 0.
Proof.
  intros Hu. unfold RNDUP. pose proof (Z.div_mod (x + unit - 1) unit) as Hd.
  pose proof (Z.mod_pos_bound (x + unit - 1) unit Hu). split; [lia|]. by apply Z.mod_mul; lia.
Qed.

(** Rounding up an offset from an aligned start. *)
Lemma RNDUP_add a x unit : 0 < unit → a mod unit = 0 → RNDUP (a + x) unit = a + RNDUP x unit.
Proof.
  intros Hu Ha. unfold RNDUP. apply Z.div_exact in Ha; [|lia]. rewrite Ha at 1.
  replace (unit * (a / unit) + x + unit - 1) with (x + unit - 1 + a / unit * unit) by lia.
  rewrite Z.div_add by lia. lia.
Qed.

(** A cache that holds what the function computes. *)
Definition memo_ok (f : Z → res Z) (c : memo) : Prop :=
  mm_prev c = 0 ∨ f (mm_prev c) = Ok (mm_size c).

Lemma cached_spec f c n v :
  memo_ok f c → n ≠ 0 → f n = Ok v → ∃ c', cached f c n = Ok (v, c') ∧ memo_ok f c'.
Proof.
  intros Hc Hn Hv. unfold cached. rewrite assert_Ok, bind_Ok by (by apply negb_true_iff, Z.eqb_neq).
  destruct (Z.eqb_spec n (mm_prev c)) as [->|_].
  - destruct Hc as [?|Hc]; [done|]. rewrite Hv in Hc. injection Hc as ->. eexists. split; [done|]. by right.
  - rewrite Hv, bind_Ok. eexists. split; [done|]. by right.
Qed.

Lemma fb_arena_bound n :
  4 ≤ n < 2 ^ 28 → ∃ a, fb_arena_sz_of n = Ok a ∧ 0 ≤ a < 2 ^ 47 + 2 ^ 40.
Proof.
  intros Hn. destruct (fb_init_arith n _ Hn eq_refl) as (Hl & Hnb & Hsq & Hsz).
  unfold fb_arena_sz_of, log4. rewrite assert_Ok, !bind_Ok by lia. eexists. split; [done|].
  set (l := Z.log2 n / 2) in *. assert (3 ≤ 3 * n / 4 < 2 ^ 28) as Hq by div_lia.
  pose proof (fb_arena_loop_bounds (Z.to_nat (l + 1)) 0 (3 * n / 4) 0 ltac:(lia) ltac:(lia)) as Htot.
  rewrite Z2Nat.id in Htot by lia. set (total := fb_arena_loop _ _ _ _) in *.
  assert (total < 2 ^ 40) by nia. pose proof (Z.sqrt_nonneg (9 * n * (l * (l + 1)) ^ 2)). lia.
Qed.

(** The four sizes do not wrap around. *)
Lemma bytes_bounds n :
  8 ≤ n < 2 ^ 28 →
  ∃ r t f s, rl_bytes n = Ok r ∧ tq_bytes n = Ok t ∧ fb_bytes n = Ok f ∧ sx_bytes n = Ok s ∧
    0 < r < 2 ^ 40 ∧ 0 ≤ t < 2 ^ 40 ∧ 0 ≤ f < 2 ^ 51 ∧ 0 ≤ s < 2 ^ 40.
Proof.
  intros Hn. destruct (fb_arena_bound n ltac:(lia)) as (a & Ha & Hab).
  destruct (rlhash_nchains_pos n ltac:(lia)) as (nc & Hnc & Hncb).
  assert (nc < 2 ^ 28) by div_lia.
  unfold rl_bytes, tq_bytes, fb_bytes, sx_bytes, rlwo_sz, rlhash_sz, sxwo_sz, sxhash_sz.
  change (nchains n) with (rlhash_nchains n). rewrite Ha, Hnc, !bind_Ok.
  eexists _, _, _, _. split_and!; [done|done|done|done|..];
    unfold sizeof_regionl, sizeof_region, sizeof_rlhash, sizeof_tqueue, sizeof_tqelem, sizeof_fb,
      sizeof_fblk_t, sizeof_sx, sizeof_sxelem, sizeof_sxhash, RL_NALLOC_INITIAL, RL_FREE_OVERHEAD,
      TQ_NALLOC_INITIAL, TQ_OVERHEAD_ELEMS, FBLKS_NALLOC_INITIAL, MAXLEVELS, SX_NALLOC_INITIAL,
      SXHASH_NALLOC_INITIAL; rewrite ?u64_small; rewrite ?u64_small; lia.
Qed.

(** The caches hold what the functions compute. *)
Record sizes_ok (c : sizes) : Prop := {
  so_rl : memo_ok rl_bytes (sz_rl c);
  so_tq : memo_ok tq_bytes (sz_tq c);
  so_fb : memo_ok fb_bytes (sz_fb c);
  so_sx : memo_ok sx_bytes (sz_sx c);
  so_ptrs : sz_prev c = 0 ∨ ∃ r t f s, sz_ptrs c = (r, t, f, s) ∧ rl_bytes (sz_prev c) = Ok r ∧
    tq_bytes (sz_prev c) = Ok t ∧ fb_bytes (sz_prev c) = Ok f ∧ sx_bytes (sz_prev c) = Ok s;
}.

Lemma four_sz_spec c n r t f s :
  sizes_ok c → n ≠ 0 → rl_bytes n = Ok r → tq_bytes n = Ok t → fb_bytes n = Ok f → sx_bytes n = Ok s →
  ∃ c', four_sz c n = Ok (r, t, f, s, c') ∧ sizes_ok c' ∧ sz_ix c' = sz_ix c.
Proof.
  intros [] Hn Hr Ht Hf Hs. unfold four_sz, rl_sz, tq_sz, fb_sz, sx_sz.
  destruct (cached_spec _ _ _ _ so_rl0 Hn Hr) as (m1 & -> & ?).
  destruct (cached_spec _ _ _ _ so_tq0 Hn Ht) as (m2 & -> & ?).
  destruct (cached_spec _ _ _ _ so_fb0 Hn Hf) as (m3 & -> & ?).
  destruct (cached_spec _ _ _ _ so_sx0 Hn Hs) as (m4 & -> & ?).
  rewrite !bind_Ok. eexists. split; [done|]. split; [by split|done].
Qed.

Lemma ix_ptrs_run c ix ixsz n align r t f s :
  sizes_ok c → n ≠ 0 → rl_bytes n = Ok r → tq_bytes n = Ok t → fb_bytes n = Ok f → sx_bytes n = Ok s →
  ∃ c', ix_ptrs c ix ixsz n align =
      (let tqp := RNDUP (ix + r) align in
       let fbp := RNDUP (tqp + t) align in
       let sxp := RNDUP (fbp + f) align in
       assert! sxp + s <=? ix + ixsz in Ok (ix, tqp, fbp, sxp, c')) ∧ sizes_ok c'.
Proof.
  intros Hc Hn Hr Ht Hf Hs. unfold ix_ptrs.
  rewrite assert_Ok, bind_Ok by (by apply negb_true_iff, Z.eqb_neq).
  destruct (Z.eqb_spec n (sz_prev c)) as [->|_].
  - destruct (so_ptrs _ Hc) as [?|(r' & t' & f' & s' & Hp & ? & ? & ? & ?)]; [done|].
    rewrite bind_Ok, Hp. exists c. split; [|done].
    by replace r' with r by congruence; replace t' with t by congruence;
      replace f' with f by congruence; replace s' with s by congruence.
  - destruct (four_sz_spec c n r t f s Hc Hn Hr Ht Hf Hs) as (c1 & -> & [] & _).
    rewrite !bind_Ok. eexists. split; [done|]. split; try done. right. simpl. eauto 10.
Qed.

(** The size of a first call. *)
Lemma ix_sz_bound c nelems align :
  sizes_ok c → mm_prev (sz_ix c) ≠ nelems → 8 ≤ nelems < 2 ^ 28 → 0 < align ≤ 2 ^ 40 →
  ∃ v c', ix_sz c nelems align = Ok (v, c') ∧ 0 < v < 2 ^ 53.
Proof.
  intros Hc Hprev Hn Hal.
  destruct (bytes_bounds nelems Hn) as (r & t & f & s & Hr & Ht & Hf & Hs & Hrb & Htb & Hfb & Hsb).
  destruct (four_sz_spec c nelems r t f s Hc ltac:(lia) Hr Ht Hf Hs) as (c1 & Hfour & _ & _).
  unfold ix_sz. rewrite assert_Ok, bind_Ok by (apply negb_true_iff, Z.eqb_neq; lia).
  rewrite (proj2 (Z.eqb_neq _ _)), Hfour, bind_Ok by congruence. cbn zeta.
  destruct (RNDUP_spec r align) as [Hr1 _]; [lia|]. destruct (RNDUP_spec t align) as [Ht1 _]; [lia|].
  destruct (RNDUP_spec f align) as [Hf1 _]; [lia|]. destruct (RNDUP_spec s align) as [Hs1 _]; [lia|].
  rewrite u64_small by lia. eexists _, _. split; [done|]. lia.
Qed.

(** ** Properties *)

(** C40: the room that a first [ix_sz()] asks for is enough for [ix_ptrs()] at an aligned
    address: its bounds check passes, the four indexes start on the alignment,
    in order, and none reaches into the next or past the end of the region. *)
Theorem ix_layout_correct c nelems align ix :
  sizes_ok c → mm_prev (sz_ix c) ≠ nelems → 8 ≤ nelems < 2 ^ 28 → 0 < align ≤ 2 ^ 40 →
  0 ≤ ix → ix mod align = 0 →
  ∃ ixsz c' r t f s tqp fbp sxp c2,
    ix_sz c nelems align = Ok (ixsz, c') ∧ rl_bytes nelems = Ok r ∧ tq_bytes nelems = Ok t ∧
    fb_bytes nelems = Ok f ∧ sx_bytes nelems = Ok s ∧
    ix_ptrs c' ix ixsz nelems align = Ok (ix, tqp, fbp, sxp, c2) ∧
    ix + r ≤ tqp ∧ tqp + t ≤ fbp ∧ fbp + f ≤ sxp ∧ sxp + s ≤ ix + ixsz ∧
    tqp mod align = 0 ∧ fbp mod align = 0 ∧ sxp mod align = 0.
Proof.
  intros Hc Hprev Hn Hal Hix Ha.
  destruct (bytes_bounds nelems Hn) as (r & t & f & s & Hr & Ht & Hf & Hs & Hrb & Htb & Hfb & Hsb).
  destruct (four_sz_spec c nelems r t f s Hc ltac:(lia) Hr Ht Hf Hs) as (c1 & Hfour & Hc1 & Hsix).
  unfold ix_sz. rewrite assert_Ok, bind_Ok by (apply negb_true_iff, Z.eqb_neq; lia).
  rewrite (proj2 (Z.eqb_neq _ _)), Hfour, bind_Ok by congruence. cbn zeta.
  destruct (RNDUP_spec r align) as [Hr1 Hr2]; [lia|]. destruct (RNDUP_spec t align) as [Ht1 Ht2]; [lia|].
  destruct (RNDUP_spec f align) as [Hf1 Hf2]; [lia|]. destruct (RNDUP_spec s align) as [Hs1 Hs2]; [lia|].
  rewrite u64_small by lia. set (c' := Sizes _ _ _ _ _ _ _).
  assert (sizes_ok c') as Hc' by (destruct Hc1; by split).
  destruct (ix_ptrs_run c' ix (RNDUP r align + RNDUP t align + RNDUP f align + RNDUP s align)
    nelems align r t f s Hc' ltac:(lia) Hr Ht Hf Hs) as (c2 & Hptrs & _).
  assert (RNDUP (ix + r) align = ix + RNDUP r align) as E1 by (apply RNDUP_add; [lia|done]).
  assert ((ix + RNDUP r align) mod align = 0) as M1 by (rewrite Z.add_mod, Ha, Hr2 by lia; apply Z.mod_0_l; lia).
  assert (RNDUP (ix + RNDUP r align + t) align = ix + RNDUP r align + RNDUP t align) as E2
    by (apply RNDUP_add; [lia|done]).
  assert ((ix + RNDUP r align + RNDUP t align) mod align = 0) as M2
    by (rewrite Z.add_mod, M1, Ht2 by lia; apply Z.mod_0_l; lia).
  assert (RNDUP (ix + RNDUP r align + RNDUP t align + f) align =
    ix + RNDUP r align + RNDUP t align + RNDUP f align) as E3 by (apply RNDUP_add; [lia|done]).
  assert ((ix + RNDUP r align + RNDUP t align + RNDUP f align) mod align = 0) as M3
    by (rewrite Z.add_mod, M2, Hf2 by lia; apply Z.mod_0_l; lia).
  cbn zeta in Hptrs. rewrite E1, E2, E3, assert_Ok, bind_Ok in Hptrs by lia.
  eexists _, _, r, t, f, s, _, _, _, c2. split_and!; [done..|exact Hptrs| | | | |done|done|done]; lia.
Qed.

(** [ix_sz()] returns the size cached for the number of elements whatever the
    alignment: a second call with another alignment gets the size of the first. *)
Theorem ix_sz_stale c nelems align1 align2 v c' :
  ix_sz c nelems align1 = Ok (v, c') → nelems ≠ 0 → mm_prev (sz_ix c) ≠ nelems →
  ix_sz c' nelems align2 = Ok (v, c').
Proof.
  intros Hrun Hn Hprev. unfold ix_sz in *.
  rewrite assert_Ok, bind_Ok in * by (by apply negb_true_iff, Z.eqb_neq).
  rewrite (proj2 (Z.eqb_neq _ _)) in Hrun by congruence.
  apply bind_inv in Hrun as ([[[[r t] f] s] c1] & _ & Hrun). injection Hrun as <- <-. simpl.
  by rewrite Z.eqb_refl.
Qed.

(** ** Witnesses *)

Lemma sizes_init_ok : sizes_ok sizes_init.
Proof. split; by left. Qed.

Lemma ix_layout_correct_witness :
  ∃ ixsz c' r t f s tqp fbp sxp c2,
    ix_sz sizes_init 1000 4096 = Ok (ixsz, c') ∧ rl_bytes 1000 = Ok r ∧ tq_bytes 1000 = Ok t ∧
    fb_bytes 1000 = Ok f ∧ sx_bytes 1000 = Ok s ∧
    ix_ptrs c' 8192 ixsz 1000 4096 = Ok (8192, tqp, fbp, sxp, c2) ∧
    8192 + r ≤ tqp ∧ tqp + t ≤ fbp ∧ fbp + f ≤ sxp ∧ sxp + s ≤ 8192 + ixsz ∧
    tqp mod 4096 = 0 ∧ fbp mod 4096 = 0 ∧ sxp mod 4096 = 0.
Proof.
  apply (ix_layout_correct sizes_init 1000 4096 8192 sizes_init_ok);
    [discriminate|lia|lia|lia|reflexivity].
Defined.

(** Room for a thousand products with pages of 8 bytes, and then of 4096. *)
Lemma ix_sz_stale_witness :
  ∃ v c', ix_sz sizes_init 1000 8 = Ok (v, c') ∧ ix_sz c' 1000 4096 = Ok (v, c') ∧
    (let! '(v2, _) := ix_sz sizes_init 1000 4096 in Ok (v <? v2)) = Ok true.
Proof.
  destruct (ix_sz sizes_init 1000 8) as [[v c']|e] eqn:Hrun; [|vm_compute in Hrun; discriminate Hrun].
  exists v, c'. split; [reflexivity|]. split.
  - apply (ix_sz_stale sizes_init 1000 8 4096 v c' Hrun); discriminate.
  - assert ((let! '(v1, _) := ix_sz sizes_init 1000 8 in
             let! '(v2, _) := ix_sz sizes_init 1000 4096 in Ok (v1 <? v2)) = Ok true) as H
      by (vm_compute; reflexivity).
    rewrite Hrun in H. exact H.
Defined.
