(* ===== verification/PqShare.v ===== *)
(** * Two clients of one block arena

    The time queue and the region list take their skip-list blocks from the same
    arena.  Each invariant names the blocks of the other client as a frame; the
    lemmas of this file move the frame when the other one acts. *)

From S2P Require Import Prelude Timestamp NumTheory Fb SkipList TimeQueue RegionList RegionSkip.
From S2P Require Import RegionHash RegionAlloc RegionMerge RegionFree RegionOps RegionThms.

(** The region list depends on the blocks of the others only by its own being
    apart from them. *)
Lemma rl_blocks rl f V base limit es fs us lb ts :
  rl_inv rl f V base limit es fs us lb ts →
  ∃ Ur, fb_own f (V ∪ Ur) ∧ V ##ₘ Ur ∧
    ∀ f' V', fb_maxsize f' = fb_maxsize f → keeps Ur f f' → fb_own f' (V' ∪ Ur) → V' ##ₘ Ur →
      rl_inv rl f' V' base limit es fs us lb ts.
Proof.
  intros [[Htab (gs & Hgs & U1 & U2 & H1 & H2 & Hown & Hd1 & Hd2) Hr Hts Htl] Hsep Hmax].
  apply map_disjoint_union_r in Hd1 as [Hd12 Hd1]. exists (U1 ∪ U2).
  assert (∀ X, U1 ##ₘ X → U2 ##ₘ X → X ∪ (U1 ∪ U2) = U1 ∪ (U2 ∪ X)) as Hu.
  { intros X HX1 HX2. rewrite (map_union_comm X) by by apply map_disjoint_union_r.
    by rewrite (assoc_L (∪)). }
  split_and!; [by rewrite Hu|by apply map_disjoint_union_r|].
  intros f' V' Hm Hk Hown' Hd'. apply map_disjoint_union_r in Hd' as [Hd1' Hd2'].
  split; [|done..]. split; [done| |done..]. exists gs. split; [done|].
  destruct (rt_ends _ _ _ _ _ Htab) as [_ Hfo Hfe _ (r1 & Hr1 & _) (r2 & Hr2 & _) (r3 & Hr3 & _) (r4 & Hr4 & _)].
  exists U1, U2. split_and!.
  - eapply (sk_inv_ext foff foff_key rl f U1 fs H1); [|done..|].
    + intros n Hn. assert (is_Some (rl_rp rl !! n)) as [r Hrn]; [|eauto 10].
      apply elem_of_cons in Hn as [->|Hn]; [|by apply (ki_dom _ _ _ _ _ _ H1)].
      simpl. rewrite Hfo. eauto.
    + eapply keeps_mono; [|done]. apply map_union_subseteq_l.
  - eapply (sk_inv_ext fext fext_key rl f U2 gs H2); [|done..|].
    + intros n Hn. assert (is_Some (rl_rp rl !! n)) as [r Hrn]; [|eauto 10].
      apply elem_of_cons in Hn as [->|Hn]; [|by apply (ki_dom _ _ _ _ _ _ H2)].
      simpl. rewrite Hfe. eauto.
    + eapply keeps_mono; [|done]. by apply map_union_subseteq_r.
  - by rewrite <- Hu.
  - apply map_disjoint_union_r. done.
  - done.
Qed.

(** Every slot is in one of the lists. *)
Lemma rl_length rl f V base limit es fs us lb ts :
  rl_inv rl f V base limit es fs us lb ts →
  rl_nalloc rl = Z.of_nat (length es + length fs + length us + length lb).
Proof.
  intros [[Htab _ _ _ _] _ _]. pose proof (rt_perm _ _ _ _ _ Htab) as Hp.
  apply Permutation_length in Hp. rewrite !length_app, length_seqZ in Hp.
  pose proof (re_nalloc _ (rt_ends _ _ _ _ _ Htab)). lia.
Qed.

(** Both indexes on one arena. *)
Definition both (tq : tqueue) (rl : regionl) (f : fb) (base limit : Z)
    (ns fl lk es fs us lb ts : list Z) : Prop :=
  ∃ U, tq_inv tq f U ns fl lk ∧ rl_inv rl f U base limit es fs us lb ts.

Section both.
Context (tq : tqueue) (rl : regionl) (f : fb) (base limit : Z) (ns fl lk es fs us lb ts : list Z).
Context (Hb : both tq rl f base limit ns fl lk es fs us lb ts).

Lemma both_tqe_first : tqe_first tq f = Ok (head ns).
Proof.
  destruct Hb as (U & Ht & Hr). destruct (rl_blocks _ _ _ _ _ _ _ _ _ _ Hr) as (Ur & Hown & _).
  by eapply tqe_first_spec.
Qed.

Lemma both_tqe_find tv mt :
  TV_CMP_LT TS_ENDT tv = false → (mt = TV_EQ → tv ≠ TS_ENDT) →
  tqe_find tq f tv mt = Ok (tq_found tq ns tv mt).
Proof.
  destruct Hb as (U & Ht & Hr). destruct (rl_blocks _ _ _ _ _ _ _ _ _ _ Hr) as (Ur & Hown & _).
  intros. by eapply tqe_find_spec.
Qed.

Lemma both_found tv mt :
  tq_entry tq <$> tq_found tq ns tv mt = abs_find tv mt (tq_view tq ns).
Proof. destruct Hb as (U & Ht & _). exact (tq_found_view _ _ _ _ _ _ Ht tv mt). Qed.

Lemma both_found_in tv mt n : tq_found tq ns tv mt = Some n → n ∈ ns.
Proof.
  destruct Hb as (U & Ht & Hr). destruct (rl_blocks _ _ _ _ _ _ _ _ _ _ Hr) as (Ur & Hown & _).
  intros. by eapply tq_found_in.
Qed.

Lemma both_tq_next l1 p l2 : ns = l1 ++ p :: l2 → tq_next tq f p = Ok (head_or TQ_NIL l2).
Proof.
  destruct Hb as (U & Ht & Hr). destruct (rl_blocks _ _ _ _ _ _ _ _ _ _ Hr) as (Ur & Hown & _).
  intros. by eapply tq_next_spec.
Qed.

Lemma both_tq_delete q :
  q ∈ ns →
  ∃ tq' f' l1 l2, tq_delete tq f q = Ok (tq', f') ∧ ns = l1 ++ q :: l2 ∧
    both tq' rl f' base limit (l1 ++ l2) (q :: fl) lk es fs us lb ts ∧
    tq_view tq' (l1 ++ l2) = abs_delete (tq_key (tq_tqep tq) q) (tq_view tq ns) ∧
    tq_nalloc tq' = tq_nalloc tq ∧ fb_spare f' = fb_spare f ∧
    (∀ n, n ≠ q → tq_tqep tq' !! n = tq_tqep tq !! n).
Proof.
  intros (l1 & l2 & Hns)%list_elem_of_split. destruct Hb as (U & Ht & Hr).
  destruct (rl_blocks _ _ _ _ _ _ _ _ _ _ Hr) as (Ur & Hown & Hd & Hframe).
  rewrite Hns in Ht. destruct (tq_delete_spec tq f U Ur fl lk l1 l2 q Ht Hown Hd)
    as (tq' & f' & U' & Hrun & Ht' & Hown' & Hd' & Hm & Hk & Hv & Hna & Hs & Hx).
  exists tq', f', l1, l2. rewrite Hns at 2. split_and!; try done. exists U'. split; [done|].
  by apply Hframe.
Qed.

Lemma both_rl_free p g :
  p ∈ us → 4 ≤ fb_spare f →
  ∃ rl' f' g' es' fs' ts', rl_free rl f g p = Ok (rl', f', g') ∧
    both tq rl' f' base limit ns fl lk es' fs' (filter (λ x, x ≠ p) us) lb ts' ∧
    (∀ x, x ∈ us ++ lb → x ≠ p → rg_off (rl_rp rl') x = rg_off (rl_rp rl) x ∧
       rext (rl_rp rl') x = rext (rl_rp rl) x) ∧
    rl_nbytes rl' = u64 (rl_nbytes rl - rext (rl_rp rl) p) ∧ fb_spare f - 4 ≤ fb_spare f' ∧
    (length es ≤ length es' ∧ length es' + length fs' = S (length es + length fs))%nat.
Proof.
  intros Hp Hs. destruct Hb as (U & Ht & Hr).
  destruct (rl_free_spec _ _ _ _ _ _ _ _ _ _ p g Hr Hp Hs)
    as (rl' & f' & g' & es' & fs' & ts' & Hrun & Hr' & Hx & Hnb & Hm & Hk & Hs' & [Hl1 Hl2]).
  exists rl', f', g', es', fs', ts'. split_and!; try done. exists U. split; [|done].
  by eapply tq_inv_keeps.
Qed.

Lemma both_rl_get e :
  (∃ q rl' f' fs', rl_get rl f e = Ok (q, rl', f') ∧ best_fit rl fs e q ∧ fs ≡ₚ q :: fs' ∧
     both tq rl' f' base limit ns fl lk es fs' us (q :: lb) ts ∧ rl_rp rl' = rl_rp rl ∧
     rl_nbytes rl' = rl_nbytes rl ∧
     (∀ l1 x y l2, ts = l1 ++ x :: y :: l2 → (x = q → y ∉ fs') ∧ (y = q → x ∉ fs')) ∧
     fb_spare f ≤ fb_spare f') ∨
  (rl_get rl f e = Ok (RL_NONE, rl, f) ∧ ∀ x, x ∈ fs → rext (rl_rp rl) x < e).
Proof.
  destruct Hb as (U & Ht & Hr).
  destruct (rl_get_spec _ _ _ _ _ _ _ _ _ _ Hr e)
    as [(q & rl' & f' & fs' & Hrun & Hbest & Hfs & Hr' & Hrp & Hnb & Hsep & Hm & Hk & Hs)|?]; [left|by right].
  exists q, rl', f', fs'. split_and!; try done. exists U. split; [|done]. by eapply tq_inv_keeps.
Qed.
End both.

Lemma both_rl_split tq rl f base limit ns fl lk n es fs us lb A p B e g :
  both tq rl f base limit ns fl lk (n :: es) fs us (p :: lb) (A ++ p :: B) →
  0 < e < rext (rl_rp rl) p → (∀ z l, B = z :: l → z ∉ fs) → e mod 2 = 0 → 2 ≤ fb_spare f →
  ∃ rl' f' g' fs', rl_split rl f g p e = Ok (0, rl', f', g') ∧ fs' ≡ₚ n :: fs ∧
    both tq rl' f' base limit ns fl lk es fs' us (p :: lb) (A ++ p :: n :: B) ∧
    rext (rl_rp rl') p = e ∧ rg_off (rl_rp rl') p = rg_off (rl_rp rl) p ∧
    (∀ x, x ≠ p → x ≠ n → rl_rp rl' !! x = rl_rp rl !! x) ∧ rl_nbytes rl' = rl_nbytes rl ∧
    fb_spare f - 2 ≤ fb_spare f'.
Proof.
  intros (U & Ht & Hr) He HB Hev Hs.
  destruct (rl_split_spec rl f U base limit (n :: es) fs us lb A p B e g Hr He n es eq_refl HB Hev Hs)
    as (rl' & f' & g' & fs' & Hrun & Hfs & Hr' & Hep & Hop & _ & Hx & Hnb & Hm & Hk & Hsp).
  exists rl', f', g', fs'. split_and!; try done. exists U. split; [|done]. by eapply tq_inv_keeps.
Qed.

Lemma both_hash tq rl f base limit ns fl lk es fs us lb ts p r :
  both tq rl f base limit ns fl lk es fs us (p :: lb) ts → rl_rp rl !! p = Some r →
  ∃ rl', rlhash_add (rl_set_rp rl (<[p := set_IsAlloc r]> (rl_rp rl))) p = Ok rl' ∧
    both tq rl' f base limit ns fl lk es fs (p :: us) lb ts ∧ rl_nbytes rl' = rl_nbytes rl ∧
    (∀ n r, rl_rp rl !! n = Some r → ∃ r', rl_rp rl' !! n = Some r' ∧
     rg_offset r' = rg_offset r ∧ Extent r' = Extent r).
Proof.
  intros (U & Ht & Hr) Hp. destruct (hash_spec _ _ _ _ _ _ _ _ _ _ _ _ Hr Hp) as (rl' & ? & ? & ? & _ & ?).
  exists rl'. split_and!; try done. by exists U.
Qed.

Lemma both_rl_put tq rl f base limit ns fl lk es fs us lb ts p g :
  both tq rl f base limit ns fl lk es fs us (p :: lb) ts → p < rl_nalloc rl → 4 ≤ fb_spare f →
  ∃ rl' f' g' es' fs' ts', rl_put rl f g p = Ok (rl', f', g') ∧
    both tq rl' f' base limit ns fl lk es' fs' us lb ts' ∧
    (∀ x, x ∈ us ++ lb → rl_rp rl' !! x = rl_rp rl !! x) ∧ rl_nbytes rl' = rl_nbytes rl ∧
    (length es' + length fs' = S (length es + length fs))%nat.
Proof.
  intros (U & Ht & Hr) Hp Hs. destruct (rl_put_spec _ _ _ _ _ _ _ _ _ _ _ g Hr Hp Hs)
    as (rl' & f' & g' & es' & fs' & ts' & Hrun & Hr' & Hx & Hnb & Hm & Hk & _ & _ & Hl).
  exists rl', f', g', es', fs', ts'. split_and!; try done. exists U. split; [|done]. by eapply tq_inv_keeps.
Qed.

(** [rlhash_del()] followed by [clear_IsAlloc()], as the error paths of [rpqe_new()]
    have it. *)
Lemma unhash_clear_spec rl f V base limit es fs us lb ts p r :
  rl_inv rl f V base limit es fs us lb ts → p ∈ us → rl_rp rl !! p = Some r →
  ∃ rl1, rlhash_del rl p = Ok rl1 ∧ rl_rp rl1 !! p = Some r ∧
    let rl2 := rl_set_rp rl1 (<[p := clear_IsAlloc r]> (rl_rp rl1)) in
    rl_inv rl2 f V base limit es fs (filter (λ x, x ≠ p) us) (p :: lb) ts ∧
    rl_nbytes rl2 = rl_nbytes rl ∧ rl_nalloc rl2 = rl_nalloc rl ∧
    (∀ n r, rl_rp rl !! n = Some r → ∃ r', rl_rp rl2 !! n = Some r' ∧
     rg_offset r' = rg_offset r ∧ Extent r' = Extent r).
Proof.
  intros Hinv Hp Hr. pose proof Hinv as [[Htab _ _ _ _] _ _].
  destruct (rlhash_del_spec rl us p r (rt_hash _ _ _ _ _ Htab)) as (rp' & ch' & Hdel & [Hlo1 Hlo2] & Hpr & Hh);
    [intros x Hx _; by apply (rt_used _ _ _ _ _ Htab)|done|done|].
  eexists. split; [exact Hdel|]. split; [by destruct rl|]. intros rl2.
  assert (rl_rp rl2 = <[p := clear_IsAlloc r]> rp') as Hrp2 by by destruct rl.
  assert (NoDup us) as Hndu by apply (hi_nodup _ _ (rt_hash _ _ _ _ _ Htab)).
  assert (∀ n rn, rl_rp rl !! n = Some rn → ∃ r', rl_rp rl2 !! n = Some r' ∧
     rg_offset r' = rg_offset rn ∧ Extent r' = Extent rn) as Hkeep.
  { intros n rn Hn. rewrite Hrp2, lookup_insert. case_decide as Hd.
    - subst n. rewrite Hr in Hn. injection Hn as <-. eexists. split_and!; [done..|by apply clear_IsAlloc_free].
    - destruct (Hlo2 n rn Hn) as (r' & Hr' & Ho & He). exists r'. unfold Extent. rewrite He. done. }
  split_and!; [|by destruct rl..|done].
  eapply (inv_retable rl rl2 f V base limit es fs us lb ts); [done|by destruct rl..| |done| | | |].
  - intros n Hn. assert (n ≠ p) by set_solver. rewrite Hrp2, lookup_insert_ne, Hlo1 by set_solver. done.
  - trans ((p :: filter (λ x, x ≠ p) us) ++ lb); [solve_Permutation|].
    by rewrite <- (filter_remove_perm p us).
  - eapply hash_inv_ext; [exact Hh|by destruct rl..|]. intros n rn Hn Hrn. rewrite Hrp2.
    assert (rp' !! n = Some rn) as Hrn' by by destruct rl. rewrite lookup_insert_ne; [eauto|].
    intros <-. by apply list_elem_of_filter in Hn as [? _].
  - intros n [Hne Hn]%list_elem_of_filter. rewrite Hrp2.
    destruct (rt_used _ _ _ _ _ Htab n Hn) as (rn & Hrn & Ha).
    destruct (Hlo2 n rn Hrn) as (r' & Hr' & _ & He). exists r'. rewrite lookup_insert_ne by done.
    split; [done|]. unfold IsAlloc in *. by rewrite He.
  - intros n rn Hn Hrn. rewrite Hrp2, lookup_insert in Hrn. case_decide as Hd.
    + injection Hrn as <-. by apply clear_IsAlloc_free.
    + apply elem_of_cons in Hn as [->|Hn]; [done|].
      assert (n ∉ us) as Hnu.
      { pose proof (rt_NoDup _ _ _ _ _ Htab) as Hnd. apply NoDup_app in Hnd as (_ & _ & Hnd).
        apply NoDup_app in Hnd as (_ & _ & Hnd). apply NoDup_app in Hnd as (_ & Hd' & _).
        intros Hnu. by apply (Hd' n). }
      rewrite Hlo1 in Hrn by done. eapply (rt_free _ _ _ _ _ Htab); [|exact Hrn]. set_solver.
Qed.

(** The statistics of bytes are of no concern to the lists. *)
Lemma both_nbytes tq rl f base limit ns fl lk es fs us lb ts nb mb :
  both tq rl f base limit ns fl lk es fs us lb ts →
  both tq (rl_set_nbytes rl nb mb) f base limit ns fl lk es fs us lb ts.
Proof.
  intros (U & Ht & Hr). exists U. split; [done|]. apply (inv_same rl); [by destruct rl|by destruct rl|exact Hr].
Qed.

(** Every element of the time queue is in one of its lists. *)
Lemma tq_length tq f U ns fl lk :
  tq_inv tq f U ns fl lk → tq_nalloc tq = Z.of_nat (length fl + length ns + length lk).
Proof.
  intros Hinv. pose proof (Permutation_length (ti_perm _ _ _ _ _ _ Hinv)) as Hp.
  rewrite !length_app, length_seqZ in Hp. pose proof (ti_nalloc _ _ _ _ _ _ Hinv). lia.
Qed.

(** An insertion is one more entry. *)
Lemma abs_insert_perm tv o l : abs_insert tv o l ≡ₚ (tv, o) :: l.
Proof.
  unfold abs_insert. rewrite <- Permutation_middle. apply perm_skip.
  unfold abs_before, abs_from. induction l as [|p l IH]; [done|].
  rewrite !filter_cons. destruct (TV_CMP_LT p.1 tv) eqn:Hlt.
  - rewrite decide_True, decide_False by (rewrite ?Hlt; done). simpl. by rewrite IH.
  - rewrite decide_False, decide_True by (rewrite ?Hlt; done). by rewrite <- Permutation_middle, IH.
Qed.

(** [tq_add()] on the shared arena. *)
Lemma both_tq_add tq rl f base limit ns fl lk es fs us lb ts g now o :
  both tq rl f base limit ns fl lk es fs us lb ts → fl ≠ [] → ts_valid now →
  Timestamp.us now + Z.of_nat (length ns) < Timestamp.us TS_ENDT →
  ∃ st tq' f' g' ns' lk', tq_add tq f g (inr now) o = Ok (st, tq', f', g') ∧
    both tq' rl f' base limit ns' (tail fl) lk' es fs us lb ts ∧ tq_nalloc tq' = tq_nalloc tq ∧
    ((st = 0 ∧ lk' = lk ∧ ∃ tv, abs_least_free now (tq_view tq ns) tv ∧
        tq_view tq' ns' = abs_insert tv o (tq_view tq ns)) ∨
     (st = ENOSPC ∧ fb_spare f = 0 ∧ ns' = ns ∧ length lk' = S (length lk) ∧ tq_view tq' ns = tq_view tq ns)).
Proof.
  intros (U & Ht & Hr) Hfl Hv Hend. destruct (rl_blocks _ _ _ _ _ _ _ _ _ _ Hr) as (Ur & Hown & Hd & Hframe).
  pose proof (tq_length _ _ _ _ _ _ Ht) as Hlen.
  destruct (tq_add_spec tq f U Ur ns fl lk g now o Ht Hown Hd Hfl Hv Hend)
    as (st & tq' & f' & g' & Hrun & Hm & Hk & [(-> & U' & tv & ns' & Ht' & Hown' & Hd' & Hlf & Hview)
                                              |(-> & Hsp & -> & Hview & n & Ht')]).
  - exists 0, tq', f', g', ns', lk. split; [done|].
    pose proof (tq_length _ _ _ _ _ _ Ht') as Hlen'. split; [exists U'; split; [done|by apply Hframe]|].
    split; [|left; eauto]. rewrite Hlen, Hlen'.
    assert (length ns' = S (length ns)) as Hl.
    { apply (f_equal length) in Hview. unfold tq_view in Hview at 1.
      rewrite abs_insert_perm in Hview. unfold tq_view in Hview. simpl in Hview.
      by rewrite !length_fmap in Hview. }
    destruct fl; [done|]. simpl. lia.
  - exists ENOSPC, tq', f, g', ns, (n :: lk). split; [done|].
    pose proof (tq_length _ _ _ _ _ _ Ht') as Hlen'.
    split; [exists U; done|]. split; [|right; done]. rewrite Hlen, Hlen'.
    destruct fl; [done|]. simpl. lia.
Qed.
