(* ===== verification/PqCore.v ===== *)
(** * The product-queue object and its access to the file

    Model of [pqctl], [pqueue] and the functions of src/pq/pq.c between the
    operating system and the indexes: growing and locking the file
    ([fgrow()], [fd_lock()]), the regions reserved by this process
    ([rgn2_lock()] ... [rgn2_release()]), the three pairs of access functions
    ([f_ftom()]/[f_mtof()], [mm_ftom()]/[mm_mtof()], [mm0_ftom()]/[mm0_mtof()])
    and [rgn_get()]/[rgn_rel()].

    The operating system is a parameter: the class [System] has its calls, as
    functions on a state [W], and the XDR functions of products that
    rpcgen(1) generates. *)

From stdpp Require Import strings.
From S2P Require Import Prelude Timestamp NumTheory Fb SkipList TimeQueue.
From S2P Require Import RegionList SigIndex Riul Sizes.

(** ** The operating system *)

(** The metadata of a product (src/protocol/ldm.x). *)
Record prod_info := ProdInfo {
  pi_arrival : timestampt; pi_signature : signaturet; pi_origin : string;
  pi_feedtype : Z; pi_seqno : Z; pi_ident : string; pi_sz : Z }.

(** A product: metadata and data. *)
Record product := Product { p_info : prod_info; p_data : list Z }.

(** A call that can fail returns [inl errno] or [inr result]; one without a result
    returns 0 or [errno].  Decoding the metadata of a product gives the metadata and
    how many bytes it took. *)
Class System (W : Type) := {
  pagesize : Z;
  open (oflags mode : Z) : W → (Z + Z) * W;
  close (fd : Z) : W → W;
  unlink : W → W;
  fcntl (cmd l_type offset extent : Z) : W → Z * W;
  fstat : W → (Z + Z) * W;
  ftruncate (len : Z) : W → Z * W;
  lseek (offset : Z) : W → Z * W;
  write (n : Z) : W → Z * W;
  pread (vp extent offset : Z) : W → (Z + Z) * W;
  pwrite (vp extent offset : Z) : W → (Z + Z) * W;
  mmap (addr extent prot mflags offset : Z) : W → (Z + Z) * W;
  munmap (addr extent : Z) : W → Z * W;
  malloc (size : Z) : W → (Z + Z) * W;
  free (vp : Z) : W → W;
  realloc (size : Z) : W → option Z * W;
  gettimeofday : W → (Z + timestampt) * W;
  xdr_prod_info (vp size : Z) : W → option (prod_info * Z);
  xdr_product (vp size : Z) (prod : product) : W → bool * W;
}.

Definition EIO : Z := 5.
Definition EAGAIN : Z := 11.
Definition EACCES : Z := 13.
Definition EINVAL : Z := 22.
Definition EFBIG : Z := 27.

Definition F_SETLK : Z := 6.
Definition F_SETLKW : Z := 7.
Definition F_RDLCK : Z := 0.
Definition F_WRLCK : Z := 1.
Definition F_UNLCK : Z := 2.

Definition PROT_READ : Z := 1.
Definition PROT_WRITE : Z := 2.
Definition MAP_SHARED : Z := 1.
Definition MAP_PRIVATE : Z := 2.
Definition MAP_FIXED : Z := 16.

(** ** Flags *)

Definition fIsSet (t f : Z) : bool := negb (Z.land t f =? 0).
Definition fMask (t f : Z) : Z := Z.ldiff t f.
Definition pIf (a b : bool) : bool := negb a || b.

Definition RGN_NOLOCK : Z := 1.
Definition RGN_NOWAIT : Z := 2.
Definition RGN_WRITE : Z := 4.
Definition RGN_MODIFIED : Z := RGN_WRITE.

Definition PQ_NOCLOBBER : Z := 1.
Definition PQ_READONLY : Z := 2.
Definition PQ_NOLOCK : Z := 4.
Definition PQ_PRIVATE : Z := 8.
Definition PQ_NOGROW : Z := 16.
Definition PQ_NOMAP : Z := 32.
Definition PQ_MAPRGNS : Z := 64.
Definition PQ_SPARSE : Z := 128.
Definition PQ_THREADSAFE : Z := 256.
Definition PQ_SIGSBLOCKED : Z := 4096.

Definition PQ_END : Z := -1.
Definition PQ_DUP : Z := -2.
Definition PQ_BIG : Z := -3.
Definition PQ_CORRUPT : Z := -6.

Definition M_RND_UNIT : Z := 8.
Definition MIN_RGN_SIZE : Z := M_RND_UNIT.

(** ** The control block and the queue object *)

Definition PQ_MAGIC : Z := 0x50515545.
Definition PQ_VERSION : Z := 7.

Record pqctl := Pqctl {
  ctl_magic : Z; ctl_version : Z; ctl_datao : Z; ctl_ixo : Z; ctl_ixsz : Z;
  ctl_nalloc : Z; ctl_align : Z;
  ctl_highwater : Z; ctl_maxproducts : Z; ctl_write_count : Z;
  ctl_mostRecent : timestampt; ctl_minVirtResTime : timestampt;
  ctl_isFull : bool; ctl_mvrtSize : Z; ctl_mvrtSlots : Z }.

(** Which pair of functions [ftom] and [mtof] point to. *)
Inductive access := Acc_f | Acc_mm | Acc_mm0.

#[global] Instance access_eq_dec : EqDecision access.
Proof. solve_decision. Defined.

(** What all processes share, in the file: the control block and the indexes. *)
Record shared := Shared {
  sh_ctl : pqctl; sh_fb : fb; sh_tq : tqueue; sh_rl : regionl; sh_sx : sx }.

(** The queue object of a process with the shared part, the static state of
    [fb_ranlev()] and the state of the system.  [pq_ctlp] and [pq_ixp] say
    whether the pointers to the control block and to the indexes are set. *)
Record pqueue (W : Type) := Pqueue {
  pq_pflags : Z; pq_pagesz : Z; pq_access : access; pq_datao : Z; pq_ixo : Z; pq_ixsz : Z;
  pq_nalloc : Z; pq_riul : riul; pq_base : Z; pq_ctlp : bool; pq_ixp : bool;
  pq_cursor : timestampt; pq_cursor_offset : Z; pq_pqe_count : Z; pq_locked_count : Z;
  pq_smallest : Z; pq_sh : shared; pq_rng : rng; pq_sys : W }.
Arguments Pqueue {W}.
Arguments pq_pflags {W} _.
Arguments pq_pagesz {W} _.
Arguments pq_access {W} _.
Arguments pq_datao {W} _.
Arguments pq_ixo {W} _.
Arguments pq_ixsz {W} _.
Arguments pq_nalloc {W} _.
Arguments pq_riul {W} _.
Arguments pq_base {W} _.
Arguments pq_ctlp {W} _.
Arguments pq_ixp {W} _.
Arguments pq_cursor {W} _.
Arguments pq_cursor_offset {W} _.
Arguments pq_pqe_count {W} _.
Arguments pq_locked_count {W} _.
Arguments pq_smallest {W} _.
Arguments pq_sh {W} _.
Arguments pq_rng {W} _.
Arguments pq_sys {W} _.

Section setters.
Context {W : Type} (q : pqueue W).
Definition set_pflags (f : Z) : pqueue W :=
  Pqueue f (pq_pagesz q) (pq_access q) (pq_datao q) (pq_ixo q) (pq_ixsz q) (pq_nalloc q)
    (pq_riul q) (pq_base q) (pq_ctlp q) (pq_ixp q) (pq_cursor q) (pq_cursor_offset q)
    (pq_pqe_count q) (pq_locked_count q) (pq_smallest q) (pq_sh q) (pq_rng q) (pq_sys q).
Definition set_access (a : access) : pqueue W :=
  Pqueue (pq_pflags q) (pq_pagesz q) a (pq_datao q) (pq_ixo q) (pq_ixsz q) (pq_nalloc q)
    (pq_riul q) (pq_base q) (pq_ctlp q) (pq_ixp q) (pq_cursor q) (pq_cursor_offset q)
    (pq_pqe_count q) (pq_locked_count q) (pq_smallest q) (pq_sh q) (pq_rng q) (pq_sys q).
Abbreviation build r b cp ip sm sh g w :=
  (Pqueue (pq_pflags q) (pq_pagesz q) (pq_access q) (pq_datao q) (pq_ixo q) (pq_ixsz q)
     (pq_nalloc q) r b cp ip (pq_cursor q) (pq_cursor_offset q) (pq_pqe_count q)
     (pq_locked_count q) sm sh g w).
Abbreviation r0 := (pq_riul q).
Abbreviation b0 := (pq_base q).
Abbreviation c0 := (pq_ctlp q).
Abbreviation i0 := (pq_ixp q).
Abbreviation m0 := (pq_smallest q).
Abbreviation s0 := (pq_sh q).
Abbreviation g0 := (pq_rng q).
Abbreviation w0 := (pq_sys q).
Definition set_riul (r : riul) : pqueue W := build r b0 c0 i0 m0 s0 g0 w0.
Definition set_base (b : Z) : pqueue W := build r0 b c0 i0 m0 s0 g0 w0.
Definition set_ctlp (b : bool) : pqueue W := build r0 b0 b i0 m0 s0 g0 w0.
Definition set_ixp (b : bool) : pqueue W := build r0 b0 c0 b m0 s0 g0 w0.
Definition set_smallest (z : Z) : pqueue W := build r0 b0 c0 i0 z s0 g0 w0.
Definition set_sh (s : shared) : pqueue W := build r0 b0 c0 i0 m0 s g0 w0.
Definition set_rng (g : rng) : pqueue W := build r0 b0 c0 i0 m0 s0 g w0.
Definition set_sys (w : W) : pqueue W := build r0 b0 c0 i0 m0 s0 g0 w.
End setters.

(** The parts of the shared state, seen through the queue. *)
Abbreviation pq_ctl q := (sh_ctl (pq_sh q)).
Abbreviation pq_fb q := (sh_fb (pq_sh q)).
Abbreviation pq_tq q := (sh_tq (pq_sh q)).
Abbreviation pq_rl q := (sh_rl (pq_sh q)).
Abbreviation pq_sx q := (sh_sx (pq_sh q)).

Section shared_setters.
Context {W : Type} (q : pqueue W).
Definition set_ctl (c : pqctl) : pqueue W :=
  set_sh q (Shared c (pq_fb q) (pq_tq q) (pq_rl q) (pq_sx q)).
Definition set_sx (s : sx) : pqueue W :=
  set_sh q (Shared (pq_ctl q) (pq_fb q) (pq_tq q) (pq_rl q) s).
Definition set_rl (rl : regionl) : pqueue W :=
  set_sh q (Shared (pq_ctl q) (pq_fb q) (pq_tq q) rl (pq_sx q)).
Definition set_tq_fb (tq : tqueue) (f : fb) : pqueue W :=
  set_sh q (Shared (pq_ctl q) f tq (pq_rl q) (pq_sx q)).
Definition set_rl_fb (rl : regionl) (f : fb) : pqueue W :=
  set_sh q (Shared (pq_ctl q) f (pq_tq q) rl (pq_sx q)).
End shared_setters.

Definition TOTAL_SIZE {W} (q : pqueue W) : Z := pq_ixo q + pq_ixsz q.

(** The assertions with which every access function begins. *)
Definition layout_ok {W} (q : pqueue W) : bool :=
  (0 <? pq_datao q) && (pq_datao q mod pq_pagesz q =? 0) && (pq_datao q <=? pq_ixo q) &&
  (pq_ixo q mod pq_pagesz q =? 0) && (pq_pagesz q <=? pq_ixsz q) &&
  (pq_ixsz q mod pq_pagesz q =? 0).

(** ... and those on the region that an [ftom()] is called with. *)
Definition ftom_args_ok {W} (q : pqueue W) (offset extent rflags : Z) : bool :=
  (0 <=? offset) && (offset <=? pq_ixo q) && negb (extent =? 0) && (extent <? TOTAL_SIZE q).

Section access.
Context {W : Type} {Sys : System W}.
Implicit Types q : pqueue W.

(** ** The file *)

Definition N_ZEROS_GROW : Z := 8192.
Definition zsize : Z := N_ZEROS_GROW * 4.

(** The loop that fills with zeros. *)
Fixpoint fgrow_loop (fuel : nat) (ii len : Z) (w : W) : res (Z * W) :=
  match fuel with
  | O => Err OutOfFuel
  | S fuel =>
      if ii <? len then
        let '(e, w) := write zsize w in
        if e =? 0 then fgrow_loop fuel (ii + zsize) len w else Ok (e, w)
      else Ok (0, w)
  end.

Definition fgrow (len : Z) (sparse : bool) (w : W) : res (Z * W) :=
  let '(sb, w) := fstat w in
  match sb with
  | inl e => Ok (e, w)
  | inr st_size =>
      if len <? st_size then Ok (0, w)
      else if sparse then Ok (ftruncate len w)
      else
        let '(e, w) := lseek st_size w in
        if negb (e =? 0) then Ok (e, w) else
        let '(e, w) := write ((len - st_size) mod zsize) w in
        if negb (e =? 0) then Ok (e, w) else
        fgrow_loop (S (Z.to_nat ((len - st_size) / zsize)))
          (st_size + (len - st_size) mod zsize) len w
  end.

(** [EDEADLK] is logged with the id of the conflicting process, nothing else. *)
Definition fd_lock q (cmd l_type offset extent : Z) : Z * pqueue W :=
  let '(e, w) := fcntl cmd l_type offset extent (pq_sys q) in
  (if e =? EAGAIN then EACCES else e, set_sys q w).

Definition mapwrap q (offset extent prot mflags ptr : Z) : (Z + Z) * pqueue W :=
  let '(r, w) := mmap ptr extent prot mflags offset (pq_sys q) in (r, set_sys q w).

Definition unmapwrap q (ptr extent : Z) : Z * pqueue W :=
  let '(e, w) := munmap ptr extent (pq_sys q) in (e, set_sys q w).

(** ** Regions reserved by the process *)

Definition rgn2_lock q (offset extent rflags : Z) : res (Z * pqueue W) :=
  assert! (if (offset =? pq_ixo q) && (extent =? pq_ixsz q)
           then fIsSet rflags RGN_NOLOCK else negb (fIsSet rflags RGN_NOLOCK)) in
  if fIsSet rflags RGN_NOLOCK || fIsSet (pq_pflags q) PQ_NOLOCK then Ok (0, q)
  else Ok (fd_lock q (if fIsSet rflags RGN_NOWAIT then F_SETLK else F_SETLKW)
             (if fIsSet rflags RGN_WRITE then F_WRLCK else F_RDLCK) offset extent).

Definition rgn2_unlock q (offset extent rflags : Z) : res (Z * pqueue W) :=
  assert! pIf ((offset =? pq_ixo q) && (extent =? pq_ixsz q)) (fIsSet rflags RGN_NOLOCK) in
  if fIsSet rflags RGN_NOLOCK || fIsSet (pq_pflags q) PQ_NOLOCK then Ok (0, q)
  else Ok (fd_lock q F_SETLK F_UNLCK offset extent).

(** The index of the new element of the list comes with the status. *)
Definition rgn2_reserve q (offset extent rflags vp : Z) : res (Z * option Z * pqueue W) :=
  let! found := riul_find (pq_riul q) offset in
  match found with
  | Some _ => Ok (EACCES, None, q)
  | None =>
      let! '(status, q) := rgn2_lock q offset extent rflags in
      if status =? EACCES then Ok (EACCES, None, q)
      else if status =? EAGAIN then Ok (EACCES, None, q)
      else if negb (status =? 0) then Ok (status, None, q)
      else
        let! space := riul_HasSpace (pq_riul q) in
        let '(mem, w) := if space then (None, pq_sys q)
                         else realloc (u64 (rul_sz (pq_riul q) + pq_pagesz q)) (pq_sys q) in
        let! '(status, rl, rpp) := riul_add (pq_riul q) (pq_pagesz q) offset extent vp rflags mem in
        let q := set_riul (set_sys q w) rl in
        if negb (status =? 0) then
          let! '(_, q) := rgn2_unlock q offset extent (fMask rflags (Z.lor RGN_MODIFIED RGN_NOWAIT)) in
          Ok (status, None, q)
        else Ok (0, rpp, q)
  end.

Definition rgn2_release q (offset rflags : Z) : res (Z * pqueue W) :=
  let! '(found, rp) := riul_r_find (pq_riul q) offset in
  if negb found then Ok (EINVAL, q)
  else
    let! r := rdl (rul_rp (pq_riul q)) rp in
    assert! ru_offset r =? offset in
    assert! (0 <? ru_extent r) && (ru_extent r <? TOTAL_SIZE q) in
    assert! (pq_base q =? 0) || (negb (ru_vp r =? 0) && (pq_base q <=? ru_vp r) &&
                                 (ru_vp r <=? pq_base q + pq_ixo q)) in
    assert! pIf (fIsSet rflags RGN_MODIFIED) (fIsSet (ru_rflags r) RGN_WRITE) in
    assert! eqb (fIsSet rflags RGN_NOLOCK) (fIsSet (ru_rflags r) RGN_NOLOCK) in
    let! rl := riul_delete (pq_riul q) rp in
    rgn2_unlock (set_riul q rl) offset (ru_extent r) rflags.

(** [rp->vp = vp] *)
Definition riul_set_vp (rl : riul) (rp vp : Z) : res riul :=
  let! r := rdl (rul_rp rl) rp in
  let! l := wrl (rul_rp rl) rp (Riu (ru_offset r) (ru_extent r) vp (ru_rflags r)) in
  Ok (Riul (rul_sz rl) (rul_nalloc rl) (rul_nelems rl) (rul_maxelems rl) l).

(** ** Access with [pread()] and [pwrite()] *)

(** The pointer to the region comes with the status. *)
Definition f_ftom q (offset extent rflags : Z) : res (Z * Z * pqueue W) :=
  assert! layout_ok q in
  assert! ftom_args_ok q offset extent rflags in
  assert! pIf (fIsSet rflags RGN_WRITE) (negb (fIsSet (pq_pflags q) PQ_READONLY)) in
  let! '(status, rp, q) := rgn2_reserve q offset extent rflags 0 in
  match rp with
  | None => Ok (status, 0, q)
  | Some rp =>
      let '(m, w) := malloc extent (pq_sys q) in
      let q := set_sys q w in
      match m with
      | inl errno =>
          let! '(_, q) := rgn2_release q offset rflags in Ok (errno, 0, q)
      | inr vp =>
          let! rl := riul_set_vp (pq_riul q) rp vp in
          let q := set_riul q rl in
          let '(n, w) := pread vp extent offset (pq_sys q) in
          let q := set_sys q w in
          let status := match n with
                        | inl errno => errno
                        | inr nread => if (nread =? 0) || (nread =? extent) then 0 else EIO
                        end in
          if status =? 0 then Ok (0, vp, q)
          else
            let q := set_sys q (free vp (pq_sys q)) in
            let! '(_, q) := rgn2_release q offset rflags in Ok (status, 0, q)
      end
  end.

Definition f_mtof q (offset rflags : Z) : res (Z * pqueue W) :=
  assert! layout_ok q in
  assert! pIf (fIsSet rflags RGN_MODIFIED) (negb (fIsSet (pq_pflags q) PQ_READONLY)) in
  let! '(found, rp) := riul_r_find (pq_riul q) offset in
  if negb found then Ok (EINVAL, q)
  else
    let! r := rdl (rul_rp (pq_riul q)) rp in
    assert! negb (ru_vp r =? 0) in
    let! '(status, q) :=
      if negb (fIsSet rflags RGN_MODIFIED) then Ok (0, q)
      else
        let '(n, w) := pwrite (ru_vp r) (ru_extent r) offset (pq_sys q) in
        Ok (match n with
            | inl errno => errno
            | inr nwrote => if nwrote =? ru_extent r then 0 else EIO
            end, set_sys q w) in
    let! '(_, q) := rgn2_release q offset rflags in
    Ok (status, set_sys q (free (ru_vp r) (pq_sys q))).

(** ** Access by mapping each region *)

Definition mm_ftom q (offset extent rflags : Z) : res (Z * Z * pqueue W) :=
  let mflags := if fIsSet (pq_pflags q) PQ_PRIVATE then MAP_PRIVATE else MAP_SHARED in
  let prot := if fIsSet (pq_pflags q) PQ_READONLY && negb (fIsSet rflags RGN_WRITE)
              then PROT_READ else Z.lor PROT_READ PROT_WRITE in
  let rem := offset mod pq_pagesz q in
  let pagext := RNDUP (rem + extent) (pq_pagesz q) in
  assert! layout_ok q in
  assert! ftom_args_ok q offset extent rflags in
  assert! pIf (fIsSet rflags RGN_WRITE) (negb (fIsSet (pq_pflags q) PQ_READONLY)) in
  let! '(status, rp, q) := rgn2_reserve q offset extent rflags 0 in
  match rp with
  | None => Ok (status, 0, q)
  | Some rp =>
      let! '(status, q) :=
        if fIsSet prot PROT_WRITE then
          let! '(e, w) := fgrow (offset + extent) (fIsSet (pq_pflags q) PQ_SPARSE) (pq_sys q) in
          Ok (e, set_sys q w)
        else Ok (0, q) in
      let! '(status, vp, q) :=
        if status =? 0 then
          assert! (offset - rem) mod pq_pagesz q =? 0 in
          assert! pagext mod pq_pagesz q =? 0 in
          let '(m, q) := mapwrap q (offset - rem) pagext prot mflags 0 in
          match m with
          | inl e => Ok (e, 0, q)
          | inr vp =>
              let vp := vp + rem in
              let! rl := riul_set_vp (pq_riul q) rp vp in
              Ok (0, vp, set_riul q rl)
          end
        else Ok (status, 0, q) in
      if status =? 0 then Ok (0, vp, q)
      else let! '(_, q) := rgn2_release q offset rflags in Ok (status, 0, q)
  end.

Definition mm_mtof q (offset rflags : Z) : res (Z * pqueue W) :=
  assert! layout_ok q in
  assert! pIf (fIsSet rflags RGN_MODIFIED) (negb (fIsSet (pq_pflags q) PQ_READONLY)) in
  let! '(found, rp) := riul_r_find (pq_riul q) offset in
  if negb found then Ok (EINVAL, q)
  else
    let! r := rdl (rul_rp (pq_riul q)) rp in
    assert! negb (ru_vp r =? 0) in
    let rem := offset mod pq_pagesz q in
    let '(status, q) :=
      if rem =? 0 then unmapwrap q (ru_vp r) (ru_extent r)
      else unmapwrap q (ru_vp r - rem) (RNDUP (rem + ru_extent r) (pq_pagesz q)) in
    if negb (status =? 0) then Ok (status, q) else rgn2_release q offset rflags.

(** ** Access by mapping the file *)

Definition mm0_map q : res (Z * pqueue W) :=
  let st_size := TOTAL_SIZE q in
  assert! 0 <=? st_size in
  let mflags := if fIsSet (pq_pflags q) PQ_PRIVATE then MAP_PRIVATE else MAP_SHARED in
  let prot := if fIsSet (pq_pflags q) PQ_READONLY then PROT_READ else Z.lor PROT_READ PROT_WRITE in
  let '(sb, w) := fstat (pq_sys q) in
  match sb with
  | inl errno => Ok (errno, set_sys q w)
  | inr sb_size =>
      let! '(status, st_size, w) :=
        if st_size <? sb_size then Ok (0, sb_size, w)
        else if negb (fIsSet (pq_pflags q) PQ_READONLY) then
          let! '(e, w) := fgrow st_size (fIsSet (pq_pflags q) PQ_SPARSE) w in Ok (e, st_size, w)
        else Ok (0, st_size, w) in
      let q := set_sys q w in
      if negb (status =? 0) then Ok (status, q)
      else
        let mflags := if negb (pq_base q =? 0) then Z.lor mflags MAP_FIXED else mflags in
        if MAX_SIZE_T <? st_size then Ok (EFBIG, set_base q 0)
        else
          let '(m, q) := mapwrap q 0 st_size prot mflags (pq_base q) in
          match m with
          | inl e => assert! negb (e =? EACCES) in Ok (e, set_base q 0)
          | inr vp =>
              assert! negb (vp =? 0) in
              assert! pIf (negb (pq_base q =? 0)) (pq_base q =? vp) in
              Ok (0, set_base q vp)
          end
  end.

Definition mm0_ftom q (offset extent rflags : Z) : res (Z * Z * pqueue W) :=
  assert! layout_ok q in
  assert! ftom_args_ok q offset extent rflags in
  assert! pIf (fIsSet rflags RGN_WRITE) (negb (fIsSet (pq_pflags q) PQ_READONLY)) in
  let! '(status, q) := if pq_base q =? 0 then mm0_map q else Ok (0, q) in
  if negb (status =? 0) then Ok (status, 0, q)
  else
    let vp := pq_base q + offset in
    let! '(status, _, q) := rgn2_reserve q offset extent rflags vp in
    Ok (status, if status =? 0 then vp else 0, q).

Definition mm0_mtof q (offset rflags : Z) : res (Z * pqueue W) :=
  assert! layout_ok q in
  assert! pIf (fIsSet rflags RGN_MODIFIED) (negb (fIsSet (pq_pflags q) PQ_READONLY)) in
  rgn2_release q offset rflags.

(** ** The access functions of the queue *)

Definition isProductMappingNecessary q : bool := MAX_SIZE_T <? TOTAL_SIZE q.

Definition ctl_setAccessFunctions q : access :=
  if fIsSet (pq_pflags q) PQ_NOMAP then Acc_f
  else if fIsSet (pq_pflags q) PQ_MAPRGNS || isProductMappingNecessary q then Acc_mm
  else Acc_mm0.

Definition ftom q : Z → Z → Z → res (Z * Z * pqueue W) :=
  match pq_access q with Acc_f => f_ftom q | Acc_mm => mm_ftom q | Acc_mm0 => mm0_ftom q end.

Definition mtof q : Z → Z → res (Z * pqueue W) :=
  match pq_access q with Acc_f => f_mtof q | Acc_mm => mm_mtof q | Acc_mm0 => mm0_mtof q end.

Definition rgn_rel q (offset rflags : Z) : res (Z * pqueue W) :=
  assert! (pq_datao q <=? offset) && (offset <? pq_ixo q) in
  mtof q offset rflags.

Definition rgn_get q (offset extent rflags : Z) : res (Z * Z * pqueue W) :=
  assert! (pq_datao q <=? offset) && (offset <? pq_ixo q) in
  assert! (MIN_RGN_SIZE <=? extent) && (extent <=? pq_ixo q - pq_datao q) in
  assert! rul_nelems (pq_riul q) <=? rl_nelems (pq_rl q) + 1 in
  ftom q offset extent rflags.
End access.
