(* ===== verification/Xlen.v ===== *)
(** * The size of an encoded product (src/protocol2/ldm_xlen.c)

    How many bytes a product takes when it is encoded with XDR (RFC 4506) as
    src/protocol/ldm.x declares it; [pq_insertNoSig()] reserves that many. *)

From stdpp Require Import strings.
From S2P Require Import Prelude Timestamp SigIndex PqCore.

Definition BYTES_PER_XDR_UNIT : Z := 4.

Definition strlen (s : string) : Z := Z.of_nat (String.length s).

(** The padding to a multiple of four. *)
Definition xpad (len : Z) : Z :=
  let rndup := len mod BYTES_PER_XDR_UNIT in
  if negb (rndup =? 0) then BYTES_PER_XDR_UNIT - rndup else 0.

Definition xlen_string (str : string) : Z :=
  let len := u64 (4 + strlen str) in u64 (len + xpad len).

Definition xlen_prod_info (info : prod_info) : Z :=
  let len := (4 + 4) + 16 + 4 + 4 + 4 in
  let len := u64 (len + xlen_string (pi_origin info)) in
  u64 (len + xlen_string (pi_ident info)).

Definition xlen_dbuf (dbuf_len : Z) : Z :=
  let len := u64 (dbuf_len + 4) in u64 (len + xpad len).

Definition xlen_prod_i (info : prod_info) : Z :=
  let len := u64 (xlen_prod_info info + pi_sz info) in
  u64 (len + xpad (pi_sz info)).

Definition xlen_product (prod : product) : Z := xlen_prod_i (p_info prod).

(** ** The encoding *)

(** A 32-bit integer, most significant byte first. *)
Definition enc_int (z : Z) : list Z :=
  [Z.shiftr z 24 mod 256; Z.shiftr z 16 mod 256; Z.shiftr z 8 mod 256; z mod 256].

(** Bytes with padding. *)
Definition enc_opaque (l : list Z) : list Z :=
  l ++ replicate (Z.to_nat (xpad (Z.of_nat (length l)))) 0.

Fixpoint bytes_of (s : string) : list Z :=
  match s with
  | String.EmptyString => []
  | String.String c s => Z.of_N (Ascii.N_of_ascii c) :: bytes_of s
  end.

(** Counted bytes. *)
Definition enc_bytes (l : list Z) : list Z := enc_int (Z.of_nat (length l)) ++ enc_opaque l.

(** [prod_info] of src/protocol/ldm.x, field by field. *)
Definition enc_prod_info (info : prod_info) : list Z :=
  enc_int (tv_sec (pi_arrival info)) ++ enc_int (tv_usec (pi_arrival info)) ++
  enc_opaque (pi_signature info) ++ enc_bytes (bytes_of (pi_origin info)) ++
  enc_int (pi_feedtype info) ++ enc_int (pi_seqno info) ++
  enc_bytes (bytes_of (pi_ident info)) ++ enc_int (pi_sz info).

(** A product: the metadata and the data, whose size the metadata has. *)
Definition enc_product (prod : product) : list Z :=
  enc_prod_info (p_info prod) ++ enc_opaque (p_data prod).

(** ** Lemmas *)

(** Sums that do not wrap, innermost first. *)
Ltac u64_norm :=
  repeat match goal with
    |- context [u64 ?x] =>
      lazymatch x with context [u64 _] => fail | _ => rewrite (u64_small x) by lia end
    end.

Lemma length_bytes_of s : length (bytes_of s) = String.length s.
Proof. induction s as [|c s IH]; simpl; [done|by f_equal]. Qed.

Lemma xpad_range len : 0 ≤ xpad len < 4 ∧ (0 ≤ len → (4 | len + xpad len)).
Proof.
  unfold xpad, BYTES_PER_XDR_UNIT. pose proof (Z.mod_pos_bound len 4 ltac:(lia)).
  pose proof (Z.div_mod len 4 ltac:(lia)). case_match eqn:Hz; split; try lia; intros _.
  - exists (len / 4 + 1). lia.
  - exists (len / 4). lia.
Qed.

Lemma xpad_4 len : xpad (4 + len) = xpad len.
Proof.
  unfold xpad, BYTES_PER_XDR_UNIT. replace (4 + len) with (len + 1 * 4) by lia. by rewrite Z.mod_add by lia.
Qed.

Lemma length_enc_opaque l : Z.of_nat (length (enc_opaque l)) = Z.of_nat (length l) + xpad (Z.of_nat (length l)).
Proof.
  unfold enc_opaque. rewrite length_app, length_replicate. pose proof (xpad_range (Z.of_nat (length l))). lia.
Qed.

Lemma xlen_string_enc s :
  strlen s < 2 ^ 32 → xlen_string s = Z.of_nat (length (enc_bytes (bytes_of s))).
Proof.
  intros Hs. unfold enc_bytes. rewrite length_app, Nat2Z.inj_add, length_enc_opaque, length_bytes_of.
  unfold xlen_string, strlen in *. pose proof (xpad_range (Z.of_nat (String.length s))).
  rewrite (u64_small (4 + _)), xpad_4, u64_small by lia. simpl length. lia.
Qed.

(** What every product satisfies: the strings are bounded by the protocol, the
    signature has 16 bytes and the size is that of the data. *)
Record product_ok (p : product) : Prop := {
  po_origin : strlen (pi_origin (p_info p)) ≤ 64;
  po_ident : strlen (pi_ident (p_info p)) ≤ 255;
  po_sig : length (pi_signature (p_info p)) = 16%nat;
  po_sz : pi_sz (p_info p) = Z.of_nat (length (p_data p)) ∧ pi_sz (p_info p) < 2 ^ 32;
}.

Lemma xlen_product_enc p :
  product_ok p → xlen_product p = Z.of_nat (length (enc_product p)).
Proof.
  intros [Ho Hi Hs [Hz Hz2]]. unfold xlen_product, xlen_prod_i, xlen_prod_info, enc_product, enc_prod_info.
  rewrite !length_app, !Nat2Z.inj_add, !length_enc_opaque, Hs, <- Hz.
  rewrite !xlen_string_enc by lia. unfold enc_bytes. rewrite !length_app, !Nat2Z.inj_add, !length_enc_opaque.
  rewrite !length_bytes_of. fold (strlen (pi_origin (p_info p))) (strlen (pi_ident (p_info p))).
  pose proof (xpad_range (strlen (pi_origin (p_info p)))). pose proof (xpad_range (strlen (pi_ident (p_info p)))).
  pose proof (xpad_range (pi_sz (p_info p))).
  unfold strlen in *. simpl (length (enc_int _)). u64_norm.
  change (xpad (Z.of_nat 16)) with 0. lia.
Qed.

Lemma xlen_product_range p :
  product_ok p → 0 < xlen_product p < 2 ^ 33 ∧ (4 | xlen_product p).
Proof.
  intros Hp. pose proof Hp as [Ho Hi Hs [Hz Hz2]]. rewrite (xlen_product_enc p Hp).
  unfold enc_product, enc_prod_info, enc_bytes.
  rewrite !length_app, !Nat2Z.inj_add, !length_enc_opaque, !length_bytes_of, Hs, <- Hz.
  pose proof (xpad_range (strlen (pi_origin (p_info p)))) as [? Hd1].
  pose proof (xpad_range (strlen (pi_ident (p_info p)))) as [? Hd2].
  pose proof (xpad_range (pi_sz (p_info p))) as [? Hd3].
  unfold strlen in *. simpl (length (enc_int _)). change (xpad (Z.of_nat 16)) with 0. split; [lia|].
  destruct Hd1 as [a Ha], Hd2 as [b Hb], Hd3 as [c Hc]; [lia..|]. exists (a + b + c + 11). lia.
Qed.

(** The metadata is followed by the data and its padding. *)
Lemma xlen_product_parts p :
  product_ok p →
  xlen_prod_info (p_info p) = Z.of_nat (length (enc_prod_info (p_info p))) ∧
  xlen_product p = xlen_prod_info (p_info p) + (pi_sz (p_info p) + xpad (pi_sz (p_info p))).
Proof.
  intros Hp. pose proof Hp as [Ho Hi Hs [Hz Hz2]].
  assert (xlen_prod_info (p_info p) = Z.of_nat (length (enc_prod_info (p_info p)))) as He.
  { unfold xlen_prod_info, enc_prod_info. rewrite !length_app, !Nat2Z.inj_add, !length_enc_opaque, Hs.
    rewrite !xlen_string_enc by lia. unfold enc_bytes. rewrite !length_app, !Nat2Z.inj_add, !length_enc_opaque.
    rewrite !length_bytes_of. fold (strlen (pi_origin (p_info p))) (strlen (pi_ident (p_info p))).
    pose proof (xpad_range (strlen (pi_origin (p_info p)))). pose proof (xpad_range (strlen (pi_ident (p_info p)))).
    unfold strlen in *. simpl (length (enc_int _)). u64_norm. change (xpad (Z.of_nat 16)) with 0. lia. }
  split; [exact He|]. rewrite He, (xlen_product_enc p Hp). unfold enc_product.
  by rewrite length_app, Nat2Z.inj_add, length_enc_opaque, <- Hz.
Qed.

(** ** Properties *)

(** C30: [xlen_product()] is the length of the XDR encoding of the product, a multiple
    of four: what [pq_insertNoSig()] reserves is exactly what is written. *)
Theorem xlen_product_correct p :
  product_ok p → xlen_product p = Z.of_nat (length (enc_product p)) ∧ (4 | xlen_product p).
Proof. intros Hp. split; [by apply xlen_product_enc|by apply xlen_product_range]. Qed.

Definition ex_info : prod_info :=
  ProdInfo (Timestamp 1700000000 5) (replicate 16 7) "host.edu"%string 1 2 "SAUS41 KWBC"%string 3.
Definition ex_product : product := Product ex_info [65; 66; 67].

Lemma ex_product_ok : product_ok ex_product.
Proof. split; vm_compute; done. Qed.

Lemma xlen_product_correct_witness :
  xlen_product ex_product = Z.of_nat (length (enc_product ex_product)) ∧ (4 | xlen_product ex_product).
Proof. exact (xlen_product_correct ex_product ex_product_ok). Defined.
