(* ===== verification/AutoShift.v ===== *)
(** * Automatic shifting of the receive-mode (src/protocol2/autoshift.c)

    Several downstream LDM processes can receive the same products from different
    hosts.  One of them is in primary mode (its upstream sends whole products), the
    others are asked about every product first.  A process keeps the recent
    outcomes of its insertions in a queue and decides from them whether to switch
    its mode. *)

From S2P Require Import Prelude Timestamp NumTheory Fb SkipList TimeQueue RegionList SigIndex Riul PqCore.

Definition ENOSYS : Z := 38.

(** ** The queue module

    Elements are allocated; [q_brk] is the address of the next one. *)

Section queue.
Context {A : Type}.

Record queue := Queue {
  q_elts : gmap Z (A * option Z); q_head : option Z; q_tail : option Z; q_brk : Z }.

Definition q_empty : queue := Queue ∅ None None 0.

(** [data] is [None] for a null pointer; [mem] says whether there is memory. *)
Definition q_add (q : queue) (data : option A) (mem : bool) : res (Z * queue) :=
  match data with
  | None => Ok (EINVAL, q)
  | Some d =>
      if negb mem then Ok (ENOMEM, q)
      else
        let elt := q_brk q in
        let elts := <[elt := (d, None)]> (q_elts q) in
        let head := match q_head q with None => Some elt | Some h => Some h end in
        let! elts := match q_tail q with
                     | None => Ok elts
                     | Some t => let! '(td, _) := rd elts t in wr elts t (td, Some elt)
                     end in
        Ok (0, Queue elts head (Some elt) (elt + 1))
  end.

Definition q_removeHead (q : queue) : res (option A * queue) :=
  match q_head q with
  | None => Ok (None, q)
  | Some h =>
      let! '(data, newHead) := rd (q_elts q) h in
      Ok (Some data, Queue (delete h (q_elts q)) newHead
                       (match newHead with None => None | Some _ => q_tail q end) (q_brk q))
  end.

(** The data-object behind a pointer of [q_getHead()] or [q_getNext()]. *)
Definition q_data (q : queue) (ptr : Z) : res A := let! '(d, _) := rd (q_elts q) ptr in Ok d.
Definition q_getNext (q : queue) (ptr : Z) : res (option Z) := let! '(_, n) := rd (q_elts q) ptr in Ok n.

(** How often a loop over the queue can run. *)
Definition q_fuel (q : queue) : nat := S (size (q_elts q)).

(** *** The queue holds a list

    The addresses of the elements with their data, in order, from the pointer [h]. *)
Fixpoint chain (elts : gmap Z (A * option Z)) (h : option Z) (pl : list (Z * A)) : Prop :=
  match pl with
  | [] => h = None
  | (p, d) :: pl => h = Some p ∧ ∃ n, elts !! p = Some (d, n) ∧ chain elts n pl
  end.

Record q_chain (q : queue) (pl : list (Z * A)) : Prop := {
  qc_chain : chain (q_elts q) (q_head q) pl;
  qc_nodup : NoDup pl.*1;
  qc_tail : q_tail q = last pl.*1;
  qc_dom : dom (q_elts q) = list_to_set pl.*1;
  qc_brk p : p ∈ pl.*1 → p < q_brk q;
}.

Definition q_rep (q : queue) (l : list A) : Prop := ∃ pl, q_chain q pl ∧ l = pl.*2.

Lemma q_rep_empty : q_rep q_empty [].
Proof. exists []. split; [|done]. split; try done; [constructor|]. by intros p ?%elem_of_nil. Qed.

Lemma chain_ext elts elts' h pl :
  (∀ p, p ∈ pl.*1 → elts' !! p = elts !! p) → chain elts h pl → chain elts' h pl.
Proof.
  revert h. induction pl as [|[p d] pl IH]; intros h Hp; simpl; [done|]. intros (-> & n & Hn & Hc).
  split; [done|]. exists n. rewrite Hp by (simpl; constructor). split; [done|].
  apply IH; [|done]. intros p' Hp'. apply Hp. simpl. by constructor.
Qed.

Lemma chain_snoc elts h pl t td e d :
  chain elts h (pl ++ [(t, td)]) → NoDup (pl ++ [(t, td)]).*1 → e ∉ (pl ++ [(t, td)]).*1 →
  chain (<[t := (td, Some e)]> (<[e := (d, None)]> elts)) h ((pl ++ [(t, td)]) ++ [(e, d)]).
Proof.
  revert h. induction pl as [|[p x] pl IH]; intros h Hc Hnd He; simpl in *.
  - destruct Hc as (-> & n & Ht & ->). rewrite elem_of_cons in He. split; [done|]. exists (Some e).
    rewrite lookup_insert_eq. split; [done|]. split; [done|]. exists None.
    rewrite lookup_insert_ne, lookup_insert_eq by naive_solver. done.
  - destruct Hc as (-> & n & Hp & Hc). apply NoDup_cons in Hnd as [Hp1 Hnd]. split; [done|].
    exists n. rewrite fmap_app in *. simpl in *. rewrite not_elem_of_cons in He. destruct He as [He1 He2].
    assert (p ≠ t) by (intros ->; apply Hp1; set_solver).
    rewrite !lookup_insert_ne by done. split; [done|]. by apply IH.
Qed.

Lemma chain_last elts h pl t td :
  chain elts h (pl ++ [(t, td)]) → ∃ n, elts !! t = Some (td, n).
Proof.
  revert h. induction pl as [|[p x] pl IH]; intros h; simpl; [|intros (_ & n & _ & Hc); by eapply IH].
  intros (_ & n & Ht & _). by exists n.
Qed.

(** Adding appends. *)
Lemma q_add_spec q l d :
  q_rep q l → ∃ q', q_add q (Some d) true = Ok (0, q') ∧ q_rep q' (l ++ [d]).
Proof.
  intros (pl & [Hc Hnd Ht Hdom Hbrk] & ->). unfold q_add. simpl negb. cbv iota. set (e := q_brk q) in *.
  assert (e ∉ pl.*1) as He by (intros H%Hbrk; lia).
  assert (∀ p, p ∈ (pl ++ [(e, d)]).*1 → p < e + 1) as Hb.
  { intros p. rewrite fmap_app, elem_of_app. simpl. intros [Hp%Hbrk|Hp]; [lia|]. apply list_elem_of_singleton in Hp as ->. lia. }
  assert (NoDup (pl ++ [(e, d)]).*1) as Hnd2.
  { rewrite fmap_app. apply NoDup_app. split; [done|]. split; [|apply NoDup_singleton].
    intros p Hp. simpl. rewrite list_elem_of_singleton. by intros ->. }
  assert ((pl ++ [(e, d)]).*2 = pl.*2 ++ [d]) as <- by by rewrite fmap_app.
  destruct pl as [|[t td] pl _] using rev_ind.
  - simpl in *. rewrite Ht, Hc. cbn [last head]. rewrite bind_Ok. eexists. split; [done|]. exists [(e, d)]. split; [|done].
    split; simpl; try done.
    + split; [done|]. exists None. by rewrite lookup_insert_eq.
    + rewrite dom_insert_L, Hdom. set_solver.
  - rewrite Ht, fmap_app. cbn [fmap list_fmap]. simpl. rewrite last_snoc.
    destruct (chain_last _ _ _ _ _ Hc) as [n Hn]. rewrite fmap_app in He. simpl in He.
    assert (t ≠ e) as Hte by set_solver. unfold wr. rewrite (rd_Ok _ t (td, n)) by by rewrite lookup_insert_ne.
    rewrite bind_Ok. rewrite lookup_insert_ne, Hn, bind_Ok by done.
    eexists. split; [done|]. exists ((pl ++ [(t, td)]) ++ [(e, d)]). split; [|done]. split; simpl; [|done| |..]; try done.
    + replace (match q_head q with None => Some e | Some h => Some h end) with (q_head q).
      * apply chain_snoc; [done|done|]. by rewrite fmap_app.
      * destruct pl as [|[p x] pl]; simpl in Hc; by destruct Hc as (-> & _).
    + rewrite !fmap_app. simpl. by rewrite last_snoc.
    + rewrite !dom_insert_L, Hdom, !fmap_app, !list_to_set_app_L. simpl. set_solver.
Qed.

(** Removing takes the oldest. *)
Lemma q_removeHead_spec q d l :
  q_rep q (d :: l) → ∃ q', q_removeHead q = Ok (Some d, q') ∧ q_rep q' l.
Proof.
  intros ([|[p x] pl] & [Hc Hnd Ht Hdom Hbrk] & Hl); [done|]. injection Hl as <- ->.
  destruct Hc as (Hh & n & Hn & Hc). unfold q_removeHead. rewrite Hh, (rd_Ok _ _ _ Hn), bind_Ok.
  eexists. split; [done|]. exists pl. split; [|done]. simpl in Hnd. apply NoDup_cons in Hnd as [Hp Hnd].
  split; simpl; [|done|..].
  - apply (chain_ext (q_elts q)); [|done]. intros p' Hp'. apply lookup_delete_ne. by intros ->.
  - destruct pl as [|[p' x'] pl]; simpl in Hc; [by rewrite Hc|]. destruct Hc as (-> & _). by rewrite Ht.
  - rewrite dom_delete_L, Hdom. simpl. set_solver.
  - intros p' Hp'. apply Hbrk. simpl. by constructor.
Qed.

Lemma q_rep_head q l : q_rep q l → match l with [] => q_head q = None | d :: _ => ∃ p, q_head q = Some p ∧ q_data q p = Ok d end.
Proof.
  intros ([|[p x] pl] & [Hc _ _ _ _] & ->); simpl; [done|]. destruct Hc as (Hh & n & Hn & _).
  exists p. split; [done|]. unfold q_data. by rewrite (rd_Ok _ _ _ Hn).
Qed.

Lemma q_rep_fuel q l : q_rep q l → q_fuel q = S (length l).
Proof.
  intros (pl & [_ Hnd _ Hdom _] & ->). unfold q_fuel. f_equal.
  rewrite <- size_dom, Hdom, size_list_to_set by done. by rewrite !length_fmap.
Qed.
End queue.
Arguments queue A : clear implicits.

(** ** The statistics module

    An [int] that is a truth value is a [bool].  The variable [interval] of
    src/registry/globals.c is an argument. *)

Record Entry := Entry_ { e_time : timestampt; e_wasAccepted : bool }.

Record autoshift := Autoshift {
  as_q : queue Entry; s_prevCompTime : timestampt; s_ldmCount : Z; s_primary : bool; s_switch : bool }.

(** The initial values of the variables. *)
Definition as_start : autoshift := Autoshift q_empty TS_ZERO 1 true false.

Section statistics.
Context {W : Type} {Sys : System W}.

Definition getTime (w : W) : res (timestampt * W) :=
  let '(clk, w) := gettimeofday w in
  match clk with inl _ => Err AssertFail | inr now => Ok (now, w) end.

Definition s_getSwitch (a : autoshift) : bool := s_switch a.

(** The loop that frees every entry. *)
Fixpoint s_reset_loop (fuel : nat) (q : queue Entry) : res (queue Entry) :=
  match fuel with
  | O => Err OutOfFuel
  | S fuel =>
      match q_head q with
      | None => Ok q
      | Some _ => let! '(_, q) := q_removeHead q in s_reset_loop fuel q
      end
  end.

Definition s_reset (a : autoshift) (w : W) : res (autoshift * W) :=
  let! '(now, w) := getTime w in
  let! q := s_reset_loop (q_fuel (as_q a)) (as_q a) in
  Ok (Autoshift q now (s_ldmCount a) (s_primary a) false, w).

(** The loop that frees the entries that are too old. *)
Fixpoint s_purge_loop (fuel : nat) (q : queue Entry) (prev : timestampt) : res (queue Entry) :=
  match fuel with
  | O => Err OutOfFuel
  | S fuel =>
      match q_head q with
      | None => Ok q
      | Some elt =>
          let! e := q_data q elt in
          if TV_CMP_LT prev (e_time e) then Ok q
          else let! '(_, q) := q_removeHead q in s_purge_loop fuel q prev
      end
  end.

(** The numbers of entries that were accepted and rejected, from the pointer [elt]. *)
Fixpoint s_count_loop (fuel : nat) (q : queue Entry) (elt : option Z) (acc rej : Z) : res (Z * Z) :=
  match fuel with
  | O => Err OutOfFuel
  | S fuel =>
      match elt with
      | None => Ok (acc, rej)
      | Some p =>
          let! e := q_data q p in
          let! n := q_getNext q p in
          if e_wasAccepted e then s_count_loop fuel q n (u32 (acc + 1)) rej
          else s_count_loop fuel q n acc (u32 (rej + 1))
      end
  end.

(** The comparison of [acceptedCount] with [rejectedCount / (double)(ldmCount - 1)].  In
    double precision it is exact: the quotient of two 32-bit integers that is not an
    integer differs from every integer below 2^32 by more than the rounding. *)
Definition s_compare (primary : bool) (acc rej ldmCount : Z) : bool :=
  if primary then acc * (ldmCount - 1) <=? rej else rej <=? acc * (ldmCount - 1).

(** [d_diff_timestamp()] of two times is their difference in seconds; comparing it with
    a whole number of seconds is exact up to 2^31 seconds. *)
Definition s_elapsed (now prev : timestampt) (interval : Z) : bool :=
  u32 (2 * interval) * 1000000 <=? us now - us prev.

(** After the newest entry has been added. *)
Definition s_decide (a : autoshift) (q : queue Entry) (now : timestampt) (interval : Z) : res autoshift :=
  let! q := s_purge_loop (q_fuel q) q (s_prevCompTime a) in
  if negb (s_elapsed now (s_prevCompTime a) interval)
  then Ok (Autoshift q (s_prevCompTime a) (s_ldmCount a) (s_primary a) false)
  else
    let! '(acc, rej) := s_count_loop (q_fuel q) q (q_head q) 0 0 in
    let sw := if u32 (acc + rej) =? 0 then false
              else s_compare (s_primary a) acc rej (s_ldmCount a) in
    Ok (Autoshift q now (s_ldmCount a) (s_primary a) sw).

(** [mem] says whether there is memory for the entry and for the element. *)
Definition s_process (a : autoshift) (interval : Z) (accepted : bool) (mem : bool * bool) (w : W) :
    res (Z * autoshift * W) :=
  if s_ldmCount a <=? 1 then Ok (ENOSYS, a, w)
  else if negb mem.1 then Ok (ENOMEM, a, w)
  else
    let! '(now, w) := getTime w in
    let! '(status, q) := q_add (as_q a) (Some (Entry_ now accepted)) mem.2 in
    if negb (status =? 0) then Ok (status, a, w)
    else let! a := s_decide a q now interval in Ok (0, a, w).

(** ** The public interface *)

Definition as_setLdmCount (a : autoshift) (count : Z) (w : W) : res (Z * autoshift * W) :=
  if count =? 0 then Ok (EINVAL, a, w)
  else if negb (count =? s_ldmCount a) then
    let! '(a, w) := s_reset a w in
    Ok (0, Autoshift (as_q a) (s_prevCompTime a) count (s_primary a) (s_switch a), w)
  else Ok (0, a, w).

Definition as_init (a : autoshift) (isPrimary : bool) (w : W) : res (autoshift * W) :=
  let! '(a, w) := s_reset a w in
  Ok (Autoshift (as_q a) (s_prevCompTime a) (s_ldmCount a) isPrimary (s_switch a), w).

(** The size of the product is not used. *)
Definition as_process (a : autoshift) (interval : Z) (success : bool) (size : Z) (mem : bool * bool) (w : W) :
    res (Z * autoshift * W) :=
  if s_ldmCount a =? 1 then Ok (0, a, w) else s_process a interval success mem w.

Definition as_shouldSwitch (a : autoshift) : bool :=
  if s_ldmCount a =? 1 then negb (s_primary a) else s_getSwitch a.

(** ** Lemmas *)

(** The entries that are left: from the first that is newer on. *)
Fixpoint drop_old (prev : timestampt) (l : list Entry) : list Entry :=
  match l with
  | [] => []
  | e :: l' => if TV_CMP_LT prev (e_time e) then l else drop_old prev l'
  end.

Definition accepted (l : list Entry) : list Entry := filter (λ e, e_wasAccepted e = true) l.
Definition rejected (l : list Entry) : list Entry := filter (λ e, e_wasAccepted e = false) l.

(** The entries are in the order of their times, no later than [last]. *)
Definition in_order (l : list Entry) (t : timestampt) : Prop :=
  StronglySorted (λ e1 e2, TV_CMP_LT (e_time e2) (e_time e1) = false) l ∧
  ∀ e, e ∈ l → TV_CMP_LT t (e_time e) = false.

(** The state: the queue holds [l]. *)
Record as_rep (a : autoshift) (l : list Entry) : Prop := {
  ar_queue : q_rep (as_q a) l;
  ar_count : 1 ≤ s_ldmCount a < 2 ^ 32;
}.

Lemma drop_old_suffix prev l : drop_old prev l `suffix_of` l.
Proof. induction l as [|e l IH]; simpl; [done|]. case_match; [done|by apply suffix_cons_r]. Qed.

Lemma drop_old_length prev l : (length (drop_old prev l) ≤ length l)%nat.
Proof. apply suffix_length, drop_old_suffix. Qed.

(** On a queue in order the purge leaves exactly the entries that are newer. *)
Lemma drop_old_filter prev l t :
  in_order l t → drop_old prev l = filter (λ e, TV_CMP_LT prev (e_time e) = true) l.
Proof.
  intros [Hs _]. induction l as [|e l IH]; simpl; [done|]. inversion_clear Hs as [|? ? Hs' Hall].
  destruct (TV_CMP_LT prev (e_time e)) eqn:He; rewrite filter_cons, He.
  - rewrite decide_True by done. f_equal. symmetry. apply filter_all. intros e' He'.
    rewrite Forall_forall in Hall. specialize (Hall e' He'). by eapply (ltb_lt_ge_trans TV_CMP_LT).
  - rewrite decide_False by done. by apply IH.
Qed.

Lemma s_reset_loop_spec q l : q_rep q l → ∃ q', s_reset_loop (q_fuel q) q = Ok q' ∧ q_rep q' [].
Proof.
  intros Hq. rewrite (q_rep_fuel _ _ Hq). revert q Hq.
  induction l as [|d l IH]; intros q Hq; simpl; pose proof (q_rep_head _ _ Hq) as Hh.
  - rewrite Hh. by exists q.
  - destruct Hh as (p & -> & _). destruct (q_removeHead_spec _ _ _ Hq) as (q' & -> & Hq'). rewrite bind_Ok.
    by apply IH.
Qed.

Lemma s_purge_loop_spec q l prev :
  q_rep q l → ∃ q', s_purge_loop (q_fuel q) q prev = Ok q' ∧ q_rep q' (drop_old prev l).
Proof.
  intros Hq. rewrite (q_rep_fuel _ _ Hq). revert q Hq.
  induction l as [|d l IH]; intros q Hq; cbn [s_purge_loop length]; pose proof (q_rep_head _ _ Hq) as Hh.
  - rewrite Hh. by exists q.
  - destruct Hh as (p & -> & ->). rewrite bind_Ok. simpl. destruct (TV_CMP_LT prev (e_time d)); [by exists q|].
    destruct (q_removeHead_spec _ _ _ Hq) as (q' & -> & Hq'). rewrite bind_Ok. by apply IH.
Qed.

Lemma s_count_chain q pl h acc rej :
  chain (q_elts q) h pl → 0 ≤ acc → 0 ≤ rej → acc + rej + Z.of_nat (length pl) < 2 ^ 32 →
  s_count_loop (S (length pl)) q h acc rej =
    Ok (acc + Z.of_nat (length (accepted pl.*2)), rej + Z.of_nat (length (rejected pl.*2))).
Proof.
  revert h acc rej. induction pl as [|[p e] pl IH]; intros h acc rej Hc Ha Hr Hb.
  - simpl in Hc. subst h. simpl. by rewrite !Z.add_0_r.
  - destruct Hc as (-> & n & Hn & Hc). cbn [length] in *. remember (S (length pl)) as fuel.
    cbn [s_count_loop]. unfold q_data, q_getNext.
    rewrite (rd_Ok _ _ _ Hn), !bind_Ok. unfold accepted, rejected in *. cbn [fmap list_fmap snd].
    rewrite !filter_cons. unfold u32. destruct (e_wasAccepted e) eqn:He.
    + rewrite decide_True, decide_False by done. rewrite Z.mod_small, IH by first [done | lia]. cbn [length]. do 2 f_equal; lia.
    + rewrite decide_False, decide_True by done. rewrite Z.mod_small, IH by first [done | lia]. cbn [length]. do 2 f_equal; lia.
Qed.

Lemma s_count_loop_spec q l :
  q_rep q l → Z.of_nat (length l) < 2 ^ 32 →
  s_count_loop (q_fuel q) q (q_head q) 0 0 = Ok (Z.of_nat (length (accepted l)), Z.of_nat (length (rejected l))).
Proof.
  intros Hq Hb. rewrite (q_rep_fuel _ _ Hq). destruct Hq as (pl & [Hc _ _ _ _] & ->).
  rewrite length_fmap in *. apply (s_count_chain q pl (q_head q) 0 0 Hc); lia.
Qed.

Lemma accepted_rejected l : (length (accepted l) + length (rejected l) = length l)%nat.
Proof.
  unfold accepted, rejected. induction l as [|e l IH]; [done|]. rewrite !filter_cons.
  destruct (e_wasAccepted e); simpl; lia.
Qed.

(** The entries that count at the next decision. *)
Definition as_window (a : autoshift) (l : list Entry) (now : timestampt) (acc : bool) : list Entry :=
  filter (λ e, TV_CMP_LT (s_prevCompTime a) (e_time e) = true) (l ++ [Entry_ now acc]).

(** The decision on the entries [l]: by the numbers of those that were accepted and
    rejected, the latter per other process. *)
Definition as_decision (a : autoshift) (l : list Entry) : bool :=
  let own := Z.of_nat (length (accepted l)) * (s_ldmCount a - 1) in
  let others := Z.of_nat (length (rejected l)) in
  negb (bool_decide (l = [])) && if s_primary a then bool_decide (own ≤ others) else bool_decide (others ≤ own).

Lemma s_compare_spec primary acc rej n :
  s_compare primary acc rej n =
    if primary then bool_decide (acc * (n - 1) ≤ rej) else bool_decide (rej ≤ acc * (n - 1)).
Proof. unfold s_compare. apply eq_true_iff_eq. destruct primary; rewrite bool_decide_eq_true; lia. Qed.

Lemma in_order_snoc l now acc :
  in_order l now → in_order (l ++ [Entry_ now acc]) now.
Proof.
  intros [Hs Hl]. split.
  - clear -Hs Hl. induction Hs as [|e l Hs IH Hall]; simpl; [repeat constructor|].
    constructor; [apply IH; intros; apply Hl; by constructor|]. rewrite Forall_forall in *.
    intros x [Hx| ->%list_elem_of_singleton]%elem_of_app; [by apply Hall|]. simpl. apply Hl. constructor.
  - intros e [He| ->%list_elem_of_singleton]%elem_of_app; [by apply Hl|]. apply ltb_irrefl.
Qed.

Lemma in_order_filter (P : Entry → Prop) `{∀ e, Decision (P e)} l t : in_order l t → in_order (filter P l) t.
Proof.
  intros [Hs Hl]. split; [|intros e [_ He]%list_elem_of_filter; by apply Hl].
  clear Hl. induction Hs as [|e l Hs IH Hall]; [constructor|]. rewrite filter_cons.
  destruct (decide (P e)); [|done]. constructor; [done|]. rewrite Forall_forall in *.
  intros x [_ Hx]%list_elem_of_filter. by apply Hall.
Qed.

Lemma s_decide_spec a q l now interval :
  q_rep q l → Z.of_nat (length l) < 2 ^ 32 →
  let l' := drop_old (s_prevCompTime a) l in
  ∃ q', q_rep q' l' ∧
    s_decide a q now interval =
      Ok (if s_elapsed now (s_prevCompTime a) interval
          then Autoshift q' now (s_ldmCount a) (s_primary a) (as_decision a l')
          else Autoshift q' (s_prevCompTime a) (s_ldmCount a) (s_primary a) false).
Proof.
  intros Hq Hb l'. unfold s_decide. destruct (s_purge_loop_spec q l (s_prevCompTime a) Hq) as (q' & -> & Hq').
  rewrite bind_Ok. exists q'. split; [done|]. pose proof (drop_old_length (s_prevCompTime a) l) as Hlen.
  destruct (s_elapsed now (s_prevCompTime a) interval); simpl negb; cbv iota; [|done].
  rewrite (s_count_loop_spec _ _ Hq'), bind_Ok by lia. pose proof (accepted_rejected l') as Hsum. fold l' in Hlen, Hsum |- *.
  unfold u32. rewrite Z.mod_small by lia. unfold as_decision. destruct (Z.eqb_spec (Z.of_nat (length (accepted l')) + Z.of_nat (length (rejected l'))) 0) as [Hz|Hz].
  - rewrite bool_decide_true; [done|]. apply length_zero_iff_nil. lia.
  - rewrite bool_decide_false, s_compare_spec; [done|]. intros Hnil. rewrite Hnil in *. simpl in *. lia.
Qed.

(** What [as_process()] does: the status and the new state. *)
Definition process_post (a : autoshift) (l : list Entry) (interval : Z) (success : bool) (mem : bool * bool)
    (now : timestampt) (st : Z) (a' : autoshift) : Prop :=
  if s_ldmCount a =? 1 then st = 0 ∧ a' = a
  else if negb (mem.1 && mem.2) then st = ENOMEM ∧ a' = a
  else
    let l' := as_window a l now success in
    st = 0 ∧ as_rep a' l' ∧ in_order l' now ∧ s_ldmCount a' = s_ldmCount a ∧ s_primary a' = s_primary a ∧
    if s_elapsed now (s_prevCompTime a) interval
    then s_prevCompTime a' = now ∧ as_shouldSwitch a' = as_decision a l'
    else s_prevCompTime a' = s_prevCompTime a ∧ as_shouldSwitch a' = false.

Lemma as_process_spec a l interval success size mem w now w' :
  as_rep a l → in_order l now → Z.of_nat (length l) < 2 ^ 32 - 1 → gettimeofday w = (inr now, w') →
  ∃ st a' w2, as_process a interval success size mem w = Ok (st, a', w2) ∧ (w2 = w ∨ w2 = w') ∧
    process_post a l interval success mem now st a'.
Proof.
  intros [Hq Hn] Hord Hlen Hclk. unfold as_process, process_post. destruct (Z.eqb_spec (s_ldmCount a) 1) as [H1|H1]; [eauto 10|].
  unfold s_process. rewrite (proj2 (Z.leb_gt _ _)) by lia. destruct mem as [[] m2]; cbn [fst snd negb andb]; [|eauto 10].
  unfold getTime. rewrite Hclk, bind_Ok. destruct m2; cbn [negb]; [|eauto 10].
  destruct (q_add_spec (as_q a) l (Entry_ now success) Hq) as (q & -> & Hq'). rewrite bind_Ok. cbn [negb Z.eqb].
  destruct (s_decide_spec a q _ now interval Hq') as (q' & Hq2 & ->); [rewrite length_app; simpl; lia|]. rewrite bind_Ok.
  pose proof (in_order_snoc l now success Hord) as Hord'. rewrite (drop_old_filter _ _ _ Hord') in *.
  fold (as_window a l now success) in *. eexists 0, _, w'. split; [done|]. split; [by right|]. split; [done|].
  pose proof (in_order_filter (λ e, TV_CMP_LT (s_prevCompTime a) (e_time e) = true) _ _ Hord') as Hord2.
  fold (as_window a l now success) in Hord2.
  assert ((s_ldmCount a =? 1) = false) as Hne by lia.
  destruct (s_elapsed _ _ _); unfold as_shouldSwitch, s_getSwitch; simpl; rewrite Hne; (split; [split; [exact Hq2|exact Hn]|done]).
Qed.

(** Whatever the times are, the module works on. *)
Lemma s_count_total q pl h acc rej :
  chain (q_elts q) h pl → ∃ n m, s_count_loop (S (length pl)) q h acc rej = Ok (n, m).
Proof.
  revert h acc rej. induction pl as [|[p e] pl IH]; intros h acc rej Hc.
  - simpl in Hc. subst h. by eexists _, _.
  - destruct Hc as (-> & n & Hn & Hc). cbn [length]. remember (S (length pl)) as fuel.
    cbn [s_count_loop]. unfold q_data, q_getNext. rewrite (rd_Ok _ _ _ Hn), !bind_Ok.
    destruct (e_wasAccepted e); by apply IH.
Qed.

Lemma as_process_total a l interval success size mem w now w' :
  as_rep a l → gettimeofday w = (inr now, w') →
  ∃ st a' w2 l', as_process a interval success size mem w = Ok (st, a', w2) ∧ (w2 = w ∨ w2 = w') ∧ as_rep a' l' ∧
    s_ldmCount a' = s_ldmCount a ∧ s_primary a' = s_primary a ∧
    if (s_ldmCount a =? 1) || (mem.1 && mem.2) then st = 0 else st = ENOMEM.
Proof.
  intros Ha Hclk. pose proof Ha as [Hq Hn]. unfold as_process. destruct (Z.eqb_spec (s_ldmCount a) 1) as [H1|H1]; [exists 0, a, w, l; simpl; split_and!; auto|].
  unfold s_process. rewrite (proj2 (Z.leb_gt _ _)) by lia. destruct mem as [[] m2]; cbn [fst snd negb andb orb]; [|exists ENOMEM, a, w, l; simpl; split_and!; auto].
  unfold getTime. rewrite Hclk, bind_Ok. destruct m2; cbn [negb]; [|exists ENOMEM, a, w', l; simpl; split_and!; auto].
  destruct (q_add_spec (as_q a) l (Entry_ now success) Hq) as (q & -> & Hq'). rewrite bind_Ok. cbn [negb Z.eqb].
  unfold s_decide. destruct (s_purge_loop_spec q _ (s_prevCompTime a) Hq') as (q2 & -> & Hq2). rewrite bind_Ok.
  destruct (s_elapsed now (s_prevCompTime a) interval); cbn [negb].
  - rewrite (q_rep_fuel _ _ Hq2). pose proof Hq2 as (pl & [Hc _ _ _ _] & ->). rewrite length_fmap.
    destruct (s_count_total q2 pl (q_head q2) 0 0 Hc) as (n & m & ->). rewrite !bind_Ok.
    eexists _, _, _, _. split; [done|]. split; [by right|]. split; [split; [exact Hq2|exact Hn]|done].
  - rewrite bind_Ok. eexists _, _, _, _. split; [done|]. split; [by right|]. split; [split; [exact Hq2|exact Hn]|done].
Qed.

Lemma s_reset_spec a l w now w' :
  as_rep a l → gettimeofday w = (inr now, w') →
  ∃ a', s_reset a w = Ok (a', w') ∧ as_rep a' [] ∧ s_prevCompTime a' = now ∧ s_switch a' = false ∧
    s_ldmCount a' = s_ldmCount a ∧ s_primary a' = s_primary a.
Proof.
  intros [Hq Hn] Hclk. unfold s_reset, getTime. rewrite Hclk, bind_Ok.
  destruct (s_reset_loop_spec _ _ Hq) as (q' & -> & Hq'). rewrite bind_Ok. eexists. split; [done|]. split; [split; [exact Hq'|exact Hn]|done].
Qed.

Lemma as_init_spec a l isPrimary w now w' :
  as_rep a l → gettimeofday w = (inr now, w') →
  ∃ a', as_init a isPrimary w = Ok (a', w') ∧ as_rep a' [] ∧ s_prevCompTime a' = now ∧
    s_ldmCount a' = s_ldmCount a ∧ s_primary a' = isPrimary ∧
    as_shouldSwitch a' = if s_ldmCount a =? 1 then negb isPrimary else false.
Proof.
  intros Ha Hclk. unfold as_init. destruct (s_reset_spec a l w now w' Ha Hclk) as (a' & -> & [Hq Hn] & Hp & Hs & Hc & _).
  rewrite bind_Ok. eexists. split; [done|]. split; [by split|]. split; [done|]. split; [done|]. split; [done|].
  unfold as_shouldSwitch, s_getSwitch. simpl. by rewrite Hc, Hs.
Qed.

(** When the number of processes changes, the statistics begin again; the mode
    remains. *)
Lemma as_setLdmCount_spec a l count w now w' :
  as_rep a l → 0 ≤ count < 2 ^ 32 → gettimeofday w = (inr now, w') →
  ∃ st a' w2, as_setLdmCount a count w = Ok (st, a', w2) ∧ (w2 = w ∨ w2 = w') ∧ s_primary a' = s_primary a ∧
    if count =? 0 then st = EINVAL ∧ a' = a
    else if count =? s_ldmCount a then st = 0 ∧ a' = a
    else st = 0 ∧ as_rep a' [] ∧ s_ldmCount a' = count ∧ s_prevCompTime a' = now.
Proof.
  intros Ha Hcnt Hclk. unfold as_setLdmCount. destruct (Z.eqb_spec count 0) as [H0|H0]; [eauto 10|].
  destruct (Z.eqb_spec count (s_ldmCount a)) as [H1|H1]; simpl; [eauto 10|].
  destruct (s_reset_spec a l w now w' Ha Hclk) as (a' & -> & [Hq Hn] & Hp & Hs & Hc & Hpr). rewrite bind_Ok.
  eexists 0, _, w'. split; [done|]. split; [by right|]. split; [done|]. split; [done|]. split; [|done]. split; [done|simpl; lia].
Qed.

Lemma as_start_rep : as_rep as_start [].
Proof. split; [exact q_rep_empty|simpl; lia]. Qed.

(** The two modes decide differently but for a tie, in which both switch. *)
Lemma s_compare_modes acc rej n :
  s_compare true acc rej n && s_compare false acc rej n = (acc * (n - 1) =? rej) ∧
  s_compare true acc rej n || s_compare false acc rej n = true.
Proof. unfold s_compare. split; lia. Qed.
End statistics.
