(* ===== verification/XdrData.v ===== *)
(** * The buffer for received data (src/protocol2/xdr_data.c, src/protocol/ldm.x)

    The data of products is decoded into one buffer of the process that grows and
    that pointers outside of the module point into.  Memory is a map from blocks to
    their bytes, [None] for a byte that was never written; a block that is freed
    is no longer in the map, so that using a stale pointer faults.  Blocks are never
    numbered twice. *)

From S2P Require Import Prelude Timestamp NumTheory Fb SkipList TimeQueue RegionList SigIndex Riul PqCore.

Record xdata := Xdata {
  xd_blocks : gmap Z (list (option Z)); xd_brk : Z; xd_buf : option Z; xd_max : Z; xd_used : Z }.

(** The initial values of the variables. *)
Definition xd_start : xdata := Xdata ∅ 0 None 0 0.

(** A block and an offset in it. *)
Definition ptr : Type := Z * Z.

(** ** The C library *)

(** [mem] says whether there is memory. *)
Definition c_malloc (x : xdata) (size : Z) (mem : bool) : option Z * xdata :=
  if mem then
    (Some (xd_brk x),
     Xdata (<[xd_brk x := replicate (Z.to_nat size) None]> (xd_blocks x)) (xd_brk x + 1)
       (xd_buf x) (xd_max x) (xd_used x))
  else (None, x).

Definition c_free (x : xdata) (p : option Z) : res xdata :=
  match p with
  | None => Ok x
  | Some b =>
      let! _ := rd (xd_blocks x) b in
      Ok (Xdata (delete b (xd_blocks x)) (xd_brk x) (xd_buf x) (xd_max x) (xd_used x))
  end.

(** The outcome of [realloc()]: no memory, the block where it was, or another. *)
Inductive realloc_out := RFail | RSame | RMove.

Definition c_realloc (x : xdata) (p : option Z) (size : Z) (out : realloc_out) : res (option Z * xdata) :=
  match out, p with
  | RFail, _ => Ok (None, x)
  | _, None => Ok (c_malloc x size true)
  | RSame, Some b =>
      let! cells := rd (xd_blocks x) b in
      Ok (Some b, Xdata (<[b := resize (Z.to_nat size) None cells]> (xd_blocks x)) (xd_brk x)
                    (xd_buf x) (xd_max x) (xd_used x))
  | RMove, Some b =>
      let! cells := rd (xd_blocks x) b in
      Ok (Some (xd_brk x),
          Xdata (<[xd_brk x := resize (Z.to_nat size) None cells]> (delete b (xd_blocks x))) (xd_brk x + 1)
            (xd_buf x) (xd_max x) (xd_used x))
  end.

(** Writing and reading bytes through a pointer. *)
Definition c_store (x : xdata) (p : ptr) (bytes : list Z) : res xdata :=
  let! cells := rd (xd_blocks x) p.1 in
  if (p.2 <? 0) || (Z.of_nat (length cells) <? p.2 + Z.of_nat (length bytes)) then Err OutOfBounds
  else
    let o := Z.to_nat p.2 in
    let cells := take o cells ++ (Some <$> bytes) ++ drop (o + length bytes) cells in
    Ok (Xdata (<[p.1 := cells]> (xd_blocks x)) (xd_brk x) (xd_buf x) (xd_max x) (xd_used x)).

Definition c_load (x : xdata) (p : option ptr) (n : Z) : res (list Z) :=
  if n =? 0 then Ok []
  else
    match p with
    | None => Err OutOfBounds
    | Some p =>
        let! cells := rd (xd_blocks x) p.1 in
        let seg := take (Z.to_nat n) (drop (Z.to_nat p.2) cells) in
        if (p.2 <? 0) || (Z.of_nat (length seg) <? n) then Err OutOfBounds
        else match mapM (M:=option) id seg with Some l => Ok l | None => Err OutOfBounds end
    end.

(** ** xdr_data.c *)

Definition xd_getBuffer (x : xdata) (size : Z) (mem : bool) : res (option ptr * xdata) :=
  let! x :=
    if bool_decide (xd_buf x = None) || (xd_max x <? size) then
      let! x := c_free x (xd_buf x) in
      let '(buf, x) := c_malloc x size mem in
      Ok (Xdata (xd_blocks x) (xd_brk x) buf (match buf with None => xd_max x | Some _ => size end) (xd_used x))
    else Ok x in
  Ok ((λ b, (b, 0)) <$> xd_buf x, Xdata (xd_blocks x) (xd_brk x) (xd_buf x) (xd_max x) 0).

Definition xd_getNextSegment (x : xdata) (size : Z) (out : realloc_out) : res (option ptr * xdata) :=
  let used := xd_used x in
  let newMax := u64 (used + size) in
  match xd_buf x with
  | Some b =>
      if newMax <=? xd_max x
      then Ok (Some (b, used), Xdata (xd_blocks x) (xd_brk x) (xd_buf x) (xd_max x) (u64 (used + size)))
      else
        let! '(newBuf, x) := c_realloc x (xd_buf x) newMax out in
        Ok (match newBuf with
            | None => (None, x)
            | Some b => (Some (b, used), Xdata (xd_blocks x) (xd_brk x) (Some b) newMax (u64 (used + size)))
            end)
  | None =>
      let! '(newBuf, x) := c_realloc x None newMax out in
      Ok (match newBuf with
          | None => (None, x)
          | Some b => (Some (b, used), Xdata (xd_blocks x) (xd_brk x) (Some b) newMax (u64 (used + size)))
          end)
  end.

Definition xd_reset (x : xdata) : xdata := Xdata (xd_blocks x) (xd_brk x) (xd_buf x) (xd_max x) 0.

(** ** Decoding

    [data] is what the stream still has.  The outcomes are whether decoding succeeded
    and the pointer in the decoded structure. *)

(** [xdr_opaque()] of [n] bytes. *)
Definition xdr_opaque_decode (x : xdata) (p : ptr) (n : Z) (data : list Z) : res (bool * xdata) :=
  let! x := c_store x p (take (Z.to_nat n) data) in
  Ok (n <=? Z.of_nat (length data), x).

(** The metadata has been decoded; the pointer to the data was null. *)
Definition xdr_product_decode (x : xdata) (sz : Z) (data : list Z) (mem : bool) : res (bool * option ptr * xdata) :=
  if sz =? 0 then Ok (true, None, x)
  else
    let! '(p, x) := xd_getBuffer x sz mem in
    match p with
    | None => Ok (false, None, x)
    | Some p => let! '(ok, x) := xdr_opaque_decode x p sz data in Ok (ok, Some p, x)
    end.

(** The length has been decoded. *)
Definition xdr_dbuf_decode (x : xdata) (dbuf_len : Z) (data : list Z) (out : realloc_out) :
    res (bool * option ptr * xdata) :=
  if dbuf_len =? 0 then Ok (true, None, x)
  else
    let! '(p, x) := xd_getNextSegment x dbuf_len out in
    match p with
    | None => Ok (false, None, x)
    | Some p => let! '(ok, x) := xdr_opaque_decode x p dbuf_len data in Ok (ok, Some p, x)
    end.

(** ** Lemmas *)

(** The buffer is a block of [xd_max] bytes of which [xd_used] are handed out. *)
Record xd_ok (x : xdata) : Prop := {
  xo_fresh b : xd_brk x ≤ b → xd_blocks x !! b = None;
  xo_buf b : xd_buf x = Some b → ∃ cells, xd_blocks x !! b = Some cells ∧ Z.of_nat (length cells) = xd_max x;
  xo_used : 0 ≤ xd_used x ∧ (is_Some (xd_buf x) → xd_used x ≤ xd_max x) ∧ (xd_buf x = None → xd_used x = 0);
  xo_max : 0 ≤ xd_max x < 2 ^ 63;
}.

(** The buffer is the block [b], and what is handed out of it was filled with [pre]. *)
Record holds (x : xdata) (b : Z) (pre : list Z) : Prop := {
  ho_ok : xd_ok x;
  ho_buf : xd_buf x = Some b;
  ho_used : xd_used x = Z.of_nat (length pre);
  ho_cells cells : xd_blocks x !! b = Some cells → take (length pre) cells = Some <$> pre;
}.

Lemma xd_start_ok : xd_ok xd_start.
Proof. split; simpl; try done. Qed.

Lemma xd_reset_ok x : xd_ok x → xd_ok (xd_reset x).
Proof. intros [H1 H2 H3 H4]. split; simpl; try done. split; [lia|]. split; [lia|done]. Qed.

(** A new buffer, or the old one when it is large enough. *)
Lemma xd_getBuffer_spec x size mem :
  xd_ok x → 0 < size < 2 ^ 32 →
  ∃ x', xd_ok x' ∧
    ((∃ b, xd_getBuffer x size mem = Ok (Some (b, 0), x') ∧ holds x' b [] ∧ size ≤ xd_max x' ∧
        ((xd_buf x = Some b ∧ size ≤ xd_max x ∧ xd_blocks x' = xd_blocks x) ∨
         ((xd_buf x = None ∨ xd_max x < size) ∧ ∀ b', xd_buf x = Some b' → xd_blocks x' !! b' = None))) ∨
     (mem = false ∧ xd_getBuffer x size mem = Ok (None, x') ∧ xd_buf x' = None)).
Proof.
  intros [Hf Hb Hu Hm] Hs. unfold xd_getBuffer.
  destruct (bool_decide (xd_buf x = None) || (xd_max x <? size)) eqn:Hc; cycle 1.
  { apply orb_false_iff in Hc as [Hn Hl]. apply bool_decide_eq_false in Hn. destruct (xd_buf x) as [b|] eqn:Hx; [|done].
    rewrite bind_Ok. simpl. rewrite Hx. eexists. split; [|left; exists b; split; [done|]].
    - split; simpl; try done. split; [lia|]. split; [lia|done].
    - split; [|split; [simpl; lia|left; split; [done|split; [lia|done]]]].
      split; simpl; [|done|done|by intros]. split; simpl; try done. split; [lia|]. split; [lia|done]. }
  assert (∃ bl, c_free x (xd_buf x) = Ok (Xdata bl (xd_brk x) (xd_buf x) (xd_max x) (xd_used x)) ∧
            (∀ b, xd_brk x ≤ b → bl !! b = None) ∧ (∀ b', xd_buf x = Some b' → bl !! b' = None)) as (bl & -> & Hfr & Hdel).
  { destruct (xd_buf x) as [b|] eqn:Hx; simpl.
    - destruct (Hb b eq_refl) as (cells & Hcl & _). rewrite (rd_Ok _ _ _ Hcl), bind_Ok. rewrite Hx. eexists. split; [done|]. split.
      + intros b' Hb'. apply lookup_delete_None. right. by apply Hf.
      + intros b' [= <-]. apply lookup_delete_eq.
    - exists (xd_blocks x). split; [by destruct x; simpl in *; subst|]. split; [done|done]. }
  rewrite bind_Ok. unfold c_malloc. simpl. destruct mem; rewrite bind_Ok; simpl.
  - set (x' := Xdata _ _ _ _ _). assert (xd_ok x') as Hok.
    { split; simpl; [|intros b [= <-]|split; [lia|split; [lia|done]]|lia].
      - intros b Hle. rewrite lookup_insert_ne by lia. apply Hfr. lia.
      - exists (replicate (Z.to_nat size) None). rewrite lookup_insert_eq, length_replicate. split; [done|lia]. }
    exists x'. split; [exact Hok|]. left. exists (xd_brk x). split; [done|].
    split; [by split|]. split; [simpl; lia|]. right.
    split; [apply orb_true_iff in Hc as [Hc|Hc]; [left; by apply bool_decide_eq_true in Hc|right; lia]|].
    intros b' Hb'. simpl. destruct (Hb b' Hb') as (cells & Hcl & _).
    rewrite lookup_insert_ne; [by apply Hdel|]. intros <-. by rewrite Hf in Hcl by lia.
  - set (x' := Xdata _ _ _ _ _). exists x'. split; [|by right].
    split; simpl; [done|done|split; [lia|split; [by intros [? ?]|done]]|lia].
Qed.

(** Storing at the end of what is handed out. *)
Lemma c_store_spec x b pre d :
  holds x b pre → xd_used x + Z.of_nat (length d) ≤ xd_max x →
  ∃ bl, c_store x (b, xd_used x) d = Ok (Xdata bl (xd_brk x) (xd_buf x) (xd_max x) (xd_used x)) ∧
    holds (Xdata bl (xd_brk x) (xd_buf x) (xd_max x) (xd_used x + Z.of_nat (length d))) b (pre ++ d) ∧
    (∀ b', xd_blocks x !! b' = None → bl !! b' = None).
Proof.
  intros [[Hf Hb Hu Hm] Hbuf Hused Hcells] Hle. destruct (Hb b Hbuf) as (cells & Hcl & Hlen).
  unfold c_store. simpl. rewrite (rd_Ok _ _ _ Hcl), bind_Ok. rewrite (proj2 (Z.ltb_ge (xd_used x) 0)), (proj2 (Z.ltb_ge _ _)) by lia.
  simpl. eexists. split; [done|]. specialize (Hcells cells Hcl).
  assert (Z.to_nat (xd_used x) = length pre) as -> by lia. split; cycle 1.
  { intros b' Hb'. rewrite lookup_insert_ne; [done|]. intros <-. congruence. }
  split; simpl; [split; simpl| |rewrite length_app; lia|]; try done.
  - intros b' Hb'. rewrite lookup_insert_ne; [by apply Hf|]. intros <-. by rewrite Hf in Hcl.
  - intros b' Hb'. rewrite Hbuf in Hb'. injection Hb' as <-. eexists. rewrite lookup_insert_eq. split; [done|].
    rewrite !length_app, length_take, length_drop, length_fmap. lia.
  - rewrite Hbuf. split; [lia|]. split; [lia|done].
  - intros cells'. rewrite lookup_insert_eq. intros [= <-]. rewrite Hcells, app_assoc, <- fmap_app.
    apply take_app_length'. by rewrite length_fmap.
Qed.

(** A counted array that fits is appended to what is there, wherever the stream
    ends. *)
Lemma xdr_dbuf_decode_spec x b pre d out :
  holds x b pre → xd_used x + Z.of_nat (length d) ≤ xd_max x →
  ∃ p x', xdr_dbuf_decode x (Z.of_nat (length d)) d out = Ok (true, p, x') ∧ holds x' b (pre ++ d) ∧
    xd_max x' = xd_max x.
Proof.
  intros Hx Hle. pose proof Hx as [[_ _ (Hu1 & Hu2 & _) Hm] Hbuf _ _]. unfold xdr_dbuf_decode.
  destruct (Z.eqb_spec (Z.of_nat (length d)) 0) as [Hd|Hd].
  { destruct d; [|done]. rewrite app_nil_r. by exists None, x. }
  unfold xd_getNextSegment. rewrite Hbuf, u64_small, (proj2 (Z.leb_le _ _)), bind_Ok by lia.
  unfold xdr_opaque_decode. rewrite Nat2Z.id, firstn_all.
  set (x1 := Xdata _ _ _ _ _). assert (c_store x1 (b, xd_used x) d =
    let! x2 := c_store x (b, xd_used x) d in
    Ok (Xdata (xd_blocks x2) (xd_brk x2) (xd_buf x2) (xd_max x2) (xd_used x + Z.of_nat (length d)))) as ->.
  { unfold c_store. simpl. destruct (rd (xd_blocks x) b); [|done]. rewrite !bind_Ok. case_match; [done|]. by rewrite bind_Ok, Hbuf. }
  destruct (c_store_spec x b pre d Hx Hle) as (bl & -> & Hx' & _). rewrite !bind_Ok. simpl.
  rewrite (proj2 (Z.leb_le _ _)) by lia. eexists _, _. split; [done|]. split; [exact Hx'|done].
Qed.

Lemma mapM_Some_fmap (l : list Z) : mapM (M:=option) id (Some <$> l) = Some l.
Proof. induction l as [|z l IH]; [done|]. rewrite fmap_cons. simpl. by rewrite IH. Qed.

(** What was stored is what is loaded. *)
Lemma holds_load x b pre : holds x b pre → c_load x (Some (b, 0)) (Z.of_nat (length pre)) = Ok pre.
Proof.
  intros [[_ Hb (_ & Hu & _) _] Hbuf Hused Hcells]. unfold c_load.
  destruct (Z.eqb_spec (Z.of_nat (length pre)) 0) as [Hz|Hz]; [by destruct pre|].
  destruct (Hb b Hbuf) as (cells & Hcl & Hlen). simpl. rewrite (rd_Ok _ _ _ Hcl), bind_Ok. rewrite drop_0, Nat2Z.id.
  rewrite (Hcells _ Hcl), length_fmap, (proj2 (Z.ltb_ge _ _)) by lia. by rewrite mapM_Some_fmap.
Qed.

(** A stale pointer cannot be used. *)
Lemma stale_load x b o n : xd_blocks x !! b = None → n ≠ 0 → c_load x (Some (b, o)) n = Err OutOfBounds.
Proof. intros Hb Hn. unfold c_load. rewrite (proj2 (Z.eqb_neq _ _) Hn). unfold rd. simpl. by rewrite Hb. Qed.

(** A whole product. *)
Lemma xdr_product_decode_spec x sz data mem :
  xd_ok x → 0 ≤ sz < 2 ^ 32 → Z.of_nat (length data) = sz →
  ∃ ok p x', xdr_product_decode x sz data mem = Ok (ok, p, x') ∧ xd_ok x' ∧
    (if ok then c_load x' p sz = Ok data else mem = false ∧ 0 < sz) ∧
    (∀ b, ok = true → xd_buf x = Some b → xd_max x < sz → xd_blocks x' !! b = None).
Proof.
  intros Hx Hs Hlen. unfold xdr_product_decode. destruct (Z.eqb_spec sz 0) as [->|Hz].
  { exists true, None, x. split; [done|]. split; [done|]. split; [by destruct data|]. intros b _ _ Hlt.
    pose proof (xo_max _ Hx). lia. }
  destruct (xd_getBuffer_spec x sz mem Hx) as (x1 & Hok & [(b & -> & Hh & Hm & Hold)|(-> & -> & _)]); [lia| |].
  - rewrite bind_Ok. unfold xdr_opaque_decode. rewrite firstn_all2 by lia.
    assert (xd_used x1 = 0) as Hu by exact (ho_used _ _ _ Hh). replace (b, 0) with (b, xd_used x1) by by rewrite Hu.
    destruct (c_store_spec x1 b [] data Hh) as (bl & -> & Hh' & Hbl); [lia|]. rewrite !bind_Ok, (proj2 (Z.leb_le _ _)) by lia.
    eexists true, _, _. split; [done|]. pose proof (holds_load _ _ _ Hh') as Hload. simpl in Hload. rewrite Hlen in Hload.
    destruct Hh' as [[H1 H2 H3 H4] _ _ _]. split; [split; simpl in *; try done|].
    + pose proof (ho_buf _ _ _ Hh) as Hbuf. rewrite Hbuf. split; [lia|]. split; [lia|done].
    + split; [rewrite <- Hload, Hu; reflexivity|]. intros b' _ Hb' Hlt.
      destruct Hold as [(_ & ? & _)|[_ Hgone]]; [lia|]. by apply Hbl, Hgone.
  - rewrite bind_Ok. eexists false, _, _. split; [done|]. split; [done|]. split; [by split; [|lia]|done].
Qed.

(** [realloc()] of the buffer. *)
Lemma c_realloc_spec x size out :
  xd_ok x → 0 ≤ size →
  c_realloc x (xd_buf x) size out = Ok (None, x) ∨
  ∃ b bl brk cells, c_realloc x (xd_buf x) size out = Ok (Some b, Xdata bl brk (xd_buf x) (xd_max x) (xd_used x)) ∧
    (∀ b', brk ≤ b' → bl !! b' = None) ∧ bl !! b = Some cells ∧ Z.of_nat (length cells) = size.
Proof.
  intros [Hf Hb _ _] Hs. destruct out; [by left|right..]; simpl; (destruct (xd_buf x) as [b|] eqn:Hx; cycle 1).
  1, 3: (eexists _, _, _, _; split; [reflexivity|]; split_and!;
      [intros b' Hb'; rewrite lookup_insert_ne by lia; apply Hf; lia|apply lookup_insert_eq|rewrite length_replicate; lia]).
  all: destruct (Hb b eq_refl) as (cells & Hcl & _); rewrite (rd_Ok _ _ _ Hcl), bind_Ok; eexists _, _, _, _.
  all: split; [done|]; split_and!; [|apply lookup_insert_eq|rewrite length_resize; lia].
  all: intros b' Hb'; assert (b' ≠ b) by (intros ->; by rewrite Hf in Hcl by lia).
  all: rewrite lookup_insert_ne by lia; rewrite ?lookup_delete_ne by done; apply Hf; lia.
Qed.

(** Every counted array leaves the module well formed: it is decoded into the
    buffer, which grows when it must. *)
Lemma xdr_dbuf_decode_ok x data out :
  xd_ok x → xd_used x + Z.of_nat (length data) < 2 ^ 63 →
  ∃ ok p x', xdr_dbuf_decode x (Z.of_nat (length data)) data out = Ok (ok, p, x') ∧ xd_ok x' ∧
    if (ok : bool) then xd_used x' = xd_used x + Z.of_nat (length data) else x' = x.
Proof.
  intros Hx Hlt. pose proof Hx as [Hf Hb (Hu1 & Hu2 & Hu3) Hm]. unfold xdr_dbuf_decode.
  destruct (Z.eqb_spec (Z.of_nat (length data)) 0) as [Hd|Hd].
  { exists true, None, x. split; [done|]. split; [done|lia]. }
  assert (∀ b bl brk mx cells, (∀ b', brk ≤ b' → bl !! b' = None) → bl !! b = Some cells →
    Z.of_nat (length cells) = mx → xd_used x + Z.of_nat (length data) ≤ mx < 2 ^ 63 →
    let x1 := Xdata bl brk (Some b) mx (xd_used x + Z.of_nat (length data)) in
    ∃ x', xdr_opaque_decode x1 (b, xd_used x) (Z.of_nat (length data)) data = Ok (true, x') ∧ xd_ok x' ∧
      xd_used x' = xd_used x + Z.of_nat (length data)) as Hput.
  { intros b bl brk mx cells Hfr Hcl Hlen Hle x1. unfold xdr_opaque_decode, c_store. simpl.
    rewrite (rd_Ok _ _ _ Hcl), bind_Ok, Nat2Z.id, firstn_all, (proj2 (Z.ltb_ge (xd_used x) 0)), (proj2 (Z.ltb_ge _ _)) by lia.
    cbn [orb]. cbv iota zeta. rewrite bind_Ok, (proj2 (Z.leb_le _ _)) by lia. eexists. split; [reflexivity|]. split; [|done].
    split; simpl; [| |split; [lia|split; [lia|done]]|lia].
    - intros b' Hb'. rewrite lookup_insert_ne; [by apply Hfr|]. intros <-. by rewrite Hfr in Hcl.
    - intros b' [= <-]. eexists. rewrite lookup_insert_eq. split; [done|].
      rewrite !length_app, length_take, length_drop, length_fmap. lia. }
  assert (∀ out, (∃ p x', xd_getNextSegment x (Z.of_nat (length data)) out = Ok (p, x') ∧
    match p with
    | None => x' = x
    | Some (b, o) => o = xd_used x ∧ ∃ bl brk mx cells, x' = Xdata bl brk (Some b) mx (xd_used x + Z.of_nat (length data)) ∧
        (∀ b', brk ≤ b' → bl !! b' = None) ∧ bl !! b = Some cells ∧ Z.of_nat (length cells) = mx ∧
        xd_used x + Z.of_nat (length data) ≤ mx < 2 ^ 63
    end)) as Hseg.
  { clear Hput. intros out'. unfold xd_getNextSegment. rewrite u64_small by lia. set (n := xd_used x + _) in *.
    pose proof (c_realloc_spec x n out' Hx ltac:(lia)) as Hre. destruct (xd_buf x) as [b|] eqn:Hbuf.
    - destruct (Z.leb_spec n (xd_max x)) as [Hle|Hgt].
      + eexists _, _. split; [done|]. split; [done|]. destruct (Hb b eq_refl) as (cells & Hcl & Hlen).
        eexists _, _, _, _. split; [reflexivity|]. split; [exact Hf|]. split; [exact Hcl|]. lia.
      + destruct Hre as [->|(b' & bl & brk & cells & -> & H1 & H2 & H3)]; rewrite bind_Ok; eexists _, _; (split; [done|]); [done|].
        split; [done|]. eexists _, _, _, _. split; [done|]. split; [exact H1|]. split; [exact H2|]. lia.
    - destruct Hre as [->|(b' & bl & brk & cells & -> & H1 & H2 & H3)]; rewrite bind_Ok; eexists _, _; (split; [done|]); [done|].
      split; [done|]. eexists _, _, _, _. split; [done|]. split; [exact H1|]. split; [exact H2|]. lia. }
  destruct (Hseg out) as (p & x1 & -> & Hp). rewrite bind_Ok. destruct p as [[b o]|]; [|subst x1; by exists false, None, x].
  destruct Hp as (-> & bl & brk & mx & cells & -> & H1 & H2 & H3 & H4).
  destruct (Hput b bl brk mx cells H1 H2 H3 H4) as (x' & -> & Hok & Hu'). rewrite bind_Ok. by eexists true, _, x'.
Qed.
