(* ===== verification/ProdClass.v ===== *)
(** * Product classes (src/protocol2/prod_class.c, src/misc/RegularExpressions.c)

    A product class is an interval of creation-times and an array of
    specifications, each a set of feed types (a bit mask) and a pattern for
    product identifiers.  Readers of the product-queue and every transfer of
    products select products by class.

    Patterns are POSIX extended regular expressions, compiled and matched by the
    C library: [Regex] is the interface to it.  A class is a record with the
    array [psa_val] and the number [psa_len] of its elements that count. *)

From Stdlib Require Import Ascii.
From stdpp Require Import strings.
From S2P Require Import Prelude Timestamp NumTheory Fb SkipList TimeQueue RegionList SigIndex PqCore.

(** [regcomp()] with its success and what it leaves, and a [regexec()] that says
    whether there is a match; [regex_zero] is memory filled with zeros. *)
Class Regex := {
  regex : Type;
  regex_zero : regex;
  regcomp : string → bool * regex;
  regexec : regex → string → bool;
}.

(** ** Regular expressions *)

(** [strlen(spec) > 2 && strncmp(".*", spec, 2) == 0] *)
Definition re_isPathological (spec : string) : bool :=
  match spec with
  | String.String c1 (String.String c2 (String.String _ _)) => Ascii.eqb c1 "." && Ascii.eqb c2 "*"
  | _ => false
  end.

(** The loop strips two characters at a time; the outcome says whether it did. *)
Fixpoint re_vet_loop (spec : string) (wasConverted : bool) : bool * string :=
  match spec with
  | String.String c1 (String.String c2 (String.String _ _ as rest)) =>
      if Ascii.eqb c1 "." && Ascii.eqb c2 "*" then re_vet_loop rest true else (wasConverted, spec)
  | _ => (wasConverted, spec)
  end.

Definition re_vetSpec (spec : string) : bool * string := re_vet_loop spec false.

Definition NONE : Z := 0.
Definition ANY : Z := 0xffffffff.

(** Array access. *)
Definition at_ix {A} (l : list A) (i : nat) : res A :=
  match l !! i with Some x => Ok x | None => Err OutOfBounds end.

Section prod_class.
Context `{Regex}.

(** A null pattern is [None]. *)
Record prod_spec := Spec { sp_feedtype : Z; sp_pattern : option string; sp_rgx : regex }.

Record prod_class := Class_ {
  cl_from : timestampt; cl_to : timestampt; psa_len : nat; psa_val : list prod_spec }.

Definition spec_zero : prod_spec := Spec 0 None regex_zero.

(** [_spec_all.pattern] *)
Definition all_pattern : string := ".*".

Definition _spec_all : prod_spec := Spec ANY (Some all_pattern) regex_zero.
Definition _clss_all : prod_class := Class_ TS_ZERO TS_ENDT 1 [_spec_all].
Definition _clss_none : prod_class := Class_ TS_ZERO TS_ZERO 0 [Spec NONE None regex_zero].

(** A pointer to a class: null, [PQ_CLASS_ALL] or another. *)
Inductive class_ptr := CNull | CAll | CAt (c : prod_class).

Definition deref (p : class_ptr) : option prod_class :=
  match p with CNull => None | CAll => Some _clss_all | CAt c => Some c end.

(** ** Comparison

    That a class or a specification is compared with itself is not told apart: the
    outcome is the same. *)

Definition spec_eq (left rght : prod_spec) : bool :=
  if sp_feedtype left =? sp_feedtype rght then
    match sp_pattern left, sp_pattern rght with
    | Some p, Some r => bool_decide (p = r)
    | None, None => true
    | _, _ => false
    end
  else false.

(** From the last element to the first. *)
Fixpoint psa_eq_loop (ii : nat) (lhs rhs : list prod_spec) : res bool :=
  match ii with
  | O => Ok true
  | S ii =>
      let! l := at_ix lhs ii in
      let! r := at_ix rhs ii in
      if spec_eq l r then psa_eq_loop ii lhs rhs else Ok false
  end.

Definition psa_eq (lhs rhs : prod_class) : res bool :=
  if negb (Nat.eqb (psa_len lhs) (psa_len rhs)) then Ok false
  else psa_eq_loop (psa_len rhs) (psa_val lhs) (psa_val rhs).

Definition clsspsa_eq (lhs rhs : option prod_class) : res bool :=
  match lhs, rhs with
  | None, None => Ok true
  | Some l, Some r => psa_eq l r
  | _, _ => Ok false
  end.

Definition clss_eq (lhs rhs : option prod_class) : res bool :=
  match lhs, rhs with
  | None, None => Ok true
  | Some l, Some r =>
      if negb (TV_CMP_EQ (cl_from l) (cl_from r)) then Ok false
      else if negb (TV_CMP_EQ (cl_to l) (cl_to r)) then Ok false
      else psa_eq l r
  | _, _ => Ok false
  end.

(** ** Membership *)

(** [tvCmp(t, u, >)] *)
Abbreviation tv_gt t u := (TV_CMP_LT u t).

Definition timeInClass (clssp : option prod_class) (tsp : timestampt) : res bool :=
  match clssp with
  | None => Ok false
  | Some c =>
      let! all := clss_eq clssp (Some _clss_all) in
      if all then Ok true
      else if tv_gt (cl_from c) (cl_to c)
      then Ok (negb (TV_CMP_LT tsp (cl_to c) || tv_gt tsp (cl_from c)))
      else Ok (negb (TV_CMP_LT tsp (cl_from c) || tv_gt tsp (cl_to c)))
  end.

(** The test of a specification. *)
Definition spec_matches (info : prod_info) (psp : prod_spec) : bool :=
  negb (Z.land (pi_feedtype info) (sp_feedtype psp) =? 0) &&
  (bool_decide (sp_pattern psp = Some all_pattern) || regexec (sp_rgx psp) (pi_ident info)).

(** [n] specifications from [psp] on. *)
Fixpoint prodInClass_loop (n psp : nat) (val : list prod_spec) (info : prod_info) : res bool :=
  match n with
  | O => Ok false
  | S n =>
      let! s := at_ix val psp in
      if spec_matches info s then Ok true else prodInClass_loop n (S psp) val info
  end.

Definition prodInClass (clssp : class_ptr) (info : prod_info) : res bool :=
  match clssp with
  | CAll => Ok true
  | CNull => Ok false
  | CAt c =>
      let! inrange := timeInClass (Some c) (pi_arrival info) in
      if negb inrange then Ok false
      else prodInClass_loop (psa_len c) 0 (psa_val c) info
  end.

(** ** Copying

    [mem] says whether [strdup()] has memory, [mems] for each element. *)

Definition cp_prod_spec (lhs rhs : prod_spec) (mem : bool) : res (Z * prod_spec) :=
  match sp_pattern rhs with
  | None => Err AssertFail
  | Some pattern =>
      assert! bool_decide (sp_pattern lhs = None) in
      if negb mem then Ok (ENOMEM, Spec (sp_feedtype rhs) None (sp_rgx lhs))
      else
        let pattern := (re_vetSpec pattern).2 in
        let '(ok, r) := regcomp pattern in
        Ok (if ok then 0 else EINVAL, Spec (sp_feedtype rhs) (Some pattern) r)
  end.

(** The array of a new class is filled with zeros. *)
Definition new_prod_class (len : nat) (mem : bool) : option prod_class :=
  if negb mem then None
  else Some (Class_ (Timestamp 0 0) (Timestamp 0 0) len (replicate len spec_zero)).

(** [n] specifications are left; [psa_len] of [lhs] counts those that are copied. *)
Fixpoint cp_prod_class_loop (n : nat) (lhs rhs : prod_class) (shallow : bool) (mems : nat → bool) :
    res (Z * prod_class) :=
  match n with
  | O => Ok (0, lhs)
  | S n =>
      let i := psa_len lhs in
      let! l := at_ix (psa_val lhs) i in
      let! r := at_ix (psa_val rhs) i in
      let! '(status, s) :=
        if negb shallow then cp_prod_spec l r (mems i)
        else Ok (0, Spec (sp_feedtype r) (sp_pattern l) (sp_rgx l)) in
      let val := <[i := s]> (psa_val lhs) in
      if negb (status =? 0) then Ok (status, Class_ (cl_from lhs) (cl_to lhs) i val)
      else cp_prod_class_loop n (Class_ (cl_from lhs) (cl_to lhs) (S i) val) rhs shallow mems
  end.

Definition cp_prod_class (lhs rhs : prod_class) (shallow : bool) (mems : nat → bool) :
    res (Z * prod_class) :=
  let! '(status, l) :=
    cp_prod_class_loop (psa_len rhs) (Class_ (cl_from rhs) (cl_to rhs) 0 (psa_val lhs)) rhs shallow mems in
  if negb (status =? 0) then Ok (status, l)
  else
    assert! Nat.eqb (psa_len l) (psa_len rhs) in
    Ok (0, l).

Definition dup_prod_class (c : prod_class) (mem : bool) (mems : nat → bool) : res (option prod_class) :=
  match new_prod_class (psa_len c) mem with
  | None => Ok None
  | Some clone =>
      let! '(status, clone) := cp_prod_class clone c false mems in
      Ok (if negb (status =? 0) then None else Some clone)
  end.

(** [n] patterns are left to be compiled. *)
Fixpoint clss_regcomp_loop (n ii : nat) (val : list prod_spec) : res (list prod_spec) :=
  match n with
  | O => Ok val
  | S n =>
      let! s := at_ix val ii in
      match sp_pattern s with
      | None => Err OutOfBounds
      | Some p =>
          let p := (re_vetSpec p).2 in
          clss_regcomp_loop n (S ii) (<[ii := Spec (sp_feedtype s) (Some p) (regcomp p).2]> val)
      end
  end.

Definition clss_regcomp (clssp : option prod_class) : res (option prod_class) :=
  match clssp with
  | None => Ok None
  | Some c =>
      let! val := clss_regcomp_loop (psa_len c) 0 (psa_val c) in
      Ok (Some (Class_ (cl_from c) (cl_to c) (psa_len c) val))
  end.

(** ** Removing empty specifications *)

(** [memcpy(sp, sp + 1, ...)] up to [en] and zeros at [en]. *)
Definition shuffle (val : list prod_spec) (sp en : nat) : list prod_spec :=
  take sp val ++ take (en - sp) (drop (S sp) val) ++ spec_zero :: drop (S en) val.

Fixpoint scrunch_loop (n sp en len : nat) (val : list prod_spec) : res (nat * list prod_spec) :=
  match n with
  | O => Ok (len, val)
  | S n =>
      let! s := at_ix val sp in
      if sp_feedtype s =? NONE then
        let val := match sp_pattern s with
                   | None => val
                   | Some _ => <[sp := Spec (sp_feedtype s) None regex_zero]> val
                   end in
        let val := if negb (Nat.eqb sp en) then shuffle val sp en else val in
        scrunch_loop n sp (pred en) (pred len) val
      else scrunch_loop n (S sp) en len val
  end.

Definition clss_scrunch (c : prod_class) : res prod_class :=
  let! '(len, val) := scrunch_loop (psa_len c) 0 (pred (psa_len c)) (psa_len c) (psa_val c) in
  Ok (Class_ (cl_from c) (cl_to c) len val).

(** ** Intersection *)

Definition swap_timestamp (fr to : timestampt) : timestampt * timestampt := (to, fr).

(** What the argument [clsspp] points to at the end. *)
Inductive class_out := Unset | SetNull | SetTo (c : prod_class).

(** The times of the intersection, [None] when there are none. *)
Definition time_intersect (lf lt rf rt : timestampt) : option (timestampt * timestampt) :=
  let '(lf, lt) := if tv_gt lf lt then swap_timestamp lf lt else (lf, lt) in
  let wantswapped := tv_gt rf rt in
  let '(rf, rt) := if wantswapped then swap_timestamp rf rt else (rf, rt) in
  if TV_CMP_LT lt rf || TV_CMP_LT rt lf then None
  else
    let from := if tv_gt lf rf then lf else rf in
    let to := if TV_CMP_LT lt rt then lt else rt in
    Some (if wantswapped then swap_timestamp from to else (from, to)).

(** The first feed types that overlap. *)
Fixpoint feed_intersect (filt : list prod_spec) (ft : Z) : Z :=
  match filt with
  | [] => ft
  | f :: filt =>
      let fi := Z.land (sp_feedtype f) ft in
      if negb (fi =? 0) then fi else feed_intersect filt ft
  end.

(** [same] says whether the two pointers are equal. *)
Definition clss_intersect (filt want : option prod_class) (same mem : bool) (mems : nat → bool) :
    res (Z * class_out) :=
  if negb same && match filt, want with Some _, Some _ => false | _, _ => true end then Ok (0, SetNull)
  else
    match filt, want with
    | Some f, Some wn =>
        if Nat.eqb (psa_len f) 0 || Nat.eqb (psa_len wn) 0 then Ok (0, SetNull)
        else if TV_CMP_EQ (cl_from f) (cl_to f) || TV_CMP_EQ (cl_from wn) (cl_to wn) then Ok (0, SetNull)
        else
          match new_prod_class (psa_len wn) mem with
          | None => Ok (ENOMEM, Unset)
          | Some i =>
              let! '(status, i) := cp_prod_class i wn false mems in
              if negb (status =? 0) then Ok (status, Unset)
              else
                let! all := clss_eq filt (Some _clss_all) in
                if all || same then Ok (0, SetTo i)
                else
                  let times :=
                    if negb (TV_CMP_EQ (cl_from f) TS_ZERO) || negb (TV_CMP_EQ (cl_to f) TS_ENDT)
                    then time_intersect (cl_from f) (cl_to f) (cl_from wn) (cl_to wn)
                    else Some (cl_from i, cl_to i) in
                  match times with
                  | None => Ok (0, Unset)
                  | Some (from, to) =>
                      let! f0 := at_ix (psa_val f) 0 in
                      let val :=
                        if negb (sp_feedtype f0 =? ANY) then
                          (λ s, Spec (feed_intersect (take (psa_len f) (psa_val f)) (sp_feedtype s))
                                  (sp_pattern s) (sp_rgx s)) <$> psa_val i
                        else psa_val i in
                      Ok (0, SetTo (Class_ from to (psa_len i) val))
                  end
          end
    | _, _ => Err OutOfBounds
    end.

(** ** Removing specifications

    The inner loop indexes [remove] with the counter of the outer loop. *)

Fixpoint remove_inner (n i : nat) (init_ps : prod_spec) (remove : prod_class) : res prod_spec :=
  match n with
  | O => Ok init_ps
  | S n =>
      let! rem_ps := at_ix (psa_val remove) i in
      if negb (Z.land (sp_feedtype init_ps) (sp_feedtype rem_ps) =? 0) then
        match sp_pattern init_ps, sp_pattern rem_ps with
        | Some p, Some r =>
            remove_inner n i
              (if bool_decide (p = r)
               then Spec (Z.ldiff (sp_feedtype init_ps) (sp_feedtype rem_ps)) (sp_pattern init_ps) (sp_rgx init_ps)
               else init_ps) remove
        | _, _ => Err OutOfBounds
        end
      else remove_inner n i init_ps remove
  end.

Fixpoint remove_outer (n i : nat) (val : list prod_spec) (remove : prod_class) : res (list prod_spec) :=
  match n with
  | O => Ok val
  | S n =>
      let! init_ps := at_ix val i in
      let! s := remove_inner (psa_len remove) i init_ps remove in
      remove_outer n (S i) (<[i := s]> val) remove
  end.

Definition clss_remove_prod_specs (initial remove : prod_class) : res prod_class :=
  let! val := remove_outer (psa_len initial) 0 (psa_val initial) remove in
  clss_scrunch (Class_ (cl_from initial) (cl_to initial) (psa_len initial) val).

Fixpoint feedtypeU_loop (n ii : nat) (val : list prod_spec) (feedtypeU : Z) : res Z :=
  match n with
  | O => Ok feedtypeU
  | S n => let! s := at_ix val ii in feedtypeU_loop n (S ii) val (Z.lor feedtypeU (sp_feedtype s))
  end.

Definition clss_feedtypeU (clssp : option prod_class) : res Z :=
  match clssp with
  | None => Ok NONE
  | Some c => feedtypeU_loop (psa_len c) 0 (psa_val c) NONE
  end.

(** ** Lemmas *)

(** The specifications that count; the array has that many elements. *)
Definition specs (c : prod_class) : list prod_spec := take (psa_len c) (psa_val c).
Definition class_wf (c : prod_class) : Prop := (psa_len c ≤ length (psa_val c))%nat.

(** What two equal specifications have in common. *)
Definition spec_key (s : prod_spec) : Z * option string := (sp_feedtype s, sp_pattern s).

(** Between the two times, in whatever order they are. *)
Definition in_range (from to t : timestampt) : Prop :=
  (TV_CMP_LE from t = true ∧ TV_CMP_LE t to = true) ∨ (TV_CMP_LE to t = true ∧ TV_CMP_LE t from = true).

#[global] Instance in_range_dec from to t : Decision (in_range from to t).
Proof. unfold in_range. apply _. Defined.

(** The times of the Epoch. *)
Definition in_epoch (t : timestampt) : Prop := in_range TS_ZERO TS_ENDT t.

Lemma at_ix_Some {A} (l : list A) i x : l !! i = Some x → at_ix l i = Ok x.
Proof. unfold at_ix. by intros ->. Qed.

Lemma at_ix_lt {A} (l : list A) i : (i < length l)%nat → ∃ x, l !! i = Some x ∧ at_ix l i = Ok x.
Proof. intros Hi. destruct (lookup_lt_is_Some_2 l i Hi) as [x Hx]. exists x. by rewrite (at_ix_Some _ _ _ Hx). Qed.

Lemma spec_eq_key l r : spec_eq l r = bool_decide (spec_key l = spec_key r).
Proof.
  unfold spec_eq, spec_key. destruct l as [a [p|] ?], r as [b [r|] ?]; simpl;
    destruct (Z.eqb_spec a b) as [->|]; repeat case_bool_decide; naive_solver.
Qed.

Lemma psa_eq_loop_spec n lhs rhs :
  (n ≤ length lhs)%nat → (n ≤ length rhs)%nat →
  psa_eq_loop n lhs rhs = Ok (bool_decide (spec_key <$> take n lhs = spec_key <$> take n rhs)).
Proof.
  induction n as [|n IH]; intros Hl Hr; cbn [psa_eq_loop]; [by rewrite bool_decide_true|].
  destruct (at_ix_lt lhs n) as (l & Hln & ->); [lia|]. destruct (at_ix_lt rhs n) as (r & Hrn & ->); [lia|].
  rewrite !bind_Ok, (take_S_r _ _ _ Hln), (take_S_r _ _ _ Hrn), !fmap_app, spec_eq_key. simpl.
  rewrite IH by lia. destruct (decide (spec_key l = spec_key r)) as [Hk|Hk].
  - rewrite (bool_decide_true (spec_key l = _)) by done. f_equal. apply bool_decide_ext. rewrite Hk. split; [by intros ->|]. by intros ?%app_inv_tail.
  - rewrite !bool_decide_false; [done| |done]. intros [_ ?]%app_inj_tail. by apply Hk.
Qed.

Lemma psa_eq_spec l r :
  class_wf l → class_wf r → psa_eq l r = Ok (bool_decide (spec_key <$> specs l = spec_key <$> specs r)).
Proof.
  unfold class_wf, psa_eq, specs. intros Hl Hr. destruct (Nat.eqb_spec (psa_len l) (psa_len r)) as [He|Hne]; simpl.
  - rewrite psa_eq_loop_spec by lia. by rewrite He.
  - rewrite bool_decide_false; [done|]. intros Hx%(f_equal length).
    rewrite !length_fmap, !length_take in Hx. lia.
Qed.

Lemma clss_eq_spec l r :
  class_wf l → class_wf r →
  clss_eq (Some l) (Some r) = Ok (bool_decide (cl_from l = cl_from r ∧ cl_to l = cl_to r ∧
    spec_key <$> specs l = spec_key <$> specs r)).
Proof.
  intros Hl Hr. unfold clss_eq.
  destruct (TV_CMP_EQ (cl_from l) (cl_from r)) eqn:Hf; simpl; cycle 1.
  { rewrite bool_decide_false; [done|]. intros [He%TV_CMP_EQ_eq _]. congruence. }
  destruct (TV_CMP_EQ (cl_to l) (cl_to r)) eqn:Ht; simpl; cycle 1.
  { rewrite bool_decide_false; [done|]. intros (_ & He%TV_CMP_EQ_eq & _). congruence. }
  apply TV_CMP_EQ_eq in Hf, Ht. rewrite psa_eq_spec by done. f_equal. apply bool_decide_ext. naive_solver.
Qed.

Lemma LT_LE t u : TV_CMP_LT t u = negb (TV_CMP_LE u t).
Proof. ts_unfold. destruct t, u. simpl. lia. Qed.

Lemma LE_total t u : TV_CMP_LE t u = false → TV_CMP_LE u t = true.
Proof. ts_unfold. destruct t, u. simpl. lia. Qed.

Lemma LE_trans t u v : TV_CMP_LE t u = true → TV_CMP_LE u v = true → TV_CMP_LE t v = true.
Proof. ts_unfold. destruct t, u, v. simpl. lia. Qed.

Lemma LE_antisym t u : TV_CMP_LE t u = true → TV_CMP_LE u t = true → t = u.
Proof. ts_unfold. destruct t, u. simpl. intros. f_equal; lia. Qed.

Lemma in_range_bool from to t :
  bool_decide (in_range from to t) =
  (TV_CMP_LE from t && TV_CMP_LE t to) || (TV_CMP_LE to t && TV_CMP_LE t from).
Proof.
  apply eq_iff_eq_true. unfold in_range. by rewrite bool_decide_eq_true, orb_true_iff, !andb_true_iff.
Qed.

(** Within the Epoch the test is that of the interval. *)
Lemma timeInClass_spec c t :
  class_wf c → in_epoch t →
  timeInClass (Some c) t = Ok (bool_decide (in_range (cl_from c) (cl_to c) t)).
Proof.
  intros Hwf Ht. unfold timeInClass. rewrite (clss_eq_spec c _clss_all Hwf) by (unfold class_wf; simpl; lia).
  rewrite bind_Ok. case_bool_decide as Hall.
  { destruct Hall as (-> & -> & _). by rewrite bool_decide_true. }
  rewrite !LT_LE, in_range_bool.
  destruct (TV_CMP_LE (cl_from c) (cl_to c)) eqn:Hft; simpl; f_equal; rewrite negb_orb, !negb_involutive.
  - destruct (TV_CMP_LE (cl_from c) t) eqn:H1, (TV_CMP_LE t (cl_to c)) eqn:H2; simpl; try done;
      destruct (TV_CMP_LE (cl_to c) t) eqn:H3, (TV_CMP_LE t (cl_from c)) eqn:H4; simpl; try done.
    + pose proof (LE_trans _ _ _ H4 Hft). congruence.
    + pose proof (LE_trans _ _ _ Hft H3). congruence.
    + pose proof (LE_trans _ _ _ Hft H3). congruence.
  - pose proof (LE_total _ _ Hft) as Htf.
    destruct (TV_CMP_LE (cl_to c) t) eqn:H1, (TV_CMP_LE t (cl_from c)) eqn:H2; simpl; rewrite ?orb_true_r, ?orb_false_r; try done;
      destruct (TV_CMP_LE (cl_from c) t) eqn:H3, (TV_CMP_LE t (cl_to c)) eqn:H4; simpl; try done.
    + pose proof (LE_trans _ _ _ H4 Htf). congruence.
    + pose proof (LE_trans _ _ _ Htf H3). congruence.
    + pose proof (LE_trans _ _ _ Htf H3). congruence.
Qed.

Lemma prodInClass_loop_spec n k val info :
  (k + n ≤ length val)%nat →
  prodInClass_loop n k val info = Ok (existsb (spec_matches info) (take n (drop k val))).
Proof.
  revert k. induction n as [|n IH]; intros k Hk; simpl; [done|].
  destruct (at_ix_lt val k) as (s & Hs & ->); [lia|]. rewrite bind_Ok, (drop_S _ _ _ Hs). simpl.
  destruct (spec_matches info s); [done|]. by rewrite IH by lia.
Qed.

(** The class selects the product. *)
Definition selects (c : prod_class) (info : prod_info) : Prop :=
  in_range (cl_from c) (cl_to c) (pi_arrival info) ∧ Exists (λ s, spec_matches info s = true) (specs c).

#[global] Instance selects_dec c info : Decision (selects c info).
Proof. unfold selects. apply _. Defined.

Lemma prodInClass_spec c info :
  class_wf c → in_epoch (pi_arrival info) → prodInClass (CAt c) info = Ok (bool_decide (selects c info)).
Proof.
  intros Hwf Ht. unfold prodInClass. rewrite timeInClass_spec by done. rewrite bind_Ok. unfold selects.
  destruct (decide (in_range (cl_from c) (cl_to c) (pi_arrival info))) as [Hr|Hr].
  - rewrite bool_decide_true by done. simpl. rewrite prodInClass_loop_spec by done. f_equal.
    rewrite drop_0. fold (specs c). destruct (existsb _ _) eqn:Hx; symmetry.
    + apply bool_decide_true. split; [done|]. apply existsb_exists in Hx as (s & Hs & Hm).
      apply Exists_exists. exists s. split; [by apply list_elem_of_In|done].
    + apply bool_decide_false. intros [_ (s & Hs & Hm)%Exists_exists].
      assert (existsb (spec_matches info) (specs c) = true); [|congruence].
      apply existsb_exists. exists s. split; [by apply list_elem_of_In|done].
  - rewrite bool_decide_false by done. simpl. rewrite bool_decide_false by tauto. done.
Qed.

(** ** Removing empty specifications *)

Definition keep (s : prod_spec) : Prop := sp_feedtype s ≠ NONE.

#[global] Instance keep_dec s : Decision (keep s).
Proof. unfold keep. apply _. Defined.

Lemma shuffle_spec P s R T :
  shuffle (P ++ s :: R ++ T) (length P) (length P + length R) = P ++ R ++ spec_zero :: T.
Proof.
  unfold shuffle. rewrite take_app_length. f_equal.
  replace (length P + length R - length P)%nat with (length R) by lia.
  rewrite (cons_middle s), app_assoc, app_assoc.
  replace (S (length P)) with (length (P ++ [s])) by (rewrite length_app; simpl; lia).
  replace (S (length P + length R)) with (length ((P ++ [s]) ++ R)) by (rewrite !length_app; simpl; lia).
  rewrite <- app_assoc, drop_app_length, take_app_length. f_equal. f_equal.
  by rewrite app_assoc, drop_app_length.
Qed.

Lemma scrunch_loop_spec R P T :
  ∃ T', scrunch_loop (length R) (length P) (pred (length P + length R)) (length P + length R) (P ++ R ++ T) =
    Ok (length P + length (filter keep R), P ++ filter keep R ++ T')%nat ∧
    (length (filter keep R) + length T' = length R + length T)%nat.
Proof.
  revert P T. induction R as [|s R IH]; intros P T.
  { exists T. simpl. rewrite Nat.add_0_r. done. }
  cbn [length scrunch_loop app].
  rewrite (at_ix_Some _ _ s) by by rewrite lookup_app_r, Nat.sub_diag by lia. rewrite bind_Ok, filter_cons.
  replace (pred (length P + S (length R)))%nat with (length P + length R)%nat by lia.
  destruct (Z.eqb_spec (sp_feedtype s) NONE) as [Hz|Hz].
  - rewrite decide_False by (unfold keep; naive_solver).
    assert (∃ s', (match sp_pattern s with
      | None => P ++ s :: R ++ T
      | Some _ => <[length P := Spec (sp_feedtype s) None regex_zero]> (P ++ s :: R ++ T) end) =
      P ++ s' :: R ++ T) as [s' ->].
    { destruct (sp_pattern s); [|eauto]. eexists. by rewrite insert_app_r_alt, Nat.sub_diag by lia. }
    destruct (decide (R = [])) as [->|Hne].
    + cbn [length]. rewrite Nat.add_0_r, Nat.eqb_refl. exists (s' :: T). simpl.
      split; [|done]. f_equal. f_equal. lia.
    + assert (length R ≠ 0)%nat by by destruct R.
      rewrite (proj2 (Nat.eqb_neq _ _)) by lia. simpl negb. cbv iota. rewrite shuffle_spec.
      destruct (IH P (spec_zero :: T)) as (T' & Hrun & Hlen). exists T'.
      replace (pred (length P + S (length R)))%nat with (length P + length R)%nat by lia.
      rewrite Hrun. split; [done|]. simpl in *. lia.
  - rewrite decide_True by done. destruct (IH (P ++ [s]) T) as (T' & Hrun & Hlen). exists T'.
    rewrite length_app, <- !app_assoc in Hrun. simpl in Hrun.
    replace (length P + 1)%nat with (S (length P)) in Hrun by lia.
    replace (length P + S (length R))%nat with (S (length P) + length R)%nat by lia.
    replace (length P + length R)%nat with (pred (S (length P) + length R))%nat by lia.
    rewrite Hrun. simpl. split; [f_equal; f_equal; lia|lia].
Qed.

Lemma clss_scrunch_spec c :
  class_wf c → ∃ c', clss_scrunch c = Ok c' ∧ class_wf c' ∧ specs c' = filter keep (specs c) ∧
    cl_from c' = cl_from c ∧ cl_to c' = cl_to c.
Proof.
  unfold class_wf. intros Hwf. unfold clss_scrunch.
  destruct (scrunch_loop_spec (specs c) [] (drop (psa_len c) (psa_val c))) as (T' & Hrun & Hlen).
  unfold specs in *. rewrite app_nil_l, take_drop, length_take_le in Hrun by done. cbn [length Nat.add] in Hrun.
  rewrite Hrun, bind_Ok. eexists. split; [reflexivity|]. simpl. split; [rewrite length_app; lia|].
  by rewrite take_app_length.
Qed.

(** ** Copying *)

(** A copy of a specification. *)
Definition spec_copy (s : prod_spec) : prod_spec :=
  let p := (re_vetSpec (default ""%string (sp_pattern s))).2 in Spec (sp_feedtype s) (Some p) (regcomp p).2.

(** A specification whose pattern can be compiled. *)
Definition spec_good (s : prod_spec) : Prop :=
  ∃ p, sp_pattern s = Some p ∧ (regcomp (re_vetSpec p).2).1 = true.

Lemma cp_prod_class_loop_spec R P k from to rf rt rval mems :
  (∀ i, mems i = true) → Forall spec_good R →
  (∃ rest, rval = P ++ R ++ rest) →
  cp_prod_class_loop (length R) (Class_ from to (length P) ((spec_copy <$> P) ++ replicate (length R) spec_zero ++ k))
    (Class_ rf rt (length P + length R) rval) false mems =
  Ok (0, Class_ from to (length P + length R) ((spec_copy <$> P ++ R) ++ k)).
Proof.
  intros Hm. revert P. induction R as [|s R IH]; intros P Hg [rest ->].
  { simpl. by rewrite Nat.add_0_r, app_nil_r. }
  apply Forall_cons in Hg as [(p & Hp & Hc) Hg]. cbn [length cp_prod_class_loop replicate psa_len psa_val].
  rewrite (at_ix_Some _ _ spec_zero) by (rewrite lookup_app_r, length_fmap, Nat.sub_diag by (rewrite length_fmap; lia); done).
  rewrite (at_ix_Some _ _ s) by (by rewrite lookup_app_r, Nat.sub_diag by lia).
  rewrite !bind_Ok. simpl negb. cbv iota. unfold cp_prod_spec. rewrite Hp, bool_decide_true by done.
  rewrite assert_Ok, bind_Ok by done. rewrite Hm. simpl negb. cbv iota.
  destruct (regcomp (re_vetSpec p).2) as [ok r] eqn:Hr. simpl in Hc. subst ok. rewrite bind_Ok. simpl negb. cbv iota.
  assert (<[length P := Spec (sp_feedtype s) (Some (re_vetSpec p).2) r]>
            ((spec_copy <$> P) ++ (spec_zero :: replicate (length R) spec_zero) ++ k) =
          (spec_copy <$> P ++ [s]) ++ replicate (length R) spec_zero ++ k) as ->.
  { rewrite insert_app_r_alt by (rewrite length_fmap; lia). rewrite length_fmap, Nat.sub_diag. simpl.
    rewrite fmap_app, <- app_assoc. simpl. unfold spec_copy at 3. rewrite Hp. simpl. by rewrite Hr. }
  specialize (IH (P ++ [s]) Hg). rewrite length_app, <- !app_assoc in IH. simpl in IH.
  replace (length P + 1)%nat with (S (length P)) in IH by lia.
  replace (length P + S (length R))%nat with (S (length P) + length R)%nat by lia.
  apply IH.
  exists rest. by rewrite <- app_assoc.
Qed.

Lemma dup_prod_class_spec c mems :
  class_wf c → (∀ i, mems i = true) → Forall spec_good (specs c) →
  ∃ c', dup_prod_class c true mems = Ok (Some c') ∧ class_wf c' ∧ specs c' = spec_copy <$> specs c ∧
    cl_from c' = cl_from c ∧ cl_to c' = cl_to c ∧ psa_len c' = psa_len c.
Proof.
  unfold class_wf. intros Hwf Hm Hg. unfold dup_prod_class, new_prod_class. simpl negb. cbv iota.
  unfold cp_prod_class. cbn [cl_from cl_to psa_len psa_val].
  pose proof (cp_prod_class_loop_spec (specs c) [] [] (cl_from c) (cl_to c) (cl_from c) (cl_to c) (psa_val c)
    mems Hm Hg) as Hrun. unfold specs in *. rewrite length_take_le in Hrun by done.
  cbn [length app fmap list_fmap Nat.add] in Hrun. rewrite !app_nil_r in Hrun.
  assert (Class_ (cl_from c) (cl_to c) (psa_len c) (psa_val c) = c) as Hc by by destruct c. rewrite Hc in Hrun.
  rewrite Hrun by (exists (drop (psa_len c) (psa_val c)); by rewrite take_drop).
  rewrite bind_Ok. simpl negb. cbv iota. cbn [psa_len]. rewrite Nat.eqb_refl, assert_Ok, !bind_Ok by done.
  eexists. split; [reflexivity|]. simpl. rewrite length_fmap, length_take_le by done.
  split; [done|]. split; [|done]. apply take_ge. rewrite length_fmap, length_take_le by done. done.
Qed.

(** ** Patterns *)

Lemma re_vet_loop_eq c1 c2 c3 s b :
  re_vet_loop (String.String c1 (String.String c2 (String.String c3 s))) b =
  if Ascii.eqb c1 "." && Ascii.eqb c2 "*" then re_vet_loop (String.String c3 s) true
  else (b, String.String c1 (String.String c2 (String.String c3 s))).
Proof. reflexivity. Qed.

Lemma re_vet_loop_spec s b :
  re_isPathological (re_vet_loop s b).2 = false ∧ (re_vet_loop s b).1 = b || re_isPathological s ∧
  (re_isPathological s = false → (re_vet_loop s b).2 = s).
Proof.
  assert (∀ n s b, (String.length s < n)%nat →
    re_isPathological (re_vet_loop s b).2 = false ∧ (re_vet_loop s b).1 = b || re_isPathological s ∧
    (re_isPathological s = false → (re_vet_loop s b).2 = s)) as Hn; [|by eapply (Hn (S (String.length s))); lia].
  clear s b. induction n as [|n IH]; intros s b Hlen; [lia|].
  destruct s as [|c1 [|c2 [|c3 s]]]; try (by rewrite orb_false_r).
  change (re_isPathological (String.String c1 _)) with (Ascii.eqb c1 "." && Ascii.eqb c2 "*").
  rewrite re_vet_loop_eq. destruct (Ascii.eqb c1 "." && Ascii.eqb c2 "*") eqn:Hp.
  - destruct (IH (String.String c3 s) true) as (H1 & H2 & _); [simpl in *; lia|].
    split; [exact H1|]. split; [|done]. by rewrite H2, orb_true_r.
  - rewrite orb_false_r. simpl. by rewrite Hp.
Qed.

(** ** Intersection *)

Lemma in_range_comm a b t : in_range a b t ↔ in_range b a t.
Proof. unfold in_range. tauto. Qed.

Lemma in_range_le a b t :
  TV_CMP_LE a b = true → in_range a b t ↔ TV_CMP_LE a t = true ∧ TV_CMP_LE t b = true.
Proof.
  intros Hab. unfold in_range. split; [|by left]. intros [?|[H1 H2]]; [done|].
  pose proof (LE_trans _ _ _ H2 Hab). pose proof (LE_trans _ _ _ Hab H1).
  done.
Qed.

(** The two ends in ascending order. *)
Lemma in_range_swap a b :
  let '(x, y) := if tv_gt a b then swap_timestamp a b else (a, b) in
  TV_CMP_LE x y = true ∧ ∀ t, in_range x y t ↔ in_range a b t.
Proof.
  unfold swap_timestamp. rewrite LT_LE. destruct (TV_CMP_LE a b) eqn:Hab; simpl; [done|].
  split; [by apply LE_total|]. intros t. apply in_range_comm.
Qed.

Lemma time_intersect_spec lf lt rf rt t :
  match time_intersect lf lt rf rt with
  | Some (a, b) => in_range a b t ↔ in_range lf lt t ∧ in_range rf rt t
  | None => ¬ (in_range lf lt t ∧ in_range rf rt t)
  end.
Proof.
  unfold time_intersect. pose proof (in_range_swap lf lt) as Hl. pose proof (in_range_swap rf rt) as Hr.
  destruct (if tv_gt lf lt then _ else _) as [a b]. destruct (if tv_gt rf rt then _ else _) as [c d].
  destruct Hl as [Hab Hl], Hr as [Hcd Hr]. specialize (Hl t). specialize (Hr t).
  rewrite (in_range_le a b) in Hl by done. rewrite (in_range_le c d) in Hr by done. rewrite !LT_LE.
  destruct (TV_CMP_LE c b) eqn:Hcb; simpl; cycle 1.
  { rewrite <- Hl, <- Hr. intros ((H1 & H2) & (H3 & H4)). pose proof (LE_trans _ _ _ H3 H2). congruence. }
  destruct (TV_CMP_LE a d) eqn:Had; simpl; cycle 1.
  { rewrite <- Hl, <- Hr. intros ((H1 & H2) & (H3 & H4)). pose proof (LE_trans _ _ _ H1 H4). congruence. }
  assert (∀ x y, (x = if negb (TV_CMP_LE a c) then a else c) → (y = if negb (TV_CMP_LE d b) then b else d) →
    in_range x y t ↔ in_range lf lt t ∧ in_range rf rt t) as Hgo.
  { intros x y -> ->. rewrite <- Hl, <- Hr. destruct (TV_CMP_LE a c) eqn:Hac, (TV_CMP_LE d b) eqn:Hdb; simpl;
      rewrite in_range_le by done; try apply LE_total in Hac; try apply LE_total in Hdb;
      (split; [|tauto]); intros [H1 H2]; eauto 10 using LE_trans. }
  destruct (TV_CMP_LE rf rt); simpl; [by apply Hgo|]. rewrite in_range_comm. by apply Hgo.
Qed.

(** What becomes of the argument [clsspp] of [clss_intersect()]. *)
Definition intersected (f wn : prod_class) (out : class_out) : Prop :=
  match out with
  | SetTo c => class_wf c ∧ ∀ t, in_epoch t →
      in_range (cl_from c) (cl_to c) t ↔
      in_range (cl_from f) (cl_to f) t ∧ in_range (cl_from wn) (cl_to wn) t
  | Unset => ∀ t, ¬ (in_range (cl_from f) (cl_to f) t ∧ in_range (cl_from wn) (cl_to wn) t)
  | SetNull => False
  end.

Lemma clss_intersect_spec f wn mems :
  class_wf f → class_wf wn → psa_len f ≠ 0%nat → psa_len wn ≠ 0%nat →
  cl_from f ≠ cl_to f → cl_from wn ≠ cl_to wn →
  (∀ i, mems i = true) → Forall spec_good (specs wn) →
  ∃ out, clss_intersect (Some f) (Some wn) false true mems = Ok (0, out) ∧ intersected f wn out.
Proof.
  intros Hwf Hww Hfl Hwl Hft Hwt Hm Hg. unfold clss_intersect. simpl andb. cbv iota.
  rewrite (proj2 (Nat.eqb_neq _ _) Hfl), (proj2 (Nat.eqb_neq _ _) Hwl). simpl orb. cbv iota.
  assert (TV_CMP_EQ (cl_from f) (cl_to f) = false ∧ TV_CMP_EQ (cl_from wn) (cl_to wn) = false) as [-> ->].
  { split; apply not_true_is_false; by intros ?%TV_CMP_EQ_eq. }
  simpl orb. cbv iota. destruct (dup_prod_class_spec wn mems Hww Hm Hg) as (i & Hdup & Hwi & _ & Hif & Hit & Hil).
  unfold dup_prod_class in Hdup. destruct (new_prod_class (psa_len wn) true) as [c0|]; [|done].
  apply bind_inv in Hdup as ([st c1] & -> & Hdup). rewrite bind_Ok.
  destruct (st =? 0) eqn:Hst; simpl in Hdup; [|done]. injection Hdup as ->. simpl negb. cbv iota.
  rewrite (clss_eq_spec f _clss_all Hwf) by (unfold class_wf; simpl; lia). rewrite bind_Ok, orb_false_r.
  assert (∀ t, in_epoch t → cl_from f = TS_ZERO → cl_to f = TS_ENDT →
    in_range (cl_from i) (cl_to i) t ↔
    in_range (cl_from f) (cl_to f) t ∧ in_range (cl_from wn) (cl_to wn) t) as Hall.
  { intros t Ht Hf1 Hf2. rewrite Hif, Hit, Hf1, Hf2. unfold in_epoch in Ht. tauto. }
  case_bool_decide as Hf.
  { destruct Hf as (Hf1 & Hf2 & _). exists (SetTo i). split; [done|]. split; [done|]. intros t Ht. by apply Hall. }
  assert (∀ val, length val = length (psa_val i) → ∀ a b, class_wf (Class_ a b (psa_len i) val)) as Hval.
  { intros val Hl a b. unfold class_wf in *. simpl. lia. }
  assert (length (psa_val f) ≠ 0)%nat by (unfold class_wf in Hwf; lia).
  destruct (at_ix_lt (psa_val f) 0) as (f0 & _ & Hf0); [lia|].
  set (times := if _ || _ then _ else _).
  assert (match times with
    | Some (a, b) => ∀ t, in_epoch t → in_range a b t ↔
        in_range (cl_from f) (cl_to f) t ∧ in_range (cl_from wn) (cl_to wn) t
    | None => ∀ t, ¬ (in_range (cl_from f) (cl_to f) t ∧ in_range (cl_from wn) (cl_to wn) t) end) as Htimes.
  { unfold times. destruct (TV_CMP_EQ (cl_from f) TS_ZERO) eqn:Hz, (TV_CMP_EQ (cl_to f) TS_ENDT) eqn:He;
      simpl; rewrite ?TV_CMP_EQ_eq in Hz, He; [intros t Ht; by apply Hall|..];
      pose proof (time_intersect_spec (cl_from f) (cl_to f) (cl_from wn) (cl_to wn)) as Hti;
      destruct (time_intersect _ _ _ _) as [[a b]|]; eauto. }
  destruct times as [[a b]|]; [|by exists Unset]. rewrite Hf0, bind_Ok. eexists. split; [reflexivity|].
  split; [|exact Htimes]. apply Hval. case_match; [by rewrite length_fmap|done].
Qed.

(** ** Removal *)

Lemma remove_inner_short n i s r :
  (0 < n)%nat → (length (psa_val r) ≤ i)%nat → remove_inner n i s r = Err OutOfBounds.
Proof.
  intros Hn Hi. destruct n as [|n]; [lia|]. simpl. unfold at_ix. by rewrite lookup_ge_None_2.
Qed.

Lemma remove_inner_err n i s r e : remove_inner n i s r = Err e → e = OutOfBounds.
Proof.
  revert s. induction n as [|n IH]; intros s; simpl; [done|]. unfold at_ix.
  destruct (psa_val r !! i); simpl; [|congruence]. case_match; [|apply IH]. repeat case_match; naive_solver.
Qed.

Lemma remove_outer_short n i val r :
  (0 < psa_len r)%nat → (i + n ≤ length val)%nat → (i < length (psa_val r) < i + n)%nat ∨ (length (psa_val r) ≤ i ∧ 0 < n)%nat →
  remove_outer n i val r = Err OutOfBounds.
Proof.
  intros Hr. revert i val. induction n as [|n IH]; intros i val Hv Hi; [lia|]. cbn [remove_outer].
  destruct (at_ix_lt val i) as (s & _ & ->); [lia|]. rewrite bind_Ok.
  destruct (decide (length (psa_val r) ≤ i)%nat) as [Hs|Hs].
  { by rewrite remove_inner_short by lia. }
  destruct (remove_inner (psa_len r) i s r) as [s'|e] eqn:He; simpl.
  - apply IH; [rewrite length_insert|]; lia.
  - by apply remove_inner_err in He as ->.
Qed.

(** ** Feed types *)

Lemma feedtypeU_loop_spec n k val u :
  (k + n ≤ length val)%nat →
  ∃ v, feedtypeU_loop n k val u = Ok v ∧
    ∀ b, 0 ≤ b → Z.testbit v b = Z.testbit u b || existsb (λ s, Z.testbit (sp_feedtype s) b) (take n (drop k val)).
Proof.
  revert k u. induction n as [|n IH]; intros k u Hk; simpl.
  { exists u. split; [done|]. intros b Hb. by rewrite orb_false_r. }
  destruct (at_ix_lt val k) as (s & Hs & ->); [lia|]. rewrite bind_Ok, (drop_S _ _ _ Hs). simpl.
  destruct (IH (S k) (Z.lor u (sp_feedtype s))) as (v & -> & Hv); [lia|]. exists v. split; [done|].
  intros b Hb. by rewrite Hv, Z.lor_spec, orb_assoc.
Qed.

(** ** Compiling *)

Lemma re_vetSpec_idemp p : (re_vetSpec (re_vetSpec p).2).2 = (re_vetSpec p).2.
Proof. unfold re_vetSpec. apply re_vet_loop_spec, re_vet_loop_spec. Qed.

Lemma spec_copy_idemp s : spec_copy (spec_copy s) = spec_copy s.
Proof.
  unfold spec_copy. cbn [sp_feedtype sp_pattern]. unfold default at 1 3, from_option, id.
  by rewrite re_vetSpec_idemp.
Qed.

Lemma spec_copy_good s : spec_good s → spec_good (spec_copy s).
Proof.
  intros (p & Hp & Hc). exists (re_vetSpec p).2. unfold spec_copy. rewrite Hp. split; [done|].
  by rewrite re_vetSpec_idemp.
Qed.

Lemma clss_regcomp_loop_spec R P T :
  Forall spec_good R →
  clss_regcomp_loop (length R) (length P) (P ++ R ++ T) = Ok (P ++ (spec_copy <$> R) ++ T).
Proof.
  revert P. induction R as [|s R IH]; intros P Hg; [done|]. apply Forall_cons in Hg as [(p & Hp & _) Hg].
  cbn [length clss_regcomp_loop app]. rewrite (at_ix_Some _ _ s) by by rewrite lookup_app_r, Nat.sub_diag by lia.
  rewrite bind_Ok, Hp, insert_app_r_alt, Nat.sub_diag by lia.
  assert (Spec (sp_feedtype s) (Some (re_vetSpec p).2) (regcomp (re_vetSpec p).2).2 = spec_copy s) as ->
    by (unfold spec_copy; by rewrite Hp).
  specialize (IH (P ++ [spec_copy s]) Hg). rewrite length_app, <- !app_assoc in IH. simpl in IH.
  rewrite Nat.add_1_r in IH. exact IH.
Qed.

(** ** Properties *)

(** C35: selection.  [prodInClass()] of a class that is not [PQ_CLASS_ALL] ends without
    an access outside of the array, and is true exactly for a product that was
    created between the two times of the class, in whatever order they are, and
    of which some specification has a feed type and matches the identifier; such
    a product has one of the feed types of [clss_feedtypeU()]. *)
Theorem prodInClass_correct c info :
  class_wf c → in_epoch (pi_arrival info) →
  ∃ b ft, prodInClass (CAt c) info = Ok b ∧ clss_feedtypeU (Some c) = Ok ft ∧ (b = true ↔ selects c info) ∧
    (b = true → Z.land (pi_feedtype info) ft ≠ 0).
Proof.
  intros Hwf Ht. destruct (feedtypeU_loop_spec (psa_len c) 0 (psa_val c) NONE Hwf) as (ft & Hft & Hbits).
  exists (bool_decide (selects c info)), ft. rewrite prodInClass_spec by done. split; [done|]. split; [exact Hft|].
  rewrite bool_decide_eq_true. split; [done|]. intros [_ (s & Hs & Hm)%Exists_exists] Hz.
  unfold spec_matches in Hm. apply andb_true_iff in Hm as [Hl%negb_true_iff%Z.eqb_neq _]. apply Hl.
  apply Z.bits_inj'. intros b Hb. apply (f_equal (λ z, Z.testbit z b)) in Hz.
  rewrite Z.land_spec, Hbits, Z.bits_0 in Hz by done. rewrite Z.land_spec, Z.bits_0.
  destruct (Z.testbit (pi_feedtype info) b); [simpl in *|done]. apply not_true_is_false. intros Hsb.
  assert (existsb (λ s, Z.testbit (sp_feedtype s) b) (take (psa_len c) (drop 0 (psa_val c))) = true) as Hx.
  { apply existsb_exists. exists s. split; [by apply list_elem_of_In|done]. }
  by rewrite Hx, ?orb_true_r, Z.bits_0 in Hz.
Qed.

(** [clss_scrunch()] is a filter: it removes the specifications without a feed
    type, keeps the others in their order, and the class selects the same
    products. *)
Theorem clss_scrunch_correct c :
  class_wf c → ∃ c', clss_scrunch c = Ok c' ∧ class_wf c' ∧ specs c' = filter keep (specs c) ∧
    ∀ info, selects c' info ↔ selects c info.
Proof.
  intros Hwf. destruct (clss_scrunch_spec c Hwf) as (c' & Hrun & Hwf' & Hs & Hf & Ht).
  exists c'. split; [done|]. split; [done|]. split; [done|]. intros info. unfold selects.
  rewrite Hf, Ht, Hs, !Exists_exists. setoid_rewrite list_elem_of_filter.
  split; intros (Hr & s & Hin & Hm); (split; [done|]); exists s; [tauto|].
  split; [|done]. split; [|done]. intros Hz. unfold spec_matches in Hm. by rewrite Hz, Z.land_0_r in Hm.
Qed.

(** A class whose patterns were compiled by [clss_regcomp()] has no pathological
    pattern, and a [dup_prod_class()] for which there is memory has the same
    specifications and is equal to it by [clss_eq()]. *)
Theorem dup_prod_class_roundtrip c mems :
  class_wf c → Forall spec_good (specs c) → (∀ i, mems i = true) →
  ∃ r c', clss_regcomp (Some c) = Ok (Some r) ∧ dup_prod_class r true mems = Ok (Some c') ∧
    specs c' = specs r ∧ clss_eq (Some c') (Some r) = Ok true ∧
    ∀ s p, s ∈ specs r → sp_pattern s = Some p → re_isPathological p = false.
Proof.
  intros Hwf Hg Hm. unfold clss_regcomp.
  pose proof (clss_regcomp_loop_spec (specs c) [] (drop (psa_len c) (psa_val c)) Hg) as Hrun.
  unfold specs, class_wf in *. rewrite !app_nil_l, take_drop, length_take_le in Hrun by done.
  cbn [length] in Hrun. rewrite Hrun, bind_Ok.
  set (r := Class_ _ _ _ _).
  assert (specs r = spec_copy <$> take (psa_len c) (psa_val c)) as Hr.
  { unfold specs, r. simpl. apply take_app_length'. by rewrite length_fmap, length_take_le. }
  assert (class_wf r) as Hwr.
  { unfold class_wf, r. simpl. rewrite length_app, length_fmap, length_take_le by done. lia. }
  destruct (dup_prod_class_spec r mems Hwr Hm) as (c' & Hdup & Hwf' & Hs & Hf & Ht & _).
  { rewrite Hr, Forall_fmap. eapply Forall_impl; [exact Hg|]. apply spec_copy_good. }
  assert (specs c' = specs r) as Hsame.
  { rewrite Hs, Hr, <- list_fmap_compose. apply list_fmap_ext. intros i s _. apply spec_copy_idemp. }
  exists r, c'. split; [done|]. split; [done|]. split; [exact Hsame|]. split.
  - rewrite clss_eq_spec by done. f_equal. apply bool_decide_true. by rewrite Hsame.
  - intros s p Hin Hp. fold (specs r) in Hin. rewrite Hr in Hin. apply list_elem_of_fmap in Hin as (s0 & -> & _).
    unfold spec_copy in Hp. injection Hp as <-. apply re_vet_loop_spec.
Qed.

(** The times of an intersection.  For classes with specifications and different
    times, given memory and patterns that compile, [clss_intersect()] returns 0 and
    the times of the class it makes are exactly those that both classes have, in
    whatever order their times are; when they have none in common, no class is
    set although the status is that of success. *)
Theorem clss_intersect_times f wn mems :
  class_wf f → class_wf wn → psa_len f ≠ 0%nat → psa_len wn ≠ 0%nat →
  cl_from f ≠ cl_to f → cl_from wn ≠ cl_to wn →
  (∀ i, mems i = true) → Forall spec_good (specs wn) →
  ∃ out, clss_intersect (Some f) (Some wn) false true mems = Ok (0, out) ∧ intersected f wn out.
Proof. apply clss_intersect_spec. Qed.

(** [clss_remove_prod_specs()] reads outside of the array of specifications to
    remove whenever there is one but fewer than there are initially. *)
Theorem clss_remove_out_of_bounds initial remove :
  class_wf initial → (0 < psa_len remove)%nat → (length (psa_val remove) < psa_len initial)%nat →
  clss_remove_prod_specs initial remove = Err OutOfBounds.
Proof.
  intros Hwf Hr Hlen. unfold clss_remove_prod_specs, class_wf in *. rewrite remove_outer_short; [done|lia|lia|].
  destruct (length (psa_val remove)); [right|left]; lia.
Qed.

End prod_class.

(** ** Witnesses *)

(** Patterns that match what they begin. *)
#[local] Instance prefix_regex : Regex := {
  regex := string; regex_zero := ""%string; regcomp p := (true, p); regexec r s := String.prefix r s;
}.

Definition ex_class : prod_class :=
  Class_ (Timestamp 1800000000 0) TS_ZERO 3
    [Spec 4 (Some ".*KWBC"%string) "KWBC"%string; Spec NONE (Some "x"%string) "x"%string;
     Spec 1 (Some "SAUS"%string) "SAUS"%string].

Definition ex_prod_info : prod_info :=
  ProdInfo (Timestamp 1700000000 5) (replicate 16 7) "host.edu"%string 1 2 "SAUS41 KWBC"%string 3.

Lemma ex_class_wf : class_wf ex_class.
Proof. unfold class_wf. simpl. lia. Qed.

Lemma ex_class_good : Forall spec_good (specs ex_class).
Proof. repeat constructor; eexists; done. Qed.

Lemma prodInClass_correct_witness :
  ∃ b ft, prodInClass (CAt ex_class) ex_prod_info = Ok b ∧ clss_feedtypeU (Some ex_class) = Ok ft ∧
    (b = true ↔ selects ex_class ex_prod_info) ∧ (b = true → Z.land (pi_feedtype ex_prod_info) ft ≠ 0).
Proof. apply (prodInClass_correct ex_class ex_prod_info ex_class_wf). left. vm_compute. done. Defined.

Lemma clss_scrunch_correct_witness :
  ∃ c', clss_scrunch ex_class = Ok c' ∧ class_wf c' ∧ specs c' = filter keep (specs ex_class) ∧
    ∀ info, selects c' info ↔ selects ex_class info.
Proof. exact (clss_scrunch_correct ex_class ex_class_wf). Defined.

Lemma dup_prod_class_roundtrip_witness :
  ∃ r c', clss_regcomp (Some ex_class) = Ok (Some r) ∧ dup_prod_class r true (λ _, true) = Ok (Some c') ∧
    specs c' = specs r ∧ clss_eq (Some c') (Some r) = Ok true ∧
    ∀ s p, s ∈ specs r → sp_pattern s = Some p → re_isPathological p = false.
Proof. exact (dup_prod_class_roundtrip ex_class (λ _, true) ex_class_wf ex_class_good (λ _, eq_refl)). Defined.

Definition ex_filter : prod_class :=
  Class_ (Timestamp 1000000000 0) (Timestamp 1600000000 0) 1 [Spec 4 (Some ".*"%string) ".*"%string].

Lemma clss_intersect_times_witness :
  ∃ out, clss_intersect (Some ex_filter) (Some ex_class) false true (λ _, true) = Ok (0, out) ∧
    intersected ex_filter ex_class out.
Proof.
  apply (clss_intersect_times ex_filter ex_class (λ _, true)); try done.
  - unfold class_wf. simpl. lia.
  - exact ex_class_wf.
  - exact ex_class_good.
Defined.

Lemma clss_remove_out_of_bounds_witness : clss_remove_prod_specs ex_class ex_filter = Err OutOfBounds.
Proof. apply (clss_remove_out_of_bounds ex_class ex_filter ex_class_wf); simpl; lia. Defined.
