(* ===== verification/ProdInfo.v ===== *)
(** * Metadata of products (src/protocol2/prod_info.c, data_prod.c, savedInfo.c, DownHelp.c)

    Copies of the metadata of a product, with room for the longest strings; the
    comparison of metadata and of products; the metadata that a process saved last;
    and the origin that a downstream LDM gives to a product that it receives. *)

From Stdlib Require Import Ascii.
From stdpp Require Import strings.
From S2P Require Import Prelude Timestamp NumTheory Fb SkipList TimeQueue RegionList SigIndex Riul PqCore Xlen ProdClass.

Definition MAGIC_VALUE : Z := 0x60231023.
Definition HOSTNAMESIZE : nat := 64.
Definition KEYSIZE : nat := 255.
Definition MAXHOSTNAMELEN : nat := 64.

(** ** C strings

    A string has no zero character.  [strncpy(dest, src, n)] with a zero at
    [dest[n]]: the first [n] characters. *)

Fixpoint str_take (n : nat) (s : string) : string :=
  match n, s with
  | S n, String.String c s => String.String c (str_take n s)
  | _, _ => String.EmptyString
  end.

(** Whether a string begins with another, and [strstr()]: how many characters are
    before the first occurrence. *)
Fixpoint str_prefix (p s : string) : bool :=
  match p, s with
  | String.EmptyString, _ => true
  | String.String c p, String.String d s => Ascii.eqb c d && str_prefix p s
  | String.String _ _, String.EmptyString => false
  end.

Fixpoint strstr (s sub : string) : option nat :=
  if str_prefix sub s then Some O
  else match s with String.EmptyString => None | String.String _ s => S <$> strstr s sub end.

(** [strcmp() == 0]; a null pointer is [None]. *)
Definition strcmp_eq (s t : option string) : res bool :=
  match s, t with Some s, Some t => Ok (bool_decide (s = t)) | _, _ => Err OutOfBounds end.

#[global] Instance prod_info_eq_dec : EqDecision prod_info.
Proof. solve_decision. Defined.

(** ** prod_info.c *)

(** The structure that has room for the strings. *)
Record InfoBuf := InfoBuf_ { magic : Z; ib_info : prod_info }.

Definition isValid (info : InfoBuf) : bool := MAGIC_VALUE =? magic info.

Definition sig_zero : signaturet := replicate 16 0.

Definition ib_init (buf : option InfoBuf) : option InfoBuf :=
  match buf with
  | None => None
  | Some _ => Some (InfoBuf_ MAGIC_VALUE (ProdInfo TS_NONE sig_zero "" NONE 0 "" 0))
  end.

(** What [malloc()] returns is arbitrary memory. *)
Definition pi_new (mem : option InfoBuf) : option InfoBuf := ib_init mem.

Definition set_origin (i : prod_info) (origin : string) : prod_info :=
  ProdInfo (pi_arrival i) (pi_signature i) origin (pi_feedtype i) (pi_seqno i) (pi_ident i) (pi_sz i).

Definition pi_setOrigin (info : InfoBuf) (origin : string) : res InfoBuf :=
  assert! isValid info in
  Ok (InfoBuf_ (magic info) (set_origin (ib_info info) (str_take HOSTNAMESIZE origin))).

Definition pi_getSize (info : prod_info) : Z := pi_sz info.

Definition pi_copy (dest : option InfoBuf) (src : option prod_info) : res (Z * option InfoBuf) :=
  match dest, src with
  | Some dest, Some src =>
      assert! isValid dest in
      let! dest := pi_setOrigin (InfoBuf_ (magic dest)
        (ProdInfo (pi_arrival src) (pi_signature src) (pi_origin (ib_info dest)) (pi_feedtype src)
           (pi_seqno src) (pi_ident (ib_info dest)) (pi_sz src))) (pi_origin src) in
      let i := ib_info dest in
      Ok (0, Some (InfoBuf_ (magic dest)
        (ProdInfo (pi_arrival i) (pi_signature i) (pi_origin i) (pi_feedtype i) (pi_seqno i)
           (str_take KEYSIZE (pi_ident src)) (pi_sz i))))
  | _, _ => Ok (EINVAL, dest)
  end.

Definition pi_free (info : option InfoBuf) : res unit :=
  match info with
  | None => Ok ()
  | Some info => log_assert (isValid info)
  end.

Definition pi_clone (info : option prod_info) (mem : option InfoBuf) : res (option InfoBuf) :=
  match pi_new mem with
  | None => Ok None
  | Some clone =>
      let! '(e, clone) := pi_copy (Some clone) info in
      if negb (e =? 0) then let! _ := pi_free clone in Ok None else Ok clone
  end.

(** Metadata whose strings can be null pointers. *)
Record c_info := CInfo { ci_info : prod_info; ci_strings : bool }.

Definition ci_str (i : c_info) (s : prod_info → string) : option string :=
  if ci_strings i then Some (s (ci_info i)) else None.

(** [&&] of a test that can fault. *)
Definition and_also (b : bool) (m : res bool) : res bool := if b then m else Ok false.

(** [same] says whether the two pointers are equal. *)
Definition pi_equals (same : bool) (info1 info2 : option c_info) : res bool :=
  if same then Ok true
  else
    match info1, info2 with
    | Some c1, Some c2 =>
        let i1 := ci_info c1 in let i2 := ci_info c2 in
        and_also ((pi_feedtype i1 =? pi_feedtype i2) && (pi_seqno i1 =? pi_seqno i2) &&
                  (pi_sz i1 =? pi_sz i2) && TV_CMP_EQ (pi_arrival i1) (pi_arrival i2) &&
                  bool_decide (pi_signature i1 = pi_signature i2))
          (let! b := strcmp_eq (ci_str c1 pi_origin) (ci_str c2 pi_origin) in
           and_also b (strcmp_eq (ci_str c1 pi_ident) (ci_str c2 pi_ident)))
    | _, _ => Ok false
    end.

(** ** data_prod.c

    [same] says whether the two products are one, [same_data] whether their data is;
    [memcmp()] reads the bytes of both. *)

Definition dp_equals (same same_data : bool) (info1 : c_info) (data1 : list Z) (info2 : c_info) (data2 : list Z) :
    res bool :=
  if negb same then
    let! eq := pi_equals false (Some info1) (Some info2) in
    if negb eq then Ok false
    else
      let size := pi_getSize (ci_info info1) in
      if 0 <? size then
        if negb same_data then
          if (Z.of_nat (length data1) <? size) || (Z.of_nat (length data2) <? size) then Err OutOfBounds
          else Ok (bool_decide (take (Z.to_nat size) data1 = take (Z.to_nat size) data2))
        else Ok true
      else Ok true
  else Ok true.

(** A static structure: all of it is zero. *)
Definition nilProd : c_info := CInfo (ProdInfo TS_ZERO sig_zero "" 0 0 "" 0) false.

Definition dp_isNil (same : bool) (info : c_info) (data : list Z) : res bool :=
  dp_equals same false info data nilProd [].

(** ** savedInfo.c *)

Record savedInfo := SavedInfo { si_info : option InfoBuf; si_wasSet : bool }.

Definition savedInfo_start : savedInfo := SavedInfo None false.

(** [errno] after a failure of [pi_clone()] is that of [malloc()]. *)
Definition savedInfo_set (s : savedInfo) (info : option prod_info) (mem : option InfoBuf) : res (Z * savedInfo) :=
  let! '(error, i) :=
    match info with
    | None => let! _ := pi_free (si_info s) in Ok (0, None)
    | Some _ =>
        match si_info s with
        | Some i => pi_copy (Some i) info
        | None =>
            let! c := pi_clone info mem in
            Ok (match c with None => ENOMEM | Some _ => 0 end, c)
        end
    end in
  Ok (error, SavedInfo i (if error =? 0 then true else si_wasSet s)).

Definition savedInfo_get (s : savedInfo) : option prod_info := ib_info <$> si_info s.
Definition savedInfo_reset (s : savedInfo) : savedInfo := SavedInfo (si_info s) false.

(** ** The origin of a product (DownHelp.c) *)

(** [buf] has [used] characters and room for [max]; the outcome is what it holds and
    how many characters were added. *)
Definition appendMax (buf : string) (max : nat) (suffix : string) (len : nat) : string * nat :=
  let used := String.length buf in
  let len := if (max <=? used)%nat then O
             else let left := (max - used)%nat in if (left <? len)%nat then left else len in
  (String.append buf (str_take len suffix), len).

Definition sepStr : string := "_v_".
Definition SEP_STR_LEN : nat := 3.

Definition getNewOrigin (origin hostId : string) : string :=
  let max := (MAXHOSTNAMELEN + SEP_STR_LEN + MAXHOSTNAMELEN)%nat in
  let n := match strstr origin sepStr with None => String.length origin | Some cp => cp end in
  let '(buf, _) := appendMax "" max origin n in
  let '(buf, _) := appendMax buf max sepStr SEP_STR_LEN in
  (appendMax buf max hostId (String.length hostId)).1.

Definition dh_setInfo (newInfo : option InfoBuf) (oldInfo : prod_info) (hostId : string) : res (option InfoBuf) :=
  let! '(_, newInfo) := pi_copy newInfo (Some oldInfo) in
  match newInfo with
  | None => Err OutOfBounds
  | Some i => let! i := pi_setOrigin i (getNewOrigin (pi_origin oldInfo) hostId) in Ok (Some i)
  end.

(** ** Lemmas on strings *)

#[local] Arguments String.append : simpl nomatch.

Lemma str_take_le n s : (String.length (str_take n s) ≤ n)%nat.
Proof. revert s. induction n as [|n IH]; intros [|c s]; simpl; [lia..|]. specialize (IH s). lia. Qed.

Lemma str_take_length n s : String.length (str_take n s) = (n `min` String.length s)%nat.
Proof. revert s. induction n as [|n IH]; intros [|c s]; simpl; [lia..|]. by rewrite IH. Qed.

Lemma str_take_id n s : (String.length s ≤ n)%nat → str_take n s = s.
Proof. revert n. induction s as [|c s IH]; intros [|n] Hn; simpl in *; try done; try lia. by rewrite IH by lia. Qed.

Lemma str_take_take n m s : str_take n (str_take m s) = str_take (n `min` m) s.
Proof.
  revert m s. induction n as [|n IH]; intros [|m] [|c s]; simpl; try done. by rewrite IH.
Qed.

Lemma str_length_app s t : String.length (String.append s t) = (String.length s + String.length t)%nat.
Proof. induction s as [|c s IH]; simpl; [done|by rewrite IH]. Qed.

Lemma str_app_nil s : String.append s "" = s.
Proof. induction s as [|c s IH]; simpl; [done|by rewrite IH]. Qed.

Lemma str_app_assoc s t u : String.append (String.append s t) u = String.append s (String.append t u).
Proof. induction s as [|c s IH]; simpl; [done|by rewrite IH]. Qed.

Lemma str_take_app n s t :
  str_take n (String.append s t) = String.append (str_take n s) (str_take (n - String.length s) t).
Proof.
  revert n. induction s as [|c s IH]; intros [|n]; simpl; try done. by rewrite IH.
Qed.

Lemma str_take_app_le n s t : (n ≤ String.length s)%nat → str_take n (String.append s t) = str_take n s.
Proof.
  intros Hn. rewrite str_take_app. replace (n - String.length s)%nat with O by lia. apply str_app_nil.
Qed.

Lemma str_take_app_exact s t : str_take (String.length s) (String.append s t) = s.
Proof. rewrite str_take_app_le by done. by apply str_take_id. Qed.

Lemma str_prefix_app p s t : str_prefix p s = true → str_prefix p (String.append s t) = true.
Proof.
  revert s. induction p as [|c p IH]; intros [|d s]; simpl; try done. intros [-> Hp]%andb_prop. by rewrite IH.
Qed.

Lemma str_prefix_spec p s : str_prefix p s = true ↔ ∃ t, s = String.append p t.
Proof.
  revert s. induction p as [|c p IH]; intros s; simpl; [by split; [exists s|]|].
  destruct s as [|d s]; [by split; [|intros [? ?]]|]. rewrite andb_true_iff, IH, Ascii.eqb_eq.
  split; [intros [-> [t ->]]; by exists t|]. intros [t [= -> ->]]. eauto.
Qed.

(** [strstr()] finds the first occurrence. *)
Lemma strstr_Some s sub n :
  strstr s sub = Some n → ∃ t, s = String.append (str_take n s) (String.append sub t) ∧ (n ≤ String.length s)%nat.
Proof.
  revert n. induction s as [|c s IH]; intros n; cbn [strstr].
  - destruct (str_prefix sub "") eqn:Hp; [|done]. intros [= <-]. apply str_prefix_spec in Hp as [t Ht]. by exists t.
  - destruct (str_prefix sub (String.String c s)) eqn:Hp.
    + intros [= <-]. apply str_prefix_spec in Hp as [t Ht]. exists t. split; [done|lia].
    + destruct (strstr s sub) as [m|]; [|done]. intros [= <-].
      destruct (IH m eq_refl) as (t & Ht & Hm). exists t. simpl. split; [by rewrite <- Ht|lia].
Qed.

Lemma strstr_prefix s sub : str_prefix sub s = true → strstr s sub = Some O.
Proof. intros Hp. destruct s; cbn [strstr]; by rewrite Hp. Qed.

(** A string in which the separator does not begin, but for at its end. *)
Definition no_sep (s : string) : Prop := strstr (String.append s "_v") sepStr = None.

#[global] Instance no_sep_dec s : Decision (no_sep s).
Proof. unfold no_sep. apply _. Defined.

Lemma strstr_first s t : no_sep s → strstr (String.append s (String.append sepStr t)) sepStr = Some (String.length s).
Proof.
  unfold no_sep. induction s as [|c s IH]; intros Hs; [done|]. cbn [String.append] in *. cbn [strstr] in *.
  destruct (str_prefix sepStr (String.String c (String.append s "_v"))) eqn:Hp; [done|].
  assert (str_prefix sepStr (String.String c (String.append s (String.append sepStr t))) = false) as ->.
  { revert Hp. destruct s as [|c1 [|c2 s]]; cbn; [|done|done].
    by destruct (Ascii.eqb "_" c). }
  destruct (strstr (String.append s "_v") sepStr) eqn:Hs'; [done|]. by rewrite (IH eq_refl).
Qed.

Lemma strstr_no_sep s n : strstr s sepStr = Some n → no_sep (str_take n s).
Proof.
  unfold no_sep. revert n. induction s as [|c s IH]; intros n.
  - done.
  - cbn [strstr]. destruct (str_prefix sepStr (String.String c s)) eqn:Hp.
    + intros [= <-]. done.
    + destruct (strstr s sepStr) as [m|] eqn:Hm; [|done]. intros [= <-]. cbn [str_take String.append strstr].
      destruct (str_prefix sepStr (String.String c (String.append (str_take m s) "_v"))) eqn:Hp2.
      * exfalso. destruct (strstr_Some _ _ _ Hm) as (t & Ht & _). rewrite Ht in Hp.
        apply (str_prefix_app _ _ (String.append "_" t)) in Hp2. cbn [String.append] in Hp2.
        rewrite str_app_assoc in Hp2. change (String.append "_v" (String.String "_" t)) with (String.append sepStr t) in Hp2.
        congruence.
      * by rewrite (IH m eq_refl).
Qed.

(** ** Copies *)

(** Metadata with its strings cut to their limits. *)
Definition cut (i : prod_info) : prod_info :=
  ProdInfo (pi_arrival i) (pi_signature i) (str_take HOSTNAMESIZE (pi_origin i)) (pi_feedtype i) (pi_seqno i)
    (str_take KEYSIZE (pi_ident i)) (pi_sz i).

(** The strings are within the limits of the protocol. *)
Definition info_short (i : prod_info) : Prop :=
  (String.length (pi_origin i) ≤ HOSTNAMESIZE)%nat ∧ (String.length (pi_ident i) ≤ KEYSIZE)%nat.

Definition ib_ok (b : InfoBuf) : Prop := isValid b = true ∧ info_short (ib_info b).

Lemma cut_short i : info_short (cut i).
Proof. split; apply str_take_le. Qed.

Lemma cut_id i : info_short i → cut i = i.
Proof. intros [Ho Hi]. unfold cut. rewrite !str_take_id by done. by destruct i. Qed.

Lemma pi_copy_spec b src :
  isValid b = true → pi_copy (Some b) (Some src) = Ok (0, Some (InfoBuf_ (magic b) (cut src))).
Proof. intros Hv. unfold pi_copy, pi_setOrigin. rewrite assert_Ok, bind_Ok by done. by rewrite assert_Ok, bind_Ok by done. Qed.

Lemma pi_new_valid mem b : pi_new mem = Some b → ib_ok b.
Proof. destruct mem; [|done]. intros [= <-]. split; [done|]. split; simpl; unfold HOSTNAMESIZE, KEYSIZE; lia. Qed.

Lemma pi_clone_spec src mem :
  pi_clone (Some src) mem = Ok (match mem with None => None | Some _ => Some (InfoBuf_ MAGIC_VALUE (cut src)) end).
Proof. unfold pi_clone. by destruct mem. Qed.

Lemma pi_equals_refl same i : pi_equals same (Some (CInfo i true)) (Some (CInfo i true)) = Ok true.
Proof.
  unfold pi_equals. destruct same; [done|]. simpl. rewrite !Z.eqb_refl, (proj2 (TV_CMP_EQ_eq _ _) eq_refl).
  rewrite !bool_decide_true by done. done.
Qed.

Lemma pi_equals_spec i1 i2 : pi_equals false (Some (CInfo i1 true)) (Some (CInfo i2 true)) = Ok (bool_decide (i1 = i2)).
Proof.
  unfold pi_equals. simpl. destruct i1 as [a1 s1 o1 f1 n1 k1 z1], i2 as [a2 s2 o2 f2 n2 k2 z2]. simpl.
  destruct (Z.eqb_spec f1 f2) as [->|]; [|simpl; symmetry; f_equal; apply bool_decide_false; congruence].
  destruct (Z.eqb_spec n1 n2) as [->|]; [|simpl; symmetry; f_equal; apply bool_decide_false; congruence].
  destruct (Z.eqb_spec z1 z2) as [->|]; [|simpl; symmetry; f_equal; apply bool_decide_false; congruence].
  destruct (TV_CMP_EQ a1 a2) eqn:Ha; [apply TV_CMP_EQ_eq in Ha as ->|].
  - destruct (decide (s1 = s2)) as [->|]; [rewrite bool_decide_true by done|]; cycle 1.
    { rewrite bool_decide_false by done. simpl. symmetry. f_equal. apply bool_decide_false. congruence. }
    destruct (decide (o1 = o2)) as [->|]; [rewrite bool_decide_true by done|]; cycle 1.
    { rewrite bool_decide_false by done. simpl. symmetry. f_equal. apply bool_decide_false. congruence. }
    simpl. f_equal. apply bool_decide_ext. split; congruence.
  - simpl. symmetry. f_equal. apply bool_decide_false. intros [= -> -> -> ->].
    by rewrite (proj2 (TV_CMP_EQ_eq _ _) eq_refl) in Ha.
Qed.

(** A product with data is not nil. *)
Lemma dp_isNil_pos info data : 0 < pi_sz info → dp_isNil false (CInfo info true) data = Ok false.
Proof.
  intros Hs. unfold dp_isNil, dp_equals, pi_equals. cbn [negb ci_info nilProd pi_sz].
  rewrite (proj2 (Z.eqb_neq (pi_sz info) 0)) by lia. by rewrite andb_false_r.
Qed.

(** Metadata like that of the nil product is compared with a null string. *)
Lemma dp_isNil_fault info data :
  pi_feedtype info = 0 → pi_seqno info = 0 → pi_sz info = 0 → pi_arrival info = TS_ZERO → pi_signature info = sig_zero →
  dp_isNil false (CInfo info true) data = Err OutOfBounds.
Proof. destruct info. simpl. by intros -> -> -> -> ->. Qed.

(** Nothing is the nil product but the nil product. *)
Lemma dp_isNil_never info data : dp_isNil false (CInfo info true) data ≠ Ok true.
Proof.
  unfold dp_isNil, dp_equals, pi_equals. cbn [negb ci_info nilProd]. unfold and_also.
  destruct (_ && _); [|done]. unfold ci_str. simpl. done.
Qed.

(** *** The saved metadata *)

Definition saved_ok (s : savedInfo) : Prop := ∀ b, si_info s = Some b → ib_ok b.

(** Only the first time can there be no memory. *)
Lemma savedInfo_set_spec s i mem :
  saved_ok s →
  ∃ st s', savedInfo_set s (Some i) mem = Ok (st, s') ∧ saved_ok s' ∧
    ((st = 0 ∧ savedInfo_get s' = Some (cut i) ∧ si_wasSet s' = true) ∨ (st = ENOMEM ∧ mem = None ∧ s' = s)).
Proof.
  intros Hs. unfold savedInfo_set. destruct (si_info s) as [b|] eqn:Hb.
  - destruct (Hs b Hb) as [Hv _]. rewrite pi_copy_spec, bind_Ok by done. simpl. eexists 0, _. split; [done|]. split; [|by left].
    intros b' [= <-]. split; [exact Hv|apply cut_short].
  - rewrite pi_clone_spec, !bind_Ok. destruct mem as [m|]; simpl.
    + eexists 0, _. split; [done|]. split; [|by left]. intros b' [= <-]. split; [done|apply cut_short].
    + eexists ENOMEM, _. split; [done|]. split; [by intros ?|]. right. split; [done|]. split; [done|].
      destruct s. simpl in *. by subst.
Qed.

(** *** The origin *)

Lemma appendMax_spec max s t :
  appendMax (str_take max s) max t (String.length t) =
    (str_take max (String.append (str_take max s) t), (String.length t `min` (max - String.length (str_take max s)))%nat).
Proof.
  unfold appendMax. set (u := String.length (str_take max s)). pose proof (str_take_le max s) as Hu. fold u in Hu.
  rewrite str_take_app. rewrite (str_take_id max (str_take max s)) by done. fold u.
  destruct (Nat.leb_spec max u).
  - replace (max - u)%nat with O by lia. by rewrite Nat.min_0_r.
  - destruct (Nat.ltb_spec (max - u) (String.length t)).
    + by rewrite Nat.min_r by lia.
    + rewrite Nat.min_l by lia. by rewrite (str_take_id (String.length t) t), (str_take_id (max - u) t) by lia.
Qed.

(** The host that created the product: what is before the separator. *)
Definition creating_host (origin : string) : string :=
  match strstr origin sepStr with None => origin | Some n => str_take n origin end.

Lemma getNewOrigin_spec o h :
  (String.length (creating_host o) ≤ 131)%nat →
  getNewOrigin o h = str_take 131 (String.append (creating_host o) (String.append sepStr h)).
Proof.
  intros Hlen. unfold getNewOrigin. change (MAXHOSTNAMELEN + SEP_STR_LEN + MAXHOSTNAMELEN)%nat with 131%nat.
  set (n := match strstr o sepStr with None => _ | Some cp => cp end).
  assert (str_take n o = creating_host o ∧ (n ≤ 131)%nat) as [Hn Hle].
  { unfold n, creating_host in *. destruct (strstr o sepStr) as [m|] eqn:Hm; [|by rewrite str_take_id].
    split; [done|]. destruct (strstr_Some _ _ _ Hm) as (t & _ & Hm2). rewrite str_take_length in Hlen. lia. }
  assert (appendMax "" 131 o n = (creating_host o, n)) as ->.
  { unfold appendMax. cbn [String.length String.append]. rewrite (proj2 (Nat.leb_gt _ _)) by lia.
    rewrite Nat.sub_0_r, (proj2 (Nat.ltb_ge _ _)) by lia. by rewrite Hn. }
  rewrite <- (str_take_id 131 (creating_host o)) by done. change SEP_STR_LEN with (String.length sepStr).
  rewrite appendMax_spec, (str_take_id 131 (creating_host o)) by done.
  rewrite <- (str_take_take 131 131). rewrite appendMax_spec. cbn [fst]. rewrite str_take_take. cbn [Nat.min].
  rewrite <- str_app_assoc. set (c := String.append (creating_host o) sepStr).
  rewrite !(str_take_app 131). rewrite str_take_take. cbn [Nat.min]. f_equal.
  rewrite str_take_length. destruct (decide (String.length c ≤ 131)%nat); [by rewrite Nat.min_r by lia|].
  rewrite Nat.min_l by lia. by replace (131 - String.length c)%nat with O by lia.
Qed.

(** The metadata of a product as a downstream LDM enters it. *)
Definition relayed (i : prod_info) (hostId : string) : prod_info :=
  set_origin (cut i) (str_take HOSTNAMESIZE (getNewOrigin (pi_origin i) hostId)).

Lemma dh_setInfo_spec b i h :
  isValid b = true → dh_setInfo (Some b) i h = Ok (Some (InfoBuf_ (magic b) (relayed i h))).
Proof.
  intros Hv. unfold dh_setInfo. rewrite pi_copy_spec, bind_Ok by done. unfold pi_setOrigin. by rewrite assert_Ok, bind_Ok.
Qed.

Lemma relayed_short i h : info_short (relayed i h).
Proof. split; apply str_take_le. Qed.

(** The creating host is kept by every relay that has room for the separator. *)
Lemma relayed_origin i h :
  (String.length (creating_host (pi_origin i)) ≤ 131)%nat →
  pi_origin (relayed i h) = str_take HOSTNAMESIZE (String.append (creating_host (pi_origin i)) (String.append sepStr h)).
Proof. intros Hl. unfold relayed, set_origin. cbn [pi_origin]. by rewrite getNewOrigin_spec, str_take_take by done. Qed.

Lemma creating_host_relayed i h :
  no_sep (creating_host (pi_origin i)) → (String.length (creating_host (pi_origin i)) + SEP_STR_LEN ≤ HOSTNAMESIZE)%nat →
  creating_host (pi_origin (relayed i h)) = creating_host (pi_origin i).
Proof.
  intros Hno Hl. unfold SEP_STR_LEN, HOSTNAMESIZE in *. rewrite relayed_origin by lia. set (c := creating_host (pi_origin i)) in *.
  rewrite <- str_app_assoc. rewrite str_take_app, str_take_id by (rewrite str_length_app; simpl; unfold HOSTNAMESIZE; lia).
  rewrite str_app_assoc. unfold creating_host at 1. rewrite strstr_first by done. apply str_take_app_exact.
Qed.

Lemma relayed_again i h1 h2 :
  no_sep (creating_host (pi_origin i)) →
  (String.length (creating_host (pi_origin i)) + SEP_STR_LEN ≤ HOSTNAMESIZE)%nat →
  relayed (relayed i h1) h2 = relayed i h2.
Proof.
  intros Hno Hl. pose proof (creating_host_relayed i h1 Hno Hl) as Hc.
  unfold relayed at 1. rewrite (cut_id _ (relayed_short i h1)). unfold SEP_STR_LEN, HOSTNAMESIZE in Hl.
  rewrite getNewOrigin_spec by (rewrite Hc; lia). rewrite Hc.
  unfold relayed. by rewrite (getNewOrigin_spec _ h2) by lia.
Qed.
