(* ===== verification/PqOps.v ===== *)
(** * The operations of the product-queue

    Model of the functions of src/pq/pq.c that join the indexes: deleting the
    oldest product ([pq2_try_del_prod()], [pq2_del_oldest()]), making room
    ([rpqe_mkspace()], [rpqe_mkslot()]), reserving a region for a product
    ([rpqe_new()]), the control block ([ctl_init()], [ctl_get()], [ctl_rel()])
    and insertion ([pq_insertNoSig()]). *)

From S2P Require Import Prelude Timestamp NumTheory Fb SkipList TimeQueue.
From S2P Require Import RegionList RegionThms SigIndex Riul Sizes PqCore.

Section ops.
Context {W : Type} {Sys : System W}.
Implicit Types q : pqueue W.

(** ** Deleting products *)

(** The outcome carries the metadata of the product that was deleted. *)
Definition pq2_try_del_prod q (tqep rlix : Z) : res (Z * option prod_info * pqueue W) :=
  let! rep := rd (rl_rp (pq_rl q)) rlix in
  let offset := rg_offset rep in
  let! te := rd (tq_tqep (pq_tq q)) tqep in
  if negb (offset =? te_offset te) then Ok (PQ_CORRUPT, None, q)
  else
    let! '(status, vp, q) := rgn_get q offset (Extent rep) (Z.lor RGN_WRITE RGN_NOWAIT) in
    if negb (status =? 0) then
      Ok (if (status =? EACCES) || (status =? EAGAIN) then EACCES else PQ_SYSTEM, None, q)
    else
      let! '(status, info, q) :=
        match xdr_prod_info vp (Extent rep) (pq_sys q) with
        | None => Ok (PQ_CORRUPT, None, q)
        | Some (info, _) =>
            let! '(found, s) := sx_find_delete (pq_sx q) (pi_signature info) in
            let q := set_sx q s in
            if negb found then Ok (PQ_CORRUPT, None, q)
            else
              let! '(tq, f) := tq_delete (pq_tq q) (pq_fb q) tqep in
              let q := set_tq_fb q tq f in
              let! '(rl, f, g) := rl_free (pq_rl q) (pq_fb q) (pq_rng q) rlix in
              Ok (0, Some info, set_rng (set_rl_fb q rl f) g)
        end in
      let! '(_, q) := rgn_rel q offset 0 in
      Ok (status, info, q).

Definition ctl_set_mvrt (c : pqctl) (t : timestampt) (size slots : Z) : pqctl :=
  Pqctl (ctl_magic c) (ctl_version c) (ctl_datao c) (ctl_ixo c) (ctl_ixsz c) (ctl_nalloc c)
    (ctl_align c) (ctl_highwater c) (ctl_maxproducts c) (ctl_write_count c) (ctl_mostRecent c)
    t (ctl_isFull c) size slots.
Definition ctl_set_isFull (c : pqctl) (b : bool) : pqctl :=
  Pqctl (ctl_magic c) (ctl_version c) (ctl_datao c) (ctl_ixo c) (ctl_ixsz c) (ctl_nalloc c)
    (ctl_align c) (ctl_highwater c) (ctl_maxproducts c) (ctl_write_count c) (ctl_mostRecent c)
    (ctl_minVirtResTime c) b (ctl_mvrtSize c) (ctl_mvrtSlots c).
Definition ctl_set_stats (c : pqctl) (highwater maxproducts : Z) : pqctl :=
  Pqctl (ctl_magic c) (ctl_version c) (ctl_datao c) (ctl_ixo c) (ctl_ixsz c) (ctl_nalloc c)
    (ctl_align c) highwater maxproducts (ctl_write_count c) (ctl_mostRecent c)
    (ctl_minVirtResTime c) (ctl_isFull c) (ctl_mvrtSize c) (ctl_mvrtSlots c).
Definition ctl_set_mostRecent (c : pqctl) (t : timestampt) : pqctl :=
  Pqctl (ctl_magic c) (ctl_version c) (ctl_datao c) (ctl_ixo c) (ctl_ixsz c) (ctl_nalloc c)
    (ctl_align c) (ctl_highwater c) (ctl_maxproducts c) (ctl_write_count c) t
    (ctl_minVirtResTime c) (ctl_isFull c) (ctl_mvrtSize c) (ctl_mvrtSlots c).

(** When the clock fails, [now] is read without a value. *)
Definition pq2_set_mvrt q (receptionTime : timestampt) (info : prod_info) : res (pqueue W) :=
  let creationTime := if TV_CMP_LT receptionTime (pi_arrival info) then receptionTime
                      else pi_arrival info in
  let '(clk, w) := gettimeofday (pq_sys q) in
  let q := set_sys q w in
  match clk with
  | inl _ => Err OutOfBounds
  | inr now =>
      if TV_CMP_LT creationTime now then
        let virtResTime := diff_timestamp now creationTime in
        if tvIsNone (ctl_minVirtResTime (pq_ctl q)) ||
           TV_CMP_LT virtResTime (ctl_minVirtResTime (pq_ctl q))
        then Ok (set_ctl q (ctl_set_mvrt (pq_ctl q) virtResTime (rl_nbytes (pq_rl q))
                              (rl_nelems (pq_rl q))))
        else Ok q
      else Ok q
  end.

(** The loop; [tqep] is null after [tqe_first()] of an empty queue. *)
Fixpoint pq2_del_oldest_loop (fuel : nat) q (tqep : option Z) (status : Z) : res (Z * pqueue W) :=
  match fuel with
  | O => Err OutOfFuel
  | S fuel =>
      match tqep with
      | None => Ok (status, q)
      | Some tqep =>
          let! te := rd (tq_tqep (pq_tq q)) tqep in
          let! rlix := rl_find (pq_rl q) (te_offset te) in
          if rlix =? RL_NONE then Ok (status, q)
          else
            let insertionTime := te_tv te in
            let! '(status, info, q) := pq2_try_del_prod q tqep rlix in
            match info with
            | Some info =>
                let q := set_ctl q (ctl_set_isFull (pq_ctl q) true) in
                let! q := pq2_set_mvrt q insertionTime info in
                Ok (0, q)
            | None =>
                if negb (status =? EACCES) then Ok (status, q)
                else
                  let! next := tq_next (pq_tq q) (pq_fb q) tqep in
                  pq2_del_oldest_loop fuel q (Some next) status
            end
      end
  end.

Definition pq2_del_oldest q : res (Z * pqueue W) :=
  let! first := tqe_first (pq_tq q) (pq_fb q) in
  pq2_del_oldest_loop (tq_fuel (pq_tq q)) q first EACCES.

Definition rpqe_free q (offset : Z) (signature : signaturet) : res (Z * pqueue W) :=
  let! rlix := rl_find (pq_rl q) offset in
  if rlix =? RL_NONE then Ok (EINVAL, q)
  else
    let! rp := rd (rl_rp (pq_rl q)) rlix in
    if IsFree rp then Ok (EINVAL, q)
    else
      let! '(found, s) := sx_find_delete (pq_sx q) signature in
      let q := set_sx q s in
      if negb found then Ok (EINVAL, q)
      else
        let! '(rl, f, g) := rl_free (pq_rl q) (pq_fb q) (pq_rng q) rlix in
        Ok (0, set_rng (set_rl_fb q rl f) g).

(** ** Making room *)

(** Every turn deletes a product, so that as many turns as there are products are
    enough. *)
Definition mk_fuel q : nat := S (Z.to_nat (rl_nelems (pq_rl q))).

Fixpoint rpqe_mkspace_loop (fuel : nat) q (extent : Z) : res (Z * Z * pqueue W) :=
  match fuel with
  | O => Err OutOfFuel
  | S fuel =>
      if rl_nelems (pq_rl q) =? 0 then Ok (ENOMEM, RL_NONE, q)
      else
        let! '(status, q) := pq2_del_oldest q in
        if negb (status =? 0) then Ok (status, RL_NONE, q)
        else
          let! '(rlix, rl, f) := rl_get (pq_rl q) (pq_fb q) extent in
          let q := set_rl_fb q rl f in
          if rlix =? RL_NONE then rpqe_mkspace_loop fuel q extent
          else Ok (0, rlix, q)
  end.

(** The outcome is the status and the index of the region. *)
Definition rpqe_mkspace q (extent : Z) : res (Z * Z * pqueue W) :=
  rpqe_mkspace_loop (mk_fuel q) q extent.

Fixpoint rpqe_mkslot_loop (fuel : nat) q : res (Z * pqueue W) :=
  match fuel with
  | O => Err OutOfFuel
  | S fuel =>
      if rl_nelems (pq_rl q) =? 0 then Ok (ENOMEM, q)
      else
        let! '(status, q) := pq2_del_oldest q in
        if negb (status =? 0) then Ok (status, q)
        else if rl_HasSpace (pq_rl q) then Ok (0, q)
        else rpqe_mkslot_loop fuel q
  end.

Definition rpqe_mkslot q : res (Z * pqueue W) := rpqe_mkslot_loop (mk_fuel q) q.

(** ** Reserving a region *)

Definition PQ_FRAGMENT_HEURISTIC : Z := 64.

(** [_RNDUP()] of values of type [size_t]. *)
Definition rndup64 (x unit : Z) : Z := u64 (u64 (x + unit - 1) / unit * unit).

(** The regions of [rpqe_new()] after the label [rl_split_failure]. *)
Definition rpqe_unget q (rlix : Z) : res (pqueue W) :=
  let! '(rl, f, g) := rl_put (pq_rl q) (pq_fb q) (pq_rng q) rlix in
  Ok (set_rng (set_rl_fb q rl f) g).

(** After the label [rgn_get_failure]. *)
Definition rpqe_unhash q (rlix : Z) : res (pqueue W) :=
  let! rl := rlhash_del (pq_rl q) rlix in
  let! hit := rd (rl_rp rl) rlix in
  let! rp := wr (rl_rp rl) rlix (clear_IsAlloc hit) in
  rpqe_unget (set_rl q (rl_set_rp rl rp)) rlix.

(** The part before the region is taken: a slot and a region.  The outcome is the
    status, the index of the region and the rounded extent. *)
Definition rpqe_get q (extent : Z) : res (Z * Z * Z * pqueue W) :=
  let! '(status, q) := if negb (rl_HasSpace (pq_rl q)) then rpqe_mkslot q else Ok (0, q) in
  if negb (status =? 0) then Ok (status, RL_NONE, extent, q)
  else
    let extent := rndup64 extent (ctl_align (pq_ctl q)) in
    let q := if extent <? pq_smallest q then set_smallest q extent else q in
    let! '(rlix, rl, f) := rl_get (pq_rl q) (pq_fb q) extent in
    let q := set_rl_fb q rl f in
    if rlix =? RL_NONE then
      let! '(status, rlix, q) := rpqe_mkspace q extent in Ok (status, rlix, extent, q)
    else Ok (0, rlix, extent, q).

(** The part that cuts the region and enters it in the hash table. *)
Definition rpqe_cut q (rlix extent : Z) : res (Z * pqueue W) :=
  let! hit := rd (rl_rp (pq_rl q)) rlix in
  assert! IsFree hit in
  let! '(status, q) :=
    if u64 (u64 (extent + pq_smallest q) + PQ_FRAGMENT_HEURISTIC) <? rg_extent hit then
      let! '(status, rl, f, g) := rl_split (pq_rl q) (pq_fb q) (pq_rng q) rlix extent in
      Ok (status, set_rng (set_rl_fb q rl f) g)
    else Ok (0, q) in
  if negb (status =? 0) then
    let! q := rpqe_unget q rlix in Ok (status, q)
  else
    let! hit := rd (rl_rp (pq_rl q)) rlix in
    assert! rg_offset hit mod ctl_align (pq_ctl q) =? 0 in
    let! rp := wr (rl_rp (pq_rl q)) rlix (set_IsAlloc hit) in
    let! rl := rlhash_add (rl_set_rp (pq_rl q) rp) rlix in
    Ok (0, set_rl q rl).

(** The statistics of the control block and of the region list. *)
Definition rpqe_stats q (hit : region) : pqueue W :=
  let c := pq_ctl q in
  let rl := pq_rl q in
  let highwater := rg_offset hit + Extent hit - ctl_datao c in
  let c := ctl_set_stats c (if ctl_highwater c <? highwater then highwater else ctl_highwater c)
             (if ctl_maxproducts c <? rl_nelems rl then rl_nelems rl else ctl_maxproducts c) in
  let nbytes := u64 (rl_nbytes rl + Extent hit) in
  set_rl (set_ctl q c)
    (rl_set_nbytes rl nbytes (if rl_maxbytes rl <? nbytes then nbytes else rl_maxbytes rl)).

(** The part that locks the region and enters the signature; [sxi] is null or the
    signature.  The outcome is the status, the pointer to the region and the
    element of the signature index. *)
Definition rpqe_enter q (rlix : Z) (sxi : option signaturet) : res (Z * Z * option Z * pqueue W) :=
  let! hit := rd (rl_rp (pq_rl q)) rlix in
  let! '(status, vp, q) := rgn_get q (rg_offset hit) (Extent hit) RGN_WRITE in
  if negb (status =? 0) then
    let! q := rpqe_unhash q rlix in Ok (status, 0, None, q)
  else
    match sxi with
    | None => Ok (0, vp, None, rpqe_stats q hit)
    | Some sig =>
        let! '(sxep, s) := sx_add (pq_sx q) sig (rg_offset hit) in
        let q := set_sx q s in
        match sxep with
        | None =>
            let! '(_, q) := rgn_rel q (rg_offset hit) 0 in
            let! q := rpqe_unhash q rlix in
            Ok (ENOMEM, 0, None, q)
        | Some n => Ok (0, vp, Some n, rpqe_stats q hit)
        end
    end.

Definition rpqe_new q (extent : Z) (sxi : option signaturet) : res (Z * Z * option Z * pqueue W) :=
  let! dup := match sxi with Some sig => sx_find (pq_sx q) sig | None => Ok None end in
  match dup with
  | Some sxep => Ok (PQ_DUP, 0, Some sxep, q)
  | None =>
      let! '(status, rlix, extent, q) := rpqe_get q extent in
      if negb (status =? 0) then Ok (status, 0, None, q)
      else
        let! '(status, q) := rpqe_cut q rlix extent in
        if negb (status =? 0) then Ok (status, 0, None, q)
        else rpqe_enter q rlix sxi
  end.
End ops.
