(* ===== verification/PqCtl.v ===== *)
(** * The control block and insertion

    Model of [ctl_init()], [ctl_get()], [ctl_rel()] and [pq_insertNoSig()] of
    src/pq/pq.c.  The mutex that serialises the threads of a process and the
    signal mask have no state here but for the flag PQ_SIGSBLOCKED. *)

From S2P Require Import Prelude Timestamp NumTheory Fb SkipList TimeQueue.
From S2P Require Import RegionList RegionThms SigIndex Riul Sizes PqCore Xlen PqOps.

Section ctl.
Context {W : Type} {Sys : System W}.
Implicit Types q : pqueue W.

(** The new control block. *)
Definition ctl_new q (align : Z) : pqctl :=
  Pqctl PQ_MAGIC PQ_VERSION (pq_datao q) (pq_ixo q) (pq_ixsz q) (pq_nalloc q) align
    0 0 1 TS_NONE TS_NONE false (-1) 0.

(** The status and the indexes; [ix_ptrs()] gives each its place (Sizes.v). *)
Definition ctl_indexes q : res (Z * (fb * tqueue * regionl * sx * rng)) :=
  let! f := fb_init (pq_nalloc q) in
  let! '(tq, f) := tq_init (pq_nalloc q) f in
  let datasz := pq_ixo q - pq_datao q in
  if MAX_SIZE_T <? u64 datasz then
    let! '(rl, f) := rl_init (pq_nalloc q) f in
    Ok (EFBIG, (f, tq, rl, pq_sx q, pq_rng q))
  else
    let! '(rl, f, g) := rl_create (pq_nalloc q) f (pq_rng q) (pq_datao q) (u64 datasz) in
    let! s := sx_init (pq_nalloc q) in
    Ok (0, (f, tq, rl, s, g)).

Definition ctl_init q (align : Z) : res (Z * pqueue W) :=
  assert! negb (pq_pagesz q =? 0) in
  assert! (0 <? pq_datao q) && (pq_datao q mod pq_pagesz q =? 0) in
  assert! (pq_datao q <? pq_ixo q) && (pq_ixo q mod pq_pagesz q =? 0) in
  assert! (pq_pagesz q <=? pq_ixsz q) && (pq_ixsz q mod pq_pagesz q =? 0) in
  assert! negb (align =? 0) in
  let! '(status, _, q) := ftom q 0 (pq_datao q) (Z.lor RGN_WRITE RGN_NOWAIT) in
  let! '(status, q) :=
    if (status =? EIO) && negb (bool_decide (pq_access q = Acc_f)) then
      let q := set_access q Acc_f in
      let! '(status, _, q) := ftom q 0 (pq_datao q) (Z.lor RGN_WRITE RGN_NOWAIT) in
      Ok (status, q)
    else Ok (status, q) in
  if negb (status =? 0) then Ok (status, q)
  else
    let q := set_ctl (set_ctlp q true) (ctl_new q align) in
    let! '(status, _, q) := ftom q (pq_ixo q) (pq_ixsz q) (Z.lor RGN_WRITE RGN_NOLOCK) in
    if negb (status =? 0) then
      let! '(_, q) := mtof q 0 0 in Ok (status, q)
    else
      let q := set_ixp q true in
      let! '(status, (f, tq, rl, s, g)) := ctl_indexes q in
      Ok (status, set_rng (set_sh q (Shared (pq_ctl q) f tq rl s)) g).

Definition ctl_rel q (rflags : Z) : res (Z * pqueue W) :=
  assert! pq_ctlp q in
  assert! pq_ixp q in
  let! '(stat1, q) := mtof q (pq_ixo q) (Z.lor rflags RGN_NOLOCK) in
  let q := set_ixp q false in
  let! '(stat2, q) := mtof q 0 rflags in
  let q := set_ctlp q false in
  let q := if fIsSet (pq_pflags q) PQ_SIGSBLOCKED
           then set_pflags q (fMask (pq_pflags q) PQ_SIGSBLOCKED) else q in
  Ok (if stat1 =? 0 then stat2 else stat1, q).

(** After the label [unwind_mask]. *)
Definition unwind_mask q : pqueue W := set_pflags q (fMask (pq_pflags q) PQ_SIGSBLOCKED).

Definition ctl_get q (rflags : Z) : res (Z * pqueue W) :=
  let q := if fIsSet rflags RGN_WRITE && negb (fIsSet (pq_pflags q) PQ_SIGSBLOCKED)
           then set_pflags q (Z.lor (pq_pflags q) PQ_SIGSBLOCKED) else q in
  let! '(status, q) :=
    if negb (pq_ctlp q) then
      let! '(status, _, q) := ftom q 0 (pq_datao q) rflags in
      Ok (status, if status =? 0 then set_ctlp q true else q)
    else Ok (0, q) in
  if negb (status =? 0) then Ok (status, unwind_mask q)
  else
    assert! ctl_magic (pq_ctl q) =? PQ_MAGIC in
    assert! ctl_version (pq_ctl q) =? PQ_VERSION in
    assert! ctl_datao (pq_ctl q) =? pq_datao q in
    assert! ctl_ixo (pq_ctl q) =? pq_ixo q in
    assert! ctl_ixsz (pq_ctl q) =? pq_ixsz q in
    let! '(status, q) :=
      if negb (pq_ixp q) then
        let! '(status, _, q) := ftom q (pq_ixo q) (ctl_ixsz (pq_ctl q)) (Z.lor rflags RGN_NOLOCK) in
        Ok (status, if status =? 0 then set_ixp q true else q)
      else Ok (0, q) in
    if negb (status =? 0) then
      let! '(_, q) := mtof q 0 0 in
      Ok (status, unwind_mask (set_ctlp q false))
    else
      assert! (rl_nalloc (pq_rl q) =? pq_nalloc q) && (tq_nalloc (pq_tq q) =? pq_nalloc q) &&
              (sx_nalloc (pq_sx q) =? pq_nalloc q) in
      Ok (0, q).

Definition pq_getDataSize q : Z := u64 (pq_ixo q - pq_datao q).

(** [set_timestamp()] of the control block; [vetCreationTime()] only logs. *)
Definition note_mostRecent q : pqueue W :=
  let '(clk, w) := gettimeofday (pq_sys q) in
  let q := set_sys q w in
  match clk with
  | inl _ => q
  | inr now => set_ctl q (ctl_set_mostRecent (pq_ctl q) now)
  end.

(** [tq_add()] of an offset, with the assertion before it and the clock that it
    reads. *)
Definition pq_tq_add q (offset : Z) : res (Z * pqueue W) :=
  let! space := tq_HasSpace (pq_tq q) in
  assert! space in
  let '(clk, w) := gettimeofday (pq_sys q) in
  let q := set_sys q w in
  let! '(status, tq, f, g) := tq_add (pq_tq q) (pq_fb q) (pq_rng q) clk offset in
  Ok (status, set_rng (set_tq_fb q tq f) g).

(** From the encoding of the product to the label [unwind_rgn]: the status and the
    queue. *)
Definition pq_enter q (extent vp offset : Z) (prod : product) : res (Z * pqueue W) :=
  let '(ok, w) := xdr_product vp extent prod (pq_sys q) in
  let q := set_sys q w in
  if negb ok then Ok (EIO, q)
  else
    let! '(status, q) := pq_tq_add q offset in
    if negb (status =? 0) then Ok (status, q) else Ok (0, note_mostRecent q).

Definition pq_insertNoSig q (prod : product) : res (Z * pqueue W) :=
  if fIsSet (pq_pflags q) PQ_READONLY then Ok (EACCES, q)
  else
    let extent := xlen_product prod in
    if pq_getDataSize q <? extent then Ok (PQ_BIG, q)
    else
      let! '(status, q) := ctl_get q RGN_WRITE in
      if negb (status =? 0) then Ok (status, q)
      else
        let! '(status, vp, sxep, q) := rpqe_new q extent (Some (pi_signature (p_info prod))) in
        let! '(status, q) :=
          match sxep with
          | Some n =>
              if negb (status =? 0) then Ok (status, q)
              else
                let! se := rd (sx_sxep (pq_sx q)) n in
                let! '(status, q) := pq_enter q extent vp (se_offset se) prod in
                let! '(_, q) := rgn_rel q (se_offset se) (if status =? 0 then RGN_MODIFIED else 0) in
                Ok (status, q)
          | None => Ok (status, q)
          end in
        let! '(_, q) := ctl_rel q RGN_MODIFIED in
        Ok (status, q).

(** The signal to the process group is not modelled. *)
Definition pq_insert q (prod : product) : res (Z * pqueue W) :=
  let! '(status, q) := pq_insertNoSig q prod in Ok (status, q).
End ctl.
