(* ===== verification/PqRead.v ===== *)
(** * Reading the product-queue

    Model of the functions of src/pq/pq.c that look at products: the cursor
    ([pq_cset()], [pq_cClassSet()], [pq_setCursorFromSignature()]), stepping through
    the queue ([pq_sequence()], [pq_sequenceLock()], [pq_next()], [pq_release()]),
    access by signature ([pq_processProduct()]) and deletion by a reader
    ([pq_seqdel()], [pq_deleteBySignature()]).

    Functions of the caller are given what they are called with, the object that
    their optional argument points to and the system.
    [interval] is the global variable of the program behind SEARCH_BACKOFF.  Only
    logging depends on the level of the log, which is not modelled. *)

From S2P Require Import Prelude Timestamp NumTheory Fb SkipList TimeQueue.
From S2P Require Import RegionList RegionThms SigIndex Riul Sizes PqCore Xlen ProdClass PqOps PqCtl.

Definition PQ_LOCKED : Z := -5.
Definition PQ_NOTFOUND : Z := -7.
Definition PQ_INVAL : Z := -8.
Definition EBADF : Z := 9.

(** [tvCmp(tv, uv, <=)]: the macro puts the comparison in the place of both tests. *)
Definition tvCmp_LE (tv uv : timestampt) : bool :=
  (tv_sec tv <=? tv_sec uv) || ((tv_sec tv =? tv_sec uv) && (tv_usec tv <=? tv_usec uv)).

(** [_RNDUP()] of an [unsigned int]. *)
Definition rndup32 (x unit : Z) : Z := u32 (u32 (x + unit - 1) / unit * unit).

Section read.
Context {W : Type} {Sys : System W} {Re : Regex} {A : Type}.
Implicit Types q : pqueue W.

(** ** The fields of a reader *)

Abbreviation reader q cur off pc lc :=
  (Pqueue (pq_pflags q) (pq_pagesz q) (pq_access q) (pq_datao q) (pq_ixo q) (pq_ixsz q) (pq_nalloc q)
     (pq_riul q) (pq_base q) (pq_ctlp q) (pq_ixp q) cur off pc lc
     (pq_smallest q) (pq_sh q) (pq_rng q) (pq_sys q)).

Definition set_cursor q (tv : timestampt) : pqueue W :=
  reader q tv (pq_cursor_offset q) (pq_pqe_count q) (pq_locked_count q).
Definition pq_coffset q (c_offset : Z) : pqueue W :=
  reader q (pq_cursor q) c_offset (pq_pqe_count q) (pq_locked_count q).
Definition set_pqe_count q (n : Z) : pqueue W :=
  reader q (pq_cursor q) (pq_cursor_offset q) n (pq_locked_count q).
Definition set_locked_count q (n : Z) : pqueue W :=
  reader q (pq_cursor q) (pq_cursor_offset q) (pq_pqe_count q) n.

(** ** The cursor *)

Definition pq_cset q (tv : timestampt) : res (pqueue W) :=
  assert! (tv_sec TS_ZERO <=? tv_sec tv) && (tv_usec TS_ZERO <=? tv_usec tv) &&
          (tv_sec tv <=? tv_sec TS_ENDT) && (tv_usec tv <=? tv_usec TS_ENDT) in
  let q := set_cursor q tv in
  Ok (if TV_CMP_EQ tv TS_ENDT then pq_coffset q OFF_NONE
      else if TV_CMP_EQ tv TS_ZERO then pq_coffset q 0
      else q).

Definition pq_ctimestamp q : timestampt := pq_cursor q.

(** The outcome has what is stored at [mtp]. *)
Definition pq_cClassSet q (clssp : option prod_class) : res (Z * option pq_match * pqueue W) :=
  match clssp with
  | None => Ok (EINVAL, None, q)
  | Some c =>
      if tvIsNone (cl_from c) || tvIsNone (cl_to c) then Ok (EINVAL, None, q)
      else
        let! q := pq_cset q (cl_from c) in
        let reversed := TV_CMP_LT (cl_to c) (cl_from c) in
        if reversed && TV_CMP_EQ (cl_from c) TS_ENDT then Ok (0, Some TV_LT, q)
        else if negb reversed && TV_CMP_EQ (cl_from c) TS_ZERO then Ok (0, Some TV_GT, q)
        else
          let otherway := if reversed then TV_GT else TV_LT in
          let! '(status, q) := ctl_get q 0 in
          if negb (status =? 0) then Ok (status, None, q)
          else
            let! tqep := tqe_find (pq_tq q) (pq_fb q) (cl_from c) otherway in
            let! q :=
              match tqep with
              | None => Ok q
              | Some n =>
                  let! te := rd (tq_tqep (pq_tq q)) n in
                  let! q := pq_cset q (te_tv te) in
                  Ok (pq_coffset q (te_offset te))
              end in
            let! '(_, q) := ctl_rel q 0 in
            Ok (0, Some (if reversed then TV_LT else TV_GT), q)
  end.

(** ** Stepping *)

(** What [pq_sequence()] calls: with the metadata, the address of the data, the
    address of the product and its size, and with what [otherargs] points to. *)
Definition pq_seqfunc : Type := prod_info → Z → Z → Z → A → W → Z * A * W.

(** When the cursor is not set. *)
Definition init_cursor q (mt : pq_match) : res (pqueue W) :=
  if tvIsNone (pq_cursor q) then
    match mt with
    | TV_EQ => Err AssertFail
    | TV_LT => Ok (set_cursor q TS_ENDT)
    | TV_GT => Ok (set_cursor q TS_ZERO)
    end
  else Ok q.

(** Back up after a problem with the function. *)
Definition seq_backup q (mt : pq_match) (offset : Z) : pqueue W :=
  match mt with
  | TV_GT => pq_coffset (set_cursor q (timestamp_decr (pq_cursor q))) OFF_NONE
  | TV_LT => pq_coffset q (offset + 1)
  | TV_EQ => q
  end.

(** [clss == PQ_CLASS_ALL || prodInClass(clss, info)] *)
Definition class_test (clss : class_ptr) (info : prod_info) : res bool :=
  match clss with CAll => Ok true | _ => prodInClass clss info end.

(** The size of the product, whose metadata took [pos] bytes of its region. *)
Definition seq_extent (extent pos : Z) (info : prod_info) : Z :=
  let x_handy := u32 extent - pos in
  let xsz := rndup32 (pi_sz info) 4 in
  if xsz <? x_handy then u64 (extent - (x_handy - xsz)) else extent.

(** What is done with the product when the control block is released: the status,
    whether the product matched, what [otherargs] points to, and the queue. *)
Definition seq_process q (mt : pq_match) (clss : class_ptr) (ifMatch : pq_seqfunc) (a : A)
    (offset vp extent : Z) : res (Z * bool * A * pqueue W) :=
  match xdr_prod_info vp extent (pq_sys q) with
  | None => Ok (PQ_SYSTEM, false, a, q)
  | Some (info, pos) =>
      assert! pi_sz info <=? u32 extent - pos in
      let! m := class_test clss info in
      if m then
        let '(status, a, w) := ifMatch info (vp + pos) vp (seq_extent extent pos info) a (pq_sys q) in
        let q := set_sys q w in
        Ok (status, true, a, if negb (status =? 0) then seq_backup q mt offset else q)
      else Ok (0, false, a, q)
  end.

(** The region at an offset: its index and extent, or that the queue is corrupt. *)
Definition find_region q (offset : Z) : res (option (Z * Z)) :=
  let! rlix := rl_find (pq_rl q) offset in
  if rlix =? RL_NONE then Ok None
  else
    let! rp := rd (rl_rp (pq_rl q)) rlix in
    if negb (rg_offset rp =? offset) || (pq_getDataSize q <? Extent rp) then Ok None
    else Ok (Some (rlix, Extent rp)).

(** The product of an element of the time queue, with the control block locked: the
    status, whether it is still locked, what is stored at [off] and [otherargs], and
    the queue. *)
Definition seq_product q (mt : pq_match) (clss : class_ptr) (ifMatch : pq_seqfunc) (a : A) (off : bool)
    (offset : Z) : res (Z * bool * option Z * A * pqueue W) :=
  let! rp := find_region q offset in
  match rp with
  | None => Ok (PQ_CORRUPT, true, None, a, q)
  | Some (_, extent) =>
      let! '(status, vp, q) := rgn_get q offset extent 0 in
      if negb (status =? 0) then Ok (PQ_SYSTEM, true, None, a, q)
      else
        let q := set_locked_count q (pq_locked_count q + 1) in
        assert! negb (vp =? 0) in
        let! '(status, q) := ctl_rel q 0 in
        assert! status =? 0 in
        let! '(status, matched, a, q) := seq_process q mt clss ifMatch a offset vp extent in
        let off_out := if off && matched then Some offset else None in
        if negb off || negb (status =? 0) || negb matched then
          let! '(_, q) := rgn_rel q offset 0 in
          Ok (status, false, off_out, a, set_locked_count q (pq_locked_count q - 1))
        else Ok (status, false, off_out, a, q)
  end.

(** [off] says whether that argument is not null. *)
Definition pq_sequenceHelper q (mt : pq_match) (clss : class_ptr) (ifMatch : option pq_seqfunc) (a : A)
    (off : bool) : res (Z * option Z * A * pqueue W) :=
  let! q := init_cursor q mt in
  let! '(status, q) := ctl_get q 0 in
  if negb (status =? 0) then Ok (PQ_SYSTEM, None, a, q)
  else
    let! tqep := tqe_find (pq_tq q) (pq_fb q) (pq_cursor q) mt in
    let! '(status, ctlLocked, off_out, a, q) :=
      match tqep with
      | None => Ok (PQ_END, true, None, a, q)
      | Some n =>
          let! te := rd (tq_tqep (pq_tq q)) n in
          let! q := pq_cset q (te_tv te) in
          let q := pq_coffset q (te_offset te) in
          match clss, ifMatch with
          | CNull, _ | _, None => Ok (0, true, None, a, q)
          | _, Some f => seq_product q mt clss f a off (te_offset te)
          end
      end in
    if ctlLocked then
      let! '(_, q) := ctl_rel q 0 in Ok (status, off_out, a, q)
    else Ok (status, off_out, a, q).

Definition pq_sequence q (mt : pq_match) (clss : class_ptr) (ifMatch : option pq_seqfunc) (a : A) :
    res (Z * A * pqueue W) :=
  let! '(status, _, a, q) := pq_sequenceHelper q mt clss ifMatch a false in Ok (status, a, q).

Definition pq_sequenceLock q (mt : pq_match) (clss : class_ptr) (ifMatch : option pq_seqfunc) (a : A) :
    res (Z * option Z * A * pqueue W) :=
  pq_sequenceHelper q mt clss ifMatch a true.

Definition pq_release q (offset : Z) : res (Z * pqueue W) :=
  let! '(status, q) := rgn_rel q offset 0 in
  let q := if status =? 0 then set_locked_count q (pq_locked_count q - 1) else q in
  Ok (if status =? EBADF then PQ_INVAL
      else if status =? EINVAL then PQ_NOTFOUND
      else if negb (status =? 0) then PQ_CORRUPT
      else 0, q).

(** What [pq_next()] calls is given, moreover, whether the queue is full, whether
    the cursor was at or before the oldest product, when the product was
    inserted and its offset. *)
Definition pq_next_func : Type := prod_info → Z → Z → Z → bool → bool → timestampt → Z → A → W → A * W.

(** The product, with the control block locked: the status, whether it is still
    locked, what [app_par] points to, and the queue. *)
Definition next_product q (clss : class_ptr) (func : pq_next_func) (keep_locked : bool) (a : A)
    (is_full early : bool) (inserted : timestampt) (offset : Z) : res (Z * bool * A * pqueue W) :=
  let! rp := find_region q offset in
  match rp with
  | None => Ok (0, true, a, q)
  | Some (rlix, size) =>
      let! '(status, vp, q) := rgn_get q offset size 0 in
      if negb (status =? 0) then Ok (PQ_SYSTEM, true, a, q)
      else
        assert! negb (vp =? 0) in
        let! '(status, q) := ctl_rel q 0 in
        assert! status =? 0 in
        let! rp := rd (rl_rp (pq_rl q)) rlix in
        let! '(status, a, q) :=
          match xdr_prod_info vp size (pq_sys q) with
          | None => Ok (PQ_SYSTEM, a, q)
          | Some (info, pos) =>
              assert! pi_sz info <=? u32 size - pos in
              let! m := class_test clss info in
              if m then
                let '(a, w) := func info (vp + pos) vp (seq_extent size pos info) is_full early
                                 inserted (rg_offset rp) a (pq_sys q) in
                Ok (0, a, set_sys q w)
              else Ok (0, a, q)
          end in
        if negb keep_locked then
          let! '(_, q) := rgn_rel q (rg_offset rp) 0 in Ok (status, false, a, q)
        else Ok (status, false, a, q)
  end.

Definition pq_next q (reverse : bool) (clss : class_ptr) (func : option pq_next_func) (keep_locked : bool)
    (a : A) : res (Z * A * pqueue W) :=
  match clss, func with
  | CNull, _ | _, None => Ok (PQ_INVAL, a, q)
  | _, Some func =>
      let q := if tvIsNone (pq_cursor q) then set_cursor q (if reverse then TS_ENDT else TS_ZERO) else q in
      let! '(status, q) := ctl_get q 0 in
      if negb (status =? 0) then Ok (PQ_SYSTEM, a, q)
      else
        let is_full := ctl_isFull (pq_ctl q) in
        let! tqep := tqe_find (pq_tq q) (pq_fb q) (pq_cursor q) (if reverse then TV_LT else TV_GT) in
        let! '(status, ctl_locked, a, q) :=
          match tqep with
          | None => Ok (PQ_END, true, a, q)
          | Some n =>
              let! first := tqe_first (pq_tq q) (pq_fb q) in
              let! fe := match first with Some m => rd (tq_tqep (pq_tq q)) m | None => Err OutOfBounds end in
              let early := tvCmp_LE (pq_cursor q) (te_tv fe) in
              let! te := rd (tq_tqep (pq_tq q)) n in
              let! q := pq_cset q (te_tv te) in
              let q := pq_coffset q (te_offset te) in
              next_product q clss func keep_locked a is_full early (te_tv te) (te_offset te)
          end in
        if ctl_locked then
          let! '(_, q) := ctl_rel q 0 in Ok (status, a, q)
        else Ok (status, a, q)
  end.

(** Whether the cursor is in the time range of a class. *)
Definition pq_ctimeck q (mt : pq_match) (clssp : option prod_class) (maxlatency : timestampt) : res bool :=
  match clssp with
  | None => Ok false
  | Some c =>
      if tvIsNone (pq_cursor q) then Ok false
      else
        let! all := clss_eq clssp (Some _clss_all) in
        if all then Ok true
        else
          match mt with
          | TV_LT => Ok (negb (TV_CMP_LT (pq_cursor q) (cl_to c)))
          | _ => Ok (negb (TV_CMP_LT (timestamp_add (cl_to c) maxlatency) (pq_cursor q)))
          end
  end.

(** ** Access by signature *)

(** The metadata of the product at an offset. *)
Definition pq_getMetadataFromOffset q (offset : Z) : res (Z * option prod_info * pqueue W) :=
  let! rlix := rl_find (pq_rl q) offset in
  if rlix =? RL_NONE then Ok (PQ_NOTFOUND, None, q)
  else
    let! rp := rd (rl_rp (pq_rl q)) rlix in
    let extent := Extent rp in
    let! '(status, vp, q) := rgn_get q offset extent 0 in
    if negb (status =? 0) then Ok (status, None, q)
    else
      let '(status, info) :=
        match xdr_prod_info vp extent (pq_sys q) with
        | None => (EIO, None)
        | Some (info, _) => (0, Some info)
        end in
      let! '(_, q) := rgn_rel q offset 0 in
      Ok (status, info, q).

(** [timeEntry = &pq->tqp->tqep[fbp->fblks[timeEntry->fblk]]] *)
Definition time_next q (timeEntry : Z) : res Z :=
  sl_fwd (tq_blkof (tq_tqep (pq_tq q))) (fb_fblks (pq_fb q)) timeEntry 0.

(** From an element to the end of the queue. *)
Fixpoint search_forward (fuel : nat) q (timeEntry offset : Z) : res (option Z) :=
  match fuel with
  | O => Err OutOfFuel
  | S fuel =>
      let! te := rd (tq_tqep (pq_tq q)) timeEntry in
      if te_offset te =? OFF_NONE then Ok None
      else if te_offset te =? offset then Ok (Some timeEntry)
      else
        let! next := time_next q timeEntry in
        search_forward fuel q next offset
  end.

(** From an element to the one that the first search began with. *)
Fixpoint search_until (fuel : nat) q (timeEntry initial offset : Z) : res (option Z) :=
  match fuel with
  | O => Err OutOfFuel
  | S fuel =>
      if initial =? timeEntry then Ok None
      else
        let! te := rd (tq_tqep (pq_tq q)) timeEntry in
        if te_offset te =? offset then Ok (Some timeEntry)
        else
          let! next := time_next q timeEntry in
          search_until fuel q next initial offset
  end.

(** Where the search begins: before, at or after the time. *)
Definition search_start q (t : timestampt) : res (option Z) :=
  let! e := tqe_find (pq_tq q) (pq_fb q) t TV_LT in
  match e with
  | Some n => Ok (Some n)
  | None =>
      let! e := tqe_find (pq_tq q) (pq_fb q) t TV_EQ in
      match e with
      | Some n => Ok (Some n)
      | None => tqe_find (pq_tq q) (pq_fb q) t TV_GT
      end
  end.

(** The element of the time queue with an offset. *)
Definition search_time q (t : timestampt) (offset : Z) : res (Z * option Z) :=
  let! e := search_start q t in
  match e with
  | None => Ok (PQ_CORRUPT, None)
  | Some initial =>
      let! hit := search_forward (tq_fuel (pq_tq q)) q initial offset in
      match hit with
      | Some n => Ok (0, Some n)
      | None =>
          let! first := tqe_find (pq_tq q) (pq_fb q) TS_ZERO TV_GT in
          match first with
          | None => Err OutOfBounds
          | Some n =>
              let! hit := search_until (tq_fuel (pq_tq q)) q n initial offset in
              Ok (match hit with Some n => (0, Some n) | None => (PQ_NOTFOUND, None) end)
          end
      end
  end.

Definition pq_findTimeEntryBySignature q (interval : Z) (sig : signaturet) : res (Z * option Z * pqueue W) :=
  let! signatureEntry := sx_find (pq_sx q) sig in
  match signatureEntry with
  | None => Ok (PQ_NOTFOUND, None, q)
  | Some n =>
      let! se := rd (sx_sxep (pq_sx q)) n in
      let! '(status, info, q) := pq_getMetadataFromOffset q (se_offset se) in
      if status =? PQ_NOTFOUND then Ok (PQ_CORRUPT, None, q)
      else
        match info with
        | None => Ok (status, None, q)
        | Some info =>
            let searchTime := Timestamp (tv_sec (pi_arrival info) - interval) (tv_usec (pi_arrival info)) in
            let! '(status, t) := search_time q searchTime (se_offset se) in
            Ok (status, t, q)
        end
  end.

Definition pq_setCursorFromSignature q (interval : Z) (signature : signaturet) : res (Z * pqueue W) :=
  let! '(status, q) := ctl_get q 0 in
  if negb (status =? 0) then Ok (status, q)
  else
    let! '(status, timeEntry, q) := pq_findTimeEntryBySignature q interval signature in
    let! q :=
      match timeEntry with
      | None => Ok q
      | Some n =>
          let! te := rd (tq_tqep (pq_tq q)) n in
          let! q := pq_cset q (te_tv te) in
          Ok (pq_coffset q (te_offset te))
      end in
    let! '(_, q) := ctl_rel q 0 in
    Ok (status, q).

(** The product of a signature-entry, with the control block locked. *)
Definition process_at q (func : pq_seqfunc) (a : A) (offset : Z) : res (Z * bool * A * pqueue W) :=
  let! rlix := rl_find (pq_rl q) offset in
  if rlix =? RL_NONE then Ok (PQ_CORRUPT, true, a, q)
  else
    let! rp := rd (rl_rp (pq_rl q)) rlix in
    let extent := Extent rp in
    let! '(status, vp, q) := rgn_get q offset extent 0 in
    if negb (status =? 0) then Ok (PQ_SYSTEM, true, a, q)
    else
      let! '(status, q) := ctl_rel q 0 in
      let '(status, locked, a, q) :=
        if negb (status =? 0) then (PQ_SYSTEM, true, a, q)
        else
          match xdr_prod_info vp extent (pq_sys q) with
          | None => (PQ_SYSTEM, false, a, q)
          | Some (info, pos) =>
              let '(status, a, w) := func info (vp + pos) vp extent a (pq_sys q) in
              (status, false, a, set_sys q w)
          end in
      let! '(_, q) := rgn_rel q offset 0 in
      Ok (status, locked, a, q).

Definition pq_processProduct q (sig : signaturet) (func : pq_seqfunc) (a : A) : res (Z * A * pqueue W) :=
  let! '(status, q) := ctl_get q 0 in
  if negb (status =? 0) then Ok (PQ_SYSTEM, a, q)
  else
    let! sigEntry := sx_find (pq_sx q) sig in
    let! '(status, controlRegionLocked, a, q) :=
      match sigEntry with
      | None => Ok (PQ_NOTFOUND, true, a, q)
      | Some n =>
          let! se := rd (sx_sxep (pq_sx q)) n in
          process_at q func a (se_offset se)
      end in
    if controlRegionLocked then
      let! '(_, q) := ctl_rel q 0 in Ok (status, a, q)
    else Ok (status, a, q).

(** ** Deletion by a reader *)

(** When the cursor is not set, for [pq_seqdel()]. *)
Definition seqdel_cursor q (mt : pq_match) : pqueue W :=
  if tvIsNone (pq_cursor q) then
    match mt with
    | TV_LT => pq_coffset (set_cursor q TS_ENDT) OFF_NONE
    | _ => pq_coffset (set_cursor q TS_ZERO) 0
    end
  else q.

(** The product of an element of the time queue: the status, what is stored at
    [extentp] and [timestampp], and the queue. *)
Definition seqdel_product q (clss : class_ptr) (rflags n : Z) :
    res (Z * option Z * option timestampt * pqueue W) :=
  let! te := rd (tq_tqep (pq_tq q)) n in
  let! rlix := rl_find (pq_rl q) (te_offset te) in
  assert! negb (rlix =? RL_NONE) in
  let! rp := rd (rl_rp (pq_rl q)) rlix in
  assert! rg_offset rp =? te_offset te in
  assert! Extent rp <=? pq_getDataSize q in
  let offset := rg_offset rp in
  let extent := Extent rp in
  let! '(status, vp, q) := rgn_get q offset extent rflags in
  if negb (status =? 0) then Ok (status, None, None, q)
  else
    assert! negb (vp =? 0) in
    let! q := pq_cset q (te_tv te) in
    let q := pq_coffset q OFF_NONE in
    let! '(status, ext_out, ts_out, q) :=
      match xdr_prod_info vp extent (pq_sys q) with
      | None => Ok (EIO, None, None, q)
      | Some (info, pos) =>
          assert! pi_sz info <=? u32 extent - pos in
          assert! match clss with CNull => false | _ => true end in
          let! m := class_test clss info in
          if negb m then Ok (0, None, Some (pi_arrival info), q)
          else
            let! '(tq, f) := tq_delete (pq_tq q) (pq_fb q) n in
            let q := set_tq_fb q tq f in
            let! '(_, s) := sx_find_delete (pq_sx q) (pi_signature info) in
            let q := set_sx q s in
            let! '(rl, f, g) := rl_free (pq_rl q) (pq_fb q) (pq_rng q) rlix in
            Ok (0, Some extent, Some (pi_arrival info), set_rng (set_rl_fb q rl f) g)
      end in
    let! '(_, q) := rgn_rel q offset 0 in
    Ok (status, ext_out, ts_out, q).

Definition pq_seqdel q (mt : pq_match) (clss : class_ptr) (wait : bool) :
    res (Z * option Z * option timestampt * pqueue W) :=
  let rflags := if wait then RGN_WRITE else Z.lor RGN_WRITE RGN_NOWAIT in
  let q := seqdel_cursor q mt in
  let! '(status, q) := ctl_get q RGN_WRITE in
  if negb (status =? 0) then Ok (status, None, None, q)
  else
    let! tqep := tqe_find (pq_tq q) (pq_fb q) (pq_cursor q) mt in
    let! '(status, ext_out, ts_out, q) :=
      match tqep with
      | None => Ok (PQ_END, None, None, q)
      | Some n => seqdel_product q clss rflags n
      end in
    let! '(_, q) := ctl_rel q 0 in
    Ok (status, ext_out, ts_out, q).

Definition pq_deleteBySignature q (interval : Z) (sig : signaturet) : res (Z * pqueue W) :=
  let! '(status, q) := ctl_get q RGN_WRITE in
  if negb (status =? 0) then Ok (PQ_SYSTEM, q)
  else
    let! sxep := sx_find (pq_sx q) sig in
    let! '(status, q) :=
      match sxep with
      | None => Ok (PQ_NOTFOUND, q)
      | Some n =>
          let! se := rd (sx_sxep (pq_sx q)) n in
          let! rlix := rl_find (pq_rl q) (se_offset se) in
          if rlix =? RL_NONE then Ok (PQ_CORRUPT, q)
          else
            let! '(status, timeEntry, q) := pq_findTimeEntryBySignature q interval sig in
            match timeEntry with
            | None => Ok (if negb (status =? 0) then PQ_CORRUPT else status, q)
            | Some t =>
                let! '(status, _, q) := pq2_try_del_prod q t rlix in
                Ok (if status =? EACCES then PQ_LOCKED else status, q)
            end
      end in
    let! '(_, q) := ctl_rel q 0 in
    Ok (status, q).
End read.
