(* ===== verification/PqStat.v ===== *)
(** * Reports on the product-queue

    Model of the functions of src/pq/pq.c that report on the queue ([pq_highwater()],
    [pq_isFull()], [pq_getMostRecent()], [pq_stats()], [pq_getOldestCursor()],
    [pq_fext_dump()]), that reset the metrics, and that look for the last product
    of a class ([pq_last()], [pq_clss_setfrom()]). *)

From S2P Require Import Prelude Timestamp NumTheory Fb SkipList TimeQueue.
From S2P Require Import RegionList RegionThms SigIndex Riul Sizes PqCore Xlen ProdClass PqOps PqCtl PqRead.

(** What [pq_stats()] stores: the numbers of products, free regions and empty slots, the
    bytes in use, the extremes of these, the largest free extent, and the age of the
    oldest product in microseconds ([None] if the clock cannot be read). *)
Record pq_statistics := PqStatistics {
  ps_nprods : Z; ps_nfree : Z; ps_nempty : Z; ps_nbytes : Z;
  ps_maxprods : Z; ps_maxfree : Z; ps_minempty : Z; ps_maxbytes : Z;
  ps_maxextent : Z; ps_age_oldest : option Z }.

(** The loop of [pq_fext_dump()]: what it logs. *)
Fixpoint fext_dump_loop (fuel : nat) (rl : regionl) (f : fb) (sqix prev_extent : Z) : res (list Z) :=
  match fuel with
  | O => Err OutOfFuel
  | S fuel =>
      if sqix =? RL_FEXT_TL then Ok []
      else
        let! spp := rd (rl_rp rl) sqix in
        assert! prev_extent <=? rg_extent spp in
        let! next := rd (fb_fblks f) (rg_prev spp) in
        let! l := fext_dump_loop fuel rl f next (rg_extent spp) in
        Ok (rg_extent spp :: l)
  end.

Section stat.
Context {W : Type} {Sys : System W} {Re : Regex}.
Implicit Types q : pqueue W.

(** What these functions have in common: [get] runs with the control block locked for
    reading. *)
Definition with_ctl {B} q (get : pqueue W → res (B * pqueue W)) : res (Z * option B * pqueue W) :=
  let! '(status, q) := ctl_get q 0 in
  if negb (status =? 0) then Ok (status, None, q)
  else
    let! '(b, q) := get q in
    let! '(_, q) := ctl_rel q 0 in
    Ok (0, Some b, q).

Definition pq_highwater q : res (Z * option (Z * Z) * pqueue W) :=
  with_ctl q (λ q, Ok ((ctl_highwater (pq_ctl q), ctl_maxproducts (pq_ctl q)), q)).

Definition pq_isFull q : res (Z * option bool * pqueue W) :=
  with_ctl q (λ q, Ok (ctl_isFull (pq_ctl q), q)).

Definition pq_getMostRecent q : res (Z * option timestampt * pqueue W) :=
  with_ctl q (λ q, Ok (ctl_mostRecent (pq_ctl q), q)).

Definition pq_getSlotCount q : Z := pq_nalloc q.

Definition pq_getOldestCursor q : res (Z * option timestampt * pqueue W) :=
  with_ctl q (λ q,
    let! tqep := tqe_first (pq_tq q) (pq_fb q) in
    match tqep with
    | None => Ok (TS_NONE, q)
    | Some n => let! te := rd (tq_tqep (pq_tq q)) n in Ok (te_tv te, q)
    end).

(** [age] says whether [age_oldestp] is not null. *)
Definition pq_stats q (age : bool) : res (Z * option pq_statistics * pqueue W) :=
  with_ctl q (λ q,
    let rl := pq_rl q in
    let! '(a, q) :=
      if age then
        let! tqep := tqe_first (pq_tq q) (pq_fb q) in
        match tqep with
        | None => Ok (Some 0, q)
        | Some n =>
            let! te := rd (tq_tqep (pq_tq q)) n in
            let '(clk, w) := gettimeofday (pq_sys q) in
            let q := set_sys q w in
            Ok (match clk with inl _ => None | inr ts0 => Some (us ts0 - us (te_tv te)) end, q)
        end
      else Ok (None, q) in
    Ok (PqStatistics (rl_nelems rl) (rl_nfree rl) (rl_nempty rl) (rl_nbytes rl)
          (rl_maxelems rl) (rl_maxfree rl) (rl_minempty rl) (rl_maxbytes rl) (rl_maxfextent rl) a, q)).

Definition pq_fext_dump q : res (Z * option (list Z) * pqueue W) :=
  with_ctl q (λ q,
    let rl := pq_rl q in
    let! hd := rd (rl_rp rl) (rl_fext rl) in
    let! sqix := rd (fb_fblks (pq_fb q)) (rg_prev hd) in
    let! l := fext_dump_loop (rl_fuel rl) rl (pq_fb q) sqix 0 in
    Ok (l, q)).

Definition pq_clearMinVirtResTimeMetrics q : res (Z * pqueue W) :=
  let! '(status, q) := ctl_get q RGN_WRITE in
  if negb (status =? 0) then Ok (status, q)
  else
    let c := pq_ctl q in
    let q := set_ctl q
      (Pqctl (ctl_magic c) (ctl_version c) (ctl_datao c) (ctl_ixo c) (ctl_ixsz c) (ctl_nalloc c) (ctl_align c)
         (ctl_highwater c) (ctl_maxproducts c) (ctl_write_count c) (ctl_mostRecent c) TS_NONE
         (ctl_isFull c) (-1) 0) in
    let! '(_, q) := ctl_rel q RGN_MODIFIED in
    Ok (0, q).

(** ** The last product of a class *)

(** [tsp] is what the optional argument points to, [None] if it is null. *)
Definition didmatch : pq_seqfunc (W:=W) (A:=option timestampt) :=
  λ infop _ _ _ tsp w, (PQ_END, match tsp with Some _ => Some (pi_arrival infop) | None => None end, w).

Fixpoint pq_last_loop (fuel : nat) q (clssp : class_ptr) (tsp : option timestampt) :
    res (Z * bool * option timestampt * pqueue W) :=
  match fuel with
  | O => Err OutOfFuel
  | S fuel =>
      let! '(status, tsp, q) := pq_sequence q TV_LT clssp (Some didmatch) tsp in
      if negb (status =? 0) then Ok (status, false, tsp, q)
      else
        match tsp with
        | Some ts =>
            if tv_sec (pq_cursor q) <? tv_sec ts then Ok (status, true, tsp, q)
            else pq_last_loop fuel q clssp tsp
        | None => pq_last_loop fuel q clssp tsp
        end
  end.

(** The queue has at most as many products as elements.  The pointer to the class
    must not be null. *)
Definition pq_last q (clssp : class_ptr) (tsp : option timestampt) : res (Z * option timestampt * pqueue W) :=
  match deref clssp with
  | None => Err OutOfBounds
  | Some c =>
      let! q := pq_cset q (cl_to c) in
      let! '(status, stop, tsp, q) := pq_last_loop (tq_fuel (pq_tq q)) q clssp tsp in
      if stop then Ok (status, tsp, q)
      else
        let status := if negb (status =? PQ_END) then status else 0 in
        let q := if TV_CMP_EQ (pq_cursor q) TS_ENDT
                 then pq_coffset (set_cursor q TS_NONE) OFF_NONE else q in
        Ok (status, tsp, q)
  end.

Definition pq_clss_setfrom q (clssp : prod_class) : res (Z * prod_class * pqueue W) :=
  let ts := cl_from clssp in
  let! '(status, ts', q) := pq_last q (CAt clssp) (Some ts) in
  let ts' := default ts ts' in
  let '(status, clssp) :=
    if status =? 0 then
      if TV_CMP_EQ ts' (cl_from clssp) then (PQ_END, clssp)
      else (status, Class_ ts' (cl_to clssp) (psa_len clssp) (psa_val clssp))
    else (status, clssp) in
  Ok (status, clssp, pq_coffset (set_cursor q TS_NONE) OFF_NONE).
End stat.
