(* ===== verification/PqEntry.v ===== *)
(** * Reserved regions of the product-queue

    Model of the functions of src/pq/pq.c with which a process reserves a region for
    a product that it has yet to receive ([pqe_new()], [pqe_newDirect()]), and then
    enters the product in the queue ([pqe_insert()], [pqe_xinsert()]) or gives the
    region back ([pqe_discard()]). *)

From S2P Require Import Prelude Timestamp NumTheory Fb SkipList TimeQueue.
From S2P Require Import RegionList RegionThms SigIndex Riul Sizes PqCore Xlen PqOps PqCtl ProdClass PqRead.

(** How the memory of the queue is written: the metadata is encoded with XDR in
    [size] bytes at [vp], the outcome is the address of what follows it; a signature
    is copied to an address. *)
Class Writer (W : Type) := {
  xdr_info_encode (vp size : Z) (info : prod_info) : W → option Z * W;
  put_signature (xp : Z) (sig : signaturet) : W → W;
}.

Record pqe_index := PqeIndex { px_offset : Z; px_signature : signaturet; px_sig_is_set : bool }.

Section entry.
Context {W : Type} {Sys : System W} {Wr : Writer W}.
Implicit Types q : pqueue W.

Definition xinfo_i (buf size : Z) (infop : prod_info) : W → option Z * W :=
  xdr_info_encode buf (u32 size) infop.

(** The index of a new region, and that it is counted. *)
Definition pqe_note q (sxep : option Z) : res (pqe_index * pqueue W) :=
  match sxep with
  | None => Err OutOfBounds
  | Some n =>
      let! se := rd (sx_sxep (pq_sx q)) n in
      Ok (PqeIndex (se_offset se) (se_sxi se) true, set_pqe_count q (pq_pqe_count q + 1))
  end.

(** The outcome is the status, and the address of the region for the data and the
    index. *)
Definition pqe_new q (infop : prod_info) : res (Z * option (Z * pqe_index) * pqueue W) :=
  if pi_sz infop =? 0 then Ok (EINVAL, None, q)
  else if pq_getDataSize q <? pi_sz infop then Ok (PQ_BIG, None, q)
  else if fIsSet (pq_pflags q) PQ_READONLY then Ok (EACCES, None, q)
  else
    let! '(status, q) := ctl_get q RGN_WRITE in
    if negb (status =? 0) then Ok (status, None, q)
    else
      let extent := xlen_prod_i infop in
      let! '(status, vp, sxep, q) := rpqe_new q extent (Some (pi_signature infop)) in
      let! '(status, out, q) :=
        if negb (status =? 0) then Ok (status, None, q)
        else
          let '(ptr, w) := xinfo_i vp extent infop (pq_sys q) in
          let q := set_sys q w in
          match ptr with
          | None => Ok (EIO, None, q)
          | Some ptr =>
              assert! ptr + pi_sz infop <=? vp + extent in
              let! '(index, q) := pqe_note q sxep in
              Ok (0, Some (ptr, index), q)
          end in
      let! '(_, q) := ctl_rel q RGN_MODIFIED in
      Ok (status, out, q).

(** The arguments are not null. *)
Definition pqe_newDirect q (size : Z) (signature : signaturet) :
    res (Z * option (Z * pqe_index) * pqueue W) :=
  if pq_getDataSize q <? size then Ok (PQ_BIG, None, q)
  else if fIsSet (pq_pflags q) PQ_READONLY then Ok (EACCES, None, q)
  else
    let! '(status, q) := ctl_get q RGN_WRITE in
    if negb (status =? 0) then Ok (status, None, q)
    else
      let! '(status, vp, sxep, q) := rpqe_new q size (Some signature) in
      let! '(out, q) :=
        if negb (status =? 0) then Ok (None, q)
        else
          let! '(index, q) := pqe_note q sxep in
          Ok (Some (vp, index), q) in
      let! '(_, q) := ctl_rel q RGN_MODIFIED in
      Ok (status, out, q).

Definition pqe_discard q (index : pqe_index) : res (Z * pqueue W) :=
  let offset := px_offset index in
  let! '(status, q) := mtof q offset 0 in
  if negb (status =? 0) then Ok (status, q)
  else
    let! '(status, q) := ctl_get q RGN_WRITE in
    if negb (status =? 0) then Ok (status, q)
    else
      let! '(status, q) := rpqe_free q offset (px_signature index) in
      let q := if status =? 0 then set_pqe_count q (pq_pqe_count q - 1) else q in
      let! '(_, q) := ctl_rel q RGN_MODIFIED in
      Ok (status, q).

(** Correcting the signature in the index, or freeing the region of a duplicate. *)
Definition pqe_resign q (index : pqe_index) (realsignature : signaturet) : res (Z * pqueue W) :=
  let offset := px_offset index in
  let! dup := sx_find (pq_sx q) realsignature in
  match dup with
  | Some _ =>
      let! '(_, q) := rpqe_free q offset (px_signature index) in
      Ok (PQ_DUP, q)
  | None =>
      let! '(_, s) := sx_find_delete (pq_sx q) (px_signature index) in
      let! '(_, s) := sx_add s realsignature offset in
      pq_tq_add (set_sx q s) offset
  end.

Definition pqe_xinsert q (index : pqe_index) (realsignature : signaturet) : res (Z * pqueue W) :=
  let offset := px_offset index in
  let! '(found, rp) := riul_r_find (pq_riul q) offset in
  if negb found then Ok (EINVAL, q)
  else
    let! rp := rdl (rul_rp (pq_riul q)) rp in
    assert! negb (ru_vp rp =? 0) in
    let q := set_sys q (put_signature (ru_vp rp + 8) realsignature (pq_sys q)) in
    let! '(status, q) := mtof q offset RGN_MODIFIED in
    if negb (status =? 0) then Ok (status, q)
    else
      let! '(status, q) := ctl_get q RGN_WRITE in
      if negb (status =? 0) then Ok (status, q)
      else
        let! '(status, q) := pqe_resign q index realsignature in
        let! '(_, q) := ctl_rel q RGN_MODIFIED in
        Ok (status, q).

(** After the metadata has been found in order.  That the process group is told of new
    data is not modelled. *)
Definition pqe_enter q (offset : Z) : res (Z * pqueue W) :=
  let! '(status, q) := mtof q offset RGN_MODIFIED in
  if negb (status =? 0) then Ok (PQ_SYSTEM, q)
  else
    let! '(status, q) := ctl_get q RGN_WRITE in
    if negb (status =? 0) then Ok (PQ_SYSTEM, q)
    else
      let! '(status, q) := pq_tq_add q offset in
      let '(status, q) :=
        if negb (status =? 0) then (PQ_SYSTEM, q)
        else let q := note_mostRecent q in (0, set_pqe_count q (pq_pqe_count q - 1)) in
      let! '(_, q) := ctl_rel q RGN_MODIFIED in
      Ok (status, q).

Definition pqe_insert q (index : pqe_index) : res (Z * pqueue W) :=
  let! '(found, rp) := riul_r_find (pq_riul q) (px_offset index) in
  if negb found then Ok (PQ_NOTFOUND, q)
  else
    let! rp := rdl (rul_rp (pq_riul q)) rp in
    let! '(status, q) :=
      match xdr_prod_info (ru_vp rp) (u32 (ru_extent rp)) (pq_sys q) with
      | None => Ok (PQ_CORRUPT, q)
      | Some (info, _) =>
          if ru_extent rp <? xlen_prod_i info then Ok (PQ_BIG, q)
          else pqe_enter q (px_offset index)
      end in
    if negb (status =? 0) then
      let! '(_, q) := pqe_discard q index in Ok (status, q)
    else Ok (0, q).

Definition pqe_get_count q : Z := pq_pqe_count q.
End entry.
