(* ===== verification/Down6.v ===== *)
(** * The downstream LDM (src/protocol2/down6.c, DownHelp.c, ldm_server.c)

    A downstream LDM receives products from an upstream LDM: a whole product in a
    HEREIS message, or a COMINGSOON message with the metadata that is answered, followed by
    the data in BLKDATA messages.  It vets the products against its class and
    enters them in the product-queue.

    The module keeps its state in static variables, and calls modules that do so,
    too: [process] is the state of all of them, with the queue that [_pq] points
    to.  A message comes with the outcomes of the allocations that it leads to
    ([memory]).  Logging is not modelled. *)

From stdpp Require Import strings.
From S2P Require Import Prelude Timestamp NumTheory Fb SkipList TimeQueue RegionList SigIndex Riul.
From S2P Require Import PqCore Xlen AutoShift XdrData ProdClass ProdInfo PqOps PqCtl PqRead PqEntry.

(** [down6_error_t] *)
Definition DOWN6_SYSTEM_ERROR : Z := 7.
Definition DOWN6_PQ : Z := 10.
Definition DOWN6_PQ_BIG : Z := 11.
Definition DOWN6_PQ_NO_ROOM : Z := 12.
Definition DOWN6_BAD_PACKET : Z := 13.
Definition DOWN6_UNWANTED : Z := 14.
Definition DOWN6_UNINITIALIZED : Z := 15.

Definition DOTTEDQUADLEN : nat := 16.

(** [sizeof(InfoBuf) + 2*sizeof(u_int)] *)
Definition COMINGSOON_SIZE : Z := 400.

(** Memory for the saved metadata, for an entry of the automatic shift, for the buffer
    of data and for its growth. *)
Record memory := Memory {
  m_saved : option InfoBuf; m_shift : bool * bool; m_buf : bool; m_seg : realloc_out }.

Section down6.
Context {W : Type} {Sys : System W} {Wr : Writer W} {Re : Regex}.

(** Variables of src/registry/globals.c. *)
Context (interval max_latency : Z).

Record down6 := Down6 {
  _pq : bool; _class : option prod_class; _datap : option ptr; _info : option InfoBuf;
  _remaining : Z; _expectBlkdata : bool; _initialized : bool; _upName : string; _dotAddr : string }.

Record process := Process {
  ps_down : down6; ps_saved : savedInfo; ps_shift : autoshift; ps_xd : xdata; ps_pq : pqueue W }.

Implicit Types (p : process) (d : down6) (m : memory).

Definition set_down p d : process := Process d (ps_saved p) (ps_shift p) (ps_xd p) (ps_pq p).
Definition set_saved p s : process := Process (ps_down p) s (ps_shift p) (ps_xd p) (ps_pq p).
Definition set_shift p a : process := Process (ps_down p) (ps_saved p) a (ps_xd p) (ps_pq p).
Definition set_xd p x : process := Process (ps_down p) (ps_saved p) (ps_shift p) x (ps_pq p).
Definition set_pq p q : process := Process (ps_down p) (ps_saved p) (ps_shift p) (ps_xd p) q.
Definition set_world p w : process := set_pq p (set_sys (ps_pq p) w).

Definition set_class d c : down6 :=
  Down6 (_pq d) c (_datap d) (_info d) (_remaining d) (_expectBlkdata d) (_initialized d) (_upName d) (_dotAddr d).
Definition set_info d i : down6 :=
  Down6 (_pq d) (_class d) (_datap d) i (_remaining d) (_expectBlkdata d) (_initialized d) (_upName d) (_dotAddr d).
Definition set_expect d b : down6 :=
  Down6 (_pq d) (_class d) (_datap d) (_info d) (_remaining d) b (_initialized d) (_upName d) (_dotAddr d).
Definition set_data d datap remaining : down6 :=
  Down6 (_pq d) (_class d) datap (_info d) remaining (_expectBlkdata d) (_initialized d) (_upName d) (_dotAddr d).

(** The initial values of the variables. *)
Definition down6_start : down6 := Down6 false None None None 0 false false "" "".

(** ** DownHelp.c *)

(** [savedInfo_set()], and whether it succeeded. *)
Definition dh_save p (info : prod_info) m : res (bool * process) :=
  let! '(error, s) := savedInfo_set (ps_saved p) (Some info) (m_saved m) in
  Ok (error =? 0, set_saved p s).

(** [as_process()], and whether it succeeded. *)
Definition dh_shift p (success : bool) (size : Z) m : res (bool * process) :=
  let! '(error, a, w) := as_process (ps_shift p) interval success size (m_shift m) (pq_sys (ps_pq p)) in
  Ok (error =? 0, set_world (set_shift p a) w).

(** The bytes are read before [pq_insert()] is called, whether or not it comes to copy
    them. *)
Definition dh_saveProd p (info : prod_info) (data : option ptr) (wasHereis notifyAutoShift : bool) m :
    res (Z * process) :=
  let! bytes := c_load (ps_xd p) data (pi_sz info) in
  let! '(error, q) := pq_insert (ps_pq p) (Product info bytes) in
  let p := set_pq p q in
  let note retCode :=
    let! '(ok, p) := dh_save p info m in
    Ok (if ok then retCode else DOWN6_SYSTEM_ERROR, p) in
  let note_shift retCode success :=
    let! '(ok, p) := dh_save p info m in
    if negb ok then Ok (DOWN6_SYSTEM_ERROR, p)
    else if notifyAutoShift then
      let! '(ok, p) := dh_shift p success (pi_sz info) m in
      Ok (if ok then retCode else DOWN6_SYSTEM_ERROR, p)
    else Ok (retCode, p) in
  if error =? 0 then note_shift 0 true
  else if PQ_BIG =? error then note DOWN6_PQ_BIG
  else if PQ_DUP =? error then note_shift DOWN6_UNWANTED false
  else if EACCES =? error then note DOWN6_PQ_NO_ROOM
  else Ok (DOWN6_PQ, p).

(** ** down6.c *)

(** [upAddr] is the address in dotted form; [mem] is memory for [pi_new()]. *)
Definition down6_init p (upName upAddr : string) (mem : option InfoBuf) : Z * process :=
  let d := ps_down p in
  let info := match _info d with None => pi_new mem | Some i => Some i end in
  let ok := match info with None => false | Some _ => true end in
  (if ok then 0 else DOWN6_SYSTEM_ERROR,
   set_down p (Down6 true None None info (_remaining d) false ok
                 (str_take MAXHOSTNAMELEN upName) (str_take (pred DOTTEDQUADLEN) upAddr))).

(** [mem] and [mems] are memory for [dup_prod_class()]. *)
Definition down6_set_prod_class p (offered : prod_class) (mem : bool) (mems : nat → bool) : res (Z * process) :=
  let d := ps_down p in
  if negb (_initialized d) then Ok (DOWN6_UNINITIALIZED, p)
  else
    let! eq := clsspsa_eq (_class d) (Some offered) in
    if eq then
      match _class d with
      | None => Err OutOfBounds
      | Some c => Ok (0, set_down p (set_class d
                    (Some (Class_ (cl_from offered) (cl_to offered) (psa_len c) (psa_val c)))))
      end
    else
      let! pc := dup_prod_class offered mem mems in
      Ok (match pc with
          | None => (DOWN6_SYSTEM_ERROR, p)
          | Some pc => (0, set_down p (set_class d (Some pc)))
          end).

Definition down6_get_prod_class p (mem : bool) (mems : nat → bool) : res (option prod_class) :=
  match _class (ps_down p) with
  | None => Ok None
  | Some c => dup_prod_class c mem mems
  end.

(** The class with a new first time: [max_latency] before now. *)
Definition vet_from (c : prod_class) (clk : Z + timestampt) : prod_class :=
  let from := match clk with inl _ => cl_from c | inr now => now end in
  Class_ (Timestamp (tv_sec from - max_latency) (tv_usec from)) (cl_to c) (psa_len c) (psa_val c).

Definition vetProduct p (infop : prod_info) m : res (Z * process) :=
  match _class (ps_down p) with
  | None => Err OutOfBounds
  | Some c =>
      let '(clk, w) := gettimeofday (pq_sys (ps_pq p)) in
      let c := vet_from c clk in
      let p := set_world (set_down p (set_class (ps_down p) (Some c))) w in
      let! info := dh_setInfo (_info (ps_down p)) infop (_upName (ps_down p)) in
      let p := set_down p (set_info (ps_down p) info) in
      let! wanted := prodInClass (CAt c) infop in
      if wanted then Ok (0, p)
      else
        let! '(status, s) := savedInfo_set (ps_saved p) (ib_info <$> info) (m_saved m) in
        Ok (if negb (status =? 0) then DOWN6_SYSTEM_ERROR else DOWN6_UNWANTED, set_saved p s)
  end.

Definition down6_hereis p (infop : prod_info) (data : option ptr) m : res (Z * process) :=
  if negb (_initialized (ps_down p)) then Ok (DOWN6_UNINITIALIZED, p)
  else
    let! '(status, p) := vetProduct p infop m in
    if status =? 0 then
      match _info (ps_down p) with
      | None => Err OutOfBounds
      | Some i => dh_saveProd p (ib_info i) data true true m
      end
    else Ok (status, p).

Definition down6_notification p (info : prod_info) : Z * process :=
  (if negb (_initialized (ps_down p)) then DOWN6_UNINITIALIZED else 0, p).

(** After a failure of [pqe_new()]. *)
Definition comingsoon_failed p (info : prod_info) (status : Z) m : res (Z * process) :=
  let note retCode :=
    let! '(ok, p) := dh_save p info m in
    Ok (if ok then retCode else DOWN6_SYSTEM_ERROR, p) in
  if status =? EINVAL then note DOWN6_UNWANTED
  else if status =? PQ_BIG then note DOWN6_PQ_BIG
  else if status =? PQ_DUP then
    let! '(ok, p) := dh_save p info m in
    if negb ok then Ok (DOWN6_SYSTEM_ERROR, p)
    else
      let! '(ok, p) := dh_shift p false COMINGSOON_SIZE m in
      Ok (if ok then DOWN6_UNWANTED else DOWN6_SYSTEM_ERROR, p)
  else Ok (DOWN6_PQ, p).

Definition down6_comingsoon p (infop : prod_info) m : res (Z * process) :=
  if negb (_initialized (ps_down p)) then Ok (DOWN6_UNINITIALIZED, p)
  else
    let p := if _expectBlkdata (ps_down p) then set_down p (set_expect (ps_down p) false) else p in
    let! '(status, p) := vetProduct p infop m in
    if negb (status =? 0) then Ok (status, p)
    else
      match _info (ps_down p) with
      | None => Err OutOfBounds
      | Some i =>
          let! '(status, out, q) := pqe_new (ps_pq p) (ib_info i) in
          let p := set_pq p q in
          if status =? 0 then
            match out with
            | None => Err OutOfBounds
            | Some (_, idx) =>
                let! '(_, q) := pqe_discard (ps_pq p) idx in
                let remaining := pi_sz (ib_info i) in
                let! '(buf, x) := xd_getBuffer (ps_xd p) remaining (m_buf m) in
                let p := set_xd (set_pq p q) x in
                Ok (0, set_down p (set_data (set_expect (ps_down p) true) buf remaining))
            end
          else comingsoon_failed p (ib_info i) status m
      end.

(** The data of the packet has been decoded into the buffer already. *)
Definition down6_blkdata p (signature : signaturet) (dbuf_len : Z) m : res (Z * process) :=
  let d := ps_down p in
  if negb (_initialized d) then Ok (DOWN6_UNINITIALIZED, p)
  else if negb (_expectBlkdata d) then Ok (0, p)
  else
    match _info d with
    | None => Err OutOfBounds
    | Some i =>
        if negb (bool_decide (signature = pi_signature (ib_info i))) then Ok (DOWN6_BAD_PACKET, p)
        else if _remaining d <? dbuf_len then
          Ok (DOWN6_BAD_PACKET, set_down (set_xd p (xd_reset (ps_xd p))) (set_expect d false))
        else
          let remaining := _remaining d - dbuf_len in
          let p := set_down p (set_data d (_datap d) remaining) in
          if 0 =? remaining then
            let! '(errCode, p) := dh_saveProd p (ib_info i) (_datap d) false true m in
            Ok (errCode, set_xd (set_down p (set_expect (ps_down p) false)) (xd_reset (ps_xd p)))
          else Ok (0, p)
    end.

Definition down6_destroy p : res process :=
  let d := ps_down p in
  let! _ := pi_free (_info d) in
  Ok (set_down p (Down6 false None (_datap d) None (_remaining d) false false (_upName d) (_dotAddr d))).

(** ** ldm_server.c

    The outcome of a service procedure: it returns, with or without a reply, or the process
    exits. *)

Inductive ldm_errt :=
  OK | SHUTTING_DOWN | BADPATTERN | DONT_SEND | RESEND | RESTART | REDIRECT | RECLASS.

#[global] Instance ldm_errt_eq_dec : EqDecision ldm_errt.
Proof. solve_decision. Defined.

Inductive served := Served (reply : option ldm_errt) (p : process) | Exited (code : Z) (p : process).

(** The errors that a downstream LDM goes on after. *)
Definition tolerated (error : Z) : bool :=
  (error =? 0) || (error =? DOWN6_UNWANTED) || (error =? DOWN6_PQ_BIG) || (error =? DOWN6_PQ_NO_ROOM).

(** The strings of metadata that was decoded are not null pointers. *)
Definition hereis_6_svc p (info : prod_info) (data : option ptr) m : res served :=
  let! nil := dp_isNil false (CInfo info true) [] in
  if nil then Ok (Served None p)
  else
    let! '(error, p) := down6_hereis p info data m in
    Ok (if tolerated error then Served None p else Exited error p).

Definition notification_6_svc p (info : prod_info) : served :=
  let '(_, p) := down6_notification p info in Served None p.

Definition comingsoon_6_svc p (info : prod_info) m : res served :=
  let! '(error, p) := down6_comingsoon p info m in
  Ok (if error =? 0 then Served (Some OK) p
      else if (DOWN6_UNWANTED =? error) || (DOWN6_PQ_BIG =? error) then Served (Some DONT_SEND) p
      else Exited error p).

Definition blkdata_6_svc p (signature : signaturet) (dbuf_len : Z) m : res served :=
  let! '(error, p) := down6_blkdata p signature dbuf_len m in
  Ok (if tolerated error then Served None p else Exited error p).

(** ** Messages

    [data] is what the stream has for the array that is decoded. *)

Inductive message :=
  | HEREIS (info : prod_info) (data : list Z)
  | NOTIFICATION (info : prod_info)
  | COMINGSOON (infop : prod_info) (pktsz : Z)
  | BLKDATA (signaturep : signaturet) (pktnum : Z) (dbuf_len : Z) (data : list Z).

(** Decoding the arguments and calling the procedure: a message that cannot be decoded is
    answered with an error of the RPC layer. *)
Definition serve p m (msg : message) : res served :=
  match msg with
  | HEREIS info data =>
      let! '(ok, dp, x) := xdr_product_decode (ps_xd p) (pi_sz info) data (m_buf m) in
      let p := set_xd p x in
      if ok then hereis_6_svc p info dp m else Ok (Served None p)
  | NOTIFICATION info => Ok (notification_6_svc p info)
  | COMINGSOON infop _ => comingsoon_6_svc p infop m
  | BLKDATA sig _ dbuf_len data =>
      let! '(ok, _, x) := xdr_dbuf_decode (ps_xd p) dbuf_len data (m_seg m) in
      let p := set_xd p x in
      if ok then blkdata_6_svc p sig dbuf_len m else Ok (Served None p)
  end.

(** Messages one after the other, until the process exits. *)
Fixpoint serve_all p (l : list (memory * message)) : res served :=
  match l with
  | [] => Ok (Served None p)
  | (m, msg) :: l =>
      let! r := serve p m msg in
      match r with
      | Served _ p => serve_all p l
      | Exited code p => Ok (Exited code p)
      end
  end.
End down6.
