(* ===== verification/PqCreate.v ===== *)
(** * Creating a product-queue

    Model of [pq_setOffsetsAndSizes()], [pq_new()] and [pq_create()] of src/pq/pq.c.
    The static caches of [ix_sz()] are threaded through.  The path of the file is
    left out: the state of the system has one file. *)

From S2P Require Import Prelude Timestamp NumTheory Fb SkipList TimeQueue RegionList RegionThms.
From S2P Require Import SigIndex Riul Sizes PqCore PqOps PqCtl.

Definition sizeof_pqctl : Z := 144.
Definition sizeof_pqueue : Z := 4464.
Definition UINT_MAX : Z := 2 ^ 32 - 1.
Definition O_RDWR : Z := 2.
Definition O_CREAT : Z := 64.
Definition O_EXCL : Z := 128.
Definition O_TRUNC : Z := 512.

(** Conversion to [off_t]. *)
Definition s64 (z : Z) : Z := (z + 2 ^ 63) mod 2 ^ 64 - 2 ^ 63.

(** [datao], [ixo], [ixsz] and [nalloc]. *)
Definition pq_setOffsetsAndSizes (c : sizes) (pagesz align initsz nregions : Z) :
    res (Z * Z * Z * Z * sizes) :=
  let! '(l, _) := lcm pagesz align in
  let datao := s64 l in
  assert! sizeof_pqctl <=? u64 datao in
  let ixo := s64 (datao + rndup64 initsz pagesz) in
  let! '(ixsz, c) :=
    if nregions =? 0 then Ok (pagesz, c)
    else let! '(sz, c) := ix_sz c nregions align in Ok (rndup64 sz pagesz, c) in
  Ok (datao, ixo, ixsz, nregions, c).

Section create.
Context {W : Type} {Sys : System W}.

(** [inl (errno, w)] when the structure cannot be had.  [sh] is what the file holds
    and [g] the static state of [fb_ranlev()]. *)
Definition pq_new (c : sizes) (sh : shared) (g : rng) (pflags align initialsz maxProds : Z) (w : W) :
    res ((Z * W + pqueue W) * sizes) :=
  let '(m, w) := malloc sizeof_pqueue w in
  match m with
  | inl errno => Ok (inl (errno, w), c)
  | inr _ =>
      let pflags := Z.lor pflags PQ_NOGROW in
      let! '(datao, ixo, ixsz, nalloc, c) :=
        pq_setOffsetsAndSizes c pagesize align initialsz maxProds in
      if ixo <? datao then Ok (inl (EINVAL, w), c)
      else
        let rl0 := Riul 0 0 0 0 [] in
        let pq := Pqueue pflags pagesize Acc_f datao ixo ixsz nalloc rl0 0 false false
                    TS_NONE OFF_NONE 0 0 UINT_MAX sh g w in
        let pq := if isProductMappingNecessary pq
                  then set_pflags pq (Z.lor (pq_pflags pq) PQ_MAPRGNS) else pq in
        let '(m, w) := malloc pagesize (pq_sys pq) in
        let pq := set_sys pq w in
        match m with
        | inl errno => Ok (inl (errno, w), c)
        | inr _ =>
            let! rl := riul_init (pq_riul pq) 0 pagesize in
            let pq := set_riul pq rl in
            Ok (inr (set_access pq (ctl_setAccessFunctions pq)), c)
        end
  end.

(** After the label [unwind_open]. *)
Definition unwind_open (status fd : Z) (pq : pqueue W) : Z * W :=
  (status, unlink (close fd (pq_sys pq))).

Definition pq_create (c : sizes) (sh : shared) (g : rng) (mode pflags align initialsz nproducts : Z)
    (w : W) : res ((Z * W + pqueue W) * sizes) :=
  let oflags := Z.lor (Z.lor O_RDWR O_CREAT) O_TRUNC in
  let align := if align =? 0 then M_RND_UNIT else rndup64 align M_RND_UNIT in
  let initialsz := if negb (initialsz =? 0) then s64 (rndup64 initialsz align) else s64 align in
  let! '(pq, c) := pq_new c sh g pflags align initialsz nproducts w in
  match pq with
  | inl e => Ok (inl e, c)
  | inr pq =>
      let oflags := if fIsSet pflags PQ_NOCLOBBER then Z.lor oflags O_EXCL else oflags in
      let '(fd, w) := open oflags mode (pq_sys pq) in
      let pq := set_sys pq w in
      match fd with
      | inl errno => Ok (inl (errno, w), c)
      | inr fd =>
          let! '(status, pq) := ctl_init pq align in
          if negb (status =? 0) then Ok (inl (unwind_open status fd pq), c)
          else
            let! '(status, pq) := ctl_rel pq RGN_MODIFIED in
            if negb (status =? 0) then Ok (inl (unwind_open status fd pq), c)
            else Ok (inr pq, c)
      end
  end.
End create.
