(* ===== verification/PqInv.v ===== *)
(** * The invariant of the product-queue

    What the functions of PqOps.v rely on and keep while the control block is
    locked: the four indexes are well formed on one arena and agree with each
    other, with the metadata in the data segment and with the list of regions
    reserved by this process. *)

From S2P Require Import Prelude Timestamp NumTheory Fb SkipList TimeQueue RegionList RegionHash.
From S2P Require Import RegionAlloc RegionThms SigIndex Riul Sizes PqShare PqCore Xlen PqOps.

(** What is used of the operating system: a lock that is refused changes nothing,
    locks, memory for the list of regions (refused with ENOMEM) and the clock do
    not change mapped memory, the clock gives a time after the Epoch, and encoding a product
    writes to its place only, from where its metadata can be decoded (sizes are
    unsigned 32-bit integers to XDR). *)
Class SystemLaws (W : Type) {Sys : System W} : Prop := {
  fcntl_fail cmd ty off ext (w w' : W) e : fcntl cmd ty off ext w = (e, w') → e ≠ 0 → w' = w;
  fcntl_mem cmd ty off ext vp n (w : W) :
    xdr_prod_info vp n (fcntl cmd ty off ext w).2 = xdr_prod_info vp n w;
  realloc_fail sz (w w' : W) e : realloc sz w = (Some e, w') → e = ENOMEM;
  realloc_mem sz vp n (w : W) : xdr_prod_info vp n (realloc sz w).2 = xdr_prod_info vp n w;
  clock_mem vp n (w : W) : xdr_prod_info vp n (gettimeofday w).2 = xdr_prod_info vp n w;
  xdr_mem vp n p vp' n' (w : W) : vp' + n' ≤ vp ∨ vp + n ≤ vp' →
    xdr_prod_info vp' n' (xdr_product vp n p w).2 = xdr_prod_info vp' n' w;
  xdr_round_trip vp n n' p (w w' : W) : xdr_product vp n p w = (true, w') → n ≤ n' < 2 ^ 32 →
    xdr_prod_info vp n' w' = Some (p_info p, Z.of_nat (length (enc_prod_info (p_info p))));
  clock_time (w : W) : ∃ now w', gettimeofday w = (inr now, w') ∧ ts_valid now ∧ 0 < us now;
}.

(** Some lock or some memory for the list of regions is not to be had. *)
Definition refused (W : Type) {Sys : System W} : Prop :=
  (∃ cmd ty off ext (w : W), (fcntl cmd ty off ext w).1 ≠ 0) ∨
  (∃ sz (w : W), (realloc sz w).1 ≠ None).

(** The lists behind a state: elements of the time queue (in use, free, lost),
    slots of the region list (empty, free, in use, in transit) and the regions
    in order, elements of the signature index (in use, free), and the regions
    reserved by this process. *)
Record ghost := Ghost {
  g_ns : list Z; g_fl : list Z; g_lk : list Z;
  g_es : list Z; g_fs : list Z; g_us : list Z; g_lb : list Z; g_ts : list Z;
  g_xu : list Z; g_xf : list Z; g_rs : list riu }.

Section inv.
Context {W : Type} {Sys : System W}.
Implicit Types (q : pqueue W) (G : ghost).

(** The abstract state: products by time, regions in use and signatures. *)
Definition pq_queue q G : list (timestampt * Z) := tq_view (pq_tq q) (g_ns G).
Definition pq_regions q G : gmap Z Z := rl_view (rl_rp (pq_rl q)) (g_us G).
Definition pq_sigs q G : gmap signaturet Z := sx_view (sx_sxep (pq_sx q)) (g_xu G).

(** The fields of the control block that never change. *)
Definition ctl_fixed (c : pqctl) :=
  (ctl_magic c, ctl_version c, ctl_datao c, ctl_ixo c, ctl_ixsz c, ctl_nalloc c, ctl_align c).

(** The part that does not change. *)
Record pq_config q : Prop := {
  pc_layout : layout_ok q = true;
  pc_access : pq_access q = Acc_mm0;
  pc_base : 0 < pq_base q;
  pc_page : 32 ≤ pq_pagesz q < 2 ^ 32;
  pc_align : 0 < ctl_align (pq_ctl q) < 2 ^ 32 ∧ (8 | ctl_align (pq_ctl q)) ∧
             (ctl_align (pq_ctl q) | pq_datao q);
  pc_datao : ctl_datao (pq_ctl q) = pq_datao q;
  pc_smallest : 0 ≤ pq_smallest q < 2 ^ 32;
  pc_ctl : ctl_magic (pq_ctl q) = PQ_MAGIC ∧ ctl_version (pq_ctl q) = PQ_VERSION ∧
           ctl_ixo (pq_ctl q) = pq_ixo q ∧ ctl_ixsz (pq_ctl q) = pq_ixsz q;
}.

(** The process may ask for a region with these flags. *)
Definition pq_writable q : Prop := fIsSet (pq_pflags q) PQ_READONLY = false.
Definition may q (fl : Z) : Prop := fIsSet fl RGN_WRITE = true → pq_writable q.

(** A region in use: aligned, and ending at an aligned offset or at the end of the
    segment. *)
Definition slot_ok q (n : Z) : Prop :=
  let o := rg_off (rl_rp (pq_rl q)) n in
  let e := rext (rl_rp (pq_rl q)) n in
  (ctl_align (pq_ctl q) | o) ∧ MIN_RGN_SIZE ≤ e ∧
  ((ctl_align (pq_ctl q) | o + e) ∨ o + e = pq_ixo q).

(** A region reserved by this process: the control block, the indexes or a region
    in use. *)
Definition mine_ok q G (r : riu) : Prop :=
  (0 < ru_extent r < TOTAL_SIZE q) ∧ pq_base q ≤ ru_vp r ≤ pq_base q + pq_ixo q ∧
  (ru_offset r = 0 ∨ ru_offset r = pq_ixo q ∨
   fIsSet (ru_rflags r) RGN_NOLOCK = false ∧
   pq_regions q G !! ru_offset r = Some (ru_extent r)).

(** The encoding of a product with this metadata, in [e] bytes. *)
Definition info_fits (info : prod_info) (e : Z) : Prop :=
  0 ≤ pi_sz info ∧ 0 ≤ xlen_prod_info info ∧
  xlen_prod_info info + (pi_sz info + xpad (pi_sz info)) ≤ e < 2 ^ 32.

(** A product: its region is in use, has room for the data and begins with metadata
    whose signature is entered with its offset. *)
Definition prod_ok q G (w : W) (off : Z) : Prop :=
  ∃ e info, pq_regions q G !! off = Some e ∧
    xdr_prod_info (pq_base q + off) e w = Some (info, xlen_prod_info info) ∧
    pq_sigs q G !! pi_signature info = Some off ∧ info_fits info e.

Record pq_core q G : Prop := {
  pv_config : pq_config q;
  pv_both : both (pq_tq q) (pq_rl q) (pq_fb q) (pq_datao q) (pq_ixo q)
              (g_ns G) (g_fl G) (g_lk G) (g_es G) (g_fs G) (g_us G) (g_lb G) (g_ts G);
  pv_sx : sx_inv (pq_sx q) (g_xu G) (g_xf G);
  pv_riul : riul_inv (pq_riul q) (g_rs G);
  pv_slots n : n ∈ g_us G ++ g_lb G → slot_ok q n;
  pv_mine r : r ∈ g_rs G → mine_ok q G r;
  pv_prods p : p ∈ pq_queue q G → prod_ok q G (pq_sys q) p.2;
  pv_offs : NoDup (pq_queue q G).*2;
  pv_sigs s o : pq_sigs q G !! s = Some o → is_Some (pq_regions q G !! o);
  pv_sigs_inj s1 s2 o : pq_sigs q G !! s1 = Some o → pq_sigs q G !! s2 = Some o → s1 = s2;
  pv_nalloc : rl_nalloc (pq_rl q) = pq_nalloc q ∧ tq_nalloc (pq_tq q) = pq_nalloc q ∧
              sx_nalloc (pq_sx q) = pq_nalloc q;
  pv_times p : p ∈ pq_queue q G → 0 < us p.1;
}.

(** Moreover, the bytes in use are counted. *)
Record pq_inv q G : Prop := {
  pv_core :> pq_core q G;
  pv_bytes : rl_nbytes (pq_rl q) = foldr Z.add 0 (rext (rl_rp (pq_rl q)) <$> g_us G);
}.

Lemma may_ok q fl : may q fl → pIf (fIsSet fl RGN_WRITE) (negb (fIsSet (pq_pflags q) PQ_READONLY)) = true.
Proof. unfold may, pq_writable, pIf. destruct (fIsSet fl RGN_WRITE); [by intros ->|done]. Qed.

Lemma may_read q : may q 0.
Proof. done. Qed.

(** ** Consequences *)

Section facts.
Context (q : pqueue W) (G : ghost) (Hinv : pq_core q G).

Lemma pv_rl_inv :
  ∃ U, rl_inv (pq_rl q) (pq_fb q) U (pq_datao q) (pq_ixo q) (g_es G) (g_fs G) (g_us G) (g_lb G) (g_ts G).
Proof. destruct (pv_both _ _ Hinv) as (U & _ & ?). eauto. Qed.

Lemma pv_us :
  NoDup (g_us G) ∧ (∀ x y, x ∈ g_us G → y ∈ g_us G →
     rg_off (rl_rp (pq_rl q)) x = rg_off (rl_rp (pq_rl q)) y → x = y).
Proof. destruct pv_rl_inv as [U HU]. destruct (inv_us _ _ _ _ _ _ _ _ _ _ HU) as (? & ? & _). done. Qed.

Lemma pv_regions_lookup o e :
  pq_regions q G !! o = Some e ↔
  ∃ n, n ∈ g_us G ∧ rg_off (rl_rp (pq_rl q)) n = o ∧ rext (rl_rp (pq_rl q)) n = e.
Proof. destruct pv_us. by apply rl_view_lookup. Qed.

Lemma pv_region_range n :
  n ∈ g_us G ++ g_lb G →
  pq_datao q ≤ rg_off (rl_rp (pq_rl q)) n ∧ 0 < rext (rl_rp (pq_rl q)) n ∧
  rg_off (rl_rp (pq_rl q)) n + rext (rl_rp (pq_rl q)) n ≤ pq_ixo q ∧ pq_ixo q ≤ 2 ^ 62 ∧ 0 < pq_datao q.
Proof.
  intros Hn. destruct pv_rl_inv as [U [[_ _ [? ?] Hts Htl] _ _]].
  apply tiled_range in Htl as [_ Htl]. destruct (Htl n) as (? & ? & ?); [|lia].
  rewrite Hts. set_solver.
Qed.

Lemma pv_region_at n :
  n ∈ g_us G ++ g_lb G → ∃ r, rl_rp (pq_rl q) !! n = Some r ∧
    rg_offset r = rg_off (rl_rp (pq_rl q)) n ∧ Extent r = rext (rl_rp (pq_rl q)) n.
Proof.
  intros Hn. destruct pv_rl_inv as [U HU].
  destruct (rt_dom _ _ _ _ _ (rc_tab _ _ _ _ _ _ _ _ _ _ (ri_core _ _ _ _ _ _ _ _ _ _ HU)) n) as [r Hr];
    [set_solver|].
  exists r. by rewrite (rg_off_at _ _ _ Hr), (rext_at _ _ _ Hr).
Qed.

Lemma pv_nelems :
  rl_nelems (pq_rl q) = Z.of_nat (length (g_us G) + length (g_lb G)) ∧ rl_nelems (pq_rl q) < 2 ^ 32.
Proof.
  destruct pv_rl_inv as [U [[Htab _ _ _ _] _ _]]. split; [by apply rt_nelems in Htab|].
  rewrite (rt_nelems _ _ _ _ _ Htab). pose proof (rt_perm _ _ _ _ _ Htab) as Hp.
  apply Permutation_length in Hp. rewrite !length_app, length_seqZ in Hp.
  pose proof (re_nalloc _ (rt_ends _ _ _ _ _ Htab)). lia.
Qed.

Lemma pv_length :
  pq_nalloc q = Z.of_nat (length (g_es G) + length (g_fs G) + length (g_us G) + length (g_lb G)).
Proof.
  destruct (pv_nalloc _ _ Hinv) as (<- & _). destruct pv_rl_inv as [U HU]. by eapply rl_length.
Qed.

Lemma pv_layout :
  0 < pq_datao q ∧ pq_datao q ≤ pq_ixo q ∧ pq_pagesz q ≤ pq_ixsz q.
Proof. pose proof (pc_layout _ (pv_config _ _ Hinv)). unfold layout_ok in *. lia. Qed.
End facts.
End inv.

(** The parts of the invariant. *)
#[export] Hint Resolve pv_core pv_config pv_both pv_sx pv_riul pc_page pc_base pc_layout : ldm.
