(* ===== verification/PqAccess.v ===== *)
(** * Reserving and releasing regions

    [rgn2_reserve()], [rgn2_release()], [rgn_get()] and [rgn_rel()] on a file that
    is mapped as a whole: what they do to the lock, to the list of regions in
    use and to the rest of the queue object. *)

From S2P Require Import Prelude Timestamp NumTheory Fb SkipList TimeQueue RegionList RegionHash.
From S2P Require Import RegionAlloc RegionThms SigIndex Riul Sizes PqShare PqCore PqOps PqInv.

Section access.
Context {W : Type} {Sys : System W} {Laws : SystemLaws W}.
Implicit Types (q : pqueue W) (w : W).

Lemma fIsSet_fMask (t f m : Z) : Z.land f m = 0 → fIsSet (fMask t m) f = fIsSet t f.
Proof.
  intros Hd. unfold fIsSet, fMask. f_equal. f_equal.
  rewrite Z.ldiff_land, <- Z.land_assoc, (Z.land_comm (Z.lnot m)), <- Z.ldiff_land.
  pose proof (Z.lor_ldiff_and f m) as Hl. rewrite Hd, Z.lor_0_r in Hl. by rewrite Hl.
Qed.

(** The same products can be read. *)
Definition same_mem w w' : Prop := ∀ vp n, xdr_prod_info vp n w' = xdr_prod_info vp n w.

Lemma same_mem_refl w : same_mem w w.
Proof. done. Qed.

Lemma same_mem_trans w1 w2 w3 : same_mem w1 w2 → same_mem w2 w3 → same_mem w1 w3.
Proof. intros H1 H2 vp n. by rewrite H2, H1. Qed.

Hint Resolve same_mem_refl same_mem_trans : ldm.

Lemma prod_ok_mem q G w w' o : same_mem w w' → prod_ok q G w o → prod_ok q G w' o.
Proof. intros Hm (e & info & ? & ? & ?). exists e, info. by rewrite Hm. Qed.

Lemma set_sys_id q : set_sys q (pq_sys q) = q.
Proof. by destruct q. Qed.

Lemma set_riul_id q : set_riul q (pq_riul q) = q.
Proof. by destruct q. Qed.

(** The lock that [rgn2_lock()] asks for, with what the system answers. *)
Definition try_lock q (offset extent rflags : Z) : Z * W :=
  if fIsSet (pq_pflags q) PQ_NOLOCK then (0, pq_sys q)
  else fcntl (if fIsSet rflags RGN_NOWAIT then F_SETLK else F_SETLKW)
         (if fIsSet rflags RGN_WRITE then F_WRLCK else F_RDLCK) offset extent (pq_sys q).

Lemma try_lock_fail q o e fl st w : try_lock q o e fl = (st, w) → st ≠ 0 → w = pq_sys q.
Proof. unfold try_lock. case_match; [congruence|]. intros Hf Hne. by eapply fcntl_fail. Qed.

Lemma try_lock_refused q o e fl : (try_lock q o e fl).1 ≠ 0 → refused W.
Proof. unfold try_lock. case_match; [done|]. intros Hf. left. eauto 10. Qed.

Lemma try_lock_mem q o e fl : same_mem (pq_sys q) (try_lock q o e fl).2.
Proof. unfold try_lock. case_match; [done|]. intros vp n. apply fcntl_mem. Qed.

Lemma rgn2_lock_spec q o e fl :
  fIsSet fl RGN_NOLOCK = false → (o =? pq_ixo q) && (e =? pq_ixsz q) = false →
  rgn2_lock q o e fl =
    Ok (let '(st, w) := try_lock q o e fl in (if st =? EAGAIN then EACCES else st, set_sys q w)).
Proof.
  intros Hfl Hix. unfold rgn2_lock, try_lock, fd_lock. rewrite Hix, Hfl. simpl.
  destruct (fIsSet (pq_pflags q) PQ_NOLOCK); simpl; [by rewrite set_sys_id|]. done.
Qed.

(** The indexes are not locked, the control block stands for them. *)
Definition unlock_ok q (o e fl : Z) : bool :=
  pIf ((o =? pq_ixo q) && (e =? pq_ixsz q)) (fIsSet fl RGN_NOLOCK).

Lemma rgn2_unlock_spec q o e fl :
  unlock_ok q o e fl = true →
  ∃ st w, rgn2_unlock q o e fl = Ok (st, set_sys q w) ∧ same_mem (pq_sys q) w ∧ (st ≠ 0 → refused W).
Proof.
  intros Hok. unfold rgn2_unlock, fd_lock. fold (unlock_ok q o e fl). rewrite Hok. simpl.
  destruct (fIsSet fl RGN_NOLOCK || fIsSet (pq_pflags q) PQ_NOLOCK).
  - eexists 0, _. by rewrite set_sys_id.
  - destruct (fcntl _ _ _ _ _) as [st w] eqn:Hf. eexists _, w. split; [done|]. split; cycle 1.
    { intros Hst. left. eexists _, _, _, _, _. rewrite Hf. simpl. intros ->. done. }
    intros vp n. pose proof (fcntl_mem F_SETLK F_UNLCK o e vp n (pq_sys q)) as Hm.
    by rewrite Hf in Hm.
Qed.

Lemma unlock_ok_data q o e fl : (o =? pq_ixo q) && (e =? pq_ixsz q) = false → unlock_ok q o e fl = true.
Proof. unfold unlock_ok. by intros ->. Qed.

(** A region of this process is refused without a call of the system. *)
Lemma rgn2_reserve_mine q rs r e fl vp :
  riul_inv (pq_riul q) rs → r ∈ rs →
  rgn2_reserve q (ru_offset r) e fl vp = Ok (EACCES, None, q).
Proof.
  intros Hi Hr. destruct (riul_r_find_spec _ _ Hi (ru_offset r)) as (found & A & B & Hrun & HAB & HA & HB).
  unfold rgn2_reserve, riul_find. rewrite Hrun, !bind_Ok. destruct found; [done|].
  exfalso. rewrite HAB in Hr. apply elem_of_app in Hr as [Hr|Hr]; [apply HA in Hr|apply HB in Hr]; lia.
Qed.

Lemma riul_find_None rl rs o :
  riul_inv rl rs → (∀ r, r ∈ rs → ru_offset r ≠ o) → riul_find rl o = Ok None.
Proof.
  intros Hi Hno. destruct (riul_r_find_spec _ _ Hi o) as (found & A & B & Hrun & HAB & HA & HB).
  unfold riul_find. rewrite Hrun, bind_Ok. destruct found; [|done].
  destruct HB as (r & B' & -> & Ho). exfalso. apply (Hno r); [rewrite HAB; set_solver|done].
Qed.

(** Adding to the list, whether or not it has to grow. *)
Lemma riul_add_grow rl rs growby o e vp fl mem :
  riul_inv rl rs → (∀ r, r ∈ rs → ru_offset r ≠ o) → vp ≠ 0 → 32 ≤ growby < 2 ^ 32 →
  Z.of_nat (length rs) < 2 ^ 40 →
  (∃ rl' ix A B, riul_add rl growby o e vp fl mem = Ok (0, rl', Some ix) ∧ rs = A ++ B ∧
     riul_inv rl' (A ++ Riu o e vp fl :: B)) ∨
  (∃ er, mem = Some er ∧ rul_nelems rl = rul_nalloc rl ∧
     riul_add rl growby o e vp fl mem = Ok (er, rl, None)).
Proof.
  intros Hi Hno Hvp Hg Hlen.
  assert (rul_nelems rl ≤ rul_nalloc rl) as Hle.
  { destruct Hi as [[k Hrp] Hnl Hna _ _ _]. rewrite Hrp, length_app in Hna. lia. }
  destruct (Z.ltb_spec (rul_nelems rl) (rul_nalloc rl)) as [Hroom|Hfull]; [left|].
  - destruct (riul_insert_spec rl rs Hi o e vp fl growby mem Hroom Hvp Hno) as (rl' & A & B & ? & ? & ?).
    eauto 10.
  - assert (rul_nelems rl = rul_nalloc rl) as Heq by lia. destruct mem as [er|]; [right|left].
    + exists er. split_and!; [done..|]. unfold riul_add, riul_HasSpace.
      rewrite assert_Ok, !bind_Ok by lia. rewrite (proj2 (Z.ltb_ge _ _)) by lia. done.
    + pose proof (ui_nelems _ _ Hi). destruct (ui_sz _ _ Hi) as [? Hsz].
      assert (rul_sz rl < 2 ^ 46) by div_lia.
      destruct (riul_grow_spec rl rs Hi growby Heq) as (rl1 & Hgrow & Hi1 & Hroom); [lia..|].
      destruct (riul_insert_spec rl1 rs Hi1 o e vp fl growby None Hroom Hvp Hno)
        as (rl' & A & B & Hrun & HAB & Hi'). exists rl', (Z.of_nat (length A)), A, B.
      split_and!; [|done..]. rewrite <- Hrun. unfold riul_add, riul_HasSpace.
      rewrite !assert_Ok, !bind_Ok by lia.
      rewrite (proj2 (Z.ltb_ge (rul_nelems rl) _)), Hgrow, !bind_Ok by lia.
      rewrite (proj2 (Z.ltb_lt (rul_nelems rl1) (rul_nalloc rl1))) by done. done.
Qed.

(** After the lock. *)
Lemma reserve_add q w1 rs o e fl vp :
  riul_inv (pq_riul q) rs → (∀ r, r ∈ rs → ru_offset r ≠ o) → vp ≠ 0 →
  32 ≤ pq_pagesz q < 2 ^ 32 → Z.of_nat (length rs) < 2 ^ 40 →
  unlock_ok q o e (fMask fl (Z.lor RGN_MODIFIED RGN_NOWAIT)) = true →
  rgn2_lock q o e fl = Ok (0, set_sys q w1) → same_mem (pq_sys q) w1 →
  (∃ rl' ix w A B, rgn2_reserve q o e fl vp = Ok (0, Some ix, set_riul (set_sys q w) rl') ∧
     rs = A ++ B ∧ riul_inv rl' (A ++ Riu o e vp fl :: B) ∧ same_mem (pq_sys q) w) ∨
  (∃ w, rgn2_reserve q o e fl vp = Ok (ENOMEM, None, set_sys q w) ∧ same_mem (pq_sys q) w ∧ refused W).
Proof.
  intros Hi Hno Hvp Hpg Hlen Hok Hlock Hmem. unfold rgn2_reserve.
  rewrite (riul_find_None _ _ _ Hi Hno), bind_Ok, Hlock, bind_Ok.
  change (0 =? EAGAIN) with false. change (0 =? EACCES) with false. simpl.
  assert (∃ space, riul_HasSpace (pq_riul q) = Ok space) as [space Hsp].
  { unfold riul_HasSpace. rewrite assert_Ok, bind_Ok; [eauto|].
    destruct Hi as [[k Hrp] Hnl Hna _ _ _]. rewrite Hrp, length_app in Hna. lia. }
  rewrite Hsp, bind_Ok.
  destruct (if space then _ else _) as [mem w2] eqn:Hre.
  assert (same_mem w1 w2) as Hmem2.
  { destruct space; [injection Hre as <- <-; done|]. intros p n.
    replace w2 with (realloc (u64 (rul_sz (pq_riul q) + pq_pagesz q)) w1).2 by by rewrite Hre.
    apply realloc_mem. }
  pose proof (same_mem_trans _ _ _ Hmem Hmem2) as Hmem3.
  destruct (riul_add_grow _ _ (pq_pagesz q) o e vp fl mem Hi Hno Hvp Hpg Hlen)
    as [(rl' & ix & A & B & Hadd & HAB & Hi')|(er & -> & _ & Hadd)]; rewrite Hadd, bind_Ok.
  - left. simpl. exists rl', ix, w2, A, B. done.
  - right. assert (er = ENOMEM) as ->.
    { destruct space; [done|]. by eapply realloc_fail. }
    assert (refused W) as Hrf.
    { destruct space; [done|]. right. eexists _, _. by rewrite Hre. }
    simpl negb. cbv iota.
    destruct (rgn2_unlock_spec (set_riul (set_sys (set_sys q w1) w2) (pq_riul q)) o e
                (fMask fl (Z.lor RGN_MODIFIED RGN_NOWAIT)) Hok) as (st & w3 & -> & Hm3 & _).
    rewrite bind_Ok. exists w3. split; [by destruct q|]. split; [by eauto with ldm|done].
Qed.

Lemma rgn2_reserve_spec q rs o e fl vp :
  riul_inv (pq_riul q) rs → (∀ r, r ∈ rs → ru_offset r ≠ o) → vp ≠ 0 →
  32 ≤ pq_pagesz q < 2 ^ 32 → Z.of_nat (length rs) < 2 ^ 40 →
  fIsSet fl RGN_NOLOCK = false → (o =? pq_ixo q) && (e =? pq_ixsz q) = false →
  if (try_lock q o e fl).1 =? 0 then
    (∃ rl' ix w A B, rgn2_reserve q o e fl vp = Ok (0, Some ix, set_riul (set_sys q w) rl') ∧
       rs = A ++ B ∧ riul_inv rl' (A ++ Riu o e vp fl :: B) ∧ same_mem (pq_sys q) w) ∨
    (∃ w, rgn2_reserve q o e fl vp = Ok (ENOMEM, None, set_sys q w) ∧ same_mem (pq_sys q) w ∧ refused W)
  else rgn2_reserve q o e fl vp =
    Ok (if (try_lock q o e fl).1 =? EAGAIN then EACCES else (try_lock q o e fl).1, None, q).
Proof.
  intros Hi Hno Hvp Hpg Hlen Hfl Hix. pose proof (try_lock_mem q o e fl) as Hmem.
  pose proof (rgn2_lock_spec _ _ _ _ Hfl Hix) as Hrun.
  destruct (try_lock q o e fl) as [st w1] eqn:Hlock. simpl in Hmem |- *.
  destruct (Z.eqb_spec st 0) as [->|Hst].
  - eapply reserve_add; [done..|by apply unlock_ok_data|done|done].
  - unfold rgn2_reserve. rewrite (riul_find_None _ _ _ Hi Hno), bind_Ok, Hrun, bind_Ok.
    rewrite (try_lock_fail _ _ _ _ _ _ Hlock Hst), set_sys_id.
    destruct (Z.eqb_spec st EAGAIN) as [->|Hea]; simpl; [done|].
    destruct (Z.eqb_spec st EACCES) as [->|Hac]; simpl; [done|].
    destruct (Z.eqb_spec st EAGAIN) as [->|_]; [done|]. destruct (Z.eqb_spec st 0); done.
Qed.

(** The indexes are reserved without a lock. *)
Lemma rgn2_reserve_index q rs fl vp :
  riul_inv (pq_riul q) rs → (∀ r, r ∈ rs → ru_offset r ≠ pq_ixo q) → vp ≠ 0 →
  32 ≤ pq_pagesz q < 2 ^ 32 → Z.of_nat (length rs) < 2 ^ 40 → fIsSet fl RGN_NOLOCK = true →
  (∃ rl' ix w A B, rgn2_reserve q (pq_ixo q) (pq_ixsz q) fl vp = Ok (0, Some ix, set_riul (set_sys q w) rl') ∧
     rs = A ++ B ∧ riul_inv rl' (A ++ Riu (pq_ixo q) (pq_ixsz q) vp fl :: B) ∧ same_mem (pq_sys q) w) ∨
  (∃ w, rgn2_reserve q (pq_ixo q) (pq_ixsz q) fl vp = Ok (ENOMEM, None, set_sys q w) ∧ same_mem (pq_sys q) w ∧ refused W).
Proof.
  intros Hi Hno Hvp Hpg Hlen Hfl. apply (reserve_add q (pq_sys q) rs); [done..| | |done].
  - unfold unlock_ok, pIf. rewrite fIsSet_fMask by done. rewrite Hfl. apply orb_true_r.
  - unfold rgn2_lock. rewrite !Z.eqb_refl. simpl. rewrite Hfl. simpl. by rewrite set_sys_id.
Qed.

Lemma rgn2_release_gen q A r B fl :
  riul_inv (pq_riul q) (A ++ r :: B) →
  0 < ru_extent r < TOTAL_SIZE q → pq_base q ≤ ru_vp r ≤ pq_base q + pq_ixo q →
  (fIsSet fl RGN_MODIFIED = true → fIsSet (ru_rflags r) RGN_WRITE = true) →
  fIsSet fl RGN_NOLOCK = fIsSet (ru_rflags r) RGN_NOLOCK →
  unlock_ok q (ru_offset r) (ru_extent r) fl = true →
  ∃ st rl' w, rgn2_release q (ru_offset r) fl = Ok (st, set_sys (set_riul q rl') w) ∧
    riul_inv rl' (A ++ B) ∧ same_mem (pq_sys q) w ∧ (st ≠ 0 → refused W).
Proof.
  intros Hi He Hv Hmod Hf Hok.
  destruct (riul_r_find_spec _ _ Hi (ru_offset r)) as (found & A' & B' & Hrun & HAB & HA & HB).
  unfold rgn2_release. rewrite Hrun, bind_Ok. destruct found; simpl; cycle 1.
  { exfalso. assert (r ∈ A' ++ B') as Hr by (rewrite <- HAB; set_solver).
    apply elem_of_app in Hr as [Hr|Hr]; [apply HA in Hr|apply HB in Hr]; lia. }
  destruct HB as (r' & B'' & -> & Ho').
  assert (r' = r ∧ A' = A ∧ B'' = B) as (-> & -> & ->).
  { pose proof (riu_sorted_NoDup _ (ui_sorted _ _ Hi)) as Hnd.
    assert (r' = r) as Hr.
    { pose proof (ui_sorted _ _ Hi) as Hs.
      assert (riul_view (A ++ r :: B) !! ru_offset r = Some r') as H1
        by (apply riul_view_lookup; [done|]; split; [rewrite HAB; set_solver|done]).
      assert (riul_view (A ++ r :: B) !! ru_offset r = Some r) as H2
        by (apply riul_view_lookup; [done|]; split; [set_solver|done]).
      congruence. }
    subst r'. apply NoDup_fmap_1 in Hnd.
    by destruct (NoDup_split_eq _ _ _ _ _ Hnd HAB) as [-> ->]. }
  destruct (ui_rp _ _ Hi) as [k Hrp].
  assert (rdl (rul_rp (pq_riul q)) (Z.of_nat (length A)) = Ok r) as Hrd.
  { rewrite Hrp. apply rdl_app. by rewrite lookup_app_r, Nat.sub_diag by lia. }
  rewrite Hrd, bind_Ok.
  rewrite assert_Ok, bind_Ok by lia. rewrite assert_Ok, bind_Ok by lia.
  assert (ru_vp r ≠ 0) as Hvp by (apply (ui_vp _ _ Hi); set_solver).
  rewrite assert_Ok, bind_Ok by lia.
  rewrite assert_Ok, bind_Ok by (unfold pIf; destruct (fIsSet fl RGN_MODIFIED); [by rewrite Hmod|done]).
  rewrite Hf, eqb_reflx, assert_Ok, bind_Ok by done.
  destruct (riul_delete_spec _ _ Hi A r B eq_refl) as (rl' & Hdel & Hi').
  rewrite Hdel, bind_Ok.
  destruct (rgn2_unlock_spec (set_riul q rl') (ru_offset r) (ru_extent r) fl Hok) as (st & w & -> & Hm & Hrf).
  eauto 10.
Qed.

Lemma rgn2_release_spec q A r B fl :
  riul_inv (pq_riul q) (A ++ r :: B) →
  0 < ru_extent r < TOTAL_SIZE q → pq_base q ≤ ru_vp r ≤ pq_base q + pq_ixo q →
  (fIsSet fl RGN_MODIFIED = true → fIsSet (ru_rflags r) RGN_WRITE = true) →
  fIsSet fl RGN_NOLOCK = false → fIsSet (ru_rflags r) RGN_NOLOCK = false →
  (ru_offset r =? pq_ixo q) && (ru_extent r =? pq_ixsz q) = false →
  ∃ st rl' w, rgn2_release q (ru_offset r) fl = Ok (st, set_sys (set_riul q rl') w) ∧
    riul_inv rl' (A ++ B) ∧ same_mem (pq_sys q) w ∧ (st ≠ 0 → refused W).
Proof.
  intros Hi He Hv Hmod Hf1 Hf2 Hix. apply rgn2_release_gen; [done..|congruence|].
  by apply unlock_ok_data.
Qed.
End access.

#[export] Hint Resolve same_mem_refl same_mem_trans : ldm.
