(* ===== verification/PqDelete.v ===== *)
(** * Deleting products

    [pq2_try_del_prod()] and [pq2_del_oldest()]: on a well-formed queue they
    delete exactly one product from all indexes, or refuse and change nothing
    that is shared. *)

From S2P Require Import Prelude Timestamp NumTheory Fb SkipList TimeQueue RegionList RegionHash.
From S2P Require Import RegionAlloc RegionThms SigIndex Riul Sizes PqShare PqCore Xlen PqOps PqInv.
From S2P Require Import PqAccess.

(** The fields of the queue object that the operations on products leave alone. *)
Definition pq_cfg {W} (q : pqueue W) :=
  (pq_pflags q, pq_pagesz q, pq_access q, pq_datao q, pq_ixo q, pq_ixsz q, pq_nalloc q,
   pq_base q, pq_ctlp q, pq_ixp q, (pq_cursor q, pq_cursor_offset q, pq_pqe_count q, pq_locked_count q)).

Section delete.
Context {W : Type} {Sys : System W} {Laws : SystemLaws W}.
Implicit Types (q : pqueue W) (w : W).

(** ** [rgn_get()] and [rgn_rel()] *)

Lemma rgn_get_unfold q G n fl :
  pq_core q G → may q fl → n ∈ g_us G → Z.of_nat (length (g_rs G)) ≤ rl_nelems (pq_rl q) + 1 →
  let o := rg_off (rl_rp (pq_rl q)) n in
  rgn_get q o (rext (rl_rp (pq_rl q)) n) fl =
    let! '(status, _, q') := rgn2_reserve q o (rext (rl_rp (pq_rl q)) n) fl (pq_base q + o) in
    Ok (status, if status =? 0 then pq_base q + o else 0, q').
Proof.
  intros Hinv Hmay Hn Hlen o. set (e := rext _ _). pose proof (pv_config _ _ Hinv) as [Hlay Hacc Hbase Hpg _ _].
  destruct (pv_slots _ _ Hinv n ltac:(set_solver)) as (_ & Hmin & _).
  destruct (pv_region_range _ _ Hinv n ltac:(set_solver)) as (H1 & H2 & H3 & _).
  pose proof (pv_layout _ _ Hinv) as (? & ? & ?). pose proof (ui_nelems _ _ (pv_riul _ _ Hinv)) as Hnl.
  fold o e in H1, H2, H3, Hmin.
  unfold rgn_get. rewrite assert_Ok, bind_Ok by lia. rewrite assert_Ok, bind_Ok by lia.
  rewrite assert_Ok, bind_Ok by lia. unfold ftom. rewrite Hacc. unfold mm0_ftom.
  rewrite Hlay, assert_Ok, bind_Ok by done.
  rewrite assert_Ok, bind_Ok by (unfold ftom_args_ok, TOTAL_SIZE; lia).
  rewrite assert_Ok, bind_Ok by by apply may_ok.
  rewrite (proj2 (Z.eqb_neq (pq_base q) 0)) by lia. done.
Qed.

Lemma rgn_rel_unfold q o fl :
  pq_config q → may q fl → pq_datao q ≤ o < pq_ixo q → rgn_rel q o fl = rgn2_release q o fl.
Proof.
  intros [Hlay Hacc Hbase _ _ _] Hmay Ho. unfold rgn_rel. rewrite assert_Ok, bind_Ok by lia.
  unfold mtof. rewrite Hacc. unfold mm0_mtof. rewrite Hlay, assert_Ok, bind_Ok by done.
  by rewrite assert_Ok, bind_Ok by by apply may_ok.
Qed.

Lemma pq_config_same q q' :
  pq_config q → pq_cfg q' = pq_cfg q → pq_ctl q' = pq_ctl q → pq_smallest q' = pq_smallest q →
  pq_config q'.
Proof.
  intros [] Hc Hctl Hsm. destruct q, q'. unfold pq_cfg in Hc. simpl in *. injection Hc as. subst.
  split; simpl; rewrite ?Hctl; done.
Qed.

Lemma not_index q G n :
  pq_core q G → n ∈ g_us G →
  (rg_off (rl_rp (pq_rl q)) n =? pq_ixo q) && (rext (rl_rp (pq_rl q)) n =? pq_ixsz q) = false.
Proof.
  intros Hinv Hn. destruct (pv_region_range _ _ Hinv n ltac:(set_solver)) as (_ & ? & ? & _).
  rewrite (proj2 (Z.eqb_neq _ _)) by lia. done.
Qed.

Lemma vp_pos q G n : pq_core q G → n ∈ g_us G → pq_base q + rg_off (rl_rp (pq_rl q)) n ≠ 0.
Proof.
  intros Hinv Hn. destruct (pv_region_range _ _ Hinv n ltac:(set_solver)) as (? & ? & ? & _).
  pose proof (pc_base _ (pv_config _ _ Hinv)). pose proof (pv_layout _ _ Hinv). lia.
Qed.

Lemma rs_small q G :
  pq_core q G → Z.of_nat (length (g_rs G)) ≤ rl_nelems (pq_rl q) + 1 →
  Z.of_nat (length (g_rs G)) < 2 ^ 40.
Proof. intros Hinv Hcnt. pose proof (pv_nelems _ _ Hinv). lia. Qed.

(** ** [pq2_try_del_prod()] *)

(** The product at [o], of signature [sig], went from between [A] and [B]. *)
Record pq_deleted q G (A : list (timestampt * Z)) (tv : timestampt) (o : Z) (info : prod_info)
    (B : list (timestampt * Z)) q' G' : Prop := {
  pd_inv : pq_inv q' G';
  pd_info : ∃ e, pq_regions q G !! o = Some e ∧
              xdr_prod_info (pq_base q + o) e (pq_sys q) = Some (info, xlen_prod_info info);
  pd_before : pq_queue q G = A ++ (tv, o) :: B;
  pd_after : pq_queue q' G' = A ++ B;
  pd_regions : pq_regions q' G' = delete o (pq_regions q G);
  pd_sigs : pq_sigs q' G' = delete (pi_signature info) (pq_sigs q G);
  pd_mine : g_rs G' = g_rs G;
  pd_transit : g_lb G' = g_lb G;
  pd_lost : g_lk G' = g_lk G;
  pd_slots : (length (g_es G) ≤ length (g_es G'))%nat;
  pd_nelems : rl_nelems (pq_rl q') = rl_nelems (pq_rl q) - 1;
  pd_spare : fb_spare (pq_fb q) - 4 ≤ fb_spare (pq_fb q');
  pd_cfg : pq_cfg q' = pq_cfg q ∧ pq_smallest q' = pq_smallest q ∧
           ctl_align (pq_ctl q') = ctl_align (pq_ctl q);
  pd_mem : same_mem (pq_sys q) (pq_sys q');
}.

(** ** A region less *)

Section removed.
Context (q : pqueue W) (G : ghost) (n : Z) (rl : regionl) (Hinv : pq_inv q G) (Hn : n ∈ g_us G).
Context (Hrl : ∀ x, x ∈ g_us G ++ g_lb G → x ≠ n → rg_off (rl_rp rl) x = rg_off (rl_rp (pq_rl q)) x ∧
           rext (rl_rp rl) x = rext (rl_rp (pq_rl q)) x).
Abbreviation us := (filter (λ x, x ≠ n) (g_us G)).

Lemma removed_lb x : x ∈ g_lb G → x ≠ n.
Proof.
  intros Hx ->. destruct (pv_rl_inv _ _ Hinv) as [U [[Htab _ _ _ _] _ _]].
  pose proof (rt_NoDup _ _ _ _ _ Htab) as Hnd. apply NoDup_app in Hnd as (_ & _ & Hnd).
  apply NoDup_app in Hnd as (_ & _ & Hnd). apply NoDup_app in Hnd as (_ & Hd & _). by apply (Hd n).
Qed.

Lemma removed_regions : rl_view (rl_rp rl) us = delete (rg_off (rl_rp (pq_rl q)) n) (pq_regions q G).
Proof.
  destruct (pv_us _ _ Hinv) as [Hnd Hinj]. unfold pq_regions.
  rewrite <- rl_view_remove by done. apply rl_view_ext. intros x [Hne Hx]%list_elem_of_filter.
  apply Hrl; [set_solver|done].
Qed.

Lemma removed_bytes f U base limit es fs lb ts :
  rl_inv rl f U base limit es fs us lb ts →
  rl_nbytes rl = u64 (rl_nbytes (pq_rl q) - rext (rl_rp (pq_rl q)) n) →
  rl_nbytes rl = foldr Z.add 0 (rext (rl_rp rl) <$> us).
Proof.
  intros Hr Hnb. destruct (pv_us _ _ Hinv) as [Hnd _].
  assert (foldr Z.add 0 (rext (rl_rp (pq_rl q)) <$> g_us G) =
          rext (rl_rp (pq_rl q)) n + foldr Z.add 0 (rext (rl_rp rl) <$> us)) as Hsum.
  { rewrite (sum_perm _ _ _ (filter_remove_perm n (g_us G) Hnd Hn)). csimpl. f_equal. f_equal.
    apply list_fmap_ext. intros i x Hx%list_elem_of_lookup_2.
    apply list_elem_of_filter in Hx as [Hne Hx]. symmetry. apply Hrl; [set_solver|done]. }
  rewrite Hnb, (pv_bytes _ _ Hinv), Hsum. rewrite u64_small; [lia|].
  pose proof (rl_regions_sum _ _ _ _ _ _ _ _ _ _ Hr).
  destruct (ri_core _ _ _ _ _ _ _ _ _ _ Hr) as [_ _ [? ?] _ _]. lia.
Qed.

(** The other slots are as they were. *)
Lemma removed_slots q' x :
  pq_ctl q' = pq_ctl q → pq_ixo q' = pq_ixo q → pq_rl q' = rl → x ∈ us ++ g_lb G → slot_ok q' x.
Proof.
  intros Hctl Hixo Hq Hx. assert (x ∈ g_us G ++ g_lb G ∧ x ≠ n) as [Hx' Hne].
  { apply elem_of_app in Hx as [[? ?]%list_elem_of_filter|Hx]; [set_solver|].
    split; [set_solver|]. by apply removed_lb. }
  pose proof (pv_slots _ _ Hinv x Hx') as Hs. unfold slot_ok in *. rewrite Hctl, Hq, Hixo.
  by destruct (Hrl x Hx' Hne) as [-> ->].
Qed.
End removed.

Section try_del.
Context (q : pqueue W) (G : ghost) (l1 : list Z) (t : Z) (l2 : list Z) (n : Z).
Context (Hinv : pq_inv q G) (Hns : g_ns G = l1 ++ t :: l2) (Hn : n ∈ g_us G).
Context (Hoff : rg_off (rl_rp (pq_rl q)) n = tq_off (tq_tqep (pq_tq q)) t).
Context (Hcnt : Z.of_nat (length (g_rs G)) ≤ rl_nelems (pq_rl q) + 1).
Context (Hspare : 4 ≤ fb_spare (pq_fb q)) (Hwr : pq_writable q).
Abbreviation o := (rg_off (rl_rp (pq_rl q)) n).
Abbreviation e := (rext (rl_rp (pq_rl q)) n).
Abbreviation fl := (Z.lor RGN_WRITE RGN_NOWAIT).

(** The run up to the answer of [rgn_get()]. *)
Lemma try_del_start :
  pq2_try_del_prod q t n =
    let! '(status, vp, q) :=
      let! '(status, _, q') := rgn2_reserve q o e fl (pq_base q + o) in
      Ok (status, if status =? 0 then pq_base q + o else 0, q') in
    if negb (status =? 0) then
      Ok (if (status =? EACCES) || (status =? EAGAIN) then EACCES else PQ_SYSTEM, None, q)
    else
      let! '(status, info, q) :=
        match xdr_prod_info vp e (pq_sys q) with
        | None => Ok (PQ_CORRUPT, None, q)
        | Some (info, _) =>
            let! '(found, s) := sx_find_delete (pq_sx q) (pi_signature info) in
            let q := set_sx q s in
            if negb found then Ok (PQ_CORRUPT, None, q)
            else
              let! '(tq, f) := tq_delete (pq_tq q) (pq_fb q) t in
              let q := set_tq_fb q tq f in
              let! '(rl, f, g) := rl_free (pq_rl q) (pq_fb q) (pq_rng q) n in
              Ok (0, Some info, set_rng (set_rl_fb q rl f) g)
        end in
      let! '(_, q) := rgn_rel q o 0 in
      Ok (status, info, q).
Proof.
  destruct (pv_region_at _ _ Hinv n ltac:(set_solver)) as (r & Hr & Ho & He).
  destruct (pv_both _ _ Hinv) as (U & Ht & _). rewrite Hns in Ht.
  destruct (tq_node _ _ _ _ _ _ Ht t ltac:(set_solver)) as (te & Hte & _).
  unfold pq2_try_del_prod. rewrite (rd_Ok _ _ _ Hr), bind_Ok, (rd_Ok _ _ _ Hte), bind_Ok.
  rewrite Ho. rewrite Hoff at 1. rewrite (tq_off_at _ _ _ Hte), Z.eqb_refl. simpl negb. cbv iota.
  rewrite He, (rgn_get_unfold _ _ _ _ Hinv (λ _, Hwr) Hn Hcnt). done.
Qed.

(** The process has the region itself. *)
Lemma try_del_mine r :
  r ∈ g_rs G → ru_offset r = o → pq2_try_del_prod q t n = Ok (EACCES, None, q).
Proof.
  intros Hr Ho. rewrite try_del_start, <- Ho.
  by rewrite (rgn2_reserve_mine _ _ _ _ _ _ (pv_riul _ _ Hinv) Hr).
Qed.

(** The system refuses the lock. *)
Lemma try_del_refused :
  (∀ r, r ∈ g_rs G → ru_offset r ≠ o) → (try_lock q o e fl).1 ≠ 0 →
  pq2_try_del_prod q t n =
    Ok (if ((try_lock q o e fl).1 =? EACCES) || ((try_lock q o e fl).1 =? EAGAIN)
        then EACCES else PQ_SYSTEM, None, q).
Proof.
  intros Hno Hst. rewrite try_del_start.
  pose proof (rgn2_reserve_spec q (g_rs G) o e fl _ (pv_riul _ _ Hinv) Hno (vp_pos _ _ _ Hinv Hn)
    (pc_page _ (pv_config _ _ Hinv)) (rs_small _ _ Hinv Hcnt) eq_refl (not_index _ _ _ Hinv Hn)) as Hres.
  apply Z.eqb_neq in Hst. rewrite Hst in Hres. rewrite Hres, !bind_Ok.
  destruct (Z.eqb_spec (try_lock q o e fl).1 EAGAIN) as [->|Hea]; simpl; [done|].
  rewrite Hst. simpl. rewrite (proj2 (Z.eqb_neq _ _) Hea). done.
Qed.

(** What the deletion from the three indexes leaves, before the region is released. *)
Lemma del_indexes info g :
  pq_sigs q G !! pi_signature info = Some o →
  ∃ s tq f rl f' g' es fs us ts xu xf,
    sx_find_delete (pq_sx q) (pi_signature info) = Ok (true, s) ∧
    tq_delete (pq_tq q) (pq_fb q) t = Ok (tq, f) ∧
    rl_free (pq_rl q) f g n = Ok (rl, f', g') ∧
    sx_inv s xu xf ∧
    sx_view (sx_sxep s) xu = delete (pi_signature info) (pq_sigs q G) ∧
    both tq rl f' (pq_datao q) (pq_ixo q) (l1 ++ l2) (t :: g_fl G) (g_lk G) es fs us (g_lb G) ts ∧
    us = filter (λ x, x ≠ n) (g_us G) ∧
    tq_view tq (l1 ++ l2) = tq_view (pq_tq q) (l1 ++ l2) ∧
    (∀ x, x ∈ g_us G ++ g_lb G → x ≠ n → rg_off (rl_rp rl) x = rg_off (rl_rp (pq_rl q)) x ∧
       rext (rl_rp rl) x = rext (rl_rp (pq_rl q)) x) ∧
    rl_nbytes rl = u64 (rl_nbytes (pq_rl q) - e) ∧
    fb_spare (pq_fb q) - 4 ≤ fb_spare f' ∧
    ((length (g_es G) ≤ length es)%nat ∧ rl_nalloc rl = pq_nalloc q ∧ tq_nalloc tq = pq_nalloc q ∧
     sx_nalloc s = pq_nalloc q).
Proof.
  intros Hsig. pose proof (pv_sx _ _ Hinv) as Hsx.
  apply (sx_view_lookup _ _ _ Hsx) in Hsig as (x & Hx & Hxs & Hxo).
  destruct (sx_delete_spec _ _ _ Hsx _ x Hx Hxs) as (s & Hsd & Hsx' & Hsk & Hsn).
  destruct (both_tq_delete _ _ _ _ _ _ _ _ _ _ _ _ _ (pv_both _ _ Hinv) t) as
    (tq & f & k1 & k2 & Htd & Hk & Hb1 & _ & Htn & Hs1 & Htx); [rewrite Hns; set_solver|].
  destruct (pv_both _ _ Hinv) as (U & Ht & _).
  pose proof (tq_NoDup _ _ _ _ _ _ Ht) as Hnd. apply NoDup_app in Hnd as (_ & _ & Hnd).
  apply NoDup_app in Hnd as (Hnd & _). rewrite Hns in Hk, Hnd.
  destruct (NoDup_split_eq _ _ _ _ _ Hnd Hk) as [<- <-].
  destruct (both_rl_free _ _ _ _ _ _ _ _ _ _ _ _ _ Hb1 n g Hn ltac:(lia))
    as (rl & f' & g' & es & fs & ts & Hrf & Hb2 & Hrk & Hnb & Hs2 & Hl1 & Hl2).
  destruct (pv_nalloc _ _ Hinv) as (Hn1 & Hn2 & Hn3). pose proof (pv_length _ _ Hinv) as Hlen.
  destruct (pv_us _ _ Hinv) as [Hndu _].
  pose proof (Permutation_length (filter_remove_perm n (g_us G) Hndu Hn)) as Hlu. simpl in Hlu.
  destruct Hb2 as (U2 & Ht2 & Hr2). pose proof (rl_length _ _ _ _ _ _ _ _ _ _ Hr2) as Hlen2.
  assert (both tq rl f' (pq_datao q) (pq_ixo q) (l1 ++ l2) (t :: g_fl G) (g_lk G) es fs
    (filter (λ x, x ≠ n) (g_us G)) (g_lb G) ts) as Hb2 by by exists U2.
  exists s, tq, f, rl, f', g', es, fs, (filter (λ x, x ≠ n) (g_us G)), ts, (filter (λ y, y ≠ x) (g_xu G)), (x :: g_xf G).
  split_and!; [exact Hsd|exact Htd|exact Hrf|exact Hsx'| |exact Hb2|reflexivity| |exact Hrk|exact Hnb|lia|exact Hl1|lia|congruence|congruence].
  - rewrite <- Hxs. by eapply sx_view_delete.
  - apply tq_view_ext. intros y Hy. apply Htx. intros ->. apply NoDup_app in Hnd as (_ & Hd & [? _]%NoDup_cons).
    apply elem_of_app in Hy as [Hy|Hy]; [|done]. apply (Hd t Hy). constructor.
Qed.
(** The queue after the deletion; [q'] differs from [q] in what is shared, in the
    list of regions (which has the same regions) and in the system. *)
Section after.
Context (q' : pqueue W) (info : prod_info) (s : sx) (tq : tqueue) (rl : regionl) (f' : fb).
Context (es fs ts xu xf : list Z).
Context (Hno : ∀ r, r ∈ g_rs G → ru_offset r ≠ o).
Context (Hinfo : xdr_prod_info (pq_base q + o) e (pq_sys q) = Some (info, xlen_prod_info info)).
Context (Hsig : pq_sigs q G !! pi_signature info = Some o).
Abbreviation us := (filter (λ x, x ≠ n) (g_us G)).
Context (Hsx : sx_inv s xu xf) (Hsv : sx_view (sx_sxep s) xu = delete (pi_signature info) (pq_sigs q G)).
Context (Hb : both tq rl f' (pq_datao q) (pq_ixo q) (l1 ++ l2) (t :: g_fl G) (g_lk G) es fs us (g_lb G) ts).
Context (Htv : tq_view tq (l1 ++ l2) = tq_view (pq_tq q) (l1 ++ l2)).
Context (Hrl : ∀ x, x ∈ g_us G ++ g_lb G → x ≠ n → rg_off (rl_rp rl) x = rg_off (rl_rp (pq_rl q)) x ∧
           rext (rl_rp rl) x = rext (rl_rp (pq_rl q)) x).
Context (Hnb : rl_nbytes rl = u64 (rl_nbytes (pq_rl q) - e)) (Hsp : fb_spare (pq_fb q) - 4 ≤ fb_spare f').
Context (Hsh : pq_sh q' = Shared (pq_ctl q) f' tq rl s) (Hcfg : pq_cfg q' = pq_cfg q).
Context (Hsm : pq_smallest q' = pq_smallest q) (Hes : (length (g_es G) ≤ length es)%nat).
Context (Hna : rl_nalloc rl = pq_nalloc q ∧ tq_nalloc tq = pq_nalloc q ∧ sx_nalloc s = pq_nalloc q).
Context (Hriul : riul_inv (pq_riul q') (g_rs G)) (Hmem : same_mem (pq_sys q) (pq_sys q')).
Abbreviation G' := (Ghost (l1 ++ l2) (t :: g_fl G) (g_lk G) es fs us (g_lb G) ts xu xf (g_rs G)).

Lemma del_regions : pq_regions q' G' = delete o (pq_regions q G).
Proof. unfold pq_regions at 1. simpl. rewrite Hsh. by apply removed_regions. Qed.

Lemma del_sigs : pq_sigs q' G' = delete (pi_signature info) (pq_sigs q G).
Proof. unfold pq_sigs. simpl. by rewrite Hsh. Qed.

Lemma del_queue :
  pq_queue q G = tq_view (pq_tq q) l1 ++ (tq_key (tq_tqep (pq_tq q)) t, o) :: tq_view (pq_tq q) l2 ∧
  pq_queue q' G' = tq_view (pq_tq q) l1 ++ tq_view (pq_tq q) l2.
Proof.
  unfold pq_queue. simpl. rewrite Hsh, Hns. simpl. rewrite Htv, !tq_view_app, Hoff. done.
Qed.

Lemma del_others p : p ∈ pq_queue q' G' → p ∈ pq_queue q G ∧ p.2 ≠ o.
Proof.
  pose proof (pv_offs _ _ Hinv) as Hnd. destruct del_queue as [H1 H2]. rewrite H1 in Hnd |- *. rewrite H2.
  rewrite fmap_app in Hnd. csimpl in Hnd. apply NoDup_app in Hnd as (_ & Hd & [Hn2 _]%NoDup_cons).
  intros Hp. split; [set_solver|]. intros Ho. apply elem_of_app in Hp as [Hp|Hp].
  - apply (Hd p.2); [apply list_elem_of_fmap; eauto|]. rewrite Ho. constructor.
  - apply Hn2. rewrite <- Ho. apply list_elem_of_fmap. eauto.
Qed.

Lemma del_prod p : p ∈ pq_queue q' G' → prod_ok q' G' (pq_sys q') p.2.
Proof.
  intros [Hp Hne]%del_others. destruct (pv_prods _ _ Hinv p Hp) as (e2 & i2 & H1 & H2 & H3 & H4).
  exists e2, i2. rewrite del_regions, lookup_delete_ne by done. split; [done|]. split; [|split; [|exact H4]].
  - rewrite Hmem. replace (pq_base q') with (pq_base q); [done|].
    unfold pq_cfg in Hcfg. congruence.
  - unfold pq_sigs. simpl. rewrite Hsh. simpl. rewrite Hsv, lookup_delete_ne; [done|].
    intros Heq. rewrite Heq in Hsig. congruence.
Qed.

Lemma del_bytes : rl_nbytes rl = foldr Z.add 0 (rext (rl_rp rl) <$> us).
Proof. destruct Hb as (U & _ & Hr). by eapply removed_bytes. Qed.

Lemma del_inv : pq_inv q' G'.
Proof.
  assert (pq_ctl q' = pq_ctl q) as Hctl by by rewrite Hsh.
  pose proof (pq_config_same _ _ (pv_config _ _ Hinv) Hcfg Hctl Hsm) as Hconf.
  assert (pq_base q' = pq_base q ∧ pq_ixo q' = pq_ixo q ∧ pq_datao q' = pq_datao q ∧ pq_ixsz q' = pq_ixsz q)
    as (Hbase & Hixo & Hdatao & Hixsz) by (unfold pq_cfg in Hcfg; split_and!; congruence).
  split; [split|]; simpl; try done.
  - by rewrite Hsh, Hdatao, Hixo.
  - by rewrite Hsh.
  - intros x Hx. eapply (removed_slots q G n rl); [done..|by rewrite Hsh|exact Hx].
  - intros r Hr. destruct (pv_mine _ _ Hinv r Hr) as (He & Hv & Hk). unfold mine_ok, TOTAL_SIZE.
    rewrite Hbase, Hixo, Hixsz, del_regions. split_and!; [apply He|apply He|apply Hv|apply Hv|].
    rewrite lookup_delete_ne; [done|]. intros Ho. by apply (Hno r).
  - apply del_prod.
  - pose proof (pv_offs _ _ Hinv) as Hnd. destruct del_queue as [-> ->] in Hnd |- *.
    rewrite fmap_app in *. csimpl in Hnd. by apply NoDup_remove_mid in Hnd.
  - intros s1 o1. rewrite del_sigs, del_regions. intros [Hne Hs1]%lookup_delete_Some.
    rewrite lookup_delete_ne; [by eapply (pv_sigs _ _ Hinv)|]. intros <-.
    apply Hne. by eapply (pv_sigs_inj _ _ Hinv).
  - intros s1 s2 o1. rewrite del_sigs. intros [_ H1]%lookup_delete_Some [_ H2]%lookup_delete_Some.
    by eapply (pv_sigs_inj _ _ Hinv).
  - rewrite Hsh. replace (pq_nalloc q') with (pq_nalloc q); [exact Hna|].
    unfold pq_cfg in Hcfg. congruence.
  - intros p [Hp _]%del_others. by apply (pv_times _ _ Hinv).
  - rewrite Hsh. apply del_bytes.
Qed.

Lemma del_done :
  pq_deleted q G (tq_view (pq_tq q) l1) (tq_key (tq_tqep (pq_tq q)) t) o info (tq_view (pq_tq q) l2) q' G'.
Proof.
  destruct del_queue as [Hq1 Hq2]. pose proof del_inv as Hinv'.
  split; try done; rewrite ?Hsh; simpl; try done.
  - exists e. split; [|done]. apply (pv_regions_lookup _ _ Hinv). eauto.
  - apply del_regions.
  - unfold pq_sigs. simpl. by rewrite Hsh.
  - destruct (pv_nelems _ _ Hinv) as [-> _]. destruct (pv_nelems _ _ Hinv') as [Hn' _].
    rewrite Hsh in Hn'. simpl in Hn'. rewrite Hn'. destruct (pv_us _ _ Hinv) as [Hnd _].
    pose proof (Permutation_length (filter_remove_perm n (g_us G) Hnd Hn)) as Hl. simpl in Hl. lia.
Qed.
End after.
(** The metadata of the product. *)
Lemma try_del_info :
  ∃ info, xdr_prod_info (pq_base q + o) e (pq_sys q) = Some (info, xlen_prod_info info) ∧
    pq_sigs q G !! pi_signature info = Some o.
Proof.
  destruct (pv_prods _ _ Hinv (tq_key (tq_tqep (pq_tq q)) t, o)) as (e2 & info & H1 & H2 & H3 & _).
  { unfold pq_queue. rewrite Hns, tq_view_app, Hoff. set_solver. }
  exists info. simpl in *. destruct (pv_us _ _ Hinv) as [_ Hinj].
  apply (pv_regions_lookup _ _ Hinv) in H1 as (x & Hx & Ho & <-).
  by rewrite (Hinj x n Hx Hn Ho) in H2.
Qed.

(** The system grants the lock: the product is deleted, unless there is no memory
    for the list of regions. *)
Lemma try_del_granted :
  (∀ r, r ∈ g_rs G → ru_offset r ≠ o) → (try_lock q o e fl).1 = 0 →
  (∃ info q' G', pq2_try_del_prod q t n = Ok (0, Some info, q') ∧ pq_ctl q' = pq_ctl q ∧
     pq_deleted q G (tq_view (pq_tq q) l1) (tq_key (tq_tqep (pq_tq q)) t) o info
       (tq_view (pq_tq q) l2) q' G') ∨
  (∃ w, pq2_try_del_prod q t n = Ok (PQ_SYSTEM, None, set_sys q w) ∧ same_mem (pq_sys q) w ∧ refused W).
Proof.
  intros Hno Hst. rewrite try_del_start.
  pose proof (rgn2_reserve_spec q (g_rs G) o e fl _ (pv_riul _ _ Hinv) Hno (vp_pos _ _ _ Hinv Hn)
    (pc_page _ (pv_config _ _ Hinv)) (rs_small _ _ Hinv Hcnt) eq_refl (not_index _ _ _ Hinv Hn)) as Hres.
  rewrite Hst in Hres. simpl in Hres.
  destruct Hres as [(rl1 & ix & w & A & B & Hrun & HAB & Hi & Hmem)|(w & Hrun & Hmem & Hrfs)];
    rewrite Hrun, !bind_Ok; simpl; [left|right; eauto].
  destruct try_del_info as (info & Hinfo & Hsig). rewrite Hmem, Hinfo.
  destruct (del_indexes info (pq_rng q) Hsig) as (s & tq & f & rl & f' & g' & es & fs & us & ts & xu & xf &
    Hsd & Htd & Hrf & Hsx & Hsv & Hb & -> & Htv & Hrl & Hnb & Hsp & Hes & Hna).
  rewrite Hsd, bind_Ok. simpl. rewrite Htd, bind_Ok. simpl. rewrite Hrf, !bind_Ok.
  set (q2 := set_rng _ g').
  assert (pq_cfg q2 = pq_cfg q) as Hc2 by reflexivity.
  assert (pq_ctl q2 = pq_ctl q) as Hctl2 by reflexivity.
  destruct (pv_region_range _ _ Hinv n ltac:(set_solver)) as (Ho1 & He1 & He2 & _).
  pose proof (pv_layout _ _ Hinv) as (Hl1 & Hl2 & Hl3). pose proof (pc_page _ (pv_config _ _ Hinv)) as Hpg.
  rewrite rgn_rel_unfold; [|apply (pq_config_same q); [apply (pv_config _ _ Hinv)|reflexivity..]|apply may_read|simpl; lia].
  destruct (rgn2_release_spec q2 A (Riu o e (pq_base q + o) fl) B 0 Hi)
    as (st & rl2 & w2 & Hrel & Hi2 & Hmem2 & _); simpl;
    [unfold TOTAL_SIZE; simpl; lia|lia|done|done|done|exact (not_index q G n Hinv Hn)|].
  simpl in Hrel. rewrite Hrel, bind_Ok.
  eexists info, _, _. split_and!; [reflexivity|reflexivity|].
  eapply (del_done _ info s tq rl f' es fs ts xu xf).
  - exact Hno.
  - exact Hinfo.
  - exact Hsig.
  - exact Hsx.
  - exact Hsv.
  - exact Hb.
  - exact Htv.
  - exact Hrl.
  - exact Hnb.
  - exact Hsp.
  - reflexivity.
  - reflexivity.
  - reflexivity.
  - exact Hes.
  - exact Hna.
  - simpl. by rewrite HAB.
  - exact (same_mem_trans _ _ _ Hmem Hmem2).
Qed.
End try_del.

(** ** [pq2_set_mvrt()] *)

Lemma set_mvrt_spec q tv info :
  ∃ c w, pq2_set_mvrt q tv info = Ok (set_ctl (set_sys q w) c) ∧ same_mem (pq_sys q) w ∧
    ctl_fixed c = ctl_fixed (pq_ctl q) ∧ ctl_isFull c = ctl_isFull (pq_ctl q).
Proof.
  destruct (clock_time (pq_sys q)) as (now & w & Hclk & _). unfold pq2_set_mvrt. rewrite Hclk.
  assert (same_mem (pq_sys q) w) as Hm.
  { intros vp n. pose proof (clock_mem vp n (pq_sys q)) as Hc. by rewrite Hclk in Hc. }
  assert (set_sys q w = set_ctl (set_sys q w) (pq_ctl (set_sys q w))) as Hid.
  { destruct q as [? ? ? ? ? ? ? ? ? ? ? ? ? ? ? ? sh ? ?]. destruct sh. reflexivity. }
  cbn zeta. set (ct := if TV_CMP_LT tv _ then _ else _).
  destruct (TV_CMP_LT ct now); [destruct (tvIsNone _ || _)|].
  - eexists _, w. split; [reflexivity|]. done.
  - exists (pq_ctl q), w. rewrite Hid at 1. done.
  - exists (pq_ctl q), w. rewrite Hid at 1. done.
Qed.

(** ** [pq2_del_oldest()] *)

Lemma pq_inv_ctl q G c w :
  pq_inv q G → ctl_fixed c = ctl_fixed (pq_ctl q) →
  same_mem (pq_sys q) w → pq_inv (set_ctl (set_sys q w) c) G.
Proof.
  intros [[[] Hb Hsx Hri Hsl Hmi Hpr Hof Hs1 Hs2 Hna Htm] Hby] Hc Hm. split; [|exact Hby].
  unfold ctl_fixed in Hc. injection Hc as Hc1 Hc2 Hd Hc4 Hc5 _ Ha. split; try assumption.
  - split; try assumption; simpl; by rewrite ?Ha, ?Hd, ?Hc1, ?Hc2, ?Hc4, ?Hc5.
  - intros n Hn. pose proof (Hsl n Hn) as Hs. unfold slot_ok in *. simpl in *. by rewrite Ha.
  - intros p Hp. exact (prod_ok_mem _ _ _ _ _ Hm (Hpr p Hp)).
Qed.

Lemma pq_deleted_ctl q G A tv o info B q' G' c w :
  pq_deleted q G A tv o info B q' G' → ctl_fixed c = ctl_fixed (pq_ctl q') →
  same_mem (pq_sys q') w →
  pq_deleted q G A tv o info B (set_ctl (set_sys q' w) c) G'.
Proof.
  intros [] Hc Hm. split; try assumption; [by apply pq_inv_ctl| |].
  - unfold ctl_fixed in Hc. injection Hc as _ _ _ _ _ _ Ha. destruct pd_cfg0 as (? & ? & ?).
    split_and!; [done..|]. simpl. congruence.
  - exact (same_mem_trans _ _ _ pd_mem0 Hm).
Qed.

(** The product at [o] cannot be deleted: this process has its region or the
    system says that another one has. *)
Definition pq_busy q G (o : Z) : bool :=
  let e := default 0 (pq_regions q G !! o) in
  let st := (try_lock q o e (Z.lor RGN_WRITE RGN_NOWAIT)).1 in
  bool_decide (o ∈ ru_offset <$> g_rs G) || ((st =? EACCES) || (st =? EAGAIN)).

(** What [pq2_del_oldest()] promises. *)
Definition del_oldest_post q G (st : Z) q' : Prop :=
  (st = EACCES ∧ q' = q ∧ ∀ p, p ∈ pq_queue q G → pq_busy q G p.2 = true) ∨
  (∃ A tv o B, pq_queue q G = A ++ (tv, o) :: B ∧ (∀ p, p ∈ A → pq_busy q G p.2 = true) ∧
     pq_busy q G o = false ∧
     ((st = 0 ∧ ∃ info G', pq_deleted q G A tv o info B q' G' ∧ ctl_isFull (pq_ctl q') = true) ∨
      (st = PQ_SYSTEM ∧ refused W ∧ ∃ w, q' = set_sys q w ∧ same_mem (pq_sys q) w))).

Section del_oldest.
Context (q : pqueue W) (G : ghost) (Hinv : pq_inv q G).
Context (Hcnt : Z.of_nat (length (g_rs G)) ≤ rl_nelems (pq_rl q) + 1).
Context (Hspare : 4 ≤ fb_spare (pq_fb q)) (Hwr : pq_writable q).

Lemma rl_find_queue t :
  t ∈ g_ns G → ∃ te n, tq_tqep (pq_tq q) !! t = Some te ∧ n ∈ g_us G ∧
    rl_find (pq_rl q) (te_offset te) = Ok n ∧ n ≠ RL_NONE ∧
    rg_off (rl_rp (pq_rl q)) n = tq_off (tq_tqep (pq_tq q)) t ∧
    te_tv te = tq_key (tq_tqep (pq_tq q)) t.
Proof.
  clear Hcnt Hspare Hwr. intros Ht. destruct (pv_both _ _ Hinv) as (U & Htq & Hrl).
  destruct (tq_node _ _ _ _ _ _ Htq t Ht) as (te & Hte & Htv). exists te.
  destruct (pv_prods _ _ Hinv (tq_entry (pq_tq q) t)) as (e & info & Hr & _).
  { unfold pq_queue, tq_view. apply list_elem_of_fmap. exists t. done. }
  apply (pv_regions_lookup _ _ Hinv) in Hr as (n & Hn & Ho & _). simpl in Ho.
  pose proof (rc_tab _ _ _ _ _ _ _ _ _ _ (ri_core _ _ _ _ _ _ _ _ _ _ Hrl)) as Htab.
  destruct (rl_find_spec _ _ (te_offset te) (rt_hash _ _ _ _ _ Htab) (rt_used _ _ _ _ _ Htab))
    as (ix & Hrun & [[Hix Hox]|[-> Hno]]); rewrite (tq_off_at _ _ _ Hte) in Ho.
  - exists ix. split_and!; try done; [|by rewrite (tq_off_at _ _ _ Hte)].
    pose proof (rt_slot _ _ _ _ _ Htab ix ltac:(set_solver)). destruct (rt_counts _ _ _ _ _ Htab) as [_ ?].
    change RL_NONE with (2 ^ 64 - 1). lia.
  - exfalso. by apply (Hno n).
Qed.

Lemma rl_find_tail :
  ∃ te, tq_tqep (pq_tq q) !! TQ_NIL = Some te ∧ rl_find (pq_rl q) (te_offset te) = Ok RL_NONE.
Proof.
  clear Hcnt Hspare Hwr. destruct (pv_both _ _ Hinv) as (U & Htq & Hrl).
  destruct (ti_nil _ _ _ _ _ _ Htq) as (te & Hte & _ & Ho). exists te. split; [done|].
  pose proof (rc_tab _ _ _ _ _ _ _ _ _ _ (ri_core _ _ _ _ _ _ _ _ _ _ Hrl)) as Htab.
  destruct (rl_find_spec _ _ (te_offset te) (rt_hash _ _ _ _ _ Htab) (rt_used _ _ _ _ _ Htab))
    as (ix & Hrun & [[Hix Hox]|[-> Hno]]); [|done]. exfalso.
  destruct (pv_region_range _ _ Hinv ix ltac:(set_solver)) as (? & _ & _ & _ & ?).
  rewrite Ho in Hox. unfold OFF_NONE in Hox. lia.
Qed.

(** The test of an entry. *)
Lemma try_del_cases l1 t l2 n :
  g_ns G = l1 ++ t :: l2 → n ∈ g_us G →
  rg_off (rl_rp (pq_rl q)) n = tq_off (tq_tqep (pq_tq q)) t →
  let o := tq_off (tq_tqep (pq_tq q)) t in
  (pq_busy q G o = true ∧ pq2_try_del_prod q t n = Ok (EACCES, None, q)) ∨
  (pq_busy q G o = false ∧
   ((∃ info q' G', pq2_try_del_prod q t n = Ok (0, Some info, q') ∧ pq_ctl q' = pq_ctl q ∧
     pq_deleted q G (tq_view (pq_tq q) l1) (tq_key (tq_tqep (pq_tq q)) t) o info
       (tq_view (pq_tq q) l2) q' G') ∨
    (∃ w, pq2_try_del_prod q t n = Ok (PQ_SYSTEM, None, set_sys q w) ∧ same_mem (pq_sys q) w ∧ refused W))).
Proof.
  intros Hns Hn Hoff o. unfold pq_busy. rewrite (proj2 (pv_regions_lookup _ _ Hinv o (rext (rl_rp (pq_rl q)) n)))
    by eauto. simpl default. unfold o. rewrite <- Hoff.
  destruct (decide (rg_off (rl_rp (pq_rl q)) n ∈ ru_offset <$> g_rs G)) as [Hr|Hr].
  - left. rewrite bool_decide_true by done. split; [done|].
    apply list_elem_of_fmap in Hr as (r & Hr1 & Hr2). by eapply try_del_mine.
  - rewrite bool_decide_false by done. rewrite orb_false_l.
    assert (∀ r, r ∈ g_rs G → ru_offset r ≠ rg_off (rl_rp (pq_rl q)) n) as Hno.
    { intros r Hr1 Hr2. apply Hr. rewrite <- Hr2. apply list_elem_of_fmap. eauto. }
    destruct (Z.eqb_spec (try_lock q (rg_off (rl_rp (pq_rl q)) n) (rext (rl_rp (pq_rl q)) n)
      (Z.lor RGN_WRITE RGN_NOWAIT)).1 0) as [Hst|Hst].
    + right. rewrite Hst. split; [done|]. by eapply try_del_granted.
    + pose proof (try_del_refused q G l1 t l2 n Hinv Hns Hn Hoff Hcnt Hspare Hwr Hno Hst) as Hrun.
      case_match eqn:Hc; [left; done|right]. split; [done|]. right.
      exists (pq_sys q). rewrite set_sys_id. split_and!; [done|done|by eapply try_lock_refused].
Qed.

Lemma del_oldest_loop_spec fuel l1 l2 :
  g_ns G = l1 ++ l2 → (length l2 < fuel)%nat →
  (∀ p, p ∈ tq_view (pq_tq q) l1 → pq_busy q G p.2 = true) →
  ∃ st q', pq2_del_oldest_loop fuel q (Some (head_or TQ_NIL l2)) EACCES = Ok (st, q') ∧
    del_oldest_post q G st q'.
Proof.
  revert l1 l2. induction fuel as [|fuel IH]; intros l1 l2 Hns Hf Hbusy; [lia|].
  cbn [pq2_del_oldest_loop]. destruct l2 as [|t l2].
  - destruct rl_find_tail as (te & Hte & Hfind). unfold head_or. simpl head. simpl default.
    rewrite (rd_Ok _ _ _ Hte), bind_Ok, Hfind, bind_Ok, Z.eqb_refl.
    exists EACCES, q. split; [done|]. left. split_and!; [done..|].
    unfold pq_queue. rewrite Hns, app_nil_r. done.
  - destruct (rl_find_queue t) as (te & n & Hte & Hn & Hfind & Hne & Ho & Htv); [rewrite Hns; set_solver|].
    unfold head_or. simpl head. simpl default.
    rewrite (rd_Ok _ _ _ Hte), bind_Ok, Hfind, bind_Ok, (proj2 (Z.eqb_neq _ _) Hne).
    assert (pq_queue q G = tq_view (pq_tq q) l1 ++
      (tq_key (tq_tqep (pq_tq q)) t, tq_off (tq_tqep (pq_tq q)) t) :: tq_view (pq_tq q) l2) as Hq.
    { unfold pq_queue. rewrite Hns, tq_view_app. done. }
    destruct (try_del_cases l1 t l2 n Hns Hn Ho) as
      [[Hb Hrun]|[Hb [(info & q' & G' & Hrun & Hctl & Hdel)|(w & Hrun & Hm & Hrf)]]]; rewrite Hrun, bind_Ok.
    + simpl negb. cbv iota. rewrite (both_tq_next _ _ _ _ _ _ _ _ _ _ _ _ _ (pv_both _ _ Hinv) l1 t l2 Hns), bind_Ok.
      destruct (IH (l1 ++ [t]) l2) as (st & q' & Hloop & Hpost).
      * by rewrite <- app_assoc.
      * simpl in Hf. lia.
      * intros p Hp. rewrite tq_view_app in Hp. apply elem_of_app in Hp as [Hp|Hp]; [by apply Hbusy|].
        unfold tq_view in Hp. simpl in Hp. apply list_elem_of_singleton in Hp as ->. exact Hb.
      * exists st, q'. done.
    + set (q1 := set_ctl q' (ctl_set_isFull (pq_ctl q') true)).
      destruct (set_mvrt_spec q1 (te_tv te) info) as (c & w & Hmv & Hm & Hc & Hfull).
      rewrite Hmv, bind_Ok. exists 0, (set_ctl (set_sys q1 w) c). split; [done|]. right.
      eexists _, _, _, _. split; [exact Hq|]. split; [exact Hbusy|]. split; [exact Hb|]. left.
      split; [done|]. exists info, G'. split; [|exact Hfull].
      apply (pq_deleted_ctl q G _ _ _ info _ q' G' c w Hdel); [exact Hc|exact Hm].
    + simpl negb. cbv iota. exists PQ_SYSTEM, (set_sys q w). split; [done|]. right.
      eexists _, _, _, _. split; [exact Hq|]. split; [exact Hbusy|]. split; [exact Hb|]. right.
      split; [done|]. split; [exact Hrf|]. exists w. done.
Qed.

Lemma del_oldest_spec :
  ∃ st q', pq2_del_oldest q = Ok (st, q') ∧ del_oldest_post q G st q'.
Proof.
  unfold pq2_del_oldest. rewrite (both_tqe_first _ _ _ _ _ _ _ _ _ _ _ _ _ (pv_both _ _ Hinv)), bind_Ok.
  destruct (pv_both _ _ Hinv) as (U & Htq & _). pose proof (tq_length_fuel _ _ _ _ _ _ Htq) as Hf.
  destruct (g_ns G) as [|t l] eqn:Hns.
  - unfold tq_fuel. simpl. exists EACCES, q. split; [done|]. left. split_and!; [done..|].
    unfold pq_queue. rewrite Hns. simpl. intros p []%elem_of_nil.
  - destruct (del_oldest_loop_spec (tq_fuel (pq_tq q)) [] (t :: l)) as (st & q' & Hrun & Hpost); eauto.
    simpl. intros p []%elem_of_nil.
Qed.
End del_oldest.
End delete.
