(* ===== verification/PqRoom.v ===== *)
(** * Making room

    [rpqe_mkslot()] and [rpqe_mkspace()] end, and on every outcome the queue is
    what the deletion of some of its products leaves. *)

From S2P Require Import Prelude Timestamp NumTheory Fb SkipList TimeQueue RegionList RegionHash.
From S2P Require Import RegionAlloc RegionThms SigIndex Riul Sizes PqShare PqCore PqOps PqInv.
From S2P Require Import PqAccess PqDelete.

Section room.
Context {W : Type} {Sys : System W} {Laws : SystemLaws W}.
Implicit Types (q : pqueue W) (w : W).

(** Some products were deleted. *)
Record pq_shrunk q G q' G' : Prop := {
  ps_queue : pq_queue q' G' `sublist_of` pq_queue q G;
  ps_regions : pq_regions q' G' ⊆ pq_regions q G;
  ps_sigs : pq_sigs q' G' ⊆ pq_sigs q G;
  ps_mine : g_rs G' = g_rs G;
  ps_lost : g_lk G' = g_lk G;
  ps_slots : (length (g_es G) ≤ length (g_es G'))%nat;
  ps_count : Z.of_nat (length (pq_queue q G)) - Z.of_nat (length (pq_queue q' G')) =
             rl_nelems (pq_rl q) - rl_nelems (pq_rl q');
  ps_spare : fb_spare (pq_fb q) - 4 * (rl_nelems (pq_rl q) - rl_nelems (pq_rl q')) ≤
             fb_spare (pq_fb q');
  ps_cfg : pq_cfg q' = pq_cfg q ∧
           ctl_align (pq_ctl q') = ctl_align (pq_ctl q);
  ps_small : pq_smallest q' ≤ pq_smallest q;
  ps_mem : same_mem (pq_sys q) (pq_sys q');
}.

Lemma shrunk_refl q G : pq_shrunk q G q G.
Proof. split; try done; lia. Qed.

Lemma shrunk_trans q1 G1 q2 G2 q3 G3 :
  pq_shrunk q1 G1 q2 G2 → pq_shrunk q2 G2 q3 G3 → pq_shrunk q1 G1 q3 G3.
Proof.
  intros [] []. split; try (by etrans); try congruence; try lia.
  destruct ps_cfg0 as (? & ?), ps_cfg1 as (? & ?). split_and!; congruence.
Qed.

Lemma deleted_shrunk q G A tv o info B q' G' :
  pq_deleted q G A tv o info B q' G' → pq_shrunk q G q' G'.
Proof.
  intros []. split; try done.
  - rewrite pd_before, pd_after. apply sublist_app; [done|]. by apply sublist_cons.
  - rewrite pd_regions. apply delete_subseteq.
  - rewrite pd_sigs. apply delete_subseteq.
  - rewrite pd_before, pd_after, !length_app, pd_nelems. simpl. lia.
  - lia.
  - by destruct pd_cfg as (? & _ & ?).
  - by destruct pd_cfg as (_ & -> & _).
Qed.

Lemma pq_inv_sys q G w : pq_inv q G → same_mem (pq_sys q) w → pq_inv (set_sys q w) G.
Proof.
  intros [[[] Hb Hsx Hri Hsl Hmi Hpr Hof Hs1 Hs2 Hna Htm] Hby] Hm. split; [|exact Hby]. split; try assumption.
  - split; assumption.
  - intros p Hp. exact (prod_ok_mem _ _ _ _ _ Hm (Hpr p Hp)).
Qed.

Lemma shrunk_sys q G w : same_mem (pq_sys q) w → pq_shrunk q G (set_sys q w) G.
Proof. intros Hm. destruct (shrunk_refl q G). split; assumption. Qed.

(** What is left when room cannot be made. *)
Definition no_room q G (st : Z) : Prop :=
  (st = ENOMEM ∧ rl_nelems (pq_rl q) = 0) ∨
  (st = EACCES ∧ ∀ p, p ∈ pq_queue q G → pq_busy q G p.2 = true) ∨
  (st = PQ_SYSTEM ∧ refused W).

(** ** Deletions that are needed *)

(** From [q] to [q'] by deletions, each of the oldest product that is not locked
    and each at a time when there was a need for it; between them only the state of
    the system and the smallest extent change. *)
Inductive evictions (need : pqueue W → ghost → Prop) :
    pqueue W → ghost → pqueue W → ghost → Prop :=
| ev_done q G : evictions need q G q G
| ev_delete q G A tv o info B q1 G1 q2 G2 :
    need q G → (∀ p, p ∈ A → pq_busy q G p.2 = true) → pq_busy q G o = false →
    pq_deleted q G A tv o info B q1 G1 → evictions need q1 G1 q2 G2 → evictions need q G q2 G2
| ev_same q G q1 q2 G2 :
    pq_inv q1 G → pq_sh q1 = pq_sh q → pq_cfg q1 = pq_cfg q →
    evictions need q1 G q2 G2 → evictions need q G q2 G2.

Lemma evictions_trans need q1 G1 q2 G2 q3 G3 :
  evictions need q1 G1 q2 G2 → evictions need q2 G2 q3 G3 → evictions need q1 G1 q3 G3.
Proof. induction 1; intros Hnext; [done|eapply ev_delete; eauto|eapply ev_same; eauto]. Qed.

Lemma evictions_impl (P Q : pqueue W → ghost → Prop) q G q' G' :
  (∀ x X, P x X → Q x X) → evictions P q G q' G' → evictions Q q G q' G'.
Proof. intros HPQ. induction 1; [apply ev_done|eapply ev_delete; eauto|eapply ev_same; eauto]. Qed.

(** There is no empty slot; no free region has [e] bytes. *)
Definition no_slot q (_ : ghost) : Prop := rl_HasSpace (pq_rl q) = false.
Definition no_extent (e : Z) q G : Prop := ∀ x, x ∈ g_fs G → rext (rl_rp (pq_rl q)) x < e.
Definition lacking (e : Z) q G : Prop := no_slot q G ∨ no_extent e q G.

Lemma evictions_inv need q G q' G' : pq_inv q G → evictions need q G q' G' → pq_inv q' G'.
Proof.
  intros Hinv Hev. revert Hinv.
  induction Hev as [|q G A tv o info B q1 G1 q2 G2 _ _ _ Hdel _ IH|q G q1 q2 G2 Hinv1 _ _ _ IH]; intros Hinv; [done| |by apply IH].
  apply IH. exact (pd_inv _ _ _ _ _ _ _ _ _ Hdel).
Qed.

(** The spare blocks are enough for the deletions that are needed, with some left. *)
Definition affordable (need : pqueue W → ghost → Prop) q G : Prop :=
  ∀ q' G', evictions need q G q' G' →
    4 * (rl_nelems (pq_rl q) - rl_nelems (pq_rl q')) + 8 ≤ fb_spare (pq_fb q).

(** The process has no regions but the control block and the indexes, there are
    enough spare blocks for the deletions that are needed, and the queue can be written. *)
Definition room_for (need : pqueue W → ghost → Prop) q G : Prop :=
  (length (g_rs G) ≤ 2)%nat ∧ affordable need q G ∧ pq_writable q.

(** The same with enough spare blocks to delete every product. *)
Definition room_ok q G : Prop :=
  (length (g_rs G) ≤ 2)%nat ∧ 4 * rl_nelems (pq_rl q) + 8 ≤ fb_spare (pq_fb q) ∧ pq_writable q.

Lemma room_ok_for need q G : pq_inv q G → room_ok q G → room_for need q G.
Proof.
  intros Hinv (H1 & H2 & H3). split_and!; [done| |done]. intros q' G' Hev.
  pose proof (pv_nelems _ _ (evictions_inv _ _ _ _ _ Hinv Hev)). lia.
Qed.

Lemma room_for_next need q G q' G' :
  room_for need q G → evictions need q G q' G' → pq_shrunk q G q' G' → room_for need q' G'.
Proof.
  intros (H1 & H2 & H3) Hev []. unfold room_for, pq_writable in *. rewrite ps_mine0. split_and!; [done| |].
  - intros q2 G2 Hev2. pose proof (H2 q2 G2 (evictions_trans _ _ _ _ _ _ _ Hev Hev2)). lia.
  - destruct ps_cfg0 as [Hc _]. unfold pq_cfg in Hc. congruence.
Qed.

Lemma room_for_spare need q G : room_for need q G → 8 ≤ fb_spare (pq_fb q).
Proof. intros (_ & Hsp & _). specialize (Hsp q G (ev_done _ _ _)). lia. Qed.

(** What a turn of the loops did: it deleted the oldest product that is not locked,
    or nothing. *)
Definition turned q G (st : Z) q' G' : Prop :=
  (st = 0 ∧ rl_nelems (pq_rl q') = rl_nelems (pq_rl q) - 1 ∧
     ∀ need : pqueue W → ghost → Prop, need q G → evictions need q G q' G') ∨
  (st ≠ 0 ∧ no_room q' G' st ∧ ∀ need : pqueue W → ghost → Prop, evictions need q G q' G').

Lemma del_turn need0 q G :
  pq_inv q G → room_for need0 q G → rl_nelems (pq_rl q) ≠ 0 →
  ∃ st q' G', pq2_del_oldest q = Ok (st, q') ∧ pq_inv q' G' ∧ pq_shrunk q G q' G' ∧
    g_lb G' = g_lb G ∧ turned q G st q' G'.
Proof.
  intros Hinv Hroom Hne. pose proof (room_for_spare _ _ _ Hroom). destruct Hroom as (Hrs & _ & Hwr).
  pose proof (pv_nelems _ _ Hinv) as [Hnl _].
  destruct (del_oldest_spec q G Hinv) as (st & q' & Hrun & Hpost); [lia|lia|exact Hwr|].
  exists st, q'. destruct Hpost as [(-> & -> & Hb)|(A & tv & o & B & _ & HA & Ho & [(-> & info & G' & Hdel & _)|(-> & Hrf & w & -> & Hm)])].
  - exists G. split; [exact Hrun|]. split; [exact Hinv|]. split; [apply shrunk_refl|]. split; [done|].
    right. split; [done|]. split; [right; left; done|]. intros need. apply ev_done.
  - exists G'. split; [exact Hrun|]. split; [exact (pd_inv _ _ _ _ _ _ _ _ _ Hdel)|].
    split; [by eapply deleted_shrunk|]. split; [exact (pd_transit _ _ _ _ _ _ _ _ _ Hdel)|].
    left. split; [done|]. split; [exact (pd_nelems _ _ _ _ _ _ _ _ _ Hdel)|]. intros need Hneed.
    eapply ev_delete; [exact Hneed|exact HA|exact Ho|exact Hdel|apply ev_done].
  - exists G. split; [exact Hrun|]. split; [by apply pq_inv_sys|]. split; [by apply shrunk_sys|].
    split; [done|]. right. split; [done|]. split; [right; right; split; [done|exact Hrf]|]. intros need.
    apply (ev_same need q G (set_sys q w)); [by apply pq_inv_sys|done|done|apply ev_done].
Qed.

Section mkslot.
Context (need : pqueue W → ghost → Prop) (Hneed : ∀ q G, no_slot q G → need q G).

Lemma mkslot_loop_spec fuel q G :
  pq_inv q G → room_for need q G → need q G → g_lb G = [] → rl_nelems (pq_rl q) < Z.of_nat fuel →
  ∃ st q' G', rpqe_mkslot_loop fuel q = Ok (st, q') ∧ pq_inv q' G' ∧ pq_shrunk q G q' G' ∧
    g_lb G' = [] ∧ evictions need q G q' G' ∧
    ((st = 0 ∧ rl_HasSpace (pq_rl q') = true) ∨ (st ≠ 0 ∧ no_room q' G' st)).
Proof.
  revert q G. induction fuel as [|fuel IH]; intros q G Hinv Hroom Hns Hlb Hf.
  { pose proof (pv_nelems _ _ Hinv). lia. }
  cbn [rpqe_mkslot_loop]. destruct (Z.eqb_spec (rl_nelems (pq_rl q)) 0) as [Hz|Hnz].
  - exists ENOMEM, q, G. split; [done|]. split; [exact Hinv|]. split; [apply shrunk_refl|].
    split; [done|]. split; [apply ev_done|]. right. split; [done|]. by left.
  - destruct (del_turn need q G Hinv Hroom Hnz) as (st & q1 & G1 & Hrun & Hinv1 & Hsh & Hlb1 & Hst).
    rewrite Hrun, bind_Ok. destruct Hst as [(-> & Hn1 & Hev)|(Hst & Hno & Hev)]; simpl.
    + destruct (rl_HasSpace (pq_rl q1)) eqn:Hs.
      * exists 0, q1, G1. split; [done|]. split; [exact Hinv1|]. split; [exact Hsh|].
        split; [congruence|]. split; [by apply Hev|]. left. done.
      * destruct (IH q1 G1 Hinv1) as (st & q2 & G2 & Hrun2 & Hinv2 & Hsh2 & Hlb2 & Hev2 & Hst2);
          [eapply room_for_next; [exact Hroom|by apply Hev|done]|by apply Hneed|congruence|lia|].
        exists st, q2, G2. split; [exact Hrun2|]. split; [exact Hinv2|].
        split; [by eapply shrunk_trans|]. split; [done|]. split; [|done].
        exact (evictions_trans _ _ _ _ _ _ _ (Hev _ Hns) Hev2).
    + apply Z.eqb_neq in Hst. rewrite Hst. apply Z.eqb_neq in Hst.
      exists st, q1, G1. split; [done|]. split; [exact Hinv1|]. split; [exact Hsh|].
      split; [congruence|]. split; [apply Hev|]. right. done.
Qed.

Lemma mkslot_spec q G :
  pq_inv q G → room_for need q G → no_slot q G → g_lb G = [] →
  ∃ st q' G', rpqe_mkslot q = Ok (st, q') ∧ pq_inv q' G' ∧ pq_shrunk q G q' G' ∧ g_lb G' = [] ∧
    evictions need q G q' G' ∧
    ((st = 0 ∧ rl_HasSpace (pq_rl q') = true) ∨ (st ≠ 0 ∧ no_room q' G' st)).
Proof.
  intros Hinv Hroom Hns Hlb. apply mkslot_loop_spec; [done|done|by apply Hneed|done|]. unfold mk_fuel.
  pose proof (pv_nelems _ _ Hinv). lia.
Qed.
End mkslot.

(** ** Taking a region *)

(** Free regions lie between regions in use, so that they begin and end where
    those do. *)
Lemma free_aligned q G x :
  pq_inv q G → x ∈ g_fs G →
  let o := rg_off (rl_rp (pq_rl q)) x in
  let e := rext (rl_rp (pq_rl q)) x in
  (ctl_align (pq_ctl q) | o) ∧ ((ctl_align (pq_ctl q) | o + e) ∨ o + e = pq_ixo q).
Proof.
  intros Hinv Hx o e. destruct (pc_align _ (pv_config _ _ Hinv)) as (_ & _ & Hbase).
  destruct (pv_rl_inv _ _ Hinv) as [U [[Htab _ _ Hts Htl] Hsep _]].
  assert (∀ y, y ∈ g_ts G → y ∉ g_fs G → slot_ok q y) as Hslot.
  { intros y Hy Hny. apply (pv_slots _ _ Hinv). rewrite Hts in Hy. set_solver. }
  assert (x ∈ g_ts G) as (T1 & T2 & HT)%list_elem_of_split by (rewrite Hts; set_solver).
  rewrite HT in Htl. pose proof (tiled_range _ _ _ _ _ Htl) as [_ Hr].
  destruct (Hr x ltac:(set_solver)) as (_ & Hpos & Hlim).
  apply tiled_app in Htl as (m & Ht1 & Hxo & _ & Ht2). split.
  - destruct T1 as [|y T1 _] using rev_ind.
    + simpl in Ht1. unfold o. by rewrite Hxo, <- Ht1.
    + rewrite <- app_assoc in HT. simpl in HT.
      apply tiled_app in Ht1 as (m' & _ & Hyo & _ & Hend). simpl in Hend.
      assert (y ∉ g_fs G) as Hy. { intros Hy. by eapply (Hsep T1 y x T2). }
      destruct (Hslot y ltac:(rewrite HT; set_solver) Hy) as (_ & _ & [Ha|Ha]).
      * unfold o. rewrite Hxo, <- Hend, <- Hyo. done.
      * exfalso. lia.
  - destruct T2 as [|z T2]; simpl in Ht2.
    + right. unfold o, e. lia.
    + left. assert (z ∉ g_fs G) as Hz. { intros Hz. by eapply (Hsep T1 x z T2). }
      destruct (Hslot z ltac:(rewrite HT; set_solver) Hz) as (Ha & _).
      destruct Ht2 as (Hzo & _). unfold o, e. rewrite Hxo, <- Hzo. done.
Qed.
(** The invariant when only the region list and the arena change. *)
Lemma pq_core_rl q G rl f g es fs us lb ts :
  pq_core q G →
  both (pq_tq q) rl f (pq_datao q) (pq_ixo q) (g_ns G) (g_fl G) (g_lk G) es fs us lb ts →
  (∀ o e, pq_regions q G !! o = Some e →
     o ∈ ru_offset <$> g_rs G ∨ o ∈ (pq_queue q G).*2 ∨ (∃ s, pq_sigs q G !! s = Some o) →
     rl_view (rl_rp rl) us !! o = Some e) →
  (∀ n, n ∈ us ++ lb → slot_ok (set_rl_fb q rl f) n) → rl_nalloc rl = pq_nalloc q →
  pq_core (set_rng (set_rl_fb q rl f) g)
    (Ghost (g_ns G) (g_fl G) (g_lk G) es fs us lb ts (g_xu G) (g_xf G) (g_rs G)).
Proof.
  intros [[] Hb Hsx Hri Hsl Hmi Hpr Hof Hs1 Hs2 Hna Htm] Hb' Hv Hs Hn. split; try assumption.
  - split; assumption.
  - intros r Hr. destruct (Hmi r Hr) as (H1 & H2 & H3). split; [exact H1|]. split; [exact H2|].
    destruct H3 as [?|[?|[H4 H5]]]; [by left|by right; left|right; right]. split; [done|].
    apply Hv; [exact H5|]. left. apply list_elem_of_fmap. eauto.
  - intros p Hp. destruct (Hpr p Hp) as (e & info & H1 & H2 & H3). exists e, info.
    split; [|split; [exact H2|exact H3]]. apply Hv; [exact H1|]. right. left. apply list_elem_of_fmap.
    exists p. split; [done|]. exact Hp.
  - intros s o Hs3. destruct (Hs1 s o Hs3) as [e He]. exists e. apply Hv; [exact He|]. eauto.
  - split; [exact Hn|]. apply Hna.
Qed.

(** [rl_get()] took the region [ix], of at least [e] bytes, off the free lists. *)
Record pq_got q G (e ix : Z) q' G' : Prop := {
  pg_inv : pq_inv q' G';
  pg_upd : ∃ rl f, q' = set_rl_fb q rl f ∧ rl_rp rl = rl_rp (pq_rl q);
  pg_lists : G' = Ghost (g_ns G) (g_fl G) (g_lk G) (g_es G) (g_fs G') (g_us G) [ix] (g_ts G)
                    (g_xu G) (g_xf G) (g_rs G);
  pg_extent : e ≤ rext (rl_rp (pq_rl q)) ix;
  pg_ix : ix ≠ RL_NONE;
  pg_next A B z l : g_ts G = A ++ ix :: B → B = z :: l → z ∉ g_fs G';
  pg_spare : fb_spare (pq_fb q) ≤ fb_spare (pq_fb q');
}.

Lemma set_rng_id q : set_rng q (pq_rng q) = q.
Proof. by destruct q. Qed.

Lemma set_rl_fb_rng q rl f : set_rng (set_rl_fb q rl f) (pq_rng q) = set_rl_fb q rl f.
Proof. by destruct q. Qed.

Lemma set_rl_fb_id q : set_rl_fb q (pq_rl q) (pq_fb q) = q.
Proof. destruct q as [? ? ? ? ? ? ? ? ? ? ? ? ? ? ? ? sh ? ?]. by destruct sh. Qed.

Lemma rl_get_pq q G e :
  pq_inv q G → g_lb G = [] → MIN_RGN_SIZE ≤ e →
  (∃ ix rl f G', rl_get (pq_rl q) (pq_fb q) e = Ok (ix, rl, f) ∧ pq_got q G e ix (set_rl_fb q rl f) G') ∨
  (rl_get (pq_rl q) (pq_fb q) e = Ok (RL_NONE, pq_rl q, pq_fb q) ∧
   no_extent e q G).
Proof.
  intros Hinv Hlb Hmin. pose proof (pv_both _ _ Hinv) as Hb. rewrite Hlb in Hb.
  destruct (both_rl_get _ _ _ _ _ _ _ _ _ _ _ _ _ Hb e) as
    [(ix & rl & f & fs' & Hrun & Hbest & Hfs & Hb' & Hrp & Hnb & Hsep & Hsp)|?]; [left|by right].
  assert (ix ∈ g_fs G) as Hix by (rewrite Hfs; constructor).
  destruct Hbest as (_ & Hext & _).
  exists ix, rl, f. eexists. split; [exact Hrun|]. split; simpl.
  - rewrite <- set_rl_fb_rng. split.
    + eapply pq_core_rl; [apply Hinv|exact Hb'| | |].
      * intros o e' Ho _. rewrite Hrp. exact Ho.
      * intros n Hn. destruct (decide (n = ix)) as [->|Hne].
        -- destruct (free_aligned q G ix Hinv Hix) as (Ha & Hend). unfold slot_ok. simpl. rewrite Hrp.
           split_and!; [exact Ha|lia|exact Hend].
        -- assert (n ∈ g_us G ++ g_lb G) as Hn' by (rewrite Hlb; set_solver).
           pose proof (pv_slots _ _ Hinv n Hn') as Hs. unfold slot_ok in *. simpl. by rewrite Hrp.
      * rewrite (pv_length _ _ Hinv), Hlb. destruct Hb' as (U' & _ & Hr').
        rewrite (rl_length _ _ _ _ _ _ _ _ _ _ Hr'). apply Permutation_length in Hfs. simpl in *. lia.
    + simpl. rewrite Hnb, Hrp. apply (pv_bytes _ _ Hinv).
  - eauto.
  - simpl. done.
  - lia.
  - destruct (pv_rl_inv _ _ Hinv) as [U [[Htab _ _ _ _] _ _]].
    pose proof (rt_slot _ _ _ _ _ Htab ix ltac:(set_solver)). destruct (rt_counts _ _ _ _ _ Htab) as [_ ?].
    change RL_NONE with (2 ^ 64 - 1). lia.
  - intros A B z l HT ->. by apply (Hsep A ix z l HT).
  - done.
Qed.

(** ** [rpqe_mkspace()] *)

Section mkspace.
Context (need : pqueue W → ghost → Prop) (e : Z) (Hneed : ∀ q G, no_extent e q G → need q G).

Lemma mkspace_loop_spec fuel q G :
  pq_inv q G → room_for need q G → need q G → g_lb G = [] → MIN_RGN_SIZE ≤ e → rl_nelems (pq_rl q) < Z.of_nat fuel →
  ∃ st ix q' q1 G1, rpqe_mkspace_loop fuel q e = Ok (st, ix, q') ∧ pq_inv q1 G1 ∧
    pq_shrunk q G q1 G1 ∧ g_lb G1 = [] ∧
    evictions need q G q1 G1 ∧ (no_extent e q G → evictions (no_extent e) q G q1 G1) ∧
    ((st = 0 ∧ ∃ G', pq_got q1 G1 e ix q' G') ∨ (st ≠ 0 ∧ q' = q1 ∧ no_room q1 G1 st)).
Proof.
  revert q G. induction fuel as [|fuel IH]; intros q G Hinv Hroom Hns Hlb Hmin Hf.
  { pose proof (pv_nelems _ _ Hinv). lia. }
  cbn [rpqe_mkspace_loop]. destruct (Z.eqb_spec (rl_nelems (pq_rl q)) 0) as [Hz|Hnz].
  - exists ENOMEM, RL_NONE, q, q, G. split; [done|]. split; [exact Hinv|]. split; [apply shrunk_refl|].
    split; [done|]. split; [apply ev_done|]. split; [intros _; apply ev_done|]. right. split_and!; [done..|]. by left.
  - destruct (del_turn need q G Hinv Hroom Hnz) as (st & q1 & G1 & Hrun & Hinv1 & Hsh & Hlb1 & Hst).
    rewrite Hrun, bind_Ok. rewrite Hlb in Hlb1. destruct Hst as [(-> & Hn1 & Hev)|(Hst & Hno & Hev)].
    + simpl negb. cbv iota.
      destruct (rl_get_pq q1 G1 e Hinv1 Hlb1 Hmin) as [(ix & rl & f & G2 & Hget & Hgot)|[Hget Hne]];
        rewrite Hget, bind_Ok.
      * rewrite (proj2 (Z.eqb_neq _ _) (pg_ix _ _ _ _ _ _ Hgot)).
        exists 0, ix, (set_rl_fb q1 rl f), q1, G1. split; [done|]. split; [exact Hinv1|].
        split; [exact Hsh|]. split; [exact Hlb1|]. split; [by apply Hev|]. split; [apply Hev|]. left. eauto.
      * rewrite Z.eqb_refl, set_rl_fb_id.
        destruct (IH q1 G1 Hinv1) as (st & ix & q2 & q3 & G3 & Hrun2 & Hinv2 & Hsh2 & Hlb2 & Hev2 & Hev3 & Hst2);
          [eapply room_for_next; [exact Hroom|by apply Hev|done]|by apply Hneed|done..|lia|].
        exists st, ix, q2, q3, G3. split; [exact Hrun2|]. split; [exact Hinv2|].
        split; [by eapply shrunk_trans|]. split; [done|]. split.
        { exact (evictions_trans _ _ _ _ _ _ _ (Hev _ Hns) Hev2). }
        split; [|done]. intros Hx. exact (evictions_trans _ _ _ _ _ _ _ (Hev _ Hx) (Hev3 Hne)).
    + rewrite (proj2 (Z.eqb_neq _ _) Hst).
      exists st, RL_NONE, q1, q1, G1. split; [done|]. split; [exact Hinv1|]. split; [exact Hsh|].
      split; [done|]. split; [apply Hev|]. split; [intros _; apply Hev|]. right. done.
Qed.

Lemma mkspace_spec q G :
  pq_inv q G → room_for need q G → need q G → g_lb G = [] → MIN_RGN_SIZE ≤ e →
  ∃ st ix q' q1 G1, rpqe_mkspace q e = Ok (st, ix, q') ∧ pq_inv q1 G1 ∧
    pq_shrunk q G q1 G1 ∧ g_lb G1 = [] ∧
    evictions need q G q1 G1 ∧ (no_extent e q G → evictions (no_extent e) q G q1 G1) ∧
    ((st = 0 ∧ ∃ G', pq_got q1 G1 e ix q' G') ∨ (st ≠ 0 ∧ q' = q1 ∧ no_room q1 G1 st)).
Proof.
  intros Hinv Hroom Hns Hlb Hmin. apply mkspace_loop_spec; [done..|]. unfold mk_fuel.
  pose proof (pv_nelems _ _ Hinv). lia.
Qed.
End mkspace.
End room.
