(* ===== verification/PqNew.v ===== *)
(** * Reserving a region for a product

    [rpqe_new()]: the region that it returns was free, is large enough, aligned
    and in the data segment; it is entered in the region list, the signature
    index and the list of regions of this process, and nothing else changes but
    for products deleted to make room. *)

From S2P Require Import Prelude Timestamp NumTheory Fb SkipList TimeQueue RegionList RegionHash.
From S2P Require Import RegionAlloc RegionThms SigIndex Riul Sizes PqShare PqCore PqOps PqInv.
From S2P Require Import PqAccess PqDelete PqRoom.

Lemma rndup64_spec x unit :
  0 < x < 2 ^ 61 → 0 < unit < 2 ^ 32 →
  x ≤ rndup64 x unit < x + unit ∧ (unit | rndup64 x unit).
Proof.
  intros Hx Hu. unfold rndup64. rewrite (u64_small (x + unit - 1)) by lia.
  assert (x ≤ (x + unit - 1) / unit * unit < x + unit).
  { pose proof (Z.div_mod (x + unit - 1) unit ltac:(lia)).
    pose proof (Z.mod_pos_bound (x + unit - 1) unit ltac:(lia)). lia. }
  rewrite u64_small by lia. split; [lia|]. apply Z.divide_factor_r.
Qed.

Section new.
Context {W : Type} {Sys : System W} {Laws : SystemLaws W}.
Implicit Types (q : pqueue W) (w : W).

(** ** The slot and the region *)

Lemma pq_inv_smallest q G z : pq_inv q G → 0 ≤ z < 2 ^ 32 → pq_inv (set_smallest q z) G.
Proof. intros [[[] ? ? ? ? ? ? ? ? ? ? ?] ?] Hz. split; [|assumption]. split; try assumption. split; assumption. Qed.

Lemma shrunk_smallest q G q' G' z :
  pq_shrunk q G q' G' → z ≤ pq_smallest q' → pq_shrunk q G (set_smallest q' z) G'.
Proof. intros [] Hz. split; try assumption. simpl. lia. Qed.

Lemma HasSpace_spec q G : pq_inv q G → rl_HasSpace (pq_rl q) = true ↔ g_es G ≠ [].
Proof.
  intros Hinv. destruct (pv_rl_inv _ _ Hinv) as [U [[Htab _ _ _ _] _ _]].
  unfold rl_HasSpace. rewrite (rt_nempty _ _ _ _ _ Htab), Z.ltb_lt.
  destruct (g_es G); simpl; [split; [lia|done]|]. split; [done|lia].
Qed.

(** What [rpqe_get] leaves: [q1] is the queue without the products that were
    deleted, [q'] has the region taken off the free lists. *)
Definition get_post q G (extent st ix e' : Z) q' q1 G1 : Prop :=
  pq_inv q1 G1 ∧ pq_shrunk q G q1 G1 ∧ g_lb G1 = [] ∧
  evictions (lacking (rndup64 extent (ctl_align (pq_ctl q)))) q G q1 G1 ∧
  ((st = 0 ∧ e' = rndup64 extent (ctl_align (pq_ctl q)) ∧ pq_smallest q1 ≤ e' ∧ g_es G1 ≠ [] ∧
      ∃ G', pq_got q1 G1 e' ix q' G') ∨
   (st ≠ 0 ∧ q' = q1 ∧ no_room q1 G1 st)).

Lemma rpqe_get_spec q G extent :
  pq_inv q G → room_for (lacking (rndup64 extent (ctl_align (pq_ctl q)))) q G → g_lb G = [] → 0 < extent < 2 ^ 61 →
  ∃ st ix e' q' q1 G1, rpqe_get q extent = Ok (st, ix, e', q') ∧ get_post q G extent st ix e' q' q1 G1.
Proof.
  intros Hinv Hroom Hlb Hext. unfold rpqe_get.
  assert (∃ st q1 G1, (if negb (rl_HasSpace (pq_rl q)) then rpqe_mkslot q else Ok (0, q)) = Ok (st, q1) ∧
    pq_inv q1 G1 ∧ pq_shrunk q G q1 G1 ∧ g_lb G1 = [] ∧
    evictions (lacking (rndup64 extent (ctl_align (pq_ctl q)))) q G q1 G1 ∧
    ((st = 0 ∧ rl_HasSpace (pq_rl q1) = true) ∨ (st ≠ 0 ∧ no_room q1 G1 st)))
    as (st & q1 & G1 & Hslot & Hinv1 & Hsh1 & Hlb1 & Hev & Hst).
  { destruct (rl_HasSpace (pq_rl q)) eqn:Hs; simpl.
    - exists 0, q, G. split; [done|]. split; [exact Hinv|]. split; [apply shrunk_refl|]. split; [done|].
      split; [apply ev_done|]. left. done.
    - apply mkslot_spec; [by left|done..]. }
  rewrite Hslot, bind_Ok. destruct Hst as [[-> Hs]|[Hst Hno]]; cycle 1.
  { rewrite (proj2 (Z.eqb_neq _ _) Hst). simpl.
    exists st, RL_NONE, extent, q1, q1, G1. split; [done|]. unfold get_post. split; [exact Hinv1|].
    split; [exact Hsh1|]. split; [done|]. split; [exact Hev|]. right. done. }
  simpl negb. cbv iota zeta. destruct (ps_cfg _ _ _ _ Hsh1) as [_ Ha].
  destruct (pc_align _ (pv_config _ _ Hinv1)) as (Hal & Hal8 & _).
  destruct (rndup64_spec extent (ctl_align (pq_ctl q1)) Hext Hal) as [He1 He2].
  set (e := rndup64 extent (ctl_align (pq_ctl q1))) in *.
  assert (MIN_RGN_SIZE ≤ e) as Hmin.
  { unfold MIN_RGN_SIZE, M_RND_UNIT. assert (8 | e) as [k Hk] by by etrans. lia. }
  set (q2 := if e <? pq_smallest q1 then set_smallest q1 e else q1).
  assert (pq_inv q2 G1 ∧ pq_shrunk q G q2 G1 ∧ rl_HasSpace (pq_rl q2) = true ∧
    ctl_align (pq_ctl q2) = ctl_align (pq_ctl q) ∧ pq_smallest q2 ≤ e ∧ pq_sh q2 = pq_sh q1 ∧ pq_cfg q2 = pq_cfg q1)
    as (Hinv2 & Hsh2 & Hs2 & Ha2 & Hsm2 & Hsame1 & Hsame2).
  { unfold q2. pose proof (pc_smallest _ (pv_config _ _ Hinv1)).
    destruct (Z.ltb_spec e (pq_smallest q1)).
    - split; [apply pq_inv_smallest; [exact Hinv1|lia]|]. split; [apply shrunk_smallest; [done|lia]|]. done.
    - done. }
  assert (e = rndup64 extent (ctl_align (pq_ctl q))) as Heq by (unfold e; by rewrite Ha).
  rewrite <- Heq in Hev, Hroom. pose proof (ev_same (lacking e) q1 G1 q2 q2 G1 Hinv2 Hsame1 Hsame2 (ev_done _ _ _)) as Hev1.
  pose proof (evictions_trans _ _ _ _ _ _ _ Hev Hev1) as Hev2.
  pose proof (room_for_next _ _ _ _ _ Hroom Hev2 Hsh2) as Hroom2. clear Hev Hev1 Hsame1 Hsame2.
  unfold get_post. rewrite <- Heq.
  pose proof (proj1 (HasSpace_spec _ _ Hinv2) Hs2) as Hes. clearbody q2 e. clear Hinv1 Hsh1 Hslot Hs q1 Ha Hal Hal8 He2 He1.
  destruct (rl_get_pq q2 G1 e Hinv2 Hlb1 Hmin) as [(ix & rl & f & G' & Hget & Hgot)|[Hget Hne]];
    rewrite Hget, bind_Ok.
  - rewrite (proj2 (Z.eqb_neq _ _) (pg_ix _ _ _ _ _ _ Hgot)).
    exists 0, ix, e, (set_rl_fb q2 rl f), q2, G1. split; [done|]. split; [exact Hinv2|].
    split; [exact Hsh2|]. split; [done|]. split; [exact Hev2|]. left. eauto 10.
  - rewrite Z.eqb_refl, set_rl_fb_id.
    destruct (mkspace_spec (lacking e) e (λ _ _ H, or_intror H) q2 G1 Hinv2 Hroom2 (or_intror Hne) Hlb1 Hmin)
      as (st & ix & q3 & q4 & G4 & Hrun & Hinv4 & Hsh4 & Hlb4 & Hev4 & _ & Hst).
    rewrite Hrun, bind_Ok. exists st, ix, e, q3, q4, G4. split; [done|].
    split; [exact Hinv4|]. split; [by eapply shrunk_trans|]. split; [done|].
    split; [exact (evictions_trans _ _ _ _ _ _ _ Hev2 Hev4)|].
    destruct Hst as [[-> Hgot]|Hno]; [left|right; done].
    split; [done|]. split; [done|]. split; [pose proof (ps_small _ _ _ _ Hsh4); lia|]. split; [|done].
    pose proof (ps_slots _ _ _ _ Hsh4). intros Hnil. rewrite Hnil in *. destruct (g_es G1); simpl in *; [done|lia].
Qed.

(** ** Cutting the region *)

(** The queue with the region [ix] in transit, of [e] bytes up to the fragment that
    is not worth splitting off; [G] are the lists before. *)
Record cut_ok q G (e ix : Z) q' G' : Prop := {
  co_core : pq_core q' G';
  co_lists : g_ns G' = g_ns G ∧ g_fl G' = g_fl G ∧ g_lk G' = g_lk G ∧ g_us G' = g_us G ∧
             g_lb G' = [ix] ∧ g_xu G' = g_xu G ∧ g_xf G' = g_xf G ∧ g_rs G' = g_rs G;
  co_same : ∃ rl f g, q' = set_rng (set_rl_fb q rl f) g ∧
              (∀ x, x ∈ g_us G → rl_rp rl !! x = rl_rp (pq_rl q) !! x) ∧
              rl_nbytes rl = rl_nbytes (pq_rl q);
  co_spare : fb_spare (pq_fb q) - 2 ≤ fb_spare (pq_fb q');
  co_extent : e ≤ rext (rl_rp (pq_rl q')) ix ≤ e + pq_smallest q + PQ_FRAGMENT_HEURISTIC;
}.

Lemma got_at q G e ix q' G' :
  pq_got q G e ix q' G' → ∃ r, rl_rp (pq_rl q') !! ix = Some r ∧ IsFree r = true ∧
    rg_extent r = rext (rl_rp (pq_rl q')) ix.
Proof.
  intros Hgot. pose proof (pg_inv _ _ _ _ _ _ Hgot) as Hinv. pose proof (pg_lists _ _ _ _ _ _ Hgot) as HG.
  assert (ix ∈ g_us G' ++ g_lb G') as Hin by (rewrite HG; set_solver).
  destruct (pv_region_at _ _ Hinv ix Hin) as (r & Hr & _ & He). exists r. split; [done|].
  destruct (pv_rl_inv _ _ Hinv) as [U [[Htab _ _ _ _] _ _]].
  assert (IsFree r = true) as Hf by (eapply (rt_free _ _ _ _ _ Htab ix); [rewrite HG; set_solver|done]).
  split; [done|]. by rewrite <- He, Extent_free.
Qed.

Section cut.
Context (q : pqueue W) (G : ghost) (e ix : Z) (q1 : pqueue W) (G1 : ghost).
Context (Hgot : pq_got q G e ix q1 G1) (Hinv0 : pq_inv q G) (Hes : g_es G ≠ []).
Context (Hal : (ctl_align (pq_ctl q) | e)) (Hmin : MIN_RGN_SIZE ≤ e < 2 ^ 62) (Hsp : 2 ≤ fb_spare (pq_fb q)).

Lemma cut_whole :
  rext (rl_rp (pq_rl q)) ix ≤ e + pq_smallest q + PQ_FRAGMENT_HEURISTIC → cut_ok q G e ix q1 G1.
Proof.
  intros Hle. pose proof (pg_inv _ _ _ _ _ _ Hgot) as Hinv. pose proof (pg_lists _ _ _ _ _ _ Hgot) as HG.
  destruct (pg_upd _ _ _ _ _ _ Hgot) as (rl & f & Hq & Hrp). split.
  - apply Hinv.
  - rewrite HG. done.
  - exists rl, f, (pq_rng q). rewrite set_rl_fb_rng. split; [done|]. rewrite Hrp. split; [done|].
    pose proof (pv_bytes _ _ Hinv) as H1. pose proof (pv_bytes _ _ Hinv0) as H2.
    rewrite Hq, HG in H1. simpl in H1. rewrite H1, H2, Hrp. done.
  - pose proof (pg_spare _ _ _ _ _ _ Hgot). lia.
  - rewrite Hq. simpl. rewrite Hrp. split; [apply (pg_extent _ _ _ _ _ _ Hgot)|done].
Qed.

Lemma cut_split g :
  e < rext (rl_rp (pq_rl q)) ix →
  ∃ rl f g' G2, rl_split (pq_rl q1) (pq_fb q1) g ix e = Ok (0, rl, f, g') ∧
    cut_ok q G e ix (set_rng (set_rl_fb q1 rl f) g') G2.
Proof.
  intros Hlt. pose proof (pg_inv _ _ _ _ _ _ Hgot) as Hinv. pose proof (pg_lists _ _ _ _ _ _ Hgot) as HG.
  destruct (pg_upd _ _ _ _ _ _ Hgot) as (rl0 & f0 & Hq & Hrp0).
  assert (rl_rp (pq_rl q1) = rl_rp (pq_rl q)) as Hrp by by rewrite Hq.
  assert (pq_ctl q1 = pq_ctl q) as Hctl by by rewrite Hq.
  pose proof (pv_both _ _ Hinv) as Hb. rewrite HG in Hb. simpl in Hb.
  destruct (g_es G) as [|n es] eqn:HesE; [done|].
  destruct (pv_rl_inv _ _ Hinv) as [U [[_ _ _ Hts _] _ _]].
  assert (ix ∈ g_ts G) as (A & B & HT)%list_elem_of_split.
  { rewrite HG in Hts. simpl in Hts. rewrite Hts. set_solver. }
  rewrite HT in Hb.
  assert (2 ≤ fb_spare (pq_fb q1)) as Hsp1 by (pose proof (pg_spare _ _ _ _ _ _ Hgot); lia).
  destruct (pc_align _ (pv_config _ _ Hinv0)) as (Hal0 & Hal8 & _).
  assert (e mod 2 = 0) as Hev.
  { apply Z.mod_divide; [lia|]. trans 8; [by exists 4|]. by etrans. }
  destruct (both_rl_split _ _ _ _ _ _ _ _ _ _ _ _ _ A ix B e g Hb) as
    (rl & f & g' & fs' & Hrun & Hfs & Hb' & Hep & Hop & Hx & Hnb & Hsp2); [rewrite Hrp; unfold MIN_RGN_SIZE, M_RND_UNIT in *; lia| |done|done|].
  { intros z l HB. by eapply (pg_next _ _ _ _ _ _ Hgot A B). }
  destruct Hb as (U1 & _ & Hr1). pose proof (rc_tab _ _ _ _ _ _ _ _ _ _ (ri_core _ _ _ _ _ _ _ _ _ _ Hr1)) as Htab.
  assert (∀ x, x ∈ g_us G → x ≠ ix ∧ x ≠ n) as Hne.
  { pose proof (rt_NoDup _ _ _ _ _ Htab) as Hnd. simpl in Hnd. intros x Hxu.
    apply NoDup_cons in Hnd as [Hn Hnd]. apply NoDup_app in Hnd as (_ & _ & Hnd).
    apply NoDup_app in Hnd as (_ & _ & Hnd). apply NoDup_app in Hnd as (_ & Hd & _).
    split; intros ->; [apply (Hd ix Hxu); constructor|set_solver]. }
  assert (∀ x, x ∈ g_us G → rl_rp rl !! x = rl_rp (pq_rl q) !! x) as Hsame.
  { intros x Hxu. destruct (Hne x Hxu). by rewrite Hx, Hrp. }
  assert (rg_off (rl_rp rl) ix = rg_off (rl_rp (pq_rl q)) ix) as Hoix by congruence.
  exists rl, f, g'. eexists. split; [exact Hrun|]. split; [|shelve| | |].
  - eapply (pq_core_rl q1 G1 rl f g' es fs' (g_us G) [ix]); [apply Hinv|rewrite HG; exact Hb'|..].
    + intros o e' Ho _. unfold pq_regions in Ho. rewrite HG in Ho. simpl in Ho. rewrite Hrp in Ho.
      rewrite <- Ho. f_equal. apply rl_view_ext. intros x Hxu. unfold rg_off, rext. by rewrite Hsame.
    + intros x Hxu. unfold slot_ok. simpl. rewrite Hctl. replace (pq_ixo q1) with (pq_ixo q) by by rewrite Hq.
      assert (x ∈ g_us G1 ++ g_lb G1) as Hx1 by (rewrite HG; exact Hxu).
      pose proof (pv_slots _ _ Hinv x Hx1) as Hs. unfold slot_ok in Hs. rewrite Hctl, Hrp in Hs.
      replace (pq_ixo q1) with (pq_ixo q) in Hs by by rewrite Hq.
      apply elem_of_app in Hxu as [Hxu| ->%list_elem_of_singleton].
      * unfold rg_off, rext in *. by rewrite Hsame.
      * destruct Hs as (Ha & _ & _). rewrite Hep, Hoix. split_and!; [done|lia|]. left.
        by apply Z.divide_add_r.
    + rewrite (pv_length _ _ Hinv), HG. destruct Hb' as (U' & _ & Hr'). simpl.
      rewrite (rl_length _ _ _ _ _ _ _ _ _ _ Hr'). apply Permutation_length in Hfs. simpl in *. lia.
  - exists rl, f, g'. rewrite Hq. split; [done|]. split; [done|]. rewrite Hnb.
    pose proof (pv_bytes _ _ Hinv) as H1. pose proof (pv_bytes _ _ Hinv0) as H2.
    rewrite Hrp, HG in H1. simpl in H1. rewrite H1, H2. done.
  - simpl. pose proof (pg_spare _ _ _ _ _ _ Hgot). lia.
  - simpl. rewrite Hep. pose proof (pc_smallest _ (pv_config _ _ Hinv0)). unfold PQ_FRAGMENT_HEURISTIC. lia.
  Unshelve. simpl. rewrite HG. done.
Qed.
End cut.

(** The region [ix] is in use, though its bytes are not counted yet. *)
Record cut_done q G (e ix : Z) q' G' : Prop := {
  cd_core : pq_core q' G';
  cd_lists : g_ns G' = g_ns G ∧ g_fl G' = g_fl G ∧ g_lk G' = g_lk G ∧ g_us G' = ix :: g_us G ∧
             g_lb G' = [] ∧ g_xu G' = g_xu G ∧ g_xf G' = g_xf G ∧ g_rs G' = g_rs G;
  cd_upd : ∃ rl f g, q' = set_rng (set_rl_fb q rl f) g ∧ rl_nbytes rl = rl_nbytes (pq_rl q);
  cd_new : pq_regions q G !! rg_off (rl_rp (pq_rl q')) ix = None;
  cd_regions : pq_regions q' G' =
    <[rg_off (rl_rp (pq_rl q')) ix := rext (rl_rp (pq_rl q')) ix]> (pq_regions q G);
  cd_sum : foldr Z.add 0 (rext (rl_rp (pq_rl q')) <$> g_us G') =
    rext (rl_rp (pq_rl q')) ix + foldr Z.add 0 (rext (rl_rp (pq_rl q)) <$> g_us G);
  cd_kept x : x ∈ g_us G → rg_off (rl_rp (pq_rl q')) x = rg_off (rl_rp (pq_rl q)) x ∧
    rext (rl_rp (pq_rl q')) x = rext (rl_rp (pq_rl q)) x;
  cd_spare : fb_spare (pq_fb q) - 2 ≤ fb_spare (pq_fb q');
  cd_extent : e ≤ rext (rl_rp (pq_rl q')) ix ≤ e + pq_smallest q + PQ_FRAGMENT_HEURISTIC;
}.

Lemma cut_hash q G e ix q1 G1 :
  pq_inv q G → cut_ok q G e ix q1 G1 →
  ∃ q2 G2,
    (let! hit := rd (rl_rp (pq_rl q1)) ix in
     assert! rg_offset hit mod ctl_align (pq_ctl q1) =? 0 in
     let! rp := wr (rl_rp (pq_rl q1)) ix (set_IsAlloc hit) in
     let! rl := rlhash_add (rl_set_rp (pq_rl q1) rp) ix in
     Ok (0, set_rl q1 rl)) = Ok (0, q2) ∧ cut_done q G e ix q2 G2.
Proof.
  intros Hinv0 [Hcore (Hl1 & Hl2 & Hl3 & Hl4 & Hl5 & Hl6 & Hl7 & Hl8) (rl & f & g & Hq & Hsame & Hnb) Hspare Hext].
  assert (ix ∈ g_us G1 ++ g_lb G1) as Hin by (rewrite Hl5; set_solver).
  destruct (pv_region_at _ _ Hcore ix Hin) as (r & Hr & Ho & He).
  destruct (pv_slots _ _ Hcore ix Hin) as (Ha & Hm & Hend).
  destruct (pc_align _ (pv_config _ _ Hcore)) as (Hal & _).
  rewrite (rd_Ok _ _ _ Hr), bind_Ok, assert_Ok by (apply Z.eqb_eq, Z.mod_divide; [lia|by rewrite Ho]).
  rewrite bind_Ok, wr_Ok, bind_Ok by eauto.
  pose proof (pv_both _ _ Hcore) as Hb. rewrite Hl5 in Hb.
  destruct (both_hash _ _ _ _ _ _ _ _ _ _ _ _ _ _ r Hb Hr) as (rl2 & Hadd & Hb2 & Hnb2 & Hkeep).
  rewrite Hadd, bind_Ok.
  assert (∀ x, x ∈ g_us G1 ++ g_lb G1 → rg_off (rl_rp rl2) x = rg_off (rl_rp (pq_rl q1)) x ∧
    rext (rl_rp rl2) x = rext (rl_rp (pq_rl q1)) x) as Hkeep2.
  { intros x Hx. destruct (pv_region_at _ _ Hcore x Hx) as (rx & Hrx & Hox & Hex).
    destruct (Hkeep x rx Hrx) as (r' & Hr' & Ho' & He').
    by rewrite (rg_off_at _ _ _ Hr'), (rext_at _ _ _ Hr'), Ho', He', Hox, Hex. }
  assert (∀ x, x ∈ g_us G → rg_off (rl_rp rl2) x = rg_off (rl_rp (pq_rl q)) x ∧
    rext (rl_rp rl2) x = rext (rl_rp (pq_rl q)) x) as Hkeep3.
  { intros x Hx. destruct (Hkeep2 x ltac:(rewrite Hl4; set_solver)) as [-> ->]. rewrite Hq. simpl.
    unfold rg_off, rext. by rewrite Hsame. }
  assert (rl_view (rl_rp rl2) (g_us G) = pq_regions q G) as Hview by by apply rl_view_ext.
  set (q2 := set_rl q1 rl2).
  set (G2 := Ghost (g_ns G1) (g_fl G1) (g_lk G1) (g_es G1) (g_fs G1) (ix :: g_us G1) [] (g_ts G1)
    (g_xu G1) (g_xf G1) (g_rs G1)).
  assert (pq_regions q G !! rg_off (rl_rp rl2) ix = None) as Hnew.
  { destruct Hb2 as (U & _ & Hr2). destruct (inv_us _ _ _ _ _ _ _ _ _ _ Hr2) as (Hnd & Hinj & _).
    rewrite Hl4 in Hnd, Hinj. apply NoDup_cons in Hnd as [Hni Hnd].
    rewrite <- Hview. apply rl_view_None; [|done|].
    - intros x y Hx Hy. apply Hinj; set_solver.
    - intros x Hx Hxo. apply Hni. by rewrite <- (Hinj x ix ltac:(set_solver) ltac:(set_solver) Hxo). }
  assert (pq_regions q2 G2 = <[rg_off (rl_rp rl2) ix := rext (rl_rp rl2) ix]> (pq_regions q G)) as Hreg.
  { unfold pq_regions at 1. simpl. rewrite rl_view_cons, Hl4, Hview. done. }
  assert (pq_core q2 G2) as Hcore2.
  { change q2 with (set_rng (set_rl_fb q1 rl2 (pq_fb q1)) (pq_rng q1)).
    apply (pq_core_rl q1 G1 rl2 (pq_fb q1) (pq_rng q1)); [exact Hcore|exact Hb2|..].
    - intros o e' Ho' _. assert (pq_regions q G !! o = Some e') as Ho2.
      { rewrite <- Ho', <- Hview. unfold pq_regions. rewrite Hl4. f_equal. apply rl_view_ext.
        intros x Hx. apply Hkeep2. rewrite Hl4. set_solver. }
      rewrite rl_view_cons, Hl4, Hview, lookup_insert_ne; [done|]. congruence.
    - intros x Hx. assert (x ∈ g_us G1 ++ g_lb G1) as Hx1 by (rewrite Hl5; set_solver).
      pose proof (pv_slots _ _ Hcore x Hx1) as Hs. unfold slot_ok in *. simpl.
      by destruct (Hkeep2 x Hx1) as [-> ->].
    - rewrite (pv_length _ _ Hcore), Hl5. destruct Hb2 as (U' & _ & Hr').
      rewrite (rl_length _ _ _ _ _ _ _ _ _ _ Hr'). simpl. lia. }
  exists q2, G2. split; [done|]. split.
  - exact Hcore2.
  - simpl. rewrite Hl1, Hl2, Hl3, Hl4, Hl6, Hl7, Hl8. done.
  - exists rl2, f, g. unfold q2. rewrite Hq in Hnb2 |- *. simpl in Hnb2. split; [done|]. congruence.
  - exact Hnew.
  - exact Hreg.
  - simpl. rewrite Hl4. f_equal. f_equal. apply list_fmap_ext. intros i x Hx%list_elem_of_lookup_2.
    by apply Hkeep3.
  - exact Hkeep3.
  - exact Hspare.
  - simpl. by destruct (Hkeep2 ix Hin) as [_ ->].
Qed.

Lemma rpqe_cut_spec q G e ix q1 G1 :
  pq_got q G e ix q1 G1 → pq_inv q G → g_es G ≠ [] → (ctl_align (pq_ctl q) | e) →
  MIN_RGN_SIZE ≤ e < 2 ^ 62 → 2 ≤ fb_spare (pq_fb q) →
  ∃ q2 G2, rpqe_cut q1 ix e = Ok (0, q2) ∧ cut_done q G e ix q2 G2.
Proof.
  intros Hgot Hinv0 Hes Hal Hmin Hsp. destruct (got_at _ _ _ _ _ _ Hgot) as (r & Hr & Hfree & Hre).
  destruct (pg_upd _ _ _ _ _ _ Hgot) as (rl0 & f0 & Hq & Hrp0).
  pose proof (pc_smallest _ (pv_config _ _ Hinv0)) as Hsm.
  assert (rext (rl_rp (pq_rl q1)) ix = rext (rl_rp (pq_rl q)) ix) as Hx by (rewrite Hq; simpl; by rewrite Hrp0).
  unfold rpqe_cut. rewrite (rd_Ok _ _ _ Hr), bind_Ok, Hfree, assert_Ok, bind_Ok by done.
  replace (pq_smallest q1) with (pq_smallest q) by by rewrite Hq.
  assert (8 ≤ e < 2 ^ 62) as Hmin' by exact Hmin.
  unfold PQ_FRAGMENT_HEURISTIC. rewrite (u64_small (e + _)), u64_small by lia. rewrite Hre, Hx.
  destruct (Z.ltb_spec (e + pq_smallest q + 64) (rext (rl_rp (pq_rl q)) ix)) as [Hlt|Hge].
  - destruct (cut_split q G e ix q1 G1 Hgot Hinv0 Hes Hal Hmin Hsp (pq_rng q1)) as (rl & f & g & G2 & Hrun & Hcut); [lia|].
    rewrite Hrun, !bind_Ok. simpl negb. cbv iota. by eapply cut_hash.
  - pose proof (cut_whole q G e ix q1 G1 Hgot Hinv0 Hge) as Hcut.
    rewrite !bind_Ok. simpl negb. cbv iota. by eapply cut_hash.
Qed.

(** ** Entering the product *)

(** Signatures have different regions, so that there are no more of them. *)
Lemma sigs_le q G : pq_core q G → (length (g_xu G) ≤ length (g_us G))%nat.
Proof.
  intros Hinv. pose proof (pv_sx _ _ Hinv) as Hsx. set (m := sx_sxep (pq_sx q)).
  assert (∀ x, x ∈ g_xu G → pq_sigs q G !! sx_sig m x = Some (sx_off m x)) as Hin.
  { intros x Hx. apply (sx_view_lookup _ _ _ Hsx). eauto. }
  rewrite <- (length_fmap (sx_off m)), <- (length_fmap (rg_off (rl_rp (pq_rl q))) (g_us G)).
  apply submseteq_length, NoDup_submseteq.
  - apply NoDup_fmap_2_strong; [|by pose proof (sx_NoDup _ _ _ Hsx) as [? _]%NoDup_app]. intros x y Hx Hy Hxy.
    apply (xi_distinct _ _ _ Hsx x y Hx Hy). apply (pv_sigs_inj _ _ Hinv _ _ (sx_off m x)); [by apply Hin|].
    rewrite Hxy. by apply Hin.
  - intros o (x & -> & Hx)%list_elem_of_fmap. destruct (pv_sigs _ _ Hinv _ _ (Hin x Hx)) as [e He].
    apply (pv_regions_lookup _ _ Hinv) in He as (n & Hn & Ho & _). apply list_elem_of_fmap. eauto.
Qed.

(** A region was reserved for a product of [extent] bytes and signature [sig]. *)
Record pq_reserved q G (extent : Z) (sig : option signaturet) (o e vp : Z) q' G' : Prop := {
  pr_inv : pq_inv q' G';
  pr_queue : pq_queue q' G' = pq_queue q G;
  pr_new : pq_regions q G !! o = None;
  pr_regions : pq_regions q' G' = <[o := e]> (pq_regions q G);
  pr_sigs : pq_sigs q' G' = match sig with Some s => <[s := o]> (pq_sigs q G) | None => pq_sigs q G end;
  pr_mine : ∃ A B, g_rs G = A ++ B ∧ g_rs G' = A ++ Riu o e vp RGN_WRITE :: B;
  pr_vp : vp = pq_base q + o;
  pr_size : extent ≤ e ≤ 2 * (extent + ctl_align (pq_ctl q)) + PQ_FRAGMENT_HEURISTIC;
  pr_range : pq_datao q ≤ o ∧ o + e ≤ pq_ixo q ∧ (ctl_align (pq_ctl q) | o);
  pr_bytes : rl_nbytes (pq_rl q') = rl_nbytes (pq_rl q) + e;
  pr_cfg : pq_cfg q' = pq_cfg q;
  pr_lists : g_ns G' = g_ns G ∧ g_fl G' = g_fl G ∧ g_lk G' = g_lk G ∧ g_lb G' = [];
  pr_tq : pq_tq q' = pq_tq q;
  pr_spare : fb_spare (pq_fb q) - 2 ≤ fb_spare (pq_fb q');
  pr_mem : same_mem (pq_sys q) (pq_sys q');
}.

Section enter.
Context (q : pqueue W) (G : ghost) (e ix : Z) (q2 : pqueue W) (G2 : ghost).
Context (Hinv : pq_inv q G) (Hcut : cut_done q G e ix q2 G2).
Abbreviation o := (rg_off (rl_rp (pq_rl q2)) ix).
Abbreviation ext := (rext (rl_rp (pq_rl q2)) ix).

Lemma cut_cfg : pq_cfg q2 = pq_cfg q ∧ pq_ctl q2 = pq_ctl q ∧ pq_sx q2 = pq_sx q ∧ pq_tq q2 = pq_tq q ∧
  pq_riul q2 = pq_riul q ∧ pq_sys q2 = pq_sys q ∧ pq_smallest q2 = pq_smallest q ∧
  rl_nbytes (pq_rl q2) = rl_nbytes (pq_rl q).
Proof. destruct (cd_upd _ _ _ _ _ _ Hcut) as (rl & f & g & -> & Hnb). done. Qed.

Lemma cut_in : ix ∈ g_us G2.
Proof. destruct (cd_lists _ _ _ _ _ _ Hcut) as (_ & _ & _ & -> & _). constructor. Qed.

Lemma cut_range : pq_datao q ≤ o ∧ 0 < ext ∧ o + ext ≤ pq_ixo q ∧ pq_ixo q ≤ 2 ^ 62.
Proof.
  pose proof (pv_region_range _ _ (cd_core _ _ _ _ _ _ Hcut) ix) as Hr.
  destruct cut_cfg as (Hc & _). unfold pq_cfg in Hc. pose proof cut_in.
  replace (pq_datao q2) with (pq_datao q) in Hr by congruence. replace (pq_ixo q2) with (pq_ixo q) in Hr by congruence.
  destruct Hr as (? & ? & ? & ? & ?); [set_solver|done].
Qed.

(** The region is not reserved yet. *)
Lemma cut_free r : r ∈ g_rs G → ru_offset r ≠ o.
Proof.
  intros Hr Ho. destruct (pv_mine _ _ Hinv r Hr) as (_ & _ & H). pose proof cut_range as (H1 & H2 & H3 & _).
  pose proof (pv_layout _ _ Hinv) as (? & ? & ?).
  destruct H as [H|[H|[_ H]]]; [lia|lia|]. rewrite Ho, (cd_new _ _ _ _ _ _ Hcut) in H. done.
Qed.

Lemma cut_sx_room : g_xf G ≠ [].
Proof.
  pose proof (sigs_le _ _ Hinv) as Hle. pose proof (pv_sx _ _ Hinv) as Hsx.
  pose proof (xi_perm _ _ _ Hsx) as Hp. apply Permutation_length in Hp. rewrite length_app, length_seqZ in Hp.
  destruct (pv_nalloc _ _ Hinv) as (_ & _ & Hn). pose proof (xi_nalloc _ _ _ Hsx).
  destruct cut_cfg as (Hc & _). unfold pq_cfg in Hc. assert (pq_nalloc q2 = pq_nalloc q) as Hna by congruence.
  pose proof (pv_length _ _ (cd_core _ _ _ _ _ _ Hcut)) as Hl.
  destruct (cd_lists _ _ _ _ _ _ Hcut) as (_ & _ & _ & Hus & _). rewrite Hus in Hl. simpl in Hl.
  intros Hnil. rewrite Hnil in Hp. simpl in Hp. lia.
Qed.

(** The state at the end: [q3] has the region in the list of regions and the new
    signature index. *)
Section finish.
Context (extent : Z) (sig : option signaturet) (q3 : pqueue W) (s : sx) (xu xf : list Z).
Context (A B : list riu) (hit : region).
Abbreviation r := (Riu o ext (pq_base q + o) RGN_WRITE).
Context (Hfresh : ∀ x, sig = Some x → pq_sigs q G !! x = None).
Context (Hsh : pq_sh q3 = Shared (pq_ctl q2) (pq_fb q2) (pq_tq q2) (pq_rl q2) s).
Context (Hcfg : pq_cfg q3 = pq_cfg q) (Hsm : pq_smallest q3 = pq_smallest q).
Context (Hrs : g_rs G = A ++ B) (Hriul : riul_inv (pq_riul q3) (A ++ r :: B)).
Context (Hmem : same_mem (pq_sys q) (pq_sys q3)).
Context (Hsx : sx_inv s xu xf) (Hsn : sx_nalloc s = sx_nalloc (pq_sx q)).
Context (Hsv : sx_view (sx_sxep s) xu =
  match sig with Some x => <[x := o]> (pq_sigs q G) | None => pq_sigs q G end).
Context (Hhit : rl_rp (pq_rl q2) !! ix = Some hit).
Context (Hext : 0 < extent < 2 ^ 61) (He : e = rndup64 extent (ctl_align (pq_ctl q))).
Context (Hsml : pq_smallest q ≤ e).
Abbreviation G3 := (Ghost (g_ns G2) (g_fl G2) (g_lk G2) (g_es G2) (g_fs G2) (g_us G2) (g_lb G2) (g_ts G2)
  xu xf (A ++ r :: B)).
Abbreviation q4 := (rpqe_stats q3 hit).

Lemma fin_fields :
  pq_base q3 = pq_base q ∧ pq_ixo q3 = pq_ixo q ∧ pq_datao q3 = pq_datao q ∧ pq_ixsz q3 = pq_ixsz q ∧
  pq_nalloc q3 = pq_nalloc q.
Proof. unfold pq_cfg in Hcfg. split_and!; congruence. Qed.

Lemma fin_sigs x p : pq_sigs q4 G3 !! x = Some p →
  (sig = Some x ∧ p = o) ∨ (sig ≠ Some x ∧ pq_sigs q G !! x = Some p).
Proof.
  unfold pq_sigs at 1. simpl. rewrite Hsh. simpl. rewrite Hsv. destruct sig as [y|]; [|by right].
  intros [[-> <-]|[Hne Hp]]%lookup_insert_Some; [by left|right]. split; [congruence|done].
Qed.

Lemma fin_sigs_old x p : pq_sigs q G !! x = Some p → pq_sigs q4 G3 !! x = Some p.
Proof.
  intros Hp. unfold pq_sigs at 1. simpl. rewrite Hsh. simpl. rewrite Hsv. destruct sig as [y|]; [|done].
  rewrite lookup_insert_ne; [done|]. intros <-. rewrite (Hfresh y eq_refl) in Hp. done.
Qed.

Lemma fin_regions : pq_regions q4 G3 = <[o := ext]> (pq_regions q G).
Proof.
  rewrite <- (cd_regions _ _ _ _ _ _ Hcut). unfold pq_regions. simpl. rewrite Hsh. simpl.
  by destruct (pq_rl q2).
Qed.

Lemma fin_regions_old p x : pq_regions q G !! p = Some x → pq_regions q4 G3 !! p = Some x.
Proof.
  intros Hp. rewrite fin_regions, lookup_insert_ne; [done|]. intros <-.
  by rewrite (cd_new _ _ _ _ _ _ Hcut) in Hp.
Qed.

Lemma fin_rl : rl_rp (pq_rl q4) = rl_rp (pq_rl q2) ∧ rl_nalloc (pq_rl q4) = rl_nalloc (pq_rl q2) ∧
  ctl_align (pq_ctl q4) = ctl_align (pq_ctl q) ∧ ctl_datao (pq_ctl q4) = ctl_datao (pq_ctl q) ∧
  ctl_fixed (pq_ctl q4) = ctl_fixed (pq_ctl q).
Proof. simpl. rewrite Hsh. simpl. destruct (cut_cfg) as (_ & -> & _). by destruct (pq_rl q2). Qed.

Lemma fin_core : pq_core q4 G3.
Proof.
  pose proof (cd_core _ _ _ _ _ _ Hcut) as Hcore. destruct cut_cfg as (Hc2 & Hctl & Hsx2 & Htq2 & _ & _ & Hsm2 & Hnb).
  destruct (cd_lists _ _ _ _ _ _ Hcut) as (Hl1 & Hl2 & Hl3 & Hl4 & Hl5 & Hl6 & Hl7 & Hl8).
  destruct fin_fields as (Hb3 & Hi3 & Hd3 & Hx3 & Hn3). destruct fin_rl as (Hrp & Hna & Hal & Hdo & Hfix).
  pose proof Hc2 as Hc2'. unfold pq_cfg in Hc2'.
  assert (pq_ixo q2 = pq_ixo q ∧ pq_datao q2 = pq_datao q) as [Hi2 Hd2] by (split; congruence).
  pose proof (pv_layout _ _ Hinv) as (? & ? & ?). pose proof cut_range as (? & ? & ? & ?).
  pose proof (pc_page _ (pv_config _ _ Hinv)).
  split.
  - pose proof (pv_config _ _ Hinv) as [].
    split; [| | | |by rewrite Hal; replace (pq_datao q4) with (pq_datao q) by (symmetry; exact Hd3)| | |].
    + replace (layout_ok q4) with (layout_ok q); [done|]. unfold layout_ok. simpl.
      rewrite Hd3, Hi3, Hx3. unfold pq_cfg in Hcfg. by replace (pq_pagesz q3) with (pq_pagesz q) by congruence.
    + simpl. unfold pq_cfg in Hcfg. congruence.
    + simpl. lia.
    + simpl. unfold pq_cfg in Hcfg. by replace (pq_pagesz q3) with (pq_pagesz q) by congruence.
    + rewrite Hdo. simpl. congruence.
    + simpl. by rewrite Hsm.
    + change (pq_ixo q4) with (pq_ixo q3). change (pq_ixsz q4) with (pq_ixsz q3). rewrite Hi3, Hx3.
      destruct pc_ctl as (<- & <- & <- & <-). unfold ctl_fixed in Hfix. split_and!; congruence.
  - simpl. rewrite Hsh, Hd3, Hi3. simpl. apply both_nbytes. pose proof (pv_both _ _ Hcore) as Hb.
    by rewrite Hi2, Hd2 in Hb.
  - simpl. by rewrite Hsh.
  - exact Hriul.
  - intros n Hn. pose proof (pv_slots _ _ Hcore n Hn) as Hs. unfold slot_ok in *.
    rewrite Hrp, Hal. replace (pq_ixo q4) with (pq_ixo q) by (symmetry; exact Hi3). by rewrite Hctl, Hi2 in Hs.
  - intros r0 Hr0. unfold mine_ok, TOTAL_SIZE. change (pq_ixo q4) with (pq_ixo q3).
    change (pq_ixsz q4) with (pq_ixsz q3). change (pq_base q4) with (pq_base q3). rewrite Hi3, Hx3, Hb3.
    assert (r0 = r ∨ r0 ∈ g_rs G) as [->|Hold] by (simpl in Hr0; rewrite Hrs; set_solver).
    + simpl. split; [lia|]. split; [lia|]. right. right. split; [done|].
      rewrite fin_regions. apply lookup_insert_eq.
    + destruct (pv_mine _ _ Hinv r0 Hold) as (Hm1 & Hm2 & Hm3). unfold TOTAL_SIZE in Hm1.
      split; [exact Hm1|]. split; [exact Hm2|]. destruct Hm3 as [?|[?|[? ?]]]; [by left|by right; left|right; right].
      split; [done|]. by apply fin_regions_old.
  - intros p Hp. assert (p ∈ pq_queue q G) as Hp'.
    { unfold pq_queue in *. simpl in Hp. rewrite Hsh, Hl1 in Hp. simpl in Hp. by rewrite Htq2 in Hp. }
    destruct (pv_prods _ _ Hinv p Hp') as (e2 & info & H1' & H2' & H3' & H4'). exists e2, info.
    split; [|split; [|split; [|exact H4']]].
    + by apply fin_regions_old.
    + simpl. by rewrite Hmem, Hb3.
    + by apply fin_sigs_old.
  - unfold pq_queue. simpl. rewrite Hsh, Hl1. simpl. rewrite Htq2. apply (pv_offs _ _ Hinv).
  - intros x p [[_ ->]|[_ Hp]]%fin_sigs.
    + rewrite fin_regions, lookup_insert_eq. eauto.
    + destruct (pv_sigs _ _ Hinv x p Hp) as [y Hy]. exists y. by apply fin_regions_old.
  - intros x1 x2 p [[E1 ->]|[_ H1']]%fin_sigs [[E2 E3]|[_ H2']]%fin_sigs.
    + congruence.
    + exfalso. destruct (pv_sigs _ _ Hinv _ _ H2') as [y Hy]. by rewrite (cd_new _ _ _ _ _ _ Hcut) in Hy.
    + exfalso. rewrite E3 in H1'. destruct (pv_sigs _ _ Hinv _ _ H1') as [y Hy].
      by rewrite (cd_new _ _ _ _ _ _ Hcut) in Hy.
    + by eapply (pv_sigs_inj _ _ Hinv).
  - rewrite Hna. change (pq_nalloc q4) with (pq_nalloc q3). rewrite Hn3. simpl. rewrite Hsh. simpl.
    destruct (pv_nalloc _ _ Hcore) as (HA & HB & HC). destruct (pv_nalloc _ _ Hinv) as (_ & _ & HD).
    rewrite Hsn. split_and!; [rewrite HA|rewrite HB|done]; congruence.
  - unfold pq_queue. simpl. rewrite Hsh, Hl1. simpl. rewrite Htq2. apply (pv_times _ _ Hinv).
Qed.

Lemma fin_bytes :
  rl_nbytes (pq_rl q4) = rl_nbytes (pq_rl q) + ext ∧
  rl_nbytes (pq_rl q4) = foldr Z.add 0 (rext (rl_rp (pq_rl q4)) <$> g_us G3).
Proof.
  destruct cut_cfg as (_ & _ & _ & _ & _ & _ & _ & Hnb). destruct fin_rl as (Hrp & _).
  pose proof (cd_core _ _ _ _ _ _ Hcut) as Hcore. pose proof (cd_sum _ _ _ _ _ _ Hcut) as Hsum.
  destruct (pv_rl_inv _ _ Hcore) as [U HU]. pose proof (rl_regions_sum _ _ _ _ _ _ _ _ _ _ HU) as Hle.
  destruct (ri_core _ _ _ _ _ _ _ _ _ _ HU) as [_ _ [? ?] _ _].
  assert (rl_nbytes (pq_rl q4) = rl_nbytes (pq_rl q) + ext) as Hb.
  { simpl. rewrite Hsh. simpl. rewrite <- (rext_at _ _ _ Hhit).
    replace (rl_nbytes (rl_set_nbytes _ _ _)) with (u64 (rl_nbytes (pq_rl q2) + ext)) by by destruct (pq_rl q2).
    rewrite Hnb, (pv_bytes _ _ Hinv) in *. apply u64_small. lia. }
  split; [done|]. rewrite Hb, Hrp. simpl. rewrite Hsum, (pv_bytes _ _ Hinv). lia.
Qed.

Lemma fin_reserved : pq_reserved q G extent sig o ext (pq_base q + o) q4 G3.
Proof.
  destruct cut_cfg as (_ & Hctl & _ & Htq2 & _ & _ & Hsm2 & _).
  destruct (cd_lists _ _ _ _ _ _ Hcut) as (Hl1 & Hl2 & Hl3 & _ & Hl5 & _). destruct fin_bytes as [Hb1 Hb2].
  destruct (pc_align _ (pv_config _ _ Hinv)) as (Hal & _).
  destruct (rndup64_spec extent _ Hext Hal) as [Hr1 Hr2]. rewrite <- He in Hr1, Hr2.
  pose proof (cd_extent _ _ _ _ _ _ Hcut) as Hx. split; try done.
  - split; [apply fin_core|exact Hb2].
  - unfold pq_queue. simpl. rewrite Hsh, Hl1. simpl. by rewrite Htq2.
  - apply (cd_new _ _ _ _ _ _ Hcut).
  - apply fin_regions.
  - unfold pq_sigs at 1. simpl. rewrite Hsh. simpl. rewrite Hsv. by destruct sig.
  - exists A, B. done.
  - lia.
  - pose proof cut_range as (? & ? & ? & _). split_and!; [done..|].
    pose proof (pv_slots _ _ (cd_core _ _ _ _ _ _ Hcut) ix) as Hs. rewrite <- Hctl. apply Hs.
    apply elem_of_app. left. apply cut_in.
  - simpl. by rewrite Hsh.
  - simpl. rewrite Hsh. exact (cd_spare _ _ _ _ _ _ Hcut).
Qed.
End finish.
End enter.
End new.
