(* ===== verification/PqReserve.v ===== *)
(** * [rpqe_new()] as a whole

    The outcomes of [rpqe_new()] on a well-formed queue: a duplicate, no room, a
    reserved region, or a region that cannot be locked and is given back. *)

From S2P Require Import Prelude Timestamp NumTheory Fb SkipList TimeQueue RegionList RegionHash.
From S2P Require Import RegionAlloc RegionThms SigIndex Riul Sizes PqShare PqCore PqOps PqInv.
From S2P Require Import PqAccess PqDelete PqRoom PqNew.

Section reserve.
Context {W : Type} {Sys : System W} {Laws : SystemLaws W}.
Implicit Types (q : pqueue W) (w : W).

(** The contents are those of before. *)
Record pq_restored q G q' G' : Prop := {
  pt_inv : pq_inv q' G';
  pt_queue : pq_queue q' G' = pq_queue q G;
  pt_regions : pq_regions q' G' = pq_regions q G;
  pt_sigs : pq_sigs q' G' = pq_sigs q G;
  pt_mine : g_rs G' = g_rs G;
  pt_transit : g_lb G' = [];
  pt_lost : g_lk G' = g_lk G;
  pt_bytes : rl_nbytes (pq_rl q') = rl_nbytes (pq_rl q);
  pt_cfg : pq_cfg q' = pq_cfg q;
}.

Lemma unhash_restored q G w rl f g es fs ts :
  pq_inv q G → same_mem (pq_sys q) w →
  both (pq_tq q) rl f (pq_datao q) (pq_ixo q) (g_ns G) (g_fl G) (g_lk G) es fs (g_us G) [] ts →
  rl_nalloc rl = pq_nalloc q →
  (∀ x, x ∈ g_us G → rg_off (rl_rp rl) x = rg_off (rl_rp (pq_rl q)) x ∧
     rext (rl_rp rl) x = rext (rl_rp (pq_rl q)) x) →
  rl_nbytes rl = rl_nbytes (pq_rl q) →
  pq_restored q G (set_rng (set_rl_fb (set_sys q w) rl f) g)
    (Ghost (g_ns G) (g_fl G) (g_lk G) es fs (g_us G) [] ts (g_xu G) (g_xf G) (g_rs G)).
Proof.
  intros Hinv Hmem Hb Hna Hsame Hnb.
  assert (rl_view (rl_rp rl) (g_us G) = pq_regions q G) as Hview by by apply rl_view_ext.
  split; try done. split.
  - apply (pq_core_rl (set_sys q w) G); [by apply pq_inv_sys|exact Hb| | |exact Hna].
    + intros o e Ho _. by rewrite Hview.
    + intros n Hn. rewrite app_nil_r in Hn. pose proof (pv_slots _ _ Hinv n ltac:(set_solver)) as Hs.
      unfold slot_ok in *. simpl. by destruct (Hsame n Hn) as [-> ->].
  - simpl. rewrite Hnb, (pv_bytes _ _ Hinv). f_equal. apply list_fmap_ext.
    intros i x Hx%list_elem_of_lookup_2. symmetry. by apply Hsame.
Qed.

(** Giving the region back.  [rl_put()] fails its assertion for the last slots of
    the table. *)
Lemma rpqe_unhash_spec q G e ix q2 G2 w :
  pq_inv q G → cut_done q G e ix q2 G2 → 4 ≤ fb_spare (pq_fb q2) → same_mem (pq_sys q) w →
  if ix <? pq_nalloc q
  then ∃ q' G', rpqe_unhash (set_sys q2 w) ix = Ok q' ∧ pq_restored q G q' G'
  else rpqe_unhash (set_sys q2 w) ix = Err AssertFail.
Proof.
  intros Hinv Hcut Hsp Hmem. pose proof (cd_core _ _ _ _ _ _ Hcut) as Hcore.
  destruct (cut_cfg _ _ _ _ _ _ Hcut) as (Hc2 & Hctl & Hsx2 & Htq2 & Hri2 & Hsys2 & Hsm2 & Hnb).
  destruct (cd_lists _ _ _ _ _ _ Hcut) as (Hl1 & Hl2 & Hl3 & Hl4 & Hl5 & Hl6 & Hl7 & Hl8).
  pose proof (cut_in _ _ _ _ _ _ Hcut) as Hin.
  destruct (pv_region_at _ _ Hcore ix ltac:(set_solver)) as (r & Hr & _).
  pose proof (pv_both _ _ Hcore) as (U & Ht & Hrl).
  destruct (unhash_clear_spec _ _ _ _ _ _ _ _ _ _ _ _ Hrl Hin Hr) as (rl1 & Hdel & Hr1 & Hrl2 & Hnb2 & Hna2 & Hkeep).
  set (rl2 := rl_set_rp rl1 _) in *.
  assert (pq_nalloc q2 = pq_nalloc q ∧ pq_datao q2 = pq_datao q ∧ pq_ixo q2 = pq_ixo q) as (Hna & Hd & Hi)
    by (unfold pq_cfg in Hc2; split_and!; congruence).
  assert (rl_nalloc rl2 = pq_nalloc q) as Hna3.
  { destruct (pv_nalloc _ _ Hcore) as (HA & _). congruence. }
  unfold rpqe_unhash, rpqe_unget. simpl. rewrite Hdel, bind_Ok, (rd_Ok _ _ _ Hr1), bind_Ok, wr_Ok, bind_Ok by eauto.
  simpl. fold rl2. destruct (Z.ltb_spec ix (pq_nalloc q)) as [Hlt|Hge]; cycle 1.
  { unfold rl_put. rewrite Hna3, (proj2 (Z.ltb_ge ix _)) by lia. done. }
  rewrite Hl4 in Hrl2.
  assert (filter (λ x, x ≠ ix) (ix :: g_us G) = g_us G) as Hfil.
  { rewrite filter_cons_False by naive_solver. apply filter_all. intros x Hx ->.
    destruct (pv_us _ _ Hcore) as [Hnd _]. rewrite Hl4 in Hnd. by apply NoDup_cons in Hnd as [? _]. }
  rewrite Hfil, Hl5 in Hrl2.
  assert (both (pq_tq q2) rl2 (pq_fb q2) (pq_datao q) (pq_ixo q) (g_ns G2) (g_fl G2) (g_lk G2) (g_es G2) (g_fs G2)
    (g_us G) [ix] (g_ts G2)) as Hb2 by (exists U; rewrite Hd, Hi in Hrl2; done).
  destruct (both_rl_put _ _ _ _ _ _ _ _ _ _ _ _ _ ix (pq_rng q2) Hb2) as
    (rl3 & f3 & g3 & es3 & fs3 & ts3 & Hput & Hb3 & Hx3 & Hnb3 & Hlen3); [lia|done|].
  rewrite Hput, bind_Ok.
  assert (∀ x, x ∈ g_us G → rg_off (rl_rp rl3) x = rg_off (rl_rp (pq_rl q)) x ∧
    rext (rl_rp rl3) x = rext (rl_rp (pq_rl q)) x) as Hsame.
  { intros x Hx. destruct (cd_kept _ _ _ _ _ _ Hcut x Hx) as [<- <-].
    assert (x ∈ g_us G2 ++ g_lb G2) as Hx2 by (rewrite Hl4; set_solver).
    destruct (pv_region_at _ _ Hcore x Hx2) as (rx & Hrx & Hox & Hex).
    destruct (Hkeep x rx Hrx) as (r' & Hr' & Ho' & He').
    assert (rl_rp rl3 !! x = Some r') as Hr3 by (rewrite Hx3; [done|set_solver]).
    by rewrite (rg_off_at _ _ _ Hr3), (rext_at _ _ _ Hr3), Ho', He', Hox, Hex. }
  pose proof (unhash_restored q G w rl3 f3 g3 es3 fs3 ts3 Hinv Hmem) as Hres.
  destruct (cd_upd _ _ _ _ _ _ Hcut) as (rl0 & f0 & g0 & Hq2 & _).
  eexists _, _. split; [reflexivity|]. rewrite Hq2. apply Hres; [| |done|congruence].
  - by rewrite Htq2, Hl1, Hl2, Hl3 in Hb3.
  - pose proof (pv_length _ _ Hcore) as Hl. destruct Hb3 as (U3 & _ & Hr3).
    rewrite (rl_length _ _ _ _ _ _ _ _ _ _ Hr3), <- Hna, Hl, Hl4, Hl5. simpl. lia.
Qed.

(** ** The outcomes *)

(** The element of the signature index that comes with the region. *)
Definition sxep_ok q' (sig : option signaturet) (o : Z) (sxep : option Z) : Prop :=
  match sig with
  | None => sxep = None
  | Some x => ∃ n se, sxep = Some n ∧ sx_sxep (pq_sx q') !! n = Some se ∧ se_offset se = o ∧ se_sxi se = x
  end.

(** [q1] is the queue without the products that were deleted to make room, each of
    them while there was no slot or no free region of the rounded extent. *)
Definition new_post q G (extent : Z) (sig : option signaturet)
    (r : res (Z * Z * option Z * pqueue W)) : Prop :=
  (∃ x n, sig = Some x ∧ is_Some (pq_sigs q G !! x) ∧ r = Ok (PQ_DUP, 0, Some n, q)) ∨
  ((∀ x, sig = Some x → pq_sigs q G !! x = None) ∧
   ∃ q1 G1, pq_inv q1 G1 ∧ pq_shrunk q G q1 G1 ∧ g_lb G1 = [] ∧
    evictions (lacking (rndup64 extent (ctl_align (pq_ctl q)))) q G q1 G1 ∧
    ((∃ st, st ≠ 0 ∧ r = Ok (st, 0, None, q1) ∧ no_room q1 G1 st) ∨
     (∃ o e vp sxep q' G', r = Ok (0, vp, sxep, q') ∧
        pq_reserved q1 G1 extent sig o e vp q' G' ∧ sxep_ok q' sig o sxep) ∨
     (∃ st ix, st ≠ 0 ∧ refused W ∧
        if ix <? pq_nalloc q
        then ∃ q' G', r = Ok (st, 0, None, q') ∧ pq_restored q1 G1 q' G'
        else r = Err AssertFail))).

(** Entering the signature, if there is one. *)
Lemma enter_sig q G o sig :
  pq_inv q G → g_xf G ≠ [] → (∀ x, sig = Some x → pq_sigs q G !! x = None) →
  ∃ s xu xf sxep,
    (∀ x, sig = Some x → ∃ n, sxep = Some n ∧ sx_add (pq_sx q) x o = Ok (Some n, s)) ∧
    (sig = None → s = pq_sx q ∧ sxep = None) ∧
    sx_inv s xu xf ∧ sx_nalloc s = sx_nalloc (pq_sx q) ∧
    sx_view (sx_sxep s) xu =
      match sig with Some x => <[x := o]> (pq_sigs q G) | None => pq_sigs q G end ∧
    match sig with
    | None => True
    | Some x => ∃ n se, sxep = Some n ∧ sx_sxep s !! n = Some se ∧ se_offset se = o ∧ se_sxi se = x
    end.
Proof.
  intros Hinv Hxf Hnew. pose proof (pv_sx _ _ Hinv) as Hsx. destruct sig as [x|].
  - destruct (g_xf G) as [|n xf] eqn:Hx; [done|].
    destruct (sx_add_spec _ _ _ Hsx x o n xf eq_refl) as (s & Hadd & Hsx' & Hs1 & Hs2 & Hs3 & Hsn).
    { intros y Hy. specialize (Hnew x eq_refl). unfold pq_sigs in Hnew. by apply (sx_view_None _ _ _ Hsx x). }
    exists s, (n :: g_xu G), xf, (Some n). split_and!; [|done|done|done| |].
    + intros y [= <-]. eauto.
    + rewrite (sx_view_add (sx_sxep (pq_sx q))); [by rewrite Hs1, Hs2|].
      intros y Hy. apply Hs3. intros ->. pose proof (sx_NoDup _ _ _ Hsx) as (_ & Hd & _)%NoDup_app.
      apply (Hd n Hy). constructor.
    + assert (is_Some (sx_sxep s !! n)) as [se Hse].
      { apply (xi_dom _ _ _ Hsx'). pose proof (xi_perm _ _ _ Hsx') as Hp.
        assert (n ∈ seqZ 0 (sx_nalloc s)) as Hn by (rewrite <- Hp; constructor).
        apply elem_of_seqZ in Hn. lia. }
      exists n, se. unfold sx_off in Hs2. unfold sx_sig in Hs1. rewrite Hse in Hs1, Hs2. done.
  - exists (pq_sx q), (g_xu G), (g_xf G), None. done.
Qed.

(** From the region in use to the outcome. *)
Section enter.
Context (q : pqueue W) (G : ghost) (e ix : Z) (q2 : pqueue W) (G2 : ghost).
Context (extent : Z) (sig : option signaturet).
Context (Hinv : pq_inv q G) (Hcut : cut_done q G e ix q2 G2).
Context (Hfresh : ∀ x, sig = Some x → pq_sigs q G !! x = None).
Context (Hrs : (length (g_rs G) ≤ 2)%nat) (Hsp : 6 ≤ fb_spare (pq_fb q)) (Hwr : pq_writable q).
Context (Hext : 0 < extent < 2 ^ 61) (He : e = rndup64 extent (ctl_align (pq_ctl q))).
Context (Hsml : pq_smallest q ≤ e).
Abbreviation o := (rg_off (rl_rp (pq_rl q2)) ix).
Abbreviation ext := (rext (rl_rp (pq_rl q2)) ix).

Lemma enter_fail (st : Z) w :
  same_mem (pq_sys q2) w →
  if ix <? pq_nalloc q
  then ∃ q' G', (let! q := rpqe_unhash (set_sys q2 w) ix in Ok (st, 0, @None Z, q)) = Ok (st, 0, None, q') ∧
    pq_restored q G q' G'
  else (let! q := rpqe_unhash (set_sys q2 w) ix in Ok (st, 0, @None Z, q)) = Err AssertFail.
Proof.
  intros Hw. destruct (cut_cfg _ _ _ _ _ _ Hcut) as (_ & _ & _ & _ & _ & Hsys2 & _). rewrite Hsys2 in Hw.
  pose proof (cd_spare _ _ _ _ _ _ Hcut) as Hsp2.
  pose proof (rpqe_unhash_spec q G e ix q2 G2 w Hinv Hcut ltac:(lia) Hw) as Hun.
  destruct (ix <? pq_nalloc q); [destruct Hun as (q' & G' & -> & ?); rewrite bind_Ok; eauto|by rewrite Hun].
Qed.

Lemma enter_start :
  rpqe_enter q2 ix sig = (
    let! '(status, _, q') := rgn2_reserve q2 o ext RGN_WRITE (pq_base q2 + o) in (
    if negb (status =? 0) then let! q := rpqe_unhash q' ix in Ok (status, 0, None, q)
    else
      let! hit := rd (rl_rp (pq_rl q2)) ix in
      match sig with
      | None => Ok (0, pq_base q2 + o, None, rpqe_stats q' hit)
      | Some x =>
          let! '(sxep, s) := sx_add (pq_sx q') x o in
          let q := set_sx q' s in
          match sxep with
          | None =>
              let! '(_, q) := rgn_rel q o 0 in
              let! q := rpqe_unhash q ix in
              Ok (ENOMEM, 0, None, q)
          | Some n => Ok (0, pq_base q2 + o, Some n, rpqe_stats q hit)
          end
      end) : res (Z * Z * option Z * pqueue W)).
Proof.
  pose proof (cd_core _ _ _ _ _ _ Hcut) as Hcore. pose proof (cut_in _ _ _ _ _ _ Hcut) as Hin.
  destruct (cd_lists _ _ _ _ _ _ Hcut) as (_ & _ & _ & Hl4 & _ & _ & _ & Hl8).
  destruct (pv_region_at _ _ Hcore ix ltac:(set_solver)) as (hit & Hhit & Ho & Hx).
  unfold rpqe_enter. rewrite (rd_Ok _ _ _ Hhit), bind_Ok, Ho, Hx.
  assert (may q2 RGN_WRITE) as Hmay.
  { intros _. destruct (cut_cfg _ _ _ _ _ _ Hcut) as (Hc2 & _). unfold pq_writable, pq_cfg in *. congruence. }
  rewrite (rgn_get_unfold q2 G2 ix RGN_WRITE Hcore Hmay Hin); cycle 1.
  { destruct (pv_nelems _ _ Hcore) as [-> _]. rewrite Hl4, Hl8. simpl. lia. }
  destruct (rgn2_reserve _ _ _ _ _) as [[[st rp] q']|]; [|done]. rewrite !bind_Ok.
  destruct (Z.eqb_spec st 0) as [->|Hne]; [|done]. done.
Qed.

Lemma enter_reserve :
  if (try_lock q2 o ext RGN_WRITE).1 =? 0 then
    (∃ rl' rix w A B, rgn2_reserve q2 o ext RGN_WRITE (pq_base q2 + o) =
       Ok (0, Some rix, set_riul (set_sys q2 w) rl') ∧ g_rs G = A ++ B ∧
       riul_inv rl' (A ++ Riu o ext (pq_base q + o) RGN_WRITE :: B) ∧ same_mem (pq_sys q) w) ∨
    (∃ w, rgn2_reserve q2 o ext RGN_WRITE (pq_base q2 + o) = Ok (ENOMEM, None, set_sys q2 w) ∧
       same_mem (pq_sys q2) w ∧ refused W)
  else ∃ st, st ≠ 0 ∧ refused W ∧ rgn2_reserve q2 o ext RGN_WRITE (pq_base q2 + o) = Ok (st, None, q2).
Proof.
  pose proof (cd_core _ _ _ _ _ _ Hcut) as Hcore. pose proof (cut_in _ _ _ _ _ _ Hcut) as Hin.
  destruct (cut_cfg _ _ _ _ _ _ Hcut) as (Hc2 & _ & _ & _ & _ & Hsys2 & _).
  destruct (cd_lists _ _ _ _ _ _ Hcut) as (_ & _ & _ & Hl4 & _ & _ & _ & Hl8).
  assert (pq_base q2 = pq_base q) as Hb by (unfold pq_cfg in Hc2; congruence).
  assert (∀ r, r ∈ g_rs G2 → ru_offset r ≠ o) as Hfree by (intros r; rewrite Hl8; by eapply cut_free).
  assert (Z.of_nat (length (g_rs G2)) < 2 ^ 40) as Hlen by (rewrite Hl8; lia).
  pose proof (rgn2_reserve_spec q2 (g_rs G2) o ext RGN_WRITE (pq_base q2 + o) (pv_riul _ _ Hcore) Hfree
    (vp_pos _ _ _ Hcore Hin) (pc_page _ (pv_config _ _ Hcore)) Hlen eq_refl (not_index _ _ _ Hcore Hin)) as Hres.
  destruct ((try_lock q2 o ext RGN_WRITE).1 =? 0) eqn:Hlock.
  - destruct Hres as [(rl' & rix & w & A & B & Hrun & HAB & Hri & Hm)|Hno]; [left|by right].
    exists rl', rix, w, A, B. rewrite <- Hl8, <- Hb, <- Hsys2. done.
  - eexists. split; [|split; [|exact Hres]]; [case_match; [done|lia]|].
    apply (try_lock_refused q2 o ext RGN_WRITE). lia.
Qed.

Lemma rpqe_enter_spec :
  (∃ o e vp sxep q' G', rpqe_enter q2 ix sig = Ok (0, vp, sxep, q') ∧
     pq_reserved q G extent sig o e vp q' G' ∧ sxep_ok q' sig o sxep) ∨
  (∃ st ix0, st ≠ 0 ∧ refused W ∧
     if ix0 <? pq_nalloc q
     then ∃ q' G', rpqe_enter q2 ix sig = Ok (st, 0, None, q') ∧ pq_restored q G q' G'
     else rpqe_enter q2 ix sig = Err AssertFail).
Proof.
  rewrite enter_start. pose proof enter_reserve as Hres.
  destruct ((try_lock q2 o ext RGN_WRITE).1 =? 0).
  - destruct Hres as [(rl' & rix & w & A & B & Hrun & HAB & Hri & Hm)|(w & Hrun & Hm & Hrf)]; rewrite Hrun, !bind_Ok.
    + left. simpl negb. cbv iota. pose proof (cd_core _ _ _ _ _ _ Hcut) as Hcore.
      destruct (cut_cfg _ _ _ _ _ _ Hcut) as (Hc2 & _ & Hsx2 & _ & _ & Hsys2 & Hsm2 & _).
      pose proof (cut_in _ _ _ _ _ _ Hcut) as Hin.
      destruct (pv_region_at _ _ Hcore ix ltac:(set_solver)) as (hit & Hhit & _ & _).
      assert (pq_base q2 = pq_base q) as Hb by (unfold pq_cfg in Hc2; congruence).
      destruct (enter_sig q G o sig Hinv) as (s & xu & xf & sxep & Hadd & Hnone & Hsx & Hsn & Hsv & Hse);
        [by eapply cut_sx_room|done|].
      exists o, ext, (pq_base q2 + o), sxep. eexists _, _. split; [|split].
      * rewrite (rd_Ok _ _ _ Hhit), bind_Ok. instantiate (1 := rpqe_stats (set_sx (set_riul (set_sys q2 w) rl') s) hit).
        simpl pq_sx. rewrite Hsx2. destruct sig as [x|].
        -- destruct (Hadd x eq_refl) as (n & -> & ->). rewrite bind_Ok. reflexivity.
        -- destruct (Hnone eq_refl) as [-> ->]. rewrite <- Hsx2.
           destruct q2 as [? ? ? ? ? ? ? ? ? ? ? ? ? ? ? ? sh ? ?]. by destruct sh.
      * rewrite Hb. eapply (fin_reserved q G e ix q2 G2 Hinv Hcut extent sig _ s xu xf A B hit).
        -- exact Hfresh.
        -- reflexivity.
        -- exact Hc2.
        -- exact Hsm2.
        -- exact HAB.
        -- exact Hri.
        -- exact Hm.
        -- exact Hsx.
        -- exact Hsn.
        -- exact Hsv.
        -- exact Hhit.
        -- exact Hext.
        -- exact He.
        -- exact Hsml.
      * unfold sxep_ok. destruct sig as [x|]; [exact Hse|]. by destruct (Hnone eq_refl).
    + right. exists ENOMEM, ix. split; [done|]. split; [exact Hrf|]. exact (enter_fail ENOMEM w Hm).
  - right. destruct Hres as (st & Hst & Hrf & Hrun). rewrite Hrun, bind_Ok. exists st, ix. split; [done|].
    split; [exact Hrf|].
    rewrite (proj2 (Z.eqb_neq _ _) Hst). simpl negb. cbv iota.
    pose proof (enter_fail st (pq_sys q2) (same_mem_refl _)) as Hf. by rewrite set_sys_id in Hf.
Qed.
End enter.

Lemma rpqe_new_spec q G extent sig :
  pq_inv q G → room_for (lacking (rndup64 extent (ctl_align (pq_ctl q)))) q G → g_lb G = [] → 0 < extent < 2 ^ 61 →
  new_post q G extent sig (rpqe_new q extent sig).
Proof.
  intros Hinv Hroom Hlb Hext. unfold rpqe_new.
  assert (∃ dup, match sig with Some x => sx_find (pq_sx q) x | None => Ok None end = Ok dup ∧
    match dup with
    | Some n => ∃ x, sig = Some x ∧ is_Some (pq_sigs q G !! x)
    | None => ∀ x, sig = Some x → pq_sigs q G !! x = None
    end) as (dup & Hdup & Hd).
  { destruct sig as [x|]; [|by exists None]. pose proof (pv_sx _ _ Hinv) as Hsx.
    destruct (sx_find_spec _ _ _ x Hsx) as (d & Hrun & Hd). exists d. split; [done|]. destruct d as [n|].
    - exists x. split; [done|]. exists (sx_off (sx_sxep (pq_sx q)) n). apply (sx_view_lookup _ _ _ Hsx).
      destruct Hd. eauto.
    - intros y [= <-]. by apply (sx_view_None _ _ _ Hsx). }
  rewrite Hdup, bind_Ok. destruct dup as [n|].
  { destruct Hd as (x & -> & Hx). left. eauto. }
  right. split; [exact Hd|].
  destruct (rpqe_get_spec q G extent Hinv Hroom Hlb Hext)
    as (st & ix & e & q1 & qs & Gs & Hget & Hinvs & Hshr & Hlbs & Hev & Hst).
  exists qs, Gs. split; [exact Hinvs|]. split; [exact Hshr|]. split; [exact Hlbs|].
  split; [exact Hev|]. rewrite Hget, bind_Ok.
  destruct Hst as [(-> & He & Hsm & Hes & G1 & Hgot)|(Hst & -> & Hno)]; cycle 1.
  { left. exists st. rewrite (proj2 (Z.eqb_neq _ _) Hst). done. }
  right. simpl negb. cbv iota.
  pose proof (room_for_next _ _ _ _ _ Hroom Hev Hshr) as Hrooms. pose proof (room_for_spare _ _ _ Hrooms) as Hsp.
  destruct Hrooms as (Hrs & _ & Hwrs). clear Hev Hroom.
  destruct (ps_cfg _ _ _ _ Hshr) as [Hcfgs Has]. rewrite <- Has in He.
  destruct (pc_align _ (pv_config _ _ Hinvs)) as (Hal & Hal8 & _).
  destruct (rndup64_spec extent _ Hext Hal) as [He1 He2]. rewrite <- He in He1, He2.
  pose proof (pv_nelems _ _ Hinvs) as [Hnl _].
  assert (8 ≤ e) as He8 by (assert (8 | e) as [k Hk] by (by etrans); lia).
  destruct (rpqe_cut_spec qs Gs e ix q1 G1 Hgot Hinvs Hes He2) as (q2 & G2 & Hcutrun & Hcut);
    [unfold MIN_RGN_SIZE, M_RND_UNIT; lia|lia|].
  rewrite Hcutrun, bind_Ok. simpl negb. cbv iota.
  replace (pq_nalloc q) with (pq_nalloc qs) by (unfold pq_cfg in Hcfgs; congruence).
  eapply (rpqe_enter_spec qs Gs e ix q2 G2 extent sig Hinvs Hcut); [|done|lia|done|done|done|done].
  intros x Hx. specialize (Hd x Hx). apply eq_None_not_Some. intros [o' Ho'].
  assert (pq_sigs q G !! x = Some o') as Hbad; [|congruence].
  eapply lookup_weaken; [exact Ho'|apply (ps_sigs _ _ _ _ Hshr)].
Qed.
End reserve.
