(* ===== verification/PqSession.v ===== *)
(** * Critical sections

    [ctl_get()] and [ctl_rel()] on a well-formed queue: the control block is locked
    and the indexes are brought in, or nothing changes; then both are given
    back. *)

From stdpp Require Import sorting.
From S2P Require Import Prelude Timestamp NumTheory Fb SkipList TimeQueue RegionList RegionHash.
From S2P Require Import RegionAlloc RegionThms SigIndex Riul Sizes PqShare PqCore PqOps PqCtl.
From S2P Require Import PqInv PqAccess PqDelete PqRoom.

(** The same lists with other regions of this process. *)
Definition with_rs (G : ghost) (rs : list riu) : ghost :=
  Ghost (g_ns G) (g_fl G) (g_lk G) (g_es G) (g_fs G) (g_us G) (g_lb G) (g_ts G) (g_xu G) (g_xf G) rs.

Section session.
Context {W : Type} {Sys : System W} {Laws : SystemLaws W}.
Implicit Types (q : pqueue W) (w : W).

(** The queue object with the part that sessions change. *)
Definition env q (pf : Z) w (rl : riul) (cp ip : bool) : pqueue W :=
  set_ixp (set_ctlp (set_riul (set_sys (set_pflags q pf) w) rl) cp) ip.

Lemma env_env q pf w rl cp ip pf' w' rl' cp' ip' :
  env (env q pf w rl cp ip) pf' w' rl' cp' ip' = env q pf' w' rl' cp' ip'.
Proof. reflexivity. Qed.

Lemma env_inv q G pf w rl rs cp ip :
  pq_inv q G → same_mem (pq_sys q) w → riul_inv rl rs →
  (∀ r, r ∈ rs → mine_ok q G r) → pq_inv (env q pf w rl cp ip) (with_rs G rs).
Proof.
  intros [[[] Hb Hsx Hri Hsl Hmi Hpr Hof Hs1 Hs2 Hna Htm] Hby] Hm Hrl Hrs. split; [|exact Hby].
  split; try assumption.
  - split; assumption.
  - intros p Hp. exact (prod_ok_mem _ _ _ _ _ Hm (Hpr p Hp)).
Qed.

(** Regions of the data segment. *)
Definition between q (rs : list riu) : Prop := ∀ r, r ∈ rs → 0 < ru_offset r < pq_ixo q.

(** Outside of a critical section; the process may have regions of products. *)
Record pq_out q G : Prop := {
  po_inv : pq_inv q G;
  po_rs : between q (g_rs G);
  po_lb : g_lb G = [];
  po_ptrs : pq_ctlp q = false ∧ pq_ixp q = false;
  po_sigs : fIsSet (pq_pflags q) PQ_SIGSBLOCKED = false;
}.

(** Without any regions. *)
Record pq_idle q G : Prop := { id_out :> pq_out q G; id_rs : g_rs G = [] }.

Lemma id_inv q G : pq_idle q G → pq_inv q G.
Proof. intros [[] _]. done. Qed.

(** The regions of a critical section, with the flags of both ends. *)
Definition ctl_riu_of q (cf : Z) : riu := Riu 0 (pq_datao q) (pq_base q) cf.
Definition ix_riu_of q (xf : Z) : riu := Riu (pq_ixo q) (pq_ixsz q) (pq_base q + pq_ixo q) xf.
Definition session q (cf xf : Z) (rs : list riu) : list riu := ctl_riu_of q cf :: rs ++ [ix_riu_of q xf].

(** A region of the data segment among them. *)
Lemma session_mid q cf xf rs r A B :
  StronglySorted riu_lt (A ++ r :: B) → 0 < ru_offset r < pq_ixo q → session q cf xf rs = A ++ B →
  ∃ A' B', A = ctl_riu_of q cf :: A' ∧ B = B' ++ [ix_riu_of q xf] ∧ rs = A' ++ B'.
Proof.
  intros Hs Hr HAB. unfold session in HAB. destruct A as [|a A].
  { simpl in HAB. subst B. apply StronglySorted_inv in Hs as [_ Hf]. rewrite Forall_forall in Hf.
    specialize (Hf (ctl_riu_of q cf) ltac:(set_solver)). unfold riu_lt in Hf. simpl in Hf. lia. }
  injection HAB as <- HAB. exists A. destruct (decide (B = [])) as [->|HB].
  { rewrite app_nil_r in HAB. subst A.
    pose proof (StronglySorted_app_1_elem_of _ _ _ (ix_riu_of q xf) r Hs) as Hlt.
    unfold riu_lt in Hlt. simpl in Hlt. specialize (Hlt ltac:(set_solver) ltac:(set_solver)). lia. }
  destruct (exists_last HB) as (B' & b & ->). exists B'. rewrite app_assoc in HAB.
  apply app_inj_tail in HAB as [-> <-]. done.
Qed.

Lemma session_mine q G cf xf rs r :
  pq_inv q G → (∀ x, x ∈ rs → mine_ok q G x) → r ∈ session q cf xf rs → mine_ok q G r.
Proof.
  intros Hinv Hold Hr. pose proof (pv_layout _ _ Hinv) as (? & ? & ?). unfold mine_ok, TOTAL_SIZE.
  pose proof (pc_page _ (pv_config _ _ Hinv)). unfold session in Hr.
  rewrite elem_of_cons, elem_of_app, list_elem_of_singleton in Hr.
  destruct Hr as [->|[Hr| ->]]; [|by apply Hold|]; simpl; split_and!; try lia; auto.
Qed.

(** The regions of the data segment are ours whatever else is. *)
Lemma session_inv q G cf xf pf w rl rs cp ip :
  pq_inv q G → same_mem (pq_sys q) w → riul_inv rl rs →
  (∀ r, r ∈ rs → r ∈ session q cf xf (g_rs G)) → pq_inv (env q pf w rl cp ip) (with_rs G rs).
Proof.
  intros Hinv Hm Hrl Hrs. apply env_inv; [done..|]. intros r Hr.
  eapply (session_mine q G cf xf (g_rs G)); [done|apply (pv_mine _ _ Hinv)|by apply Hrs].
Qed.

Lemma mm0_ftom_unfold q o e fl :
  pq_config q → may q fl → 0 ≤ o ≤ pq_ixo q → 0 < e < TOTAL_SIZE q →
  ftom q o e fl =
    let! '(status, _, q') := rgn2_reserve q o e fl (pq_base q + o) in
    Ok (status, if status =? 0 then pq_base q + o else 0, q').
Proof.
  intros [Hlay Hacc Hbase] Hmay Ho He. unfold ftom. rewrite Hacc. unfold mm0_ftom.
  rewrite Hlay, assert_Ok, bind_Ok by done.
  unfold ftom_args_ok. rewrite assert_Ok, bind_Ok by lia.
  rewrite (may_ok _ _ Hmay), assert_Ok, bind_Ok by done.
  by rewrite (proj2 (Z.eqb_neq (pq_base q) 0)), bind_Ok by lia.
Qed.

Lemma mm0_mtof_unfold q o fl : pq_config q → may q fl → mtof q o fl = rgn2_release q o fl.
Proof.
  intros [Hlay Hacc Hbase] Hmay. unfold mtof. rewrite Hacc. unfold mm0_mtof.
  rewrite Hlay, assert_Ok, bind_Ok by done.
  by rewrite (may_ok _ _ Hmay : pIf (fIsSet fl RGN_MODIFIED) _ = true), assert_Ok, bind_Ok by done.
Qed.

(** [PQ_SIGSBLOCKED] set and cleared. *)
Lemma sigs_mask pf :
  fIsSet pf PQ_SIGSBLOCKED = false →
  fMask pf PQ_SIGSBLOCKED = pf ∧ fMask (Z.lor pf PQ_SIGSBLOCKED) PQ_SIGSBLOCKED = pf.
Proof.
  unfold fIsSet, fMask. intros Hf%negb_false_iff%Z.eqb_eq.
  split; apply Z.bits_inj'; intros n Hn; rewrite Z.ldiff_spec, ?Z.lor_spec;
    apply (f_equal (fun z => Z.testbit z n)) in Hf; rewrite Z.land_spec, Z.bits_0 in Hf;
    by destruct (Z.testbit pf n), (Z.testbit PQ_SIGSBLOCKED n).
Qed.

Lemma sigs_set pf : fIsSet (Z.lor pf PQ_SIGSBLOCKED) PQ_SIGSBLOCKED = true.
Proof.
  unfold fIsSet. apply negb_true_iff, Z.eqb_neq. intros Hf.
  apply (f_equal (fun z => Z.testbit z 12)) in Hf. by rewrite Z.land_spec, Z.lor_spec, orb_true_r in Hf.
Qed.

Lemma sigs_readonly pf : fIsSet (Z.lor pf PQ_SIGSBLOCKED) PQ_READONLY = fIsSet pf PQ_READONLY.
Proof.
  unfold fIsSet. rewrite Z.land_lor_distr_l.
  change (Z.land PQ_SIGSBLOCKED PQ_READONLY) with 0. by rewrite Z.lor_0_r.
Qed.

(** The flags inside of a session for [fl], and after it. *)
Definition pf_in (pf fl : Z) : Z := if fIsSet fl RGN_WRITE then Z.lor pf PQ_SIGSBLOCKED else pf.
Definition pf_out (pf : Z) : Z := if fIsSet pf PQ_SIGSBLOCKED then fMask pf PQ_SIGSBLOCKED else pf.

Lemma pf_in_out pf fl : fIsSet pf PQ_SIGSBLOCKED = false → pf_out (pf_in pf fl) = pf.
Proof.
  intros Hf. unfold pf_out, pf_in. destruct (fIsSet fl RGN_WRITE); [|by rewrite Hf].
  rewrite sigs_set. by apply sigs_mask.
Qed.

Lemma pf_in_mask pf fl : fIsSet pf PQ_SIGSBLOCKED = false → fMask (pf_in pf fl) PQ_SIGSBLOCKED = pf.
Proof. intros Hf. unfold pf_in. destruct (fIsSet fl RGN_WRITE); by apply sigs_mask. Qed.

Lemma pf_in_readonly pf fl : fIsSet (pf_in pf fl) PQ_READONLY = fIsSet pf PQ_READONLY.
Proof. unfold pf_in. case_match; [apply sigs_readonly|done]. Qed.

Lemma may_env q pf w rl cp ip fl :
  fIsSet pf PQ_READONLY = fIsSet (pq_pflags q) PQ_READONLY → may q fl → may (env q pf w rl cp ip) fl.
Proof. unfold may, pq_writable. simpl. by intros ->. Qed.

(** The flags of a session and those of its end: what was only read is not modified. *)
Definition lock_ok (cf xf rfl : Z) : Prop :=
  fIsSet cf RGN_NOLOCK = false ∧ fIsSet xf RGN_NOLOCK = true ∧
  (rfl = 0 ∨ rfl = RGN_MODIFIED ∧ fIsSet cf RGN_WRITE = true ∧ fIsSet xf RGN_WRITE = true).

(** Giving the control block back. *)
Lemma rel_ctl q G cf pf w rl rs fl :
  pq_inv q G → same_mem (pq_sys q) w →
  riul_inv rl (ctl_riu_of q cf :: rs) → (∀ r, r ∈ rs → mine_ok q G r) →
  may (env q pf w rl true false) fl → (fl = 0 ∨ fl = RGN_MODIFIED ∧ fIsSet cf RGN_WRITE = true) →
  fIsSet cf RGN_NOLOCK = false →
  ∃ st w' rl', mtof (env q pf w rl true false) 0 fl = Ok (st, env q pf w' rl' true false) ∧
    same_mem (pq_sys q) w' ∧ riul_inv rl' rs ∧ (st ≠ 0 → refused W).
Proof.
  intros Hinv Hm Hrl Hrs Hmay Hfl Hcf. set (q1 := env _ _ _ _ _ _) in *.
  assert (pq_config q1) as Hc by (by destruct (pv_config _ _ Hinv); split).
  rewrite (mm0_mtof_unfold _ _ _ Hc Hmay).
  pose proof (pv_layout _ _ Hinv) as (? & ? & ?). pose proof (pc_page _ (pv_config _ _ Hinv)).
  destruct (rgn2_release_spec q1 [] (ctl_riu_of q cf) rs fl) as (st & rl' & w' & Hrun & Hi & Hm' & Hrf').
  - exact Hrl.
  - unfold TOTAL_SIZE. simpl. lia.
  - simpl. lia.
  - intros Hmod. by destruct Hfl as [->|[_ Hw]].
  - by destruct Hfl as [->|[-> _]].
  - exact Hcf.
  - change (pq_ixo q1) with (pq_ixo q). simpl ru_offset. by rewrite (proj2 (Z.eqb_neq 0 (pq_ixo q))) by lia.
  - simpl in Hrun. rewrite Hrun. exists st, w', rl'. split; [reflexivity|].
    split_and!; [by eauto with ldm|done|done].
Qed.

(** Leaving a critical section. *)
Lemma ctl_rel_spec q G cf xf rs fl :
  pq_inv q G → g_rs G = session q cf xf rs → pq_ctlp q = true → pq_ixp q = true →
  lock_ok cf xf fl → may q fl →
  ∃ st w rl, ctl_rel q fl = Ok (st, env q (pf_out (pq_pflags q)) w rl false false) ∧
    same_mem (pq_sys q) w ∧ riul_inv rl rs ∧ (st ≠ 0 → refused W).
Proof.
  intros Hinv Hrs Hc Hi (Hcf & Hxf & Hfl) Hmay. unfold ctl_rel. rewrite Hc, Hi, !assert_Ok, !bind_Ok by done.
  assert (may q (Z.lor fl RGN_NOLOCK)) as Hmay' by (by destruct Hfl as [->|[-> _]]).
  rewrite (mm0_mtof_unfold _ _ _ (pv_config _ _ Hinv) Hmay').
  pose proof (pv_layout _ _ Hinv) as (? & ? & ?). pose proof (pc_page _ (pv_config _ _ Hinv)).
  pose proof (pv_riul _ _ Hinv) as Hri. rewrite Hrs in Hri. unfold session in Hri.
  destruct (rgn2_release_gen q (ctl_riu_of q cf :: rs) (ix_riu_of q xf) [] (Z.lor fl RGN_NOLOCK) Hri)
    as (st & rl' & w' & Hrun & Hi' & Hm' & Hrf).
  { unfold TOTAL_SIZE. simpl. lia. }
  { simpl. lia. }
  { by destruct Hfl as [->|(-> & _ & Hw)]. }
  { change (ru_rflags _) with xf. rewrite Hxf. by destruct Hfl as [->|[-> _]]. }
  { unfold unlock_ok, pIf. destruct Hfl as [->|[-> _]]; apply orb_true_r. }
  change (ru_offset (ix_riu_of q xf)) with (pq_ixo q) in Hrun. rewrite Hrun, bind_Ok.
  assert (set_ixp (set_sys (set_riul q rl') w') false = env q (pq_pflags q) w' rl' true false) as ->.
  { destruct q. simpl in *. by subst. }
  rewrite app_nil_r in Hi'.
  destruct (rel_ctl q G cf (pq_pflags q) w' rl' rs fl Hinv Hm' Hi')
    as (st' & w2 & rl2 & -> & Hm2 & Hi2 & Hrf2); [|by apply may_env|naive_solver|done|].
  { intros r Hr. apply (pv_mine _ _ Hinv). rewrite Hrs. unfold session. set_solver. }
  rewrite bind_Ok. simpl pq_pflags. exists (if st =? 0 then st' else st), w2, rl2. split_and!; [|done|done|].
  - unfold pf_out. by destruct (fIsSet (pq_pflags q) PQ_SIGSBLOCKED).
  - case_match; [exact Hrf2|exact Hrf].
Qed.

(** What [ctl_get()] promises: a session, or nothing but a status. *)
Definition get_session q G (fl st : Z) q' : Prop :=
  ∃ w rl, same_mem (pq_sys q) w ∧
    ((st = 0 ∧ q' = env q (pf_in (pq_pflags q) fl) w rl true true ∧
      riul_inv rl (session q fl (Z.lor fl RGN_NOLOCK) (g_rs G))) ∨
     (st ≠ 0 ∧ refused W ∧ q' = env q (pq_pflags q) w rl false false ∧ riul_inv rl (g_rs G))).

(** A region before or after all others. *)
Lemma riu_place rl A r B :
  riul_inv rl (A ++ r :: B) →
  ((∀ x, x ∈ A ++ B → ru_offset r < ru_offset x) → A = []) ∧
  ((∀ x, x ∈ A ++ B → ru_offset x < ru_offset r) → B = []).
Proof.
  intros Hi. pose proof (ui_sorted _ _ Hi) as Hs. split; intros Hx.
  - destruct A as [|a A]; [done|]. specialize (Hx a ltac:(set_solver)).
    pose proof (StronglySorted_app_1_elem_of _ _ _ a r Hs ltac:(set_solver) ltac:(set_solver)) as Hlt.
    unfold riu_lt in Hlt. lia.
  - destruct B as [|b B]; [done|]. specialize (Hx b ltac:(set_solver)).
    apply StronglySorted_app_1_r, StronglySorted_inv in Hs as [_ Hs].
    rewrite Forall_forall in Hs. specialize (Hs b ltac:(set_solver)). unfold riu_lt in Hs. lia.
Qed.

(** A process has at most the control block, the indexes and every region in use. *)
Lemma rs_bound q G : pq_core q G → (length (g_rs G) ≤ length (g_us G) + 2)%nat.
Proof.
  intros Hinv. pose proof (riu_sorted_NoDup _ (ui_sorted _ _ (pv_riul _ _ Hinv))) as Hnd.
  assert ((ru_offset <$> g_rs G) ⊆+ (0 :: pq_ixo q :: (rg_off (rl_rp (pq_rl q)) <$> g_us G))) as Hsub.
  { apply NoDup_submseteq; [done|]. intros o (r & -> & Hr)%list_elem_of_fmap.
    destruct (pv_mine _ _ Hinv r Hr) as (_ & _ & [->|[->|[_ Hreg]]]); [set_solver..|].
    apply (pv_regions_lookup _ _ Hinv) in Hreg as (n & Hn & <- & _).
    do 2 apply list_elem_of_further. by apply list_elem_of_fmap_2. }
  apply submseteq_length in Hsub. simpl in Hsub. rewrite !length_fmap in Hsub. lia.
Qed.

Lemma rs_count q G : pq_core q G → Z.of_nat (length (g_rs G)) < 2 ^ 39.
Proof. intros Hinv. pose proof (rs_bound _ _ Hinv). pose proof (pv_nelems _ _ Hinv). lia. Qed.

Section get.
Context (q : pqueue W) (G : ghost) (fl : Z) (Hout : pq_out q G) (Hmay : may q fl).
Context (Hfl : fl = 0 ∨ fl = RGN_WRITE).
Abbreviation pf1 := (pf_in (pq_pflags q) fl).
Abbreviation xf := (Z.lor fl RGN_NOLOCK).

Lemma out_mine r : r ∈ g_rs G → mine_ok q G r.
Proof. apply (pv_mine _ _ (po_inv _ _ Hout)). Qed.

Lemma env_config pf w rl cp ip : pq_config (env q pf w rl cp ip).
Proof. by destruct (pv_config _ _ (po_inv _ _ Hout)); split. Qed.

(** Reserving the control block. *)
Lemma get_ctl :
  ∃ st w rl, ftom (env q pf1 (pq_sys q) (pq_riul q) false false) 0 (pq_datao q) fl =
      Ok (st, if st =? 0 then pq_base q else 0, env q pf1 w rl false false) ∧
    same_mem (pq_sys q) w ∧ riul_inv rl (if st =? 0 then ctl_riu_of q fl :: g_rs G else g_rs G) ∧
    (st ≠ 0 → refused W).
Proof.
  set (q1 := env _ _ _ _ _ _). pose proof (po_inv _ _ Hout) as Hinv.
  pose proof (pv_layout _ _ Hinv) as (? & ? & ?). pose proof (pc_page _ (pv_config _ _ Hinv)) as Hpg.
  pose proof (pc_base _ (pv_config _ _ Hinv)). pose proof (rs_count _ _ Hinv) as Hlen.
  assert (may q1 fl) as Hmay1 by by apply may_env; [apply pf_in_readonly|].
  rewrite (mm0_ftom_unfold q1 _ _ _ (env_config _ _ _ _ _) Hmay1) by (unfold TOTAL_SIZE; simpl; lia).
  change (pq_base q1 + 0) with (pq_base q + 0). rewrite Z.add_0_r.
  assert (∀ r, r ∈ g_rs G → ru_offset r ≠ 0) as Hno.
  { intros r Hr. pose proof (po_rs _ _ Hout r Hr). lia. }
  assert (fIsSet fl RGN_NOLOCK = false) as Hnl by (by destruct Hfl as [->| ->]).
  pose proof (rgn2_reserve_spec q1 (g_rs G) 0 (pq_datao q) fl (pq_base q) (pv_riul _ _ Hinv) Hno
    ltac:(lia) Hpg ltac:(lia) Hnl) as Hres.
  assert ((0 =? pq_ixo q1) && (pq_datao q =? pq_ixsz q1) = false) as Hix.
  { change (pq_ixo q1) with (pq_ixo q). by rewrite (proj2 (Z.eqb_neq 0 (pq_ixo q))) by lia. }
  specialize (Hres Hix).
  destruct (Z.eqb_spec (try_lock q1 0 (pq_datao q) fl).1 0) as [Hl|Hl].
  - destruct Hres as [(rl & ix & w & A & B & -> & HAB & Hi & Hm)|(w & -> & Hm & Hrf)]; rewrite bind_Ok.
    + exists 0, w, rl. split; [done|]. split; [done|]. split; [|done]. simpl.
      destruct (riu_place _ _ _ _ Hi) as [HA _]. rewrite HAB. rewrite HA in Hi |- *; [exact Hi|..].
      all: rewrite <- HAB; intros x Hx; apply (po_rs _ _ Hout x Hx).
    + exists ENOMEM, w, (pq_riul q). split_and!; [done|done|exact (pv_riul _ _ Hinv)|done].
  - rewrite Hres, bind_Ok. set (st := if _ =? EAGAIN then _ else _).
    assert (st ≠ 0) as Hst by (unfold st; case_match; done).
    exists st, (pq_sys q), (pq_riul q). rewrite (proj2 (Z.eqb_neq _ _) Hst).
    split_and!; [done|done|exact (pv_riul _ _ Hinv)|]. intros _. by eapply try_lock_refused.
Qed.

(** Bringing in the indexes. *)
Lemma get_ix w rl :
  same_mem (pq_sys q) w → riul_inv rl (ctl_riu_of q fl :: g_rs G) →
  ∃ st w' rl', ftom (env q pf1 w rl true false) (pq_ixo q) (pq_ixsz q) xf =
      Ok (st, if st =? 0 then pq_base q + pq_ixo q else 0, env q pf1 w' rl' true false) ∧
    same_mem (pq_sys q) w' ∧
    riul_inv rl' (if st =? 0 then session q fl xf (g_rs G) else ctl_riu_of q fl :: g_rs G) ∧
    (st ≠ 0 → refused W).
Proof.
  intros Hm Hrl. set (q1 := env _ _ _ _ _ _). pose proof (po_inv _ _ Hout) as Hinv.
  pose proof (pv_layout _ _ Hinv) as (? & ? & ?). pose proof (pc_page _ (pv_config _ _ Hinv)) as Hpg.
  pose proof (pc_base _ (pv_config _ _ Hinv)). pose proof (rs_count _ _ Hinv) as Hlen.
  assert (may q1 xf) as Hmay1.
  { apply may_env; [apply pf_in_readonly|]. by destruct Hfl as [->| ->]. }
  rewrite (mm0_ftom_unfold q1 _ _ _ (env_config _ _ _ _ _) Hmay1) by (unfold TOTAL_SIZE; simpl; lia).
  assert (∀ r, r ∈ ctl_riu_of q fl :: g_rs G → ru_offset r < pq_ixo q) as Hlt.
  { intros r [->|Hr]%elem_of_cons; [simpl; lia|]. pose proof (po_rs _ _ Hout r Hr). lia. }
  change (rgn2_reserve q1 (pq_ixo q) (pq_ixsz q)) with (rgn2_reserve q1 (pq_ixo q1) (pq_ixsz q1)).
  change (pq_base q1 + pq_ixo q) with (pq_base q + pq_ixo q).
  destruct (rgn2_reserve_index q1 (ctl_riu_of q fl :: g_rs G) xf (pq_base q + pq_ixo q) Hrl)
    as [(rl' & ix & w' & A & B & -> & HAB & Hi & Hm')|(w' & -> & Hm' & Hrf)].
  - intros r Hr. pose proof (Hlt r Hr). simpl. lia.
  - lia.
  - done.
  - simpl. lia.
  - by destruct Hfl as [->| ->].
  - rewrite bind_Ok. exists 0, w', rl'. split; [done|]. split; [by eauto with ldm|]. split; [|done]. simpl.
    destruct (riu_place _ _ _ _ Hi) as [_ HB].
    assert (B = []) as -> by (apply HB; rewrite <- HAB; exact Hlt).
    rewrite app_nil_r in HAB. subst A. exact Hi.
  - rewrite bind_Ok. exists ENOMEM, w', rl. split_and!; [done|by eauto with ldm|done|done].
Qed.

Lemma ctl_get_spec : ∃ st q', ctl_get q fl = Ok (st, q') ∧ get_session q G fl st q'.
Proof.
  unfold ctl_get. rewrite (po_sigs _ _ Hout). change (fIsSet fl RGN_WRITE && negb false) with (fIsSet fl RGN_WRITE && true).
  rewrite andb_true_r. cbv zeta.
  assert ((if fIsSet fl RGN_WRITE then set_pflags q (Z.lor (pq_pflags q) PQ_SIGSBLOCKED) else q) =
          env q pf1 (pq_sys q) (pq_riul q) false false) as ->.
  { unfold pf_in. destruct (po_ptrs _ _ Hout) as [Hc Hi]. clear - Hc Hi. destruct q. simpl in *. subst. by case_match. }
  change (pq_ctlp (env _ _ _ _ false _)) with false. simpl negb. cbv iota.
  change (pq_datao (env _ _ _ _ _ _)) with (pq_datao q).
  destruct get_ctl as (st & w & rl & -> & Hm & Hrl & Hrf). rewrite !bind_Ok.
  pose proof (pf_in_mask _ fl (po_sigs _ _ Hout)) as Hmask.
  destruct (Z.eqb_spec st 0) as [->|Hst]; cycle 1.
  { simpl negb. cbv iota. eexists st, _. split; [reflexivity|]. exists w, rl. split; [done|]. right.
    split_and!; [done|by auto| |done]. unfold unwind_mask. simpl. by rewrite Hmask. }
  simpl negb. cbv iota. change (set_ctlp _ true) with (env q pf1 w rl true false).
  pose proof (po_inv _ _ Hout) as Hinv.
  destruct (pc_ctl _ (pv_config _ _ Hinv)) as (H1 & H2 & H3 & H4).
  pose proof (pc_datao _ (pv_config _ _ Hinv)) as H5. destruct (pv_nalloc _ _ Hinv) as (H6 & H7 & H8).
  change (pq_ctl (env _ _ _ _ _ _)) with (pq_ctl q).
  rewrite H1, H2, H3, H4, H5, !Z.eqb_refl, !assert_Ok, !bind_Ok by done.
  simpl pq_ixp. simpl negb. cbv iota.
  change (pq_ixo (env _ _ _ _ _ _)) with (pq_ixo q).
  destruct (get_ix w rl Hm Hrl) as (st & w' & rl' & -> & Hm' & Hrl' & Hrf'). rewrite !bind_Ok.
  destruct (Z.eqb_spec st 0) as [->|Hst]; simpl negb; cbv iota.
  - change (set_ixp _ true) with (env q pf1 w' rl' true true).
    rewrite assert_Ok, bind_Ok by (simpl; rewrite H6, H7, H8, Z.eqb_refl; done).
    eexists 0, _. split; [reflexivity|]. exists w', rl'. split; [done|]. left. done.
  - destruct (rel_ctl q G fl pf1 w' rl' (g_rs G) 0 Hinv Hm' Hrl' out_mine)
      as (st' & w2 & rl2 & -> & Hm2 & Hrl2 & _); [done|by left|by destruct Hfl as [->| ->]|].
    rewrite bind_Ok. eexists st, _. split; [reflexivity|]. exists w2, rl2. split; [done|]. right.
    split_and!; [done|by auto| |done]. unfold unwind_mask. simpl. by rewrite Hmask.
Qed.

(** The state of a session. *)
Lemma get_inv w rl :
  same_mem (pq_sys q) w → riul_inv rl (session q fl xf (g_rs G)) →
  pq_inv (env q pf1 w rl true true) (with_rs G (session q fl xf (g_rs G))).
Proof. intros Hm Hrl. apply (session_inv _ _ fl xf); [exact (po_inv _ _ Hout)|done..]. Qed.

(** Nothing has changed but locks. *)
Lemma out_again w rl :
  same_mem (pq_sys q) w → riul_inv rl (g_rs G) →
  pq_out (env q (pq_pflags q) w rl false false) G.
Proof.
  intros Hm Hrl. destruct Hout as [Hinv Hrs Hlb _ Hsigs]. split; try done.
  assert (G = with_rs G (g_rs G)) as -> by by destruct G. by apply env_inv; [..|apply (pv_mine _ _ Hinv)].
Qed.
End get.

(** The end of a session that was begun for [q0], with the contents of [q]. *)
Section leave.
Context (q0 : pqueue W) (fl : Z) (w1 : W) (rl1 : riul) (rs : list riu).
Context (Hsigs : fIsSet (pq_pflags q0) PQ_SIGSBLOCKED = false) (Hp : pq_ctlp q0 = false ∧ pq_ixp q0 = false).
Context (q : pqueue W) (G : ghost) (Hinv : pq_inv q G).
Context (Hcfg : pq_cfg q = pq_cfg (env q0 (pf_in (pq_pflags q0) fl) w1 rl1 true true)).
Context (Hlb : g_lb G = []) (Hbt : between q0 rs).
Context (Hrs : g_rs G = session q0 fl (Z.lor fl RGN_NOLOCK) rs).

Lemma leave_session cf xf l : session q cf xf l = session q0 cf xf l.
Proof.
  unfold session, ctl_riu_of, ix_riu_of. unfold pq_cfg in Hcfg. simpl in Hcfg.
  replace (pq_datao q) with (pq_datao q0) by congruence. replace (pq_base q) with (pq_base q0) by congruence.
  replace (pq_ixo q) with (pq_ixo q0) by congruence. by replace (pq_ixsz q) with (pq_ixsz q0) by congruence.
Qed.

Lemma leave_spec rfl :
  lock_ok fl (Z.lor fl RGN_NOLOCK) rfl → may q0 rfl →
  ∃ st q', ctl_rel q rfl = Ok (st, q') ∧ pq_out q' (with_rs G rs) ∧ pq_cfg q' = pq_cfg q0 ∧
    pq_sh q' = pq_sh q ∧ same_mem (pq_sys q) (pq_sys q') ∧ (st ≠ 0 → refused W) ∧
    (∃ w rl, q' = env q (pq_pflags q0) w rl false false).
Proof.
  intros Hok Hmay. rewrite <- leave_session in Hrs.
  assert (pq_ctlp q = true ∧ pq_ixp q = true ∧ pq_pflags q = pf_in (pq_pflags q0) fl ∧ pq_ixo q = pq_ixo q0)
    as (Hcp & Hip & Hpf & Hixo) by (unfold pq_cfg in Hcfg; simpl in Hcfg; split_and!; congruence).
  assert (may q rfl) as Hmay'.
  { unfold may, pq_writable in *. by rewrite Hpf, pf_in_readonly. }
  destruct (ctl_rel_spec q G _ _ rs rfl Hinv Hrs Hcp Hip Hok Hmay') as (st & w & rl & Hrun & Hm & Hrl & Hrf).
  rewrite Hpf, (pf_in_out _ _ Hsigs) in Hrun.
  eexists st, _. split; [exact Hrun|]. split; [|split; [|split; [done|split; [done|split; [exact Hrf|eauto]]]]].
  - split; [|by intros r Hr; simpl; rewrite Hixo; apply Hbt|exact Hlb|done|exact Hsigs].
    apply env_inv; [done..|]. intros r Hr. apply (pv_mine _ _ Hinv). rewrite Hrs. unfold session. set_solver.
  - destruct Hp as [Hp1 Hp2]. unfold pq_cfg in *. simpl in *. congruence.
Qed.
End leave.
End session.

(** A session that writes, of a process without other regions. *)
Abbreviation wsession q := (session q RGN_WRITE (Z.lor RGN_WRITE RGN_NOLOCK) []).
