(* ===== verification/PqSeq.v ===== *)
(** * Stepping through the product-queue

    What [pq_sequence()], [pq_sequenceLock()] and [pq_release()] do on a well-formed
    queue: the product that follows the cursor is locked, given to the function of
    the caller and, unless it is to stay locked, released. *)

From stdpp Require Import sorting.
From S2P Require Import Prelude Timestamp NumTheory Fb SkipList TimeQueue RegionList RegionHash.
From S2P Require Import RegionAlloc RegionThms SigIndex Riul Sizes PqShare PqCore Xlen ProdClass PqOps PqCtl.
From S2P Require Import PqRead PqInv PqAccess PqDelete PqRoom PqSession.

(** A session of a reader. *)
Abbreviation rsession q rs := (session q 0 RGN_NOLOCK rs).

Section seq.
Context {W : Type} {Sys : System W} {Laws : SystemLaws W}.
Implicit Types (q : pqueue W) (G : ghost) (w : W).

(** The queue with other fields of a reader. *)
Definition reads q (cur : timestampt) (off lc : Z) : pqueue W :=
  set_locked_count (pq_coffset (set_cursor q cur) off) lc.

Lemma reads_inv q G cur off lc : pq_inv q G → pq_inv (reads q cur off lc) G.
Proof. intros [[[] ? ? ? ? ? ? ? ? ? ? ?] ?]. by do 2 (split; try assumption). Qed.

Lemma reads_out q G cur off lc : pq_out q G → pq_out (reads q cur off lc) G.
Proof. intros []. split; try assumption. by apply reads_inv. Qed.

(** ** The time of an entry *)

Lemma queue_entry q G n : n ∈ g_ns G → tq_entry (pq_tq q) n ∈ pq_queue q G.
Proof. intros Hn. unfold pq_queue, tq_view. apply list_elem_of_fmap. by exists n. Qed.

(** The times of products are proper. *)
Lemma queue_time q G p :
  pq_core q G → p ∈ pq_queue q G → ts_valid p.1 ∧ 0 < us p.1 ∧ TV_CMP_LT p.1 TS_ENDT = true.
Proof.
  intros Hinv Hp. pose proof (pv_times _ _ Hinv p Hp) as Hpos.
  destruct (pv_both _ _ Hinv) as (U & Ht & _). unfold pq_queue, tq_view in Hp.
  apply list_elem_of_fmap in Hp as (n & -> & Hn). by destruct (ti_valid _ _ _ _ _ _ Ht n Hn).
Qed.

Lemma cset_time q tv :
  ts_valid tv → 0 < us tv → TV_CMP_LT tv TS_ENDT = true → pq_cset q tv = Ok (set_cursor q tv).
Proof.
  intros Hv Hpos Hlt. unfold ts_valid, us, TV_CMP_LT, TS_ENDT in *. simpl in *. unfold pq_cset.
  rewrite assert_Ok, bind_Ok by (simpl; lia).
  assert (TV_CMP_EQ tv TS_ENDT = false) as -> by (unfold TV_CMP_EQ; simpl; lia).
  by assert (TV_CMP_EQ tv TS_ZERO = false) as -> by (unfold TV_CMP_EQ; simpl; lia).
Qed.

(** ** The region of a product *)

(** A process that does not have a certain product has not got all. *)
Lemma held_count q G rs n :
  pq_core q G → NoDup (ru_offset <$> rs) → (∀ r, r ∈ rs → r ∈ g_rs G) → between q rs → n ∈ g_us G →
  rg_off (rl_rp (pq_rl q)) n ∉ ru_offset <$> rs → Z.of_nat (length rs) < rl_nelems (pq_rl q).
Proof.
  intros Hinv Hnd Hsub Hbt Hn Hno.
  assert ((rg_off (rl_rp (pq_rl q)) n :: (ru_offset <$> rs)) ⊆+ (rg_off (rl_rp (pq_rl q)) <$> g_us G)) as Hs.
  { apply NoDup_submseteq; [by constructor|]. intros o [->|(r & -> & Hr)%list_elem_of_fmap]%elem_of_cons.
    - by apply list_elem_of_fmap_2.
    - pose proof (Hbt r Hr) as [? ?].
      destruct (pv_mine _ _ Hinv r (Hsub r Hr)) as (_ & _ & [?|[?|[_ Hreg]]]); [lia..|].
      apply (pv_regions_lookup _ _ Hinv) in Hreg as (m & Hm & <- & _). by apply list_elem_of_fmap_2. }
  apply submseteq_length in Hs. simpl in Hs. rewrite !length_fmap in Hs.
  destruct (pv_nelems _ _ Hinv) as [-> _]. lia.
Qed.

(** What this process has, whatever else it locks. *)
Definition held (rs : list riu) : list Z := ru_offset <$> rs.

(** The region of a product. *)
Definition prod_riu q (o e : Z) : riu := Riu o e (pq_base q + o) 0.

Section region.
Context (q : pqueue W) (G : ghost) (cf xf : Z) (rs : list riu) (n : Z).
Context (Hinv : pq_inv q G) (Hrs : g_rs G = session q cf xf rs) (Hbt : between q rs) (Hn : n ∈ g_us G).
Abbreviation o := (rg_off (rl_rp (pq_rl q)) n).
Abbreviation e := (rext (rl_rp (pq_rl q)) n).

Lemma session_nodup : NoDup (held rs).
Proof.
  pose proof (riu_sorted_NoDup _ (ui_sorted _ _ (pv_riul _ _ Hinv))) as Hnd. rewrite Hrs in Hnd.
  unfold session in Hnd. csimpl in Hnd. apply NoDup_cons in Hnd as [_ Hnd].
  rewrite fmap_app in Hnd. by apply NoDup_app in Hnd as (? & _ & _).
Qed.

Lemma session_held r : r ∈ g_rs G → ru_offset r = o → o ∈ held rs.
Proof.
  intros Hr Ho. rewrite Hrs in Hr. unfold session in Hr. rewrite elem_of_cons, elem_of_app, list_elem_of_singleton in Hr.
  destruct (pv_region_range _ _ Hinv n ltac:(set_solver)) as (? & ? & ? & _ & ?).
  destruct Hr as [->|[Hr| ->]]; simpl in Ho; [lia| |lia]. rewrite <- Ho. by apply list_elem_of_fmap_2.
Qed.

Lemma session_count : o ∉ held rs → Z.of_nat (length (g_rs G)) ≤ rl_nelems (pq_rl q) + 1.
Proof.
  intros Hno. assert (Z.of_nat (length rs) < rl_nelems (pq_rl q)) as Hlt.
  { eapply held_count; [exact Hinv|exact session_nodup| |done..].
    intros r Hr. rewrite Hrs. unfold session. set_solver. }
  rewrite Hrs. unfold session. simpl. rewrite length_app. simpl. lia.
Qed.

(** It is between the ends of the session. *)
Lemma session_place rl A B :
  riul_inv rl (A ++ prod_riu q o e :: B) → session q cf xf rs = A ++ B →
  ∃ A' B', A = ctl_riu_of q cf :: A' ∧ B = B' ++ [ix_riu_of q xf] ∧ rs = A' ++ B'.
Proof.
  intros Hi HAB. destruct (pv_region_range _ _ Hinv n ltac:(set_solver)) as (? & ? & ? & _ & ?).
  apply (session_mid q cf xf rs _ A B (ui_sorted _ _ Hi)); [simpl; lia|done].
Qed.

(** The process has the product already: it is refused, or the process is aborted
    when it has every product. *)
Lemma rgn_get_held :
  o ∈ held rs →
  if Z.of_nat (length rs) <? rl_nelems (pq_rl q) then rgn_get q o e 0 = Ok (EACCES, 0, q)
  else rgn_get q o e 0 = Err AssertFail.
Proof.
  intros Ho. apply list_elem_of_fmap in Ho as (r & Hor & Hr).
  assert (length (g_rs G) = length rs + 2)%nat as Hlen.
  { rewrite Hrs. unfold session. simpl. rewrite length_app. simpl. lia. }
  destruct (Z.ltb_spec (Z.of_nat (length rs)) (rl_nelems (pq_rl q))) as [Hlt|Hge].
  - rewrite (rgn_get_unfold _ _ _ _ Hinv (may_read q) Hn) by lia. rewrite Hor.
    rewrite (rgn2_reserve_mine _ _ r _ _ _ (pv_riul _ _ Hinv)); [done|].
    rewrite Hrs. unfold session. set_solver.
  - destruct (pv_slots _ _ Hinv n ltac:(set_solver)) as (_ & Hmin & _).
    destruct (pv_region_range _ _ Hinv n ltac:(set_solver)) as (? & ? & ? & _ & ?).
    pose proof (ui_nelems _ _ (pv_riul _ _ Hinv)) as Hnl. unfold rgn_get.
    rewrite assert_Ok, bind_Ok by lia. rewrite assert_Ok, bind_Ok by lia.
    rewrite (proj2 (Z.leb_gt _ _)) by lia. reflexivity.
Qed.

(** Otherwise its region is reserved, unless the system refuses. *)
Lemma rgn_get_free :
  o ∉ held rs →
  ∃ st w rl, rgn_get q o e 0 = Ok (st, if st =? 0 then pq_base q + o else 0, set_riul (set_sys q w) rl) ∧
    same_mem (pq_sys q) w ∧
    ((st = 0 ∧ ∃ A B, rs = A ++ B ∧ riul_inv rl (session q cf xf (A ++ prod_riu q o e :: B))) ∨
     (st ≠ 0 ∧ refused W ∧ riul_inv rl (g_rs G))).
Proof.
  intros Hno. pose proof (session_count Hno) as Hcnt.
  rewrite (rgn_get_unfold _ _ _ _ Hinv (may_read q) Hn Hcnt).
  assert (∀ r, r ∈ g_rs G → ru_offset r ≠ o) as Hne by (intros r Hr Ho; by apply Hno, (session_held r)).
  pose proof (rgn2_reserve_spec q (g_rs G) o e 0 _ (pv_riul _ _ Hinv) Hne (vp_pos _ _ _ Hinv Hn)
    (pc_page _ (pv_config _ _ Hinv)) (rs_small _ _ Hinv Hcnt) eq_refl (not_index _ _ _ Hinv Hn)) as Hres.
  destruct (Z.eqb_spec (try_lock q o e 0).1 0) as [Hl|Hl].
  - destruct Hres as [(rl & ix & w & A & B & -> & HAB & Hi & Hm)|(w & -> & Hm & Hrf)]; rewrite bind_Ok.
    + exists 0, w, rl. split; [done|]. split; [done|]. left. split; [done|].
      rewrite Hrs in HAB. destruct (session_place rl A B Hi HAB) as (A' & B' & -> & -> & ->). exists A', B'.
      split; [done|]. unfold session. rewrite <- !app_assoc in *. exact Hi.
    + exists ENOMEM, w, (pq_riul q). split; [by destruct q|]. split; [done|]. right.
      split; [done|]. split; [done|]. exact (pv_riul _ _ Hinv).
  - rewrite Hres, bind_Ok. set (st := if _ =? EAGAIN then _ else _).
    assert (st ≠ 0) as Hst by (unfold st; case_match; done).
    exists st, (pq_sys q), (pq_riul q). rewrite set_sys_id, set_riul_id. rewrite (proj2 (Z.eqb_neq _ _) Hst).
    split; [done|]. split; [done|]. right. split; [done|]. split; [by eapply try_lock_refused|exact (pv_riul _ _ Hinv)].
Qed.
End region.

(** ** The end of the use of a region *)

Lemma rgn_rel_mine q G A r B :
  pq_inv q G → g_rs G = A ++ r :: B → 0 < ru_offset r < pq_ixo q →
  ∃ st w rl, rgn_rel q (ru_offset r) 0 = Ok (st, set_sys (set_riul q rl) w) ∧
    riul_inv rl (A ++ B) ∧ same_mem (pq_sys q) w ∧ (st ≠ 0 → refused W).
Proof.
  intros Hinv Hrs Hr. assert (r ∈ g_rs G) as Hin by (rewrite Hrs; set_solver).
  destruct (pv_mine _ _ Hinv r Hin) as (He & Hv & [?|[?|[Hfl Hreg]]]); [lia..|].
  apply (pv_regions_lookup _ _ Hinv) in Hreg as (n & Hn & Ho & Hext).
  destruct (pv_region_range _ _ Hinv n ltac:(set_solver)) as (? & ? & ? & _ & ?).
  rewrite (rgn_rel_unfold _ _ _ (pv_config _ _ Hinv) (may_read q)) by lia.
  pose proof (not_index _ _ _ Hinv Hn) as Hix. rewrite Ho, Hext in Hix.
  pose proof (pv_riul _ _ Hinv) as Hri. rewrite Hrs in Hri.
  destruct (rgn2_release_spec q A r B 0 Hri He Hv ltac:(done) eq_refl Hfl Hix) as (st & rl & w & ? & ? & ? & ?).
  eauto 10.
Qed.

Lemma rgn_rel_out q G A r B :
  pq_out q G → g_rs G = A ++ r :: B →
  ∃ st w rl, let q' := env q (pq_pflags q) w rl false false in
    rgn_rel q (ru_offset r) 0 = Ok (st, q') ∧ pq_out q' (with_rs G (A ++ B)) ∧
    same_mem (pq_sys q) w ∧ (st ≠ 0 → refused W).
Proof.
  intros [Hinv Hbt Hlb [Hc Hi] Hsigs] Hrs.
  destruct (rgn_rel_mine q G A r B Hinv Hrs) as (st & w & rl & Hrun & Hri & Hm & Hrf).
  { apply Hbt. rewrite Hrs. set_solver. }
  exists st, w, rl. assert (set_sys (set_riul q rl) w = env q (pq_pflags q) w rl false false) as Hq.
  { destruct q. simpl in *. by subst. }
  rewrite Hq in Hrun. split; [exact Hrun|]. split; [|done].
  assert (∀ x, x ∈ A ++ B → x ∈ g_rs G) as Hsub by (rewrite Hrs; set_solver).
  split; [|by intros x Hx; apply Hbt, Hsub|exact Hlb|done|exact Hsigs].
  apply env_inv; [done..|]. intros x Hx. by apply (pv_mine _ _ Hinv), Hsub.
Qed.

(** ** The metadata *)

Lemma seq_extent_spec info e :
  info_fits info e → seq_extent e (xlen_prod_info info) info = xlen_prod_i info ∧
    pi_sz info ≤ u32 e - xlen_prod_info info.
Proof.
  intros (Hsz & Hx & He). pose proof (xpad_range (pi_sz info)) as [Hp Hd]. unfold seq_extent, xlen_prod_i.
  assert (u32 e = e) as Hu by (apply u32_small; lia). rewrite Hu.
  assert (rndup32 (pi_sz info) 4 = pi_sz info + xpad (pi_sz info)) as ->.
  { destruct (Hd Hsz) as [k Hk]. unfold rndup32.
    assert (u32 (pi_sz info + 4 - 1) / 4 = k) as Hk4.
    { destruct (decide (pi_sz info + 4 - 1 < 2 ^ 32)).
      - rewrite u32_small by lia. symmetry. apply Z.div_unique with (pi_sz info + 3 - 4 * k); lia.
      - exfalso. lia. }
    rewrite Hk4, <- Hk. apply u32_small. lia. }
  split; [|lia]. u64_norm. case_match; u64_norm; lia.
Qed.

(** A class that is not null, with all of its specifications. *)
Definition class_ok {Re : Regex} (clss : class_ptr) : Prop :=
  match clss with CNull => False | CAll => True | CAt c => class_wf c end.

Lemma class_test_Ok {Re : Regex} clss info : class_ok clss → ∃ m, class_test clss info = Ok m.
Proof.
  destruct clss as [| |c]; [done|by exists true|]. intros Hwf. unfold class_test, prodInClass.
  assert (∃ r, timeInClass (Some c) (pi_arrival info) = Ok r) as [r ->].
  { unfold timeInClass. rewrite (clss_eq_spec c _clss_all Hwf) by (unfold class_wf; simpl; lia).
    rewrite bind_Ok. repeat case_match; eauto. }
  rewrite bind_Ok, prodInClass_loop_spec by done. destruct r; eauto.
Qed.

(** ** The region of an element of the time queue *)

Lemma find_region_queue q G t :
  pq_inv q G → t ∈ g_ns G →
  ∃ te n, rd (tq_tqep (pq_tq q)) t = Ok te ∧ (te_tv te, te_offset te) = tq_entry (pq_tq q) t ∧
    find_region q (te_offset te) = Ok (Some (n, rext (rl_rp (pq_rl q)) n)) ∧ n ∈ g_us G ∧
    rg_off (rl_rp (pq_rl q)) n = te_offset te.
Proof.
  intros Hinv Ht. destruct (rl_find_queue q G Hinv t Ht) as (te & n & Hte & Hn & Hf & Hne & Ho & Htv).
  exists te, n. pose proof (tq_off_at _ _ _ Hte) as Hoff. rewrite Hoff in Ho.
  split; [by apply rd_Ok|]. split; [unfold tq_entry; congruence|]. split; [|done].
  unfold find_region. rewrite Hf, bind_Ok, (proj2 (Z.eqb_neq _ _) Hne).
  destruct (pv_region_at _ _ Hinv n ltac:(set_solver)) as (r & Hr & Hro & Hre).
  destruct (pv_region_range _ _ Hinv n ltac:(set_solver)) as (? & ? & ? & ? & ?).
  rewrite (rd_Ok _ _ _ Hr), bind_Ok, Hro, Hre, Ho, Z.eqb_refl. unfold pq_getDataSize. u64_norm.
  by rewrite (proj2 (Z.ltb_ge _ _)) by lia.
Qed.

(** What can be read there. *)
Lemma queue_product q G t n w :
  pq_inv q G → t ∈ g_ns G → n ∈ g_us G → rg_off (rl_rp (pq_rl q)) n = (tq_entry (pq_tq q) t).2 →
  same_mem (pq_sys q) w →
  ∃ info, let e := rext (rl_rp (pq_rl q)) n in
    pq_regions q G !! (tq_entry (pq_tq q) t).2 = Some e ∧
    xdr_prod_info (pq_base q + (tq_entry (pq_tq q) t).2) e w = Some (info, xlen_prod_info info) ∧
    info_fits info e.
Proof.
  intros Hinv Ht Hn Ho Hm. destruct (pv_prods _ _ Hinv _ (queue_entry q G t Ht)) as (e & info & H1 & H2 & _ & H4).
  exists info. assert (e = rext (rl_rp (pq_rl q)) n) as <-.
  { assert (pq_regions q G !! (tq_entry (pq_tq q) t).2 = Some (rext (rl_rp (pq_rl q)) n)); [|congruence].
    apply (pv_regions_lookup _ _ Hinv). eauto. }
  split; [done|]. by rewrite Hm.
Qed.

(** ** A session of a reader *)

(** Outside of a critical section, with other fields of a reader, other locks and
    the same products. *)
Definition moved q (cur : timestampt) (off lc : Z) q' : Prop :=
  ∃ w rl, same_mem (pq_sys q) w ∧ q' = env (reads q cur off lc) (pq_pflags q) w rl false false.

(** Inside of one. *)
Definition reading q (cur : timestampt) (off lc : Z) w (rl : riul) : pqueue W :=
  env (reads q cur off lc) (pq_pflags q) w rl true true.

Section reading.
Context (q : pqueue W) (G : ghost) (Hout : pq_out q G) (cur : timestampt) (off lc : Z) (w : W) (rl : riul).
Context (Hm : same_mem (pq_sys q) w) (rs : list riu) (Hrl : riul_inv rl (rsession q rs)).
Context (Hmine : ∀ r, r ∈ rs → mine_ok q G r) (Hbt : between q rs).

Lemma reading_inv : pq_inv (reading q cur off lc w rl) (with_rs G (rsession q rs)).
Proof.
  apply env_inv; [by apply reads_inv, (po_inv _ _ Hout)|done|exact Hrl|]. intros r Hr.
  exact (session_mine q G 0 RGN_NOLOCK rs r (po_inv _ _ Hout) Hmine Hr).
Qed.

Lemma reading_leave :
  ∃ st q', ctl_rel (reading q cur off lc w rl) 0 = Ok (st, q') ∧ moved q cur off lc q' ∧
    pq_out q' (with_rs G rs) ∧ (st ≠ 0 → refused W).
Proof.
  destruct (leave_spec (reads q cur off lc) 0 w rl rs (po_sigs _ _ Hout) (po_ptrs _ _ Hout)
    (reading q cur off lc w rl) (with_rs G (rsession q rs)) reading_inv eq_refl (po_lb _ _ Hout) Hbt eq_refl 0)
    as (st & q' & Hrun & Hout' & _ & _ & Hm' & Hrf & w' & rl' & Hq'); [by split_and!; auto|done|].
  exists st, q'. split; [exact Hrun|]. split; [|split; [exact Hout'|exact Hrf]].
  exists w', rl'. split; [|exact Hq']. subst q'. exact (same_mem_trans _ _ _ Hm Hm').
Qed.
End reading.

Lemma prod_riu_mine q G n :
  pq_inv q G → n ∈ g_us G →
  let r := prod_riu q (rg_off (rl_rp (pq_rl q)) n) (rext (rl_rp (pq_rl q)) n) in
  mine_ok q G r ∧ 0 < ru_offset r < pq_ixo q.
Proof.
  intros Hinv Hn. destruct (pv_region_range _ _ Hinv n ltac:(set_solver)) as (? & ? & ? & _ & ?).
  pose proof (pc_base _ (pv_config _ _ Hinv)). pose proof (pv_layout _ _ Hinv) as (? & ? & ?).
  pose proof (pc_page _ (pv_config _ _ Hinv)). unfold mine_ok, TOTAL_SIZE. simpl. split_and!; try lia.
  right; right. split; [done|]. apply (pv_regions_lookup _ _ Hinv). eauto.
Qed.

Lemma with_product_mine q G n L R r :
  pq_out q G → n ∈ g_us G → g_rs G = L ++ R →
  r ∈ L ++ prod_riu q (rg_off (rl_rp (pq_rl q)) n) (rext (rl_rp (pq_rl q)) n) :: R →
  mine_ok q G r ∧ 0 < ru_offset r < pq_ixo q.
Proof.
  intros Hout Hn HG [Hr|[->|Hr]%elem_of_cons]%elem_of_app; [|exact (prod_riu_mine q G n (po_inv _ _ Hout) Hn)|];
    (split; [apply (out_mine q G Hout)|apply (po_rs _ _ Hout)]; rewrite HG; set_solver).
Qed.

(** What [pq_sequence()] can do from the time [c] of the cursor: [keep] says whether
    the product is to stay locked. *)
Inductive seq_result {Re : Regex} {A} q G (c : timestampt) (mt : pq_match) (clss : class_ptr)
    (f : pq_seqfunc (W:=W) (A:=A)) (a : A) (keep : bool) : res (Z * option Z * A * pqueue W) → Prop :=
  | seq_refused cur off q' :
      refused W → (cur = c ∨ abs_find c mt (pq_queue q G) = Some (cur, off)) →
      moved q cur off (pq_locked_count q) q' → pq_out q' G →
      seq_result q G c mt clss f a keep (Ok (PQ_SYSTEM, None, a, q'))
  | seq_abort : refused W → seq_result q G c mt clss f a keep (Err AssertFail)
  | seq_end q' :
      abs_find c mt (pq_queue q G) = None →
      moved q c (pq_cursor_offset q) (pq_locked_count q) q' → pq_out q' G →
      seq_result q G c mt clss f a keep (Ok (PQ_END, None, a, q'))
  | seq_held tv o q' :
      abs_find c mt (pq_queue q G) = Some (tv, o) → o ∈ held (g_rs G) →
      Z.of_nat (length (g_rs G)) < rl_nelems (pq_rl q) →
      moved q tv o (pq_locked_count q) q' → pq_out q' G →
      seq_result q G c mt clss f a keep (Ok (PQ_SYSTEM, None, a, q'))
  | seq_all_held tv o :
      abs_find c mt (pq_queue q G) = Some (tv, o) → o ∈ held (g_rs G) →
      rl_nelems (pq_rl q) ≤ Z.of_nat (length (g_rs G)) →
      seq_result q G c mt clss f a keep (Err AssertFail)
  | seq_skip tv o e info q' :
      abs_find c mt (pq_queue q G) = Some (tv, o) → o ∉ held (g_rs G) → pq_regions q G !! o = Some e →
      xdr_prod_info (pq_base q + o) e (pq_sys q) = Some (info, xlen_prod_info info) →
      class_test clss info = Ok false →
      moved q tv o (pq_locked_count q) q' → pq_out q' G →
      seq_result q G c mt clss f a keep (Ok (0, None, a, q'))
  | seq_call tv o e info w st a' w' q' :
      abs_find c mt (pq_queue q G) = Some (tv, o) → o ∉ held (g_rs G) → pq_regions q G !! o = Some e →
      xdr_prod_info (pq_base q + o) e (pq_sys q) = Some (info, xlen_prod_info info) →
      class_test clss info = Ok true → same_mem (pq_sys q) w →
      f info (pq_base q + o + xlen_prod_info info) (pq_base q + o) (xlen_prod_i info) a w = (st, a', w') →
      keep = false ∨ st ≠ 0 →
      let q1 := reads q tv o (pq_locked_count q) in
      let q2 := if st =? 0 then q1 else seq_backup q1 mt o in
      moved q (pq_cursor q2) (pq_cursor_offset q2) (pq_locked_count q) q' → pq_out q' G →
      seq_result q G c mt clss f a keep (Ok (st, if keep then Some o else None, a', q'))
  | seq_lock tv o e info w a' w' A B q' :
      abs_find c mt (pq_queue q G) = Some (tv, o) → o ∉ held (g_rs G) → pq_regions q G !! o = Some e →
      xdr_prod_info (pq_base q + o) e (pq_sys q) = Some (info, xlen_prod_info info) →
      class_test clss info = Ok true → same_mem (pq_sys q) w →
      f info (pq_base q + o + xlen_prod_info info) (pq_base q + o) (xlen_prod_i info) a w = (0, a', w') →
      keep = true → g_rs G = A ++ B →
      moved q tv o (pq_locked_count q + 1) q' → pq_out q' (with_rs G (A ++ prod_riu q o e :: B)) →
      seq_result q G c mt clss f a keep (Ok (0, Some o, a', q')).

Lemma with_rs_id G l : g_rs G = l → with_rs G l = G.
Proof. intros <-. by destruct G. Qed.

(** The caller changes the state of the system but for the products. *)
Lemma moved_sys q G cur off lc q' w' :
  moved q cur off lc q' → pq_out q' G → same_mem (pq_sys q') w' →
  moved q cur off lc (set_sys q' w') ∧ pq_out (set_sys q' w') G.
Proof.
  intros (w & rl & Hm & ->) Hout Hm'. split.
  - exists w', rl. split; [|done]. exact (same_mem_trans _ _ _ Hm Hm').
  - exact (out_again _ _ Hout w' rl Hm' (pv_riul _ _ (po_inv _ _ Hout))).
Qed.

(** The product is given back. *)
Lemma moved_release q G cur off lc q3 A r B :
  g_rs G = A ++ B → moved q cur off (lc + 1) q3 → pq_out q3 (with_rs G (A ++ r :: B)) →
  ∃ st q4, rgn_rel q3 (ru_offset r) 0 = Ok (st, q4) ∧ (st ≠ 0 → refused W) ∧
    moved q cur off lc (set_locked_count q4 (pq_locked_count q4 - 1)) ∧
    pq_out (set_locked_count q4 (pq_locked_count q4 - 1)) G.
Proof.
  intros HG (w & rl & Hm & ->) Hout.
  destruct (rgn_rel_out _ _ A r B Hout eq_refl) as (st & w' & rl' & Hrun & Hout' & Hm' & Hrf).
  exists st. eexists. split; [exact Hrun|]. split; [exact Hrf|]. split.
  - exists w', rl'. split; [exact (same_mem_trans _ _ _ Hm Hm')|].
    assert (reads q cur off lc = reads q cur off (lc + 1 - 1)) as -> by (f_equal; lia). reflexivity.
  - change (with_rs (with_rs G _) (A ++ B)) with (with_rs G (A ++ B)) in Hout'.
    rewrite (with_rs_id G _ HG) in Hout'.
    exact (reads_out _ G cur off (lc + 1 - 1) Hout').
Qed.

Section product.
Context {Re : Regex} {A : Type} (q : pqueue W) (G : ghost) (Hout : pq_out q G) (c : timestampt).
Context (mt : pq_match) (clss : class_ptr) (f : pq_seqfunc (W:=W) (A:=A)) (a : A) (keep : bool).
Context (Hclss : class_ok clss) (Hcalm : ∀ info d p n a w, same_mem w (f info d p n a w).2).
Context (tv : timestampt) (o e : Z) (info : prod_info).
Context (Hfound : abs_find c mt (pq_queue q G) = Some (tv, o)) (Hreg : pq_regions q G !! o = Some e).
Context (Hinfo : xdr_prod_info (pq_base q + o) e (pq_sys q) = Some (info, xlen_prod_info info)).
Context (Hfits : info_fits info e).
Abbreviation lc := (pq_locked_count q).
Abbreviation result := (seq_result q G c mt clss f a keep).

(** After the control block has been released. *)
Lemma seq_use q3 L R :
  o ∉ held (g_rs G) → g_rs G = L ++ R → moved q tv o (lc + 1) q3 → pq_out q3 (with_rs G (L ++ prod_riu q o e :: R)) →
  result (let! '(status, matched, a, q) := seq_process q3 mt clss f a o (pq_base q + o) e in
          let off_out := if keep && matched then Some o else None in
          if negb keep || negb (status =? 0) || negb matched then
            let! '(_, q) := rgn_rel q o 0 in
            Ok (status, off_out, a, set_locked_count q (pq_locked_count q - 1))
          else Ok (status, off_out, a, q)).
Proof.
  intros Hfree HG Hmv Hout3. pose proof Hmv as (w3 & rl3 & Hm3 & Hq3). destruct (seq_extent_spec _ _ Hfits) as [Hext Hle].
  unfold seq_process. rewrite Hq3 at 1. change (pq_sys (env _ _ w3 _ _ _)) with w3. rewrite Hm3, Hinfo.
  rewrite assert_Ok, bind_Ok by lia. destruct (class_test_Ok clss info Hclss) as [m Hcl]. rewrite Hcl, bind_Ok.
  destruct m; cycle 1.
  { rewrite bind_Ok. rewrite !orb_true_r, andb_false_r.
    destruct (moved_release _ _ _ _ _ _ _ _ _ HG Hmv Hout3) as (st & q4 & Hrel & _ & Hmv4 & Hout4).
    change (ru_offset (prod_riu q o e)) with o in Hrel. rewrite Hrel, bind_Ok. by eapply seq_skip. }
  rewrite Hext. assert (pq_sys q3 = w3) as Hw by by rewrite Hq3. rewrite Hw.
  pose proof (Hcalm info (pq_base q + o + xlen_prod_info info) (pq_base q + o) (xlen_prod_i info) a w3) as Hm4.
  destruct (f _ _ _ _ _ _) as [[st a'] w'] eqn:Hf. simpl in Hm4. rewrite <- Hw in Hm4.
  destruct (moved_sys _ _ _ _ _ _ _ Hmv Hout3 Hm4) as [Hmv4 Hout4]. rewrite bind_Ok, andb_true_r, !orb_false_r.
  destruct (Z.eqb_spec st 0) as [->|Hst]; simpl negb; cbv iota; rewrite ?orb_false_r, ?orb_true_r.
  - destruct keep eqn:Hk; simpl negb; cbv iota.
    + eapply (seq_lock _ _ _ _ _ _ _ _ tv o e info w3 a' w' L R); try done.
    + destruct (moved_release _ _ _ _ _ _ _ _ _ HG Hmv4 Hout4) as (st & q5 & Hrel & _ & Hmv5 & Hout5).
      change (ru_offset (prod_riu q o e)) with o in Hrel. rewrite Hrel, bind_Ok.
      eapply (seq_call _ _ _ _ _ _ _ false tv o e info w3 0 a' w'); try done. by left.
  - set (q1 := seq_backup (reads q tv o lc) mt o).
    assert (moved q (pq_cursor q1) (pq_cursor_offset q1) (lc + 1) (seq_backup (set_sys q3 w') mt o) ∧
            pq_out (seq_backup (set_sys q3 w') mt o) (with_rs G (L ++ prod_riu q o e :: R))) as [Hmv5 Hout5].
    { split.
      - exists w', rl3. split; [|by rewrite Hq3; destruct mt].
        rewrite Hw in Hm4. exact (same_mem_trans _ _ _ Hm3 Hm4).
      - rewrite Hq3 in *. by destruct mt; [apply (reads_out _ _ tv (o + 1) (lc + 1) Hout4)|..
          |apply (reads_out _ _ (timestamp_decr tv) OFF_NONE (lc + 1) Hout4)]. }
    destruct (moved_release _ _ _ _ _ _ _ _ _ HG Hmv5 Hout5) as (st' & q5 & Hrel & _ & Hmv6 & Hout6).
    change (ru_offset (prod_riu q o e)) with o in Hrel. rewrite Hrel, bind_Ok.
    eapply (seq_call _ _ _ _ _ _ _ keep tv o e info w3 st a' w'); try done; [by right|].
    simpl. by rewrite (proj2 (Z.eqb_neq _ _) Hst).
Qed.

(** With the control block locked, up to its release. *)
Section locked.
Context (w : W) (rl : riul) (n : Z) (Hm : same_mem (pq_sys q) w) (Hrl : riul_inv rl (rsession q (g_rs G))).
Context (Hn : n ∈ g_us G) (Ho : rg_off (rl_rp (pq_rl q)) n = o) (He : rext (rl_rp (pq_rl q)) n = e).
Abbreviation qs := (reading q tv o lc w rl).
Abbreviation Gs := (with_rs G (rsession q (g_rs G))).

(** The rest of [seq_product()] and of [pq_sequenceHelper()]. *)
Definition seq_rest (r : Z * Z * pqueue W) : res (Z * option Z * A * pqueue W) :=
  let! '(status, ctlLocked, off_out, a, q) :=
    let '(status, vp, q) := r in
    if negb (status =? 0) then Ok (PQ_SYSTEM, true, None, a, q)
    else
      let q := set_locked_count q (pq_locked_count q + 1) in
      assert! negb (vp =? 0) in
      let! '(status, q) := ctl_rel q 0 in
      assert! status =? 0 in
      let! '(status, matched, a, q) := seq_process q mt clss f a o vp e in
      let off_out := if keep && matched then Some o else None in
      if negb keep || negb (status =? 0) || negb matched then
        let! '(_, q) := rgn_rel q o 0 in
        Ok (status, false, off_out, a, set_locked_count q (pq_locked_count q - 1))
      else Ok (status, false, off_out, a, q) in
  if ctlLocked then let! '(_, q) := ctl_rel q 0 in Ok (status, off_out, a, q)
  else Ok (status, off_out, a, q).

Lemma locked_inv : pq_inv qs Gs.
Proof. exact (reading_inv q G Hout tv o lc w rl Hm _ Hrl (out_mine q G Hout)). Qed.

(** The session ends with nothing else reserved. *)
Lemma locked_leave w1 rl1 :
  same_mem (pq_sys q) w1 → riul_inv rl1 (rsession q (g_rs G)) →
  ∃ st q', ctl_rel (reading q tv o lc w1 rl1) 0 = Ok (st, q') ∧ moved q tv o lc q' ∧ pq_out q' G.
Proof.
  intros Hm1 Hrl1.
  destruct (reading_leave q G Hout tv o lc w1 rl1 Hm1 _ Hrl1 (out_mine q G Hout) (po_rs _ _ Hout))
    as (st & q' & Hrel & Hmv & Hout' & _). rewrite (with_rs_id G _ eq_refl) in Hout'. eauto 10.
Qed.

(** The region is reserved. *)
Lemma locked_granted w1 rl1 L R :
  o ∉ held (g_rs G) → same_mem (pq_sys q) w1 → g_rs G = L ++ R → riul_inv rl1 (rsession q (L ++ prod_riu q o e :: R)) →
  result (seq_rest (0, pq_base q + o, reading q tv o lc w1 rl1)).
Proof.
  intros Hfree Hm1 HG Hrl1.
  destruct (reading_leave q G Hout tv o (lc + 1) w1 rl1 Hm1 _ Hrl1) as (st & q3 & Hrel & Hmv & Hout3 & Hrf);
    [by intros r Hr; apply (with_product_mine q G n L R r Hout Hn HG); rewrite Ho, He..|].
  pose proof (vp_pos _ _ _ (po_inv _ _ Hout) Hn) as Hvp. rewrite Ho in Hvp.
  unfold seq_rest. simpl (negb (0 =? 0)). cbv iota zeta. rewrite assert_Ok, bind_Ok by lia.
  change (set_locked_count (reading q tv o lc w1 rl1) _) with (reading q tv o (lc + 1) w1 rl1).
  rewrite Hrel, bind_Ok. destruct (Z.eqb_spec st 0) as [->|Hst]; [|by apply seq_abort, Hrf].
  rewrite assert_Ok, bind_Ok by done. pose proof (seq_use q3 L R Hfree HG Hmv Hout3) as Huse.
  revert Huse. destruct (seq_process _ _ _ _ _ _ _ _) as [[[[st4 m] a4] q4]|]; [|done].
  rewrite !bind_Ok. destruct (negb keep || _ || _); [|done]. by destruct (rgn_rel q4 o 0) as [[st5 q5]|].
Qed.

Lemma seq_product_spec :
  find_region q o = Ok (Some (n, e)) →
  result (let! '(status, ctlLocked, off_out, a, q) := seq_product qs mt clss f a keep o in
          if ctlLocked then let! '(_, q) := ctl_rel q 0 in Ok (status, off_out, a, q)
          else Ok (status, off_out, a, q)).
Proof.
  intros Hfr. unfold seq_product. change (find_region qs o) with (find_region q o). rewrite Hfr, bind_Ok.
  assert (result (let! r := rgn_get qs o e 0 in seq_rest r)) as Hgoal; cycle 1.
  { destruct (rgn_get qs o e 0) as [[[st vp] q1]|]; exact Hgoal. }
  destruct (decide (o ∈ held (g_rs G))) as [Hh|Hh].
  - pose proof (rgn_get_held qs Gs 0 RGN_NOLOCK (g_rs G) n locked_inv eq_refl (po_rs _ _ Hout) Hn) as Hget.
    simpl in Hget. rewrite Ho, He in Hget. specialize (Hget Hh).
    destruct (Z.ltb_spec (Z.of_nat (length (g_rs G))) (rl_nelems (pq_rl q))) as [Hlt|Hge]; rewrite Hget.
    + destruct (locked_leave w rl Hm Hrl) as (st & q' & Hrel & Hmv & Hout').
      rewrite bind_Ok. unfold seq_rest. simpl negb. cbv iota. rewrite bind_Ok, Hrel, bind_Ok. by eapply seq_held.
    + by eapply seq_all_held.
  - destruct (rgn_get_free qs Gs 0 RGN_NOLOCK (g_rs G) n locked_inv eq_refl (po_rs _ _ Hout) Hn)
      as (st1 & w1 & rl1 & Hget & Hm1 & Hcase); [simpl; by rewrite Ho|].
    simpl rl_rp in Hget, Hcase. rewrite Ho, He in Hget, Hcase. rewrite Hget, bind_Ok.
    pose proof (same_mem_trans _ _ _ Hm Hm1) as Hm2.
    change (set_riul (set_sys qs w1) rl1) with (reading q tv o lc w1 rl1).
    destruct Hcase as [(-> & L & R & HG & Hrl1)|(Hst & Hrf1 & Hrl1)].
    + exact (locked_granted w1 rl1 L R Hh Hm2 HG Hrl1).
    + unfold seq_rest. rewrite (proj2 (Z.eqb_neq _ _) Hst). simpl negb. cbv iota. rewrite !bind_Ok.
      destruct (locked_leave w1 rl1 Hm2 Hrl1) as (st & q' & Hrel & Hmv & Hout').
      rewrite Hrel, bind_Ok. eapply (seq_refused _ _ _ _ _ _ _ _ tv o); eauto.
Qed.
End locked.
End product.

(** ** [pq_sequence()] *)

(** The time from which the search goes. *)
Definition seq_cursor q (mt : pq_match) : timestampt :=
  if tvIsNone (pq_cursor q) then match mt with TV_LT => TS_ENDT | _ => TS_ZERO end else pq_cursor q.

(** A cursor that is not after the end of time; to look for a product at it, it must
    be set, and not to the end of time. *)
Definition cursor_ok q (mt : pq_match) : Prop :=
  TV_CMP_LT TS_ENDT (pq_cursor q) = false ∧ (mt = TV_EQ → pq_cursor q ≠ TS_NONE ∧ pq_cursor q ≠ TS_ENDT).

Lemma seq_cursor_ok q mt :
  cursor_ok q mt →
  init_cursor q mt = Ok (set_cursor q (seq_cursor q mt)) ∧
  TV_CMP_LT TS_ENDT (seq_cursor q mt) = false ∧ (mt = TV_EQ → seq_cursor q mt ≠ TS_ENDT).
Proof.
  intros [Hle Heq]. unfold init_cursor, seq_cursor, tvIsNone.
  destruct (TV_CMP_EQ (pq_cursor q) TS_NONE) eqn:Hn.
  - apply TV_CMP_EQ_eq in Hn. destruct mt; [done| |done]. by destruct (Heq eq_refl).
  - split; [by destruct q|]. split; [done|]. intros ->. by apply Heq.
Qed.

(** A session of a reader, or its refusal. *)
Lemma reading_start q G cur off lc :
  pq_out q G →
  ∃ st q', ctl_get (reads q cur off lc) 0 = Ok (st, q') ∧
    ((st = 0 ∧ ∃ w rl, q' = reading q cur off lc w rl ∧ same_mem (pq_sys q) w ∧
        riul_inv rl (rsession q (g_rs G))) ∨
     (st ≠ 0 ∧ refused W ∧ moved q cur off lc q' ∧ pq_out q' G)).
Proof.
  intros Hout. pose proof (reads_out q G cur off lc Hout) as Hout1.
  destruct (ctl_get_spec _ G 0 Hout1 (may_read _) (or_introl eq_refl)) as (st & q' & Hrun & w & rl & Hm & Hcase).
  exists st, q'. split; [exact Hrun|]. destruct Hcase as [(-> & -> & Hrl)|(Hst & Hrf & -> & Hrl)].
  - left. split; [done|]. by exists w, rl.
  - right. split; [done|]. split; [done|]. split; [by exists w, rl|]. exact (out_again _ _ Hout1 w rl Hm Hrl).
Qed.

Lemma pq_sequenceHelper_spec {Re : Regex} {A} q G mt clss (f : pq_seqfunc (W:=W) (A:=A)) (a : A) keep :
  pq_out q G → cursor_ok q mt → class_ok clss → (∀ info d p n a w, same_mem w (f info d p n a w).2) →
  seq_result q G (seq_cursor q mt) mt clss f a keep (pq_sequenceHelper q mt clss (Some f) a keep).
Proof.
  intros Hout (Hini & Hle & Heq)%seq_cursor_ok Hclss Hcalm. set (c := seq_cursor q mt) in *.
  unfold pq_sequenceHelper. rewrite Hini, bind_Ok.
  change (set_cursor q c) with (reads q c (pq_cursor_offset q) (pq_locked_count q)).
  destruct (reading_start q G c (pq_cursor_offset q) (pq_locked_count q) Hout)
    as (st & q' & -> & [(-> & w & rl & -> & Hm & Hrl)|(Hst & Hrf & Hmv & Hout')]); rewrite bind_Ok; cycle 1.
  { rewrite (proj2 (Z.eqb_neq _ _) Hst). simpl negb. cbv iota. by eapply seq_refused; eauto. }
  simpl negb. cbv iota. pose proof (po_inv _ _ Hout) as Hinv.
  change (tqe_find _ _ _ mt) with (tqe_find (pq_tq q) (pq_fb q) c mt).
  rewrite (both_tqe_find _ _ _ _ _ _ _ _ _ _ _ _ _ (pv_both _ _ Hinv) c mt Hle Heq), bind_Ok.
  pose proof (both_found _ _ _ _ _ _ _ _ _ _ _ _ _ (pv_both _ _ Hinv) c mt) as Hfound.
  destruct (tq_found _ _ _ _) as [t|] eqn:Ht; simpl in Hfound; cycle 1.
  { rewrite bind_Ok. destruct (reading_leave q G Hout c (pq_cursor_offset q) (pq_locked_count q) w rl Hm _ Hrl
      (out_mine q G Hout) (po_rs _ _ Hout)) as (st & q' & -> & Hmv & Hout' & _).
    rewrite (with_rs_id G _ eq_refl) in Hout'. rewrite bind_Ok. by apply seq_end. }
  pose proof (both_found_in _ _ _ _ _ _ _ _ _ _ _ _ _ (pv_both _ _ Hinv) c mt t Ht) as Hin.
  destruct (find_region_queue q G t Hinv Hin) as (te & n & Hrd & Hte & Hfr & Hn & Ho).
  change (rd _ t) with (rd (tq_tqep (pq_tq q)) t). rewrite Hrd, bind_Ok.
  destruct (queue_time q G _ Hinv (queue_entry q G t Hin)) as (Hv & Hpos & Hlt). rewrite <- Hte in Hv, Hpos, Hlt.
  simpl in Hv, Hpos, Hlt.
  rewrite (cset_time _ _ Hv Hpos Hlt), bind_Ok.
  destruct (queue_product q G t n (pq_sys q) Hinv Hin Hn) as (info & Hreg & Hinfo & Hfits);
    [by rewrite <- Hte|done|]. rewrite <- Hte in *. simpl in Hreg, Hinfo, Hfound.
  destruct clss as [| |cl]; [done|..];
  apply (seq_product_spec q G Hout c mt _ f a keep Hclss Hcalm (te_tv te) (te_offset te) _ info (eq_sym Hfound)
    Hreg Hinfo Hfits w rl n Hm Hrl Hn Ho eq_refl Hfr).
Qed.

(** The outcomes for a product that the process has, when the system refuses nothing. *)
Lemma seq_held_result {Re : Regex} {A} q G mt clss (f : pq_seqfunc (W:=W) (A:=A)) (a : A) keep tv o r :
  seq_result q G (seq_cursor q mt) mt clss f a keep r → ¬ refused W →
  abs_find (seq_cursor q mt) mt (pq_queue q G) = Some (tv, o) → o ∈ held (g_rs G) →
  r = Err AssertFail ∨
  ∃ q', r = Ok (PQ_SYSTEM, None, a, q') ∧ Z.of_nat (length (g_rs G)) < rl_nelems (pq_rl q).
Proof.
  intros Hres Hrf Hf Hh. destruct Hres as [| | | | |tv1 o1 ? ? ? Hf1 Hh1|tv1 o1 ? ? ? ? ? ? ? Hf1 Hh1
    |tv1 o1 ? ? ? ? ? ? ? ? Hf1 Hh1]; try done; try (by eauto 10); try congruence.
  all: exfalso; apply Hh1; congruence.
Qed.
End seq.
