(* ===== verification/PqSearch.v ===== *)
(** * Finding products

    The whole queue is visited by repeated calls of [pq_sequence()]; a product is
    found by its signature whatever the time at which the search begins. *)

From stdpp Require Import sorting.
From S2P Require Import Prelude Timestamp NumTheory Fb SkipList TimeQueue RegionList RegionHash.
From S2P Require Import RegionAlloc RegionThms SigIndex Riul Sizes PqShare PqCore Xlen ProdClass PqOps PqCtl.
From S2P Require Import PqRead PqInv PqAccess PqDelete PqRoom PqSession PqSeq.

(** ** The order of the queue *)

Definition entry_lt (p p' : timestampt * Z) : Prop := TV_CMP_LT p.1 p'.1 = true.

Lemma abs_at X p Y :
  StronglySorted entry_lt (X ++ p :: Y) →
  abs_before p.1 (X ++ p :: Y) = X ∧ abs_after p.1 (X ++ p :: Y) = Y ∧
  filter (λ x, x.1 = p.1) (X ++ p :: Y) = [p].
Proof.
  intros Hs. assert (∀ x, x ∈ X → TV_CMP_LT x.1 p.1 = true) as HX.
  { intros x Hx. apply (StronglySorted_app_1_elem_of _ _ _ x p Hs Hx). constructor. }
  assert (∀ y, y ∈ Y → TV_CMP_LT p.1 y.1 = true) as HY.
  { apply StronglySorted_app_1_r, StronglySorted_inv in Hs as [_ Hf]. by rewrite Forall_forall in Hf. }
  assert (∀ x, x ∈ X → ¬ TV_CMP_LT p.1 x.1 = true) as HX'.
  { intros x Hx. by rewrite (ltb_asym TV_CMP_LT _ _ (HX x Hx)). }
  assert (∀ y, y ∈ Y → ¬ TV_CMP_LT y.1 p.1 = true) as HY'.
  { intros y Hy. by rewrite (ltb_asym TV_CMP_LT _ _ (HY y Hy)). }
  assert (¬ TV_CMP_LT p.1 p.1 = true) as Hp by by rewrite ltb_irrefl.
  unfold abs_before, abs_after. rewrite !filter_app, !filter_cons, !decide_False, decide_True by done.
  rewrite (filter_all _ _ HX), (filter_none _ _ HY'), (filter_none _ _ HX'), (filter_all _ _ HY), app_nil_r.
  rewrite !filter_none; [done|..].
  - intros y Hy He. specialize (HY y Hy). by rewrite He in HY.
  - intros x Hx He. specialize (HX x Hx). by rewrite He in HX.
Qed.

Section search.
Context {W : Type} {Sys : System W} {Laws : SystemLaws W}.
Implicit Types (q : pqueue W) (G : ghost).

Lemma queue_sorted q G : pq_core q G → StronglySorted entry_lt (pq_queue q G).
Proof.
  intros Hinv. destruct (pv_both _ _ Hinv) as (U & Ht & _). pose proof (ti_sorted _ _ _ _ _ _ Ht) as Hs.
  clear Ht. unfold pq_queue, tq_view. induction Hs as [|n l Hs IH Hf]; [constructor|].
  csimpl. constructor; [exact IH|]. rewrite Forall_fmap. eapply Forall_impl; [exact Hf|done].
Qed.

Lemma queue_ends q G :
  pq_core q G → abs_after TS_ZERO (pq_queue q G) = pq_queue q G ∧
    abs_before TS_ENDT (pq_queue q G) = pq_queue q G.
Proof.
  intros Hinv. split; apply filter_all; intros p Hp; destruct (queue_time _ _ _ Hinv Hp) as (Hv & Hpos & Hlt); [|done].
  apply TV_CMP_LT_us; [done..|]. exact Hpos.
Qed.

(** ** Visiting the queue *)

(** What can be read at an offset. *)
Definition prod_at q G (o : Z) (info : prod_info) : Prop :=
  ∃ e, pq_regions q G !! o = Some e ∧
    xdr_prod_info (pq_base q + o) e (pq_sys q) = Some (info, xlen_prod_info info).

(** Only locks and the fields of a reader differ. *)
Definition kept q q' : Prop :=
  pq_sh q' = pq_sh q ∧ pq_base q' = pq_base q ∧ same_mem (pq_sys q) (pq_sys q').

Lemma kept_refl q : kept q q.
Proof. done. Qed.

Lemma kept_trans q1 q2 q3 : kept q1 q2 → kept q2 q3 → kept q1 q3.
Proof. intros (? & ? & ?) (? & ? & ?). split; [congruence|]. split; [congruence|]. by eapply same_mem_trans. Qed.

Lemma moved_kept q cur off lc q' : moved q cur off lc q' → kept q q'.
Proof. by intros (w & rl & Hm & ->). Qed.

Lemma kept_at q q' G o info : kept q q' → prod_at q G o info ↔ prod_at q' G o info.
Proof.
  intros (Hs & Hb & Hm). unfold prod_at, pq_regions. rewrite Hs, Hb.
  split; intros (e & H1 & H2); exists e; (split; [done|]); by rewrite Hm in *.
Qed.

Section visit.
Context {Re : Regex} (clss : class_ptr) (Hclss : class_ok clss).

(** The metadata of the products of a class, in the order of the entries. *)
Inductive visits q G : list (timestampt * Z) → list prod_info → Prop :=
  | visits_nil : visits q G [] []
  | visits_cons tv o info (m : bool) Y l :
      prod_at q G o info → class_test clss info = Ok m → visits q G Y l →
      visits q G ((tv, o) :: Y) (if m then info :: l else l).

Lemma visits_kept q q' G Y l : kept q q' → visits q' G Y l → visits q G Y l.
Proof.
  intros Hk. induction 1 as [|tv o info m Y l Hat Hcl _ IH]; constructor; [|done|done]. by apply (kept_at _ _ _ _ _ Hk).
Qed.

(** A caller that notes what it gets, and its loop. *)
Definition recorder : pq_seqfunc (W:=W) (A:=list prod_info) := λ info _ _ _ a w, (0, a ++ [info], w).

Fixpoint seq_all (fuel : nat) q (mt : pq_match) (a : list prod_info) : res (list prod_info * pqueue W) :=
  match fuel with
  | O => Err OutOfFuel
  | S fuel =>
      let! '(status, a, q) := pq_sequence q mt clss (Some recorder) a in
      if status =? PQ_END then Ok (a, q)
      else if status =? 0 then seq_all fuel q mt a
      else Err AssertFail
  end.

Lemma seq_all_S fuel q mt a :
  seq_all (S fuel) q mt a =
    let! '(status, a, q) := pq_sequence q mt clss (Some recorder) a in
    if status =? PQ_END then Ok (a, q)
    else if status =? 0 then seq_all fuel q mt a
    else Err AssertFail.
Proof. done. Qed.

(** One call when the system refuses nothing and the process has no product. *)
Lemma seq_step_idle {A} q G mt (f : pq_seqfunc (W:=W) (A:=A)) a :
  pq_idle q G → ¬ refused W → cursor_ok q mt → (∀ info d p n a w, same_mem w (f info d p n a w).2) →
  ∃ q', pq_idle q' G ∧ kept q q' ∧
    match abs_find (seq_cursor q mt) mt (pq_queue q G) with
    | None => pq_sequence q mt clss (Some f) a = Ok (PQ_END, a, q')
    | Some (tv, o) => ∃ info m, prod_at q G o info ∧ class_test clss info = Ok m ∧
        if (m : bool) then
          ∃ d p n w, let '(st, a', _) := f info d p n a w in
            pq_sequence q mt clss (Some f) a = Ok (st, a', q') ∧ (st = 0 → pq_cursor q' = tv)
        else pq_sequence q mt clss (Some f) a = Ok (0, a, q') ∧ pq_cursor q' = tv
    end.
Proof.
  intros [Hout Hrs] Hrf Hcur Hcalm. unfold pq_sequence.
  pose proof (pq_sequenceHelper_spec q G mt clss f a false Hout Hcur Hclss Hcalm) as Hres.
  assert (∀ q', pq_out q' G → pq_idle q' G) as Hidle by (by intros; split).
  destruct Hres as [| |q' Hf Hmv Ho|tv o q' Hf Hh|tv o Hf Hh|tv o e info q' Hf Hfree Hreg Hinfo Hcl Hmv Ho
    |tv o e info w st a' w' q' Hf Hfree Hreg Hinfo Hcl Hm Hrun Hk q1 q2 Hmv Ho|]; try done;
    try (by rewrite Hrs in Hh; apply elem_of_nil in Hh); rewrite Hf.
  - exists q'. split; [by apply Hidle|]. split; [by eapply moved_kept|done].
  - exists q'. split; [by apply Hidle|]. split; [by eapply moved_kept|]. exists info, false.
    split; [by exists e|]. split; [done|]. split; [done|]. by destruct Hmv as (w & rl & _ & ->).
  - exists q'. split; [by apply Hidle|]. split; [by eapply moved_kept|].
    exists info, true. split; [by exists e|]. split; [done|]. eexists _, _, _, w. rewrite Hrun. split; [done|].
    intros ->. by destruct Hmv as (w1 & rl & _ & ->).
Qed.

Lemma seq_step_granted q G mt a :
  pq_idle q G → ¬ refused W → cursor_ok q mt →
  ∃ q', pq_idle q' G ∧ kept q q' ∧
    match abs_find (seq_cursor q mt) mt (pq_queue q G) with
    | None => pq_sequence q mt clss (Some recorder) a = Ok (PQ_END, a, q')
    | Some (tv, o) => ∃ info m, prod_at q G o info ∧ class_test clss info = Ok m ∧ pq_cursor q' = tv ∧
        pq_sequence q mt clss (Some recorder) a = Ok (0, if m then a ++ [info] else a, q')
    end.
Proof.
  intros Hid Hrf Hcur. destruct (seq_step_idle q G mt recorder a Hid Hrf Hcur ltac:(done)) as (q' & Hid' & Hk & Hstep).
  exists q'. split; [done|]. split; [done|]. case_match; [|done]. case_match.
  destruct Hstep as (info & m & Hat & Hcl & Hstep). exists info, m. split; [done|]. split; [done|].
  destruct m; [destruct Hstep as (d & vp & n & w & Hrun & Hc)|destruct Hstep as [Hrun Hc]]; naive_solver.
Qed.

(** The entries that remain: [Y], from the time [c] on. *)
Definition remain (mt : pq_match) (c : timestampt) (Q Y : list (timestampt * Z)) : Prop :=
  match mt with
  | TV_GT => abs_after c Q = Y ∧ ∃ X, Q = X ++ Y
  | TV_LT => abs_before c Q = rev Y ∧ ∃ X, Q = rev Y ++ X
  | TV_EQ => False
  end.

Lemma remain_find mt c Q Y : remain mt c Q Y → abs_find c mt Q = head Y.
Proof.
  destruct mt; simpl; [intros [-> _]|done|by intros [-> _]].
  destruct Y; [done|]. simpl. by rewrite last_snoc.
Qed.

Lemma remain_next mt c Q p Y : StronglySorted entry_lt Q → remain mt c Q (p :: Y) → remain mt p.1 Q Y.
Proof.
  intros Hs. destruct mt; simpl; [intros [_ [X ->]]|done|intros [_ [X ->]]].
  - rewrite <- app_assoc in *. simpl in *. destruct (abs_at _ _ _ Hs) as (H1 & _). eauto.
  - destruct (abs_at _ _ _ Hs) as (_ & H1 & _). split; [done|]. exists (X ++ [p]). by rewrite <- app_assoc.
Qed.

Lemma seq_all_spec G mt Y : ∀ q a,
  pq_idle q G → ¬ refused W → cursor_ok q mt → remain mt (seq_cursor q mt) (pq_queue q G) Y →
  ∃ l q', seq_all (S (length Y)) q mt a = Ok (a ++ l, q') ∧ visits q G Y l ∧ pq_idle q' G ∧ kept q q'.
Proof.
  induction Y as [|[tv o] Y IH]; intros q a Hid Hrf Hcur Hrem; rewrite seq_all_S;
    destruct (seq_step_granted q G mt a Hid Hrf Hcur) as (q' & Hid' & Hk & Hstep);
    rewrite (remain_find _ _ _ _ Hrem) in Hstep; simpl in Hstep.
  - rewrite Hstep, bind_Ok. exists [], q'. rewrite app_nil_r. split; [done|]. split; [constructor|done].
  - destruct Hstep as (info & m & Hat & Hcl & Hcv & ->). rewrite bind_Ok. simpl (0 =? _). cbv iota.
    assert (pq_queue q' G = pq_queue q G) as Hq by (unfold pq_queue; by destruct Hk as [-> _]).
    assert ((tv, o) ∈ pq_queue q G) as Hin.
    { destruct mt; simpl in Hrem; [destruct Hrem as [_ [X ->]]|done|destruct Hrem as [_ [X ->]]]; simpl; set_solver. }
    destruct (queue_time _ _ _ (id_inv _ _ Hid : pq_core q G) Hin) as (Hv & Hpos & Hlt). simpl in Hv, Hpos, Hlt.
    assert (mt ≠ TV_EQ) as Hmt by by destruct mt.
    assert (seq_cursor q' mt = tv) as Hc.
    { unfold seq_cursor, tvIsNone. rewrite Hcv. destruct (TV_CMP_EQ tv TS_NONE) eqn:Hn; [|done].
      apply TV_CMP_EQ_eq in Hn. rewrite Hn in Hv. by destruct Hv. }
    destruct (IH q' (if m then a ++ [info] else a) Hid' Hrf) as (l & q2 & Hrun & Hvis & Hid2 & Hk2).
    + split; [|by intros ->]. rewrite Hcv. by apply (ltb_asym TV_CMP_LT).
    + rewrite Hc, Hq. apply (remain_next mt (seq_cursor q mt) _ (tv, o)); [|done].
      apply queue_sorted, (id_inv _ _ Hid).
    + exists (if m then info :: l else l), q2.
      change (length ((tv, o) :: Y)) with (S (length Y)). rewrite Hrun. split; [by destruct m; rewrite <- ?app_assoc|].
      split; [|split; [done|by eapply kept_trans]]. constructor; [done..|]. by eapply visits_kept.
Qed.
End visit.
End search.
