(* ===== verification/PqReport.v ===== *)
(** * Reports on the product-queue, and the last product of a class

    What the functions of PqStat.v return on a well-formed queue. *)

From stdpp Require Import sorting.
From S2P Require Import Prelude Timestamp NumTheory Fb SkipList TimeQueue RegionList RegionSkip RegionHash.
From S2P Require Import RegionAlloc RegionMerge RegionThms SigIndex Riul Sizes PqShare PqCore Xlen ProdClass PqOps PqCtl.
From S2P Require Import PqRead PqStat PqInv PqAccess PqDelete PqRoom PqSession PqSeq PqSearch.

(** In a queue that is in order, what is before a time comes first. *)
Lemma abs_before_prefix c Q : StronglySorted entry_lt Q → ∃ X, Q = abs_before c Q ++ X.
Proof.
  induction 1 as [|p Q Hs [X IH] Hf]; [by exists []|]. unfold abs_before in *. rewrite filter_cons.
  destruct (decide (TV_CMP_LT p.1 c = true)) as [Hlt|Hge].
  - exists X. simpl. by rewrite <- IH.
  - exists (p :: Q). rewrite filter_none; [done|]. intros x Hx Hlt. apply Hge.
    rewrite Forall_forall in Hf. specialize (Hf x Hx). unfold entry_lt in Hf.
    revert Hf Hlt. ts_unfold. destruct p as [[] ?], x as [[] ?], c. simpl. lia.
Qed.

Lemma elem_of_rev {A} (l : list A) x : x ∈ rev l ↔ x ∈ l.
Proof. by rewrite !list_elem_of_In, <- in_rev. Qed.

(** ** The free extents *)

Section dump.
Context (rl : regionl) (f : fb) (V : gmap Z Z) (base limit : Z) (es fs us lb ts gs : list Z).
Context (Hri : rl_inv rl f V base limit es fs us lb ts) (Hgs : gs ≡ₚ fs) (Hsk : skoe rl f V fs gs).
Abbreviation rp := (rl_rp rl).

Lemma dump_free n : n ∈ gs → ∃ r, rp !! n = Some r ∧ rg_extent r = rext rp n ∧ 0 < rg_extent r.
Proof.
  rewrite Hgs. intros Hn. destruct Hri as [[Htab _ Hrange Hts Htl] _ _].
  destruct (free_region rl base limit es fs us lb ts Htab Hrange Hts Htl n Hn) as (r & ? & _ & ? & _ & _ & ?). eauto.
Qed.

(** In the order of the skip list. *)
Lemma dump_le l1 x l2 y : gs = l1 ++ x :: l2 → y ∈ l2 → rext rp x ≤ rext rp y.
Proof.
  intros HG Hy. destruct (skoe_sorted _ _ _ _ _ Hsk) as [_ Hs]. rewrite HG in Hs.
  apply StronglySorted_app_1_r, StronglySorted_inv in Hs as [_ Hf]. rewrite Forall_forall in Hf.
  specialize (Hf y Hy). unfold node_lt in Hf.
  destruct (dump_free x) as (rx & Hx & <- & _); [rewrite HG; set_solver|].
  destruct (dump_free y) as (ry & Hry & <- & _); [rewrite HG; set_solver|].
  rewrite (nkey_at _ _ _ _ Hx), (nkey_at _ _ _ _ Hry) in Hf. unfold lex_ltb, fext_key in Hf. simpl in Hf. lia.
Qed.

Lemma dump_next l1 n l2 r :
  gs = l1 ++ n :: l2 → rp !! n = Some r → rd (fb_fblks f) (rg_prev r) = Ok (head_or RL_FEXT_TL l2).
Proof.
  intros HG Hr. destruct Hsk as (U1 & U2 & _ & H2 & _).
  pose proof (sl_fwd_next _ _ _ _ _ _ _ (ki_rep _ _ _ _ _ _ H2) l1 n l2 HG) as Hn. unfold sl_fwd, sk_blkof in Hn.
  rewrite (rd_Ok _ _ _ Hr), bind_Ok in Hn. simpl in Hn. by rewrite Z.add_0_r in Hn.
Qed.

Lemma fext_dump_loop_spec l2 : ∀ fuel l1 prev,
  gs = l1 ++ l2 → (length l2 < fuel)%nat → (∀ y, y ∈ l2 → prev ≤ rext rp y) →
  fext_dump_loop fuel rl f (head_or RL_FEXT_TL l2) prev = Ok (rext rp <$> l2).
Proof.
  induction l2 as [|n l2 IH]; intros fuel l1 prev HG Hfuel Hprev; (destruct fuel as [|fuel]; [simpl in Hfuel; lia|]).
  { done. }
  destruct (dump_free n) as (r & Hr & Hre & _); [rewrite HG; set_solver|].
  change (head_or RL_FEXT_TL (n :: l2)) with n. cbn [fext_dump_loop].
  rewrite (proj2 (Z.eqb_neq n RL_FEXT_TL)); cycle 1.
  { destruct Hsk as (U1 & U2 & _ & H2 & _). pose proof (sr_nodup _ _ _ _ _ _ _ (ki_rep _ _ _ _ _ _ H2)) as Hnd.
    apply NoDup_cons in Hnd as [_ [Hnd _]%NoDup_cons]. intros ->. apply Hnd. rewrite HG. set_solver. }
  rewrite (rd_Ok _ _ _ Hr), bind_Ok, Hre, assert_Ok, bind_Ok by (apply Z.leb_le, Hprev; set_solver).
  rewrite (dump_next l1 n l2 r HG Hr), bind_Ok.
  rewrite (IH fuel (l1 ++ [n]) (rext rp n)); [done|by rewrite <- app_assoc|simpl in Hfuel; lia|].
  intros y Hy. by eapply dump_le.
Qed.

Lemma fext_dump_spec :
  (let! hd := rd (rl_rp rl) (rl_fext rl) in
   let! sqix := rd (fb_fblks f) (rg_prev hd) in
   fext_dump_loop (rl_fuel rl) rl f sqix 0) = Ok (rext rp <$> gs).
Proof.
  destruct Hsk as (U1 & U2 & _ & H2 & _). pose proof (ki_rep _ _ _ _ _ _ H2) as Hrep.
  pose proof (sr_lev _ _ _ _ _ _ _ Hrep) as Hlev.
  pose proof (sl_fwd_hd _ _ _ _ _ _ _ Hrep 0 ltac:(lia)) as Hn. rewrite (sl_lvl0 _ _ _ _ _ _ _ Hrep) in Hn.
  unfold sl_fwd, sk_blkof in Hn. simpl in Hn. destruct (rd (rl_rp rl) (rl_fext rl)) as [r|]; [|done].
  rewrite !bind_Ok in *. rewrite Z.add_0_r in Hn. rewrite Hn, bind_Ok.
  apply (fext_dump_loop_spec gs _ [] 0 eq_refl (ki_len _ _ _ _ _ _ H2)).
  intros y Hy. destruct (dump_free y Hy) as (r' & _ & <- & ?). lia.
Qed.

Lemma dump_sorted l : (∃ l1, gs = l1 ++ l) → StronglySorted Z.le (rext rp <$> l).
Proof.
  induction l as [|n l IH]; intros [l1 HG]; [constructor|]. csimpl. constructor.
  - apply IH. exists (l1 ++ [n]). by rewrite <- app_assoc.
  - apply Forall_fmap, Forall_forall. intros y Hy. simpl. by eapply dump_le.
Qed.

(** The greatest extent is the last one. *)
Lemma dump_last : rl_maxfextent rl = default 0 (last (rext rp <$> gs)).
Proof.
  destruct (ri_max _ _ _ _ _ _ _ _ _ _ Hri) as [Hle Hmax].
  destruct (decide (gs = [])) as [HG|HG].
  { destruct Hmax as [[-> _]|(n & Hn & _)]; [by rewrite HG|]. rewrite <- Hgs, HG in Hn. by apply elem_of_nil in Hn. }
  destruct (exists_last HG) as (l & x & HGx). destruct Hmax as [[_ Hfs]|(n & Hn & Hmax)].
  { exfalso. apply HG. apply Permutation_nil_r. by rewrite Hgs, Hfs. }
  assert (x ∈ fs) as Hx by (rewrite <- Hgs, HGx; set_solver).
  rewrite HGx, fmap_app. csimpl. rewrite last_snoc. simpl. apply Z.le_antisymm; [|by apply Hle].
  rewrite <- Hmax. rewrite <- Hgs, HGx in Hn. apply elem_of_app in Hn as [Hn|Hn]; [|set_solver].
  apply list_elem_of_split in Hn as (a & b & ->). rewrite <- app_assoc in HGx. simpl in HGx.
  eapply dump_le; [exact HGx|set_solver].
Qed.
End dump.

Lemma sum_app (l k : list Z) : foldr Z.add 0 (l ++ k) = foldr Z.add 0 l + foldr Z.add 0 k.
Proof. induction l; simpl; lia. Qed.

Section report.
Context {W : Type} {Sys : System W} {Laws : SystemLaws W} {Re : Regex}.
Implicit Types (q : pqueue W) (G : ghost).

(** ** The last product of a class *)

Section last.
Context (clss : class_ptr) (Hclss : class_ok clss).

(** The first product of the class among the entries. *)
Inductive first_match q G : list (timestampt * Z) → option prod_info → Prop :=
  | first_nil : first_match q G [] None
  | first_hit tv o info Y :
      prod_at q G o info → class_test clss info = Ok true → first_match q G ((tv, o) :: Y) (Some info)
  | first_skip tv o info Y r :
      prod_at q G o info → class_test clss info = Ok false → first_match q G Y r →
      first_match q G ((tv, o) :: Y) r.

Lemma first_match_kept q q' G Y r : kept q q' → first_match q' G Y r → first_match q G Y r.
Proof.
  intros Hk. induction 1; [constructor|eapply first_hit|eapply first_skip]; try done; by eapply (kept_at _ _ _ _ _ Hk).
Qed.

Lemma queue_prod q G tv o : pq_core q G → (tv, o) ∈ pq_queue q G → ∃ info, prod_at q G o info.
Proof. intros Hinv Hin. destruct (pv_prods _ _ Hinv _ Hin) as (e & info & ? & ? & _). exists info. by exists e. Qed.

(** No product of the class was inserted in a second before that of [ts]. *)
Definition none_earlier q G (ts : timestampt) : Prop :=
  ∀ tv o info, (tv, o) ∈ pq_queue q G → prod_at q G o info → tv_sec tv < tv_sec ts →
    class_test clss info = Ok false.

Lemma first_match_early q G ts Y :
  pq_core q G → none_earlier q G ts → (∀ p, p ∈ Y → p ∈ pq_queue q G ∧ tv_sec p.1 < tv_sec ts) →
  first_match q G Y None.
Proof.
  intros Hinv Hne. induction Y as [|[tv o] Y IH]; intros HY; [constructor|].
  destruct (HY (tv, o)) as [Hin Hlt]; [set_solver|]. destruct (queue_prod q G tv o Hinv Hin) as (info & Hat).
  eapply first_skip; [exact Hat|by eapply Hne|]. apply IH. set_solver.
Qed.

(** What is stored through the pointer. *)
Definition found_at (r : option prod_info) (tsp : option timestampt) : option timestampt :=
  match r, tsp with Some info, Some _ => Some (pi_arrival info) | _, _ => tsp end.

Lemma pq_last_loop_S fuel q tsp :
  pq_last_loop (S fuel) q clss tsp =
    let! '(status, tsp, q) := pq_sequence q TV_LT clss (Some didmatch) tsp in
    if negb (status =? 0) then Ok (status, false, tsp, q)
    else
      match tsp with
      | Some ts =>
          if tv_sec (pq_cursor q) <? tv_sec ts then Ok (status, true, tsp, q)
          else pq_last_loop fuel q clss tsp
      | None => pq_last_loop fuel q clss tsp
      end.
Proof. done. Qed.

Lemma remain_LT_in c Q p Y x :
  StronglySorted entry_lt Q → remain TV_LT c Q (p :: Y) → x ∈ p :: Y → x ∈ Q ∧ tv_sec x.1 ≤ tv_sec p.1.
Proof.
  intros Hs [_ [X ->]] Hx. simpl in *. split; [rewrite !elem_of_app, elem_of_rev; set_solver|].
  rewrite <- app_assoc in Hs. apply elem_of_cons in Hx as [->|Hx]; [lia|].
  assert (entry_lt x p) as Hlt.
  { apply (StronglySorted_app_1_elem_of _ _ _ x p Hs); [by rewrite elem_of_rev|set_solver]. }
  unfold entry_lt in Hlt. revert Hlt. ts_unfold. lia.
Qed.

Lemma pq_last_loop_spec G tsp Y : ∀ fuel q,
  pq_idle q G → ¬ refused W → cursor_ok q TV_LT → remain TV_LT (seq_cursor q TV_LT) (pq_queue q G) Y →
  (∀ ts, tsp = Some ts → none_earlier q G ts) → (length Y < fuel)%nat →
  ∃ r (stop : bool) q', first_match q G Y r ∧ pq_idle q' G ∧ kept q q' ∧
    pq_last_loop fuel q clss tsp = Ok (if stop then 0 else PQ_END, stop, found_at r tsp, q').
Proof.
  induction Y as [|[tv o] Y IH]; intros fuel q Hid Hrf Hcur Hrem Hne Hfuel; (destruct fuel as [|fuel]; [simpl in Hfuel; lia|]);
    rewrite pq_last_loop_S;
    destruct (seq_step_idle clss Hclss q G TV_LT didmatch tsp Hid Hrf Hcur ltac:(done)) as (q' & Hid' & Hk & Hstep);
    rewrite (remain_find _ _ _ _ Hrem) in Hstep; cbn [head] in Hstep.
  { rewrite Hstep, bind_Ok. exists None, false, q'. split; [constructor|done]. }
  destruct Hstep as (info & m & Hat & Hcl & Hstep). pose proof (id_inv _ _ Hid : pq_core q G) as Hinv.
  pose proof (queue_sorted q G Hinv) as Hs.
  destruct (remain_LT_in _ _ _ _ (tv, o) Hs Hrem ltac:(set_solver)) as [Hin _].
  destruct m.
  { destruct Hstep as (d & p & n & w & Hrun & _). rewrite Hrun, bind_Ok. exists (Some info), false, q'.
    split; [by eapply first_hit|]. split; [done|]. split; [done|]. by destruct tsp. }
  destruct Hstep as [Hrun Hc]. rewrite Hrun, bind_Ok. simpl negb. cbv iota.
  assert (pq_queue q' G = pq_queue q G) as Hq by (unfold pq_queue; by destruct Hk as [-> _]).
  destruct (queue_time _ _ _ Hinv Hin) as (Hv & Hpos & Hlt). simpl in Hv, Hpos, Hlt.
  assert (seq_cursor q' TV_LT = tv) as Hsc.
  { unfold seq_cursor, tvIsNone. rewrite Hc. destruct (TV_CMP_EQ tv TS_NONE) eqn:Hn; [|done].
    apply TV_CMP_EQ_eq in Hn. rewrite Hn in Hv. by destruct Hv. }
  assert (∃ r stop q2, first_match q' G Y r ∧ pq_idle q2 G ∧ kept q' q2 ∧
    pq_last_loop fuel q' clss tsp = Ok (if stop : bool then 0 else PQ_END, stop, found_at r tsp, q2)) as Hnext.
  { apply IH; [done|done|..|simpl in Hfuel; lia].
    - split; [|done]. rewrite Hc. by apply (ltb_asym TV_CMP_LT).
    - rewrite Hsc, Hq. by apply (remain_next TV_LT (seq_cursor q TV_LT) _ (tv, o)).
    - intros ts Hts tv' o' info' Hin' Hat' Hlt'. rewrite Hq in Hin'.
      apply (Hne ts Hts tv' o' info' Hin'); [by apply (kept_at _ _ _ _ _ Hk)|done]. }
  assert (∃ r stop q2, first_match q G ((tv, o) :: Y) r ∧ pq_idle q2 G ∧ kept q q2 ∧
    pq_last_loop fuel q' clss tsp = Ok (if stop : bool then 0 else PQ_END, stop, found_at r tsp, q2)) as Hgo.
  { destruct Hnext as (r & stop & q2 & Hfm & Hid2 & Hk2 & Hrun2). exists r, stop, q2.
    split; [eapply first_skip; [done..|by eapply first_match_kept]|]. split; [done|]. split; [by eapply kept_trans|done]. }
  destruct tsp as [ts|]; [|exact Hgo]. destruct (Z.ltb_spec (tv_sec (pq_cursor q')) (tv_sec ts)) as [Hlt'|_]; [|exact Hgo].
  rewrite Hc in Hlt'. exists None, true, q'. split; [|done].
  apply (first_match_early q G ts); [done|by apply Hne|]. intros x Hx.
  destruct (remain_LT_in _ _ _ _ x Hs Hrem Hx) as [? Hle]. cbn [fst] in Hle. split; [done|lia].
Qed.

(** [c] is a time that the cursor can have. *)
Definition cursor_time (c : timestampt) : Prop :=
  0 ≤ tv_sec c ≤ tv_sec TS_ENDT ∧ 0 ≤ tv_usec c ≤ tv_usec TS_ENDT.

Lemma cset_any q G c :
  pq_idle q G → cursor_time c →
  ∃ q', pq_cset q c = Ok q' ∧ pq_idle q' G ∧ kept q q' ∧ pq_cursor q' = c ∧ pq_tq q' = pq_tq q.
Proof.
  intros [Hout Hrs] Hc. unfold cursor_time, TS_ENDT in Hc. simpl in Hc. unfold pq_cset.
  rewrite assert_Ok, bind_Ok by (simpl; lia).
  eexists. split; [reflexivity|].
  set (off := if TV_CMP_EQ c TS_ENDT then OFF_NONE else if TV_CMP_EQ c TS_ZERO then 0 else pq_cursor_offset q).
  assert ((if TV_CMP_EQ c TS_ENDT then pq_coffset (set_cursor q c) OFF_NONE
           else if TV_CMP_EQ c TS_ZERO then pq_coffset (set_cursor q c) 0 else set_cursor q c) =
          reads q c off (pq_locked_count q)) as ->.
  { unfold off. destruct (TV_CMP_EQ c TS_ENDT), (TV_CMP_EQ c TS_ZERO); reflexivity. }
  split; [split; [by apply reads_out|done]|]. done.
Qed.

Lemma clear_cursor q G : pq_idle q G → pq_idle (pq_coffset (set_cursor q TS_NONE) OFF_NONE) G.
Proof. intros [Hout Hrs]. split; [exact (reads_out q G TS_NONE OFF_NONE (pq_locked_count q) Hout)|done]. Qed.

Lemma pq_last_spec q G c tsp :
  deref clss = Some c → pq_idle q G → ¬ refused W → cursor_time (cl_to c) →
  (∀ ts, tsp = Some ts → none_earlier q G ts) →
  ∃ r q', first_match q G (rev (abs_before (cl_to c) (pq_queue q G))) r ∧ pq_idle q' G ∧ kept q q' ∧
    pq_last q clss tsp = Ok (0, found_at r tsp, q').
Proof.
  intros Hc Hid Hrf Hto Hne. destruct (cset_any q G _ Hid Hto) as (q1 & Hset & Hid1 & Hk1 & Hcur & Htq).
  assert (pq_queue q1 G = pq_queue q G) as Hq by (unfold pq_queue; by destruct Hk1 as [-> _]).
  assert (seq_cursor q1 TV_LT = cl_to c) as Hsc.
  { unfold seq_cursor, tvIsNone. rewrite Hcur. destruct (TV_CMP_EQ (cl_to c) TS_NONE) eqn:Hn; [|done].
    apply TV_CMP_EQ_eq in Hn. rewrite Hn in Hto. destruct Hto as [[Hs _] _]. done. }
  unfold pq_last. rewrite Hc, Hset, bind_Ok.
  destruct (pq_last_loop_spec G tsp (rev (abs_before (cl_to c) (pq_queue q G))) (tq_fuel (pq_tq q1)) q1 Hid1 Hrf)
    as (r & stop & q2 & Hfm & Hid2 & Hk2 & Hrun).
  - split; [|done]. rewrite Hcur. revert Hto. unfold cursor_time, TS_ENDT. ts_unfold. simpl. lia.
  - rewrite Hsc, Hq. split; [by rewrite rev_involutive|]. rewrite rev_involutive.
    apply abs_before_prefix, queue_sorted, (id_inv _ _ Hid).
  - intros ts Hts tv o info Hin Hat. rewrite Hq in Hin. apply (Hne ts Hts tv o info Hin). by apply (kept_at _ _ _ _ _ Hk1).
  - rewrite length_rev. destruct (pv_both _ _ (id_inv _ _ Hid1 : pq_core q1 G)) as (U & Ht & _).
    pose proof (tq_length_fuel _ _ _ _ _ _ Ht) as Hlen.
    assert (length (abs_before (cl_to c) (pq_queue q G)) ≤ length (g_ns G))%nat; [|lia].
    unfold abs_before. etrans; [apply length_filter|]. unfold pq_queue, tq_view. by rewrite length_fmap.
  - assert (∀ q3, kept q2 q3 → kept q q3) as Hkk
      by (intros q3 Hk3; exact (kept_trans _ _ _ Hk1 (kept_trans _ _ _ Hk2 Hk3))).
    assert (first_match q G (rev (abs_before (cl_to c) (pq_queue q G))) r) as Hfm' by by eapply first_match_kept.
    rewrite Hrun, bind_Ok. destruct stop; [by exists r, q2; auto using kept_refl|]. simpl negb. cbv iota zeta.
    destruct (TV_CMP_EQ (pq_cursor q2) TS_ENDT); [|by exists r, q2; auto using kept_refl].
    exists r, (pq_coffset (set_cursor q2 TS_NONE) OFF_NONE). split; [done|]. split; [by apply clear_cursor|].
    split; [by apply Hkk|done].
Qed.
End last.

(** The products were created, on the clocks of their sources, at the latest in the
    second of their insertion. *)
Definition on_time q G : Prop :=
  ∀ tv o info, (tv, o) ∈ pq_queue q G → prod_at q G o info →
    in_epoch (pi_arrival info) ∧ tv_sec (pi_arrival info) ≤ tv_sec tv.

(** Then the search may stop at products that were inserted too early. *)
Lemma on_time_none_earlier q G c :
  class_wf c → TV_CMP_LE (cl_from c) (cl_to c) = true → on_time q G → none_earlier (CAt c) q G (cl_from c).
Proof.
  intros Hwf Hft Hot tv o info Hin Hat Hlt. destruct (Hot tv o info Hin Hat) as [He Hle].
  change (class_test (CAt c) info) with (prodInClass (CAt c) info). rewrite prodInClass_spec by done. f_equal. apply bool_decide_false. intros [Hr _].
  revert Hft Hr. unfold in_range. ts_unfold. lia.
Qed.

(** What [pq_clss_setfrom()] returns when [r] is the last product of the class. *)
Definition setfrom_result (c : prod_class) (r : option prod_info) : Z * prod_class :=
  match r with
  | None => (PQ_END, c)
  | Some info =>
      if TV_CMP_EQ (pi_arrival info) (cl_from c) then (PQ_END, c)
      else (0, Class_ (pi_arrival info) (cl_to c) (psa_len c) (psa_val c))
  end.

Lemma pq_clss_setfrom_spec q G c :
  pq_idle q G → ¬ refused W → class_wf c → cursor_time (cl_to c) → TV_CMP_LE (cl_from c) (cl_to c) = true →
  on_time q G →
  ∃ r q', first_match (CAt c) q G (rev (abs_before (cl_to c) (pq_queue q G))) r ∧
    pq_clss_setfrom q c = Ok (setfrom_result c r, q') ∧ pq_idle q' G ∧ kept q q' ∧ pq_cursor q' = TS_NONE.
Proof.
  intros Hid Hrf Hwf Hto Hft Hot.
  destruct (pq_last_spec (CAt c) Hwf q G c (Some (cl_from c)) eq_refl Hid Hrf Hto) as (r & q' & Hfm & Hid' & Hk & Hrun).
  { intros ts [= <-]. by apply on_time_none_earlier. }
  eexists r, _. split; [exact Hfm|]. unfold pq_clss_setfrom. rewrite Hrun, bind_Ok.
  split; [|split; [by apply clear_cursor|split; [exact Hk|reflexivity]]].
  destruct r as [info|]; simpl found_at; cbn [default].
  - simpl. destruct (TV_CMP_EQ (pi_arrival info) (cl_from c)); reflexivity.
  - simpl. assert (TV_CMP_EQ (cl_from c) (cl_from c) = true) as -> by by apply TV_CMP_EQ_eq. reflexivity.
Qed.

(** ** Reports *)

(** A report [P], or the refusal of the system. *)
Definition report {B} q G (P : B → Prop) (r : res (Z * option B * pqueue W)) : Prop :=
  ∃ st ob q', r = Ok (st, ob, q') ∧ pq_out q' G ∧ kept q q' ∧
    ((st = 0 ∧ ∃ b, ob = Some b ∧ P b) ∨ (st ≠ 0 ∧ ob = None ∧ refused W)).

Lemma with_ctl_spec {B} q G (P : B → Prop) (get : pqueue W → res (B * pqueue W)) :
  pq_out q G →
  (∀ q1, pq_sh q1 = pq_sh q → ∃ b w, get q1 = Ok (b, set_sys q1 w) ∧ same_mem (pq_sys q1) w ∧ P b) →
  report q G P (with_ctl q get).
Proof.
  intros Hout Hget. unfold with_ctl, report.
  assert (reads q (pq_cursor q) (pq_cursor_offset q) (pq_locked_count q) = q) as Hid by by destruct q.
  destruct (reading_start q G (pq_cursor q) (pq_cursor_offset q) (pq_locked_count q) Hout)
    as (st & q1 & Hrun & [(-> & w & rl & -> & Hm & Hrl)|(Hst & Hrf & Hmv & Hout1)]);
    rewrite Hid in Hrun; rewrite Hrun, bind_Ok; cycle 1.
  { rewrite (proj2 (Z.eqb_neq _ _) Hst). exists st, None, q1. split; [done|]. split; [done|].
    split; [by eapply moved_kept|]. right. done. }
  simpl negb. cbv iota. set (q1 := reading _ _ _ _ _ _).
  destruct (Hget q1 eq_refl) as (b & w' & -> & Hm' & HP).
  rewrite bind_Ok. change (set_sys q1 w') with (reading q (pq_cursor q) (pq_cursor_offset q) (pq_locked_count q) w' rl).
  destruct (reading_leave q G Hout (pq_cursor q) (pq_cursor_offset q) (pq_locked_count q) w' rl
    (same_mem_trans _ _ _ Hm Hm') _ Hrl (out_mine q G Hout) (po_rs _ _ Hout)) as (st & q2 & -> & Hmv & Hout2 & _).
  rewrite bind_Ok. rewrite (with_rs_id G _ eq_refl) in Hout2. exists 0, (Some b), q2.
  split; [done|]. split; [done|]. split; [by eapply moved_kept|]. left. eauto.
Qed.

(** The extents of the free regions, in ascending order. *)
Definition free_extents q G (l : list Z) : Prop :=
  StronglySorted Z.le l ∧ l ≡ₚ (rext (rl_rp (pq_rl q)) <$> g_fs G).

Lemma free_extents_unique q G l l' : free_extents q G l → free_extents q G l' → l = l'.
Proof.
  intros [Hs Hl] [Hs' Hl']. apply (StronglySorted_unique Z.le); [done..|]. by rewrite Hl, Hl'.
Qed.

Lemma pq_fext_dump_spec q G : pq_out q G → report q G (free_extents q G) (pq_fext_dump q).
Proof.
  intros Hout. apply with_ctl_spec; [done|]. intros q1 Hsh.
  destruct (pv_both _ _ (po_inv _ _ Hout : pq_core q G)) as (U & _ & Hri).
  destruct (rc_skip _ _ _ _ _ _ _ _ _ _ (ri_core _ _ _ _ _ _ _ _ _ _ Hri)) as (gs & Hgs & Hsk).
  exists (rext (rl_rp (pq_rl q)) <$> gs), (pq_sys q1). rewrite set_sys_id. split; [|split; [done|]].
  - rewrite Hsh. cbv zeta. pose proof (fext_dump_spec _ _ _ _ _ _ _ _ _ _ gs Hri Hgs Hsk) as Hrun.
    apply bind_inv in Hrun as (hd & -> & Hrun). rewrite bind_Ok.
    apply bind_inv in Hrun as (sqix & -> & Hrun). rewrite bind_Ok, Hrun, bind_Ok. done.
  - split; [eapply dump_sorted; [exact Hri|exact Hgs|exact Hsk|by exists []]|]. by rewrite Hgs.
Qed.

(** The age of the oldest product by the clock of the system, 0 if there is none. *)
Definition oldest_age q G (a : option Z) : Prop :=
  match pq_queue q G with
  | [] => a = Some 0
  | (tv, _) :: _ => ∃ w now w', gettimeofday w = (inr now, w') ∧ a = Some (us now - us tv)
  end.

(** What the numbers of [pq_stats()] are: the products, the space that they take, and
    the free space. *)
Definition stats_ok q G (age : bool) (s : pq_statistics) : Prop :=
  ps_nprods s = Z.of_nat (size (pq_regions q G)) ∧
  ps_nbytes s = foldr Z.add 0 (map_to_list (pq_regions q G)).*2 ∧
  ps_nprods s + ps_nfree s + ps_nempty s = pq_nalloc q ∧
  (∀ l, free_extents q G l → ps_nfree s = Z.of_nat (length l) ∧ ps_maxextent s = default 0 (last l) ∧
    foldr Z.add 0 l + ps_nbytes s = pq_ixo q - pq_datao q) ∧
  (age = true → oldest_age q G (ps_age_oldest s)).

Lemma regions_list q G :
  pq_core q G →
  map_to_list (pq_regions q G) ≡ₚ (λ n, (rg_off (rl_rp (pq_rl q)) n, rext (rl_rp (pq_rl q)) n)) <$> g_us G.
Proof.
  intros Hinv. destruct (pv_both _ _ Hinv) as (U & _ & Hri).
  destruct (inv_us _ _ _ _ _ _ _ _ _ _ Hri) as (Hnd & Hinj & _). apply map_to_list_to_map.
  rewrite <- list_fmap_compose. apply NoDup_fmap_2_strong; [|done]. intros x y Hx Hy. by apply Hinj.
Qed.

(** The whole data segment. *)
Lemma segment_sum q G l :
  pq_core q G → g_lb G = [] → l ≡ₚ (rext (rl_rp (pq_rl q)) <$> g_fs G) →
  foldr Z.add 0 l + foldr Z.add 0 (rext (rl_rp (pq_rl q)) <$> g_us G) = pq_ixo q - pq_datao q.
Proof.
  intros Hinv Hlb Hl. destruct (pv_both _ _ Hinv) as (U & _ & Hri).
  destruct Hri as [[_ _ _ Hts Htl] _ _]. apply tiled_sum in Htl. rewrite <- Htl, (sum_perm _ _ _ Hts), Hlb, app_nil_r.
  rewrite fmap_app, sum_app. f_equal. pose proof (sum_perm id l _ Hl) as Hs. by rewrite !list_fmap_id in Hs.
Qed.

Lemma stats_ok_intro q G age a :
  pq_inv q G → g_lb G = [] → (age = true → oldest_age q G a) →
  stats_ok q G age (let rl := pq_rl q in PqStatistics (rl_nelems rl) (rl_nfree rl) (rl_nempty rl) (rl_nbytes rl)
    (rl_maxelems rl) (rl_maxfree rl) (rl_minempty rl) (rl_maxbytes rl) (rl_maxfextent rl) a).
Proof.
  intros Hinv Hlb Ha. pose proof (regions_list q G Hinv) as Hlist.
  destruct (pv_both _ _ (Hinv : pq_core q G)) as (U & _ & Hri). pose proof (ri_core _ _ _ _ _ _ _ _ _ _ Hri) as Hcore.
  pose proof (rc_tab _ _ _ _ _ _ _ _ _ _ Hcore) as Htab. rewrite Hlb in Htab.
  unfold stats_ok. cbn [ps_nprods ps_nbytes ps_nfree ps_nempty ps_maxextent ps_age_oldest].
  rewrite (rt_nelems _ _ _ _ _ Htab), (rt_nfree _ _ _ _ _ Htab), (rt_nempty _ _ _ _ _ Htab), (pv_bytes _ _ Hinv).
  assert (size (pq_regions q G) = length (g_us G)) as ->.
  { rewrite <- length_map_to_list, Hlist. apply length_fmap. }
  split; [simpl; lia|]. split.
  { apply (fmap_Permutation snd) in Hlist. rewrite <- list_fmap_compose in Hlist.
    apply (sum_perm id) in Hlist. by rewrite !list_fmap_id in Hlist. }
  split.
  { pose proof (Permutation_length (rt_perm _ _ _ _ _ Htab)) as Hp. rewrite !length_app, length_seqZ in Hp.
    destruct (pv_nalloc _ _ Hinv) as [Hna _]. pose proof (re_nalloc _ (rt_ends _ _ _ _ _ Htab)). simpl in *. lia. }
  split; [|exact Ha]. intros l Hl. split; [|split].
  - destruct Hl as [_ ->]. by rewrite length_fmap.
  - destruct (rc_skip _ _ _ _ _ _ _ _ _ _ Hcore) as (gs & Hgs & Hsk).
    assert (l = rext (rl_rp (pq_rl q)) <$> gs) as ->; [|by eapply dump_last].
    eapply free_extents_unique; [exact Hl|]. split; [|by rewrite Hgs].
    eapply dump_sorted; [exact Hri|exact Hgs|exact Hsk|by exists []].
  - destruct Hl as [_ Hl]. exact (segment_sum q G l Hinv Hlb Hl).
Qed.

Lemma pq_stats_spec q G age : pq_out q G → report q G (stats_ok q G age) (pq_stats q age).
Proof.
  intros Hout. apply with_ctl_spec; [done|]. intros q1 Hsh. pose proof (po_inv _ _ Hout) as Hinv.
  assert (∀ a w, (age = true → oldest_age q G a) → same_mem (pq_sys q1) w →
    ∃ b w', Ok (PqStatistics (rl_nelems (pq_rl q1)) (rl_nfree (pq_rl q1)) (rl_nempty (pq_rl q1)) (rl_nbytes (pq_rl q1))
        (rl_maxelems (pq_rl q1)) (rl_maxfree (pq_rl q1)) (rl_minempty (pq_rl q1)) (rl_maxbytes (pq_rl q1))
        (rl_maxfextent (pq_rl q1)) a, set_sys q1 w) = Ok (b, set_sys q1 w') ∧ same_mem (pq_sys q1) w' ∧ stats_ok q G age b) as Hend.
  { intros a w Ha Hm. eexists _, w. split; [reflexivity|]. split; [done|]. rewrite Hsh. by apply stats_ok_intro; [|apply Hout|]. }
  destruct age; cycle 1.
  { rewrite bind_Ok. destruct (Hend None (pq_sys q1) ltac:(done) ltac:(done)) as (b & w' & He & H).
    rewrite set_sys_id in He. by exists b, w'. }
  rewrite Hsh, (both_tqe_first _ _ _ _ _ _ _ _ _ _ _ _ _ (pv_both _ _ (Hinv : pq_core q G))), bind_Ok, <- Hsh.
  destruct (g_ns G) as [|n ns] eqn:Hns; cbn [head]; cbv zeta iota.
  - rewrite bind_Ok. destruct (Hend (Some 0) (pq_sys q1)) as (b & w' & He & H); [|done|].
    { intros _. unfold oldest_age, pq_queue. by rewrite Hns. }
    rewrite set_sys_id in He. by exists b, w'.
  - destruct (find_region_queue q G n Hinv) as (te & _ & Hrd & Hte & _); [rewrite Hns; set_solver|].
    rewrite Hsh, Hrd, bind_Ok, <- Hsh. destruct (clock_time (pq_sys q1)) as (now & w & Hclk & _).
    pose proof (λ vp k, clock_mem vp k (pq_sys q1)) as Hg. rewrite Hclk in Hg |- *. rewrite bind_Ok. apply Hend; [|exact Hg].
    intros _. unfold oldest_age, pq_queue, tq_view. rewrite Hns. csimpl. injection Hte as <- _. eauto.
Qed.

(** The time of the oldest product. *)
Definition oldest_time q G (tv : timestampt) : Prop :=
  tv = match pq_queue q G with [] => TS_NONE | p :: _ => p.1 end.

Lemma pq_getOldestCursor_spec q G : pq_out q G → report q G (oldest_time q G) (pq_getOldestCursor q).
Proof.
  intros Hout. apply with_ctl_spec; [done|]. intros q1 Hsh. pose proof (po_inv _ _ Hout) as Hinv.
  eexists _, (pq_sys q1). rewrite set_sys_id, Hsh. split; [|done].
  rewrite (both_tqe_first _ _ _ _ _ _ _ _ _ _ _ _ _ (pv_both _ _ (Hinv : pq_core q G))), bind_Ok.
  unfold pq_queue, tq_view. destruct (g_ns G) as [|n ns] eqn:Hns; cbn [head]; [done|].
  destruct (find_region_queue q G n Hinv) as (te & _ & Hrd & Hte & _); [rewrite Hns; set_solver|].
  rewrite Hrd, bind_Ok. csimpl. by injection Hte as -> _.
Qed.
End report.
