(* ===== verification/PqFind.v ===== *)
(** * Finding a product by its signature

    [pq_findTimeEntryBySignature()] finds the element of the time queue of every
    product of the queue, at whatever time the product says that it was created:
    that time only decides where the search begins.  With it,
    [pq_setCursorFromSignature()] and [pq_deleteBySignature()]. *)

From stdpp Require Import sorting.
From S2P Require Import Prelude Timestamp NumTheory Fb SkipList TimeQueue RegionList RegionHash.
From S2P Require Import RegionAlloc RegionThms SigIndex Riul Sizes PqShare PqCore Xlen ProdClass PqOps PqCtl.
From S2P Require Import PqRead PqInv PqAccess PqDelete PqRoom PqSession PqSeq PqSearch.

Section find.
Context {W : Type} {Sys : System W} {Laws : SystemLaws W}.
Implicit Types (q : pqueue W) (G : ghost).

(** ** The search of the time queue *)

Section time.
Context (q : pqueue W) (G : ghost) (Hinv : pq_inv q G).
Abbreviation off := (tq_off (tq_tqep (pq_tq q))).

Lemma time_next_spec l1 t l2 : g_ns G = l1 ++ t :: l2 → time_next q t = Ok (head_or TQ_NIL l2).
Proof.
  destruct (pv_both _ _ Hinv) as (U & Ht & _). intros Hns.
  exact (sl_fwd_next _ _ _ _ _ _ _ (ti_rep _ _ _ _ _ _ Ht) l1 t l2 Hns).
Qed.

Lemma ns_at t :
  t ∈ g_ns G → ∃ te, rd (tq_tqep (pq_tq q)) t = Ok te ∧ te_offset te = off t ∧ off t ≠ OFF_NONE.
Proof.
  intros Ht. destruct (find_region_queue q G t Hinv Ht) as (te & n & Hrd & Hte & _ & Hn & Ho).
  exists te. injection Hte as _ Hoff. split; [done|]. split; [done|].
  destruct (pv_region_range _ _ Hinv n ltac:(set_solver)) as (? & _ & _ & _ & ?).
  rewrite <- Hoff, <- Ho. unfold OFF_NONE. lia.
Qed.

Lemma ns_inj x y : x ∈ g_ns G → y ∈ g_ns G → off x = off y → x = y.
Proof.
  intros [i Hx]%list_elem_of_lookup [j Hy]%list_elem_of_lookup Ho.
  pose proof (pv_offs _ _ Hinv) as Hnd. unfold pq_queue, tq_view in Hnd. rewrite <- list_fmap_compose in Hnd.
  assert (i = j) as ->; [|congruence].
  eapply (proj1 (NoDup_alt _) Hnd); rewrite list_lookup_fmap; [by rewrite Hx|].
  rewrite Hy. simpl. by rewrite Ho.
Qed.

(** From an element to the tail. *)
Lemma search_forward_spec o fuel l1 l2 :
  g_ns G = l1 ++ l2 → (length l2 < fuel)%nat →
  (∃ t, t ∈ l2 ∧ off t = o ∧ search_forward fuel q (head_or TQ_NIL l2) o = Ok (Some t)) ∨
  ((∀ t, t ∈ l2 → off t ≠ o) ∧ search_forward fuel q (head_or TQ_NIL l2) o = Ok None).
Proof.
  revert l1 l2. induction fuel as [|fuel IH]; intros l1 l2 Hns Hf; [lia|].
  cbn [search_forward]. destruct l2 as [|t l2].
  - right. split; [by intros t []%elem_of_nil|]. destruct (pv_both _ _ Hinv) as (U & Ht & _).
    destruct (ti_nil _ _ _ _ _ _ Ht) as (e & He & _ & Ho). unfold head_or. simpl default.
    by rewrite (rd_Ok _ _ _ He), bind_Ok, Ho, Z.eqb_refl.
  - change (head_or TQ_NIL (t :: l2)) with t. destruct (ns_at t) as (te & Hrd & Ho & Hne); [rewrite Hns; set_solver|].
    rewrite Hrd, bind_Ok, Ho, (proj2 (Z.eqb_neq _ _) Hne). destruct (Z.eqb_spec (off t) o) as [Heq|Hdf].
    + left. exists t. split; [constructor|done].
    + rewrite (time_next_spec l1 t l2 Hns), bind_Ok. simpl in Hf.
      destruct (IH (l1 ++ [t]) l2) as [(x & Hx & Hox & Hrun)|[Hno Hrun]]; [by rewrite <- app_assoc|lia|left|right].
      * exists x. split; [set_solver|done].
      * split; [|done]. intros x [->|Hx]%elem_of_cons; [done|by apply Hno].
Qed.

(** From an element to [i]. *)
Lemma search_until_spec o i l3 fuel l1 l2 :
  g_ns G = l1 ++ l2 ++ i :: l3 → (length l2 < fuel)%nat →
  (∃ t, t ∈ l2 ∧ off t = o ∧ search_until fuel q (head_or i l2) i o = Ok (Some t)) ∨
  ((∀ t, t ∈ l2 → off t ≠ o) ∧ search_until fuel q (head_or i l2) i o = Ok None).
Proof.
  assert (NoDup (g_ns G)) as Hnd.
  { destruct (pv_both _ _ Hinv) as (U & Ht & _). pose proof (tq_NoDup _ _ _ _ _ _ Ht) as Hnd.
    apply NoDup_app in Hnd as (_ & _ & Hnd). by apply NoDup_app in Hnd as (? & _). }
  revert l1 l2. induction fuel as [|fuel IH]; intros l1 l2 Hns Hf; [lia|].
  cbn [search_until]. destruct l2 as [|t l2].
  - right. split; [by intros t []%elem_of_nil|]. unfold head_or. simpl default. by rewrite Z.eqb_refl.
  - change (head_or i (t :: l2)) with t.
    assert (i ≠ t) as Hit.
    { intros ->. rewrite Hns in Hnd. apply NoDup_app in Hnd as (_ & _ & Hnd). simpl in Hnd.
      apply NoDup_cons in Hnd as [Hn _]. apply Hn. set_solver. }
    rewrite (proj2 (Z.eqb_neq _ _) Hit).
    destruct (ns_at t) as (te & Hrd & Ho & Hne); [rewrite Hns; set_solver|]. rewrite Hrd, bind_Ok, Ho.
    destruct (Z.eqb_spec (off t) o) as [Heq|Hdf].
    + left. exists t. split; [constructor|done].
    + rewrite (time_next_spec l1 t (l2 ++ i :: l3) Hns), bind_Ok. simpl in Hf.
      replace (head_or TQ_NIL (l2 ++ i :: l3)) with (head_or i l2) by by destruct l2.
      destruct (IH (l1 ++ [t]) l2) as [(x & Hx & Hox & Hrun)|[Hno Hrun]]; [by rewrite <- app_assoc|lia|left|right].
      * exists x. split; [set_solver|done].
      * split; [|done]. intros x [->|Hx]%elem_of_cons; [done|by apply Hno].
Qed.

(** Wherever it begins, there is an element unless the queue is empty. *)
Lemma search_start_spec c :
  TV_CMP_LT TS_ENDT c = false → c ≠ TS_ENDT →
  ∃ r, search_start q c = Ok r ∧ match r with Some i => i ∈ g_ns G | None => g_ns G = [] end.
Proof.
  intros Hle Hne. unfold search_start.
  pose proof (both_tqe_find _ _ _ _ _ _ _ _ _ _ _ _ _ (pv_both _ _ Hinv) c) as Hrun.
  pose proof (both_found_in _ _ _ _ _ _ _ _ _ _ _ _ _ (pv_both _ _ Hinv) c) as Hin.
  pose proof (both_found _ _ _ _ _ _ _ _ _ _ _ _ _ (pv_both _ _ Hinv) c) as Hv.
  pose proof (Hv TV_LT) as H1. pose proof (Hv TV_EQ) as H2. pose proof (Hv TV_GT) as H3. clear Hv.
  rewrite !Hrun, !bind_Ok by done.
  destruct (tq_found _ _ c TV_LT) as [m|] eqn:Hf1; [exists (Some m); split; [done|by eapply Hin]|].
  destruct (tq_found _ _ c TV_EQ) as [m|] eqn:Hf2; [exists (Some m); split; [done|by eapply Hin]|].
  destruct (tq_found _ _ c TV_GT) as [m|] eqn:Hf3; [exists (Some m); split; [done|by eapply Hin]|]. exists None. split; [done|].
  destruct (g_ns G) as [|x l]; [done|]. simpl in H1, H2, H3.
  symmetry in H1, H2, H3. apply last_None in H1. apply head_None in H2, H3.
  set (p := tq_entry (pq_tq q) x). assert (p ∈ tq_view (pq_tq q) (x :: l)) as Hp by constructor.
  assert (∀ (P : timestampt * Z → Prop) (Pd : ∀ p, Decision (P p)), filter P (tq_view (pq_tq q) (x :: l)) = [] → ¬ P p) as Hno.
  { intros P Pd He HP. assert (p ∈ filter P (tq_view (pq_tq q) (x :: l))) as Hf by by apply list_elem_of_filter.
    rewrite He in Hf. by apply elem_of_nil in Hf. }
  apply Hno in H1, H2, H3. destruct H2. apply (ltb_total (ltb := TV_CMP_LT)); by apply not_true_iff_false.
Qed.

(** What the search promises. *)
Definition time_entry (o : Z) (r : Z * option Z) : Prop :=
  (∃ t, t ∈ g_ns G ∧ off t = o ∧ r = (0, Some t)) ∨
  ((∀ t, t ∈ g_ns G → off t ≠ o) ∧ r = (if decide (g_ns G = []) then PQ_CORRUPT else PQ_NOTFOUND, None)).

Lemma search_first : tqe_find (pq_tq q) (pq_fb q) TS_ZERO TV_GT = Ok (head (g_ns G)).
Proof.
  rewrite (both_tqe_find _ _ _ _ _ _ _ _ _ _ _ _ _ (pv_both _ _ Hinv)) by done. f_equal.
  pose proof (both_found_in _ _ _ _ _ _ _ _ _ _ _ _ _ (pv_both _ _ Hinv) TS_ZERO TV_GT) as Hin.
  pose proof (both_found _ _ _ _ _ _ _ _ _ _ _ _ _ (pv_both _ _ Hinv) TS_ZERO TV_GT) as Hv.
  destruct (queue_ends q G Hinv) as [He _]. unfold pq_queue in He. unfold abs_find in Hv. rewrite He in Hv.
  rewrite (tq_view_head (pq_tq q) (g_ns G)) in Hv.
  revert Hin Hv. destruct (tq_found _ _ _ _) as [n|], (g_ns G) as [|x l] eqn:Hns; simpl; intros Hin Hv; try done.
  f_equal. injection Hv as _ Ho. apply ns_inj; [|rewrite Hns; constructor|done]. rewrite Hns. by apply Hin.
Qed.

Lemma search_time_spec c o :
  TV_CMP_LT TS_ENDT c = false → c ≠ TS_ENDT → ∃ r, search_time q c o = Ok r ∧ time_entry o r.
Proof.
  intros Hle Hne. unfold search_time, time_entry. destruct (search_start_spec c Hle Hne) as (r & -> & Hr). rewrite bind_Ok.
  destruct (pv_both _ _ Hinv) as (U & Htq & _). pose proof (tq_length_fuel _ _ _ _ _ _ Htq) as Hfuel.
  destruct r as [i|]; cycle 1.
  { eexists. split; [done|]. right. rewrite Hr. split; [by intros t []%elem_of_nil|done]. }
  apply list_elem_of_split in Hr as (l1 & l3 & Hns).
  assert (length l1 + S (length l3) < tq_fuel (pq_tq q))%nat as Hf by (by rewrite Hns, length_app in Hfuel).
  destruct (search_forward_spec o (tq_fuel (pq_tq q)) l1 (i :: l3) Hns ltac:(simpl; lia))
    as [(t & Ht & Ho & Hrun)|[Hno Hrun]]; change (head_or TQ_NIL (i :: l3)) with i in Hrun; rewrite Hrun, bind_Ok.
  { eexists. split; [done|]. left. exists t. split; [rewrite Hns; set_solver|done]. }
  rewrite search_first, bind_Ok. rewrite Hns. replace (head (l1 ++ i :: l3)) with (Some (head_or i l1)) by by destruct l1.
  destruct (search_until_spec o i l3 (tq_fuel (pq_tq q)) [] l1 Hns ltac:(lia))
    as [(t & Ht & Ho & Hrun2)|[Hno2 Hrun2]]; rewrite Hrun2, bind_Ok; eexists; (split; [done|]).
  - left. exists t. split; [set_solver|done].
  - right. split; [|by rewrite decide_False by by destruct l1].
    intros t [Ht|Ht]%elem_of_app; [by apply Hno2|by apply Hno].
Qed.
End time.

(** ** The metadata *)

Lemma rl_find_us q G n :
  pq_inv q G → n ∈ g_us G → rl_find (pq_rl q) (rg_off (rl_rp (pq_rl q)) n) = Ok n ∧ n ≠ RL_NONE.
Proof.
  intros Hinv Hn. destruct (pv_both _ _ Hinv) as (U & _ & Hrl). destruct (pv_us _ _ Hinv) as [_ Hinj].
  pose proof (rc_tab _ _ _ _ _ _ _ _ _ _ (ri_core _ _ _ _ _ _ _ _ _ _ Hrl)) as Htab.
  destruct (rl_find_spec _ _ (rg_off (rl_rp (pq_rl q)) n) (rt_hash _ _ _ _ _ Htab) (rt_used _ _ _ _ _ Htab))
    as (ix & Hrun & [[Hix Hox]|[-> Hno]]); [|by destruct (Hno n Hn)].
  rewrite (Hinj ix n Hix Hn Hox) in Hrun. split; [done|].
  pose proof (rt_slot _ _ _ _ _ Htab n ltac:(set_solver)). destruct (rt_counts _ _ _ _ _ Htab) as [_ ?].
  change RL_NONE with (2 ^ 64 - 1). lia.
Qed.

(** Only locks have changed. *)
Definition relocked q G q' : Prop :=
  ∃ w rl, q' = set_riul (set_sys q w) rl ∧ same_mem (pq_sys q) w ∧ riul_inv rl (g_rs G).

Lemma relocked_refl q G : pq_inv q G → relocked q G q.
Proof. intros Hinv. exists (pq_sys q), (pq_riul q). split; [by destruct q|]. split; [done|]. apply (pv_riul _ _ Hinv). Qed.

Lemma relock_inv q G w rl rs :
  pq_inv q G → same_mem (pq_sys q) w → riul_inv rl rs → (∀ r, r ∈ rs → mine_ok q G r) →
  pq_inv (set_riul (set_sys q w) rl) (with_rs G rs).
Proof. exact (env_inv q G (pq_pflags q) w rl rs (pq_ctlp q) (pq_ixp q)). Qed.

Lemma relocked_inv q G q' : pq_inv q G → relocked q G q' → pq_inv q' G.
Proof.
  intros Hinv (w & rl & -> & Hm & Hrl). rewrite <- (with_rs_id G _ eq_refl).
  apply relock_inv; [done..|]. apply (pv_mine _ _ Hinv).
Qed.

Section metadata.
Context (q : pqueue W) (G : ghost) (cf xf : Z) (rs : list riu) (n : Z) (info : prod_info).
Context (Hinv : pq_inv q G) (Hrs : g_rs G = session q cf xf rs) (Hbt : between q rs) (Hn : n ∈ g_us G).
Abbreviation o := (rg_off (rl_rp (pq_rl q)) n).
Abbreviation e := (rext (rl_rp (pq_rl q)) n).
Context (Hinfo : xdr_prod_info (pq_base q + o) e (pq_sys q) = Some (info, xlen_prod_info info)).

(** The process has the product, the system refuses, or the metadata is read. *)
Definition meta_post (r : res (Z * option prod_info * pqueue W)) : Prop :=
  ((o ∈ held rs) ∧
    ((r = Err AssertFail ∧ rl_nelems (pq_rl q) ≤ Z.of_nat (length rs)) ∨ r = Ok (EACCES, None, q))) ∨
  (refused W ∧ ∃ st q', st ≠ 0 ∧ r = Ok (st, None, q') ∧ relocked q G q') ∨
  ((o ∉ held rs) ∧ ∃ q', r = Ok (0, Some info, q') ∧ relocked q G q').

Lemma pq_getMetadata_spec : meta_post (pq_getMetadataFromOffset q o).
Proof.
  unfold pq_getMetadataFromOffset. destruct (rl_find_us q G n Hinv Hn) as [-> Hne].
  rewrite bind_Ok, (proj2 (Z.eqb_neq _ _) Hne).
  destruct (pv_region_at _ _ Hinv n ltac:(set_solver)) as (r & Hr & Hro & Hre). rewrite (rd_Ok _ _ _ Hr), bind_Ok, Hre.
  destruct (decide (o ∈ held rs)) as [Hh|Hh].
  { left. split; [done|]. pose proof (rgn_get_held q G cf xf rs n Hinv Hrs Hbt Hn Hh) as Hget.
    case_match eqn:Hlt; rewrite Hget; [right; done|left]. split; [done|]. lia. }
  right. destruct (rgn_get_free q G cf xf rs n Hinv Hrs Hbt Hn Hh) as (st & w & rl & -> & Hm & Hcase). rewrite bind_Ok.
  destruct Hcase as [(-> & A & B & HAB & Hrl)|(Hst & Hrf & Hrl)]; cycle 1.
  { left. split; [done|]. rewrite (proj2 (Z.eqb_neq _ _) Hst). eexists _, _. split; [exact Hst|]. split; [done|].
    by exists w, rl. }
  right. split; [done|]. simpl. rewrite Hm, Hinfo.
  assert (pq_inv (set_riul (set_sys q w) rl) (with_rs G (session q cf xf (A ++ prod_riu q o e :: B)))) as Hinv1.
  { apply relock_inv; [done..|]. intros x Hx. apply (session_mine q G cf xf (A ++ prod_riu q o e :: B)); [done| |done].
    intros y Hy. assert (y = prod_riu q o e ∨ y ∈ g_rs G) as [->|Hy'].
    { rewrite Hrs. unfold session. rewrite HAB. set_solver. }
    - apply (prod_riu_mine q G n Hinv Hn).
    - by apply (pv_mine _ _ Hinv). }
  destruct (rgn_rel_mine _ _ (ctl_riu_of q cf :: A) (prod_riu q o e) (B ++ [ix_riu_of q xf]) Hinv1)
    as (st2 & w2 & rl2 & Hrel & Hrl2 & Hm2 & _).
  { simpl. unfold session. by rewrite <- app_assoc. }
  { apply (prod_riu_mine q G n Hinv Hn). }
  simpl ru_offset in Hrel. rewrite Hrel, bind_Ok. eexists. split; [done|]. exists w2, rl2. split; [done|].
  split; [exact (same_mem_trans _ _ _ Hm Hm2)|]. rewrite Hrs. unfold session. rewrite HAB, <- app_assoc. exact Hrl2.
Qed.
End metadata.

(** ** The search by signature *)

Lemma sig_lookup q G sig :
  pq_inv q G →
  match pq_sigs q G !! sig with
  | None => sx_find (pq_sx q) sig = Ok None
  | Some o => ∃ x se, sx_find (pq_sx q) sig = Ok (Some x) ∧ rd (sx_sxep (pq_sx q)) x = Ok se ∧ se_offset se = o
  end.
Proof.
  intros Hinv. pose proof (pv_sx _ _ Hinv) as Hsx. destruct (sx_find_spec _ _ _ sig Hsx) as (r & Hrun & Hr).
  destruct (pq_sigs q G !! sig) as [o|] eqn:Hs; unfold pq_sigs in Hs.
  - apply (sx_view_lookup _ _ _ Hsx) in Hs as (x & Hx & Hsig & Ho). destruct r as [y|]; [|by destruct (Hr x Hx)].
    destruct Hr as [Hy Hsy]. destruct (sx_elem _ _ _ Hsx y) as (se & Hse); [set_solver|].
    exists y, se. split; [done|]. split; [by apply rd_Ok|].
    assert (x = y) as ->; [|unfold sx_off in Ho; by rewrite Hse in Ho].
    apply (xi_distinct _ _ _ Hsx); [done..|congruence].
  - destruct r as [y|]; [|done]. destruct Hr as [Hy Hsy]. by destruct (proj1 (sx_view_None _ _ _ Hsx sig) Hs y Hy).
Qed.

(** The time at which the search begins is before the end of time. *)
Definition search_ok (interval : Z) (info : prod_info) : Prop :=
  let c := Timestamp (tv_sec (pi_arrival info) - interval) (tv_usec (pi_arrival info)) in
  TV_CMP_LT TS_ENDT c = false ∧ c ≠ TS_ENDT.

Section bysig.
Context (q : pqueue W) (G : ghost) (cf xf : Z) (rs : list riu) (interval : Z) (sig : signaturet).
Context (Hinv : pq_inv q G) (Hrs : g_rs G = session q cf xf rs) (Hbt : between q rs).
Context (o : Z) (info : prod_info) (Hsig : pq_sigs q G !! sig = Some o) (Hat : prod_at q G o info).
Context (Hq : o ∈ (pq_queue q G).*2) (Hok : search_ok interval info).

Definition find_post (r : res (Z * option Z * pqueue W)) : Prop :=
  ((o ∈ held rs) ∧
    ((r = Err AssertFail ∧ rl_nelems (pq_rl q) ≤ Z.of_nat (length rs)) ∨ r = Ok (EACCES, None, q))) ∨
  (refused W ∧ ∃ st q', st ≠ 0 ∧ r = Ok (st, None, q') ∧ relocked q G q') ∨
  ((o ∉ held rs) ∧ ∃ t q', t ∈ g_ns G ∧ tq_off (tq_tqep (pq_tq q)) t = o ∧ r = Ok (0, Some t, q') ∧ relocked q G q').

Lemma pq_findTimeEntry_spec : find_post (pq_findTimeEntryBySignature q interval sig).
Proof.
  unfold pq_findTimeEntryBySignature. pose proof (sig_lookup q G sig Hinv) as Hl. rewrite Hsig in Hl.
  destruct Hl as (x & se & -> & Hrd & Ho). rewrite bind_Ok, Hrd, bind_Ok, Ho.
  destruct Hat as (e & Hreg & Hx). apply (pv_regions_lookup _ _ Hinv) in Hreg as (n & Hn & Hno & He).
  rewrite <- Hno, <- He in Hx.
  pose proof (pq_getMetadata_spec q G cf xf rs n info Hinv Hrs Hbt Hn Hx) as Hmeta. rewrite Hno in Hmeta.
  unfold meta_post in Hmeta. rewrite Hno in Hmeta.
  destruct Hmeta as [[Hh [[Hr Hlt]|Hr]]|[[Hrf (st & q' & Hst & Hr & Hrel)]|[Hh (q' & Hr & Hrel)]]]; rewrite Hr.
  - left. split; [done|]. by left.
  - left. split; [done|]. by right.
  - right; left. split; [done|]. rewrite bind_Ok.
    destruct (Z.eqb_spec st PQ_NOTFOUND) as [->|]; eexists _, q'; (split; [|split; [reflexivity|done]]); done.
  - right; right. split; [done|]. rewrite bind_Ok. simpl (0 =? _). cbv iota.
    pose proof (relocked_inv _ _ _ Hinv Hrel) as Hinv'. destruct Hok as [Hle Hne].
    destruct (search_time_spec q' G Hinv' _ o Hle Hne) as (r & -> & Hres). rewrite bind_Ok.
    assert (pq_tq q' = pq_tq q) as Htq by by destruct Hrel as (w & rl & -> & _).
    unfold time_entry in Hres. rewrite Htq in Hres. destruct Hres as [(t & Ht & Hto & ->)|[Hnone _]].
    + by exists t, q'.
    + exfalso. apply list_elem_of_fmap in Hq as ([tv o'] & Heq & Hin). simpl in Heq. subst o'.
      unfold pq_queue, tq_view in Hin. apply list_elem_of_fmap in Hin as (t & Hp & Ht). injection Hp as _ Hto. by destruct (Hnone t Ht).
Qed.
End bysig.

(** ** [pq_setCursorFromSignature()] *)

(** A product of the queue has the signature, and the search for it can begin. *)
Definition sig_ok q G (interval : Z) (sig : signaturet) : Prop :=
  ∀ o, pq_sigs q G !! sig = Some o →
    o ∈ (pq_queue q G).*2 ∧ ∀ info, prod_at q G o info → search_ok interval info.

Lemma queue_at q G o : pq_inv q G → o ∈ (pq_queue q G).*2 → ∃ info, prod_at q G o info.
Proof.
  intros Hinv ([tv o'] & -> & Hp)%list_elem_of_fmap.
  destruct (pv_prods _ _ Hinv _ Hp) as (e & info & H1 & H2 & _). exists info. by exists e.
Qed.

(** What it promises: the cursor is at the product, or nothing has changed. *)
Definition setcursor_post q G (sig : signaturet) (r : res (Z * pqueue W)) : Prop :=
  let same q' := moved q (pq_cursor q) (pq_cursor_offset q) (pq_locked_count q) q' ∧ pq_out q' G in
  (refused W ∧ ∃ st q', st ≠ 0 ∧ r = Ok (st, q') ∧ same q') ∨
  match pq_sigs q G !! sig with
  | None => ∃ q', r = Ok (PQ_NOTFOUND, q') ∧ same q'
  | Some o =>
      ((o ∈ held (g_rs G)) ∧ (r = Err AssertFail ∨ ∃ q', r = Ok (EACCES, q') ∧ same q')) ∨
      ∃ tv q', (tv, o) ∈ pq_queue q G ∧ r = Ok (0, q') ∧ moved q tv o (pq_locked_count q) q' ∧ pq_out q' G
  end.

Section setcursor.
Context (q : pqueue W) (G : ghost) (Hout : pq_out q G) (interval : Z) (sig : signaturet).
Context (Hok : sig_ok q G interval sig).
Abbreviation cur := (pq_cursor q).
Abbreviation coff := (pq_cursor_offset q).
Abbreviation lc := (pq_locked_count q).

Lemma setcursor_leave c o w rl :
  same_mem (pq_sys q) w → riul_inv rl (rsession q (g_rs G)) →
  ∃ st q', ctl_rel (reading q c o lc w rl) 0 = Ok (st, q') ∧ moved q c o lc q' ∧ pq_out q' G.
Proof.
  intros Hm Hrl.
  destruct (reading_leave q G Hout c o lc w rl Hm _ Hrl (out_mine q G Hout) (po_rs _ _ Hout))
    as (st & q' & Hrel & Hmv & Hout' & _). rewrite (with_rs_id G _ eq_refl) in Hout'. eauto 10.
Qed.

Lemma pq_setCursor_spec : setcursor_post q G sig (pq_setCursorFromSignature q interval sig).
Proof.
  unfold pq_setCursorFromSignature, setcursor_post. pose proof (po_inv _ _ Hout) as Hinv.
  destruct (reading_start q G cur coff lc Hout) as (st & q1 & Hget & Hcase).
  assert (reads q cur coff lc = q) as Hq by by destruct q. rewrite Hq in Hget. rewrite Hget, bind_Ok.
  destruct Hcase as [(-> & w & rl & -> & Hm & Hrl)|(Hst & Hrf & Hmv & Hout')]; cycle 1.
  { left. split; [done|]. rewrite (proj2 (Z.eqb_neq _ _) Hst). by exists st, q1. }
  simpl negb. cbv iota.
  pose proof (reading_inv q G Hout cur coff lc w rl Hm _ Hrl (out_mine q G Hout)) as Hinv1.
  destruct (pq_sigs q G !! sig) as [o|] eqn:Hsig; cycle 1.
  { right. unfold pq_findTimeEntryBySignature.
    pose proof (sig_lookup _ _ sig Hinv1) as Hl. change (pq_sigs _ _) with (pq_sigs q G) in Hl. rewrite Hsig in Hl.
    rewrite Hl, !bind_Ok. destruct (setcursor_leave cur coff w rl Hm Hrl) as (st & q' & -> & ?).
    rewrite bind_Ok. by exists q'. }
  destruct (Hok o Hsig) as [Hin Hso]. destruct (queue_at q G o Hinv Hin) as [info Hat].
  assert (prod_at (reading q cur coff lc w rl) (with_rs G (rsession q (g_rs G))) o info) as Hat1.
  { destruct Hat as (e & ? & ?). exists e. split; [done|]. simpl. by rewrite Hm. }
  pose proof (pq_findTimeEntry_spec _ _ 0 RGN_NOLOCK (g_rs G) interval sig Hinv1 eq_refl (po_rs _ _ Hout) o info
    Hsig Hat1 Hin (Hso info Hat)) as Hf. unfold find_post in Hf.
  destruct Hf as [[Hh [[Hr _]|Hr]]|[[Hrf (st & q' & Hst & Hr & w' & rl' & -> & Hm' & Hrl')]
    |[_ (t & q' & Ht & Hto & Hr & w' & rl' & -> & Hm' & Hrl')]]]; rewrite Hr; try rewrite !bind_Ok.
  - right. left. split; [done|]. by left.
  - right. left. split; [done|]. right. destruct (setcursor_leave cur coff w rl Hm Hrl) as (st & q' & -> & ?).
    rewrite bind_Ok. by exists q'.
  - left. split; [done|].
    destruct (setcursor_leave cur coff w' rl' (same_mem_trans _ _ _ Hm Hm') Hrl') as (st2 & q' & Hrel & ?).
    change (set_riul _ _) with (reading q cur coff lc w' rl'). rewrite Hrel, bind_Ok. by exists st, q'.
  - right. right. destruct (find_region_queue q G t Hinv Ht) as (te & n & Hrd & Hte & _).
    change (rd _ t) with (rd (tq_tqep (pq_tq q)) t). rewrite Hrd, bind_Ok.
    destruct (queue_time q G _ Hinv (queue_entry q G t Ht)) as (Hv & Hpos & Hlt). rewrite <- Hte in Hv, Hpos, Hlt.
    rewrite (cset_time _ _ Hv Hpos Hlt), !bind_Ok. injection Hte as Htv Hoff.
    destruct (setcursor_leave (te_tv te) (te_offset te) w' rl' (same_mem_trans _ _ _ Hm Hm') Hrl')
      as (st2 & q' & Hrel & ? & ?).
    change (pq_coffset _ _) with (reading q (te_tv te) (te_offset te) lc w' rl'). rewrite Hrel, bind_Ok.
    exists (te_tv te), q'. simpl in Hto. rewrite Hto in Hoff. rewrite Hoff in *.
    split; [|done]. rewrite Htv, <- Hto. exact (queue_entry q G t Ht).
Qed.
End setcursor.

(** ** [pq_deleteBySignature()] *)

(** What it promises: the product is gone from all indexes, or nothing has changed. *)
Definition delete_post q G (sig : signaturet) (r : res (Z * pqueue W)) : Prop :=
  let same q' := pq_out q' G ∧ pq_sh q' = pq_sh q ∧ pq_cfg q' = pq_cfg q in
  (refused W ∧ ∃ st q', st ≠ 0 ∧ r = Ok (st, q') ∧ same q') ∨
  match pq_sigs q G !! sig with
  | None => ∃ q', r = Ok (PQ_NOTFOUND, q') ∧ same q'
  | Some o =>
      ((o ∈ held (g_rs G)) ∧ (r = Err AssertFail ∨ ∃ q', r = Ok (PQ_CORRUPT, q') ∧ same q')) ∨
      ∃ tv A B q' G', r = Ok (0, q') ∧ pq_out q' G' ∧ pq_cfg q' = pq_cfg q ∧ g_rs G' = g_rs G ∧ g_lk G' = g_lk G ∧
        pq_queue q G = A ++ (tv, o) :: B ∧ pq_queue q' G' = A ++ B ∧
        pq_regions q' G' = delete o (pq_regions q G) ∧ pq_sigs q' G' = delete sig (pq_sigs q G)
  end.

Section delete.
Context (q : pqueue W) (G : ghost) (Hout : pq_out q G) (Hwr : pq_writable q) (Hspare : 4 ≤ fb_spare (pq_fb q)).
Context (interval : Z) (sig : signaturet) (Hok : sig_ok q G interval sig).
Abbreviation ses := (session q RGN_WRITE (Z.lor RGN_WRITE RGN_NOLOCK) (g_rs G)).
Abbreviation writing w rl := (env q (pf_in (pq_pflags q) RGN_WRITE) w rl true true).

(** The end of the session. *)
Lemma delete_leave w rl q2 G2 :
  pq_inv q2 G2 → pq_cfg q2 = pq_cfg (writing w rl) → g_lb G2 = [] → g_rs G2 = ses →
  ∃ st q', ctl_rel q2 0 = Ok (st, q') ∧ pq_out q' (with_rs G2 (g_rs G)) ∧ pq_cfg q' = pq_cfg q ∧ pq_sh q' = pq_sh q2.
Proof.
  intros Hinv Hcfg Hlb Hrs.
  destruct (leave_spec q RGN_WRITE w rl (g_rs G) (po_sigs _ _ Hout) (po_ptrs _ _ Hout) q2 G2 Hinv Hcfg Hlb
    (po_rs _ _ Hout) Hrs 0) as (st & q' & ? & ? & ? & ? & _); [by split_and!; auto|done|eauto 10].
Qed.

Lemma delete_same w rl :
  same_mem (pq_sys q) w → riul_inv rl ses →
  ∃ st q', ctl_rel (writing w rl) 0 = Ok (st, q') ∧ pq_out q' G ∧ pq_sh q' = pq_sh q ∧ pq_cfg q' = pq_cfg q.
Proof.
  intros Hm Hrl. destruct (delete_leave w rl _ _ (get_inv q G RGN_WRITE Hout w rl Hm Hrl) eq_refl (po_lb _ _ Hout) eq_refl)
    as (st & q' & H1 & H2 & H3 & H4).
  change (with_rs (with_rs G ses) (g_rs G)) with (with_rs G (g_rs G)) in H2.
  rewrite (with_rs_id G _ eq_refl) in H2. by exists st, q'.
Qed.

(** The product is found; its deletion and the end of the session. *)
Section found.
Context (w : W) (rl : riul) (Hm : same_mem (pq_sys q) w) (Hrl : riul_inv rl ses) (t n o : Z).
Context (Ht : t ∈ g_ns G) (Hn : n ∈ g_us G) (Hto : tq_off (tq_tqep (pq_tq q)) t = o).
Context (Hno : rg_off (rl_rp (pq_rl q)) n = o) (Hh : o ∉ held (g_rs G)) (Hsig : pq_sigs q G !! sig = Some o).
Abbreviation qs := (writing w rl).
Abbreviation Gs := (with_rs G ses).

Lemma delete_pre :
  pq_inv qs Gs ∧ Z.of_nat (length (g_rs Gs)) ≤ rl_nelems (pq_rl qs) + 1 ∧ pq_writable qs.
Proof.
  pose proof (get_inv q G RGN_WRITE Hout w rl Hm Hrl) as Hinv. split; [done|]. split.
  - apply (session_count qs Gs RGN_WRITE (Z.lor RGN_WRITE RGN_NOLOCK) (g_rs G) n Hinv eq_refl (po_rs _ _ Hout) Hn).
    simpl. by rewrite Hno.
  - unfold pq_writable in *. simpl. by rewrite pf_in_readonly.
Qed.

Lemma delete_busy : pq_busy qs Gs o = true → refused W.
Proof.
  destruct delete_pre as (Hinv & _). unfold pq_busy. rewrite bool_decide_false.
  - rewrite orb_false_l. intros Hst. eapply (try_lock_refused qs). intros Hz. rewrite Hz in Hst. discriminate Hst.
  - intros (r & Hor & Hr)%list_elem_of_fmap. apply Hh. rewrite <- Hno.
    apply (session_held qs Gs RGN_WRITE _ (g_rs G) n Hinv eq_refl (po_rs _ _ Hout) Hn r Hr). simpl. congruence.
Qed.

Lemma delete_found :
  delete_post q G sig
    (let! '(status, q) :=
       let! '(status, _, q) := pq2_try_del_prod qs t n in
       Ok (if status =? EACCES then PQ_LOCKED else status, q) in
     let! '(_, q) := ctl_rel q 0 in Ok (status, q)).
Proof.
  destruct delete_pre as (Hinv & Hcnt & Hwr1). unfold delete_post. rewrite Hsig.
  pose proof Ht as (l1 & l2 & Hns)%list_elem_of_split.
  destruct (try_del_cases qs Gs Hinv Hcnt Hspare Hwr1 l1 t l2 n Hns Hn)
    as [[Hbusy Hrun]|[_ [(info & q3 & G3 & Hrun & _ & Hdel)|(w3 & Hrun & Hm3 & Hrf)]]];
    [simpl; congruence|..]; simpl (pq_tq qs) in *; rewrite ?Hto in *; rewrite Hrun, !bind_Ok.
  - left. split; [by apply delete_busy|]. destruct (delete_same w rl Hm Hrl) as (st & q' & -> & Hs).
    rewrite bind_Ok. by exists PQ_LOCKED, q'.
  - right. right. destruct Hdel as [Hinv3 (e & Hreg & Hinfo) Hbefore Hafter Hregs Hsigs Hmine Htr Hlost _ _ _ (Hcfg & _)].
    destruct (delete_leave w rl q3 G3 Hinv3 Hcfg) as (st & q' & -> & Hout' & Hcfg' & Hsh').
    { rewrite Htr. exact (po_lb _ _ Hout). }
    { by rewrite Hmine. }
    rewrite bind_Ok. eexists _, _, _, q', _. split; [reflexivity|]. split; [exact Hout'|]. split; [done|].
    split; [done|]. split; [exact Hlost|]. split; [exact Hbefore|].
    unfold pq_queue, pq_regions, pq_sigs in Hafter, Hregs, Hsigs |- *. rewrite Hsh'. simpl.
    split; [exact Hafter|]. split; [exact Hregs|]. rewrite Hsigs. f_equal.
    destruct (pv_prods _ _ Hinv (tq_key (tq_tqep (pq_tq q)) t, o)) as (e2 & info2 & Hreg2 & Hinfo2 & Hs2 & _).
    { rewrite Hbefore. set_solver. }
    cbn [snd] in Hreg2, Hinfo2, Hs2. assert (e2 = e) as -> by congruence. assert (info2 = info) as -> by congruence.
    by apply (pv_sigs_inj _ _ Hinv _ _ o).
  - left. split; [done|]. destruct (delete_same w3 rl (same_mem_trans _ _ _ Hm Hm3) Hrl) as (st & q' & Hrel & Hs).
    change (set_sys qs w3) with (writing w3 rl). rewrite Hrel, bind_Ok. by exists PQ_SYSTEM, q'.
Qed.
End found.

Lemma pq_deleteBySignature_spec : delete_post q G sig (pq_deleteBySignature q interval sig).
Proof.
  unfold pq_deleteBySignature. pose proof (po_inv _ _ Hout) as Hinv.
  destruct (ctl_get_spec q G RGN_WRITE Hout (λ _, Hwr) (or_intror eq_refl)) as (st & q1 & -> & w & rl & Hm & Hcase).
  rewrite bind_Ok. destruct Hcase as [(-> & -> & Hrl)|(Hst & Hrf & -> & Hrl)]; cycle 1.
  { left. split; [done|]. rewrite (proj2 (Z.eqb_neq _ _) Hst). eexists _, _. split; [|split; [reflexivity|]]; [done|].
    split; [exact (out_again q G Hout w rl Hm Hrl)|]. split; [done|].
    destruct (po_ptrs _ _ Hout) as [Hc Hi]. unfold pq_cfg. simpl. by rewrite Hc, Hi. }
  simpl negb. cbv iota. pose proof (get_inv q G RGN_WRITE Hout w rl Hm Hrl) as Hinv1.
  pose proof (sig_lookup _ _ sig Hinv1) as Hl. change (pq_sigs (env _ _ _ _ _ _) _) with (pq_sigs q G) in Hl.
  destruct (pq_sigs q G !! sig) as [o|] eqn:Hsig; cycle 1.
  { rewrite Hl, !bind_Ok. destruct (delete_same w rl Hm Hrl) as (st & q' & -> & ?). rewrite bind_Ok.
    right. rewrite Hsig. by exists q'. }
  destruct Hl as (x & se & -> & Hrd & Ho). rewrite bind_Ok, Hrd, bind_Ok, Ho.
  destruct (Hok o Hsig) as [Hin Hso]. destruct (queue_at q G o Hinv Hin) as [info Hat].
  pose proof Hat as (e & (n & Hn & Hno & He)%(pv_regions_lookup _ _ Hinv) & Hx).
  destruct (rl_find_us q G n Hinv Hn) as [Hfind Hne]. rewrite Hno in Hfind. simpl pq_rl. rewrite Hfind, bind_Ok.
  rewrite (proj2 (Z.eqb_neq _ _) Hne).
  assert (prod_at (writing w rl) (with_rs G ses) o info) as Hat1.
  { destruct Hat as (e1 & ? & ?). exists e1. split; [done|]. simpl. by rewrite Hm. }
  pose proof (pq_findTimeEntry_spec _ _ RGN_WRITE (Z.lor RGN_WRITE RGN_NOLOCK) (g_rs G) interval sig Hinv1 eq_refl
    (po_rs _ _ Hout) o info Hsig Hat1 Hin (Hso info Hat)) as Hf. unfold find_post in Hf.
  destruct Hf as [[Hh [[Hr _]|Hr]]|[[Hrf (st & q' & Hst & Hr & w' & rl' & -> & Hm' & Hrl')]
    |[Hh (t & q' & Ht & Hto & Hr & w' & rl' & -> & Hm' & Hrl')]]]; rewrite Hr; try rewrite !bind_Ok.
  - right. rewrite Hsig. left. split; [done|]. by left.
  - right. rewrite Hsig. left. split; [done|]. right. destruct (delete_same w rl Hm Hrl) as (st & q' & -> & ?).
    rewrite bind_Ok. by exists q'.
  - left. split; [done|]. rewrite (proj2 (Z.eqb_neq _ _) Hst).
    destruct (delete_same w' rl' (same_mem_trans _ _ _ Hm Hm') Hrl') as (st2 & q' & Hrel & ?).
    change (set_riul _ _) with (writing w' rl'). simpl negb. cbv iota. rewrite Hrel, bind_Ok. by exists PQ_CORRUPT, q'.
  - exact (delete_found w' rl' (same_mem_trans _ _ _ Hm Hm') Hrl' t n o Ht Hn Hto Hno Hh Hsig).
Qed.
End delete.
End find.
