(* ===== verification/PqProcess.v ===== *)
(** * Processing a product by its signature

    What [pq_processProduct()] does on a well-formed queue; and that [pq_release()]
    undoes what [pq_sequenceLock()] has locked. *)

From S2P Require Import Prelude Timestamp NumTheory Fb SkipList TimeQueue RegionList RegionHash.
From S2P Require Import RegionAlloc RegionThms SigIndex Riul Sizes PqShare PqCore Xlen ProdClass PqOps PqCtl.
From S2P Require Import PqRead PqInv PqAccess PqDelete PqRoom PqSession PqSeq PqSearch PqFind.

Section process.
Context {W : Type} {Sys : System W} {Laws : SystemLaws W} {A : Type}.
Implicit Types (q : pqueue W) (G : ghost).

(** The function is called with the product, or nothing happens. *)
Definition process_post q G (sig : signaturet) (f : pq_seqfunc (W:=W) (A:=A)) (a : A)
    (r : res (Z * A * pqueue W)) : Prop :=
  let same q' := moved q (pq_cursor q) (pq_cursor_offset q) (pq_locked_count q) q' ∧ pq_out q' G in
  (refused W ∧ (r = Err AssertFail ∨ ∃ q', r = Ok (PQ_SYSTEM, a, q') ∧ same q')) ∨
  match pq_sigs q G !! sig with
  | None => ∃ q', r = Ok (PQ_NOTFOUND, a, q') ∧ same q'
  | Some o =>
      ((o ∈ held (g_rs G)) ∧ (r = Err AssertFail ∨ ∃ q', r = Ok (PQ_SYSTEM, a, q') ∧ same q')) ∨
      ∃ e info w st a' w' q', pq_regions q G !! o = Some e ∧
        xdr_prod_info (pq_base q + o) e (pq_sys q) = Some (info, xlen_prod_info info) ∧ same_mem (pq_sys q) w ∧
        f info (pq_base q + o + xlen_prod_info info) (pq_base q + o) e a w = (st, a', w') ∧
        r = Ok (st, a', q') ∧ same q'
  end.

Section on.
Context (q : pqueue W) (G : ghost) (Hout : pq_out q G) (sig : signaturet) (f : pq_seqfunc (W:=W) (A:=A)) (a : A).
Context (Hcalm : ∀ info d p n a w, same_mem w (f info d p n a w).2).
Abbreviation cur := (pq_cursor q).
Abbreviation coff := (pq_cursor_offset q).
Abbreviation lc := (pq_locked_count q).

(** The rest of [pq_processProduct()]. *)
Definition process_rest (r : Z * bool * A * pqueue W) : res (Z * A * pqueue W) :=
  let '(status, controlRegionLocked, a, q) := r in
  if controlRegionLocked then
    let! '(_, q) := ctl_rel q 0 in Ok (status, a, q)
  else Ok (status, a, q).

Section at_offset.
Context (w : W) (rl : riul) (Hm : same_mem (pq_sys q) w) (Hrl : riul_inv rl (rsession q (g_rs G))).
Context (o n : Z) (info : prod_info) (Hsig : pq_sigs q G !! sig = Some o) (Hn : n ∈ g_us G).
Context (Ho : rg_off (rl_rp (pq_rl q)) n = o).
Abbreviation e := (rext (rl_rp (pq_rl q)) n).
Context (Hinfo : xdr_prod_info (pq_base q + o) e (pq_sys q) = Some (info, xlen_prod_info info)).
Abbreviation qs := (reading q cur coff lc w rl).
Abbreviation Gs := (with_rs G (rsession q (g_rs G))).

(** After the end of the session, whatever its status. *)
Lemma process_unlocked st q3 L R :
  g_rs G = L ++ R → moved q cur coff lc q3 → pq_out q3 (with_rs G (L ++ prod_riu q o e :: R)) →
  (st ≠ 0 → refused W) →
  process_post q G sig f a
    (let! r :=
       let '(status, locked, a, q) :=
         if negb (st =? 0) then (PQ_SYSTEM, true, a, q3)
         else
           match xdr_prod_info (pq_base q + o) e (pq_sys q3) with
           | None => (PQ_SYSTEM, false, a, q3)
           | Some (info, pos) =>
               let '(status, a, w) := f info (pq_base q + o + pos) (pq_base q + o) e a (pq_sys q3) in
               (status, false, a, set_sys q3 w)
           end in
       let! '(_, q) := rgn_rel q o 0 in
       Ok (status, locked, a, q) in
     process_rest r).
Proof.
  intros HG Hmv Hout3 Hst. unfold process_post. rewrite Hsig.
  assert (∀ q4, moved q cur coff lc q4 → pq_out q4 (with_rs G (L ++ prod_riu q o e :: R)) →
    ∃ st q5, rgn_rel q4 o 0 = Ok (st, q5) ∧ moved q cur coff lc q5 ∧ pq_out q5 G) as Hrel.
  { intros q4 (w4 & rl4 & Hm4 & ->) Hout4.
    destruct (rgn_rel_out _ _ L (prod_riu q o e) R Hout4 eq_refl) as (st4 & w5 & rl5 & Hrun & Hout5 & Hm5 & _).
    eexists _, _. split; [exact Hrun|]. split; [exists w5, rl5; split; [exact (same_mem_trans _ _ _ Hm4 Hm5)|done]|].
    change (with_rs (with_rs G _) (L ++ R)) with (with_rs G (L ++ R)) in Hout5. by rewrite (with_rs_id G _ HG) in Hout5. }
  destruct (Z.eqb_spec st 0) as [->|Hne]; cycle 1.
  { left. split; [by apply Hst|]. left. simpl negb. cbv iota.
    destruct (Hrel q3 Hmv Hout3) as (st5 & q5 & -> & _ & Hout5). rewrite !bind_Ok. unfold process_rest, ctl_rel.
    by rewrite (proj1 (po_ptrs _ _ Hout5)). }
  right. right. pose proof Hmv as (w3 & rl3 & Hm3 & Hq3). simpl negb. cbv iota.
  assert (pq_sys q3 = w3) as Hw by by rewrite Hq3. rewrite Hw, Hm3, Hinfo.
  pose proof (Hcalm info (pq_base q + o + xlen_prod_info info) (pq_base q + o) e a w3) as Hm4.
  destruct (f _ _ _ _ _ _) as [[st a'] w'] eqn:Hf. simpl in Hm4. rewrite <- Hw in Hm4.
  destruct (moved_sys _ _ _ _ _ _ _ Hmv Hout3 Hm4) as [Hmv4 Hout4].
  destruct (Hrel _ Hmv4 Hout4) as (st5 & q5 & -> & Hmv5 & Hout5). rewrite !bind_Ok.
  exists e, info, w3, st, a', w', q5. split; [|by rewrite Hinfo].
  apply (pv_regions_lookup _ _ (po_inv _ _ Hout)). eauto.
Qed.

(** The session ends and nothing has happened. *)
Lemma process_same w1 rl1 :
  same_mem (pq_sys q) w1 → riul_inv rl1 (rsession q (g_rs G)) →
  ∃ q', process_rest (PQ_SYSTEM, true, a, reading q cur coff lc w1 rl1) = Ok (PQ_SYSTEM, a, q') ∧
    moved q cur coff lc q' ∧ pq_out q' G.
Proof.
  intros Hm1 Hrl1. destruct (setcursor_leave q G Hout cur coff w1 rl1 Hm1 Hrl1) as (st & q' & Hrel & Hs).
  exists q'. unfold process_rest. by rewrite Hrel, bind_Ok.
Qed.

Lemma process_at_spec : process_post q G sig f a (let! r := process_at qs f a o in process_rest r).
Proof.
  pose proof (reading_inv q G Hout cur coff lc w rl Hm _ Hrl (out_mine q G Hout)) as Hinv1.
  unfold process_at. destruct (rl_find_us q G n (po_inv _ _ Hout) Hn) as [Hfind Hne]. rewrite Ho in Hfind.
  change (rl_find (pq_rl qs) o) with (rl_find (pq_rl q) o). rewrite Hfind, bind_Ok, (proj2 (Z.eqb_neq _ _) Hne).
  destruct (pv_region_at _ _ (po_inv _ _ Hout) n ltac:(set_solver)) as (r & Hr & _ & Hre).
  change (rd (rl_rp (pq_rl qs)) n) with (rd (rl_rp (pq_rl q)) n). rewrite (rd_Ok _ _ _ Hr), bind_Ok, Hre.
  destruct (decide (o ∈ held (g_rs G))) as [Hh|Hh].
  - pose proof (rgn_get_held qs Gs 0 RGN_NOLOCK (g_rs G) n Hinv1 eq_refl (po_rs _ _ Hout) Hn) as Hget.
    simpl in Hget. rewrite Ho in Hget. specialize (Hget Hh). right. rewrite Hsig. left. split; [done|].
    destruct (_ <? _); rewrite Hget; [|by left]. right. rewrite !bind_Ok. by apply process_same.
  - destruct (rgn_get_free qs Gs 0 RGN_NOLOCK (g_rs G) n Hinv1 eq_refl (po_rs _ _ Hout) Hn)
      as (st1 & w1 & rl1 & Hget & Hm1 & Hcase); [simpl; by rewrite Ho|].
    simpl rl_rp in Hget, Hcase. rewrite Ho in Hget, Hcase. rewrite Hget, bind_Ok.
    pose proof (same_mem_trans _ _ _ Hm Hm1) as Hm2. change (set_riul (set_sys qs w1) rl1) with (reading q cur coff lc w1 rl1).
    destruct Hcase as [(-> & L & R & HG & Hrl1)|(Hst & Hrf1 & Hrl1)].
    + simpl negb. cbv iota. simpl (0 =? 0). cbv iota.
      destruct (reading_leave q G Hout cur coff lc w1 rl1 Hm2 _ Hrl1) as (st3 & q3 & Hrel & Hmv & Hout3 & Hrf);
        [by intros r' Hr'; apply (with_product_mine q G n L R r' Hout Hn HG); rewrite Ho..|].
      rewrite Hrel, bind_Ok. exact (process_unlocked st3 q3 L R HG Hmv Hout3 Hrf).
    + left. split; [done|]. right. rewrite (proj2 (Z.eqb_neq _ _) Hst). simpl negb. cbv iota. rewrite bind_Ok.
      by apply process_same.
Qed.
End at_offset.

Lemma pq_processProduct_spec :
  (∀ o, pq_sigs q G !! sig = Some o → o ∈ (pq_queue q G).*2) →
  process_post q G sig f a (pq_processProduct q sig f a).
Proof.
  intros Hq. unfold pq_processProduct. pose proof (po_inv _ _ Hout) as Hinv.
  destruct (reading_start q G cur coff lc Hout) as (st & q1 & Hget & Hcase).
  assert (reads q cur coff lc = q) as Hqq by by destruct q. rewrite Hqq in Hget. rewrite Hget, bind_Ok.
  destruct Hcase as [(-> & w & rl & -> & Hm & Hrl)|(Hst & Hrf & Hmv & Hout')]; cycle 1.
  { left. split; [done|]. rewrite (proj2 (Z.eqb_neq _ _) Hst). right. by exists q1. }
  simpl negb. cbv iota.
  pose proof (reading_inv q G Hout cur coff lc w rl Hm _ Hrl (out_mine q G Hout)) as Hinv1.
  pose proof (sig_lookup _ _ sig Hinv1) as Hl. change (pq_sigs (reading _ _ _ _ _ _) _) with (pq_sigs q G) in Hl.
  destruct (pq_sigs q G !! sig) as [o|] eqn:Hsig; cycle 1.
  { rewrite Hl, !bind_Ok. destruct (setcursor_leave q G Hout cur coff w rl Hm Hrl) as (st & q' & -> & ?).
    rewrite bind_Ok. right. rewrite Hsig. by exists q'. }
  destruct Hl as (x & se & -> & Hrd & Ho). rewrite bind_Ok, Hrd, bind_Ok, Ho.
  destruct (queue_at q G o Hinv (Hq o eq_refl)) as (info & e & Hreg & Hinfo).
  apply (pv_regions_lookup _ _ Hinv) in Hreg as (n & Hn & Hno & <-).
  exact (process_at_spec w rl Hm Hrl o n info Hsig Hn Hno Hinfo).
Qed.
End on.

(** ** [pq_release()] *)

Lemma pq_release_spec q G L r R :
  pq_out q G → g_rs G = L ++ r :: R → ¬ refused W →
  ∃ q', pq_release q (ru_offset r) = Ok (0, q') ∧ pq_out q' (with_rs G (L ++ R)) ∧
    moved q (pq_cursor q) (pq_cursor_offset q) (pq_locked_count q - 1) q'.
Proof.
  intros Hout Hrs Hrf. destruct (rgn_rel_out _ _ L r R Hout Hrs) as (st & w & rl & Hrun & Hout' & Hm & Hst).
  unfold pq_release. rewrite Hrun, bind_Ok. destruct (Z.eqb_spec st 0) as [->|Hne]; [|by destruct Hrf; apply Hst].
  simpl. eexists. split; [done|]. split; [exact (reads_out _ _ (pq_cursor q) (pq_cursor_offset q) (pq_locked_count q - 1) Hout')|].
  exists w, rl. by split.
Qed.

(** What the process does not have cannot be released. *)
Lemma pq_release_absent q G o :
  pq_out q G → pq_datao q ≤ o < pq_ixo q → o ∉ held (g_rs G) → pq_release q o = Ok (PQ_NOTFOUND, q).
Proof.
  intros Hout Ho Hh. pose proof (po_inv _ _ Hout) as Hinv. unfold pq_release.
  rewrite (rgn_rel_unfold _ _ _ (pv_config _ _ Hinv) (may_read q) Ho). unfold rgn2_release.
  destruct (riul_r_find_spec _ _ (pv_riul _ _ Hinv) o) as (found & L & R & -> & HLR & _ & HR). rewrite bind_Ok.
  destruct found; [|done]. destruct HR as (r & R' & -> & Hor). destruct Hh. rewrite <- Hor.
  apply list_elem_of_fmap_2. rewrite HLR. set_solver.
Qed.
End process.
