(* ===== verification/PqInsert.v ===== *)
(** * Insertion

    [pq_insertNoSig()] on a well-formed queue outside of a critical section: its
    outcomes, as an abstract step on the contents of the queue. *)

From S2P Require Import Prelude Timestamp NumTheory Fb SkipList TimeQueue RegionList RegionHash.
From S2P Require Import RegionAlloc RegionThms SigIndex Riul Sizes PqShare PqCore Xlen PqOps PqCtl.
From S2P Require Import PqInv PqAccess PqDelete PqRoom PqNew PqReserve PqSession.

Section insert.
Context {W : Type} {Sys : System W} {Laws : SystemLaws W}.
Implicit Types (q : pqueue W) (w : W).

Lemma pv_size q G : pq_core q G → size (pq_regions q G) = length (g_us G).
Proof.
  intros Hinv. destruct (pv_us _ _ Hinv) as [Hnd Hinj]. unfold pq_regions, rl_view.
  rewrite map_size_list_to_map; [by rewrite length_fmap|].
  rewrite <- list_fmap_compose. apply NoDup_fmap_2_strong; [|done]. intros x y Hx Hy. by apply Hinj.
Qed.

(** Regions in use do not overlap. *)
Lemma pv_disjoint q G o1 e1 o2 e2 :
  pq_core q G → pq_regions q G !! o1 = Some e1 → pq_regions q G !! o2 = Some e2 → o1 ≠ o2 →
  o1 + e1 ≤ o2 ∨ o2 + e2 ≤ o1.
Proof.
  intros Hinv. destruct (pv_rl_inv _ _ Hinv) as [U HU].
  destruct (rl_regions_apart _ _ _ _ _ _ _ _ _ _ HU) as (_ & Hd & _). apply Hd.
Qed.

(** The clock has not come near the end of time. *)
Definition before_endt (n : Z) : Prop :=
  ∀ w now w', gettimeofday w = (inr now, w') → us now + n < us TS_ENDT.

(** Another time queue, for the same regions and signatures. *)
Lemma inv_tq q G w tq f g ns fl lk :
  pq_inv q G →
  both tq (pq_rl q) f (pq_datao q) (pq_ixo q) ns fl lk (g_es G) (g_fs G) (g_us G) (g_lb G) (g_ts G) →
  tq_nalloc tq = tq_nalloc (pq_tq q) →
  (∀ p, p ∈ tq_view tq ns → prod_ok q G w p.2) → NoDup (tq_view tq ns).*2 →
  (∀ p, p ∈ tq_view tq ns → 0 < us p.1) →
  pq_inv (set_rng (set_tq_fb (set_sys q w) tq f) g)
    (Ghost ns fl lk (g_es G) (g_fs G) (g_us G) (g_lb G) (g_ts G) (g_xu G) (g_xf G) (g_rs G)).
Proof.
  intros [[[] _ Hsx Hri Hsl Hmi _ _ Hs1 Hs2 Hna Htm] Hby] Hb Hn Hp Hnd Htv. split; [|exact Hby].
  split; try assumption.
  - split; assumption.
  - simpl. by rewrite Hn.
Qed.

Lemma clock_spec w : ∃ now w', gettimeofday w = (inr now, w') ∧ ts_valid now ∧ 0 < us now ∧ same_mem w w'.
Proof.
  destruct (clock_time w) as (now & w' & Hclk & Hv & Hpos). exists now, w'. split_and!; [done..|].
  intros vp n. pose proof (clock_mem vp n w) as Hc. by rewrite Hclk in Hc.
Qed.

(** ** Entering an offset in the time queue *)

Section add.
Context (q : pqueue W) (G : ghost) (o : Z) (Hinv : pq_inv q G).
Context (Hprod : prod_ok q G (pq_sys q) o) (Hnew : o ∉ (pq_queue q G).*2).
Context (Hroom : (length (pq_queue q G) + length (g_lk G) < size (pq_regions q G))%nat).
Context (Htime : before_endt (pq_nalloc q)).

Lemma add_elems : g_fl G ≠ [] ∧ Z.of_nat (length (g_ns G)) ≤ pq_nalloc q.
Proof.
  destruct (pv_both _ _ Hinv) as (U & Ht & _). pose proof (tq_length _ _ _ _ _ _ Ht) as Hlen.
  destruct (pv_nalloc _ _ Hinv) as (_ & Hn & _). pose proof (pv_length _ _ Hinv) as Hl.
  rewrite (pv_size _ _ Hinv) in Hroom. unfold pq_queue, tq_view in Hroom. rewrite length_fmap in Hroom.
  clear Htime Hprod. split; [|lia]. intros Hfl. rewrite Hfl in Hlen. simpl in Hlen. lia.
Qed.

(** Only the time queue changes: the offset is in it, at the first free time from
    what the clock says, or there is no spare block. *)
Definition tq_added st q' G' : Prop :=
  pq_inv q' G' ∧ pq_cfg q' = pq_cfg q ∧ g_rs G' = g_rs G ∧ g_lb G' = g_lb G ∧
  pq_regions q' G' = pq_regions q G ∧ pq_sigs q' G' = pq_sigs q G ∧ same_mem (pq_sys q) (pq_sys q') ∧
  (length (pq_queue q' G') + length (g_lk G') ≤ size (pq_regions q G))%nat ∧
  ((st = 0 ∧ ∃ now w tv, gettimeofday (pq_sys q) = (inr now, w) ∧ abs_least_free now (pq_queue q G) tv ∧
      pq_queue q' G' = abs_insert tv o (pq_queue q G)) ∨
   (st = ENOSPC ∧ fb_spare (pq_fb q) = 0 ∧ pq_queue q' G' = pq_queue q G)).

Lemma pq_tq_add_spec : ∃ st q' G', pq_tq_add q o = Ok (st, q') ∧ tq_added st q' G'.
Proof.
  unfold pq_tq_add. destruct add_elems as [Hfl Hns]. pose proof (pv_both _ _ Hinv) as (U & Ht & Hr).
  rewrite (tq_HasSpace_spec _ _ _ _ _ _ Ht), bind_Ok, assert_Ok, bind_Ok by (by destruct (g_fl G)).
  destruct (clock_spec (pq_sys q)) as (now & w2 & Hclk & Hv & Hpos & Hm). rewrite Hclk.
  change (pq_tq (set_sys _ w2)) with (pq_tq q). change (pq_fb (set_sys _ w2)) with (pq_fb q).
  change (pq_rng (set_sys _ w2)) with (pq_rng q). pose proof (Htime _ _ _ Hclk) as Hend.
  destruct (both_tq_add _ _ _ _ _ _ _ _ _ _ _ _ _ (pq_rng q) now o (pv_both _ _ Hinv) Hfl Hv)
    as (st & tq' & f' & g' & ns' & lk' & Hadd & Hb' & Hna & Hst); [lia|].
  rewrite Hadd, bind_Ok.
  assert (∀ p, p ∈ pq_queue q G → prod_ok q G w2 p.2) as Hoth
    by (intros p Hp; exact (prod_ok_mem _ _ _ _ _ Hm (pv_prods _ _ Hinv p Hp))).
  destruct Hst as [(-> & -> & tv & Hlf & Hview)|(-> & Hsp0 & -> & Hlk & Hview)].
  - eexists 0, _, _. split; [reflexivity|]. split.
    { apply (inv_tq q G w2 tq' f' g'); [done|exact Hb'|done|..].
      - rewrite Hview. intros p Hp. rewrite abs_insert_perm in Hp. apply elem_of_cons in Hp as [->|Hp]; [|by apply Hoth].
        exact (prod_ok_mem _ _ _ _ _ Hm Hprod).
      - rewrite Hview, abs_insert_perm. csimpl. apply NoDup_cons. split; [done|]. exact (pv_offs _ _ Hinv).
      - rewrite Hview. intros p Hp. rewrite abs_insert_perm in Hp. apply elem_of_cons in Hp as [->|Hp].
        + destruct Hlf as (_ & Hle & _). simpl. lia.
        + by apply (pv_times _ _ Hinv). }
    split_and!; try done.
    + change (pq_queue _ _) with (tq_view tq' ns'). rewrite Hview, abs_insert_perm. simpl.
      unfold pq_queue in Hroom. lia.
    + left. split; [done|]. exists now, w2, tv. done.
  - eexists ENOSPC, _, _. split; [reflexivity|]. split.
    { apply (inv_tq q G w2 tq' f' g'); [done|exact Hb'|done|by rewrite Hview; apply Hoth| |].
      { rewrite Hview. exact (pv_offs _ _ Hinv). }
      rewrite Hview. exact (pv_times _ _ Hinv). }
    split_and!; try done.
    + change (pq_queue _ _) with (tq_view tq' (g_ns G)). simpl g_lk. rewrite Hview, Hlk.
      unfold pq_queue in Hroom. lia.
    + right. split; [done|]. split; [exact Hsp0|exact Hview].
Qed.
End add.

(** ** Entering the product in its region *)
Section enter.
Context (q : pqueue W) (G : ghost) (o e : Z) (prod : product).
Abbreviation extent := (xlen_product prod).
Abbreviation sig := (pi_signature (p_info prod)).
Context (Hinv : pq_inv q G) (Hreg : pq_regions q G !! o = Some e).
Context (Hsig : pq_sigs q G !! sig = Some o) (Hnew : o ∉ (pq_queue q G).*2).
Context (Hext : extent ≤ e < 2 ^ 32) (Hprod : product_ok prod).
Context (Hroom : (length (pq_queue q G) + length (g_lk G) < size (pq_regions q G))%nat).
Context (Htime : before_endt (pq_nalloc q)) (Hspare : 0 < fb_spare (pq_fb q)).

(** Other products are not touched by the encoding. *)
Lemma enter_others p :
  p ∈ pq_queue q G → prod_ok q G (xdr_product (pq_base q + o) extent prod (pq_sys q)).2 p.2.
Proof.
  intros Hp. destruct (pv_prods _ _ Hinv p Hp) as (e' & info & H1 & H2 & H3).
  exists e', info. split; [done|]. split; [|exact H3]. rewrite xdr_mem; [done|].
  destruct (pv_disjoint q G o e p.2 e' Hinv Hreg H1); [|lia|lia].
  intros ->. apply Hnew. by apply list_elem_of_fmap_2.
Qed.

Lemma enter_inv : pq_inv (set_sys q (xdr_product (pq_base q + o) extent prod (pq_sys q)).2) G.
Proof.
  pose proof enter_others as Hoth. set (w := (xdr_product _ _ _ _).2) in *.
  pose proof (inv_tq q G w (pq_tq q) (pq_fb q) (pq_rng q) _ _ _ Hinv (pv_both _ _ Hinv) eq_refl
    Hoth (pv_offs _ _ Hinv) (pv_times _ _ Hinv)) as Hinv'.
  assert (∀ x : pqueue W, set_rng (set_tq_fb x (pq_tq x) (pq_fb x)) (pq_rng x) = x) as Hid.
  { intros [? ? ? ? ? ? ? ? ? ? ? ? ? ? ? ? [] ? ?]. reflexivity. }
  specialize (Hid (set_sys q w)). simpl in Hid, Hinv'. rewrite Hid in Hinv'. by destruct G.
Qed.

(** The outcome: the product is encoded in its region and then entered at the first
    free time from what the clock says, or it cannot be encoded. *)
Definition entered st q' G' : Prop :=
  pq_inv q' G' ∧ pq_cfg q' = pq_cfg q ∧ g_rs G' = g_rs G ∧ g_lb G' = g_lb G ∧
  pq_regions q' G' = pq_regions q G ∧ pq_sigs q' G' = pq_sigs q G ∧
  (length (pq_queue q' G') + length (g_lk G') ≤ size (pq_regions q G))%nat ∧
  ((st = 0 ∧ ∃ w1 now w2 tv, xdr_product (pq_base q + o) extent prod (pq_sys q) = (true, w1) ∧
      gettimeofday w1 = (inr now, w2) ∧ abs_least_free now (pq_queue q G) tv ∧
      pq_queue q' G' = abs_insert tv o (pq_queue q G) ∧
      xdr_prod_info (pq_base q + o) e (pq_sys q') = Some (p_info prod, xlen_prod_info (p_info prod))) ∨
   (pq_queue q' G' = pq_queue q G ∧ st = EIO ∧
      (xdr_product (pq_base q + o) extent prod (pq_sys q)).1 = false)).

Lemma note_mostRecent_spec q1 :
  ∃ now w, note_mostRecent q1 = set_ctl (set_sys q1 w) (ctl_set_mostRecent (pq_ctl q1) now) ∧
    same_mem (pq_sys q1) w.
Proof.
  destruct (clock_spec (pq_sys q1)) as (now & w & Hclk & _ & _ & Hm). exists now, w.
  unfold note_mostRecent. by rewrite Hclk.
Qed.

Lemma pq_enter_spec :
  ∃ st q' G', pq_enter q extent (pq_base q + o) o prod = Ok (st, q') ∧ entered st q' G'.
Proof.
  unfold pq_enter. pose proof enter_inv as Hinv1.
  pose proof (xdr_round_trip (pq_base q + o) extent e prod (pq_sys q)) as Hrt.
  destruct (xlen_product_parts prod Hprod) as [Hpos Hlen]. rewrite <- Hpos in Hrt.
  destruct (xdr_product _ _ _ _) as [ok w] eqn:Hx. cbn [snd] in Hinv1. destruct ok; simpl negb; cbv iota; cycle 1.
  { exists EIO, (set_sys q w), G. split; [done|]. split; [exact Hinv1|].
    split_and!; try done; [change (pq_queue (set_sys q w) G) with (pq_queue q G); lia|]. right. split; [done|].
    split; [done|]. by rewrite Hx. }
  specialize (Hrt w eq_refl Hext).
  assert (prod_ok (set_sys q w) G w o) as Hp.
  { exists e, (p_info prod). split; [done|]. split; [done|]. split; [done|].
    destruct (po_sz _ Hprod) as [Hsz _]. split; [lia|]. split; [lia|]. by rewrite <- Hlen. }
  destruct (pq_tq_add_spec (set_sys q w) G o Hinv1 Hp Hnew Hroom Htime) as (st & q1 & G1 & -> & Hi & Hc & Hrs & Hlb & Hre & Hsi & Hm & Hl & Hst).
  rewrite bind_Ok. destruct Hst as [(-> & now & w2 & tv & Hclk & Hlf & Hq)|(-> & Hsp0 & Hq)]; simpl negb; cbv iota.
  - destruct (note_mostRecent_spec q1) as (t & w3 & -> & Hm3). eexists 0, _, G1. split; [reflexivity|].
    split; [by apply (pq_inv_ctl _ _ _ _ Hi)|]. split_and!; try done.
    left. split; [done|]. exists w, now, w2, tv. split_and!; [exact Hx|exact Hclk|done..|]. simpl. by rewrite Hm3, Hm.
  - exfalso. simpl in Hsp0. lia.
Qed.
End enter.

(** ** Leaving *)

(** The contents, abstractly. *)
Record store := Store {
  s_queue : list (timestampt * Z); s_regions : gmap Z Z; s_sigs : gmap signaturet Z }.

Definition pq_abs q G : store := Store (pq_queue q G) (pq_regions q G) (pq_sigs q G).

(** Every element of the time queue that is in use or lost has a region. *)
Definition elems_ok q G : Prop :=
  (length (pq_queue q G) + length (g_lk G) ≤ size (pq_regions q G))%nat.

Section leave.
Context (q : pqueue W) (G : ghost) (Hidle : pq_idle q G) (Hwr : pq_writable q) (w1 : W) (rl1 : riul).
Abbreviation pf1 := (Z.lor (pq_pflags q) PQ_SIGSBLOCKED).
Abbreviation q1 := (env q pf1 w1 rl1 true true).
Context (q2 : pqueue W) (G2 : ghost) (Hinv : pq_inv q2 G2) (Hcfg : pq_cfg q2 = pq_cfg q1).
Context (Hlb : g_lb G2 = []).

Lemma leave_store :
  g_rs G2 = wsession q →
  ∃ st q', ctl_rel q2 RGN_MODIFIED = Ok (st, q') ∧ pq_idle q' (with_rs G2 []) ∧
    pq_cfg q' = pq_cfg q ∧ pq_abs q' (with_rs G2 []) = pq_abs q2 G2 ∧ same_mem (pq_sys q2) (pq_sys q').
Proof.
  intros Hrs. destruct (leave_spec q RGN_WRITE w1 rl1 [] (po_sigs _ _ Hidle) (po_ptrs _ _ Hidle) q2 G2 Hinv
    Hcfg Hlb) with (rfl := RGN_MODIFIED) as (st & q' & Hrun & Ho & Hc & Hsh & Hm & _ & w & rl & ->).
  - by intros r ?%elem_of_nil.
  - exact Hrs.
  - by split_and!; [..|right].
  - by intros _.
  - eexists st, _. split; [exact Hrun|]. split; [by split|]. done.
Qed.

(** Giving the region of the product back. *)
Lemma leave_region o e A B fl :
  g_rs G2 = A ++ Riu o e (pq_base q2 + o) RGN_WRITE :: B → A ++ B = (wsession q) →
  pq_regions q2 G2 !! o = Some e → fl = 0 ∨ fl = RGN_MODIFIED →
  ∃ st w rl, rgn_rel q2 o fl = Ok (st, env q2 (pq_pflags q2) w rl (pq_ctlp q2) (pq_ixp q2)) ∧
    same_mem (pq_sys q2) w ∧
    pq_inv (env q2 (pq_pflags q2) w rl (pq_ctlp q2) (pq_ixp q2)) (with_rs G2 (wsession q)).
Proof.
  intros Hrs HAB Hreg Hfl. apply (pv_regions_lookup _ _ Hinv) in Hreg as (n & Hn & Ho & He).
  destruct (pv_region_range _ _ Hinv n ltac:(set_solver)) as (Ho1 & He1 & He2 & _). rewrite Ho, He in *.
  pose proof (pv_layout _ _ Hinv) as (Hl1 & Hl2 & Hl3).
  pose proof (pc_page _ (pv_config _ _ Hinv)).
  assert (may q2 fl) as Hmay.
  { intros _. unfold pq_writable in *. replace (pq_pflags q2) with pf1 by (unfold pq_cfg in Hcfg; simpl in *; congruence).
    by rewrite sigs_readonly. }
  rewrite (rgn_rel_unfold _ _ _ (pv_config _ _ Hinv) Hmay) by lia.
  pose proof (pv_riul _ _ Hinv) as Hri. rewrite Hrs in Hri.
  destruct (rgn2_release_spec q2 A (Riu o e (pq_base q2 + o) RGN_WRITE) B fl Hri)
    as (st & rl & w & Hrun & Hi & Hm & _).
  - unfold TOTAL_SIZE. simpl. lia.
  - simpl. lia.
  - done.
  - by destruct Hfl as [->| ->].
  - done.
  - pose proof (not_index q2 G2 n Hinv Hn) as Hx. by rewrite Ho, He in Hx.
  - exists st, w, rl. split; [|split; [exact Hm|]].
    + simpl ru_offset in Hrun. rewrite Hrun. by destruct q2.
    + rewrite HAB in Hi. apply env_inv; [done..|]. intros r Hr. apply (pv_mine _ _ Hinv).
      rewrite Hrs. rewrite <- HAB in Hr. set_solver.
Qed.
End leave.

(** ** The outcomes of an insertion *)

(** Products were deleted to make room for [extent] bytes, with their regions and
    signatures; they are the oldest ones when the system refuses no lock, and each was
    deleted while there was no slot or no free region for it. *)
Definition evicted (extent : Z) (s s' : store) : Prop :=
  s_queue s' `sublist_of` s_queue s ∧ s_regions s' ⊆ s_regions s ∧ s_sigs s' ⊆ s_sigs s ∧
  (refused W ∨ s_queue s' `suffix_of` s_queue s) ∧
  ∃ q G q' G', pq_inv q G ∧ pq_abs q G = s ∧ pq_abs q' G' = s' ∧
    evictions (lacking (rndup64 extent (ctl_align (pq_ctl q)))) q G q' G'.

Definition store_add (s : store) (queue : list (timestampt * Z)) (sig : signaturet) (o e : Z) : store :=
  Store queue (<[o := e]> (s_regions s)) (<[sig := o]> (s_sigs s)).

(** The step of [pq_insertNoSig()] on the contents: the control block or a region
    cannot be locked, the product is a duplicate, there is no room although
    nothing is left to delete, the product is entered, or its region and its
    signature are entered without the product because it cannot be encoded.  The
    queue is mapped at [base] and [w] is the state of the system in which the region
    has been reserved: the product is encoded there and then the clock is read. *)
Inductive insert_step (prod : product) (base : Z) (w : W) (s : store) : Z → store → Prop :=
| ins_refused st : st ≠ 0 → refused W → insert_step prod base w s st s
| ins_dup : is_Some (s_sigs s !! pi_signature (p_info prod)) → insert_step prod base w s PQ_DUP s
| ins_no_room st s1 :
    s_sigs s !! pi_signature (p_info prod) = None → evicted (xlen_product prod) s s1 → st ≠ 0 →
    (refused W ∨ (st = ENOMEM ∧ s_regions s1 = ∅) ∨ (st = EACCES ∧ s_queue s1 = [])) →
    insert_step prod base w s st s1
| ins_done s1 o e w1 now w2 tv :
    s_sigs s !! pi_signature (p_info prod) = None → evicted (xlen_product prod) s s1 → s_regions s1 !! o = None →
    xlen_product prod ≤ e → xdr_product (base + o) (xlen_product prod) prod w = (true, w1) →
    gettimeofday w1 = (inr now, w2) → abs_least_free now (s_queue s1) tv →
    insert_step prod base w s 0
      (store_add s1 (abs_insert tv o (s_queue s1)) (pi_signature (p_info prod)) o e)
| ins_lost s1 o e :
    s_sigs s !! pi_signature (p_info prod) = None → evicted (xlen_product prod) s s1 → s_regions s1 !! o = None →
    xlen_product prod ≤ e → (xdr_product (base + o) (xlen_product prod) prod w).1 = false →
    insert_step prod base w s EIO (store_add s1 (s_queue s1) (pi_signature (p_info prod)) o e).

(** The steps of [rpqe_new()] that reserve nothing. *)
Inductive reserve_fail (sig : signaturet) (extent : Z) (s : store) : Z → store → Prop :=
| rsv_dup : is_Some (s_sigs s !! sig) → reserve_fail sig extent s PQ_DUP s
| rsv_no_room st s1 :
    s_sigs s !! sig = None → evicted extent s s1 → st ≠ 0 →
    (refused W ∨ (st = ENOMEM ∧ s_regions s1 = ∅) ∨ (st = EACCES ∧ s_queue s1 = [])) →
    reserve_fail sig extent s st s1.

Lemma reserve_fail_insert prod base w s st s' :
  reserve_fail (pi_signature (p_info prod)) (xlen_product prod) s st s' → insert_step prod base w s st s'.
Proof. intros []; [by apply ins_dup|by apply ins_no_room]. Qed.

(** The product can be read where the indexes say that it is. *)
Definition readable q G (prod : product) : Prop :=
  ∃ tv o e, (tv, o) ∈ pq_queue q G ∧ pq_regions q G !! o = Some e ∧
    pq_sigs q G !! pi_signature (p_info prod) = Some o ∧
    xdr_prod_info (pq_base q + o) e (pq_sys q) = Some (p_info prod, xlen_prod_info (p_info prod)).

(** The state of the system in which the control block has been locked and a region
    reserved for the product. *)
Definition reserved_sys q (prod : product) : W :=
  match ctl_get q RGN_WRITE with
  | Ok (_, q1) =>
      match rpqe_new q1 (xlen_product prod) (Some (pi_signature (p_info prod))) with
      | Ok (_, _, _, q2) => pq_sys q2
      | Err _ => pq_sys q1
      end
  | Err _ => pq_sys q
  end.

Definition insert_post q G prod st q' G' : Prop :=
  pq_idle q' G' ∧ elems_ok q' G' ∧ pq_cfg q' = pq_cfg q ∧
  insert_step prod (pq_base q) (reserved_sys q prod) (pq_abs q G) st (pq_abs q' G') ∧ (st = 0 → readable q' G' prod).

(** The region of the product is not too large for XDR. *)
Definition size_ok q (prod : product) : Prop :=
  2 * (xlen_product prod + ctl_align (pq_ctl q)) + PQ_FRAGMENT_HEURISTIC < 2 ^ 32.

(** There are enough spare blocks to delete every product. *)
Definition spare_ok q : Prop := 4 * rl_nelems (pq_rl q) + 8 ≤ fb_spare (pq_fb q).

(** The spare blocks are enough for the deletions that make room for [extent] bytes,
    whatever products are locked. *)
Definition spare_for q (extent : Z) : Prop :=
  ∀ q1 G1, pq_sh q1 = pq_sh q → pq_inv q1 G1 →
    affordable (lacking (rndup64 extent (ctl_align (pq_ctl q)))) q1 G1.

Lemma spare_ok_for q extent : spare_ok q → spare_for q extent.
Proof.
  intros Hsp q1 G1 Hsh Hinv q' G' Hev. pose proof (pv_nelems _ _ (evictions_inv _ _ _ _ _ Hinv Hev)).
  unfold spare_ok in Hsp. rewrite Hsh. lia.
Qed.

(** With an empty slot and a free region nothing is deleted, so that few are enough. *)
Lemma spare_for_room q extent ix rl f :
  rl_HasSpace (pq_rl q) = true → ix ≠ RL_NONE →
  rl_get (pq_rl q) (pq_fb q) (rndup64 extent (ctl_align (pq_ctl q))) = Ok (ix, rl, f) →
  8 ≤ fb_spare (pq_fb q) → spare_for q extent.
Proof.
  intros Hs Hix Hget Hsp q1 G1 Hsh Hinv q' G' Hev. rewrite Hsh. enough (pq_sh q' = pq_sh q) as -> by lia.
  revert Hsh Hinv. induction Hev as [|q1 G1 A tv o info B q2 G2 q3 G3 Hneed _ _ _ _ _|q1 G1 q2 q3 G3 Hinv2 Hsh2 _ _ IH];
    intros Hsh Hinv; [done| |apply IH; [congruence|done]].
  exfalso. destruct Hneed as [Hno|Hno]; unfold no_slot, no_extent in Hno; rewrite Hsh in Hno; [congruence|].
  destruct (pv_rl_inv _ _ Hinv) as [U HU]. rewrite Hsh in HU.
  destruct (rl_get_spec _ _ _ _ _ _ _ _ _ _ HU (rndup64 extent (ctl_align (pq_ctl q))))
    as [(x & ? & ? & ? & _ & (Hx & Hle & _) & _)|[Hr _]]; [|congruence].
  specialize (Hno x Hx). lia.
Qed.

Lemma shrunk_elems q G q' G' :
  pq_inv q G → pq_inv q' G' → g_lb G = [] → g_lb G' = [] → pq_shrunk q G q' G' → elems_ok q G → elems_ok q' G'.
Proof.
  intros Hinv Hinv' Hl Hl' [] He. unfold elems_ok in *.
  rewrite (pv_size _ _ Hinv) in He. rewrite (pv_size _ _ Hinv').
  destruct (pv_nelems _ _ Hinv) as [Hn _], (pv_nelems _ _ Hinv') as [Hn' _].
  rewrite Hl in Hn. rewrite Hl' in Hn'. simpl in *. rewrite ps_lost. lia.
Qed.

Lemma session_cfg q q' cf xf rs : pq_cfg q' = pq_cfg q → session q' cf xf rs = session q cf xf rs.
Proof.
  intros Hc. unfold session, ctl_riu_of, ix_riu_of, pq_cfg in *.
  replace (pq_datao q') with (pq_datao q) by congruence. replace (pq_base q') with (pq_base q) by congruence.
  replace (pq_ixo q') with (pq_ixo q) by congruence. by replace (pq_ixsz q') with (pq_ixsz q) by congruence.
Qed.

(** Only the system keeps a process in a session from a product. *)
Lemma busy_refused q G p :
  pq_inv q G → g_rs G = (wsession q) → p ∈ pq_queue q G → pq_busy q G p.2 = true → refused W.
Proof.
  intros Hinv Hrs Hp Hb. destruct (pv_prods _ _ Hinv p Hp) as (e & _ & Hreg & _).
  apply (pv_regions_lookup _ _ Hinv) in Hreg as (n & Hn & Ho & He).
  destruct (pv_region_range _ _ Hinv n ltac:(set_solver)) as (Ho1 & He1 & He2 & _).
  pose proof (pv_layout _ _ Hinv). unfold pq_busy in Hb. rewrite bool_decide_false in Hb.
  - simpl in Hb. eapply try_lock_refused. intros Hz. rewrite Hz in Hb. done.
  - rewrite Hrs. simpl. rewrite !elem_of_cons, elem_of_nil. intros [?|[?|?]]; [lia|lia|done].
Qed.

(** A process in a session deletes the oldest products if the system lets it. *)
Lemma evictions_oldest need q G q' G' :
  pq_inv q G → g_rs G = wsession q → evictions need q G q' G' →
  refused W ∨ pq_queue q' G' `suffix_of` pq_queue q G.
Proof.
  intros Hinv Hrs Hev. revert Hinv Hrs.
  induction Hev as [q G|q G A tv o info B q1 G1 q2 G2 _ HA _ Hdel _ IH|q G q1 q2 G2 Hinv1 Hsh Hcfg _ IH]; intros Hinv Hrs.
  - right. reflexivity.
  - pose proof (pd_before _ _ _ _ _ _ _ _ _ Hdel) as Hq. destruct A as [|p A]; cycle 1.
    { left. apply (busy_refused q G p Hinv Hrs); [rewrite Hq; constructor|apply HA; constructor]. }
    destruct (pd_cfg _ _ _ _ _ _ _ _ _ Hdel) as [Hcfg _].
    destruct IH as [Hrf|Hsuf]; [exact (pd_inv _ _ _ _ _ _ _ _ _ Hdel)| |by left|right].
    + rewrite (pd_mine _ _ _ _ _ _ _ _ _ Hdel), Hrs. symmetry. by apply session_cfg.
    + rewrite (pd_after _ _ _ _ _ _ _ _ _ Hdel) in Hsuf. rewrite Hq. simpl in *. by apply suffix_cons_r.
  - replace (pq_queue q G) with (pq_queue q1 G) by (unfold pq_queue; by rewrite Hsh).
    apply IH; [done|]. rewrite Hrs. symmetry. by apply session_cfg.
Qed.

Lemma shrunk_evicted extent q G q' G' :
  pq_inv q G → g_rs G = wsession q → pq_shrunk q G q' G' →
  evictions (lacking (rndup64 extent (ctl_align (pq_ctl q)))) q G q' G' →
  evicted extent (pq_abs q G) (pq_abs q' G').
Proof.
  intros Hinv Hrs [] Hev. split; [done|]. split; [done|]. split; [done|].
  split; [by eapply evictions_oldest|]. by exists q, G, q', G'.
Qed.

Lemma no_room_cases q G st :
  pq_inv q G → g_rs G = (wsession q) → g_lb G = [] → no_room q G st →
  refused W ∨ (st = ENOMEM ∧ pq_regions q G = ∅) ∨ (st = EACCES ∧ pq_queue q G = []).
Proof.
  intros Hinv Hrs Hlb [[-> Hn]|[[-> Hb]|[_ Hrf]]]; [| |by left].
  - right. left. split; [done|]. apply map_size_empty_inv. rewrite (pv_size _ _ Hinv).
    destruct (pv_nelems _ _ Hinv) as [Hn' _]. lia.
  - destruct (pq_queue q G) as [|p l] eqn:Hq; [by right; right|]. left.
    eapply (busy_refused q G p); [done|done|rewrite Hq; constructor|]. apply Hb. constructor.
Qed.

Section main.
Context (q : pqueue W) (G : ghost) (prod : product) (w1 : W) (rl1 : riul).
Context (Hidle : pq_idle q G) (Hwr : pq_writable q) (Helems : elems_ok q G).
Context (Htime : before_endt (pq_nalloc q)) (Hprod : product_ok prod) (Hsize : size_ok q prod).
Context (Hm1 : same_mem (pq_sys q) w1) (Hrl1 : riul_inv rl1 (wsession q)).
Abbreviation pf1 := (Z.lor (pq_pflags q) PQ_SIGSBLOCKED).
Abbreviation q1 := (env q pf1 w1 rl1 true true).
Abbreviation G1 := (with_rs G (wsession q)).
Abbreviation sig := (pi_signature (p_info prod)).

Lemma main_inv : pq_inv q1 G1.
Proof.
  pose proof (get_inv q G RGN_WRITE Hidle w1 rl1 Hm1) as Hi. rewrite (id_rs _ _ Hidle) in Hi. exact (Hi Hrl1).
Qed.

(** A session that ends with the contents of [q2]. *)
Lemma main_leave q2 G2 st :
  pq_inv q2 G2 → pq_cfg q2 = pq_cfg q1 → g_lb G2 = [] → g_rs G2 = (wsession q) →
  elems_ok q2 G2 → st ≠ 0 →
  insert_step prod (pq_base q) (reserved_sys q prod) (pq_abs q G) st (pq_abs q2 G2) →
  ∃ st' q' G', ctl_rel q2 RGN_MODIFIED = Ok (st', q') ∧ insert_post q G prod st q' G'.
Proof.
  intros Hinv Hcfg Hlb Hrs Hel Hst Hstep.
  destruct (leave_store q G Hidle Hwr w1 rl1 q2 G2 Hinv Hcfg Hlb Hrs) as (st' & q' & Hrun & Hid & Hc & Ha & Hm).
  exists st', q', (with_rs G2 []). split; [exact Hrun|]. split_and!; [done| |done| |done].
  - injection Ha as Ha1 Ha2 _. unfold elems_ok. rewrite Ha1, Ha2. exact Hel.
  - by rewrite Ha.
Qed.

(** From the region to the end. *)
Section entered.
Context (q2 : pqueue W) (G2 : ghost) (q3 : pqueue W) (G3 : ghost) (o e vp : Z).
Context (Hinv2 : pq_inv q2 G2) (Hsh : pq_shrunk q1 G1 q2 G2) (Hlb2 : g_lb G2 = []).
Context (Hres : pq_reserved q2 G2 (xlen_product prod) (Some sig) o e vp q3 G3).
Context (Hfresh : pq_sigs q G !! sig = None) (Hev : evicted (xlen_product prod) (pq_abs q G) (pq_abs q2 G2)).
Context (Hspare : 8 ≤ fb_spare (pq_fb q2)) (Hsys : reserved_sys q prod = pq_sys q3).

(** A block for the skip list of the time queue is left. *)
Lemma entered_spare : 0 < fb_spare (pq_fb q3).
Proof.
  pose proof (pr_spare _ _ _ _ _ _ _ _ _ Hres). lia.
Qed.

Lemma entered_cfg : pq_cfg q3 = pq_cfg q1.
Proof. rewrite (pr_cfg _ _ _ _ _ _ _ _ _ Hres). by destruct (ps_cfg _ _ _ _ Hsh) as [-> _]. Qed.

Lemma entered_size : xlen_product prod ≤ e < 2 ^ 32.
Proof.
  destruct (pr_size _ _ _ _ _ _ _ _ _ Hres) as [H1 H2]. destruct (ps_cfg _ _ _ _ Hsh) as [_ Ha].
  rewrite Ha in H2. unfold size_ok in Hsize. simpl in H2. lia.
Qed.

Lemma entered_enter :
  ∃ st q4 G4, pq_enter q3 (xlen_product prod) vp o prod = Ok (st, q4) ∧
    entered q3 G3 o e prod st q4 G4 ∧ vp = pq_base q3 + o.
Proof.
  pose proof entered_cfg as Hc.
  assert (vp = pq_base q3 + o) as Hvp.
  { rewrite (pr_vp _ _ _ _ _ _ _ _ _ Hres). destruct (ps_cfg _ _ _ _ Hsh) as [Hc2 _].
    unfold pq_cfg in *. simpl in *. congruence. }
  destruct (pr_lists _ _ _ _ _ _ _ _ _ Hres) as (Hl1 & Hl2 & Hl3 & Hl4).
  assert (o ∉ (pq_queue q2 G2).*2) as Hno.
  { intros (p & -> & Hp)%list_elem_of_fmap. destruct (pv_prods _ _ Hinv2 p Hp) as (e' & _ & Hr & _).
    by rewrite (pr_new _ _ _ _ _ _ _ _ _ Hres) in Hr. }
  assert (elems_ok q2 G2) as Hel.
  { apply (shrunk_elems q1 G1 q2 G2); [apply main_inv|done|exact (po_lb _ _ Hidle)|done|done|exact Helems]. }
  destruct (pq_enter_spec q3 G3 o e prod (pr_inv _ _ _ _ _ _ _ _ _ Hres))
    as (st & q4 & G4 & Hrun & Hpost).
  - rewrite (pr_regions _ _ _ _ _ _ _ _ _ Hres). apply lookup_insert_eq.
  - rewrite (pr_sigs _ _ _ _ _ _ _ _ _ Hres). apply lookup_insert_eq.
  - by rewrite (pr_queue _ _ _ _ _ _ _ _ _ Hres).
  - exact entered_size.
  - exact Hprod.
  - rewrite (pr_queue _ _ _ _ _ _ _ _ _ Hres), Hl3, (pr_regions _ _ _ _ _ _ _ _ _ Hres).
    rewrite map_size_insert_None by apply (pr_new _ _ _ _ _ _ _ _ _ Hres). unfold elems_ok in Hel. lia.
  - replace (pq_nalloc q3) with (pq_nalloc q); [done|]. unfold pq_cfg in Hc. simpl in Hc. congruence.
  - exact entered_spare.
  - exists st, q4, G4. rewrite Hvp. done.
Qed.

(** The step of the contents. *)
Lemma entered_step st q4 G4 :
  entered q3 G3 o e prod st q4 G4 →
  insert_step prod (pq_base q) (reserved_sys q prod) (pq_abs q G) st (pq_abs q4 G4).
Proof.
  intros (_ & _ & _ & _ & Hreg & Hsig & _ & Hq). unfold pq_abs at 2. rewrite Hreg, Hsig.
  rewrite (pr_regions _ _ _ _ _ _ _ _ _ Hres), (pr_sigs _ _ _ _ _ _ _ _ _ Hres).
  rewrite (pr_queue _ _ _ _ _ _ _ _ _ Hres) in Hq.
  pose proof (pr_new _ _ _ _ _ _ _ _ _ Hres) as Hnew. destruct (pr_size _ _ _ _ _ _ _ _ _ Hres) as [Hsz _].
  assert (pq_base q3 = pq_base q) as Hbase by (pose proof entered_cfg as Hc; unfold pq_cfg in Hc; simpl in Hc; congruence).
  rewrite Hbase, <- Hsys in Hq.
  destruct Hq as [(-> & w & now & w' & tv & Hx & Hclk & Hlf & -> & _)|(-> & -> & Hx)].
  - by apply (ins_done prod _ _ (pq_abs q G) (pq_abs q2 G2) o e w now w' tv).
  - by apply (ins_lost prod _ _ (pq_abs q G) (pq_abs q2 G2) o e).
Qed.

Lemma main_entered :
  ∃ st q4 st5 q5 st6 q' G', pq_enter q3 (xlen_product prod) vp o prod = Ok (st, q4) ∧
    rgn_rel q4 o (if st =? 0 then RGN_MODIFIED else 0) = Ok (st5, q5) ∧
    ctl_rel q5 RGN_MODIFIED = Ok (st6, q') ∧ insert_post q G prod st q' G'.
Proof.
  destruct entered_enter as (st & q4 & G4 & Hrun & Hent & Hvp). pose proof Hent as Hent'.
  destruct Hent' as (Hinv4 & Hcfg4 & Hrs4 & Hlb4 & Hreg4 & Hsig4 & Hel4 & Hq4).
  pose proof entered_cfg as Hc3.
  destruct (pr_mine _ _ _ _ _ _ _ _ _ Hres) as (A & B & HAB & Hrs).
  assert (A ++ B = (wsession q)) as HAB' by (rewrite <- HAB; exact (ps_mine _ _ _ _ Hsh)).
  assert (pq_base q4 = pq_base q3) as Hb4 by (unfold pq_cfg in Hcfg4; congruence).
  assert (pq_regions q4 G4 !! o = Some e) as Hr4.
  { rewrite Hreg4, (pr_regions _ _ _ _ _ _ _ _ _ Hres). apply lookup_insert_eq. }
  destruct (pr_lists _ _ _ _ _ _ _ _ _ Hres) as (_ & _ & _ & Hl4).
  assert (g_lb G4 = []) as Hlb4' by congruence.
  destruct (leave_region q G Hidle Hwr w1 rl1 q4 G4 Hinv4 ltac:(congruence) Hlb4' o e A B (if st =? 0 then RGN_MODIFIED else 0))
    as (st5 & w5 & rl5 & Hrel & Hm5 & Hinv5); [congruence|done|done|by case_match; auto|].
  set (q5 := env q4 (pq_pflags q4) w5 rl5 (pq_ctlp q4) (pq_ixp q4)) in *.
  destruct (leave_store q G Hidle Hwr w1 rl1 q5 _ Hinv5) as (st6 & q' & Hrel6 & Hid & Hc6 & Ha6 & Hm6).
  - change (pq_cfg q5) with (pq_cfg q4). congruence.
  - exact Hlb4'.
  - reflexivity.
  - exists st, q4, st5, q5, st6, q'. eexists. split; [exact Hrun|]. split; [exact Hrel|].
    split; [exact Hrel6|]. split; [exact Hid|]. split; [|split; [exact Hc6|]; split].
    + injection Ha6 as Hq6 Hr6 _. unfold elems_ok. rewrite Hq6, Hr6.
      change (pq_queue q5 _) with (pq_queue q4 G4). change (pq_regions q5 _) with (pq_regions q4 G4).
      simpl g_lk. rewrite Hreg4. exact Hel4.
    + rewrite Ha6. exact (entered_step st q4 G4 Hent).
    + intros ->. destruct Hq4 as [(_ & w & now & w' & tv & _ & _ & Hlf & Hins & Hinfo)|(_ & ? & _)]; [|done].
      injection Ha6 as Hq6 Hr6 Hs6. exists tv, o, e. rewrite Hq6, Hr6, Hs6. split_and!.
      * change (pq_queue q5 _) with (pq_queue q4 G4). rewrite Hins, abs_insert_perm. constructor.
      * exact Hr4.
      * change (pq_sigs q5 _) with (pq_sigs q4 G4).
        rewrite Hsig4, (pr_sigs _ _ _ _ _ _ _ _ _ Hres). apply lookup_insert_eq.
      * rewrite Hm6. change (pq_sys q5) with w5. rewrite Hm5.
        replace (pq_base q') with (pq_base q3); [done|]. unfold pq_cfg in Hc6, Hc3. simpl in *. congruence.
Qed.
End entered.
End main.

Definition no_reserve q G (sig : signaturet) (extent : Z) (r : res (Z * Z * option Z * pqueue W)) : Prop :=
  ∃ st vp sxep q2 G2, r = Ok (st, vp, sxep, q2) ∧ st ≠ 0 ∧ pq_inv q2 G2 ∧ g_lb G2 = [] ∧
    (∃ w1 rl1, pq_cfg q2 = pq_cfg (env q (Z.lor (pq_pflags q) PQ_SIGSBLOCKED) w1 rl1 true true)) ∧
    g_rs G2 = (wsession q) ∧ elems_ok q2 G2 ∧ reserve_fail sig extent (pq_abs q G) st (pq_abs q2 G2).

(** The outcomes of [rpqe_new()] in a session. *)
Lemma reserve_cases q G extent sig w1 rl1 :
  pq_idle q G → pq_writable q → elems_ok q G → spare_for q extent → 0 < extent < 2 ^ 61 →
  same_mem (pq_sys q) w1 → riul_inv rl1 (wsession q) →
  let q1 := env q (Z.lor (pq_pflags q) PQ_SIGSBLOCKED) w1 rl1 true true in
  let G1 := with_rs G (wsession q) in
  let r := rpqe_new q1 extent (Some sig) in
  no_reserve q G sig extent r ∨ (r = Err AssertFail ∧ refused W) ∨
  (pq_sigs q G !! sig = None ∧ ∃ q2 G2 o e vp n se q3 G3, r = Ok (0, vp, Some n, q3) ∧
     pq_inv q2 G2 ∧ pq_shrunk q1 G1 q2 G2 ∧ g_lb G2 = [] ∧ evicted extent (pq_abs q G) (pq_abs q2 G2) ∧
     8 ≤ fb_spare (pq_fb q2) ∧
     pq_reserved q2 G2 extent (Some sig) o e vp q3 G3 ∧
     sx_sxep (pq_sx q3) !! n = Some se ∧ se_offset se = o ∧ se_sxi se = sig).
Proof.
  intros Hidle Hwr Hel Hsp Hext Hm1 Hrl1 q1 G1 r.
  pose proof (main_inv q G w1 rl1 Hidle Hm1 Hrl1) as Hinv1. fold q1 G1 in Hinv1.
  pose proof (po_lb _ _ Hidle) as Hlb.
  assert (room_for (lacking (rndup64 extent (ctl_align (pq_ctl q1)))) q1 G1) as Hroom.
  { split; [simpl; lia|]. split; [exact (Hsp q1 G1 eq_refl Hinv1)|]. unfold pq_writable in *. simpl. by rewrite sigs_readonly. }
  destruct (rpqe_new_spec q1 G1 extent (Some sig) Hinv1 Hroom) as [(x & n & [= <-] & Hx & Hr)|(Hf & Hpost)].
  { exact Hlb. }
  { exact Hext. }
  - left. exists PQ_DUP, 0, (Some n), q1, G1. split; [exact Hr|]. split; [done|]. split; [exact Hinv1|].
    split; [exact Hlb|]. split; [eexists _, _; reflexivity|]. split; [done|]. split; [exact Hel|].
    by apply rsv_dup.
  - specialize (Hf sig eq_refl). destruct Hpost as (q2 & G2 & Hinv2 & Hsh & Hlb2 & Hevs & Hpost).
    assert (elems_ok q2 G2) as Hel2 by (apply (shrunk_elems q1 G1); done).
    pose proof (room_for_spare _ _ _ (room_for_next _ _ _ _ _ Hroom Hevs Hsh)) as Hsp2.
    pose proof (ps_mine _ _ _ _ Hsh) as Hrs2. destruct (ps_cfg _ _ _ _ Hsh) as [Hc2 _].
    pose proof (leave_session q RGN_WRITE w1 rl1 q2 Hc2) as Hss.
    pose proof (shrunk_evicted _ q1 G1 q2 G2 Hinv1 eq_refl Hsh Hevs) as Hev. change (pq_abs q1 G1) with (pq_abs q G) in Hev.
    destruct Hpost as [(st & Hst & Hr & Hno)|[(o & e & vp & sxep & q3 & G3 & Hr & Hres & n & se & -> & Hse & Ho)
                      |(st & ix & Hst & Hrf & Hix)]].
    + left. exists st, 0, None, q2, G2. split; [exact Hr|]. split; [done|]. split; [exact Hinv2|].
      split; [exact Hlb2|]. split; [eauto|]. split; [exact Hrs2|]. split; [exact Hel2|].
      apply rsv_no_room; [exact Hf|exact Hev|done|].
      apply no_room_cases; [done| |done|done]. rewrite Hss. exact Hrs2.
    + right. right. split; [exact Hf|]. exists q2, G2, o, e, vp, n, se, q3, G3. done.
    + destruct (ix <? pq_nalloc q1); [left|right; left; done].
      destruct Hix as (q3 & G3 & Hr & Hres). exists st, 0, None, q3, G3. split; [exact Hr|]. split; [done|].
      split; [exact (pt_inv _ _ _ _ Hres)|]. split; [exact (pt_transit _ _ _ _ Hres)|].
      split; [exists w1, rl1; by rewrite (pt_cfg _ _ _ _ Hres)|].
      split; [by rewrite (pt_mine _ _ _ _ Hres)|]. unfold elems_ok, pq_abs at 2.
      rewrite (pt_queue _ _ _ _ Hres), (pt_regions _ _ _ _ Hres), (pt_sigs _ _ _ _ Hres), (pt_lost _ _ _ _ Hres).
      split; [exact Hel2|]. apply (rsv_no_room sig extent (pq_abs q G) st (pq_abs q2 G2)); [exact Hf|exact Hev|done|by left].
Qed.

Lemma pq_insertNoSig_spec q G prod :
  pq_idle q G → elems_ok q G → spare_for q (xlen_product prod) → before_endt (pq_nalloc q) →
  product_ok prod → size_ok q prod →
  (pq_insertNoSig q prod = Err AssertFail ∧ refused W) ∨
  ∃ st q' G', pq_insertNoSig q prod = Ok (st, q') ∧
    if fIsSet (pq_pflags q) PQ_READONLY then st = EACCES ∧ q' = q
    else if pq_getDataSize q <? xlen_product prod then st = PQ_BIG ∧ q' = q
    else insert_post q G prod st q' G'.
Proof.
  intros Hidle Hel Hsp Htime Hprod Hsize. unfold pq_insertNoSig.
  assert (0 < xlen_product prod < 2 ^ 61) as Hext by (pose proof (xlen_product_range prod Hprod); lia).
  destruct (fIsSet (pq_pflags q) PQ_READONLY) eqn:Hwr; [right; by exists EACCES, q, G|].
  destruct (pq_getDataSize q <? xlen_product prod); [right; by exists PQ_BIG, q, G|].
  destruct (ctl_get_spec q G RGN_WRITE Hidle) as (st & q1 & Hget & w1 & rl1 & Hm1 & Hs);
    [by intros _|by right|]. rewrite Hget, bind_Ok.
  destruct Hs as [(-> & -> & Hrl1)|(Hst & Hrf & -> & Hrl1)]; cycle 1.
  { right. rewrite (proj2 (Z.eqb_neq _ _) Hst). simpl negb. cbv iota. eexists st, _, G. split; [done|].
    split; [split; [exact (out_again q G Hidle _ _ Hm1 Hrl1)|exact (id_rs _ _ Hidle)]|]. split; [exact Hel|].
    split; [|split; [by apply ins_refused|done]].
    destruct (po_ptrs _ _ Hidle) as [Hp1 Hp2]. unfold pq_cfg. simpl. congruence. }
  rewrite (id_rs _ _ Hidle) in Hrl1. change (pf_in (pq_pflags q) RGN_WRITE) with (Z.lor (pq_pflags q) PQ_SIGSBLOCKED).
  simpl negb. cbv iota.
  destruct (reserve_cases q G (xlen_product prod) (pi_signature (p_info prod)) w1 rl1 Hidle Hwr Hel Hsp Hext Hm1 Hrl1)
    as [(st & vp & sxep & q2 & G2 & -> & Hst & Hinv2 & Hlb2 & (w2 & rl2 & Hc2) & Hrs2 & Hel2 & Hstep)
       |[[-> Hrf]|(Hf & q2 & G2 & o & e & vp & n & se & q3 & G3 & Hnew & Hinv2 & Hsh & Hlb2 & Hev & Hsp2 & Hres & Hse & Ho & _)]].
  - right. rewrite bind_Ok. rewrite (proj2 (Z.eqb_neq _ _) Hst). simpl negb.
    destruct (main_leave q G prod w2 rl2 Hidle Hwr q2 G2 st Hinv2 Hc2 Hlb2 Hrs2 Hel2 Hst (reserve_fail_insert _ _ _ _ _ _ Hstep))
      as (st' & q' & G' & Hrel & Hpost).
    exists st, q', G'. split; [|exact Hpost].
    destruct sxep; rewrite bind_Ok, Hrel; reflexivity.
  - left. done.
  - assert (reserved_sys q prod = pq_sys q3) as Hsys.
    { unfold reserved_sys. rewrite Hget. change (pf_in (pq_pflags q) RGN_WRITE) with (Z.lor (pq_pflags q) PQ_SIGSBLOCKED).
      by rewrite Hnew. }
    right. rewrite Hnew, bind_Ok. simpl negb. cbv iota. rewrite (rd_Ok _ _ _ Hse), bind_Ok, Ho.
    destruct (main_entered q G prod w1 rl1 Hidle Hwr Hel Htime Hprod Hsize Hm1 Hrl1 q2 G2 q3 G3 o e vp Hinv2 Hsh Hlb2 Hres Hf Hev Hsp2 Hsys)
      as (st & q4 & st5 & q5 & st6 & q' & G' & -> & Hrel & Hrel6 & Hpost).
    rewrite bind_Ok, Hrel, !bind_Ok, Hrel6, bind_Ok. exists st, q', G'. done.
Qed.
End insert.
