(* ===== verification/PqReserved.v ===== *)
(** * Reserved regions

    What the functions of PqEntry.v do on a well-formed queue: a region is reserved,
    filled by the process and then entered in the time queue or given back. *)

From stdpp Require Import sorting.
From S2P Require Import Prelude Timestamp NumTheory Fb SkipList TimeQueue RegionList RegionHash.
From S2P Require Import RegionAlloc RegionThms SigIndex Riul Sizes PqShare PqCore Xlen PqOps PqCtl ProdClass PqRead PqEntry.
From S2P Require Import PqInv PqAccess PqDelete PqRoom PqNew PqReserve PqSession PqSeq PqSearch PqFind PqInsert.

(** Encoding metadata writes to its place only, and it fails only for want of room; the
    data follows the metadata. *)
Class WriterLaws (W : Type) {Sys : System W} {Wr : Writer W} : Prop := {
  encode_mem vp n info vp' n' (w : W) : vp' + n' ≤ vp ∨ vp + n ≤ vp' →
    xdr_prod_info vp' n' (xdr_info_encode vp n info w).2 = xdr_prod_info vp' n' w;
  encode_ok vp n info (w : W) : Z.of_nat (length (enc_prod_info info)) ≤ n →
    (xdr_info_encode vp n info w).1 = Some (vp + Z.of_nat (length (enc_prod_info info)));
}.

Section reserved.
Context {W : Type} {Sys : System W} {Laws : SystemLaws W}.
Implicit Types (q : pqueue W) (G : ghost) (w : W).

(** ** Freeing a region that is not in the time queue *)

(** [q'] is [q] without the region at [o] and its signature. *)
Record pq_freed q G (sig : signaturet) (o : Z) q' G' : Prop := {
  pf_inv : pq_inv q' G';
  pf_cfg : pq_cfg q' = pq_cfg q;
  pf_queue : pq_queue q' G' = pq_queue q G;
  pf_regions : pq_regions q' G' = delete o (pq_regions q G);
  pf_sigs : pq_sigs q' G' = delete sig (pq_sigs q G);
  pf_lists : g_lk G' = g_lk G ∧ g_lb G' = g_lb G ∧ g_rs G' = g_rs G;
  pf_mem : same_mem (pq_sys q) (pq_sys q');
}.

Section free.
Context (q : pqueue W) (G : ghost) (sig : signaturet) (n : Z).
Context (Hinv : pq_inv q G) (Hn : n ∈ g_us G).
Abbreviation o := (rg_off (rl_rp (pq_rl q)) n).
Abbreviation e := (rext (rl_rp (pq_rl q)) n).
Context (Hsig : pq_sigs q G !! sig = Some o) (Hout : o ∉ (pq_queue q G).*2).
Context (Hno : ∀ r, r ∈ g_rs G → ru_offset r ≠ o) (Hspare : 4 ≤ fb_spare (pq_fb q)).

Lemma free_indexes :
  ∃ s rl f g es fs ts xu xf,
    sx_find_delete (pq_sx q) sig = Ok (true, s) ∧ rl_free (pq_rl q) (pq_fb q) (pq_rng q) n = Ok (rl, f, g) ∧
    sx_inv s xu xf ∧ sx_view (sx_sxep s) xu = delete sig (pq_sigs q G) ∧
    both (pq_tq q) rl f (pq_datao q) (pq_ixo q) (g_ns G) (g_fl G) (g_lk G) es fs (filter (λ x, x ≠ n) (g_us G)) (g_lb G) ts ∧
    (∀ x, x ∈ g_us G ++ g_lb G → x ≠ n → rg_off (rl_rp rl) x = rg_off (rl_rp (pq_rl q)) x ∧
       rext (rl_rp rl) x = rext (rl_rp (pq_rl q)) x) ∧
    rl_nbytes rl = u64 (rl_nbytes (pq_rl q) - e) ∧ rl_nalloc rl = pq_nalloc q ∧ sx_nalloc s = pq_nalloc q.
Proof.
  pose proof (pv_sx _ _ Hinv) as Hsx. apply (sx_view_lookup _ _ _ Hsx) in Hsig as (x & Hx & Hxs & Hxo).
  destruct (sx_delete_spec _ _ _ Hsx _ x Hx Hxs) as (s & Hsd & Hsx' & Hsk & Hsn).
  destruct (both_rl_free _ _ _ _ _ _ _ _ _ _ _ _ _ (pv_both _ _ Hinv) n (pq_rng q) Hn Hspare)
    as (rl & f & g & es & fs & ts & Hrf & Hb & Hrk & Hnb & _ & _ & Hl).
  destruct (pv_nalloc _ _ Hinv) as (Hn1 & _ & Hn3). pose proof (pv_length _ _ Hinv) as Hlen.
  destruct (pv_us _ _ Hinv) as [Hndu _].
  pose proof (Permutation_length (filter_remove_perm n (g_us G) Hndu Hn)) as Hlu. simpl in Hlu.
  pose proof Hb as (U & _ & Hr). pose proof (rl_length _ _ _ _ _ _ _ _ _ _ Hr) as Hlen2.
  exists s, rl, f, g, es, fs, ts, (filter (λ y, y ≠ x) (g_xu G)), (x :: g_xf G).
  split_and!; [exact Hsd|exact Hrf|exact Hsx'| |exact Hb|exact Hrk|exact Hnb|lia|congruence].
  rewrite <- Hxs. by eapply sx_view_delete.
Qed.

Lemma rpqe_free_spec : ∃ q' G', rpqe_free q o sig = Ok (0, q') ∧ pq_freed q G sig o q' G'.
Proof.
  destruct free_indexes as (s & rl & f & g & es & fs & ts & xu & xf & Hsd & Hrf & Hsx & Hsv & Hb & Hrk & Hnb & Hn1 & Hn2).
  unfold rpqe_free. destruct (rl_find_us q G n Hinv Hn) as [-> Hne]. rewrite bind_Ok, (proj2 (Z.eqb_neq _ _) Hne).
  destruct (pv_region_at _ _ Hinv n ltac:(set_solver)) as (r & Hr & _ & _). rewrite (rd_Ok _ _ _ Hr), bind_Ok.
  assert (IsFree r = false) as ->.
  { destruct (pv_rl_inv _ _ Hinv) as [U [[Htab _ _ _ _] _ _]].
    destruct (rt_used _ _ _ _ _ Htab n Hn) as (r' & Hr' & Ha). unfold IsFree. assert (r' = r) as -> by congruence. by rewrite Ha. }
  rewrite Hsd, bind_Ok. simpl negb. cbv iota. change (pq_rl (set_sx q s)) with (pq_rl q).
  change (pq_fb (set_sx q s)) with (pq_fb q). change (pq_rng (set_sx q s)) with (pq_rng q). rewrite Hrf, bind_Ok.
  eexists _, (Ghost (g_ns G) (g_fl G) (g_lk G) es fs (filter (λ x, x ≠ n) (g_us G)) (g_lb G) ts xu xf (g_rs G)).
  split; [reflexivity|]. set (q' := set_rng _ g).
  assert (pq_sh q' = Shared (pq_ctl q) f (pq_tq q) rl s) as Hsh by reflexivity.
  set (G' := Ghost _ _ _ _ _ _ _ _ _ _ _).
  assert (pq_regions q' G' = delete o (pq_regions q G)) as Hreg by exact (removed_regions q G n rl Hinv Hn Hrk).
  assert (pq_queue q' G' = pq_queue q G) as Hqueue by reflexivity.
  assert (pq_sigs q' G' = delete sig (pq_sigs q G)) as Hsigs by exact Hsv.
  split; [|reflexivity|exact Hqueue|exact Hreg|exact Hsigs|done|done].
  pose proof (pq_config_same q q' (pv_config _ _ Hinv) eq_refl eq_refl eq_refl) as Hconf.
  destruct (pv_nalloc _ _ Hinv) as (_ & Hn3 & _).
  split; [split|]; simpl g_us; simpl g_lb; simpl g_rs; try done.
  - exact (pv_riul _ _ Hinv).
  - intros x Hx. by apply (removed_slots q G n rl).
  - intros r' Hr'. destruct (pv_mine _ _ Hinv r' Hr') as (He & Hv & Hk). unfold mine_ok. rewrite Hreg.
    split; [exact He|]. split; [exact Hv|]. rewrite lookup_delete_ne; [exact Hk|]. intros Ho. by apply (Hno r').
  - intros p Hp. destruct (pv_prods _ _ Hinv p Hp) as (e2 & i2 & H1 & H2 & H3 & H4).
    assert (p.2 ≠ o) as Hne2 by (intros Ho; apply Hout; rewrite <- Ho; by apply list_elem_of_fmap_2).
    exists e2, i2. rewrite Hreg, Hsigs, lookup_delete_ne by done. split; [done|]. split; [exact H2|]. split; [|exact H4].
    rewrite lookup_delete_ne; [done|]. intros Heq. rewrite <- Heq in H3. congruence.
  - exact (pv_offs _ _ Hinv).
  - intros s1 o1. rewrite Hsigs, Hreg. intros [Hne1 Hs1]%lookup_delete_Some.
    rewrite lookup_delete_ne; [by eapply (pv_sigs _ _ Hinv)|]. intros <-.
    apply Hne1. by eapply (pv_sigs_inj _ _ Hinv).
  - intros s1 s2 o1. rewrite Hsigs. intros [_ H1]%lookup_delete_Some [_ H2]%lookup_delete_Some.
    by eapply (pv_sigs_inj _ _ Hinv).
  - exact (pv_times _ _ Hinv).
  - destruct Hb as (U & _ & Hri). by eapply (removed_bytes q G n rl).
Qed.
End free.

(** ** A reserved region *)

(** The process has reserved the region of [e] bytes at [o], for a product of the
    signature [sig] that is not in the time queue yet. *)
Record reserved q G (sig : signaturet) (o e : Z) : Prop := {
  rv_out : pq_out q G;
  rv_rs : g_rs G = [Riu o e (pq_base q + o) RGN_WRITE];
  rv_region : pq_regions q G !! o = Some e;
  rv_sig : pq_sigs q G !! sig = Some o;
  rv_queue : o ∉ (pq_queue q G).*2;
  rv_room : (length (pq_queue q G) + length (g_lk G) < size (pq_regions q G))%nat;
  rv_size : e < 2 ^ 32;
  rv_write : pq_writable q;
}.

Lemma reserved_elems q G sig o e : reserved q G sig o e → elems_ok q G.
Proof. intros [_ _ _ _ _ H _ _]. unfold elems_ok. lia. Qed.

Lemma count_inv q G n : pq_inv q G → pq_inv (set_pqe_count q n) G.
Proof. intros [[[] ? ? ? ? ? ? ? ? ? ? ?] ?]. by do 2 (split; try assumption). Qed.

Lemma count_out q G n : pq_out q G → pq_out (set_pqe_count q n) G.
Proof. intros []. split; try assumption. by apply count_inv. Qed.

(** ** Filling the region *)

(** The process writes to its region only. *)
Definition filled q (o e : Z) w : Prop :=
  ∀ vp n, vp + n ≤ pq_base q + o ∨ pq_base q + o + e ≤ vp → xdr_prod_info vp n w = xdr_prod_info vp n (pq_sys q).

(** A region that no product is in. *)
Lemma fill_inv q G o e w :
  pq_inv q G → pq_regions q G !! o = Some e → o ∉ (pq_queue q G).*2 → filled q o e w → pq_inv (set_sys q w) G.
Proof.
  intros Hinv Hreg Hqu Hfill. pose proof Hinv as [[[] Hb Hsx Hri Hsl Hmi Hpr Hof Hs1 Hs2 Hna Htm] Hby]. split; [|exact Hby].
  split; try assumption; [split; assumption|].
  intros p Hpq. destruct (Hpr p Hpq) as (e' & info & H1 & H2 & H3). exists e', info. split; [done|].
  split; [|exact H3]. simpl. rewrite Hfill; [done|].
  destruct (pv_disjoint q G o e p.2 e' Hinv Hreg H1); [|lia|lia].
  intros ->. apply Hqu. by apply list_elem_of_fmap_2.
Qed.

Lemma reserved_fill q G sig o e w :
  reserved q G sig o e → filled q o e w → reserved (set_sys q w) G sig o e.
Proof.
  intros [[Hinv Hbt Hlb Hp Hsb] Hrs Hreg Hsig Hqu Hroom Hsz Hwr] Hfill. split; try done. split; try done.
  by eapply fill_inv.
Qed.

Lemma filled_id q o e : filled q o e (pq_sys q).
Proof. done. Qed.

(** The region is reserved, and the products that were in the way are gone. *)
Definition reserve_done q G (size : Z) (sig : signaturet) (out : option (Z * pqe_index)) q' : Prop :=
  ∃ s1 G' o e, out = Some (pq_base q' + o, PqeIndex o sig true) ∧ reserved q' G' sig o e ∧ size ≤ e ∧
    s_sigs (pq_abs q G) !! sig = None ∧ evicted size (pq_abs q G) s1 ∧ s_regions s1 !! o = None ∧
    pq_abs q' G' = store_add s1 (s_queue s1) sig o e ∧ pq_cfg q' = pq_cfg (set_pqe_count q (pq_pqe_count q + 1)) ∧
    4 ≤ fb_spare (pq_fb q').

Definition reserve_post q G (size : Z) (sig : signaturet) (st : Z) (out : option (Z * pqe_index)) q' : Prop :=
  (st = 0 ∧ reserve_done q G size sig out q') ∨
  (st ≠ 0 ∧ out = None ∧ ∃ G', pq_idle q' G' ∧ elems_ok q' G' ∧ pq_cfg q' = pq_cfg q ∧
     ((refused W ∧ pq_abs q' G' = pq_abs q G) ∨ reserve_fail sig size (pq_abs q G) st (pq_abs q' G'))).

Section new.
Context (q : pqueue W) (G : ghost) (size : Z) (sig : signaturet) (w1 : W) (rl1 : riul).
Context (Hidle : pq_idle q G) (Hwr : pq_writable q) (Hel : elems_ok q G) (Hpos : 0 < size).
Context (Hsize : 2 * (size + ctl_align (pq_ctl q)) + PQ_FRAGMENT_HEURISTIC < 2 ^ 32).
Context (Hm1 : same_mem (pq_sys q) w1) (Hrl1 : riul_inv rl1 (wsession q)).
Abbreviation pf1 := (Z.lor (pq_pflags q) PQ_SIGSBLOCKED).
Abbreviation q1 := (env q pf1 w1 rl1 true true).
Abbreviation G1 := (with_rs G (wsession q)).
Context (q2 : pqueue W) (G2 : ghost) (q3 : pqueue W) (G3 : ghost) (o e vp : Z).
Context (Hinv2 : pq_inv q2 G2) (Hsh : pq_shrunk q1 G1 q2 G2) (Hlb2 : g_lb G2 = []).
Context (Hres : pq_reserved q2 G2 size (Some sig) o e vp q3 G3) (Hfresh : pq_sigs q G !! sig = None).
Context (Hev : evicted size (pq_abs q G) (pq_abs q2 G2)) (Hsp : 8 ≤ fb_spare (pq_fb q2)).

Lemma new_cfg : pq_cfg q3 = pq_cfg q1.
Proof. rewrite (pr_cfg _ _ _ _ _ _ _ _ _ Hres). by destruct (ps_cfg _ _ _ _ Hsh) as [-> _]. Qed.

Lemma new_vp : vp = pq_base q + o.
Proof.
  rewrite (pr_vp _ _ _ _ _ _ _ _ _ Hres). destruct (ps_cfg _ _ _ _ Hsh) as [Hc2 _].
  unfold pq_cfg in Hc2. simpl in Hc2. congruence.
Qed.

(** The region is between the control block and the indexes. *)
Lemma new_session : g_rs G3 = session q RGN_WRITE (Z.lor RGN_WRITE RGN_NOLOCK) [Riu o e vp RGN_WRITE] ∧ 0 < o < pq_ixo q.
Proof.
  destruct (pr_mine _ _ _ _ _ _ _ _ _ Hres) as (A & B & HAB & Hrs).
  destruct (pr_range _ _ _ _ _ _ _ _ _ Hres) as (Ho1 & Ho2 & _).
  destruct (pr_size _ _ _ _ _ _ _ _ _ Hres) as [He _].
  destruct (ps_cfg _ _ _ _ Hsh) as [Hc2 _].
  pose proof (pv_layout _ _ Hinv2) as (Hl & _).
  assert (pq_datao q2 = pq_datao q ∧ pq_ixo q2 = pq_ixo q) as [Hd Hi] by (unfold pq_cfg in Hc2; simpl in Hc2; split; congruence).
  assert (0 < o < pq_ixo q) as Ho by lia. split; [|exact Ho].
  pose proof (ps_mine _ _ _ _ Hsh) as Hm. simpl in Hm.
  pose proof (ui_sorted _ _ (pv_riul _ _ (pr_inv _ _ _ _ _ _ _ _ _ Hres))) as Hs. rewrite Hrs in Hs.
  destruct (session_mid q RGN_WRITE (Z.lor RGN_WRITE RGN_NOLOCK) [] (Riu o e vp RGN_WRITE) A B Hs Ho)
    as (A' & B' & -> & -> & HAB'); [by rewrite <- HAB; symmetry|].
  symmetry in HAB'. apply app_eq_nil in HAB' as [-> ->]. exact Hrs.
Qed.

(** No product is in the new region. *)
Lemma new_absent : o ∉ (pq_queue q3 G3).*2.
Proof.
  rewrite (pr_queue _ _ _ _ _ _ _ _ _ Hres). intros (p & -> & Hp)%list_elem_of_fmap.
  destruct (pv_prods _ _ Hinv2 p Hp) as (e' & _ & Hr' & _). by rewrite (pr_new _ _ _ _ _ _ _ _ _ Hres) in Hr'.
Qed.

Lemma new_leave w3 :
  filled q3 o e w3 →
  ∃ st q', ctl_rel (set_pqe_count (set_sys q3 w3) (pq_pqe_count q3 + 1)) RGN_MODIFIED = Ok (st, q') ∧
    reserve_done q G size sig (Some (vp, PqeIndex o sig true)) q'.
Proof.
  intros Hfill. destruct new_session as [Hrs3 Ho]. pose proof new_cfg as Hc3. pose proof new_vp as Hvp.
  set (q0 := set_pqe_count q (pq_pqe_count q + 1)).
  set (q4 := set_pqe_count (set_sys q3 w3) _).
  assert (pq_inv (set_sys q3 w3) G3) as Hinv4.
  { apply (fill_inv q3 G3 o e w3 (pr_inv _ _ _ _ _ _ _ _ _ Hres)); [|exact new_absent|exact Hfill].
    rewrite (pr_regions _ _ _ _ _ _ _ _ _ Hres). apply lookup_insert_eq. }
  destruct (pr_lists _ _ _ _ _ _ _ _ _ Hres) as (_ & _ & Hlk & Hlb3).
  pose proof (pr_new _ _ _ _ _ _ _ _ _ Hres) as Hnew.
  destruct (leave_spec q0 RGN_WRITE w1 rl1 [Riu o e vp RGN_WRITE] (po_sigs _ _ Hidle) (po_ptrs _ _ Hidle) q4 G3
    (count_inv _ _ _ Hinv4)) with (rfl := RGN_MODIFIED)
    as (st & q' & Hrun & Hout & Hcfg & Hsh' & Hm' & _ & w & rl & Hq').
  - change (pf_in (pq_pflags q0) RGN_WRITE) with pf1. unfold q4, q0, pq_cfg in *. simpl in *. congruence.
  - congruence.
  - intros r ->%list_elem_of_singleton. exact Ho.
  - exact Hrs3.
  - by split_and!; [..|right].
  - by intros _.
  - exists st, q'. split; [exact Hrun|].
    assert (pq_base q' = pq_base q ∧ pq_pqe_count q' = pq_pqe_count q + 1 ∧ pq_pflags q' = pq_pflags q) as (Hb & Hcount & Hpf)
      by (unfold pq_cfg in Hcfg; simpl in Hcfg; split_and!; congruence).
    assert (elems_ok q2 G2) as Hel2.
    { apply (shrunk_elems q1 G1 q2 G2); [exact (main_inv q G w1 rl1 Hidle Hm1 Hrl1)|done|exact (po_lb _ _ Hidle)|done|done|exact Hel]. }
    assert (pq_abs q' (with_rs G3 [Riu o e vp RGN_WRITE]) =
            store_add (pq_abs q2 G2) (pq_queue q2 G2) sig o e) as Habs.
    { unfold pq_abs, pq_queue, pq_regions, pq_sigs, store_add. rewrite Hsh'. simpl.
      f_equal; [exact (pr_queue _ _ _ _ _ _ _ _ _ Hres)|exact (pr_regions _ _ _ _ _ _ _ _ _ Hres)|exact (pr_sigs _ _ _ _ _ _ _ _ _ Hres)]. }
    pose proof Habs as Habs'. injection Habs' as Hq Hr Hs.
    destruct (pr_size _ _ _ _ _ _ _ _ _ Hres) as [He1 He2]. destruct (ps_cfg _ _ _ _ Hsh) as [_ Ha]. rewrite Ha in He2.
    exists (pq_abs q2 G2), (with_rs G3 [Riu o e vp RGN_WRITE]), o, e. rewrite Hb.
    split; [by rewrite Hvp|]. split; [|split; [exact He1|]].
    + split; [exact Hout|by rewrite Hb, <- Hvp|..].
      * rewrite Hr. apply lookup_insert_eq.
      * rewrite Hs. apply lookup_insert_eq.
      * rewrite Hq. intros (p & -> & Hp)%list_elem_of_fmap. destruct (pv_prods _ _ Hinv2 p Hp) as (e' & _ & Hr' & _).
        by rewrite Hnew in Hr'.
      * rewrite Hq, Hr. simpl g_lk. rewrite Hlk. simpl. rewrite map_size_insert_None by exact Hnew.
        unfold elems_ok in Hel2. lia.
      * simpl in He2. lia.
      * unfold pq_writable in *. by rewrite Hpf.
    + split; [exact Hfresh|]. split; [exact Hev|]. split; [exact Hnew|]. split; [exact Habs|].
      split; [exact Hcfg|]. rewrite Hsh'. pose proof (pr_spare _ _ _ _ _ _ _ _ _ Hres) as H3.
      simpl in H3 |- *. lia.
Qed.
End new.

(** A session that reserved nothing. *)
Lemma new_fail q G sig size r :
  pq_idle q G → pq_writable q → no_reserve q G sig size r →
  ∃ st vp sxep q2 st' q', r = Ok (st, vp, sxep, q2) ∧ st ≠ 0 ∧ ctl_rel q2 RGN_MODIFIED = Ok (st', q') ∧
    ∃ G', pq_idle q' G' ∧ elems_ok q' G' ∧ pq_cfg q' = pq_cfg q ∧ reserve_fail sig size (pq_abs q G) st (pq_abs q' G').
Proof.
  intros Hidle Hwr (st & vp & sxep & q2 & G2 & -> & Hst & Hinv2 & Hlb2 & (w2 & rl2 & Hc2) & Hrs2 & Hel2 & Hstep).
  destruct (leave_store q G Hidle Hwr w2 rl2 q2 G2 Hinv2 Hc2 Hlb2 Hrs2) as (st' & q' & Hrun & Hid & Hc & Ha & _).
  exists st, vp, sxep, q2, st', q'. split; [done|]. split; [exact Hst|]. split; [exact Hrun|].
  exists (with_rs G2 []). split; [exact Hid|]. split; [|split; [exact Hc|by rewrite Ha]].
  injection Ha as Ha1 Ha2 _. unfold elems_ok. rewrite Ha1, Ha2. exact Hel2.
Qed.

(** The control block cannot be had. *)
Lemma get_refused q G w rl :
  pq_idle q G → elems_ok q G → same_mem (pq_sys q) w → riul_inv rl (g_rs G) →
  let q' := env q (pq_pflags q) w rl false false in
  pq_idle q' G ∧ elems_ok q' G ∧ pq_cfg q' = pq_cfg q ∧ pq_abs q' G = pq_abs q G.
Proof.
  intros Hidle Hel Hm Hrl q'. split; [split; [exact (out_again q G Hidle w rl Hm Hrl)|exact (id_rs _ _ Hidle)]|].
  split; [exact Hel|]. split; [|done]. destruct (po_ptrs _ _ Hidle) as [Hp1 Hp2]. unfold pq_cfg. simpl. congruence.
Qed.

Lemma pqe_newDirect_spec q G size sig :
  pq_idle q G → elems_ok q G → spare_for q size → 0 < size →
  2 * (size + ctl_align (pq_ctl q)) + PQ_FRAGMENT_HEURISTIC < 2 ^ 32 →
  (pqe_newDirect q size sig = Err AssertFail ∧ refused W) ∨
  ∃ st out q', pqe_newDirect q size sig = Ok (st, out, q') ∧
    if pq_getDataSize q <? size then st = PQ_BIG ∧ out = None ∧ q' = q
    else if fIsSet (pq_pflags q) PQ_READONLY then st = EACCES ∧ out = None ∧ q' = q
    else reserve_post q G size sig st out q'.
Proof.
  intros Hidle Hel Hsp Hpos Hsize. unfold pqe_newDirect.
  destruct (pq_getDataSize q <? size); [right; by eexists _, _, _|].
  destruct (fIsSet (pq_pflags q) PQ_READONLY) eqn:Hwr; [right; by eexists _, _, _|].
  destruct (ctl_get_spec q G RGN_WRITE Hidle) as (st & q1 & -> & w1 & rl1 & Hm1 & Hs);
    [by intros _|by right|]. rewrite bind_Ok.
  destruct Hs as [(-> & -> & Hrl1)|(Hst & Hrf & -> & Hrl1)]; cycle 1.
  { right. rewrite (proj2 (Z.eqb_neq _ _) Hst). simpl negb. cbv iota. eexists st, None, _. split; [done|]. right.
    split; [done|]. split; [done|]. exists G.
    destruct (get_refused q G w1 rl1 Hidle Hel Hm1 Hrl1) as (H1 & H2 & H3 & H4). auto 10. }
  rewrite (id_rs _ _ Hidle) in Hrl1. change (pf_in (pq_pflags q) RGN_WRITE) with (Z.lor (pq_pflags q) PQ_SIGSBLOCKED).
  simpl negb. cbv iota.
  assert (0 < size < 2 ^ 61) as Hext.
  { destruct (pc_align _ (pv_config _ _ (id_inv _ _ Hidle : pq_core q G))). unfold PQ_FRAGMENT_HEURISTIC in Hsize. lia. }
  destruct (reserve_cases q G size sig w1 rl1 Hidle Hwr Hel Hsp Hext Hm1 Hrl1)
    as [Hno|[[-> Hrf]|(Hf & q2 & G2 & o & e & vp & n & se & q3 & G3 & -> & Hinv2 & Hsh & Hlb2 & Hev & Hsp2 & Hres & Hse & Ho & Hx)]].
  - right. destruct (new_fail q G sig _ _ Hidle Hwr Hno) as (st & vp & sxep & q2 & st' & q' & -> & Hst & Hrel & G' & H).
    rewrite bind_Ok, (proj2 (Z.eqb_neq _ _) Hst). simpl negb. cbv iota. rewrite bind_Ok, Hrel, bind_Ok.
    exists st, None, q'. split; [done|]. right. split; [done|]. split; [done|]. exists G'.
    destruct H as (H1 & H2 & H3 & H4). auto 10.
  - left. done.
  - right. rewrite bind_Ok. simpl negb. cbv iota. unfold pqe_note. rewrite (rd_Ok _ _ _ Hse), !bind_Ok, Ho, Hx.
    destruct (new_leave q G size sig w1 rl1 Hidle Hwr Hel Hpos Hsize Hm1 Hrl1 q2 G2 q3 G3 o e vp Hinv2 Hsh Hlb2 Hres Hf Hev Hsp2
      (pq_sys q3) (filled_id q3 o e))
      as (st & q' & Hrel & Hdone). rewrite set_sys_id in Hrel.
    rewrite Hrel, bind_Ok. eexists 0, _, q'. split; [reflexivity|]. left. done.
Qed.

(** ** A region with the metadata in it *)

(** The metadata of some product. *)
Definition info_wf (info : prod_info) : Prop :=
  product_ok (Product info (replicate (Z.to_nat (pi_sz info)) 0)).

Lemma info_wf_parts info :
  info_wf info →
  let n := Z.of_nat (length (enc_prod_info info)) in
  0 < n ∧ 0 ≤ pi_sz info < 2 ^ 32 ∧ n + pi_sz info ≤ xlen_prod_i info < 2 ^ 33.
Proof.
  intros Hi n. destruct (xlen_product_parts _ Hi) as [_ Hx]. destruct (xlen_product_range _ Hi) as [[_ Hr] _].
  destruct (xlen_product_parts _ Hi) as [He _]. unfold xlen_product in *. simpl in *. rewrite Hx in Hr |- *. rewrite He in *.
  destruct Hi as [_ _ _ [Hz Hz2]]. simpl in *. pose proof (xpad_range (pi_sz info)) as [Hp _].
  assert (0 < n) by (unfold n, enc_prod_info, enc_int; rewrite length_app; simpl; lia). lia.
Qed.

(** [pqe_new()] reserves a region for the metadata and the data, and gives the address
    for the data. *)
Definition new_post q G (info : prod_info) (st : Z) (out : option (Z * pqe_index)) q' : Prop :=
  ∃ out', out = (λ '(vp, index), (vp + Z.of_nat (length (enc_prod_info info)), index)) <$> out' ∧
    reserve_post q G (xlen_prod_i info) (pi_signature info) st out' q'.

Lemma pqe_new_spec `{Wr : !Writer W} `{!WriterLaws W} q G info :
  pq_idle q G → elems_ok q G → spare_for q (xlen_prod_i info) → info_wf info →
  2 * (xlen_prod_i info + ctl_align (pq_ctl q)) + PQ_FRAGMENT_HEURISTIC < 2 ^ 32 →
  (pqe_new q info = Err AssertFail ∧ refused W) ∨
  ∃ st out q', pqe_new q info = Ok (st, out, q') ∧
    if pi_sz info =? 0 then st = EINVAL ∧ out = None ∧ q' = q
    else if pq_getDataSize q <? pi_sz info then st = PQ_BIG ∧ out = None ∧ q' = q
    else if fIsSet (pq_pflags q) PQ_READONLY then st = EACCES ∧ out = None ∧ q' = q
    else new_post q G info st out q'.
Proof.
  intros Hidle Hel Hsp Hi Hsize. destruct (info_wf_parts info Hi) as (Hn & Hz & Hx). unfold pqe_new.
  destruct (pi_sz info =? 0); [right; by eexists _, _, _|].
  destruct (pq_getDataSize q <? pi_sz info); [right; by eexists _, _, _|].
  destruct (fIsSet (pq_pflags q) PQ_READONLY) eqn:Hwr; [right; by eexists _, _, _|].
  destruct (ctl_get_spec q G RGN_WRITE Hidle) as (st & q1 & -> & w1 & rl1 & Hm1 & Hs);
    [by intros _|by right|]. rewrite bind_Ok.
  destruct Hs as [(-> & -> & Hrl1)|(Hst & Hrf & -> & Hrl1)]; cycle 1.
  { right. rewrite (proj2 (Z.eqb_neq _ _) Hst). simpl negb. cbv iota. eexists st, None, _. split; [done|].
    exists None. split; [done|]. right. split; [done|]. split; [done|]. exists G.
    destruct (get_refused q G w1 rl1 Hidle Hel Hm1 Hrl1) as (H1 & H2 & H3 & H4). auto 10. }
  rewrite (id_rs _ _ Hidle) in Hrl1. change (pf_in (pq_pflags q) RGN_WRITE) with (Z.lor (pq_pflags q) PQ_SIGSBLOCKED).
  simpl negb. cbv iota. set (extent := xlen_prod_i info) in *.
  destruct (reserve_cases q G extent (pi_signature info) w1 rl1 Hidle Hwr Hel Hsp ltac:(lia) Hm1 Hrl1)
    as [Hno|[[-> Hrf]|(Hf & q2 & G2 & o & e & vp & n & se & q3 & G3 & -> & Hinv2 & Hsh & Hlb2 & Hev & Hsp2 & Hres & Hse & Ho & Hxs)]].
  - right. destruct (new_fail q G (pi_signature info) _ _ Hidle Hwr Hno) as (st & vp & sxep & q2 & st' & q' & -> & Hst & Hrel & G' & H).
    rewrite bind_Ok, (proj2 (Z.eqb_neq _ _) Hst). simpl negb. cbv iota. rewrite bind_Ok, Hrel, bind_Ok.
    exists st, None, q'. split; [done|]. exists None. split; [done|]. right. split; [done|]. split; [done|]. exists G'.
    destruct H as (H1 & H2 & H3 & H4). auto 10.
  - left. done.
  - right. rewrite bind_Ok. simpl negb. cbv iota. unfold xinfo_i.
    destruct (pc_align _ (pv_config _ _ (id_inv _ _ Hidle : pq_core q G))) as [Hal _].
    rewrite u32_small by (unfold PQ_FRAGMENT_HEURISTIC in Hsize; lia).
    pose proof (encode_ok vp extent info (pq_sys q3) ltac:(lia)) as Hptr.
    pose proof (λ vp' n', encode_mem vp extent info vp' n' (pq_sys q3)) as Hmem.
    destruct (xdr_info_encode vp extent info (pq_sys q3)) as [ptr w3]. cbn [fst snd] in Hptr, Hmem. subst ptr.
    assert (filled q3 o e w3) as Hfill.
    { intros p k Hp. apply Hmem. destruct (pr_size _ _ _ _ _ _ _ _ _ Hres) as [He _].
      assert (vp = pq_base q3 + o) as ->; [|lia].
      rewrite (pr_vp _ _ _ _ _ _ _ _ _ Hres). pose proof (pr_cfg _ _ _ _ _ _ _ _ _ Hres) as Hc. unfold pq_cfg in Hc.
      simpl in Hc. congruence. }
    rewrite assert_Ok, bind_Ok by lia. unfold pqe_note. simpl pq_sx. rewrite (rd_Ok _ _ _ Hse), !bind_Ok, Ho, Hxs.
    destruct (new_leave q G extent (pi_signature info) w1 rl1 Hidle Hwr Hel ltac:(lia) Hsize Hm1 Hrl1 q2 G2 q3 G3 o e vp
      Hinv2 Hsh Hlb2 Hres Hf Hev Hsp2 w3 Hfill) as (st & q' & Hrel & Hdone).
    simpl pq_pqe_count. rewrite Hrel, bind_Ok. eexists 0, _, q'. split; [reflexivity|].
    eexists (Some (_, _)). split; [reflexivity|]. left. done.
Qed.

(** ** Giving the region up *)

Lemma reserved_range q G sig o e : reserved q G sig o e → pq_datao q ≤ o < pq_ixo q ∧ 0 < o ∧ 0 < e ∧ o + e ≤ pq_ixo q.
Proof.
  intros Hv. pose proof (po_inv _ _ (rv_out _ _ _ _ _ Hv)) as Hinv.
  pose proof (rv_region _ _ _ _ _ Hv) as (n & Hn & <- & <-)%(pv_regions_lookup _ _ Hinv).
  destruct (pv_region_range _ _ Hinv n ltac:(set_solver)) as (? & ? & ? & _ & ?). lia.
Qed.

Lemma reserved_release q G sig o e fl :
  reserved q G sig o e → fl = 0 ∨ fl = RGN_MODIFIED →
  ∃ st w rl, let q' := env q (pq_pflags q) w rl false false in
    mtof q o fl = Ok (st, q') ∧ pq_idle q' (with_rs G []) ∧ same_mem (pq_sys q) w ∧ (st ≠ 0 → refused W).
Proof.
  intros Hv Hfl. pose proof (reserved_range _ _ _ _ _ Hv) as (Hr1 & Hr2 & Hr3 & Hr4).
  destruct Hv as [[Hinv Hbt Hlb [Hc Hi] Hsb] Hrs Hreg Hsig Hqu Hroom Hsz Hwr].
  assert (may q fl) as Hmay by by intros _.
  assert (Riu o e (pq_base q + o) RGN_WRITE ∈ g_rs G) as Hin by (rewrite Hrs; constructor).
  destruct (pv_mine _ _ Hinv _ Hin) as (He & Hvp & _). simpl in He, Hvp.
  pose proof (pv_riul _ _ Hinv) as Hri. rewrite Hrs in Hri.
  destruct (rgn2_release_spec q [] (Riu o e (pq_base q + o) RGN_WRITE) [] fl Hri He Hvp)
    as (st & rl & w & Hrun & Hri' & Hm & Hrf).
  - done.
  - by destruct Hfl as [->| ->].
  - done.
  - simpl. apply andb_false_iff. left. lia.
  - exists st, w, rl. rewrite mm0_mtof_unfold by (apply Hinv || done). simpl ru_offset in Hrun.
    assert (set_sys (set_riul q rl) w = env q (pq_pflags q) w rl false false) as Hq by (destruct q; simpl in *; by subst).
    rewrite Hq in Hrun. split; [exact Hrun|]. split; [|done]. split; [|done].
    split; [|by intros r ?%elem_of_nil|done|done|done].
    apply env_inv; [done..|]. by intros r ?%elem_of_nil.
Qed.

(** The test of the size leaves out the metadata: a product that fits without it
    cannot be entered, but room is made for it. *)
Lemma pqe_new_oversize_spec `{Wr : !Writer W} `{!WriterLaws W} q G info :
  pq_idle q G → elems_ok q G → spare_ok q → pq_writable q → info_wf info → ¬ refused W →
  2 * (xlen_prod_i info + ctl_align (pq_ctl q)) + PQ_FRAGMENT_HEURISTIC < 2 ^ 32 →
  0 < pi_sz info ≤ pq_getDataSize q → pq_getDataSize q < xlen_prod_i info →
  pq_sigs q G !! pi_signature info = None →
  ∃ st q' G', pqe_new q info = Ok (st, None, q') ∧ (st = EACCES ∨ st = ENOMEM) ∧
    pq_idle q' G' ∧ pq_queue q' G' = [].
Proof.
  intros Hid Hel Hsp Hwr Hi Hrf Hsize Hle Hgt Hfr.
  destruct (pqe_new_spec q G info Hid Hel (spare_ok_for _ _ Hsp) Hi Hsize) as [[_ ?]|(st & out & q' & -> & Hpost)]; [done|].
  rewrite (proj2 (Z.eqb_neq _ _)), (proj2 (Z.ltb_ge _ _)) in Hpost by lia.
  rewrite Hwr in Hpost.
  destruct Hpost as (out' & -> & [(_ & s1 & G' & o & e & -> & Hv & He & _ & _ & _ & _ & Habs & _)|(Hst & -> & G' & Hid' & _ & _ & Hf)]).
  - exfalso. destruct (reserved_range _ _ _ _ _ Hv) as (H1 & H2 & H3 & H4).
    pose proof (pv_layout _ _ (id_inv _ _ Hid : pq_core q G)) as Hlay.
    assert (pq_datao q' = pq_datao q ∧ pq_ixo q' = pq_ixo q) as [Hd Hx] by (unfold pq_cfg in Habs; simpl in Habs; split; congruence).
    pose proof (po_inv _ _ (rv_out _ _ _ _ _ Hv)) as Hinv'.
    pose proof (rv_region _ _ _ _ _ Hv) as (n & Hn & _)%(pv_regions_lookup _ _ Hinv').
    destruct (pv_region_range _ _ Hinv' n ltac:(set_solver)) as (_ & _ & _ & ? & _).
    unfold pq_getDataSize in Hgt. rewrite u64_small in Hgt by lia. lia.
  - exists st, q', G'. split; [done|]. destruct Hf as [[? _]|Hf]; [done|].
    inversion Hf as [Hs Heq1 Heq2|st0 s1 Hs Hev Hst0 Hc Heq1 Heq2].
    + subst. destruct Hs as [x Hs]. simpl in Hs. congruence.
    + subst. destruct Hc as [?|[[-> Hr]|[-> Hq]]]; [done| |].
      * split; [by right|]. split; [exact Hid'|]. simpl in Hr. destruct (pq_queue q' G') as [|p l] eqn:Hq; [done|].
        destruct (pv_prods _ _ (id_inv _ _ Hid' : pq_core q' G') p) as (e & info' & Hreg & _); [rewrite Hq; constructor|].
        by rewrite Hr in Hreg.
      * split; [by left|]. split; [exact Hid'|exact Hq].
Qed.

(** The end of a session that changes the count. *)
Lemma leave_count q G w1 rl1 q2 G2 n :
  pq_idle q G → pq_writable q → pq_inv q2 G2 →
  pq_cfg q2 = pq_cfg (env q (Z.lor (pq_pflags q) PQ_SIGSBLOCKED) w1 rl1 true true) → g_lb G2 = [] →
  g_rs G2 = wsession q →
  ∃ st q', ctl_rel (set_pqe_count q2 n) RGN_MODIFIED = Ok (st, q') ∧ pq_idle q' (with_rs G2 []) ∧
    pq_cfg q' = pq_cfg (set_pqe_count q n) ∧ pq_abs q' (with_rs G2 []) = pq_abs q2 G2 ∧
    same_mem (pq_sys q2) (pq_sys q').
Proof.
  intros Hid Hwr Hinv2 Hc2 Hlb Hrs. set (q0 := set_pqe_count q n).
  assert (pq_idle q0 G) as Hid0 by (split; [exact (count_out _ _ _ Hid)|exact (id_rs _ _ Hid)]).
  destruct (leave_store q0 G Hid0 Hwr w1 rl1 (set_pqe_count q2 n) G2 (count_inv _ _ _ Hinv2)) as (st & q' & H);
    [|exact Hlb|exact Hrs|eauto].
  unfold pq_cfg in *. simpl in *. congruence.
Qed.

(** The contents without a region and its signature. *)
Definition store_remove (s : store) (sig : signaturet) (o : Z) : store :=
  Store (s_queue s) (delete o (s_regions s)) (delete sig (s_sigs s)).

Lemma store_remove_add s sig o e :
  s_regions s !! o = None → s_sigs s !! sig = None → store_remove (store_add s (s_queue s) sig o e) sig o = s.
Proof. intros Hr Hs. unfold store_remove, store_add. simpl. rewrite !delete_insert_id by done. by destruct s. Qed.

(** In every case the process has no region left; the region is free again unless the
    system refuses. *)
Definition discard_post q G (sig : signaturet) (o st : Z) q' : Prop :=
  ∃ G', pq_idle q' G' ∧ elems_ok q' G' ∧
    ((st = 0 ∧ pq_cfg q' = pq_cfg (set_pqe_count q (pq_pqe_count q - 1)) ∧
        pq_abs q' G' = store_remove (pq_abs q G) sig o) ∨
     (st ≠ 0 ∧ refused W ∧ pq_cfg q' = pq_cfg q ∧ pq_abs q' G' = pq_abs q G)).

Lemma freed_elems q G sig o e q' G' :
  reserved q G sig o e → pq_abs q' G' = store_remove (pq_abs q G) sig o → g_lk G' = g_lk G → elems_ok q' G'.
Proof.
  intros Hv Ha Hlk. injection Ha as H1 H2 _. pose proof (rv_room _ _ _ _ _ Hv) as Hroom.
  unfold elems_ok. rewrite H1, H2, Hlk. simpl. rewrite map_size_delete_Some by (by eexists; apply (rv_region _ _ _ _ _ Hv)). lia.
Qed.

Lemma pqe_discard_spec q G sig o e b :
  reserved q G sig o e → 4 ≤ fb_spare (pq_fb q) →
  ∃ st q', pqe_discard q (PqeIndex o sig b) = Ok (st, q') ∧ discard_post q G sig o st q'.
Proof.
  intros Hv Hsp. unfold pqe_discard. simpl px_offset. simpl px_signature.
  pose proof (reserved_elems _ _ _ _ _ Hv) as Hel. pose proof (rv_write _ _ _ _ _ Hv) as Hwr.
  destruct (reserved_range _ _ _ _ _ Hv) as (Hr1 & Hr2 & _).
  destruct (reserved_release q G sig o e 0 Hv (or_introl eq_refl)) as (st & w & rl & Hrun & Hid & Hm & Hrf).
  rewrite Hrun, bind_Ok. set (q1 := env q (pq_pflags q) w rl false false) in *. set (G1 := with_rs G []) in *.
  assert (pq_cfg q1 = pq_cfg q) as Hcfg1.
  { destruct (po_ptrs _ _ (rv_out _ _ _ _ _ Hv)) as [Hp1 Hp2]. unfold pq_cfg. simpl. congruence. }
  destruct (Z.eqb_spec st 0) as [->|Hst]; simpl negb; cbv iota; cycle 1.
  { exists st, q1. split; [done|]. exists G1. split; [exact Hid|]. split; [exact Hel|]. right. auto. }
  destruct (ctl_get_spec q1 G1 RGN_WRITE Hid) as (st & q2 & -> & w1 & rl1 & Hm1 & Hs);
    [by intros _|by right|]. rewrite bind_Ok.
  destruct Hs as [(-> & -> & Hrl1)|(Hst & Hrf1 & -> & Hrl1)]; cycle 1.
  { rewrite (proj2 (Z.eqb_neq _ _) Hst). simpl negb. cbv iota. eexists st, _. split; [reflexivity|]. exists G1.
    destruct (get_refused q1 G1 w1 rl1 Hid Hel Hm1 Hrl1) as (H1 & H2 & H3 & H4). split; [exact H1|]. split; [exact H2|].
    right. split; [done|]. split; [done|]. split; [congruence|exact H4]. }
  rewrite (id_rs _ _ Hid) in Hrl1. change (pf_in (pq_pflags q1) RGN_WRITE) with (Z.lor (pq_pflags q1) PQ_SIGSBLOCKED).
  simpl negb. cbv iota. pose proof (main_inv q1 G1 w1 rl1 Hid Hm1 Hrl1) as Hinv2.
  set (q2 := env q1 _ w1 rl1 true true) in *. set (G2 := with_rs G1 _) in *.
  pose proof (rv_region _ _ _ _ _ Hv) as (n & Hn & Ho & _)%(pv_regions_lookup _ _ (po_inv _ _ (rv_out _ _ _ _ _ Hv))).
  assert (rg_off (rl_rp (pq_rl q2)) n = o) as Ho2 by exact Ho.
  destruct (rpqe_free_spec q2 G2 sig n Hinv2 Hn) as (q3 & G3 & Hfree & Hfd).
  - rewrite Ho2. exact (rv_sig _ _ _ _ _ Hv).
  - rewrite Ho2. exact (rv_queue _ _ _ _ _ Hv).
  - rewrite Ho2. intros r Hr. change (g_rs G2) with (wsession q1) in Hr. unfold session in Hr. cbn [app] in Hr.
    rewrite !elem_of_cons, elem_of_nil in Hr. destruct Hr as [->|[->|[]]]; simpl; lia.
  - exact Hsp.
  - rewrite Ho2 in Hfree, Hfd. rewrite Hfree, bind_Ok.
    destruct (pf_lists _ _ _ _ _ _ Hfd) as (Hlk & Hlb & Hrs).
    destruct (leave_count q1 G1 w1 rl1 q3 G3 (pq_pqe_count q3 - 1) Hid Hwr (pf_inv _ _ _ _ _ _ Hfd)
      (pf_cfg _ _ _ _ _ _ Hfd)) as (st & q' & Hrel & Hid' & Hc' & Ha' & _).
    { rewrite Hlb. exact (po_lb _ _ (rv_out _ _ _ _ _ Hv)). }
    { exact Hrs. }
    simpl (0 =? 0). cbv iota. rewrite Hrel, bind_Ok. exists 0, q'. split; [done|].
    assert (pq_abs q' (with_rs G3 []) = store_remove (pq_abs q G) sig o) as Ha.
    { rewrite Ha'. unfold pq_abs. by rewrite (pf_queue _ _ _ _ _ _ Hfd), (pf_regions _ _ _ _ _ _ Hfd), (pf_sigs _ _ _ _ _ _ Hfd). }
    exists (with_rs G3 []). split; [exact Hid'|]. split; [by eapply freed_elems|]. left. split; [done|]. split; [|exact Ha].
    rewrite Hc'. pose proof (pf_cfg _ _ _ _ _ _ Hfd) as Hc3. unfold pq_cfg in *. simpl in *. congruence.
Qed.

(** ** Entering the product *)

(** What the process has written: if it is the metadata of a product at all, then of
    the signature that the region was reserved for. *)
Definition fill_ok q (sig : signaturet) (o e : Z) : Prop :=
  ∀ info k, xdr_prod_info (pq_base q + o) e (pq_sys q) = Some (info, k) →
    pi_signature info = sig ∧ k = xlen_prod_info info ∧ 0 ≤ pi_sz info < 2 ^ 32 ∧ 0 ≤ xlen_prod_info info < 2 ^ 32.

Lemma xlen_fits info e :
  0 ≤ pi_sz info < 2 ^ 32 → 0 ≤ xlen_prod_info info < 2 ^ 32 → xlen_prod_i info ≤ e < 2 ^ 32 → info_fits info e.
Proof.
  intros Hs Hx He. unfold xlen_prod_i in He. pose proof (xpad_range (pi_sz info)) as [Hp _].
  rewrite (u64_small (xlen_prod_info info + pi_sz info)), u64_small in He by lia. unfold info_fits. lia.
Qed.

(** The state of the system in which the region has been given back and the control
    block locked. *)
Definition released_sys q (o : Z) : W :=
  match mtof q o RGN_MODIFIED with
  | Ok (_, q1) => match ctl_get q1 RGN_WRITE with Ok (_, q2) => pq_sys q2 | Err _ => pq_sys q1 end
  | Err _ => pq_sys q
  end.

(** The outcome of [pqe_enter()]: the product is in the time queue, at the first free
    time from what the clock says when the control block has been locked; or the
    system refuses a request and the region is reserved for nobody. *)
Definition enter_post q G (sig : signaturet) (o st : Z) q' : Prop :=
  ∃ G', pq_idle q' G' ∧ elems_ok q' G' ∧ same_mem (pq_sys q) (pq_sys q') ∧
    ((st = 0 ∧ pq_cfg q' = pq_cfg (set_pqe_count q (pq_pqe_count q - 1)) ∧
        ∃ now w tv, gettimeofday (released_sys q o) = (inr now, w) ∧ abs_least_free now (pq_queue q G) tv ∧
        pq_abs q' G' = Store (abs_insert tv o (pq_queue q G)) (pq_regions q G) (pq_sigs q G)) ∨
     (st = PQ_SYSTEM ∧ refused W ∧ pq_cfg q' = pq_cfg q ∧ pq_abs q' G' = pq_abs q G)).

Section insert.
Context (q : pqueue W) (G : ghost) (sig : signaturet) (o e : Z) (Hv : reserved q G sig o e).
Context (Htime : before_endt (pq_nalloc q)) (Hspare : 4 ≤ fb_spare (pq_fb q)).

Lemma pqe_enter_spec info :
  xdr_prod_info (pq_base q + o) e (pq_sys q) = Some (info, xlen_prod_info info) → pi_signature info = sig →
  info_fits info e → ∃ st q', pqe_enter q o = Ok (st, q') ∧ enter_post q G sig o st q'.
Proof.
  intros Hinfo Hsg Hfits. unfold pqe_enter.
  pose proof (reserved_elems _ _ _ _ _ Hv) as Hel. pose proof (rv_write _ _ _ _ _ Hv) as Hwr.
  destruct (reserved_release q G sig o e RGN_MODIFIED Hv (or_intror eq_refl)) as (st & w & rl & Hrel0 & Hid & Hm & Hrf0).
  rewrite Hrel0, bind_Ok. set (q1 := env q (pq_pflags q) w rl false false) in *. set (G1 := with_rs G []) in *.
  assert (pq_cfg q1 = pq_cfg q) as Hcfg1.
  { destruct (po_ptrs _ _ (rv_out _ _ _ _ _ Hv)) as [Hp1 Hp2]. unfold pq_cfg. simpl. congruence. }
  destruct (Z.eqb_spec st 0) as [->|Hst]; simpl negb; cbv iota; cycle 1.
  { exists PQ_SYSTEM, q1. split; [done|]. exists G1. split; [exact Hid|]. split; [exact Hel|]. split; [exact Hm|]. right. auto 10. }
  destruct (ctl_get_spec q1 G1 RGN_WRITE Hid) as (st & q2 & Hget & w1 & rl1 & Hm1 & Hs);
    [by intros _|by right|]. rewrite Hget, bind_Ok.
  destruct Hs as [(-> & -> & Hrl1)|(Hst & Hrf1 & -> & Hrl1)]; cycle 1.
  { rewrite (proj2 (Z.eqb_neq _ _) Hst). simpl negb. cbv iota. eexists PQ_SYSTEM, _. split; [reflexivity|]. exists G1.
    destruct (get_refused q1 G1 w1 rl1 Hid Hel Hm1 Hrl1) as (H1 & H2 & H3 & H4). split; [exact H1|]. split; [exact H2|].
    split; [exact (same_mem_trans _ _ _ Hm Hm1)|]. right. split; [done|]. split; [done|]. split; [congruence|exact H4]. }
  assert (released_sys q o = w1) as Hsys by (unfold released_sys; by rewrite Hrel0; fold q1; rewrite Hget).
  rewrite (id_rs _ _ Hid) in Hrl1. change (pf_in (pq_pflags q1) RGN_WRITE) with (Z.lor (pq_pflags q1) PQ_SIGSBLOCKED).
  simpl negb. cbv iota. pose proof (main_inv q1 G1 w1 rl1 Hid Hm1 Hrl1) as Hinv2.
  set (q2 := env q1 _ w1 rl1 true true) in *. set (G2 := with_rs G1 _) in *.
  destruct (pq_tq_add_spec q2 G2 o Hinv2) as (st & q3 & G3 & -> & Hi & Hc & Hrs & Hlb & Hre & Hsi & Hm3 & Hl & Hst).
  - exists e, info. split; [exact (rv_region _ _ _ _ _ Hv)|]. split; [|split; [|done]].
    + simpl. rewrite Hm1. simpl. by rewrite Hm.
    + rewrite Hsg. exact (rv_sig _ _ _ _ _ Hv).
  - exact (rv_queue _ _ _ _ _ Hv).
  - exact (rv_room _ _ _ _ _ Hv).
  - exact Htime.
  - rewrite bind_Ok. assert (g_lb G3 = []) as Hlb3 by (rewrite Hlb; exact (po_lb _ _ (rv_out _ _ _ _ _ Hv))).
    assert (same_mem (pq_sys q) (pq_sys q3)) as Hmem.
    { eapply same_mem_trans; [exact Hm|]. eapply same_mem_trans; [exact Hm1|exact Hm3]. }
    destruct Hst as [(-> & now & wc & tv & Hclk & Hlf & Hq)|(_ & Hsp0 & _)]; cycle 1.
    { exfalso. simpl in Hsp0. lia. }
    simpl negb. cbv iota.
    destruct (note_mostRecent_spec q3) as (t & w4 & -> & Hm4). set (q4 := set_ctl _ _).
    destruct (leave_count q1 G1 w1 rl1 q4 G3 (pq_pqe_count q4 - 1) Hid Hwr) as (st & q' & Hrel & Hid' & Hc' & Ha' & Hm5).
    + by apply (pq_inv_ctl _ _ _ _ Hi).
    + exact Hc.
    + exact Hlb3.
    + exact Hrs.
    + rewrite Hrel, bind_Ok. exists 0, q'. split; [done|]. exists (with_rs G3 []).
      assert (pq_abs q' (with_rs G3 []) = Store (abs_insert tv o (pq_queue q G)) (pq_regions q G) (pq_sigs q G)) as Ha.
      { rewrite Ha'. change (pq_abs q4 G3) with (pq_abs q3 G3). unfold pq_abs. by rewrite Hq, Hre, Hsi. }
      split; [exact Hid'|]. split; [|split].
      * injection Ha' as Ha1 Ha2 _. unfold elems_ok. rewrite Ha1, Ha2.
        change (pq_regions q4 G3) with (pq_regions q3 G3). rewrite Hre. exact Hl.
      * eapply same_mem_trans; [exact Hmem|]. eapply same_mem_trans; [exact Hm4|exact Hm5].
      * left. split; [done|]. split; [|exists now, wc, tv; rewrite Hsys; auto]. rewrite Hc'.
        change (pq_pqe_count q4) with (pq_pqe_count q3). unfold pq_cfg in *. simpl in *. congruence.
Qed.

(** A region that the process does not have is not given back. *)
Lemma pqe_discard_absent q' G' index :
  pq_idle q' G' → pqe_discard q' index = Ok (EINVAL, q').
Proof.
  intros Hid. unfold pqe_discard.
  rewrite (mm0_mtof_unfold q' _ 0 (pv_config _ _ (id_inv _ _ Hid : pq_core q' G')) (may_read q')).
  unfold rgn2_release. destruct (riul_r_find_spec _ _ (pv_riul _ _ (id_inv _ _ Hid : pq_core q' G')) (px_offset index))
    as (found & A & B & -> & HAB & _ & HB). rewrite bind_Ok. rewrite (id_rs _ _ Hid) in HAB.
  destruct found; [|done]. destruct HB as (r & B' & -> & _). by destruct A.
Qed.

(** The product is in the time queue, or what the process wrote was refused and its
    region is free again, or the region is lost: it remains allocated although no
    process has it. *)
Definition pqe_insert_post (st : Z) q' : Prop :=
  match xdr_prod_info (pq_base q + o) e (pq_sys q) with
  | None => st = PQ_CORRUPT ∧ ∃ st', discard_post q G sig o st' q'
  | Some (info, _) =>
      if e <? xlen_prod_i info then st = PQ_BIG ∧ ∃ st', discard_post q G sig o st' q'
      else enter_post q G sig o st q'
  end.

Lemma pqe_insert_spec b :
  fill_ok q sig o e →
  ∃ st q', pqe_insert q (PqeIndex o sig b) = Ok (st, q') ∧ pqe_insert_post st q'.
Proof.
  intros Hfill. unfold pqe_insert, pqe_insert_post. simpl px_offset.
  pose proof (po_inv _ _ (rv_out _ _ _ _ _ Hv)) as Hinv. pose proof (rv_rs _ _ _ _ _ Hv) as Hrs.
  pose proof (rv_size _ _ _ _ _ Hv) as Hsz. destruct (reserved_range _ _ _ _ _ Hv) as (_ & _ & He & _).
  destruct (riul_r_find_spec _ _ (pv_riul _ _ Hinv) o) as (found & A & B & -> & HAB & HA & HB). rewrite bind_Ok.
  rewrite Hrs in HAB. destruct found; cycle 1.
  { exfalso. assert (Riu o e (pq_base q + o) RGN_WRITE ∈ A ++ B) as Hin by (rewrite <- HAB; constructor).
    apply elem_of_app in Hin as [Hin|Hin]; [apply HA in Hin|apply HB in Hin]; simpl in Hin; lia. }
  destruct HB as (r & B' & -> & Hro). symmetry in HAB. apply app_singleton in HAB as [[-> [= -> ->]]|[_ ?]]; [|done].
  simpl negb. cbv iota. destruct (ui_rp _ _ (pv_riul _ _ Hinv)) as [k Hk]. rewrite Hrs in Hk.
  rewrite Hk, (rdl_app [_] _ 0%nat _ eq_refl), bind_Ok. cbn [ru_vp ru_extent]. rewrite (u32_small e) by lia.
  destruct (pqe_discard_spec q G sig o e b Hv Hspare) as (st' & qd & Hdrun & Hd).
  destruct (xdr_prod_info (pq_base q + o) e (pq_sys q)) as [[info k']|] eqn:Hx; cycle 1.
  { rewrite bind_Ok. simpl negb. cbv iota. rewrite Hdrun, bind_Ok. exists PQ_CORRUPT, qd. eauto. }
  destruct (Z.ltb_spec e (xlen_prod_i info)) as [Hbig|Hle].
  { rewrite bind_Ok. simpl negb. cbv iota. rewrite Hdrun, bind_Ok. exists PQ_BIG, qd. eauto. }
  destruct (Hfill info k' Hx) as (Hsg & -> & Hs & Hxl).
  destruct (pqe_enter_spec info Hx Hsg (xlen_fits info e Hs Hxl (conj Hle Hsz))) as (st & q' & -> & Hpost).
  rewrite bind_Ok. destruct (Z.eqb_spec st 0) as [->|Hst]; simpl negb; cbv iota; [by exists 0, q'|].
  pose proof Hpost as (G' & Hid & _). rewrite (pqe_discard_absent q' G' _ Hid), bind_Ok. by exists st, q'.
Qed.
End insert.
End reserved.
