(* ===== verification/Down6Ok.v ===== *)
(** * The downstream LDM on a well-formed process

    What the functions of Down6.v do: vetting, saving a product, and the messages
    one by one. *)

From stdpp Require Import strings.
From S2P Require Import Prelude Timestamp NumTheory Fb SkipList TimeQueue RegionList RegionHash.
From S2P Require Import RegionAlloc RegionThms SigIndex Riul Sizes PqShare PqCore Xlen AutoShift XdrData ProdClass ProdInfo.
From S2P Require Import PqOps PqCtl PqRead PqEntry Down6 PqInv PqAccess PqDelete PqRoom PqNew PqReserve PqSession PqInsert PqReserved.

Section ok.
Context {W : Type} {Sys : System W} {Laws : SystemLaws W} {Wr : Writer W} {WL : WriterLaws W} {Re : Regex}.
Context (interval max_latency : Z).
Implicit Types (p : process (W:=W)) (q : pqueue W) (G : ghost) (m : memory).

(** The modules that the process uses are in order. *)
Record proc_ok p : Prop := {
  pk_queue : ∃ G, pq_idle (ps_pq p) G ∧ elems_ok (ps_pq p) G;
  pk_saved : saved_ok (ps_saved p);
  pk_shift : ∃ l, as_rep (ps_shift p) l;
  pk_xd : xd_ok (ps_xd p);
}.

(** After HIYA. *)
Record ready p : Prop := {
  rd_proc : proc_ok p;
  rd_init : _initialized (ps_down p) = true;
  rd_class : ∃ c, _class (ps_down p) = Some c ∧ class_wf c;
  rd_info : ∃ b, _info (ps_down p) = Some b ∧ ib_ok b;
}.

(** What is assumed of the metadata that the XDR layer decodes, and of the queue that the product
    goes to: the size is not too large for XDR. *)
Record info_ok q (info : prod_info) : Prop := {
  io_sig : length (pi_signature info) = 16%nat;
  io_sz : 0 ≤ pi_sz info;
  io_arrival : in_epoch (pi_arrival info);
  io_size : 2 * (pi_sz info + 400 + ctl_align (pq_ctl q)) + PQ_FRAGMENT_HEURISTIC < 2 ^ 32;
}.

(** There are spare blocks, and the clock is before the end of time. *)
Definition roomy q : Prop := spare_ok q ∧ before_endt (W:=W) (pq_nalloc q).

Lemma idle_world q G w : pq_idle q G → same_mem (pq_sys q) w → pq_idle (set_sys q w) G.
Proof.
  intros Hid Hm. destruct (po_ptrs _ _ Hid) as [H1 H2]. pose proof (id_inv _ _ Hid : pq_core q G) as Hc.
  pose proof (out_again q G Hid w (pq_riul q) Hm (pv_riul _ _ Hc)) as Hout.
  split; [|exact (id_rs _ _ Hid)].
  assert (set_sys q w = env q (pq_pflags q) w (pq_riul q) false false) as ->; [|exact Hout].
  destruct q. simpl in *. by subst.
Qed.

(** *** The metadata that is entered *)

Lemma relayed_wf q info h : pq_config q → info_ok q info → info_wf (relayed info h).
Proof.
  intros Hc [Hs Hz Ht Hsz]. destruct (relayed_short info h) as [Ho Hi]. unfold HOSTNAMESIZE, KEYSIZE in *.
  destruct (pc_align _ Hc) as [Hal _]. unfold PQ_FRAGMENT_HEURISTIC in Hsz.
  split; cbn [p_info p_data]; unfold strlen; [lia|lia|exact Hs|].
  rewrite length_replicate. change (pi_sz (relayed info h)) with (pi_sz info). lia.
Qed.

Lemma wf_size info : info_wf info → xlen_prod_i info ≤ pi_sz info + 400.
Proof.
  intros Hw. destruct (xlen_product_parts _ Hw) as [He Hx]. change (xlen_prod_i info) with (xlen_product (Product info (replicate (Z.to_nat (pi_sz info)) 0))).
  rewrite Hx, He. destruct Hw as [Ho Hid Hs _]. cbn [p_info] in *. unfold enc_prod_info, enc_bytes.
  rewrite !length_app, !Nat2Z.inj_add, !length_enc_opaque, !length_bytes_of, Hs.
  fold (strlen (pi_origin info)) (strlen (pi_ident info)).
  pose proof (xpad_range (strlen (pi_origin info))) as [H1 _]. pose proof (xpad_range (strlen (pi_ident info))) as [H2 _].
  pose proof (xpad_range (pi_sz info)) as [H3 _]. change (xpad (Z.of_nat 16)) with 0.
  assert (∀ z, length (enc_int z) = 4%nat) as Hint by done. rewrite !Hint. lia.
Qed.

Lemma relayed_size q info h : pq_config q → info_ok q info → xlen_prod_i (relayed info h) ≤ pi_sz info + 400.
Proof. intros Hc Hi. exact (wf_size _ (relayed_wf q info h Hc Hi)). Qed.

Lemma relayed_fits q info h :
  pq_config q → info_ok q info →
  2 * (xlen_prod_i (relayed info h) + ctl_align (pq_ctl q)) + PQ_FRAGMENT_HEURISTIC < 2 ^ 32.
Proof. intros Hc Hi. pose proof (relayed_size q info h Hc Hi). pose proof (io_size _ _ Hi). lia. Qed.

(** The product with its data. *)
Lemma relayed_product q info h bytes :
  pq_config q → info_ok q info → Z.of_nat (length bytes) = pi_sz info → product_ok (Product (relayed info h) bytes).
Proof.
  intros Hc Hi Hl. destruct (relayed_wf q info h Hc Hi) as [H1 H2 H3 [_ H4]]. cbn [p_info p_data] in *.
  split; cbn [p_info p_data]; [done..|]. change (pi_sz (relayed info h)) with (pi_sz info) in *. lia.
Qed.

(** *** Vetting *)

(** The class after vetting at the time [now], and whether it selects the product. *)
Definition vetted p (c : prod_class) (now : timestampt) : prod_class := vet_from max_latency c (inr now).

(** The state with the new class and metadata, in another state of the system. *)
Definition vet_state p (c : prod_class) (b : InfoBuf) (now : timestampt) (infop : prod_info) w : process :=
  set_world (set_down p (set_info (set_class (ps_down p) (Some (vetted p c now)))
    (Some (InfoBuf_ (magic b) (relayed infop (_upName (ps_down p))))))) w.

Definition vet_post p (infop : prod_info) m (st : Z) p' : Prop :=
  ∃ c b now w, _class (ps_down p) = Some c ∧ _info (ps_down p) = Some b ∧ gettimeofday (pq_sys (ps_pq p)) = (inr now, w) ∧
    let p1 := vet_state p c b now infop w in
    ready p1 ∧ same_mem (pq_sys (ps_pq p)) w ∧
    if decide (selects (vetted p c now) infop) then st = 0 ∧ p' = p1
    else ∃ s, p' = set_saved p1 s ∧ saved_ok s ∧
      ((st = DOWN6_UNWANTED ∧ savedInfo_get s = Some (relayed infop (_upName (ps_down p))) ∧ si_wasSet s = true) ∨
       (st = DOWN6_SYSTEM_ERROR ∧ m_saved m = None ∧ s = ps_saved p)).

Lemma vetProduct_spec p infop m :
  ready p → in_epoch (pi_arrival infop) →
  ∃ st p', vetProduct max_latency p infop m = Ok (st, p') ∧ vet_post p infop m st p'.
Proof.
  intros [[(G & Hid & Hel) Hs Ha Hx] Hi (c & Hc & Hcw) (b & Hb & Hbok)] Ht. unfold vetProduct, vet_post. rewrite Hc.
  destruct (clock_spec (pq_sys (ps_pq p))) as (now & w & Hclk & _ & _ & Hm). rewrite Hclk.
  cbn [ps_down set_world set_pq set_down set_class _info _upName]. rewrite Hb.
  rewrite dh_setInfo_spec, bind_Ok by apply Hbok. cbn [ps_down set_down set_info].
  fold (vetted p c now). set (p1 := vet_state p c b now infop w).
  assert (ready p1) as Hr1.
  { split; [|exact Hi|by exists (vetted p c now)|].
    - split; [|exact Hs|exact Ha|exact Hx]. exists G. split; [by apply idle_world|exact Hel].
    - eexists. split; [reflexivity|]. split; [apply Hbok|apply relayed_short]. }
  rewrite prodInClass_spec, bind_Ok by done. destruct (decide (selects (vetted p c now) infop)) as [Hsel|Hsel].
  - rewrite bool_decide_true by done. exists 0, p1. split; [done|]. exists c, b, now, w. by rewrite decide_True.
  - rewrite bool_decide_false by done. cbn [fmap option_fmap option_map ib_info].
    destruct (savedInfo_set_spec (ps_saved p) (relayed infop (_upName (ps_down p))) (m_saved m) Hs) as (st & s & Hrun & Hsok & Hst).
    cbn [ps_saved set_down set_world set_pq]. rewrite Hrun, bind_Ok. eexists _, (set_saved p1 s). split; [done|].
    exists c, b, now, w. rewrite decide_False by done. split; [done|]. split; [done|]. split; [done|]. split; [exact Hr1|].
    split; [done|]. exists s. split; [done|]. split; [done|].
    destruct Hst as [(-> & Hg & Hw)|(-> & Hm0 & ->)]; [left|right; done].
    rewrite Hg, cut_id by apply relayed_short. done.
Qed.

(** *** Saving a product *)

(** The code for the status of [pq_insert()]. *)
Definition down_code (e : Z) : Z :=
  if e =? 0 then 0 else if PQ_BIG =? e then DOWN6_PQ_BIG else if PQ_DUP =? e then DOWN6_UNWANTED
  else if EACCES =? e then DOWN6_PQ_NO_ROOM else DOWN6_PQ.

(** The queue after [pq_insert()]: unchanged, or after a step of the insertion. *)
Definition inserted q (prod : product) (e : Z) q' : Prop :=
  ∃ G G', pq_idle q G ∧ pq_insertNoSig q prod = Ok (e, q') ∧ pq_idle q' G' ∧ elems_ok q' G' ∧ pq_cfg q' = pq_cfg q ∧
    if fIsSet (pq_pflags q) PQ_READONLY then e = EACCES ∧ q' = q
    else if pq_getDataSize q <? xlen_product prod then e = PQ_BIG ∧ q' = q
    else insert_step prod (pq_base q) (reserved_sys q prod) (pq_abs q G) e (pq_abs q' G') ∧ (e = 0 → readable q' G' prod).

(** There was no memory for the metadata, or for the automatic shift. *)
Definition no_memory m : Prop := m_saved m = None ∨ (m_shift m).1 && (m_shift m).2 = false.

Definition save_post p (info : prod_info) (bytes : list Z) m (st : Z) p' : Prop :=
  ∃ e q', inserted (ps_pq p) (Product info bytes) e q' ∧ proc_ok p' ∧
    ps_down p' = ps_down p ∧ ps_xd p' = ps_xd p ∧ (∃ w, ps_pq p' = set_sys q' w ∧ same_mem (pq_sys q') w) ∧
    ((st = down_code e ∧ (st ≠ DOWN6_PQ → savedInfo_get (ps_saved p') = Some info)) ∨
     (st = DOWN6_SYSTEM_ERROR ∧ no_memory m)).

Lemma dh_save_spec p info m :
  proc_ok p → info_short info →
  ∃ ok s, dh_save p info m = Ok (ok, set_saved p s) ∧ proc_ok (set_saved p s) ∧
    if (ok : bool) then savedInfo_get s = Some info else m_saved m = None.
Proof.
  intros [Hq Hs Ha Hx] Hi. unfold dh_save.
  destruct (savedInfo_set_spec (ps_saved p) info (m_saved m) Hs) as (st & s & -> & Hsok & Hst). rewrite bind_Ok.
  exists (st =? 0), s. split; [done|]. split; [by split|].
  destruct Hst as [(-> & Hg & _)|(-> & Hm & _)]; [|done]. simpl. by rewrite Hg, cut_id.
Qed.

Lemma dh_shift_spec p success size m :
  proc_ok p →
  ∃ ok a w, dh_shift interval p success size m = Ok (ok, set_world (set_shift p a) w) ∧
    same_mem (pq_sys (ps_pq p)) w ∧ proc_ok (set_world (set_shift p a) w) ∧
    if (ok : bool) then True else (m_shift m).1 && (m_shift m).2 = false.
Proof.
  intros [(G & Hid & Hel) Hs (l & Ha) Hx]. unfold dh_shift.
  destruct (clock_spec (pq_sys (ps_pq p))) as (now & w & Hclk & _ & _ & Hm).
  destruct (as_process_total (ps_shift p) l interval success size (m_shift m) _ now w Ha Hclk)
    as (st & a & w2 & l' & -> & Hw & Ha' & _ & _ & Hst). rewrite bind_Ok.
  assert (same_mem (pq_sys (ps_pq p)) w2) as Hm2 by (destruct Hw as [->| ->]; [apply same_mem_refl|done]).
  exists (st =? 0), a, w2. split; [done|]. split; [done|]. split.
  - split; [|exact Hs|by exists l'|exact Hx]. exists G. split; [by apply idle_world|exact Hel].
  - destruct (_ || _) eqn:Hor in Hst; subst st; simpl; [done|]. by apply orb_false_iff in Hor as [_ ?].
Qed.

Lemma pq_insert_inserted q G prod :
  pq_idle q G → elems_ok q G → roomy q → product_ok prod → size_ok q prod →
  (pq_insert q prod = Err AssertFail ∧ refused W) ∨ ∃ e q', pq_insert q prod = Ok (e, q') ∧ inserted q prod e q'.
Proof.
  intros Hid Hel [Hsp Ht] Hp Hs. unfold pq_insert.
  destruct (pq_insertNoSig_spec q G prod Hid Hel (spare_ok_for _ _ Hsp) Ht Hp Hs) as [[Hr Hrf]|(e & q' & G' & Hr & Hpost)].
  - left. by rewrite Hr.
  - right. exists e, q'. rewrite Hr. split; [done|].
    assert (∃ G', pq_idle q' G' ∧ elems_ok q' G' ∧ pq_cfg q' = pq_cfg q ∧
      if fIsSet (pq_pflags q) PQ_READONLY then e = EACCES ∧ q' = q
      else if pq_getDataSize q <? xlen_product prod then e = PQ_BIG ∧ q' = q
      else insert_step prod (pq_base q) (reserved_sys q prod) (pq_abs q G) e (pq_abs q' G') ∧ (e = 0 → readable q' G' prod)) as (G2 & H1 & H2 & H3 & H4).
    { destruct (fIsSet _ _); [destruct Hpost as [-> ->]; by exists G|].
      destruct (_ <? _); [destruct Hpost as [-> ->]; by exists G|].
      destruct Hpost as (H1 & H2 & H3 & H4). by exists G'. }
    exists G, G2. split; [exact Hid|]. split; [exact Hr|]. auto.
Qed.

Lemma set_pq_ok p q G : proc_ok p → pq_idle q G → elems_ok q G → proc_ok (set_pq p q).
Proof. intros [_ Hs Ha Hx] Hid Hel. split; [by exists G|done..]. Qed.

Lemma dh_saveProd_spec p info data bytes wasHereis notify m :
  proc_ok p → roomy (ps_pq p) → product_ok (Product info bytes) → size_ok (ps_pq p) (Product info bytes) →
  info_short info → c_load (ps_xd p) data (pi_sz info) = Ok bytes →
  (dh_saveProd interval p info data wasHereis notify m = Err AssertFail ∧ refused W) ∨
  ∃ st p', dh_saveProd interval p info data wasHereis notify m = Ok (st, p') ∧ save_post p info bytes m st p'.
Proof.
  intros Hok Hroom Hp Hsz Hsh Hload. unfold dh_saveProd. rewrite Hload, bind_Ok.
  destruct (pk_queue _ Hok) as (G & Hid & Hel).
  destruct (pq_insert_inserted (ps_pq p) G _ Hid Hel Hroom Hp Hsz) as [[-> Hrf]|(e & q' & -> & Hins)]; [by left|right].
  rewrite bind_Ok. cbv zeta. pose proof Hins as (G1 & G' & _ & _ & Hid' & Hel' & _).
  pose proof (set_pq_ok p q' G' Hok Hid' Hel') as Hok1. set (p1 := set_pq p q') in *.
  destruct (dh_save_spec p1 info m Hok1 Hsh) as (ok & s & Hsave & Hok2 & Hs). rewrite !Hsave, !bind_Ok.
  set (p2 := set_saved p1 s) in *.
  assert (∀ ret, ret = down_code e → ∃ st p', (Ok (if ok then ret else DOWN6_SYSTEM_ERROR, p2)) = Ok (st, p') ∧
            save_post p info bytes m st p') as Hnote.
  { intros ret ->. eexists _, p2. split; [done|]. exists e, q'. split; [exact Hins|]. split; [exact Hok2|].
    split; [done|]. split; [done|]. split; [exists (pq_sys q'); rewrite set_sys_id; split; [done|apply same_mem_refl]|].
    destruct ok; [left; by split; [|intros]|right; split; [done|by left]]. }
  assert (∀ ret b, ret = down_code e → ∃ st p',
            (if negb ok then Ok (DOWN6_SYSTEM_ERROR, p2)
             else if notify then
               let! '(ok, p3) := dh_shift interval p2 b (pi_sz info) m in
               Ok (if ok then ret else DOWN6_SYSTEM_ERROR, p3)
             else Ok (ret, p2)) = Ok (st, p') ∧ save_post p info bytes m st p') as Hshift.
  { intros ret b Hret. destruct ok; simpl negb; cbv iota; [|by apply (Hnote ret)].
    destruct notify; [|by apply (Hnote ret)].
    destruct (dh_shift_spec p2 b (pi_sz info) m Hok2) as (ok' & a & w & -> & Hm & Hok3 & Hsh'). rewrite bind_Ok.
    eexists _, _. split; [done|]. exists e, q'. split; [exact Hins|]. split; [exact Hok3|].
    split; [done|]. split; [done|]. split; [exists w; by split|].
    destruct ok'; [left; by split; [|intros]|right; split; [done|by right]]. }
  unfold down_code in *. destruct (e =? 0) eqn:H0; [by apply Hshift|].
  destruct (PQ_BIG =? e) eqn:H1; [by apply Hnote|]. destruct (PQ_DUP =? e) eqn:H2; [by apply Hshift|].
  destruct (EACCES =? e) eqn:H3; [by apply Hnote|]. eexists _, p1. split; [done|].
  exists e, q'. split; [exact Hins|]. split; [exact Hok1|]. split; [done|]. split; [done|].
  split; [exists (pq_sys q'); rewrite set_sys_id; split; [done|apply same_mem_refl]|].
  left. unfold down_code. by rewrite H0, H1, H2, H3.
Qed.

(** *** HEREIS *)

Definition hereis_post p (infop : prod_info) (bytes : list Z) m (st : Z) p' : Prop :=
  ∃ stv p1, vet_post p infop m stv p1 ∧
    if stv =? 0 then save_post p1 (relayed infop (_upName (ps_down p))) bytes m st p' else st = stv ∧ p' = p1.

(** After vetting a product that is selected. *)
Lemma vet_selected p infop m p1 :
  vet_post p infop m 0 p1 →
  ready p1 ∧ ps_xd p1 = ps_xd p ∧ ps_saved p1 = ps_saved p ∧ ps_shift p1 = ps_shift p ∧
  (∃ w, ps_pq p1 = set_sys (ps_pq p) w ∧ same_mem (pq_sys (ps_pq p)) w) ∧
  (∃ b, _info (ps_down p1) = Some b ∧ ib_ok b ∧ ib_info b = relayed infop (_upName (ps_down p))) ∧
  _expectBlkdata (ps_down p1) = _expectBlkdata (ps_down p) ∧ _upName (ps_down p1) = _upName (ps_down p) ∧
  ∃ c now w, _class (ps_down p) = Some c ∧ gettimeofday (pq_sys (ps_pq p)) = (inr now, w) ∧ selects (vetted p c now) infop.
Proof.
  intros (c & b & now & w & Hc & Hb & Hclk & Hr & Hm & Hd). destruct (decide _) as [Hsel|Hsel].
  - destruct Hd as [_ ->]. split; [exact Hr|]. do 3 (split; [done|]). split; [by exists w|].
    split; [|by split; [|split; [|exists c, now, w]]].
    destruct (rd_info _ Hr) as (b' & [= <-] & Hok). by eexists.
  - destruct Hd as (s & _ & _ & [(? & _)|(? & _)]); done.
Qed.

Lemma down6_hereis_spec p infop data bytes m :
  ready p → roomy (ps_pq p) → info_ok (ps_pq p) infop → Z.of_nat (length bytes) = pi_sz infop →
  c_load (ps_xd p) data (pi_sz infop) = Ok bytes →
  (down6_hereis interval max_latency p infop data m = Err AssertFail ∧ refused W) ∨
  ∃ st p', down6_hereis interval max_latency p infop data m = Ok (st, p') ∧ hereis_post p infop bytes m st p'.
Proof.
  intros Hr Hroom Hi Hl Hload. unfold down6_hereis. rewrite (rd_init _ Hr). simpl negb. cbv iota.
  destruct (vetProduct_spec p infop m Hr (io_arrival _ _ Hi)) as (stv & p1 & -> & Hvet). rewrite bind_Ok.
  destruct (Z.eqb_spec stv 0) as [->|Hne]; [|right; exists stv, p1; split; [done|]; exists stv, p1;
    by rewrite (proj2 (Z.eqb_neq _ _) Hne)].
  destruct (vet_selected _ _ _ _ Hvet) as (Hr1 & Hxd & Hsv & Hsf & (w & Hpq & Hm) & (b & Hb & Hbok & Hbi) & _).
  rewrite Hb. destruct (pk_queue _ (rd_proc _ Hr)) as (G & Hid & _).
  pose proof (pv_config _ _ (id_inv _ _ Hid : pq_core _ G)) as Hcfg.
  destruct (dh_saveProd_spec p1 (ib_info b) data bytes true true m) as [?|(st & p' & -> & Hpost)].
  - exact (rd_proc _ Hr1).
  - rewrite Hpq. exact Hroom.
  - rewrite Hbi. by eapply relayed_product.
  - rewrite Hpq. unfold size_ok. rewrite Hbi. exact (relayed_fits _ _ _ Hcfg Hi).
  - apply Hbok.
  - rewrite Hxd, Hbi. exact Hload.
  - by left.
  - right. exists st, p'. split; [done|]. exists 0, p1. rewrite <- Hbi. by split.
Qed.

(** *** COMINGSOON *)

(** The process waits for the data of the product [info]: what it has is in the block [b]. *)
Record expecting p (info : prod_info) (b : Z) (pre : list Z) : Prop := {
  xp_ready : ready p;
  xp_expect : _expectBlkdata (ps_down p) = true;
  xp_info : ib_info <$> _info (ps_down p) = Some info;
  xp_datap : _datap (ps_down p) = Some (b, 0);
  xp_holds : holds (ps_xd p) b pre;
  xp_remaining : Z.of_nat (length pre) + _remaining (ps_down p) = pi_sz info ∧ 0 < _remaining (ps_down p);
  xp_max : pi_sz info ≤ xd_max (ps_xd p);
  xp_wf : info_wf info ∧ info_short info;
}.

(** The code for the status of [pqe_new()]. *)
Definition cs_code (e : Z) : Z :=
  if (e =? 0) then 0 else if e =? EINVAL then DOWN6_UNWANTED else if e =? PQ_BIG then DOWN6_PQ_BIG
  else if e =? PQ_DUP then DOWN6_UNWANTED else DOWN6_PQ.

(** The queue after a region was reserved with the status [e] and, if it was, given back
    at once.  A product without data is invalid, one that is larger than the data segment
    too big; otherwise a region was had, for a signature that is not in the queue, or not:
    the signature is in the queue, nothing is left to delete or the system refuses a
    request. *)
Definition probe_outcome q G (info : prod_info) (e : Z) q' G' : Prop :=
  if pi_sz info =? 0 then e = EINVAL ∧ pq_abs q' G' = pq_abs q G
  else if pq_getDataSize q <? pi_sz info then e = PQ_BIG ∧ pq_abs q' G' = pq_abs q G
  else if fIsSet (pq_pflags q) PQ_READONLY then e = EACCES ∧ pq_abs q' G' = pq_abs q G
  else if e =? 0 then
    s_sigs (pq_abs q G) !! pi_signature info = None ∧
    (¬ refused W → evicted (xlen_prod_i info) (pq_abs q G) (pq_abs q' G') ∧ pq_cfg q' = pq_cfg q)
  else
    (refused W ∧ pq_abs q' G' = pq_abs q G) ∨
    reserve_fail (pi_signature info) (xlen_prod_i info) (pq_abs q G) e (pq_abs q' G').

(** [e] is the status of [pqe_new()]. *)
Definition probed q (info : prod_info) (e : Z) q' : Prop :=
  ∃ G G' out q1, pq_idle q G ∧ pqe_new q info = Ok (e, out, q1) ∧ pq_idle q' G' ∧ elems_ok q' G' ∧
    probe_outcome q G info e q' G'.

(** What a COMINGSOON message leaves after vetting: [p1] is the state before. *)
Definition probe_post p1 (info : prod_info) m (st : Z) p' : Prop :=
  ∃ e, probed (ps_pq p1) info e (ps_pq p') ∧ proc_ok p' ∧
    if e =? 0 then
      st = 0 ∧ ready p' ∧ _expectBlkdata (ps_down p') = true ∧ ps_saved p' = ps_saved p1 ∧
      ((∃ b, expecting p' info b []) ∨ (m_buf m = false ∧ _datap (ps_down p') = None))
    else
      ps_down p' = ps_down p1 ∧ ps_xd p' = ps_xd p1 ∧
      ((st = cs_code e ∧ (st ≠ DOWN6_PQ → savedInfo_get (ps_saved p') = Some info)) ∨
       (st = DOWN6_SYSTEM_ERROR ∧ no_memory m)).

Lemma comingsoon_failed_spec p info e m :
  proc_ok p → info_short info → e ≠ 0 →
  ∃ st p', comingsoon_failed interval p info e m = Ok (st, p') ∧ proc_ok p' ∧
    ps_down p' = ps_down p ∧ ps_xd p' = ps_xd p ∧ (∃ w, ps_pq p' = set_sys (ps_pq p) w ∧ same_mem (pq_sys (ps_pq p)) w) ∧
    ((st = cs_code e ∧ (st ≠ DOWN6_PQ → savedInfo_get (ps_saved p') = Some info)) ∨
     (st = DOWN6_SYSTEM_ERROR ∧ no_memory m)).
Proof.
  intros Hok Hsh He. unfold comingsoon_failed. cbv zeta.
  destruct (dh_save_spec p info m Hok Hsh) as (ok & s & -> & Hok2 & Hs). rewrite !bind_Ok.
  set (p2 := set_saved p s) in *.
  assert (∃ w, ps_pq p2 = set_sys (ps_pq p) w ∧ same_mem (pq_sys (ps_pq p)) w) as Hw.
  { exists (pq_sys (ps_pq p)). rewrite set_sys_id. split; [done|apply same_mem_refl]. }
  unfold cs_code. rewrite (proj2 (Z.eqb_neq _ _) He).
  destruct (e =? EINVAL); [|destruct (e =? PQ_BIG); [|destruct (e =? PQ_DUP)]].
  - eexists _, p2. split; [done|]. do 3 (split; [done|]). split; [exact Hw|].
    destruct ok; [left; split; [done|by intros]|right; split; [done|by left]].
  - eexists _, p2. split; [done|]. do 3 (split; [done|]). split; [exact Hw|].
    destruct ok; [left; split; [done|by intros]|right; split; [done|by left]].
  - destruct ok; simpl negb; cbv iota; cycle 1.
    { eexists _, p2. split; [done|]. do 3 (split; [done|]). split; [exact Hw|]. right. split; [done|by left]. }
    destruct (dh_shift_spec p2 false COMINGSOON_SIZE m Hok2) as (ok' & a & w & -> & Hm & Hok3 & Hsh'). rewrite bind_Ok.
    eexists _, _. split; [done|]. split; [exact Hok3|]. do 2 (split; [done|]). split; [exists w; by split|].
    destruct ok'; [left; split; [done|by intros]|right; split; [done|by right]].
  - eexists _, p. split; [done|]. do 3 (split; [done|]). split; [exact Hw|]. left. split; [done|]. by intros.
Qed.

(** Reserving a region and giving it back. *)
Lemma pqe_probe q G info :
  pq_idle q G → elems_ok q G → roomy q → info_wf info →
  2 * (xlen_prod_i info + ctl_align (pq_ctl q)) + PQ_FRAGMENT_HEURISTIC < 2 ^ 32 →
  (pqe_new q info = Err AssertFail ∧ refused W) ∨
  ∃ e out q1, pqe_new q info = Ok (e, out, q1) ∧
    if e =? 0 then 0 < pi_sz info ∧ ∃ a idx st q', out = Some (a, idx) ∧ pqe_discard q1 idx = Ok (st, q') ∧ probed q info 0 q'
    else out = None ∧ probed q info e q1.
Proof.
  intros Hid Hel [Hsp _] Hwf Hsz.
  destruct (pqe_new_spec q G info Hid Hel (spare_ok_for _ _ Hsp) Hwf Hsz) as [?|(e & out & q1 & Hrun & Hpost)]; [by left|right].
  exists e, out, q1. split; [exact Hrun|]. destruct (info_wf_parts info Hwf) as (_ & Hz & _).
  assert (∀ q' G', pq_idle q' G' → elems_ok q' G' → probe_outcome q G info e q' G' → probed q info e q') as Hpr.
  { intros q' G' H1 H2 H3. by exists G, G', out, q1. }
  unfold probe_outcome in Hpr.
  destruct (Z.eqb_spec (pi_sz info) 0) as [Hz0|Hz0]; [destruct Hpost as (-> & -> & ->); split; [done|by apply (Hpr q G)]|].
  destruct (_ <? _); [destruct Hpost as (-> & -> & ->); split; [done|by apply (Hpr q G)]|].
  destruct (fIsSet _ _); [destruct Hpost as (-> & -> & ->); split; [done|by apply (Hpr q G)]|].
  destruct Hpost as (out' & -> & [(-> & s1 & G1 & o & x & -> & Hv & _ & Hfr & Hev & Hnew & Habs & Hcfg & Hsp1)|(He & -> & G1 & Hid1 & Hel1 & Hcfg1 & Hout)]).
  - destruct (pqe_discard_spec q1 G1 (pi_signature info) o x true Hv Hsp1) as (st & q' & Hd & G2 & Hid2 & Hel2 & Hc).
    split; [lia|]. eexists _, _, st, q'. split; [reflexivity|]. split; [exact Hd|]. apply (Hpr q' G2 Hid2 Hel2).
    split; [exact Hfr|]. intros Hrf. destruct Hc as [(_ & Hcfg2 & Ha)|(_ & ? & _)]; [|done].
    split; cycle 1.
    { unfold pq_cfg in Hcfg, Hcfg2 |- *. simpl in Hcfg, Hcfg2. assert (pq_pqe_count q1 = pq_pqe_count q + 1) as Hn by congruence.
      assert (pq_pqe_count q1 - 1 = pq_pqe_count q) by lia. congruence. }
    rewrite Ha, Habs, store_remove_add; [exact Hev|exact Hnew|].
    destruct Hev as (_ & _ & Hs & _). apply eq_None_not_Some. intros [y Hy]. apply (lookup_weaken _ _ _ _ Hy) in Hs. by rewrite Hfr in Hs.
  - rewrite (proj2 (Z.eqb_neq _ _) He) in *. split; [done|]. by apply (Hpr q1 G1).
Qed.

(** After vetting a product that is not selected, or without memory. *)
Lemma vet_refused p infop m st p1 :
  vet_post p infop m st p1 → st ≠ 0 →
  ready p1 ∧ ps_xd p1 = ps_xd p ∧ ps_shift p1 = ps_shift p ∧
  (∃ w, ps_pq p1 = set_sys (ps_pq p) w ∧ same_mem (pq_sys (ps_pq p)) w) ∧
  ib_info <$> _info (ps_down p1) = Some (relayed infop (_upName (ps_down p))) ∧
  _expectBlkdata (ps_down p1) = _expectBlkdata (ps_down p) ∧ _datap (ps_down p1) = _datap (ps_down p) ∧
  _remaining (ps_down p1) = _remaining (ps_down p) ∧ (st = DOWN6_UNWANTED ∨ st = DOWN6_SYSTEM_ERROR ∧ m_saved m = None).
Proof.
  intros (c & b & now & w & Hc & Hb & Hclk & Hr & Hm & Hd) Hst. destruct (decide _) as [Hsel|Hsel]; [by destruct Hd|].
  destruct Hd as (s & -> & Hs & Hcase). destruct Hr as [[Hq _ Ha Hx] Hi Hcl Hin].
  split; [split; [by split|done..]|]. do 2 (split; [done|]). split; [by exists w|].
  do 4 (split; [done|]). destruct Hcase as [(-> & _)|(-> & ? & _)]; [by left|by right].
Qed.

Definition comingsoon_post p (infop : prod_info) m (st : Z) p' : Prop :=
  let p0 := if _expectBlkdata (ps_down p) then set_down p (set_expect (ps_down p) false) else p in
  ∃ stv p1, vet_post p0 infop m stv p1 ∧
    if stv =? 0 then probe_post p1 (relayed infop (_upName (ps_down p))) m st p' else st = stv ∧ p' = p1.

Lemma ready_expect p e : ready p → ready (set_down p (set_expect (ps_down p) e)).
Proof. intros [[H1 H2 H3 H4] H5 H6 H7]. by do 2 (split; try done). Qed.

Lemma ready_set_data p d r q x :
  ready p → proc_ok (set_xd (set_pq p q) x) →
  ready (set_down (set_xd (set_pq p q) x) (set_data (set_expect (ps_down p) true) d r)).
Proof. intros [_ H5 H6 H7] [H1 H2 H3 H4]. by do 2 (split; try done). Qed.

(** The buffer for the data of a product that is announced. *)
Lemma comingsoon_buffer p1 info G' m q' :
  ready p1 → pq_idle q' G' → elems_ok q' G' → ib_info <$> _info (ps_down p1) = Some info → info_wf info → info_short info →
  0 < pi_sz info →
  ∃ buf x, xd_getBuffer (ps_xd p1) (pi_sz info) (m_buf m) = Ok (buf, x) ∧
    let p' := set_down (set_xd (set_pq p1 q') x) (set_data (set_expect (ps_down p1) true) buf (pi_sz info)) in
    proc_ok p' ∧ ready p' ∧ ((∃ b, expecting p' info b []) ∨ (m_buf m = false ∧ _datap (ps_down p') = None)).
Proof.
  intros Hr Hid Hel Hinfo Hi Hsh Hpos. pose proof (rd_proc _ Hr) as [_ Hs Ha Hx].
  pose proof (info_wf_parts info Hi) as (_ & Hlt & _).
  destruct (xd_getBuffer_spec (ps_xd p1) (pi_sz info) (m_buf m) Hx) as (x & Hxok & Hbuf); [lia|].
  assert (proc_ok (set_xd (set_pq p1 q') x)) as Hok by (split; [by exists G'|done..]).
  destruct Hbuf as [(b & Hrun & Hh & Hm & _)|(Hmem & Hrun & _)]; rewrite Hrun.
  - eexists _, x. split; [done|]. pose proof (ready_set_data p1 (Some (b, 0)) (pi_sz info) q' x Hr Hok) as Hr'.
    split; [exact (rd_proc _ Hr')|]. split; [exact Hr'|]. left. exists b. by split.
  - eexists _, x. split; [done|]. pose proof (ready_set_data p1 None (pi_sz info) q' x Hr Hok) as Hr'.
    split; [exact (rd_proc _ Hr')|]. split; [exact Hr'|]. right. done.
Qed.

Lemma down6_comingsoon_spec p infop m :
  ready p → roomy (ps_pq p) → info_ok (ps_pq p) infop →
  (down6_comingsoon interval max_latency p infop m = Err AssertFail ∧ refused W) ∨
  ∃ st p', down6_comingsoon interval max_latency p infop m = Ok (st, p') ∧ comingsoon_post p infop m st p'.
Proof.
  intros Hr Hroom Hi. unfold down6_comingsoon, comingsoon_post. rewrite (rd_init _ Hr). cbn [negb].
  set (p0 := if _expectBlkdata (ps_down p) then _ else p).
  assert (ready p0 ∧ ps_pq p0 = ps_pq p ∧ _upName (ps_down p0) = _upName (ps_down p)) as (Hr0 & Hq0 & Hu0).
  { unfold p0. destruct (_expectBlkdata (ps_down p)); [|done]. split; [by apply ready_expect|done]. }
  destruct (vetProduct_spec p0 infop m Hr0 (io_arrival _ _ Hi)) as (stv & p1 & -> & Hvet). rewrite bind_Ok.
  destruct (Z.eqb_spec stv 0) as [->|Hne]; cbn [negb]; cycle 1.
  { right. exists stv, p1. split; [done|]. exists stv, p1. by rewrite (proj2 (Z.eqb_neq _ _) Hne). }
  destruct (vet_selected _ _ _ _ Hvet) as (Hr1 & _ & _ & _ & (w & Hpq & Hm) & (b & Hb & Hbok & Hbi) & _).
  rewrite Hb. rewrite Hu0 in Hbi. rewrite Hq0 in Hpq.
  destruct (pk_queue _ (rd_proc _ Hr1)) as (G & Hid & Hel).
  pose proof (pv_config _ _ (id_inv _ _ Hid : pq_core _ G)) as Hcfg.
  assert (info_ok (ps_pq p1) infop) as Hi1 by (rewrite Hpq; destruct Hi; by split).
  set (info := relayed infop (_upName (ps_down p))) in *.
  assert (info_wf info) as Hwf by by eapply relayed_wf.
  destruct (pqe_probe (ps_pq p1) G info Hid Hel) as [[Hrun ?]|(e & out & q1 & Hrun & Hpost)].
  - rewrite Hpq. exact Hroom.
  - exact Hwf.
  - by eapply relayed_fits.
  - left. by rewrite Hbi, Hrun.
  - right. rewrite Hbi, Hrun, bind_Ok. destruct (Z.eqb_spec e 0) as [->|He].
    + destruct Hpost as (Hpos & a & idx & st & q' & -> & Hd & Hpr). cbn [ps_pq set_pq]. rewrite Hd, bind_Ok.
      pose proof Hpr as (G1 & G' & _ & _ & _ & _ & Hid' & Hel' & Hs). cbn [ps_xd set_pq].
      destruct (comingsoon_buffer p1 info G' m q' Hr1 Hid' Hel') as (buf & x & Hrun2 & Hok' & Hr' & Hbuf).
      * rewrite Hb. simpl. by rewrite Hbi.
      * exact Hwf.
      * apply relayed_short.
      * exact Hpos.
      * rewrite Hrun2, bind_Ok. eexists 0, _. split; [reflexivity|]. exists 0, p1. split; [exact Hvet|].
        exists 0. split; [exact Hpr|]. split; [exact Hok'|]. split; [done|]. split; [exact Hr'|]. by split.
    + destruct Hpost as (-> & Hpr). pose proof Hpr as (G1 & G' & _ & _ & _ & _ & Hid' & Hel' & _).
      destruct (comingsoon_failed_spec (set_pq p1 q1) info e m) as (st & p' & Hrun2 & Hok' & Hd & Hx & (w' & Hw & Hm') & Hst).
      * by eapply set_pq_ok; [exact (rd_proc _ Hr1)|..].
      * apply relayed_short.
      * exact He.
      * rewrite Hrun2. exists st, p'. split; [done|]. exists 0, p1. split; [exact Hvet|]. exists e.
        rewrite (proj2 (Z.eqb_neq _ _) He). split; [|split; [exact Hok'|by split]].
        rewrite Hw. destruct Hpr as (G2 & G3 & out & q3 & H1 & H2 & H3 & H4 & H5). exists G2, G3, out, q3.
        split; [exact H1|]. split; [exact H2|]. split; [by apply idle_world|]. split; [exact H4|exact H5].
Qed.
End ok.
