(* ===== verification/Down6Run.v ===== *)
(** * Sequences of messages to the downstream LDM

    The data of a product in pieces, the state of a process between messages, and
    the processes that can be reached from HIYA on. *)

From stdpp Require Import strings.
From S2P Require Import Prelude Timestamp NumTheory Fb SkipList TimeQueue RegionList RegionHash.
From S2P Require Import RegionAlloc RegionThms SigIndex Riul Sizes PqShare PqCore Xlen AutoShift XdrData ProdClass ProdInfo.
From S2P Require Import PqOps PqCtl PqRead PqEntry Down6 PqInv PqAccess PqDelete PqRoom PqNew PqReserve PqSession PqInsert PqReserved Down6Ok.

Section run.
Context {W : Type} {Sys : System W} {Laws : SystemLaws W} {Wr : Writer W} {WL : WriterLaws W} {Re : Regex}.
Context (interval max_latency : Z).
Implicit Types (p : process (W:=W)) (q : pqueue W) (G : ghost) (m : memory).
Abbreviation serve := (serve interval max_latency).
Abbreviation serve_all := (serve_all interval max_latency).

(** ** BLKDATA *)

(** A packet of data of a product. *)
Definition blk (sig : signaturet) (kd : Z * list Z) : message :=
  BLKDATA sig kd.1 (Z.of_nat (length kd.2)) kd.2.

(** The queue has no other limit for the product than its size. *)
Definition fits q (info : prod_info) : Prop :=
  2 * (xlen_prod_i info + ctl_align (pq_ctl q)) + PQ_FRAGMENT_HEURISTIC < 2 ^ 32.

Lemma ready_set_xd p x : ready p → xd_ok x → ready (set_xd p x).
Proof. intros [[H1 H2 H3 _] H5 H6 H7] Hx. by do 2 (split; try done). Qed.

(** A packet that is not the last one. *)
Lemma blkdata_more p info b pre m k d :
  expecting p info b pre → Z.of_nat (length d) < _remaining (ps_down p) →
  ∃ p', serve p m (blk (pi_signature info) (k, d)) = Ok (Served None p') ∧ expecting p' info b (pre ++ d) ∧
    ps_pq p' = ps_pq p ∧ ps_saved p' = ps_saved p ∧ ps_shift p' = ps_shift p.
Proof.
  intros [Hr He Hinfo Hdp Hh [Hrem Hpos] Hmax Hwf] Hlt. unfold blk. cbn [Down6.serve fst snd].
  assert (xd_used (ps_xd p) + Z.of_nat (length d) ≤ xd_max (ps_xd p)) as Hroom by (rewrite (ho_used _ _ _ Hh); lia).
  destruct (xdr_dbuf_decode_spec _ _ _ d (m_seg m) Hh Hroom) as (dp & x & -> & Hh' & Hm). rewrite bind_Ok.
  unfold blkdata_6_svc, down6_blkdata. cbn [ps_down set_xd]. rewrite (rd_init _ Hr), He. cbn [negb].
  destruct (_info (ps_down p)) as [i|] eqn:Hi; [|done]. injection Hinfo as Hinfo. rewrite Hinfo, bool_decide_true by done.
  cbn [negb]. rewrite (proj2 (Z.ltb_ge _ _)), (proj2 (Z.eqb_neq 0 _)), bind_Ok by lia.
  eexists. split; [reflexivity|]. split; [|done].
  pose proof (ready_set_xd p x Hr (ho_ok _ _ _ Hh')) as [[H1 H2 H3 H4] H5 H6 H7].
  split; simpl; [by do 2 (split; try done)|done|by rewrite Hi; simpl; rewrite Hinfo|done|exact Hh'| |by rewrite Hm|done].
  rewrite length_app. lia.
Qed.

(** The last packet: the product that is saved has all the data. *)
Lemma blkdata_last p info b pre m k d :
  expecting p info b pre → Z.of_nat (length d) = _remaining (ps_down p) → roomy (ps_pq p) → fits (ps_pq p) info →
  (serve p m (blk (pi_signature info) (k, d)) = Err AssertFail ∧ refused W) ∨
  ∃ st p1 p2 p', serve p m (blk (pi_signature info) (k, d)) = Ok (if tolerated st then Served None p' else Exited st p') ∧
    ps_pq p1 = ps_pq p ∧ save_post p1 info (pre ++ d) m st p2 ∧
    p' = set_xd (set_down p2 (set_expect (ps_down p2) false)) (xd_reset (ps_xd p2)) ∧ ready p'.
Proof.
  intros [Hr He Hinfo Hdp Hh [Hrem Hpos] Hmax [Hwf Hsh]] Hlen Hroom Hfits. unfold blk. cbn [Down6.serve fst snd].
  assert (xd_used (ps_xd p) + Z.of_nat (length d) ≤ xd_max (ps_xd p)) as Hfit by (rewrite (ho_used _ _ _ Hh); lia).
  destruct (xdr_dbuf_decode_spec _ _ _ d (m_seg m) Hh Hfit) as (dp & x & -> & Hh' & Hm). rewrite bind_Ok.
  unfold blkdata_6_svc, down6_blkdata. cbn [ps_down set_xd]. rewrite (rd_init _ Hr), He. cbn [negb].
  destruct (_info (ps_down p)) as [i|] eqn:Hi; [|done]. injection Hinfo as Hinfo. rewrite Hinfo, bool_decide_true by done.
  cbn [negb]. rewrite Hlen, Z.ltb_irrefl, Z.sub_diag. cbn [Z.eqb]. rewrite Hdp. cbv zeta.
  set (p1 := set_down (set_xd p x) _).
  assert (ready p1) as Hr1.
  { pose proof (ready_set_xd p x Hr (ho_ok _ _ _ Hh')) as [[H1 H2 H3 H4] H5 H6 H7]. by do 2 (split; try done). }
  pose proof (holds_load _ _ _ Hh') as Hload. replace (Z.of_nat (length (pre ++ d))) with (pi_sz info) in Hload by (rewrite length_app; lia).
  destruct (dh_saveProd_spec interval p1 info (Some (b, 0)) (pre ++ d) false true m) as [[Hrun ?]|(st & p2 & Hrun & Hpost)].
  - exact (rd_proc _ Hr1).
  - exact Hroom.
  - destruct Hwf as [H1 H2 H3 [_ H4]]. cbn [p_info p_data] in *. split; cbn [p_info p_data]; [done..|].
    rewrite length_app. lia.
  - exact Hfits.
  - exact Hsh.
  - exact Hload.
  - left. by rewrite Hrun.
  - right. rewrite Hrun, !bind_Ok. eexists st, p1, p2, _. split; [reflexivity|]. split; [done|]. split; [exact Hpost|].
    split; [done|]. destruct Hpost as (e & q' & _ & Hok & Hd & _). destruct Hok as [H1 H2 H3 H4]. destruct Hr1 as [_ H5 H6 H7].
    split; simpl; rewrite ?Hd; try done. split; try done. by apply xd_reset_ok.
Qed.

(** All packets of a product. *)
Lemma blkdata_all (l : list (memory * (Z * list Z))) p info b pre m k d :
  expecting p info b pre → roomy (ps_pq p) → fits (ps_pq p) info → d ≠ [] →
  Z.of_nat (length (concat (l.*2.*2) ++ d)) = _remaining (ps_down p) →
  let msgs := (λ x, (x.1, blk (pi_signature info) x.2)) <$> (l ++ [(m, (k, d))]) in
  (serve_all p msgs = Err AssertFail ∧ refused W) ∨
  ∃ st p1 p2 p', serve_all p msgs = Ok (if tolerated st then Served None p' else Exited st p') ∧
    ps_pq p1 = ps_pq p ∧ save_post p1 info (pre ++ concat (l.*2.*2) ++ d) m st p2 ∧
    p' = set_xd (set_down p2 (set_expect (ps_down p2) false)) (xd_reset (ps_xd p2)) ∧ ready p'.
Proof.
  revert p pre. induction l as [|[m1 [k1 d1]] l IH]; intros p pre Hx Hroom Hfits Hd Hlen msgs.
  - subst msgs. simpl in Hlen. cbn [fmap list_fmap app Down6.serve_all fst snd concat].
    destruct (blkdata_last p info b pre m k d Hx Hlen Hroom Hfits) as [[Hrun ?]|(st & p1 & p2 & p' & Hrun & H)];
      rewrite Hrun; [by left|right]. rewrite bind_Ok. exists st, p1, p2, p'. split; [by destruct (tolerated st)|exact H].
  - cbn [fmap list_fmap app concat snd] in *. rewrite !length_app in Hlen.
    assert (0 < length d)%nat by (destruct d; simpl; [done|lia]).
    destruct (blkdata_more p info b pre m1 k1 d1 Hx) as (p0 & Hrun & Hx' & Hq & _); [lia|].
    assert (_remaining (ps_down p0) = _remaining (ps_down p) - Z.of_nat (length d1)) as Hrem.
    { pose proof (xp_remaining _ _ _ _ Hx) as [H1 _]. pose proof (xp_remaining _ _ _ _ Hx') as [H2 _].
      rewrite length_app in H2. lia. }
    destruct (IH p0 (pre ++ d1) Hx') as [[H1 H2]|(st & p1 & p2 & p' & H1 & H2 & H3 & H4)];
      [by rewrite Hq|by rewrite Hq|done|rewrite Hrem, length_app; lia|left|right].
    + subst msgs. cbn [Down6.serve_all fst snd]. rewrite Hrun, bind_Ok. by split.
    + exists st, p1, p2, p'. subst msgs. cbn [Down6.serve_all fst snd]. rewrite Hrun, bind_Ok.
      split; [exact H1|]. split; [congruence|]. rewrite <- !app_assoc in H3 |- *. by split.
Qed.

(** ** COMINGSOON with its reply *)

Definition cs_served (st : Z) p' : served :=
  if st =? 0 then Served (Some OK) p'
  else if (DOWN6_UNWANTED =? st) || (DOWN6_PQ_BIG =? st) then Served (Some DONT_SEND) p' else Exited st p'.

Lemma serve_comingsoon p m infop pktsz :
  ready p → roomy (ps_pq p) → info_ok (ps_pq p) infop →
  (serve p m (COMINGSOON infop pktsz) = Err AssertFail ∧ refused W) ∨
  ∃ st p', serve p m (COMINGSOON infop pktsz) = Ok (cs_served st p') ∧ comingsoon_post max_latency p infop m st p'.
Proof.
  intros Hr Hroom Hi. cbn [Down6.serve]. unfold comingsoon_6_svc.
  destruct (down6_comingsoon_spec interval max_latency p infop m Hr Hroom Hi) as [[-> ?]|(st & p' & -> & Hpost)]; [by left|right].
  rewrite bind_Ok. by exists st, p'.
Qed.

Lemma cs_served_ok st p' p2 : cs_served st p' = Served (Some OK) p2 → st = 0 ∧ p' = p2.
Proof. unfold cs_served. destruct (Z.eqb_spec st 0); [by intros [= ->]|]. by destruct (_ || _). Qed.

(** An announced product that the process asks for. *)
Lemma comingsoon_ok p infop m pktsz p1 :
  ready p → roomy (ps_pq p) → info_ok (ps_pq p) infop → m_buf m = true →
  serve p m (COMINGSOON infop pktsz) = Ok (Served (Some OK) p1) →
  let info := relayed infop (_upName (ps_down p)) in
  (∃ b, expecting p1 info b []) ∧ ∃ G G', pq_idle (ps_pq p) G ∧ pq_idle (ps_pq p1) G' ∧
    s_sigs (pq_abs (ps_pq p) G) !! pi_signature info = None ∧
    (¬ refused W → evicted (xlen_prod_i info) (pq_abs (ps_pq p) G) (pq_abs (ps_pq p1) G')).
Proof.
  intros Hr Hroom Hi Hm Hrun info.
  destruct (serve_comingsoon p m infop pktsz Hr Hroom Hi) as [[Hr2 _]|(st & p' & Hr2 & Hpost)]; rewrite Hr2 in Hrun; [done|].
  injection Hrun as [-> ->]%cs_served_ok. destruct Hpost as (stv & q1 & Hvet & Hpost).
  destruct (Z.eqb_spec stv 0) as [->|Hne]; [|by destruct Hpost; subst]. fold info in Hpost.
  destruct Hpost as (e & Hpr & _ & Hpost). destruct (Z.eqb_spec e 0) as [->|He]; cycle 1.
  { exfalso. destruct Hpost as (_ & _ & [[Hc _]|[Hc _]]); [|done]. unfold cs_code in Hc.
    rewrite (proj2 (Z.eqb_neq _ _) He) in Hc. repeat case_match; done. }
  destruct Hpost as (_ & _ & _ & _ & [Hx|[? _]]); [|congruence]. split; [exact Hx|].
  destruct (vet_selected _ _ _ _ _ Hvet) as (_ & _ & _ & _ & (w & Hq & Hw) & _).
  destruct Hpr as (G & G' & out & q2 & Hid & _ & Hid' & _ & Hs). unfold probe_outcome in Hs.
  destruct (_ =? 0); [by destruct Hs|]. destruct (_ <? _); [by destruct Hs|]. destruct (fIsSet _ _); [by destruct Hs|].
  destruct Hs as [Hfr Hev].
  assert (ps_pq q1 = set_sys (ps_pq p) w ∧ same_mem (pq_sys (ps_pq p)) w) as [Hq2 Hw2].
  { destruct (_expectBlkdata (ps_down p)); by split. }
  exists G, G'. rewrite Hq2 in Hid, Hfr, Hev. split; [|split; [exact Hid'|split; [exact Hfr|]]].
  - apply (idle_world _ _ (pq_sys (ps_pq p))) in Hid; [|intros vp n; by rewrite Hw2].
    by destruct (ps_pq p).
  - intros Hrf. by destruct (Hev Hrf).
Qed.

(** ** The state between messages *)

(** A process that is served messages: while it expects data, its pointer is to the buffer. *)
Definition serving p : Prop :=
  ready p ∧ (_expectBlkdata (ps_down p) = true → ∃ info b pre, expecting p info b pre).

(** What an upstream LDM sends: no whole product while data is expected; and the
    buffer can be had. *)
Definition allowed p m (msg : message) : Prop :=
  match msg with
  | HEREIS info data => _expectBlkdata (ps_down p) = false ∧ info_ok (ps_pq p) info ∧ pi_sz info < 2 ^ 32 ∧
      Z.of_nat (length data) = pi_sz info ∧ 0 < pi_sz info
  | NOTIFICATION _ => True
  | COMINGSOON info _ => info_ok (ps_pq p) info ∧ m_buf m = true
  | BLKDATA _ _ n data => n = Z.of_nat (length data) ∧ xd_used (ps_xd p) + n < 2 ^ 63 ∧
      ∀ info, ib_info <$> _info (ps_down p) = Some info → fits (ps_pq p) info
  end.

Lemma serving_idle p : ready p → _expectBlkdata (ps_down p) = false → serving p.
Proof. intros Hr He. split; [done|]. by rewrite He. Qed.

Lemma save_ready p info bytes m st p' : ready p → save_post p info bytes m st p' → ready p'.
Proof. intros [_ H1 H2 H3] (e & q' & _ & Hok & Hd & _). split; rewrite ?Hd; done. Qed.

Lemma serve_hereis p m info data :
  serving p → roomy (ps_pq p) → allowed p m (HEREIS info data) →
  (serve p m (HEREIS info data) = Err AssertFail ∧ refused W) ∨
  ∃ r, serve p m (HEREIS info data) = Ok r ∧ (∀ re p', r = Served re p' → serving p').
Proof.
  intros [Hr _] Hroom (He & Hi & Hlt & Hl & Hpos). cbn [Down6.serve].
  destruct (xdr_product_decode_spec (ps_xd p) (pi_sz info) data (m_buf m) (pk_xd _ (rd_proc _ Hr))) as (ok & dp & x & -> & Hx & Hld & _);
    [pose proof (io_sz _ _ Hi); lia|done|]. rewrite bind_Ok.
  pose proof (ready_set_xd p x Hr Hx) as Hr0. destruct ok; cycle 1.
  { right. eexists. split; [done|]. intros re p' [= _ <-]. by apply serving_idle. }
  unfold hereis_6_svc.
  rewrite dp_isNil_pos, bind_Ok by done.
  destruct (down6_hereis_spec interval max_latency (set_xd p x) info dp data m Hr0 Hroom) as [[-> ?]|(st & p' & -> & Hpost)];
    [destruct Hi; by split|done|exact Hld|by left|right].
  rewrite bind_Ok. eexists. split; [done|]. intros re p2. destruct (tolerated st); [|done]. intros [= _ <-].
  destruct Hpost as (stv & p1 & Hvet & Hpost).
  destruct (Z.eqb_spec stv 0) as [->|Hne].
  - destruct (vet_selected _ _ _ _ _ Hvet) as (Hr1 & _ & _ & _ & _ & _ & He1 & _). apply serving_idle; [by eapply save_ready|].
    destruct Hpost as (e & q' & _ & _ & Hd & _). rewrite Hd, He1. exact He.
  - destruct Hpost as [_ ->]. destruct (vet_refused _ _ _ _ _ _ Hvet Hne) as (Hr1 & _ & _ & _ & _ & He1 & _).
    apply serving_idle; [done|]. rewrite He1. exact He.
Qed.

(** A packet that belongs to no product, or is too large, or of another product. *)
Lemma blkdata_other p m sig k n data :
  ready p → (_expectBlkdata (ps_down p) = true → sig ≠ default [] (pi_signature ∘ ib_info <$> _info (ps_down p)) ∨ _remaining (ps_down p) < n) →
  n = Z.of_nat (length data) → xd_used (ps_xd p) + n < 2 ^ 63 →
  ∃ r, serve p m (BLKDATA sig k n data) = Ok r ∧
    (∀ re p', r = Served re p' → ready p' ∧ (_expectBlkdata (ps_down p') = true → p' = p)).
Proof.
  intros Hr Hcase -> Hlt. cbn [Down6.serve].
  destruct (xdr_dbuf_decode_ok (ps_xd p) data (m_seg m) (pk_xd _ (rd_proc _ Hr)) Hlt) as (ok & dp & x & -> & Hx & Hok).
  rewrite bind_Ok. pose proof (ready_set_xd p x Hr Hx) as Hr0. destruct ok; cycle 1.
  { subst x. eexists. split; [done|]. intros re p' [= _ <-]. split; [done|]. intros _. by destruct p. }
  unfold blkdata_6_svc, down6_blkdata. cbn [ps_down set_xd]. rewrite (rd_init _ Hr). cbn [negb].
  destruct (_expectBlkdata (ps_down p)) eqn:He; cbn [negb]; cycle 1.
  { rewrite bind_Ok. eexists. split; [done|]. intros re p' [= _ <-]. split; [done|]. cbn [ps_down set_xd]. by rewrite He. }
  destruct (rd_info _ Hr) as (b & Hb & _). rewrite Hb in *. cbn [fmap option_fmap option_map default compose] in Hcase.
  destruct (decide (sig = pi_signature (ib_info b))) as [->|Hs].
  - rewrite bool_decide_true by done. cbn [negb]. destruct (Hcase eq_refl) as [?|Hbig]; [done|].
    rewrite (proj2 (Z.ltb_lt _ _)), bind_Ok by lia. eexists. split; [done|]. by intros re p'.
  - rewrite bool_decide_false by done. cbn [negb]. rewrite bind_Ok. eexists. split; [done|]. by intros re p'.
Qed.

Lemma serve_spec p m msg :
  serving p → roomy (ps_pq p) → allowed p m msg →
  (serve p m msg = Err AssertFail ∧ refused W) ∨
  ∃ r, serve p m msg = Ok r ∧ (∀ re p', r = Served re p' → serving p').
Proof.
  intros Hs Hroom Hal. pose proof Hs as [Hr Hexp]. destruct msg as [info data|info|info pktsz|sig k n data].
  - by apply serve_hereis.
  - right. eexists. split; [done|]. by intros re p' [= _ <-].
  - destruct Hal as [Hi Hm]. destruct (serve_comingsoon p m info pktsz Hr Hroom Hi) as [?|(st & p' & Hrun & Hpost)]; [by left|right].
    eexists. split; [exact Hrun|]. intros re p2 Hre. assert (p' = p2 ∧ (st = 0 ∨ st ≠ 0)) as [<- _].
    { unfold cs_served in Hre. split; [|lia]. destruct (st =? 0); [congruence|]. destruct (_ || _); congruence. }
    destruct Hpost as (stv & p1 & Hvet & Hpost).
    set (p0 := if _expectBlkdata (ps_down p) then _ else p) in *.
    assert (_expectBlkdata (ps_down p0) = false) as He0 by (unfold p0; by destruct (_expectBlkdata (ps_down p)) eqn:He).
    destruct (Z.eqb_spec stv 0) as [->|Hne].
    + destruct (vet_selected _ _ _ _ _ Hvet) as (Hr1 & _ & _ & _ & _ & _ & He1 & _).
      destruct Hpost as (e & _ & Hok & Hpost). destruct (e =? 0).
      * destruct Hpost as (_ & Hr' & _ & _ & [[b Hx]|[? _]]); [|congruence]. split; [done|]. intros _. eauto.
      * destruct Hpost as (Hd & _). apply serving_idle; [|rewrite Hd, He1; exact He0].
        destruct Hr1 as [_ H1 H2 H3]. split; rewrite ?Hd; done.
    + destruct Hpost as [_ ->]. destruct (vet_refused _ _ _ _ _ _ Hvet Hne) as (Hr1 & _ & _ & _ & _ & He1 & _).
      apply serving_idle; [done|]. rewrite He1. exact He0.
  - destruct Hal as (Hn & Hlt & Hfit).
    destruct (_expectBlkdata (ps_down p)) eqn:He; cycle 1.
    { right. destruct (blkdata_other p m sig k n data Hr) as (r & Hrun & Hp); [by rewrite He|done|done|].
      exists r. split; [done|]. intros re p' Hre. destruct (Hp re p' Hre) as [Hr' He']. split; [done|].
      intros H. pose proof (He' H) as ->. congruence. }
    destruct (Hexp eq_refl) as (info & b & pre & Hx). pose proof (xp_info _ _ _ _ Hx) as Hinfo.
    destruct (decide (sig = pi_signature info ∧ n ≤ _remaining (ps_down p))) as [[-> Hle]|Hno]; cycle 1.
    { right. destruct (blkdata_other p m sig k n data Hr) as (r & Hrun & Hp); [|done|done|].
      - intros _. destruct (_info (ps_down p)) as [ib|]; [|done]. injection Hinfo as Hib. simpl. rewrite Hib.
        destruct (decide (sig = pi_signature info)) as [->|]; [right|by left].
        destruct (decide (n ≤ _remaining (ps_down p))); [naive_solver|lia].
      - exists r. split; [done|]. intros re p' Hre. destruct (Hp re p' Hre) as [Hr' He']. split; [done|].
        intros H. pose proof (He' H) as ->. by exists info, b, pre. }
    subst n. destruct (decide (Z.of_nat (length data) = _remaining (ps_down p))) as [Hl|Hl].
    + destruct (blkdata_last p info b pre m k data Hx Hl Hroom (Hfit info Hinfo)) as [?|(st & p1 & p2 & p' & Hrun & _ & _ & Hp' & Hr')]; [by left|right].
      eexists. split; [exact Hrun|]. intros re p3 Hre. assert (p' = p3) as <- by (destruct (tolerated st); congruence).
      apply serving_idle; [done|]. by rewrite Hp'.
    + right. destruct (blkdata_more p info b pre m k data Hx) as (p' & Hrun & Hx' & _); [lia|].
      eexists. split; [exact Hrun|]. intros re p3 [= _ <-]. split; [exact (xp_ready _ _ _ _ Hx')|]. intros _. eauto.
Qed.

(** The states of a process that is served messages, from HIYA on. *)
Inductive downstream p : process → Prop :=
  | ds_start : downstream p p
  | ds_serve p1 m msg re p2 :
      downstream p p1 → roomy (ps_pq p1) → allowed p1 m msg → serve p1 m msg = Ok (Served re p2) → downstream p p2.

Lemma downstream_serving p p' : serving p → downstream p p' → serving p'.
Proof.
  intros Hp Hd. induction Hd as [|p1 m msg re p2 _ IH Hroom Hal Hrun]; [done|].
  destruct (serve_spec p1 m msg IH Hroom Hal) as [[Hr _]|(r & Hr & Hs)]; rewrite Hr in Hrun; [done|].
  injection Hrun as ->. by eapply Hs.
Qed.

(** ** HIYA *)

Lemma hiya_serving p upName upAddr mem offered mems :
  proc_ok p → (_info (ps_down p) = None → is_Some mem) → (∀ b, _info (ps_down p) = Some b → ib_ok b) →
  class_wf offered → Forall spec_good (specs offered) → (∀ i, mems i = true) →
  ∃ p1 p2, down6_init p upName upAddr mem = (0, p1) ∧ down6_set_prod_class p1 offered true mems = Ok (0, p2) ∧
    serving p2 ∧ ps_pq p2 = ps_pq p ∧ _upName (ps_down p2) = str_take MAXHOSTNAMELEN upName ∧
    _expectBlkdata (ps_down p2) = false.
Proof.
  intros [H1 H2 H3 H4] Hmem Hinfo Hwf Hg Hms. unfold down6_init.
  assert (∃ b, (match _info (ps_down p) with None => pi_new mem | Some i => Some i end) = Some b ∧ ib_ok b) as (b & -> & Hb).
  { destruct (_info (ps_down p)) as [b|]; [exists b; by split; [|apply Hinfo]|].
    destruct (Hmem eq_refl) as [b ->]. eexists. split; [done|]. by apply (pi_new_valid (Some b)). }
  destruct (dup_prod_class_spec offered mems Hwf Hms Hg) as (c & Hdup & Hcw & _).
  eexists _, _. split; [reflexivity|]. unfold down6_set_prod_class. cbn [ps_down set_down _initialized negb _class clsspsa_eq].
  rewrite bind_Ok, Hdup, bind_Ok. split; [reflexivity|]. split; [|done]. apply serving_idle; [|done].
  split; [by split|done|by exists c|by exists b].
Qed.

(** ** A whole product between the packets of another

    The metadata that the process has for the data that it expects is replaced, also when
    the product is not wanted. *)
Lemma hereis_intrudes p info b pre m info' data :
  expecting p info b pre → info_ok (ps_pq p) info' → 0 < pi_sz info' < 2 ^ 32 →
  Z.of_nat (length data) = pi_sz info' → m_buf m = true →
  (∀ c now w, _class (ps_down p) = Some c → gettimeofday (pq_sys (ps_pq p)) = (inr now, w) →
     ¬ selects (vetted max_latency p c now) info') →
  m_saved m ≠ None →
  ∃ p', serve p m (HEREIS info' data) = Ok (Served None p') ∧ _expectBlkdata (ps_down p') = true ∧
    ib_info <$> _info (ps_down p') = Some (relayed info' (_upName (ps_down p))) ∧
    _remaining (ps_down p') = _remaining (ps_down p) ∧ _datap (ps_down p') = Some (b, 0) ∧
    (xd_max (ps_xd p) < pi_sz info' → xd_blocks (ps_xd p') !! b = None).
Proof.
  intros Hx Hi Hsz Hl Hm Hns Hsv. pose proof (xp_ready _ _ _ _ Hx) as Hr. cbn [Down6.serve].
  destruct (xdr_product_decode_spec (ps_xd p) (pi_sz info') data (m_buf m) (pk_xd _ (rd_proc _ Hr)))
    as (ok & dp & x & -> & Hxd & Hld & Hgone); [lia|done|]. rewrite bind_Ok. rewrite Hm in *. destruct ok; [|by destruct Hld].
  pose proof (ready_set_xd p x Hr Hxd) as Hr0. unfold hereis_6_svc. rewrite dp_isNil_pos, bind_Ok by lia.
  unfold down6_hereis. cbn [ps_down set_xd]. rewrite (rd_init _ Hr). cbn [negb].
  destruct (vetProduct_spec max_latency (set_xd p x) info' m Hr0 (io_arrival _ _ Hi)) as (st & p1 & -> & Hvet). rewrite bind_Ok.
  assert (st = DOWN6_UNWANTED) as ->.
  { destruct Hvet as (c & b0 & now & w & Hc & _ & Hclk & _ & _ & Hd). rewrite decide_False in Hd by exact (Hns c now w Hc Hclk).
    destruct Hd as (s & _ & _ & [(-> & _)|(_ & Hm0 & _)]); done. }
  destruct (vet_refused _ _ _ _ _ _ Hvet) as (_ & Hx1 & _ & _ & Hi1 & He1 & Hd1 & Hr1 & _); [done|].
  exists p1. split; [done|]. rewrite He1, Hi1, Hd1, Hr1, Hx1. cbn [ps_down ps_xd set_xd].
  split; [exact (xp_expect _ _ _ _ Hx)|]. do 2 (split; [done|]). split; [exact (xp_datap _ _ _ _ Hx)|].
  intros Hlt. apply Hgone; [done|exact (ho_buf _ _ _ (xp_holds _ _ _ _ Hx))|exact Hlt].
Qed.
End run.
