(* ===== verification/PqMake.v ===== *)
(** * A new queue

    On a system that grants every request, [pq_create()] returns a queue object
    outside of a critical section that is well formed and empty. *)

From S2P Require Import Prelude Timestamp NumTheory Fb SkipList TimeQueue RegionList RegionHash.
From S2P Require Import RegionAlloc RegionThms SigIndex Riul Sizes PqShare PqCore PqOps PqCtl PqCreate.
From S2P Require Import PqInv PqAccess PqDelete PqRoom PqNew PqSession PqInsert.

(** The system grants every request. *)
Class SystemGrants (W : Type) {Sys : System W} : Prop := {
  open_ok oflags mode (w : W) : ∃ fd w', open oflags mode w = (inr fd, w');
  fcntl_ok cmd ty off ext (w : W) : (fcntl cmd ty off ext w).1 = 0;
  fstat_ok (w : W) : ∃ n w', fstat w = (inr n, w') ∧ 0 ≤ n < 2 ^ 63;
  ftruncate_ok len (w : W) : (ftruncate len w).1 = 0;
  lseek_ok off (w : W) : (lseek off w).1 = 0;
  write_ok n (w : W) : (write n w).1 = 0;
  mmap_ok addr ext prot fl off (w : W) : ∃ vp w', mmap addr ext prot fl off w = (inr vp, w') ∧ 0 < vp;
  malloc_ok n (w : W) : ∃ vp w', malloc n w = (inr vp, w');
  realloc_ok n (w : W) : (realloc n w).1 = None;
}.

Section make.
Context {W : Type} {Sys : System W} {Laws : SystemLaws W} {Grants : SystemGrants W}.
Implicit Types (q : pqueue W) (w : W).

Lemma not_refused : ~ refused W.
Proof.
  intros [(cmd & ty & off & ext & w & Hne)|(sz & w & Hne)];
    [by rewrite fcntl_ok in Hne|by rewrite realloc_ok in Hne].
Qed.

(** Growing the file ends. *)
Lemma fgrow_loop_ok fuel ii len w :
  len - ii ≤ Z.of_nat fuel * zsize → ∃ w', fgrow_loop (S fuel) ii len w = Ok (0, w').
Proof.
  revert ii w. induction fuel as [|fuel IH]; intros ii w Hlen.
  - simpl. rewrite (proj2 (Z.ltb_ge _ _)) by lia. eauto.
  - remember (S fuel) as n eqn:Hn. cbn [fgrow_loop]. subst n.
    destruct (ii <? len); [|eauto]. destruct (write zsize w) as [e w1] eqn:Hw.
    pose proof (write_ok zsize w) as He. rewrite Hw in He. simpl in He. subst e.
    apply IH. unfold zsize, N_ZEROS_GROW in *. lia.
Qed.

Lemma fgrow_ok len sparse w : 0 ≤ len → ∃ w', fgrow len sparse w = Ok (0, w').
Proof.
  intros Hlen. unfold fgrow. destruct (fstat_ok w) as (n & w1 & -> & Hn).
  destruct (Z.ltb_spec len n) as [Hlt|Hge]; [eauto|]. destruct sparse.
  - pose proof (ftruncate_ok len w1) as Ht. destruct (ftruncate len w1) as [e w2]. simpl in Ht. subst. eauto.
  - pose proof (lseek_ok n w1) as Hs. destruct (lseek n w1) as [e w2]. simpl in Hs. subst e. simpl.
    set (r := (len - n) mod zsize). pose proof (write_ok r w2) as Hw.
    destruct (write r w2) as [e w3]. simpl in Hw. subst e. cbv iota. rewrite Z.eqb_refl. cbv iota.
    apply fgrow_loop_ok. rewrite Z2Nat.id by (apply Z.div_pos; unfold zsize, N_ZEROS_GROW; lia).
    pose proof (Z.div_mod (len - n) zsize ltac:(done)). unfold r. lia.
Qed.

Lemma mm0_map_ok q :
  pq_base q = 0 → 0 ≤ TOTAL_SIZE q < 2 ^ 63 →
  ∃ w b, mm0_map q = Ok (0, set_base (set_sys q w) b) ∧ 0 < b.
Proof.
  intros Hb Hsz. unfold mm0_map. rewrite assert_Ok, bind_Ok by lia.
  destruct (fstat_ok (pq_sys q)) as (n & w1 & -> & Hn).
  set (mf := if fIsSet _ PQ_PRIVATE then _ else _). set (pr := if fIsSet _ PQ_READONLY then _ else _).
  assert (∃ st_size w, (if TOTAL_SIZE q <? n then Ok (0, n, w1)
    else if negb (fIsSet (pq_pflags q) PQ_READONLY)
    then let! '(e, w) := fgrow (TOTAL_SIZE q) (fIsSet (pq_pflags q) PQ_SPARSE) w1 in Ok (e, TOTAL_SIZE q, w)
    else Ok (0, TOTAL_SIZE q, w1)) = Ok (0, st_size, w) ∧ 0 ≤ st_size < 2 ^ 63) as (st_size & w2 & -> & Hst).
  { destruct (TOTAL_SIZE q <? n); [eauto|]. destruct (negb _); [|eauto].
    destruct (fgrow_ok (TOTAL_SIZE q) (fIsSet (pq_pflags q) PQ_SPARSE) w1) as (w2 & ->); [lia|].
    rewrite bind_Ok. eauto. }
  rewrite bind_Ok. simpl negb. cbv iota. simpl pq_base. rewrite Hb. simpl negb. cbv iota.
  rewrite (proj2 (Z.ltb_ge _ _)) by (unfold MAX_SIZE_T; lia). unfold mapwrap.
  destruct (mmap_ok 0 st_size pr mf 0 (pq_sys (set_sys q w2))) as (vp & w3 & -> & Hvp).
  rewrite assert_Ok, bind_Ok by (apply negb_true_iff, Z.eqb_neq; lia).
  simpl pq_base. rewrite Hb, assert_Ok, bind_Ok by done. exists w3, vp. done.
Qed.

(** ** The indexes *)

(** The object before [ctl_init()]. *)
Record fresh q (align : Z) : Prop := {
  fr_layout : layout_ok q = true;
  fr_data : pq_datao q < pq_ixo q;
  fr_access : pq_access q = Acc_mm0;
  fr_base : pq_base q = 0;
  fr_writable : fIsSet (pq_pflags q) PQ_READONLY = false;
  fr_sigs : fIsSet (pq_pflags q) PQ_SIGSBLOCKED = false;
  fr_page : 32 ≤ pq_pagesz q < 2 ^ 32 ∧ (2 | pq_pagesz q);
  fr_align : 0 < align < 2 ^ 32 ∧ (8 | align) ∧ (align | pq_datao q);
  fr_smallest : 0 ≤ pq_smallest q < 2 ^ 32;
  fr_total : TOTAL_SIZE q ≤ 2 ^ 62;
  fr_riul : riul_inv (pq_riul q) [];
  fr_nalloc : 16 ≤ pq_nalloc q < 2 ^ 28;
}.

Lemma fresh_even q align : fresh q align → (pq_ixo q - pq_datao q) mod 2 = 0.
Proof.
  intros [Hlay _ _ _ _ _ [Hp [k Hk]] _ _ _ _ _]. unfold layout_ok in Hlay.
  assert (pq_datao q mod pq_pagesz q = 0 ∧ pq_ixo q mod pq_pagesz q = 0) as [Hd Hi] by lia.
  apply Z.mod_divide in Hd as [a Ha]; [|lia]. apply Z.mod_divide in Hi as [b Hb]; [|lia].
  rewrite Ha, Hb, Hk. apply Z.mod_divide; [done|]. exists (b * k - a * k). lia.
Qed.

Lemma ctl_indexes_ok q align :
  fresh q align →
  ∃ f tq rl s g, ctl_indexes q = Ok (0, (f, tq, rl, s, g)) ∧
    both tq rl f (pq_datao q) (pq_ixo q) [] (seqZ 2 (pq_nalloc q)) []
      (seqZ 5 (pq_nalloc q - 1)) [4] [] [] [4] ∧
    sx_inv s [] (seqZ 0 (pq_nalloc q)) ∧ rl_nbytes rl = 0 ∧
    rl_nalloc rl = pq_nalloc q ∧ tq_nalloc tq = pq_nalloc q ∧ sx_nalloc s = pq_nalloc q ∧
    16 ≤ fb_spare f.
Proof.
  intros Hfr. pose proof (fresh_even q align Hfr) as Hev. destruct Hfr as [Hlay Hd _ _ _ _ Hp _ _ Ht _ Hn].
  unfold layout_ok in Hlay. unfold TOTAL_SIZE in Ht.
  destruct (fb_init_spec (pq_nalloc q) ltac:(lia)) as (f0 & Hf0 & Hown0 & _ & Hs0).
  pose proof (fb_spares_ge (pq_nalloc q) ltac:(lia)) as Hs.
  destruct (tq_init_spare (pq_nalloc q) f0 ∅ ltac:(lia) Hown0 ltac:(lia))
    as (tq & f1 & U & Htq & Htqi & Hown1 & _ & Hm1 & _ & Htn & Hs1).
  rewrite map_union_empty in Hown1.
  destruct (rl_create_spec (pq_nalloc q) f1 U (pq_rng q) (pq_datao q) (pq_ixo q - pq_datao q))
    as (rl & f2 & g & Hrl & Hrli & Hrn & Hnb & _ & _ & Hm2 & Hk & Hs2); [lia|done|lia|lia|lia|lia|done|].
  destruct (sx_init_spec (pq_nalloc q) ltac:(lia)) as (s & Hsx & Hsxi & Hsn).
  exists f2, tq, rl, s, g. split.
  - unfold ctl_indexes. rewrite Hf0, bind_Ok, Htq, bind_Ok, u64_small by lia.
    rewrite (proj2 (Z.ltb_ge _ _)) by (unfold MAX_SIZE_T; lia).
    by rewrite Hrl, bind_Ok, Hsx, bind_Ok.
  - split; [|split_and!; try assumption; lia]. exists U. split.
    + by eapply tq_inv_keeps.
    + by replace (pq_datao q + (pq_ixo q - pq_datao q)) with (pq_ixo q) in Hrli by lia.
Qed.

(** ** [ctl_init()] *)

Abbreviation cf := (Z.lor RGN_WRITE RGN_NOWAIT).

(** The state after [ctl_init()]. *)
Definition new_queue q (w : W) (b : Z) (ri : riul) (c : pqctl) f tq rl s g : pqueue W :=
  set_rng (set_sh (set_ixp (set_ctlp (set_riul (set_base (set_sys q w) b) ri) true) true)
             (Shared c f tq rl s)) g.

Definition new_ghost q (b : Z) : ghost :=
  Ghost [] (seqZ 2 (pq_nalloc q)) [] (seqZ 5 (pq_nalloc q - 1)) [4] [] [] [4] [] (seqZ 0 (pq_nalloc q))
    [Riu 0 (pq_datao q) b cf; Riu (pq_ixo q) (pq_ixsz q) (b + pq_ixo q) (Z.lor RGN_WRITE RGN_NOLOCK)].

Lemma new_config q align w b ri f tq rl s g :
  fresh q align → 0 < b → pq_config (new_queue q w b ri (ctl_new q align) f tq rl s g).
Proof. intros [] Hb. split; simpl; try done. by destruct fr_page0. Qed.

Lemma new_queue_inv q align w b ri f tq rl s g :
  fresh q align → 0 < b → riul_inv ri (g_rs (new_ghost q b)) →
  both tq rl f (pq_datao q) (pq_ixo q) [] (seqZ 2 (pq_nalloc q)) []
    (seqZ 5 (pq_nalloc q - 1)) [4] [] [] [4] →
  sx_inv s [] (seqZ 0 (pq_nalloc q)) → rl_nbytes rl = 0 →
  rl_nalloc rl = pq_nalloc q → tq_nalloc tq = pq_nalloc q → sx_nalloc s = pq_nalloc q →
  pq_inv (new_queue q w b ri (ctl_new q align) f tq rl s g) (new_ghost q b).
Proof.
  intros Hfr Hb Hri Hboth Hsx Hnb H1 H2 H3. split; [|exact Hnb]. split; try done.
  - by apply new_config.
  - simpl. by intros n ?%elem_of_nil.
  - intros r Hr. destruct Hfr as [Hlay Hd _ _ _ _ Hp _ _ Ht _ _]. unfold layout_ok in Hlay.
    unfold mine_ok, TOTAL_SIZE. simpl in *.
    apply elem_of_cons in Hr as [->|Hr]; [|apply list_elem_of_singleton in Hr as ->]; simpl; split_and!; try lia; auto.
  - intros p Hp. by apply elem_of_nil in Hp.
  - constructor.
  - intros p Hp. by apply elem_of_nil in Hp.
Qed.

Lemma ctl_init_ok q align :
  fresh q align → 
  ∃ w b ri f tq rl s g, let q' := new_queue q w b ri (ctl_new q align) f tq rl s g in
    ctl_init q align = Ok (0, q') ∧ pq_inv q' (new_ghost q b) ∧ 16 ≤ fb_spare f.
Proof.
  intros Hfr. pose proof Hfr as [Hlay Hd Hacc Hbase Hw Hsb Hp Hal Hsm Ht Hri Hna].
  pose proof Hlay as Hlay'. unfold layout_ok in Hlay'.
  unfold ctl_init. rewrite !assert_Ok, !bind_Ok by lia.
  (* the control block *)
  destruct (mm0_map_ok q Hbase ltac:(unfold TOTAL_SIZE in *; lia)) as (w1 & b & Hmap & Hb).
  set (q1 := set_base (set_sys q w1) b) in *.
  assert (∃ w2 ri, ftom q 0 (pq_datao q) cf = Ok (0, b, set_riul (set_sys q1 w2) ri) ∧
    riul_inv ri [Riu 0 (pq_datao q) b cf]) as (w2 & ri & -> & Hri1).
  { unfold ftom. rewrite Hacc. unfold mm0_ftom. rewrite Hlay, assert_Ok, bind_Ok by done.
    unfold ftom_args_ok, TOTAL_SIZE. rewrite assert_Ok, bind_Ok by lia. unfold pIf.
    rewrite Hw, assert_Ok, bind_Ok by apply orb_true_r. rewrite Hbase, Z.eqb_refl, Hmap, bind_Ok.
    simpl negb. cbv iota. change (pq_base q1 + 0) with (b + 0). rewrite Z.add_0_r.
    pose proof (rgn2_reserve_spec q1 [] 0 (pq_datao q) cf b Hri) as Hres.
    assert ((0 =? pq_ixo q1) && (pq_datao q =? pq_ixsz q1) = false) as Hix.
    { change (pq_ixo q1) with (pq_ixo q). by rewrite (proj2 (Z.eqb_neq 0 (pq_ixo q))) by lia. }
    specialize (Hres ltac:(by intros ? ?%elem_of_nil) ltac:(lia) ltac:(simpl; lia) ltac:(simpl; lia) eq_refl Hix).
    destruct (Z.eqb_spec (try_lock q1 0 (pq_datao q) cf).1 0) as [Hl|Hl];
      [|by apply try_lock_refused in Hl; destruct not_refused].
    destruct Hres as [(rl & ix & w & A & B & -> & HAB & Hi & Hm)|(w & _ & _ & Hrf)]; [|by destruct not_refused].
    symmetry in HAB. apply app_nil in HAB as [-> ->]. rewrite bind_Ok. eauto. }
  rewrite bind_Ok. change (0 =? EIO) with false. simpl andb. cbv iota. rewrite bind_Ok. simpl negb. cbv iota.
  (* the indexes *)
  set (q3 := set_ctl _ _).
  assert (pq_config q3) as Hc3 by (split; simpl; try done; tauto).
  assert (∃ w3 ri', ftom q3 (pq_ixo q3) (pq_ixsz q3) (Z.lor RGN_WRITE RGN_NOLOCK) =
     Ok (0, b + pq_ixo q, set_riul (set_sys q3 w3) ri') ∧ riul_inv ri' (g_rs (new_ghost q b))) as (w3 & ri' & -> & Hri2).
  { rewrite (mm0_ftom_unfold q3 _ _ _ Hc3 (λ _, Hw)) by (unfold TOTAL_SIZE; simpl; lia).
    destruct (rgn2_reserve_index q3 [Riu 0 (pq_datao q) b cf] (Z.lor RGN_WRITE RGN_NOLOCK)
      (pq_base q3 + pq_ixo q3) Hri1) as [(rl' & ix & w' & A & B & -> & HAB & Hi & Hm')|(w' & _ & _ & Hrf)];
      [| | | | | |by destruct not_refused].
    - intros r Hr. apply list_elem_of_singleton in Hr as ->. simpl. lia.
    - simpl. lia.
    - simpl. lia.
    - simpl. lia.
    - reflexivity.
    - rewrite bind_Ok. exists w', rl'. split; [done|].
      destruct A as [|a [|? ?]]; simpl in HAB; simplify_eq; [|exact Hi].
      exfalso. pose proof (ui_sorted _ _ Hi) as Hs. simpl in Hs. apply StronglySorted_inv in Hs as [_ Hs].
      apply Forall_cons in Hs as [Hs _]. unfold riu_lt in Hs. simpl in Hs. lia. }
  rewrite bind_Ok. simpl negb. cbv iota.
  set (q4 := set_ixp _ _).
  destruct (ctl_indexes_ok q align Hfr) as (f & tq & rl & s & g & Hix & Hboth & Hsx & Hnb & H1 & H2 & H3 & Hsp).
  change (ctl_indexes q) with (ctl_indexes q4) in Hix. rewrite Hix, bind_Ok.
  exists w3, b, ri', f, tq, rl, s, g. split; [done|]. split; [|exact Hsp].
  apply new_queue_inv; done.
Qed.

(** ** [pq_create()] *)

Lemma s64_small z : - 2 ^ 63 ≤ z < 2 ^ 63 → s64 z = z.
Proof. intros Hz. unfold s64. rewrite Z.mod_small by lia. lia. Qed.

(** The offsets and sizes of a queue. *)
Lemma offsets_ok c pagesz align initsz n :
  sizes_ok c → mm_prev (sz_ix c) ≠ n → 16 ≤ n < 2 ^ 28 → 144 ≤ pagesz ≤ 2 ^ 28 →
  0 < align ≤ 2 ^ 28 → 0 < initsz ≤ 2 ^ 60 + 2 ^ 28 →
  ∃ datao ixo ixsz c', pq_setOffsetsAndSizes c pagesz align initsz n = Ok (datao, ixo, ixsz, n, c') ∧
    (pagesz | datao) ∧ (align | datao) ∧ 144 ≤ datao ∧ datao + initsz ≤ ixo ∧ (pagesz | ixo) ∧
    pagesz ≤ ixsz ∧ (pagesz | ixsz) ∧ ixo + ixsz ≤ 2 ^ 62.
Proof.
  intros Hc Hprev Hn Hp Ha Hi. unfold pq_setOffsetsAndSizes.
  destruct (lcm_spec pagesz align ltac:(unfold ULONG_MAX; lia) ltac:(unfold ULONG_MAX; lia))
    as (v & er & -> & Hv & _).
  destruct (Z.divide_lcm_l pagesz align) as [k Hk]. destruct (Z.divide_lcm_r pagesz align) as [j Hj].
  pose proof (Z.lcm_nonneg pagesz align). set (l := Z.lcm pagesz align) in *.
  assert (l ≠ 0) as Hl0 by (unfold l; intros [?|?]%Z.lcm_eq_0; lia).
  assert (l ≤ 2 ^ 56) as Hle.
  { transitivity (pagesz * align); [|nia]. apply Z.divide_pos_le; [nia|]. apply Z.lcm_least.
    - apply Z.divide_factor_l.
    - apply Z.divide_factor_r. }
  assert (pagesz ≤ l) as Hge by (apply Z.divide_pos_le; [lia|by exists k]).
  rewrite bind_Ok, Hv, Z.min_l, s64_small by (unfold ULONG_MAX; lia).
  rewrite assert_Ok, bind_Ok by (rewrite u64_small; unfold sizeof_pqctl; lia).
  rewrite (proj2 (Z.eqb_neq n 0)) by lia.
  destruct (ix_sz_bound c n align Hc Hprev ltac:(lia) ltac:(lia)) as (sz & c' & -> & Hsz). rewrite !bind_Ok.
  destruct (rndup64_spec initsz pagesz ltac:(lia) ltac:(lia)) as [Hr1 Hr2].
  destruct (rndup64_spec sz pagesz ltac:(lia) ltac:(lia)) as [Hs1 Hs2].
  rewrite s64_small by lia. eexists _, _, _, c'. split; [done|].
  assert (pagesz ≤ rndup64 sz pagesz) by (apply Z.divide_pos_le; [lia|done]).
  split_and!; try done; try lia; [by exists k|by exists j|]. apply Z.divide_add_r; [by exists k|done].
Qed.

Lemma fIsSet_lor t g f : Z.land g f = 0 → fIsSet (Z.lor t g) f = fIsSet t f.
Proof. intros Hd. unfold fIsSet. by rewrite Z.land_lor_distr_l, Hd, Z.lor_0_r. Qed.

Lemma riul_init_ok rl sz :
  32 ≤ sz < 2 ^ 32 → ∃ rl', riul_init rl 0 sz = Ok rl' ∧ riul_inv rl' [].
Proof.
  intros Hsz. unfold riul_init, riul_nalloc, MIN_RIUL_SZ, sizeof_size_t, sizeof_riu.
  rewrite assert_Ok, !bind_Ok by lia. rewrite assert_Ok, bind_Ok by lia. rewrite Z.eqb_refl. simpl orb.
  rewrite !assert_Ok, !bind_Ok by done. eexists. split; [done|].
  rewrite u64_small by lia. change (4 * 8) with 32. simpl take. rewrite app_nil_l, Z.sub_0_r.
  split; simpl; try done.
  - by eexists.
  - rewrite length_replicate, Z2Nat.id; [done|]. apply Z.div_pos; lia.
  - split; [lia|done].
  - constructor.
  - by intros r ?%elem_of_nil.
Qed.

(** The arguments that [pq_create()] is meant for: the size of the indexes is not cached,
    the file is mapped as a whole and can be written. *)
Record args_ok (c : sizes) (pflags n : Z) : Prop := {
  ar_sizes : sizes_ok c;
  ar_prev : mm_prev (sz_ix c) ≠ n;
  ar_n : 16 ≤ n < 2 ^ 28;
  ar_page : 144 ≤ pagesize ≤ 2 ^ 28 ∧ (2 | pagesize);
  ar_flags : fIsSet pflags PQ_READONLY = false ∧ fIsSet pflags PQ_NOMAP = false ∧
             fIsSet pflags PQ_MAPRGNS = false ∧ fIsSet pflags PQ_SIGSBLOCKED = false;
}.

Lemma pq_new_ok c sh g pflags align initsz n w :
  args_ok c pflags n → 0 < align ≤ 2 ^ 28 → (8 | align) → 0 < initsz ≤ 2 ^ 60 + 2 ^ 28 →
  ∃ q c', pq_new c sh g pflags align initsz n w = Ok (inr q, c') ∧ fresh q align ∧
    initsz ≤ pq_ixo q - pq_datao q ∧ pq_nalloc q = n ∧ pq_ctlp q = false ∧ pq_ixp q = false.
Proof.
  intros [Hc Hpr Hn [Hp Hp2] (Hf1 & Hf2 & Hf3 & Hf4)] Ha Ha8 Hin. unfold pq_new.
  destruct (malloc_ok sizeof_pqueue w) as (vp & w1 & ->).
  destruct (offsets_ok c pagesize align initsz n Hc Hpr Hn Hp ltac:(lia) Hin)
    as (datao & ixo & ixsz & c' & -> & Hd1 & Hd2 & Hd3 & Hi1 & Hi2 & Hx1 & Hx2 & Ht).
  rewrite bind_Ok, (proj2 (Z.ltb_ge _ _)) by lia.
  set (q0 := Pqueue _ _ _ _ _ _ _ _ _ _ _ _ _ _ _ _ _ _ _).
  assert (isProductMappingNecessary q0 = false) as ->.
  { unfold isProductMappingNecessary, TOTAL_SIZE. simpl. apply Z.ltb_ge. unfold MAX_SIZE_T. lia. }
  cbv iota zeta. change (pq_sys q0) with w1.
  destruct (malloc_ok pagesize w1) as (vp2 & w2 & ->).
  assert (32 ≤ @pagesize W Sys < 2 ^ 32) as Hpg by lia.
  destruct (riul_init_ok (Riul 0 0 0 0 []) (@pagesize W Sys) Hpg) as (rl & Hri & Hrl).
  change (pq_riul (set_sys q0 w2)) with (Riul 0 0 0 0 []). rewrite Hri, bind_Ok. eexists _, c'. split; [reflexivity|].
  split; [|simpl; split_and!; [lia|done..]]. split; simpl; try done.
  - unfold layout_ok. simpl. apply Z.mod_divide in Hd1, Hi2, Hx2; [|lia..]. lia.
  - lia.
  - unfold ctl_setAccessFunctions, isProductMappingNecessary, TOTAL_SIZE. simpl.
    rewrite !fIsSet_lor, Hf2, Hf3 by done. simpl. by rewrite (proj2 (Z.ltb_ge _ _)) by (unfold MAX_SIZE_T; lia).
  - by rewrite fIsSet_lor.
  - by rewrite fIsSet_lor.
  - split_and!; [lia|lia|done|done].
Qed.

Lemma pq_create_spec c sh g mode pflags align initialsz n w :
  args_ok c pflags n → 0 ≤ align ≤ 2 ^ 28 → 0 ≤ initialsz ≤ 2 ^ 60 →
  ∃ q c' G, pq_create c sh g mode pflags align initialsz n w = Ok (inr q, c') ∧ pq_idle q G ∧
    pq_writable q ∧ elems_ok q G ∧ spare_ok q ∧ pq_abs q G = Store [] ∅ ∅ ∧ pq_nalloc q = n ∧
    ctl_align (pq_ctl q) ≤ 2 ^ 28 ∧ initialsz ≤ pq_getDataSize q.
Proof.
  intros Hargs Ha Hi. unfold pq_create. set (al := if align =? 0 then _ else _).
  assert (0 < al ≤ 2 ^ 28 ∧ (8 | al)) as [Hal Hal8].
  { unfold al. destruct (Z.eqb_spec align 0) as [->|Hne]; [split; [unfold M_RND_UNIT; lia|by exists 1]|].
    destruct (rndup64_spec align M_RND_UNIT ltac:(lia) ltac:(unfold M_RND_UNIT; lia)) as [H1 H2].
    split; [|exact H2]. split; [lia|]. unfold M_RND_UNIT in *. destruct H2 as [k Hk]. rewrite Hk in *. lia. }
  set (isz := if negb (initialsz =? 0) then _ else _).
  assert (0 < isz ≤ 2 ^ 60 + 2 ^ 28 ∧ initialsz ≤ isz) as [Hisz Hge].
  { unfold isz. destruct (Z.eqb_spec initialsz 0) as [->|Hne]; simpl negb; cbv iota.
    - rewrite s64_small by lia. lia.
    - destruct (rndup64_spec initialsz al ltac:(lia) ltac:(lia)) as [H1 H2]. rewrite s64_small by lia. lia. }
  destruct (pq_new_ok c sh g pflags al isz n w Hargs Hal Hal8 Hisz)
    as (q0 & c' & -> & Hfr & Hsz & Hna & Hcp & Hip). rewrite bind_Ok.
  set (ofl := if fIsSet pflags PQ_NOCLOBBER then _ else _).
  destruct (open_ok ofl mode (pq_sys q0)) as (fd & w1 & ->).
  assert (fresh (set_sys q0 w1) al) as Hfr1 by (destruct Hfr; split; done).
  destruct (ctl_init_ok _ _ Hfr1) as (w2 & b & ri & f & tq & rl & s & g' & Hinit & Hinv & Hsp).
  rewrite Hinit, bind_Ok. simpl negb. cbv iota.
  set (q1 := new_queue _ _ _ _ _ _ _ _ _ _) in *.
  destruct (ctl_rel_spec q1 _ cf (Z.lor RGN_WRITE RGN_NOLOCK) [] RGN_MODIFIED Hinv)
    as (st & w3 & ri3 & Hrel & Hm & Hri3 & Hrf);
    [reflexivity|reflexivity|reflexivity|by split_and!; [..|right]|by intros _; apply (fr_writable _ _ Hfr)|].
  unfold pf_out in Hrel.
  assert (st = 0) as ->. { destruct (decide (st = 0)) as [|Hne]; [done|]. by destruct not_refused; apply Hrf. }
  change (pq_pflags q1) with (pq_pflags q0) in Hrel. rewrite (fr_sigs _ _ Hfr) in Hrel.
  rewrite Hrel, bind_Ok. simpl negb. cbv iota. eexists _, c', (with_rs (new_ghost q0 b) []).
  split; [reflexivity|]. split.
  - split; [|done]. split; [|by intros ? ?%elem_of_nil|done|done|exact (fr_sigs _ _ Hfr)].
    apply env_inv; [exact Hinv|done|done|by intros ? ?%elem_of_nil].
  - split_and!; [exact (fr_writable _ _ Hfr)|apply Nat.le_0_l| |done|exact Hna|exact (proj2 Hal)|].
    + unfold spare_ok. simpl. pose proof (pv_nelems _ _ Hinv) as [Hn _]. simpl in Hn. rewrite Hn. lia.
    + unfold pq_getDataSize. simpl. destruct Hfr as [Hlay Hd _ _ _ _ [Hp _] _ _ Ht _ _].
      unfold layout_ok in Hlay. unfold TOTAL_SIZE in Ht. rewrite u64_small by lia. lia.
Qed.
End make.
