(* ===== verification/PqExample.v ===== *)
(** * A queue on a small system

    An operating system that grants every request and whose memory holds the
    metadata of products; on it, a new queue and one with a product, for the
    witnesses of the theorems about the queue. *)

From S2P Require Import Prelude Timestamp NumTheory Fb SkipList TimeQueue RegionList RegionHash.
From S2P Require Import RegionAlloc RegionThms SigIndex Riul Sizes PqShare PqCore Xlen PqOps PqCtl.
From S2P Require Import ProdClass PqRead PqEntry PqCreate PqInv PqAccess PqDelete PqRoom PqNew PqReserve PqSession PqInsert PqSeq PqSearch PqFind PqReserved PqMake.

(** Memory with the metadata of products, the size of the file. *)
Record world := World { wd_mem : gmap Z prod_info; wd_size : Z }.

Definition ex_now : timestampt := Timestamp 1700000000 0.

#[global] Instance world_system : System world := {
  pagesize := 4096;
  open _ _ w := (inr 3, w);
  close _ w := w;
  unlink w := w;
  fcntl _ _ _ _ w := (0, w);
  fstat w := (inr (Z.max 0 (Z.min (wd_size w) (2 ^ 60))), w);
  ftruncate len w := (0, World (wd_mem w) len);
  lseek _ w := (0, w);
  write n w := (0, World (wd_mem w) (wd_size w + n));
  pread _ extent _ w := (inr extent, w);
  pwrite _ extent _ w := (inr extent, w);
  mmap _ _ _ _ _ w := (inr 0x100000, w);
  munmap _ _ w := (0, w);
  malloc _ w := (inr 0x8000, w);
  free _ w := w;
  realloc _ w := (None, w);
  gettimeofday w := (inr ex_now, w);
  xdr_prod_info vp n w :=
    if 0 <? n then (λ info, (info, Z.of_nat (length (enc_prod_info info)))) <$> wd_mem w !! vp else None;
  xdr_product vp n p w :=
    if 0 <? n then (true, World (<[vp := p_info p]> (wd_mem w)) (wd_size w)) else (false, w);
}.

#[global] Instance world_laws : SystemLaws world.
Proof.
  split; simpl; try done.
  - intros. congruence.
  - intros vp n p vp' n' w Hd. destruct (Z.ltb_spec 0 n) as [Hn|Hn]; [|done].
    destruct (Z.ltb_spec 0 n') as [Hn'|Hn']; [|done]. simpl. f_equal. apply lookup_insert_ne. lia.
  - intros vp n n' p w w' Hx Hle. destruct (Z.ltb_spec 0 n) as [Hn|Hn]; [|done].
    injection Hx as <-. rewrite (proj2 (Z.ltb_lt _ _)) by lia. simpl. by rewrite lookup_insert_eq.
  - intros w. exists ex_now, w. done.
Qed.

#[global] Instance world_grants : SystemGrants world.
Proof.
  split; simpl; try done; intros; eauto 10.
  - eexists _, _. split; [done|]. lia.
  - eexists _, _. split; [done|]. lia.
Qed.

(** Metadata is encoded where there is room for it; a signature is put 8 bytes after
    the beginning. *)
#[global] Instance world_writer : Writer world := {
  xdr_info_encode vp n info w :=
    let len := Z.of_nat (length (enc_prod_info info)) in
    if len <=? n then (Some (vp + len), World (<[vp := info]> (wd_mem w)) (wd_size w)) else (None, w);
  put_signature xp sig w :=
    World (alter (λ i, ProdInfo (pi_arrival i) sig (pi_origin i) (pi_feedtype i) (pi_seqno i) (pi_ident i) (pi_sz i))
             (xp - 8) (wd_mem w)) (wd_size w);
}.

Lemma enc_prod_info_pos info : 0 < Z.of_nat (length (enc_prod_info info)).
Proof. unfold enc_prod_info, enc_int. rewrite length_app. cbn [length]. lia. Qed.

#[global] Instance world_writer_laws : WriterLaws world.
Proof.
  split; intros vp n info; [intros vp' n' w Hd|intros w Hn]; cbn [xdr_info_encode world_writer]; cbv zeta.
  - destruct (Z.leb_spec (Z.of_nat (length (enc_prod_info info))) n) as [Hn|Hn]; [|reflexivity].
    pose proof (enc_prod_info_pos info) as Hpos.
    cbn [snd]. unfold xdr_prod_info, world_system. cbn [wd_mem].
    destruct (Z.ltb_spec 0 n') as [Hn'|Hn']; [|reflexivity]. f_equal. apply lookup_insert_ne. lia.
  - rewrite (proj2 (Z.leb_le _ _) Hn). reflexivity.
Qed.

Lemma world_time n : n < 2 ^ 28 → before_endt (W:=world) n.
Proof. intros Hn w now w' Hclk. injection Hclk as <- <-. unfold us. simpl. lia. Qed.

(** ** A queue on it *)

(** What a new file holds. *)
Definition ex_shared : shared :=
  Shared (Pqctl 0 0 0 0 0 0 0 0 0 0 TS_ZERO TS_ZERO false 0 0) (Fb 0 0 0 0 0 ∅ ∅ ∅)
    (Tqueue 0 0 0 0 0 ∅) (Regionl 0 0 0 0 0 0 0 0 0 0 0 0 0 0 0 0 ∅ 0 ∅) (Sx 0 0 0 0 0 ∅ 0 ∅).

(** A queue for 16 products, and then with one. *)
Definition ex_create : res ((Z * world + pqueue world) * sizes) :=
  pq_create sizes_init ex_shared rng_init 438 0 4096 65536 16 (World ∅ 0).

Definition ex_created : res (pqueue world) :=
  let! '(r, _) := ex_create in
  match r with inl _ => Err AssertFail | inr q => Ok q end.

Definition ex_inserted : res (pqueue world) :=
  let! q := ex_created in
  let! '(st, q) := pq_insertNoSig q ex_product in
  assert! st =? 0 in Ok q.

Lemma ex_args : args_ok (W:=world) sizes_init 0 16.
Proof.
  split; [exact sizes_init_ok|discriminate|lia| |done].
  simpl. split; [lia|by exists 2048].
Qed.

Lemma ex_create_spec :
  ∃ q c' G, ex_create = Ok (inr q, c') ∧ pq_idle q G ∧ pq_writable q ∧ elems_ok q G ∧ spare_ok q ∧
    pq_abs q G = Store [] ∅ ∅ ∧ pq_nalloc q = 16 ∧
    ctl_align (pq_ctl q) ≤ 2 ^ 28 ∧ 65536 ≤ pq_getDataSize q.
Proof. apply pq_create_spec; [exact ex_args|lia|lia]. Qed.

Lemma ex_create_eq :
  ex_create = pq_create sizes_init ex_shared rng_init 438 0 4096 65536 16 (World ∅ 0).
Proof. reflexivity. Qed.

Lemma ex_created_eq :
  ex_created = let! '(r, _) := ex_create in match r with inl _ => Err AssertFail | inr q => Ok q end.
Proof. reflexivity. Qed.

Lemma ex_inserted_eq :
  ex_inserted = let! q := ex_created in
    let! '(st, q) := pq_insertNoSig q ex_product in assert! st =? 0 in Ok q.
Proof. reflexivity. Qed.

#[local] Opaque ex_create ex_created ex_inserted.

Lemma ex_created_idle :
  ∃ q G, ex_created = Ok q ∧ pq_idle q G ∧ pq_writable q ∧ elems_ok q G ∧ spare_ok q ∧ pq_abs q G = Store [] ∅ ∅ ∧
    pq_nalloc q = 16 ∧
    ctl_align (pq_ctl q) ≤ 2 ^ 28 ∧ 65536 ≤ pq_getDataSize q.
Proof.
  destruct ex_create_spec as (q & c & G & Hrun & Hid & Hwr & Hel & Hsp & Ha & Hn & Hal & Hsz).
  exists q, G. rewrite ex_created_eq, Hrun, bind_Ok.
  split; [reflexivity|]. split; [exact Hid|]. split; [exact Hwr|]. split; [exact Hel|]. split; [exact Hsp|].
  split; [exact Ha|]. split; [exact Hn|]. split; [exact Hal|exact Hsz].
Qed.

Lemma ex_size (q : pqueue world) : ctl_align (pq_ctl q) ≤ 2 ^ 28 → size_ok q ex_product.
Proof.
  intros Ha. unfold size_ok. replace (xlen_product ex_product) with 68 by (vm_compute; reflexivity).
  unfold PQ_FRAGMENT_HEURISTIC. lia.
Qed.

(** The first product brings its own signature only. *)
Lemma insert_first_sigs prod base w s' sig :
  insert_step (W:=world) prod base w (Store [] ∅ ∅) 0 s' → sig ≠ pi_signature (p_info prod) → s_sigs s' !! sig = None.
Proof.
  intros Hs Hne. inversion Hs as [st H|[x Hx]|st s1 _ _ H|s1 o e w1 now w2 tv _ Hev _ _ _ _ _|s1 o e _ _ _ _ H]; try done.
  simpl. rewrite lookup_insert_ne by done. destruct Hev as (_ & _ & Hsub & _). simpl in Hsub.
  apply eq_None_not_Some. intros [x Hx]. by apply (lookup_weaken _ _ _ _ Hx) in Hsub.
Qed.

Lemma ex_inserted_spec :
  ∃ q G, ex_inserted = Ok q ∧ pq_idle q G ∧ pq_writable q ∧ elems_ok q G ∧ spare_ok q ∧
    4 ≤ fb_spare (pq_fb q) ∧ readable q G ex_product ∧ pq_cursor q = TS_NONE ∧
    (∀ sig, sig ≠ pi_signature ex_info → pq_sigs q G !! sig = None).
Proof.
  destruct ex_created_idle as (q & G & Hq & Hid & Hwr & Hel & Hsp & Ha & Hn & Hal & Hsz).
  assert ((let! q := ex_inserted in Ok ((4 * rl_nelems (pq_rl q) + 8 <=? fb_spare (pq_fb q)) &&
             (4 <=? fb_spare (pq_fb q)), pq_cursor q)) = Ok (true, TS_NONE)) as Hc by (vm_compute; reflexivity).
  destruct ex_inserted as [q'|] eqn:Hrun; [|discriminate Hc]. rewrite bind_Ok in Hc. injection Hc as Hc Hcur.
  rewrite ex_inserted_eq, Hq, bind_Ok in Hrun.
  destruct (pq_insertNoSig_spec q G ex_product Hid Hel (spare_ok_for _ _ Hsp)) as [[Hr _]|(st & q1 & G1 & Hr & Hpost)].
  - rewrite Hn. apply world_time. lia.
  - exact ex_product_ok.
  - by apply ex_size.
  - rewrite Hr in Hrun. discriminate Hrun.
  - rewrite Hr, bind_Ok in Hrun. apply bind_inv in Hrun as (? & Hst & Hrun). injection Hrun as ->.
    apply assert_inv in Hst. assert (st = 0) as -> by lia.
    assert (xlen_product ex_product < 100) as Hx by (vm_compute; reflexivity).
    rewrite Hwr, (proj2 (Z.ltb_ge _ _)) in Hpost by lia.
    destruct Hpost as (Hid1 & Hel1 & Hc1 & Hstep & Hread).
    exists q', G1. split; [reflexivity|]. split; [exact Hid1|].
    split; [unfold pq_writable, pq_cfg in *; congruence|]. split; [exact Hel1|].
    split; [unfold spare_ok; lia|]. split; [lia|]. split; [exact (Hread eq_refl)|].
    split; [exact Hcur|]. intros sig Hne. rewrite Ha in Hstep. exact (insert_first_sigs _ _ _ _ _ Hstep Hne).
Qed.

Lemma ex_inserted_idle :
  ∃ q G, ex_inserted = Ok q ∧ pq_idle q G ∧ pq_writable q ∧ elems_ok q G ∧ spare_ok q ∧ pq_queue q G ≠ [] ∧
    4 ≤ fb_spare (pq_fb q).
Proof.
  destruct ex_inserted_spec as (q & G & H1 & H2 & H3 & H4 & H5 & H6 & (tv & o & e & Hin & _) & _).
  exists q, G. split; [exact H1|]. split; [exact H2|]. split; [exact H3|]. split; [exact H4|]. split; [exact H5|].
  split; [|exact H6]. intros Hnil. rewrite Hnil in Hin. by apply elem_of_nil in Hin.
Qed.

(** The system refuses nothing. *)
Lemma world_not_refused : ¬ refused world.
Proof. intros [(? & ? & ? & ? & ? & H)|(? & ? & H)]; by apply H. Qed.
