(* ===== verification/PqReach.v ===== *)
(** * The states of a process

    The operations of a process on a queue, one after the other, as a step
    relation; what holds of a queue that can be reached from a new one. *)

From S2P Require Import Prelude Timestamp NumTheory Fb SkipList TimeQueue RegionList RegionHash.
From S2P Require Import RegionAlloc RegionThms SigIndex Riul Sizes PqShare PqCore Xlen ProdClass PqOps PqCtl.
From S2P Require Import PqRead PqCreate PqInv PqAccess PqDelete PqRoom PqSession PqSeq PqSearch PqFind PqProcess PqInsert PqEntry PqReserved PqMake PqExample.

(** A function of a caller that leaves the products alone. *)
Definition calm {W} {Sys : System W} {A} (f : pq_seqfunc (W:=W) (A:=A)) : Prop :=
  ∀ info d p n a w, same_mem w (f info d p n a w).2.

Section reach.
Context {W : Type} {Sys : System W} {Laws : SystemLaws W} {Wr : Writer W} {WL : WriterLaws W} {Re : Regex}.
Implicit Types (q : pqueue W) (G : ghost).

(** A call that returns, whatever its status.  A process inserts while it has locked
    no product, with spare blocks for the deletions that make room. *)
Inductive pq_step q : pqueue W → Prop :=
  | step_insert prod st q' :
      rul_nelems (pq_riul q) = 0 → spare_for q (xlen_product prod) → before_endt (pq_nalloc q) → product_ok prod → size_ok q prod →
      pq_insertNoSig q prod = Ok (st, q') → pq_step q q'
  | step_sequence A mt clss (f : pq_seqfunc (A:=A)) a st a' q' :
      cursor_ok q mt → class_ok clss → calm f →
      pq_sequence q mt clss (Some f) a = Ok (st, a', q') → pq_step q q'
  | step_sequenceLock A mt clss (f : pq_seqfunc (A:=A)) a st off a' q' :
      cursor_ok q mt → class_ok clss → calm f →
      pq_sequenceLock q mt clss (Some f) a = Ok (st, off, a', q') → pq_step q q'
  | step_release offset st q' :
      pq_release q offset = Ok (st, q') → pq_step q q'
  | step_setCursor interval sig st q' :
      (∀ G, pq_out q G → sig_ok q G interval sig) →
      pq_setCursorFromSignature q interval sig = Ok (st, q') → pq_step q q'
  | step_process A interval sig (f : pq_seqfunc (A:=A)) a st a' q' :
      (∀ G, pq_out q G → sig_ok q G interval sig) → calm f →
      pq_processProduct q sig f a = Ok (st, a', q') → pq_step q q'
  | step_delete interval sig st q' :
      (∀ G, pq_out q G → sig_ok q G interval sig) → pq_writable q → 4 ≤ fb_spare (pq_fb q) →
      pq_deleteBySignature q interval sig = Ok (st, q') → pq_step q q'
  | step_newDirect size sig st out q' :
      rul_nelems (pq_riul q) = 0 → spare_for q size → 0 < size →
      2 * (size + ctl_align (pq_ctl q)) + PQ_FRAGMENT_HEURISTIC < 2 ^ 32 →
      pqe_newDirect q size sig = Ok (st, out, q') → pq_step q q'
  | step_new info st out q' :
      rul_nelems (pq_riul q) = 0 → spare_for q (xlen_prod_i info) → info_wf info →
      2 * (xlen_prod_i info + ctl_align (pq_ctl q)) + PQ_FRAGMENT_HEURISTIC < 2 ^ 32 →
      pqe_new q info = Ok (st, out, q') → pq_step q q'
  | step_fill G sig o e w :
      reserved q G sig o e → filled q o e w → pq_step q (set_sys q w)
  | step_pqe_insert G sig o e b st q' :
      reserved q G sig o e → before_endt (pq_nalloc q) → fill_ok q sig o e → 4 ≤ fb_spare (pq_fb q) →
      pqe_insert q (PqeIndex o sig b) = Ok (st, q') → pq_step q q'
  | step_discard G sig o e b st q' :
      reserved q G sig o e → 4 ≤ fb_spare (pq_fb q) →
      pqe_discard q (PqeIndex o sig b) = Ok (st, q') → pq_step q q'.

(** Well formed: outside of a critical section, and no element of the time queue
    without a region. *)
Definition pq_wf q : Prop := ∃ G, pq_out q G ∧ elems_ok q G.

(** What a call of a reader leaves. *)
Lemma kept_elems q q' G G' :
  kept q q' → g_ns G' = g_ns G → g_lk G' = g_lk G → g_us G' = g_us G → elems_ok q G → elems_ok q' G'.
Proof. intros (Hs & _) H1 H2 H3. unfold elems_ok, pq_queue, pq_regions. by rewrite Hs, H1, H2, H3. Qed.

Lemma wf_moved q G cur off lc q' rs :
  elems_ok q G → moved q cur off lc q' → pq_out q' (with_rs G rs) → pq_wf q'.
Proof.
  intros Hel Hmv Hout. exists (with_rs G rs). split; [done|].
  by apply (kept_elems q q' G (with_rs G rs) (moved_kept _ _ _ _ _ Hmv)).
Qed.

Lemma wf_same q G cur off lc q' : elems_ok q G → moved q cur off lc q' → pq_out q' G → pq_wf q'.
Proof. intros Hel Hmv Hout. rewrite <- (with_rs_id G _ eq_refl) in Hout. by eapply wf_moved. Qed.

Lemma seq_result_wf {A} q G c mt clss (f : pq_seqfunc (A:=A)) a keep st off a' q' :
  elems_ok q G → seq_result q G c mt clss f a keep (Ok (st, off, a', q')) → pq_wf q'.
Proof. intros Hel Hres. inversion Hres; subst; (by eapply wf_same) || (by eapply wf_moved). Qed.

Lemma release_wf q G o st q' :
  pq_out q G → elems_ok q G → pq_release q o = Ok (st, q') → pq_wf q'.
Proof.
  intros Hout Hel Hrun. destruct (decide (o ∈ held (g_rs G))) as [Hh|Hh].
  - apply list_elem_of_fmap in Hh as (r & -> & (L & R & Hrs)%list_elem_of_split).
    destruct (rgn_rel_out _ _ L r R Hout Hrs) as (st' & w & rl & Hrel & Hout' & Hm & _).
    unfold pq_release in Hrun. rewrite Hrel, bind_Ok in Hrun. injection Hrun as _ <-.
    destruct (st' =? 0).
    + eapply (wf_moved q G (pq_cursor q) (pq_cursor_offset q) (pq_locked_count q - 1)); [done|by exists w, rl|].
      exact (reads_out _ _ _ _ _ Hout').
    + eapply (wf_moved q G (pq_cursor q) (pq_cursor_offset q) (pq_locked_count q)); [done|by exists w, rl|done].
  - assert (pq_datao q ≤ o < pq_ixo q) as Ho.
    { unfold pq_release in Hrun. apply bind_inv in Hrun as ([? ?] & Hrel & _). unfold rgn_rel in Hrel.
      apply bind_inv in Hrel as (? & Ha%assert_inv & _). lia. }
    rewrite (pq_release_absent q G o Hout Ho Hh) in Hrun. injection Hrun as _ <-. by exists G.
Qed.

Lemma delete_wf q G sig st q' :
  pq_out q G → elems_ok q G → delete_post q G sig (Ok (st, q')) → pq_wf q'.
Proof.
  intros Hout Hel Hpost.
  assert (∀ q2, pq_out q2 G ∧ pq_sh q2 = pq_sh q ∧ pq_cfg q2 = pq_cfg q → pq_wf q2) as Hsame.
  { intros q2 (Hout2 & Hsh & _). exists G. split; [done|]. unfold elems_ok, pq_queue, pq_regions in *. by rewrite Hsh. }
  destruct Hpost as [[_ (? & ? & _ & [= <- <-] & Hs)]|Hpost]; [by apply Hsame|].
  destruct (pq_sigs q G !! sig) as [o|]; [|destruct Hpost as (? & [= _ <-] & Hs); by apply Hsame].
  destruct Hpost as [[_ [?|(? & [= _ <-] & Hs)]]|Hpost]; [done|by apply Hsame|].
  destruct Hpost as (tv & L & R & q2 & G' & [= _ <-] & Hout' & _ & _ & Hlk & Hq & Hq' & Hreg & _).
  exists G'. split; [done|]. destruct (pv_prods _ _ (po_inv _ _ Hout) (tv, o)) as (e & _ & Ho & _).
  { rewrite Hq. set_solver. }
  unfold elems_ok in *. rewrite Hq', Hreg, Hlk. rewrite Hq in Hel.
  rewrite map_size_delete_Some by by exists e. rewrite !length_app in *. simpl in *. lia.
Qed.

Lemma reserved_wf q G sig o e : reserved q G sig o e → pq_wf q.
Proof. intros Hv. exists G. split; [exact (rv_out _ _ _ _ _ Hv)|by eapply reserved_elems]. Qed.

Lemma idle_wf q G : pq_idle q G → elems_ok q G → pq_wf q.
Proof. intros Hid Hel. exists G. split; [exact Hid|done]. Qed.

(** A process that has no region. *)
Lemma no_region_idle q G : pq_out q G → rul_nelems (pq_riul q) = 0 → pq_idle q G.
Proof.
  intros Hout Hn. split; [done|]. pose proof (ui_nelems _ _ (pv_riul _ _ (po_inv _ _ Hout))).
  apply length_zero_iff_nil. lia.
Qed.

Lemma newDirect_wf q G size sig st out q' :
  pq_idle q G → elems_ok q G → spare_for q size → 0 < size →
  2 * (size + ctl_align (pq_ctl q)) + PQ_FRAGMENT_HEURISTIC < 2 ^ 32 →
  pqe_newDirect q size sig = Ok (st, out, q') → pq_wf q'.
Proof.
  intros Hid Hel Hsp Hpos Hsz Hrun.
  destruct (pqe_newDirect_spec q G size sig Hid Hel Hsp Hpos Hsz) as [[Hr _]|(st' & out' & q1 & Hr & Hpost)];
    rewrite Hr in Hrun; [done|]. injection Hrun as -> -> ->.
  destruct (_ <? _); [destruct Hpost as (_ & _ & ->); by eapply idle_wf|].
  destruct (fIsSet _ _); [destruct Hpost as (_ & _ & ->); by eapply idle_wf|].
  destruct Hpost as [(_ & s1 & G' & o & e & _ & Hv & _)|(_ & _ & G' & Hid' & Hel' & _)];
    [by eapply reserved_wf|by eapply idle_wf].
Qed.

Lemma new_wf q G info st out q' :
  pq_idle q G → elems_ok q G → spare_for q (xlen_prod_i info) → info_wf info →
  2 * (xlen_prod_i info + ctl_align (pq_ctl q)) + PQ_FRAGMENT_HEURISTIC < 2 ^ 32 →
  pqe_new q info = Ok (st, out, q') → pq_wf q'.
Proof.
  intros Hid Hel Hsp Hi Hsz Hrun.
  destruct (pqe_new_spec q G info Hid Hel Hsp Hi Hsz) as [[Hr _]|(st' & out' & q1 & Hr & Hpost)];
    rewrite Hr in Hrun; [done|]. injection Hrun as -> -> ->.
  destruct (_ =? 0); [destruct Hpost as (_ & _ & ->); by eapply idle_wf|].
  destruct (_ <? _); [destruct Hpost as (_ & _ & ->); by eapply idle_wf|].
  destruct (fIsSet _ _); [destruct Hpost as (_ & _ & ->); by eapply idle_wf|].
  destruct Hpost as (? & _ & [(_ & s1 & G' & o & e & _ & Hv & _)|(_ & _ & G' & Hid' & Hel' & _)]);
    [by eapply reserved_wf|by eapply idle_wf].
Qed.

Lemma pqe_insert_wf q G sig o e b st q' :
  reserved q G sig o e → before_endt (pq_nalloc q) → fill_ok q sig o e → 4 ≤ fb_spare (pq_fb q) →
  pqe_insert q (PqeIndex o sig b) = Ok (st, q') → pq_wf q'.
Proof.
  intros Hv Ht Hf Hsp Hrun. destruct (pqe_insert_spec q G sig o e Hv Ht Hsp b Hf) as (st' & q1 & Hr & Hpost).
  rewrite Hr in Hrun. injection Hrun as -> ->. unfold pqe_insert_post in Hpost.
  assert (∀ s, discard_post q G sig o s q' → pq_wf q') as Hd by (intros s (G' & ? & ? & _); by eapply idle_wf).
  case_match; [case_match; case_match|]; [destruct Hpost as [_ [? ?]]; by eapply Hd| |destruct Hpost as [_ [? ?]]; by eapply Hd].
  destruct Hpost as (G' & ? & ? & _). by eapply idle_wf.
Qed.

Lemma pq_step_wf q q' : pq_wf q → pq_step q q' → pq_wf q'.
Proof.
  intros (G & Hout & Hel) Hstep. destruct Hstep as [prod st q' Hn Hsp Ht Hp Hs Hrun|A mt clss f a st a' q' Hcur Hcl Hf Hrun
    |A mt clss f a st off a' q' Hcur Hcl Hf Hrun|o st q' Hrun|i sig st q' Hsig Hrun|A i sig f a st a' q' Hsig Hf Hrun
    |i sig st q' Hsig Hwr Hsp Hrun|size sig st out q' Hn Hsp Hpos Hsz Hrun|info st out q' Hn Hsp Hi Hsz Hrun|G' sig o e w Hv Hf|G' sig o e b st q' Hv Ht Hf Hsp Hrun
    |G' sig o e b st q' Hv Hsp Hrun].
  - pose proof (no_region_idle q G Hout Hn) as Hid.
    destruct (pq_insertNoSig_spec q G prod Hid Hel Hsp Ht Hp Hs) as [[Hr _]|(st' & q1 & G1 & Hr & Hpost)];
      rewrite Hr in Hrun; [done|]. injection Hrun as -> ->.
    destruct (fIsSet _ _); [destruct Hpost as [_ ->]; by exists G|].
    destruct (_ <? _); [destruct Hpost as [_ ->]; by exists G|]. destruct Hpost as (Hid' & Hel' & _).
    exists G1. split; [exact Hid'|done].
  - pose proof (pq_sequenceHelper_spec q G mt clss f a false Hout Hcur Hcl Hf) as Hres.
    unfold pq_sequence in Hrun. apply bind_inv in Hrun as ([[[? ?] ?] ?] & Hr & [= -> -> ->]). rewrite Hr in Hres.
    by eapply seq_result_wf.
  - pose proof (pq_sequenceHelper_spec q G mt clss f a true Hout Hcur Hcl Hf) as Hres.
    unfold pq_sequenceLock in Hrun. rewrite Hrun in Hres. by eapply seq_result_wf.
  - by eapply release_wf.
  - pose proof (pq_setCursor_spec q G Hout i sig (Hsig G Hout)) as Hpost. rewrite Hrun in Hpost.
    destruct Hpost as [[_ (? & ? & _ & [= <- <-] & Hmv & Ho)]|Hpost]; [by eapply wf_same|].
    destruct (pq_sigs q G !! sig) as [o|]; [|destruct Hpost as (? & [= _ <-] & Hmv & Ho); by eapply wf_same].
    destruct Hpost as [[_ [?|(? & [= _ <-] & Hmv & Ho)]]|(tv & ? & _ & [= _ <-] & Hmv & Ho)]; [done|by eapply wf_same..].
  - pose proof (pq_processProduct_spec q G Hout sig f a Hf (λ o Ho, proj1 (Hsig G Hout o Ho))) as Hpost.
    rewrite Hrun in Hpost.
    destruct Hpost as [[_ [?|(? & [= _ _ <-] & Hmv & Ho)]]|Hpost]; [done|by eapply wf_same|].
    destruct (pq_sigs q G !! sig) as [o|]; [|destruct Hpost as (? & [= _ _ <-] & Hmv & Ho); by eapply wf_same].
    destruct Hpost as [[_ [?|(? & [= _ _ <-] & Hmv & Ho)]]|(? & ? & ? & ? & ? & ? & ? & _ & _ & _ & _ & [= _ _ <-] & Hmv & Ho)];
      [done|by eapply wf_same..].
  - pose proof (pq_deleteBySignature_spec q G Hout Hwr Hsp i sig (Hsig G Hout)) as Hpost. rewrite Hrun in Hpost.
    by eapply delete_wf.
  - eapply newDirect_wf; [exact (no_region_idle q G Hout Hn)|done..].
  - eapply new_wf; [exact (no_region_idle q G Hout Hn)|done..].
  - eapply reserved_wf. by eapply reserved_fill.
  - by eapply pqe_insert_wf.
  - destruct (pqe_discard_spec q G' sig o e b Hv Hsp) as (st' & q1 & Hr & G1 & ? & ? & _).
    rewrite Hr in Hrun. injection Hrun as -> ->. by eapply idle_wf.
Qed.
End reach.
