(* ===== verification/PqReadThms.v ===== *)
(** * Theorems about reading the product-queue

    The properties of the readers of the queue, with witnesses on the queue of
    PqExample.v. *)

From S2P Require Import Prelude Timestamp NumTheory Fb SkipList TimeQueue RegionList RegionHash.
From S2P Require Import RegionAlloc RegionThms SigIndex Riul Sizes PqShare PqCore Xlen ProdClass PqOps PqCtl.
From S2P Require Import PqEntry PqReserved PqRead PqStat PqInv PqAccess PqDelete PqRoom PqSession PqSeq PqSearch PqReport PqFind PqProcess.
From S2P Require Import PqCreate PqInsert PqMake PqExample PqReach.

#[local] Opaque ex_create ex_created ex_inserted.

Section thms.
Context {W : Type} {Sys : System W} {Laws : SystemLaws W} {Re : Regex} {A : Type}.
Implicit Types (q : pqueue W) (G : ghost) (f : pq_seqfunc (W:=W) (A:=A)).

(** C3: stepping.  From any well-formed queue outside of a critical section,
    [pq_sequence()] and [pq_sequenceLock()] take one of the steps of [seq_result]:
    the end of the queue is reported exactly when no product follows (precedes, is
    at) the cursor; otherwise the cursor goes to that product and the function is
    called with its metadata, the address of its data and its exact size if the
    class selects it; after an error of the function the cursor is moved back; the
    product stays locked exactly when that was asked for.  What is shared does not
    change.  Only when the system refuses a lock or memory, or when the process
    has the product already, does the call fail. *)
Theorem pq_sequence_correct q G mt clss f a :
  pq_out q G → cursor_ok q mt → class_ok clss → calm f →
  seq_result q G (seq_cursor q mt) mt clss f a true (pq_sequenceLock q mt clss (Some f) a) ∧
  ∃ r, seq_result q G (seq_cursor q mt) mt clss f a false r ∧
    pq_sequence q mt clss (Some f) a = let! '(status, _, a, q) := r in Ok (status, a, q).
Proof.
  intros Hout Hcur Hclss Hcalm. split; [by apply pq_sequenceHelper_spec|].
  exists (pq_sequenceHelper q mt clss (Some f) a false). split; [by apply pq_sequenceHelper_spec|done].
Qed.

(** C32: locking.  A product that [pq_sequenceLock()] returns is one of the regions of
    the process, so that it cannot be evicted, and the cursor is at it;
    [pq_release()] of its offset undoes that: the process has the same regions as
    before, and the count of locked products is the same.  A second release is
    rejected. *)
Theorem pq_lock_release_roundtrip q G mt clss f a o a' q1 :
  pq_out q G → cursor_ok q mt → class_ok clss → calm f → ¬ refused W →
  pq_sequenceLock q mt clss (Some f) a = Ok (0, Some o, a', q1) →
  ∃ tv G1 q2, abs_find (seq_cursor q mt) mt (pq_queue q G) = Some (tv, o) ∧ pq_cursor q1 = tv ∧
    pq_out q1 G1 ∧ pq_busy q1 G1 o = true ∧ pq_locked_count q1 = pq_locked_count q + 1 ∧
    pq_release q1 o = Ok (0, q2) ∧ pq_out q2 G ∧ kept q q2 ∧ pq_locked_count q2 = pq_locked_count q ∧
    pq_release q2 o = Ok (PQ_NOTFOUND, q2).
Proof.
  intros Hout Hcur Hclss Hcalm Hrf Hrun.
  pose proof (pq_sequenceHelper_spec q G mt clss f a true Hout Hcur Hclss Hcalm) as Hres.
  unfold pq_sequenceLock in Hrun. rewrite Hrun in Hres. inversion Hres; subst; [naive_solver|].
  match goal with H : moved q tv o _ q1, H' : pq_out q1 _, H'' : g_rs G = ?L ++ ?R |- _ =>
    rename H into Hmv, H' into Hout1, H'' into HG;
    destruct (pq_release_spec q1 _ L (prod_riu q o e) R Hout1 eq_refl Hrf) as (q2 & Hrel & Hout2 & Hmv2)
  end.
  change (with_rs (with_rs G _) ?l) with (with_rs G l) in Hout2. rewrite (with_rs_id G _ HG) in Hout2.
  eexists tv, _, q2. split; [done|]. split; [by destruct Hmv as (? & ? & _ & ->)|]. split; [exact Hout1|].
  split.
  { unfold pq_busy. rewrite bool_decide_true; [done|]. simpl. rewrite fmap_app. set_solver. }
  split; [by destruct Hmv as (? & ? & _ & ->)|]. split; [exact Hrel|]. split; [exact Hout2|].
  split; [eapply kept_trans; by eapply moved_kept|]. split.
  { destruct Hmv2 as (? & ? & _ & ->). destruct Hmv as (? & ? & _ & ->). simpl. lia. }
  pose proof (po_inv _ _ Hout) as Hinv.
  match goal with H : pq_regions q G !! o = Some _ |- _ =>
    apply (pv_regions_lookup _ _ Hinv) in H as (n & Hn & Ho & _) end.
  destruct (pv_region_range _ _ Hinv n ltac:(set_solver)) as (? & ? & ? & _). rewrite Ho in *.
  apply (pq_release_absent q2 G o Hout2).
  - destruct Hmv2 as (? & ? & _ & ->). destruct Hmv as (? & ? & _ & ->). simpl. lia.
  - pose proof (riu_sorted_NoDup _ (ui_sorted _ _ (pv_riul _ _ (po_inv _ _ Hout1)))) as Hnd. simpl in Hnd.
    unfold held. rewrite HG. rewrite fmap_app in *. csimpl in Hnd.
    apply NoDup_app in Hnd as (_ & Hd & [Hx _]%NoDup_cons). intros [Hi|Hi]%elem_of_app; [|done].
    apply (Hd o Hi). constructor.
Qed.

(** C39: aborting.  A process that has locked every product in the queue, and that asks
    for one of them again, is not told that it has the product: an assertion of
    [rgn_get()] fails, whatever the system grants. *)
Theorem pq_sequence_all_held q G mt clss f a tv o :
  pq_out q G → cursor_ok q mt → class_ok clss → calm f → ¬ refused W →
  abs_find (seq_cursor q mt) mt (pq_queue q G) = Some (tv, o) → o ∈ held (g_rs G) →
  rl_nelems (pq_rl q) ≤ Z.of_nat (length (g_rs G)) →
  pq_sequence q mt clss (Some f) a = Err AssertFail.
Proof.
  intros Hout Hcur Hclss Hcalm Hrf Hfound Hh Hn. unfold pq_sequence.
  destruct (seq_held_result q G mt clss f a false tv o (pq_sequenceHelper q mt clss (Some f) a false)) as [->|(q' & _ & Hlt)];
    [by apply pq_sequenceHelper_spec|done..|lia].
Qed.

(** C4: every product is visited.  When the system refuses nothing, the loop of a reader
    that begins without a cursor ends after as many calls as there are products and
    one more, and the function has been given exactly the products of the class, in
    the order of their insertion; backwards, in the reverse order.  The queue is
    as before. *)
Theorem pq_sequence_visits_all q G clss mt :
  pq_idle q G → class_ok clss → ¬ refused W → pq_cursor q = TS_NONE → mt ≠ TV_EQ →
  ∃ l q', seq_all clss (S (length (pq_queue q G))) q mt [] = Ok (l, q') ∧
    visits clss q G (match mt with TV_LT => rev (pq_queue q G) | _ => pq_queue q G end) l ∧
    pq_idle q' G ∧ kept q q'.
Proof.
  intros Hid Hclss Hrf Hcur Hmt. destruct (queue_ends q G (id_inv _ _ Hid)) as [Hz He].
  set (Y := match mt with TV_LT => _ | _ => _ end).
  assert (length Y = length (pq_queue q G)) as <- by (unfold Y; by destruct mt; rewrite ?length_rev).
  assert (seq_cursor q mt = match mt with TV_LT => TS_ENDT | _ => TS_ZERO end) as Hc
    by (unfold seq_cursor; by rewrite Hcur).
  apply (seq_all_spec clss Hclss G mt Y q [] Hid Hrf).
  - by split; [rewrite Hcur|].
  - rewrite Hc. unfold Y. destruct mt; [|done|]; simpl.
    + rewrite rev_involutive. split; [done|]. exists []. by rewrite app_nil_r.
    + split; [done|]. by exists [].
Qed.

(** C31: the cursor by signature.  [pq_setCursorFromSignature()] ends, and moves the cursor
    to the product of the signature and to no other, wherever the search has to
    begin; for a signature that is not in the queue it returns [PQ_NOTFOUND] and
    leaves the cursor alone. *)
Theorem pq_setCursorFromSignature_correct q G interval sig :
  pq_out q G → sig_ok q G interval sig →
  setcursor_post q G sig (pq_setCursorFromSignature q interval sig).
Proof. intros. by apply pq_setCursor_spec. Qed.

(** C24: deletion by signature.  [pq_deleteBySignature()] removes exactly the product of
    the signature from the time queue, the region list and the signature index
    and keeps the queue well formed; or it changes nothing, because there is no such
    product, because the product is locked or because the system refuses. *)
Theorem pq_deleteBySignature_correct q G interval sig :
  pq_out q G → pq_writable q → 4 ≤ fb_spare (pq_fb q) → sig_ok q G interval sig →
  delete_post q G sig (pq_deleteBySignature q interval sig).
Proof. intros. by apply pq_deleteBySignature_spec. Qed.

(** Access by signature.  [pq_processProduct()] calls the function once, with the
    metadata, the data and the region of the product of the signature, and returns
    its status; the product is locked meanwhile, and released afterwards.  It is
    not called when there is no such product, when the process has locked it or when
    the system refuses (a process that cannot release the control block is
    aborted). *)
Theorem pq_processProduct_correct q G sig f a :
  pq_out q G → calm f → (∀ o, pq_sigs q G !! sig = Some o → o ∈ (pq_queue q G).*2) →
  process_post q G sig f a (pq_processProduct q sig f a).
Proof. intros. by apply pq_processProduct_spec. Qed.

(** C2: the states that a process can reach.  After [pq_create()] and any sequence of
    calls that return (insertions, steps of a reader that keep the product or not,
    releases, moves of the cursor, accesses and deletions by signature, reservations
    that are filled and then entered or discarded), each under the conditions of
    [pq_step], the queue is
    outside of a critical section and well formed: its products are in the order of
    their times, in regions of their own, and each one has readable metadata whose
    signature leads back to it.  The conditions: an insertion or a reservation is made while the
    process has no region, with spare blocks for the deletions that make room for it
    ([spare_for]), before 2038, and of a size that XDR can hold; a deletion, an entry or a discard with four
    spare blocks; the cursor of a reader is a time and its function changes no
    product; the product of a signature that is searched for is in the time queue, and the
    search begins at a valid time ([sig_ok]); what is written to a
    reserved region is the metadata of its signature ([fill_ok]). *)
Theorem pq_reachable_wf {Grants : SystemGrants W} {Wr : Writer W} {WL : WriterLaws W} c sh g mode pflags align initialsz n w q0 c' q :
  args_ok c pflags n → 0 ≤ align ≤ 2 ^ 28 → 0 ≤ initialsz ≤ 2 ^ 60 →
  pq_create c sh g mode pflags align initialsz n w = Ok (inr q0, c') → rtc pq_step q0 q →
  ∃ G, pq_out q G ∧ StronglySorted entry_lt (pq_queue q G) ∧ NoDup (pq_queue q G).*2 ∧
    ∀ tv o, (tv, o) ∈ pq_queue q G → ∃ info, prod_at q G o info ∧ pq_sigs q G !! pi_signature info = Some o.
Proof.
  intros Hargs Hal Hsz Hrun Hsteps.
  destruct (pq_create_spec c sh g mode pflags align initialsz n w Hargs Hal Hsz)
    as (q1 & c1 & G1 & Hrun1 & Hid & _ & Hel & _).
  rewrite Hrun in Hrun1. injection Hrun1 as <- _.
  assert (pq_wf q0) as Hwf by (by exists G1; split; [exact Hid|]). clear Hrun Hid Hel.
  assert (pq_wf q) as (G & Hout & _) by (induction Hsteps as [|x y z Hxy _ IH]; [done|apply IH; exact (pq_step_wf _ _ Hwf Hxy)]).
  pose proof (po_inv _ _ Hout) as Hinv. exists G. split; [done|]. split; [exact (queue_sorted q G Hinv)|].
  split; [apply (pv_offs _ _ Hinv)|]. intros tv o Hin.
  destruct (pv_prods _ _ Hinv _ Hin) as (e & info & H1 & H2 & H3 & _). exists info. split; [by exists e|done].
Qed.

(** C33: the last product of a class.  When the system refuses nothing, the process has
    no product and no product was created after the second of its insertion,
    [pq_clss_setfrom()] ends, and sets the beginning of the class to the
    creation-time of the last product of the class that was inserted before the end of
    the class; that the search stops early misses none.  The class is unchanged and
    [PQ_END] is returned exactly when there is none or it was created at the beginning
    of the class.  The cursor is cleared and the queue is as before. *)
Theorem pq_clss_setfrom_correct q G c :
  pq_idle q G → ¬ refused W → class_wf c → cursor_time (cl_to c) → TV_CMP_LE (cl_from c) (cl_to c) = true →
  on_time q G →
  ∃ r q', first_match (CAt c) q G (rev (abs_before (cl_to c) (pq_queue q G))) r ∧
    pq_clss_setfrom q c = Ok (setfrom_result c r, q') ∧ pq_idle q' G ∧ kept q q' ∧ pq_cursor q' = TS_NONE.
Proof. apply pq_clss_setfrom_spec. Qed.

(** C34: accounting.  Outside of a critical section [pq_stats()] and [pq_fext_dump()]
    report, unless the system refuses, the number of products and the bytes that they
    take, and the extents of the free regions in ascending order (the assertion in
    the loop never fails): the greatest one is the last one, and together with the
    bytes in use they are the whole of the data segment; the slots in use, free and
    empty are all slots.  The age is that of the first product of the queue. *)
Theorem pq_stats_correct q G age :
  pq_out q G →
  report q G (stats_ok q G age) (pq_stats q age) ∧ report q G (free_extents q G) (pq_fext_dump q).
Proof. intros Hout. split; [by apply pq_stats_spec|by apply pq_fext_dump_spec]. Qed.
End thms.

(** ** Witnesses *)

#[local] Existing Instance prefix_regex.

Lemma recorder_calm : calm (recorder (W:=world)).
Proof. done. Qed.

Lemma ex_cursor_ok (q : pqueue world) mt : pq_cursor q = TS_NONE → mt ≠ TV_EQ → cursor_ok q mt.
Proof. intros Hcur Hmt. by split; [rewrite Hcur|]. Qed.

(** The signature of the product, and the search for it an hour before. *)
Definition ex_sig : signaturet := pi_signature (p_info ex_product).

Lemma ex_sig_ok (q : pqueue world) G : readable q G ex_product → sig_ok q G 3600 ex_sig.
Proof.
  intros (tv & o & e & Hin & Hreg & Hsig & Hinfo) o' Hsig'. assert (o' = o) as -> by (unfold ex_sig in Hsig'; congruence).
  split; [by apply (list_elem_of_fmap_2 snd) in Hin|]. intros info (e' & Hreg' & Hinfo').
  assert (e' = e) as -> by congruence. assert (info = p_info ex_product) as -> by congruence. done.
Qed.

Lemma pq_sequence_correct_witness :
  ∃ q G, ex_inserted = Ok q ∧
    seq_result q G TS_ZERO TV_GT (CAt ex_class) recorder [] true
      (pq_sequenceLock q TV_GT (CAt ex_class) (Some recorder) []).
Proof.
  destruct ex_inserted_spec as (q & G & Hq & Hid & _ & _ & _ & _ & _ & Hcur & _). exists q, G. split; [assumption|].
  assert (seq_cursor q TV_GT = TS_ZERO) as <- by (unfold seq_cursor; rewrite Hcur; reflexivity).
  apply (pq_sequence_correct q G TV_GT (CAt ex_class) recorder [] Hid (ex_cursor_ok q TV_GT Hcur ltac:(discriminate))
    ex_class_wf recorder_calm).
Defined.

Lemma pq_sequence_visits_all_witness :
  ∃ q G l q', ex_inserted = Ok q ∧ seq_all (CAt ex_class) (S (length (pq_queue q G))) q TV_LT [] = Ok (l, q') ∧
    visits (CAt ex_class) q G (rev (pq_queue q G)) l ∧ pq_idle q' G ∧ kept q q'.
Proof.
  destruct ex_inserted_spec as (q & G & Hq & Hid & _ & _ & _ & _ & _ & Hcur & _). exists q, G.
  destruct (pq_sequence_visits_all q G (CAt ex_class) TV_LT Hid ex_class_wf world_not_refused Hcur ltac:(discriminate))
    as (l & q' & H). exists l, q'. split; [assumption|exact H].
Defined.

Lemma pq_setCursorFromSignature_correct_witness :
  ∃ q G, ex_inserted = Ok q ∧ setcursor_post q G ex_sig (pq_setCursorFromSignature q 3600 ex_sig).
Proof.
  destruct ex_inserted_spec as (q & G & Hq & Hid & _ & _ & _ & _ & Hread & _). exists q, G. split; [assumption|].
  exact (pq_setCursorFromSignature_correct q G 3600 ex_sig Hid (ex_sig_ok q G Hread)).
Defined.

Lemma pq_deleteBySignature_correct_witness :
  ∃ q G, ex_inserted = Ok q ∧ delete_post q G ex_sig (pq_deleteBySignature q 3600 ex_sig).
Proof.
  destruct ex_inserted_spec as (q & G & Hq & Hid & Hwr & _ & _ & Hsp & Hread & _). exists q, G. split; [assumption|].
  exact (pq_deleteBySignature_correct q G 3600 ex_sig Hid Hwr Hsp (ex_sig_ok q G Hread)).
Defined.

Lemma pq_processProduct_correct_witness :
  ∃ q G, ex_inserted = Ok q ∧ process_post q G ex_sig recorder [] (pq_processProduct q ex_sig recorder []).
Proof.
  destruct ex_inserted_spec as (q & G & Hq & Hid & _ & _ & _ & _ & Hread & _). exists q, G. split; [assumption|].
  apply (pq_processProduct_correct q G ex_sig recorder [] Hid recorder_calm).
  intros o Ho. exact (proj1 (ex_sig_ok q G Hread o Ho)).
Defined.

(** The product is locked. *)
Definition ex_locked : res (Z * option Z * list prod_info * pqueue world) :=
  let! q := ex_inserted in pq_sequenceLock q TV_GT CAll (Some recorder) [].

Lemma ex_locked_eq :
  ex_locked = let! q := ex_inserted in pq_sequenceLock q TV_GT CAll (Some recorder) [].
Proof. reflexivity. Qed.

Lemma ex_locked_run :
  (let! '(st, o, a, q) := ex_locked in Ok (st, bool_decide (o = None), a, rl_nelems (pq_rl q))) =
  Ok (0, false, [ex_info], 1).
Proof. vm_compute. reflexivity. Qed.

#[local] Opaque ex_locked.

Lemma ex_locked_spec :
  ∃ q G o a q1, ex_inserted = Ok q ∧ pq_idle q G ∧ pq_cursor q = TS_NONE ∧ rl_nelems (pq_rl q1) = 1 ∧
    pq_sequenceLock q TV_GT CAll (Some recorder) [] = Ok (0, Some o, a, q1).
Proof.
  destruct ex_inserted_spec as (q & G & Hq & Hid & _ & _ & _ & _ & _ & Hcur & _). pose proof ex_locked_run as Hrun.
  rewrite ex_locked_eq, Hq, bind_Ok in Hrun.
  destruct (pq_sequenceLock q TV_GT CAll (Some recorder) []) as [[[[st o] a] q1]|] eqn:Hl; [|discriminate Hrun].
  rewrite bind_Ok in Hrun. injection Hrun as -> Ho _ Hn. destruct o as [o|]; [|discriminate Ho].
  exists q, G, o, a, q1. split; [exact Hq|]. split; [exact Hid|]. split; [exact Hcur|]. split; [exact Hn|exact Hl].
Qed.

Lemma pq_lock_release_roundtrip_witness :
  ∃ q G o q1, ex_inserted = Ok q ∧
    ∃ tv G1 q2, abs_find (seq_cursor q TV_GT) TV_GT (pq_queue q G) = Some (tv, o) ∧ pq_cursor q1 = tv ∧
    pq_out q1 G1 ∧ pq_busy q1 G1 o = true ∧ pq_locked_count q1 = pq_locked_count q + 1 ∧
    pq_release q1 o = Ok (0, q2) ∧ pq_out q2 G ∧ kept q q2 ∧ pq_locked_count q2 = pq_locked_count q ∧
    pq_release q2 o = Ok (PQ_NOTFOUND, q2).
Proof.
  destruct ex_locked_spec as (q & G & o & a & q1 & Hq & Hid & Hcur & _ & Hl). exists q, G, o, q1. split; [assumption|].
  exact (pq_lock_release_roundtrip q G TV_GT CAll recorder [] o a q1 Hid
    (ex_cursor_ok q TV_GT Hcur ltac:(discriminate)) I recorder_calm world_not_refused Hl).
Defined.

(** The only product of the queue is locked, and the cursor is at it. *)
Lemma ex_locked_again :
  ∃ q1 G1 tv o, pq_out q1 G1 ∧ cursor_ok q1 TV_EQ ∧
    abs_find (seq_cursor q1 TV_EQ) TV_EQ (pq_queue q1 G1) = Some (tv, o) ∧
    o ∈ held (g_rs G1) ∧ rl_nelems (pq_rl q1) ≤ Z.of_nat (length (g_rs G1)).
Proof.
  destruct ex_locked_spec as (q & G & o & a & q1 & Hq & Hid & Hcur & Hn & Hl).
  pose proof (pq_sequenceHelper_spec q G TV_GT CAll recorder [] true Hid
    (ex_cursor_ok q TV_GT Hcur ltac:(discriminate)) I recorder_calm) as Hres.
  unfold pq_sequenceLock in Hl. rewrite Hl in Hres. clear Hl Hq. inversion Hres; subst; [naive_solver|].
  match goal with H : moved q tv o _ q1, H' : pq_out q1 ?G1, H2 : abs_find _ _ _ = Some _ |- _ =>
    rename H into Hmv, H' into Hout1, H2 into Hf; exists q1, G1, tv, o end.
  assert ((tv, o) ∈ pq_queue q G) as Hin.
  { simpl in Hf. apply head_Some_elem_of in Hf. by apply list_elem_of_filter in Hf as [_ ?]. }
  destruct (queue_time q G _ (id_inv _ _ Hid) Hin) as (Hv & Hpos & Hlt). cbn [fst] in Hv, Hpos, Hlt.
  assert (pq_cursor q1 = tv ∧ pq_sh q1 = pq_sh q) as [Hc Hsh] by by destruct Hmv as (? & ? & _ & ->).
  assert (tv ≠ TS_NONE ∧ tv ≠ TS_ENDT) as [Hnn Hne].
  { split; intros ->; [by destruct Hv|discriminate Hlt]. }
  split; [exact Hout1|]. split.
  { split; rewrite Hc; [by apply (ltb_asym TV_CMP_LT)|done]. }
  split; [|split].
  - unfold seq_cursor, tvIsNone. rewrite Hc. destruct (TV_CMP_EQ tv TS_NONE) eqn:He; [by apply TV_CMP_EQ_eq in He|].
    pose proof (queue_sorted q G (id_inv _ _ Hid)) as Hs. unfold pq_queue in *. rewrite Hsh. simpl.
    apply list_elem_of_split in Hin as (X & Y & HXY). rewrite HXY in Hs |- *.
    destruct (abs_at _ _ _ Hs) as (_ & _ & Hat). cbn [fst] in Hat. by rewrite Hat.
  - simpl. unfold held. rewrite fmap_app. set_solver.
  - simpl. rewrite length_app, Hn. simpl. lia.
Qed.

Lemma pq_sequence_all_held_witness :
  ∃ q1 : pqueue world, pq_sequence q1 TV_EQ CAll (Some recorder) [] = Err AssertFail.
Proof.
  destruct ex_locked_again as (q1 & G1 & tv & o & Hout & Hcur & Hf & Hh & Hn). exists q1.
  exact (pq_sequence_all_held q1 G1 TV_EQ CAll recorder [] tv o Hout Hcur I recorder_calm world_not_refused Hf Hh Hn).
Defined.

(** A product is inserted, and a reader takes and keeps it. *)
Lemma ex_reaches :
  ∃ q0 c' q, ex_create = Ok (inr q0, c') ∧ rtc pq_step q0 q ∧ pq_locked_count q = 1.
Proof.
  destruct ex_create_spec as (q0 & c' & G & Hc & Hid & Hwr & Hel & Hsp & _ & Hn & Hal & _).
  destruct ex_locked_spec as (q & G' & o & a & q1 & Hq & Hid' & Hcur & _ & Hl).
  exists q0, c', q1. split; [exact Hc|].
  assert (ex_created = Ok q0) as Hq0 by (rewrite ex_created_eq, Hc, bind_Ok; reflexivity).
  pose proof Hq as Hins. rewrite ex_inserted_eq, Hq0, bind_Ok in Hins.
  apply bind_inv in Hins as ([st q'] & Hrun & Hins). apply bind_inv in Hins as (? & _ & [= ->]).
  assert (rul_nelems (pq_riul q0) = 0) as Hz.
  { rewrite (ui_nelems _ _ (pv_riul _ _ (id_inv _ _ Hid))), (id_rs _ _ Hid). reflexivity. }
  assert (before_endt (W:=world) (pq_nalloc q0)) as Ht by (rewrite Hn; apply world_time; lia).
  split.
  - eapply rtc_l; [exact (step_insert q0 _ _ _ Hz (spare_ok_for _ _ Hsp) Ht ex_product_ok (ex_size q0 Hal) Hrun)|].
    apply rtc_once. exact (step_sequenceLock q _ TV_GT CAll recorder [] _ _ _ _
      (ex_cursor_ok q TV_GT Hcur ltac:(discriminate)) I recorder_calm Hl).
  - assert ((let! '(_, _, _, q) := ex_locked in Ok (pq_locked_count q)) = Ok 1) as Hone by (vm_compute; reflexivity).
    rewrite ex_locked_eq, Hq, bind_Ok, Hl, bind_Ok in Hone. by injection Hone.
Qed.

Lemma pq_reachable_wf_witness :
  ∃ q G, pq_locked_count q = 1 ∧ pq_out (W:=world) q G ∧ StronglySorted entry_lt (pq_queue q G) ∧ NoDup (pq_queue q G).*2 ∧
    ∀ tv o, (tv, o) ∈ pq_queue q G → ∃ info, prod_at q G o info ∧ pq_sigs q G !! pi_signature info = Some o.
Proof.
  destruct ex_reaches as (q0 & c' & q & Hc & Hsteps & Hl). exists q. rewrite ex_create_eq in Hc.
  destruct (pq_reachable_wf sizes_init ex_shared rng_init 438 0 4096 65536 16 (World ∅ 0) q0 c' q ex_args
    ltac:(lia) ltac:(lia) Hc Hsteps) as (G & H). exists G. split; [exact Hl|exact H].
Defined.

(** The product was inserted in the second of its creation. *)
Lemma ex_on_time (q : pqueue world) G :
  ex_inserted = Ok q → pq_idle q G → elems_ok q G → readable q G ex_product → on_time q G.
Proof.
  intros Hq Hid Hel (tv & o & e & Hin & Hreg & _ & Hinfo).
  destruct (pq_getOldestCursor_spec q G Hid) as (st & ob & q1 & Hold & _ & _ & Hob).
  destruct (pq_stats_spec q G false Hid) as (st' & ob' & q2 & Hst & _ & _ & Hob').
  assert ((let! q := ex_inserted in let! '(_, t, _) := pq_getOldestCursor q in
           let! '(_, s, _) := pq_stats q false in Ok (tv_sec <$> t, ps_nprods <$> s)) =
          Ok (Some 1700000000, Some 1)) as Hrun by (vm_compute; reflexivity).
  rewrite Hq, bind_Ok, Hold, bind_Ok, Hst, bind_Ok in Hrun. clear Hq Hold Hst.
  destruct Hob as [(_ & t & -> & Ht)|(_ & -> & _)]; [|discriminate Hrun].
  destruct Hob' as [(_ & s & -> & Hs)|(_ & -> & _)]; [|discriminate Hrun].
  injection Hrun as Hsec Hn. destruct Hs as (Hs & _). rewrite Hn in Hs. unfold oldest_time in Ht. unfold elems_ok in Hel.
  assert (size (pq_regions q G) = 1%nat) as Hone by lia. rewrite Hone in Hel.
  assert (pq_queue q G = [(tv, o)]) as HQ.
  { destruct (pq_queue q G) as [|p [|p' l]]; simpl in Hel; [set_solver|set_solver|lia]. }
  rewrite HQ in Ht. simpl in Ht. subst t. intros tv' o' info' Hin' (e' & Hreg' & Hinfo').
  rewrite HQ, list_elem_of_singleton in Hin'. injection Hin' as -> ->.
  assert (e' = e) as -> by congruence. assert (info' = ex_info) as -> by (rewrite Hinfo in Hinfo'; by injection Hinfo').
  rewrite Hsec. split; [by left|done].
Qed.

(** The same specifications, at any time. *)
Definition ex_any : prod_class := Class_ TS_ZERO TS_ENDT (psa_len ex_class) (psa_val ex_class).

Lemma pq_clss_setfrom_correct_witness :
  ∃ q G r q', ex_inserted = Ok q ∧ first_match (CAt ex_any) q G (rev (abs_before TS_ENDT (pq_queue q G))) r ∧
    pq_clss_setfrom q ex_any = Ok (setfrom_result ex_any r, q') ∧ pq_idle q' G ∧ kept q q' ∧ pq_cursor q' = TS_NONE.
Proof.
  destruct ex_inserted_spec as (q & G & Hq & Hid & _ & Hel & _ & _ & Hread & _). exists q, G.
  destruct (pq_clss_setfrom_correct q G ex_any Hid world_not_refused ex_class_wf) as (r & q' & H).
  - unfold cursor_time, ex_any, TS_ENDT. simpl. lia.
  - reflexivity.
  - exact (ex_on_time q G Hq Hid Hel Hread).
  - exists r, q'. split; [assumption|exact H].
Defined.

Lemma pq_stats_correct_witness :
  ∃ q G, ex_inserted = Ok q ∧ report q G (stats_ok q G true) (pq_stats q true) ∧
    report q G (free_extents q G) (pq_fext_dump q).
Proof.
  destruct ex_inserted_spec as (q & G & Hq & Hid & _). exists q, G. split; [assumption|].
  exact (pq_stats_correct q G true Hid).
Defined.
