(* ===== verification/PqEntryThms.v ===== *)
(** * Theorems about reserved regions

    The properties of [pqe_newDirect()], [pqe_insert()] and [pqe_discard()], with
    witnesses on the queue of PqExample.v. *)

From stdpp Require Import strings.
From S2P Require Import Prelude Timestamp NumTheory Fb SkipList TimeQueue RegionList RegionHash.
From S2P Require Import RegionAlloc RegionThms SigIndex Riul Sizes PqShare PqCore Xlen ProdClass PqOps PqCtl.
From S2P Require Import PqRead PqEntry PqInv PqAccess PqDelete PqRoom PqSession PqInsert PqReserved PqMake PqExample.

#[local] Opaque ex_create ex_created ex_inserted.

Section thms.
Context {W : Type} {Sys : System W} {Laws : SystemLaws W}.
Implicit Types (q : pqueue W) (G : ghost) (w : W).

(** C13: reserving a region.  On a queue that is idle and has enough spare blocks
    for the deletions that make room ([spare_for]), [pqe_newDirect()] takes one step of the abstract reservation: the region is too big
    for the queue, the queue is read-only, the signature is there already, there is no
    room although nothing is left to delete, or a region of at least that size is
    entered with the signature, locked for writing and counted, after oldest
    products were deleted, each while there was no room; no other product is touched.
    An assertion can fail only when the system refuses the lock on the region. *)
Theorem pqe_newDirect_correct q G size sig :
  pq_idle q G → elems_ok q G → spare_for q size → 0 < size →
  2 * (size + ctl_align (pq_ctl q)) + PQ_FRAGMENT_HEURISTIC < 2 ^ 32 →
  (pqe_newDirect q size sig = Err AssertFail ∧ refused W) ∨
  ∃ st out q', pqe_newDirect q size sig = Ok (st, out, q') ∧
    if pq_getDataSize q <? size then st = PQ_BIG ∧ out = None ∧ q' = q
    else if fIsSet (pq_pflags q) PQ_READONLY then st = EACCES ∧ out = None ∧ q' = q
    else reserve_post q G size sig st out q'.
Proof. apply pqe_newDirect_spec. Qed.

(** C14: entering a product in its region.  [pqe_insert()] of a reserved region ends:
    when the metadata cannot be decoded or the product is larger than the region, it
    is rejected with [PQ_CORRUPT] or [PQ_BIG] and the region is freed; otherwise the
    product is entered at the first free time from what the clock says when the control
    block has been locked, with the region and the signature as
    they were.  Only when the system refuses a request is [PQ_SYSTEM] returned; the region and
    the signature then remain although no process has the region any more and it is not in
    the time queue. *)
Theorem pqe_insert_correct q G sig o e b :
  reserved q G sig o e → before_endt (pq_nalloc q) → fill_ok q sig o e → 4 ≤ fb_spare (pq_fb q) →
  ∃ st q', pqe_insert q (PqeIndex o sig b) = Ok (st, q') ∧ pqe_insert_post q G sig o e st q'.
Proof. intros Hv Ht Hf Hsp. by apply pqe_insert_spec. Qed.

(** C15: reserving and discarding.  After [pqe_newDirect()] has reserved a region, and
    whatever the process has written to its bytes, [pqe_discard()] undoes the reservation when
    the system refuses nothing: the region and the signature are gone, the process has
    no region, the count is the same, and nothing differs but that oldest
    products may have been deleted to make room. *)
Theorem pqe_discard_roundtrip q G size sig vp index q1 w :
  pq_idle q G → elems_ok q G → spare_for q size → 0 < size →
  2 * (size + ctl_align (pq_ctl q)) + PQ_FRAGMENT_HEURISTIC < 2 ^ 32 → ¬ refused W →
  pqe_newDirect q size sig = Ok (0, Some (vp, index), q1) →
  filled q1 (px_offset index) size w →
  ∃ q2 G2, pqe_discard (set_sys q1 w) index = Ok (0, q2) ∧ pq_idle q2 G2 ∧
    evicted size (pq_abs q G) (pq_abs q2 G2) ∧ pqe_get_count q2 = pqe_get_count q.
Proof.
  intros Hid Hel Hsp Hpos Hsz Hrf Hrun Hfill.
  destruct (pqe_newDirect_spec q G size sig Hid Hel Hsp Hpos Hsz) as [[Hr _]|(st & out & q' & Hr & Hpost)];
    rewrite Hr in Hrun; [done|]. injection Hrun as -> -> ->.
  destruct (_ <? _); [by destruct Hpost|]. destruct (fIsSet _ _); [by destruct Hpost|].
  destruct Hpost as [(_ & s1 & G1 & o & e & [= _ ->] & Hv & Hle & Hfr & Hev & Hnew & Habs & Hcnt & Hsp1)|[? _]]; [|done].
  assert (filled q1 o e w) as Hfill' by (intros p n Hp; apply Hfill; simpl; lia).
  pose proof (reserved_fill q1 G1 sig o e w Hv Hfill') as Hv'.
  destruct (pqe_discard_spec (set_sys q1 w) G1 sig o e true Hv' Hsp1) as (st & q2 & Hd & G2 & Hid2 & _ & Hc).
  destruct Hc as [(-> & Hcfg & Ha)|(_ & ? & _)]; [|done]. exists q2, G2. split; [exact Hd|]. split; [exact Hid2|].
  assert (pq_abs q2 G2 = s1) as ->.
  { rewrite Ha. change (pq_abs (set_sys q1 w) G1) with (pq_abs q1 G1). rewrite Habs. apply store_remove_add; [done|].
    destruct Hev as (_ & _ & Hs & _). apply eq_None_not_Some. intros [x Hx]. apply (lookup_weaken _ _ _ _ Hx) in Hs.
    rewrite Hfr in Hs. done. }
  split; [exact Hev|]. unfold pqe_get_count. unfold pq_cfg in Hcfg, Hcnt. simpl in Hcfg, Hcnt.
  assert (pq_pqe_count q1 = pq_pqe_count q + 1) by congruence.
  replace (pq_pqe_count q2) with (pq_pqe_count q1 - 1) by congruence. lia.
Qed.

(** C17: reserving a region for a product whose size is known.  [pqe_new()] refuses a
    product of no data, one whose data is larger than the whole data section, and any
    on a read-only queue; otherwise it takes the step of the abstract reservation for
    the metadata and the data together, and the address that it returns
    comes after the encoded metadata. *)
Theorem pqe_new_correct {Wr : Writer W} {WL : WriterLaws W} q G info :
  pq_idle q G → elems_ok q G → spare_for q (xlen_prod_i info) → info_wf info →
  2 * (xlen_prod_i info + ctl_align (pq_ctl q)) + PQ_FRAGMENT_HEURISTIC < 2 ^ 32 →
  (pqe_new q info = Err AssertFail ∧ refused W) ∨
  ∃ st out q', pqe_new q info = Ok (st, out, q') ∧
    if pi_sz info =? 0 then st = EINVAL ∧ out = None ∧ q' = q
    else if pq_getDataSize q <? pi_sz info then st = PQ_BIG ∧ out = None ∧ q' = q
    else if fIsSet (pq_pflags q) PQ_READONLY then st = EACCES ∧ out = None ∧ q' = q
    else new_post q G info st out q'.
Proof. apply pqe_new_spec. Qed.

(** C19: a product that cannot fit empties the queue.  [pqe_new()] compares the size of
    the data alone with the size of the data section: when the data would fit but the
    metadata and the data together do not, and the system refuses nothing, every product of the queue is
    deleted to make room before the call fails. *)
Theorem pqe_new_oversize {Wr : Writer W} {WL : WriterLaws W} q G info :
  pq_idle q G → elems_ok q G → spare_ok q → pq_writable q → info_wf info → ¬ refused W →
  2 * (xlen_prod_i info + ctl_align (pq_ctl q)) + PQ_FRAGMENT_HEURISTIC < 2 ^ 32 →
  0 < pi_sz info ≤ pq_getDataSize q → pq_getDataSize q < xlen_prod_i info →
  pq_sigs q G !! pi_signature info = None →
  ∃ st q' G', pqe_new q info = Ok (st, None, q') ∧ (st = EACCES ∨ st = ENOMEM) ∧
    pq_idle q' G' ∧ pq_queue q' G' = [].
Proof. apply pqe_new_oversize_spec. Qed.
End thms.

(** ** Witnesses *)

(** A region of 68 bytes is reserved in the new queue, and the metadata of the product
    is written to it. *)
Definition ex_reserved : res (Z * option (Z * pqe_index) * pqueue world) :=
  let! q := ex_created in pqe_newDirect q 68 (pi_signature ex_info).

Lemma ex_reserved_eq : ex_reserved = let! q := ex_created in pqe_newDirect q 68 (pi_signature ex_info).
Proof. reflexivity. Qed.

Lemma ex_reserved_run :
  (let! '(st, out, q) := ex_reserved in
   Ok (st, bool_decide (out = None), 4 <=? fb_spare (pq_fb q), pq_nalloc q)) = Ok (0, false, true, 16).
Proof. vm_compute. reflexivity. Qed.

#[local] Opaque ex_reserved.

Definition ex_written (vp : Z) (w : world) : world := World (<[vp := ex_info]> (wd_mem w)) (wd_size w).

Lemma ex_reserved_spec :
  ∃ q G o q1 G1 e, ex_created = Ok q ∧ pq_idle q G ∧ elems_ok q G ∧ spare_ok q ∧ ctl_align (pq_ctl q) ≤ 2 ^ 28 ∧
    pqe_newDirect q 68 (pi_signature ex_info) =
      Ok (0, Some (pq_base q1 + o, PqeIndex o (pi_signature ex_info) true), q1) ∧
    reserved q1 G1 (pi_signature ex_info) o e ∧ 68 ≤ e ∧ 4 ≤ fb_spare (pq_fb q1) ∧ pq_nalloc q1 = 16.
Proof.
  destruct ex_created_idle as (q & G & Hq & Hid & Hwr & Hel & Hsp & _ & _ & Hal & Hsz).
  pose proof ex_reserved_run as Hrun. rewrite ex_reserved_eq, Hq, bind_Ok in Hrun.
  destruct (pqe_newDirect_spec q G 68 (pi_signature ex_info) Hid Hel (spare_ok_for _ _ Hsp) ltac:(lia)) as [[Hr _]|(st & out & q1 & Hr & Hpost)].
  - unfold PQ_FRAGMENT_HEURISTIC. lia.
  - rewrite Hr in Hrun. discriminate Hrun.
  - rewrite Hr, bind_Ok in Hrun. injection Hrun as -> _ Hsp1 Hn.
    rewrite (proj2 (Z.ltb_ge _ _)), Hwr in Hpost by lia.
    destruct Hpost as [(_ & s1 & G1 & o & e & -> & Hv & He & _)|[H _]]; [|by destruct H].
    exists q, G, o, q1, G1, e. split; [exact Hq|]. split; [exact Hid|]. split; [exact Hel|]. split; [exact Hsp|].
    split; [exact Hal|]. split; [exact Hr|]. split; [exact Hv|]. split; [exact He|]. split; [lia|exact Hn].
Qed.

Lemma ex_written_filled (q : pqueue world) o : filled q o 68 (ex_written (pq_base q + o) (pq_sys q)).
Proof.
  intros vp n Hd. simpl. destruct (Z.ltb_spec 0 n); [|done]. by rewrite lookup_insert_ne by lia.
Qed.

Lemma ex_written_ok (q : pqueue world) o e :
  fill_ok (set_sys q (ex_written (pq_base q + o) (pq_sys q))) (pi_signature ex_info) o e.
Proof.
  intros info k. simpl. rewrite lookup_insert_eq. destruct (0 <? e); [|done]. intros [= <- <-].
  split; [done|]. vm_compute. done.
Qed.

Lemma pqe_newDirect_correct_witness :
  ∃ (q : pqueue world) G st out q', ex_created = Ok q ∧
    pqe_newDirect q 68 (pi_signature ex_info) = Ok (st, out, q') ∧
    reserve_post q G 68 (pi_signature ex_info) st out q'.
Proof.
  destruct ex_created_idle as (q & G & Hq & Hid & Hwr & Hel & Hsp & _ & _ & Hal & Hsz).
  destruct (pqe_newDirect_correct q G 68 (pi_signature ex_info) Hid Hel (spare_ok_for _ _ Hsp)) as [[_ H]|(st & out & q' & H1 & H2)];
    [lia|unfold PQ_FRAGMENT_HEURISTIC; lia|destruct (world_not_refused H)|].
  exists q, G, st, out, q'. split; [exact Hq|]. split; [exact H1|].
  rewrite (proj2 (Z.ltb_ge _ _)), Hwr in H2 by lia. exact H2.
Defined.

Lemma pqe_insert_correct_witness :
  ∃ (q : pqueue world) G o e st q', reserved q G (pi_signature ex_info) o e ∧
    pqe_insert q (PqeIndex o (pi_signature ex_info) true) = Ok (st, q') ∧
    pqe_insert_post q G (pi_signature ex_info) o e st q'.
Proof.
  destruct ex_reserved_spec as (q & G & o & q1 & G1 & e & _ & _ & _ & _ & _ & _ & Hv & He & Hsp & Hn).
  set (q2 := set_sys q1 (ex_written (pq_base q1 + o) (pq_sys q1))).
  assert (reserved q2 G1 (pi_signature ex_info) o e) as Hv2.
  { apply (reserved_fill q1 G1 _ o e _ Hv). intros p n Hp. apply (ex_written_filled q1 o). lia. }
  assert (before_endt (W:=world) (pq_nalloc q2)) as Ht by (change (pq_nalloc q2) with (pq_nalloc q1); rewrite Hn; apply world_time; lia).
  destruct (pqe_insert_correct q2 G1 (pi_signature ex_info) o e true Hv2 Ht (ex_written_ok q1 o e) Hsp) as (st & q' & H).
  exists q2, G1, o, e, st, q'. split; [exact Hv2|exact H].
Defined.

Lemma pqe_discard_roundtrip_witness :
  ∃ (q : pqueue world) G index q1 q2 G2, ex_created = Ok q ∧ pqe_discard q1 index = Ok (0, q2) ∧ pq_idle q2 G2 ∧
    evicted 68 (pq_abs q G) (pq_abs q2 G2) ∧ pqe_get_count q2 = pqe_get_count q.
Proof.
  destruct ex_reserved_spec as (q & G & o & q1 & G1 & e & Hq & Hid & Hel & Hsp & Hal & Hrun & Hv & He & Hsp1 & Hn).
  destruct (pqe_discard_roundtrip q G 68 (pi_signature ex_info) _ _ q1 (ex_written (pq_base q1 + o) (pq_sys q1))
    Hid Hel (spare_ok_for _ _ Hsp) ltac:(lia) ltac:(unfold PQ_FRAGMENT_HEURISTIC; lia) world_not_refused Hrun (ex_written_filled q1 o))
    as (q2 & G2 & H).
  eexists q, G, _, _, q2, G2. split; [assumption|exact H].
Defined.

Lemma ex_info_wf : info_wf ex_info.
Proof. split; vm_compute; done. Qed.

Lemma pqe_new_correct_witness :
  ∃ (q : pqueue world) G st out q', pqe_new q ex_info = Ok (st, out, q') ∧ new_post q G ex_info st out q'.
Proof.
  destruct ex_created_idle as (q & G & Hq & Hid & Hwr & Hel & Hsp & _ & _ & Hal & Hsz).
  assert (xlen_prod_i ex_info = 68) as Hx by (vm_compute; reflexivity).
  destruct (pqe_new_correct q G ex_info Hid Hel (spare_ok_for _ _ Hsp)) as [[_ H]|(st & out & q' & H1 & H2)].
  - exact ex_info_wf.
  - rewrite Hx. unfold PQ_FRAGMENT_HEURISTIC. lia.
  - by destruct world_not_refused.
  - exists q, G, st, out, q'. split; [exact H1|]. change (pi_sz ex_info) with 3 in H2. cbn [Z.eqb] in H2.
    rewrite (proj2 (Z.ltb_ge _ _)), Hwr in H2 by lia. exact H2.
Defined.

(** Metadata of a product with as much data as the queue has bytes. *)
Definition ex_big (n : Z) : prod_info :=
  ProdInfo (Timestamp 1700000000 5) (replicate 16 8) "host.edu"%string 1 2 "SAUS41 KWBC"%string n.

Lemma ex_big_wf n : 0 ≤ n < 2 ^ 32 → info_wf (ex_big n).
Proof. intros Hn. split; simpl; [done..|]. rewrite length_replicate. lia. Qed.

Lemma ex_inserted_size :
  (let! q := ex_inserted in Ok (pq_getDataSize q, ctl_align (pq_ctl q))) = Ok (65536, 4096).
Proof. vm_compute. reflexivity. Qed.

Lemma pqe_new_oversize_witness :
  ∃ (q : pqueue world) G st q' G', pq_queue q G ≠ [] ∧ pq_idle q G ∧
    pqe_new q (ex_big (pq_getDataSize q)) = Ok (st, None, q') ∧ (st = EACCES ∨ st = ENOMEM) ∧
    pq_idle q' G' ∧ pq_queue q' G' = [].
Proof.
  destruct ex_inserted_spec as (q & G & Hq & Hid & Hwr & Hel & Hsp & _ & (tv & o & e & Hin & _) & _ & Hsig).
  pose proof ex_inserted_size as Hsz. rewrite Hq, bind_Ok in Hsz. injection Hsz as Hsz Hal.
  assert (xlen_prod_i (ex_big 65536) < 66000) as Hx by (vm_compute; reflexivity).
  destruct (pqe_new_oversize q G (ex_big 65536) Hid Hel Hsp Hwr) as (st & q' & G' & H).
  - apply ex_big_wf. clear. lia.
  - exact world_not_refused.
  - unfold PQ_FRAGMENT_HEURISTIC. lia.
  - rewrite Hsz. simpl. lia.
  - rewrite Hsz. vm_compute. reflexivity.
  - apply Hsig. discriminate.
  - exists q, G, st, q', G'. split; [intros Hnil; rewrite Hnil in Hin; by apply elem_of_nil in Hin|].
    split; [exact Hid|]. rewrite Hsz. exact H.
Defined.
