(* ===== verification/PqThms.v ===== *)
(** * Properties of the product-queue

    The theorems about the queue object as a whole. *)

From S2P Require Import Prelude Timestamp NumTheory Fb SkipList TimeQueue RegionList RegionHash.
From S2P Require Import RegionAlloc RegionThms SigIndex Riul Sizes PqShare PqCore Xlen PqOps PqCtl.
From S2P Require Import PqCreate PqInv PqAccess PqDelete PqRoom PqNew PqReserve PqSession PqInsert PqMake PqExample.

Section props.
Context {W : Type} {Sys : System W} {Laws : SystemLaws W}.
Implicit Types (q : pqueue W) (w : W).

(** C1: insertion.  On a well-formed queue outside of a critical section, with enough
    spare blocks for the deletions that make room ([spare_for]), [pq_insertNoSig()] ends.  A process that may only read is refused with EACCES
    and a product that is larger than the data segment with PQ_BIG.  Otherwise the contents take one of the steps of
    [insert_step]: nothing when a lock or memory is refused or the signature is
    known (PQ_DUP); the oldest products deleted when there is no room and nothing
    is left to delete; or, after such deletions, the product encoded in a free
    region that is large enough and entered under its signature and at the first free
    microsecond from what the clock says after the encoding, from where its metadata is
    read back; or, only when it cannot be encoded, EIO and a region without a product.
    The queue is well formed again and its critical section is left in every case.  Only when
    the system refuses the lock on the new region can an assertion fail instead. *)
Theorem pq_insertNoSig_correct q G prod :
  pq_idle q G → elems_ok q G → spare_for q (xlen_product prod) → before_endt (pq_nalloc q) →
  product_ok prod → size_ok q prod →
  (pq_insertNoSig q prod = Err AssertFail ∧ refused W) ∨
  ∃ st q' G', pq_insertNoSig q prod = Ok (st, q') ∧
    if fIsSet (pq_pflags q) PQ_READONLY then st = EACCES ∧ q' = q
    else if pq_getDataSize q <? xlen_product prod then st = PQ_BIG ∧ q' = q
    else insert_post q G prod st q' G'.
Proof. apply pq_insertNoSig_spec. Qed.

(** C25: eviction.  On a well-formed queue that may be written, with spare blocks, of
    which this process holds no more regions than there are products and one, [pq2_del_oldest()]
    ends.  It deletes the oldest product that neither this process nor another
    one has locked, from the time queue, the region list and the signature index,
    and marks the queue as full; or it changes nothing and returns EACCES when
    every product is locked, or PQ_SYSTEM when the system refuses a request. *)
Theorem pq2_del_oldest_correct q G :
  pq_inv q G → Z.of_nat (length (g_rs G)) ≤ rl_nelems (pq_rl q) + 1 → 4 ≤ fb_spare (pq_fb q) →
  pq_writable q →
  ∃ st q', pq2_del_oldest q = Ok (st, q') ∧ del_oldest_post q G st q'.
Proof. intros Hinv Hcnt Hsp Hwr. by apply del_oldest_spec. Qed.

(** C26: reservation.  In a critical section, with enough spare blocks for the deletions
    that make room ([room_for]), [rpqe_new()] returns PQ_DUP for a known
    signature without a change; otherwise it deletes products, each of them the oldest one that
    is not locked and each while there was no empty slot or no free region of the
    rounded extent ([evictions]), and then either has no room, or reserves a region that was free,
    aligned, within the data segment, as large as asked and not larger by more
    than the alignment, the smallest extent and the fragment heuristic, adds it
    to the regions in use, to the bytes in use and under the signature; or, when the
    system refuses its lock, the region is given back if its index is less than the
    capacity, and the assertion of [rl_put()] fails otherwise. *)
Theorem rpqe_new_correct q G extent sig :
  pq_inv q G → room_for (lacking (rndup64 extent (ctl_align (pq_ctl q)))) q G → g_lb G = [] → 0 < extent < 2 ^ 61 →
  new_post q G extent sig (rpqe_new q extent sig).
Proof. apply rpqe_new_spec. Qed.

(** C28: making room ends.  [rpqe_mkspace()] deletes the oldest products until a free
    region has the extent, which it takes off the free lists; or it stops, with a
    status that is not zero, when no products are left (ENOMEM), all of them are
    locked (EACCES) or the system refuses a request.  When no free region had the extent at
    first, then every deletion was needed. *)
Theorem rpqe_mkspace_correct q G e :
  pq_inv q G → room_ok q G → g_lb G = [] → MIN_RGN_SIZE ≤ e →
  ∃ st ix q' q1 G1, rpqe_mkspace q e = Ok (st, ix, q') ∧ pq_inv q1 G1 ∧
    pq_shrunk q G q1 G1 ∧ g_lb G1 = [] ∧ (no_extent e q G → evictions (no_extent e) q G q1 G1) ∧
    ((st = 0 ∧ ∃ G', pq_got q1 G1 e ix q' G') ∨ (st ≠ 0 ∧ q' = q1 ∧ no_room q1 G1 st)).
Proof.
  intros Hinv Hroom Hlb Hmin.
  destruct (mkspace_spec (λ _ _, True) e (λ _ _ _, I) q G Hinv (room_ok_for _ _ _ Hinv Hroom) I Hlb Hmin)
    as (st & ix & q' & q1 & G1 & H1 & H2 & H3 & H4 & _ & H). exists st, ix, q', q1, G1. auto.
Qed.

(** C29: critical sections.  [ctl_get()] of a queue outside of a critical section, to
    read or, when this is allowed, to write, either fails because the system
    refuses a request and leaves the queue there, or is undone by [ctl_rel()]: the
    queue is outside of a critical section again, with the same contents, settings
    and regions of this process. *)
Theorem ctl_session_roundtrip q G fl :
  pq_out q G → fl = 0 ∨ fl = RGN_WRITE → may q fl →
  ∃ st q1, ctl_get q fl = Ok (st, q1) ∧
    if st =? 0 then
      ∃ st2 q2, ctl_rel q1 fl = Ok (st2, q2) ∧ pq_out q2 G ∧
        pq_cfg q2 = pq_cfg q ∧ pq_sh q2 = pq_sh q ∧ (st2 ≠ 0 → refused W)
    else refused W ∧ pq_out q1 G ∧ pq_cfg q1 = pq_cfg q ∧ pq_sh q1 = pq_sh q.
Proof.
  intros Hout Hfl Hmay. destruct (ctl_get_spec q G fl Hout Hmay Hfl) as (st & q1 & Hrun & w & rl & Hm & Hs).
  exists st, q1. split; [exact Hrun|]. destruct Hs as [(-> & -> & Hrl)|(Hst & Hrf & -> & Hrl)].
  - destruct (leave_spec q fl w rl (g_rs G) (po_sigs _ _ Hout) (po_ptrs _ _ Hout) _ _
      (get_inv q G fl Hout w rl Hm Hrl) eq_refl (po_lb _ _ Hout) (po_rs _ _ Hout) eq_refl fl)
      as (st2 & q2 & Hrel & Hout2 & Hc & Hsh & _ & Hrf & _); [|exact Hmay|].
    + destruct Hfl as [->| ->]; (split_and!; [done..|]); [by left|by right].
    + exists st2, q2. split; [exact Hrel|]. replace G with (with_rs (with_rs G (session q fl (Z.lor fl RGN_NOLOCK) (g_rs G))) (g_rs G)) by by destruct G.
      done.
  - rewrite (proj2 (Z.eqb_neq _ _) Hst). split; [done|]. split; [by apply out_again|]. split; [|done].
    destruct (po_ptrs _ _ Hout) as [H1 H2]. unfold pq_cfg. simpl. congruence.
Qed.

(** C27: creation.  On a system that grants every request, [pq_create()] of a file that
    is mapped as a whole returns a well-formed queue, outside of a critical
    section, that is empty, has at least the asked size and room for the asked
    number of products. *)
Theorem pq_create_correct {Grants : SystemGrants W} c sh g mode pflags align initialsz n w :
  args_ok c pflags n → 0 ≤ align ≤ 2 ^ 28 → 0 ≤ initialsz ≤ 2 ^ 60 →
  ∃ q c' G, pq_create c sh g mode pflags align initialsz n w = Ok (inr q, c') ∧ pq_idle q G ∧
    pq_writable q ∧ elems_ok q G ∧ spare_ok q ∧ pq_abs q G = Store [] ∅ ∅ ∧ pq_nalloc q = n ∧
    ctl_align (pq_ctl q) ≤ 2 ^ 28 ∧ initialsz ≤ pq_getDataSize q.
Proof. apply pq_create_spec. Qed.
End props.

(** ** Witnesses *)

#[local] Opaque ex_create ex_created ex_inserted.

Lemma pq_create_correct_witness :
  ∃ q c' G, pq_create sizes_init ex_shared rng_init 438 0 4096 65536 16 (World ∅ 0) = Ok (inr q, c') ∧
    pq_idle q G ∧ pq_writable q ∧ elems_ok q G ∧ spare_ok q ∧ pq_abs q G = Store [] ∅ ∅ ∧ pq_nalloc q = 16 ∧
    ctl_align (pq_ctl q) ≤ 2 ^ 28 ∧ 65536 ≤ pq_getDataSize q.
Proof.
  apply (pq_create_correct sizes_init ex_shared rng_init 438 0 4096 65536 16 (World ∅ 0) ex_args); lia.
Defined.

Lemma pq_insertNoSig_correct_witness :
  ∃ q G st q' G', ex_created = Ok q ∧ pq_insertNoSig q ex_product = Ok (st, q') ∧
    insert_post q G ex_product st q' G'.
Proof.
  destruct ex_created_idle as (q & G & Hq & Hid & Hwr & Hel & Hsp & _ & Hn & Hal & Hsz).
  assert (xlen_product ex_product < 100) as Hx by (vm_compute; reflexivity).
  destruct (pq_insertNoSig_correct q G ex_product Hid Hel (spare_ok_for _ _ Hsp)) as [[_ H]|(st & q' & G' & H1 & H2)];
    [rewrite Hn; apply world_time; lia|exact ex_product_ok|exact (ex_size q Hal)|destruct (world_not_refused H)|].
  exists q, G, st, q', G'. split; [exact Hq|]. split; [exact H1|].
  rewrite Hwr, (proj2 (Z.ltb_ge _ _)) in H2 by lia. exact H2.
Defined.

Lemma pq2_del_oldest_correct_witness :
  ∃ q G, ex_inserted = Ok q ∧ pq_queue q G ≠ [] ∧
    ∃ st q', pq2_del_oldest q = Ok (st, q') ∧ del_oldest_post q G st q'.
Proof.
  destruct ex_inserted_idle as (q & G & Hq & Hid & Hwr & _ & _ & Hne & Hsp). exists q, G.
  split; [assumption|]. split; [assumption|].
  apply (pq2_del_oldest_correct q G (id_inv _ _ Hid)); [|assumption..].
  rewrite (id_rs _ _ Hid). pose proof (pv_nelems _ _ (id_inv _ _ Hid)). simpl. lia.
Defined.

Lemma ex_room q G : pq_idle q G → spare_ok q → pq_writable q → room_ok q G.
Proof. intros Hid Hsp Hwr. split; [rewrite (id_rs _ _ Hid); simpl; lia|by split]. Qed.

Lemma rpqe_new_correct_witness :
  ∃ q G, ex_inserted = Ok q ∧
    new_post q G 1000 (Some (replicate 16 9)) (rpqe_new q 1000 (Some (replicate 16 9))).
Proof.
  destruct ex_inserted_idle as (q & G & Hq & Hid & Hwr & _ & Hsp & _). exists q, G. split; [assumption|].
  apply (rpqe_new_correct q G 1000 _ (id_inv _ _ Hid) (room_ok_for _ _ _ (id_inv _ _ Hid) (ex_room q G Hid Hsp Hwr)) (po_lb _ _ Hid)). lia.
Defined.

Lemma rpqe_mkspace_correct_witness :
  ∃ q G, ex_inserted = Ok q ∧
  ∃ st ix q' q1 G1, rpqe_mkspace q 65536 = Ok (st, ix, q') ∧ pq_inv q1 G1 ∧
    pq_shrunk q G q1 G1 ∧ g_lb G1 = [] ∧ (no_extent 65536 q G → evictions (no_extent 65536) q G q1 G1) ∧
    ((st = 0 ∧ ∃ G', pq_got q1 G1 65536 ix q' G') ∨ (st ≠ 0 ∧ q' = q1 ∧ no_room q1 G1 st)).
Proof.
  destruct ex_inserted_idle as (q & G & Hq & Hid & Hwr & _ & Hsp & _). exists q, G. split; [assumption|].
  apply (rpqe_mkspace_correct q G 65536 (id_inv _ _ Hid) (ex_room q G Hid Hsp Hwr) (po_lb _ _ Hid)).
  unfold MIN_RGN_SIZE, M_RND_UNIT. lia.
Defined.

Lemma ctl_session_roundtrip_witness :
  ∃ q G, ex_inserted = Ok q ∧ ∃ st q1, ctl_get q RGN_WRITE = Ok (st, q1) ∧
    if st =? 0 then
      ∃ st2 q2, ctl_rel q1 RGN_WRITE = Ok (st2, q2) ∧ pq_out q2 G ∧
        pq_cfg q2 = pq_cfg q ∧ pq_sh q2 = pq_sh q ∧ (st2 ≠ 0 → refused world)
    else refused world ∧ pq_out q1 G ∧ pq_cfg q1 = pq_cfg q ∧ pq_sh q1 = pq_sh q.
Proof.
  destruct ex_inserted_idle as (q & G & Hq & Hid & Hwr & _). exists q, G. split; [assumption|].
  exact (ctl_session_roundtrip q G RGN_WRITE Hid (or_intror eq_refl) (λ _, Hwr)).
Defined.
