(* ===== verification/DownThms.v ===== *)
(** * Theorems about the downstream LDM

    The properties of the modules that a downstream LDM consists of (AutoShift.v,
    ProdInfo.v, XdrData.v, Down6.v) and of sequences of messages to it, with witnesses
    on the queue of PqExample.v. *)

From stdpp Require Import strings.
From S2P Require Import Prelude Timestamp NumTheory Fb SkipList TimeQueue RegionList RegionHash.
From S2P Require Import RegionAlloc RegionThms SigIndex Riul Sizes PqShare PqCore Xlen AutoShift XdrData ProdClass ProdInfo.
From S2P Require Import PqOps PqCtl PqRead PqEntry Down6 PqInv PqAccess PqDelete PqRoom PqNew PqReserve PqSession PqInsert.
From S2P Require Import PqReserved Down6Ok Down6Run PqMake PqExample.

#[local] Opaque ex_create ex_created ex_inserted.

Section metadata.

(** The metadata that a downstream LDM enters.  [dh_setInfo()] never fails on a
    valid buffer and leaves strings within the limits of the protocol.  When the
    name of the host that created the product leaves room for the
    separator, it is kept, and a chain of two relays gives the same
    metadata as the second relay alone: the names of hosts do not accumulate. *)
Theorem dh_setInfo_relay b i h1 h2 :
  isValid b = true → no_sep (creating_host (pi_origin i)) →
  (String.length (creating_host (pi_origin i)) + SEP_STR_LEN ≤ HOSTNAMESIZE)%nat →
  ∃ b1 b2, dh_setInfo (Some b) i h1 = Ok (Some b1) ∧ dh_setInfo (Some b1) (ib_info b1) h2 = Ok (Some b2) ∧
    ib_ok b1 ∧ ib_ok b2 ∧ creating_host (pi_origin (ib_info b1)) = creating_host (pi_origin i) ∧
    dh_setInfo (Some b) i h2 = Ok (Some b2).
Proof.
  intros Hv Hno Hl. do 2 eexists. split; [by apply dh_setInfo_spec|]. split; [by apply dh_setInfo_spec|].
  cbn [ib_info magic]. rewrite relayed_again by done. split; [split; [done|apply relayed_short]|].
  split; [split; [done|apply relayed_short]|]. split; [by apply creating_host_relayed|by apply dh_setInfo_spec].
Qed.

(** Copies of metadata.  A clone of metadata whose strings are within their limits
    is equal to it under [pi_equals()], which holds of two metadata exactly when
    they are the same. *)
Theorem pi_clone_equals i mem :
  info_short i →
  ∃ b, pi_clone (Some i) (Some mem) = Ok (Some b) ∧ ib_ok b ∧
    ∀ j, pi_equals false (Some (CInfo (ib_info b) true)) (Some (CInfo j true)) = Ok (bool_decide (i = j)).
Proof.
  intros Hi. eexists. rewrite pi_clone_spec. split; [reflexivity|]. rewrite cut_id by done.
  split; [by split|]. intros j. apply pi_equals_spec.
Qed.

(** The nil product.  [dp_isNil()] of a product with strings never holds: one that
    has data is not nil, and one whose metadata is like that of the nil product,
    which has null strings, makes the comparison read a null pointer. *)
Theorem dp_isNil_correct info data :
  dp_isNil false (CInfo info true) data ≠ Ok true ∧
  (0 < pi_sz info → dp_isNil false (CInfo info true) data = Ok false) ∧
  (pi_feedtype info = 0 → pi_seqno info = 0 → pi_sz info = 0 → pi_arrival info = TS_ZERO →
   pi_signature info = sig_zero → dp_isNil false (CInfo info true) data = Err OutOfBounds).
Proof. split; [apply dp_isNil_never|]. split; [apply dp_isNil_pos|apply dp_isNil_fault]. Qed.
End metadata.

Section shift.
Context {W : Type} {Sys : System W}.

(** C16: the automatic shift.  With one process [as_process()] does nothing; without
    memory it changes nothing and says so; otherwise the queue holds, in the order of
    their times, exactly the entries, the new one included, that are newer than the
    previous decision, and when two intervals have passed since then a new decision
    is made: a primary process is to switch when it had at most as many products
    accepted as every other process on average (which are those that were rejected here), another when it had at
    least as many; in between no process is to switch. *)
Theorem as_process_correct a l interval success size mem (w : W) now w' :
  as_rep a l → in_order l now → Z.of_nat (length l) < 2 ^ 32 - 1 → gettimeofday w = (inr now, w') →
  ∃ st a' w2, as_process a interval success size mem w = Ok (st, a', w2) ∧ (w2 = w ∨ w2 = w') ∧
    process_post a l interval success mem now st a'.
Proof. apply as_process_spec. Qed.
End shift.

Section down.
Context {W : Type} {Sys : System W} {Laws : SystemLaws W} {Wr : Writer W} {WL : WriterLaws W} {Re : Regex}.
Context (interval max_latency : Z).
Implicit Types (p : process (W:=W)) (q : pqueue W) (m : memory).
Abbreviation serve := (serve interval max_latency).
Abbreviation serve_all := (serve_all interval max_latency).

(** HIYA.  When the modules of the process are in order and there is memory,
    [down6_init()] and [down6_set_prod_class()] succeed and leave a process that
    can be served messages. *)
Theorem down6_hiya p upName upAddr mem offered mems :
  proc_ok p → (_info (ps_down p) = None → is_Some mem) → (∀ b, _info (ps_down p) = Some b → ib_ok b) →
  class_wf offered → Forall spec_good (specs offered) → (∀ i, mems i = true) →
  ∃ p1 p2, down6_init p upName upAddr mem = (0, p1) ∧ down6_set_prod_class p1 offered true mems = Ok (0, p2) ∧
    serving p2 ∧ ps_pq p2 = ps_pq p ∧ _upName (ps_down p2) = str_take MAXHOSTNAMELEN upName ∧
    _expectBlkdata (ps_down p2) = false.
Proof. apply hiya_serving. Qed.

(** C11: a whole product.  [down6_hereis()] vets the product: the class, from the
    maximum latency before now on, selects it or not.  A product that is not selected is only
    noted; one that is selected is inserted in the queue with
    the origin of a relay, and the result is the code for the status of the
    insertion, or [DOWN6_SYSTEM_ERROR] when there was no memory. *)
Theorem down6_hereis_correct p infop data bytes m :
  ready p → roomy (ps_pq p) → info_ok (ps_pq p) infop → Z.of_nat (length bytes) = pi_sz infop →
  c_load (ps_xd p) data (pi_sz infop) = Ok bytes →
  (down6_hereis interval max_latency p infop data m = Err AssertFail ∧ refused W) ∨
  ∃ st p', down6_hereis interval max_latency p infop data m = Ok (st, p') ∧ hereis_post max_latency p infop bytes m st p'.
Proof. apply down6_hereis_spec. Qed.

(** C12: the announcement of a product.  A COMINGSOON message is answered by the vetting
    and the status of [pqe_new()] for the relayed metadata: with [OK]
    exactly when the class selects the product and [pqe_new()] reserves a region for it
    in the queue, which is given back at once; then the process expects
    the data, in a buffer of its size if there is memory.  With [DONT_SEND] when the product is not
    selected, is in the queue already, is empty or is larger than the data segment; any other status -
    nothing is left to delete, a request is refused, there is no memory - ends the process.
    An assertion fails only when the system refuses a lock. *)
Theorem down6_comingsoon_correct p m infop pktsz :
  ready p → roomy (ps_pq p) → info_ok (ps_pq p) infop →
  (serve p m (COMINGSOON infop pktsz) = Err AssertFail ∧ refused W) ∨
  ∃ st p', serve p m (COMINGSOON infop pktsz) = Ok (cs_served st p') ∧ comingsoon_post max_latency p infop m st p'.
Proof. apply serve_comingsoon. Qed.

(** C9: a product in pieces.  After a COMINGSOON message that is answered with [OK],
    BLKDATA messages with the signature of the product, however its data is divided among
    them, make the process insert exactly the announced product with all its data
    in order; the process then expects no data any more. *)
Theorem down6_transfer_correct (l : list (memory * (Z * list Z))) p m0 infop pktsz p1 m k d :
  ready p → roomy (ps_pq p) → info_ok (ps_pq p) infop → m_buf m0 = true →
  serve p m0 (COMINGSOON infop pktsz) = Ok (Served (Some OK) p1) →
  let info := relayed infop (_upName (ps_down p)) in
  let bytes := concat (l.*2.*2) ++ d in
  roomy (ps_pq p1) → fits (ps_pq p1) info → d ≠ [] → Z.of_nat (length bytes) = pi_sz infop →
  let msgs := (λ x, (x.1, blk (pi_signature info) x.2)) <$> (l ++ [(m, (k, d))]) in
  (serve_all p1 msgs = Err AssertFail ∧ refused W) ∨
  ∃ st e q' p', serve_all p1 msgs = Ok (if tolerated st then Served None p' else Exited st p') ∧
    inserted (ps_pq p1) (Product info bytes) e q' ∧
    (∃ w, ps_pq p' = set_sys q' w ∧ same_mem (pq_sys q') w) ∧
    (st = down_code e ∨ (st = DOWN6_SYSTEM_ERROR ∧ no_memory m)) ∧
    ready p' ∧ _expectBlkdata (ps_down p') = false.
Proof.
  intros Hr Hroom Hi Hm Hrun info bytes Hroom1 Hfits Hd Hlen msgs.
  destruct (comingsoon_ok interval max_latency p infop m0 pktsz p1 Hr Hroom Hi Hm Hrun) as [[b Hx] _]. fold info in Hx.
  pose proof (xp_remaining _ _ _ _ Hx) as [Hrem _].
  destruct (blkdata_all interval max_latency l p1 info b [] m k d Hx Hroom1 Hfits Hd) as [?|(st & p2 & p3 & p' & H1 & Hq & Hpost & -> & Hr')];
    [unfold bytes in Hlen; change (pi_sz info) with (pi_sz infop) in Hrem; simpl in Hrem; lia|by left|right].
  destruct Hpost as (e & q' & Hins & _ & _ & _ & Hw & Hst). rewrite Hq in Hins.
  eexists st, e, q', _. split; [exact H1|]. split; [exact Hins|]. split; [exact Hw|].
  split; [destruct Hst as [[? _]|?]; [by left|by right]|]. by split.
Qed.

(** C10: memory safety of the downstream LDM.  From HIYA on, a process that is served
    messages in any order that an upstream LDM keeps to - no whole product while data is
    expected - runs into no fault on any further message, whatever its data: every access to the
    buffer is within a live allocation.  It replies, is silent or exits.  An assertion fails
    only when the system refuses a lock or memory.  A product has data, the queue has spare
    blocks, and there is memory for the buffer of a product that is announced ([allowed]). *)
Theorem downstream_safe p p1 m msg :
  serving p → downstream interval max_latency p p1 → roomy (ps_pq p1) → allowed p1 m msg →
  (serve p1 m msg = Err AssertFail ∧ refused W) ∨ ∃ r, serve p1 m msg = Ok r.
Proof.
  intros Hp Hd Hroom Hal. pose proof (downstream_serving interval max_latency p p1 Hp Hd) as Hs.
  destruct (serve_spec interval max_latency p1 m msg Hs Hroom Hal) as [?|(r & Hr & _)]; [by left|right; eauto].
Qed.

(** C18: a whole product between the packets of another.  A HEREIS message that comes
    while data is expected leaves the process expecting that data, but with the metadata of the
    product of the message, although that is not wanted; and when it is larger
    than the buffer, the buffer that the process points to is gone. *)
Theorem hereis_intrudes_correct p info b pre m info' data :
  expecting p info b pre → info_ok (ps_pq p) info' → 0 < pi_sz info' < 2 ^ 32 →
  Z.of_nat (length data) = pi_sz info' → m_buf m = true →
  (∀ c now w, _class (ps_down p) = Some c → gettimeofday (pq_sys (ps_pq p)) = (inr now, w) →
     ¬ selects (vetted max_latency p c now) info') →
  m_saved m ≠ None →
  ∃ p', serve p m (HEREIS info' data) = Ok (Served None p') ∧ _expectBlkdata (ps_down p') = true ∧
    ib_info <$> _info (ps_down p') = Some (relayed info' (_upName (ps_down p))) ∧
    _remaining (ps_down p') = _remaining (ps_down p) ∧ _datap (ps_down p') = Some (b, 0) ∧
    (xd_max (ps_xd p) < pi_sz info' → xd_blocks (ps_xd p') !! b = None).
Proof. apply hereis_intrudes. Qed.
End down.

(** ** Witnesses *)

#[local] Existing Instance prefix_regex.

Lemma dh_setInfo_relay_witness :
  ∃ b1 b2, dh_setInfo (Some (InfoBuf_ MAGIC_VALUE ex_info)) ex_info "relay1.edu" = Ok (Some b1) ∧
    dh_setInfo (Some b1) (ib_info b1) "relay2.edu" = Ok (Some b2) ∧ pi_origin (ib_info b2) = "host.edu_v_relay2.edu"%string.
Proof.
  destruct (dh_setInfo_relay (InfoBuf_ MAGIC_VALUE ex_info) ex_info "relay1.edu" "relay2.edu") as (b1 & b2 & H1 & H2 & _ & _ & _ & H3).
  - reflexivity.
  - vm_compute. reflexivity.
  - vm_compute. repeat constructor.
  - exists b1, b2. split; [exact H1|]. split; [exact H2|].
    assert ((λ b, pi_origin (ib_info b)) <$> match dh_setInfo (Some (InfoBuf_ MAGIC_VALUE ex_info)) ex_info "relay2.edu" with
      Ok b => b | _ => None end = Some "host.edu_v_relay2.edu"%string) as Hc by (vm_compute; reflexivity).
    rewrite H3 in Hc. by injection Hc.
Defined.

Definition ex_buf : InfoBuf := InfoBuf_ 0 (ProdInfo TS_ZERO [] "" 0 0 "" 0).

Lemma pi_clone_equals_witness :
  ∃ b, pi_clone (Some ex_info) (Some ex_buf) = Ok (Some b) ∧ ib_ok b ∧
    ∀ j, pi_equals false (Some (CInfo (ib_info b) true)) (Some (CInfo j true)) = Ok (bool_decide (ex_info = j)).
Proof. apply (pi_clone_equals ex_info ex_buf). split; vm_compute; repeat constructor. Defined.

Lemma dp_isNil_correct_witness :
  dp_isNil false (CInfo ex_info true) [65; 66; 67] = Ok false ∧
  dp_isNil false (CInfo (ProdInfo TS_ZERO sig_zero "host.edu" 0 0 "x" 0) true) [] = Err OutOfBounds.
Proof.
  split; [apply (dp_isNil_correct ex_info [65; 66; 67]); vm_compute; reflexivity|].
  apply (dp_isNil_correct (ProdInfo TS_ZERO sig_zero "host.edu" 0 0 "x" 0) []); reflexivity.
Defined.

Lemma as_process_correct_witness :
  ∃ a st a' w2, as_setLdmCount as_start 2 (World ∅ 0) = Ok (0, a, World ∅ 0) ∧ s_ldmCount a = 2 ∧
    as_process a 60 true 3 (true, true) (World ∅ 0) = Ok (st, a', w2) ∧
    process_post a [] 60 true (true, true) ex_now st a'.
Proof.
  destruct (as_setLdmCount_spec as_start [] 2 (World ∅ 0) ex_now (World ∅ 0) as_start_rep) as (st & a & w & H1 & H2 & _ & H3);
    [lia|reflexivity|].
  destruct H3 as (-> & Ha & Hn & _). assert (w = World ∅ 0) as -> by (by destruct H2).
  destruct (as_process_correct a [] 60 true 3 (true, true) (World ∅ 0) ex_now (World ∅ 0) Ha) as (st & a' & w2 & H4 & _ & H5).
  - split; [constructor|]. intros e He. by apply elem_of_nil in He.
  - reflexivity.
  - reflexivity.
  - exists a, st, a', w2. split; [exact H1|]. split; [exact Hn|]. split; [exact H4|exact H5].
Defined.

(** A process on the new queue, after HIYA; an upstream LDM offers everything from a year
    on. *)
Definition ex_offered : prod_class := Class_ TS_ZERO TS_ENDT (psa_len ex_class) (psa_val ex_class).

Definition ex_memory : memory := Memory (Some ex_buf) (true, true) true RSame.

Definition ex_process (q : pqueue world) : process (W:=world) := Process down6_start savedInfo_start as_start xd_start q.

Definition ex_down : res (process (W:=world)) :=
  let! q := ex_created in
  let '(_, p) := down6_init (ex_process q) "upstream.edu" "10.0.0.1" (Some ex_buf) in
  let! '(_, p) := down6_set_prod_class p ex_offered true (λ _, true) in Ok p.

Lemma ex_process_ok q G : pq_idle q G → elems_ok q G → proc_ok (ex_process q).
Proof.
  intros Hid Hel. split; [by exists G|by intros b|exists []; exact as_start_rep|exact xd_start_ok].
Qed.

Lemma ex_down_eq : ex_down = let! q := ex_created in
  let '(_, p) := down6_init (ex_process q) "upstream.edu" "10.0.0.1" (Some ex_buf) in
  let! '(_, p) := down6_set_prod_class p ex_offered true (λ _, true) in Ok p.
Proof. reflexivity. Qed.

Lemma ex_offered_wf : class_wf ex_offered.
Proof. unfold class_wf. simpl. lia. Qed.

Lemma down6_hiya_witness :
  ∃ (q : pqueue world) p1 p2, ex_created = Ok q ∧ down6_init (ex_process q) "upstream.edu" "10.0.0.1" (Some ex_buf) = (0, p1) ∧
    down6_set_prod_class p1 ex_offered true (λ _, true) = Ok (0, p2) ∧ serving p2.
Proof.
  destruct ex_created_idle as (q & G & Hq & Hid & _ & Hel & _).
  destruct (down6_hiya (ex_process q) "upstream.edu" "10.0.0.1" (Some ex_buf) ex_offered (λ _, true)) as (p1 & p2 & H1 & H2 & H3 & _).
  - exact (ex_process_ok q G Hid Hel).
  - intros _. eexists. reflexivity.
  - intros b H. discriminate H.
  - exact ex_offered_wf.
  - exact ex_class_good.
  - reflexivity.
  - exists q, p1, p2. split; [exact Hq|]. split; [exact H1|]. split; [exact H2|exact H3].
Defined.

Lemma ex_down_spec :
  ∃ p G, ex_down = Ok p ∧ serving p ∧ pq_idle (ps_pq p) G ∧ pq_writable (ps_pq p) ∧ roomy (ps_pq p) ∧
    ctl_align (pq_ctl (ps_pq p)) ≤ 2 ^ 28 ∧ _upName (ps_down p) = "upstream.edu"%string ∧ _expectBlkdata (ps_down p) = false.
Proof.
  destruct ex_created_idle as (q & G & Hq & Hid & Hwr & Hel & Hsp & _ & Hn & Hal & _).
  destruct (hiya_serving (ex_process q) "upstream.edu" "10.0.0.1" (Some ex_buf) ex_offered (λ _, true)
    (ex_process_ok q G Hid Hel)) as (p1 & p2 & H1 & H2 & H3 & H4 & H5 & H6).
  - intros _. eexists. reflexivity.
  - intros b H. discriminate H.
  - exact ex_offered_wf.
  - exact ex_class_good.
  - reflexivity.
  - exists p2, G. rewrite ex_down_eq, Hq, bind_Ok, H1, H2, bind_Ok, H4, H5. cbn [ps_pq ex_process].
    split; [reflexivity|]. split; [exact H3|]. split; [exact Hid|]. split; [exact Hwr|].
    split; [split; [exact Hsp|rewrite Hn; apply world_time; lia]|]. split; [exact Hal|]. split; [reflexivity|exact H6].
Qed.

Lemma ex_info_ok (q : pqueue world) info :
  ctl_align (pq_ctl q) ≤ 2 ^ 28 → pi_arrival info = pi_arrival ex_info → length (pi_signature info) = 16%nat →
  0 ≤ pi_sz info ≤ 1000 → info_ok q info.
Proof.
  intros Hal Ha Hs Hz. split; [exact Hs|lia|rewrite Ha; left; by vm_compute|].
  unfold PQ_FRAGMENT_HEURISTIC. lia.
Qed.

Definition ex_lim : Z := 3600.
Definition ex_interval : Z := 60.

(** The process is told of a product, and asks for it. *)
Definition ex_told : res (served (W:=world)) :=
  let! p := ex_down in serve ex_interval ex_lim p ex_memory (COMINGSOON ex_info 3).

Lemma ex_told_eq : ex_told = let! p := ex_down in serve ex_interval ex_lim p ex_memory (COMINGSOON ex_info 3).
Proof. reflexivity. Qed.

Lemma ex_told_run :
  (let! r := ex_told in
   match r with
   | Served re p => Ok (re, 4 * rl_nelems (pq_rl (ps_pq p)) + 8 <=? fb_spare (pq_fb (ps_pq p)), pq_nalloc (ps_pq p), ctl_align (pq_ctl (ps_pq p)))
   | Exited _ _ => Err AssertFail
   end) = Ok (Some OK, true, 16, 4096).
Proof. vm_compute. reflexivity. Qed.

(** A product of a feed that the class does not have. *)
Definition ex_other : prod_info :=
  ProdInfo (Timestamp 1700000000 5) (replicate 16 9) "other.edu" 2 3 "TEST" 10.

Definition ex_other_data : list Z := replicate 10 66.

Lemma ex_told_class :
  (let! r := ex_told in
   match r with
   | Served re p => Ok ((λ c, bool_decide (selects (vet_from ex_lim c (inr ex_now)) ex_other)) <$> _class (ps_down p), xd_max (ps_xd p))
   | Exited _ _ => Err AssertFail
   end) = Ok (Some false, 3).
Proof. vm_compute. reflexivity. Qed.

(** After that product comes in between, a packet with its signature makes the process
    read the buffer that was freed. *)
Example ex_intruded :
  (let! r := ex_told in
   match r with
   | Served re p => serve_all ex_interval ex_lim p
       [(ex_memory, HEREIS ex_other ex_other_data); (ex_memory, BLKDATA (pi_signature ex_other) 0 3 [1; 2; 3])]
   | Exited _ _ => Err AssertFail
   end) = Err OutOfBounds.
Proof. vm_compute. reflexivity. Qed.

#[local] Opaque ex_down ex_told.

Lemma ex_told_spec :
  ∃ p p1, ex_down = Ok p ∧ serving p ∧ roomy (ps_pq p) ∧ info_ok (ps_pq p) ex_info ∧
    _upName (ps_down p) = "upstream.edu"%string ∧ _expectBlkdata (ps_down p) = false ∧
    serve ex_interval ex_lim p ex_memory (COMINGSOON ex_info 3) = Ok (Served (Some OK) p1) ∧
    roomy (ps_pq p1) ∧ ctl_align (pq_ctl (ps_pq p1)) = 4096 ∧
    ∃ b, expecting p1 (relayed ex_info "upstream.edu") b [].
Proof.
  destruct ex_down_spec as (p & G & Hp & Hs & _ & _ & Hroom & Hal & Hup & He). pose proof Hs as [Hr _].
  pose proof ex_told_run as Hrun. rewrite ex_told_eq, Hp, bind_Ok in Hrun.
  destruct (serve ex_interval ex_lim p ex_memory (COMINGSOON ex_info 3)) as [r|] eqn:Hsv; [|discriminate Hrun].
  rewrite bind_Ok in Hrun. destruct r as [re p1|]; [|discriminate Hrun]. injection Hrun as -> Hsp Hn Hal1.
  assert (info_ok (ps_pq p) ex_info) as Hi by (apply ex_info_ok; [exact Hal|reflexivity|reflexivity|simpl; lia]).
  destruct (comingsoon_ok ex_interval ex_lim p ex_info ex_memory 3 p1 Hr Hroom Hi eq_refl Hsv) as [Hx _].
  rewrite Hup in Hx. exists p, p1. split; [exact Hp|]. split; [exact Hs|]. split; [exact Hroom|]. split; [exact Hi|].
  split; [exact Hup|]. split; [exact He|]. split; [exact Hsv|].
  split; [split; [unfold spare_ok; lia|rewrite Hn; apply world_time; lia]|]. split; [exact Hal1|exact Hx].
Qed.

Lemma down6_hereis_correct_witness :
  ∃ (p : process (W:=world)) st p', let p0 := set_xd p (Xdata {[0 := [Some 65; Some 66; Some 67]]} 1 (Some 0) 3 0) in
    ready p0 ∧ down6_hereis ex_interval ex_lim p0 ex_info (Some (0, 0)) ex_memory = Ok (st, p') ∧
    hereis_post ex_lim p0 ex_info [65; 66; 67] ex_memory st p'.
Proof.
  destruct ex_down_spec as (p & G & Hp & [Hr _] & _ & _ & Hroom & Hal & _ & _).
  exists p. set (x := Xdata _ _ _ _ _).
  assert (xd_ok x) as Hx.
  { clear. split; simpl.
    - intros b Hb. apply lookup_singleton_ne. lia.
    - intros b [= <-]. eexists. split; [apply lookup_singleton_eq|reflexivity].
    - split; [lia|]. split; [intros _; lia|]. intros H. discriminate H.
    - lia. }
  pose proof (ready_set_xd p x Hr Hx) as Hr0.
  destruct (down6_hereis_correct ex_interval ex_lim (set_xd p x) ex_info (Some (0, 0)) [65; 66; 67] ex_memory Hr0 Hroom)
    as [[_ H]|(st & p' & H1 & H2)].
  - apply ex_info_ok; [exact Hal|reflexivity|reflexivity|simpl; lia].
  - reflexivity.
  - vm_compute. reflexivity.
  - by destruct world_not_refused.
  - exists st, p'. split; [exact Hr0|]. split; [exact H1|exact H2].
Defined.

Lemma down6_comingsoon_correct_witness :
  ∃ (p : process (W:=world)) st p', ex_down = Ok p ∧
    serve ex_interval ex_lim p ex_memory (COMINGSOON ex_info 3) = Ok (cs_served st p') ∧
    comingsoon_post ex_lim p ex_info ex_memory st p'.
Proof.
  destruct ex_told_spec as (p & p1 & Hp & [Hr _] & Hroom & Hi & _).
  destruct (down6_comingsoon_correct ex_interval ex_lim p ex_memory ex_info 3 Hr Hroom Hi) as [[_ H]|(st & p' & H)];
    [by destruct world_not_refused|]. exists p, st, p'. split; [exact Hp|exact H].
Defined.

(** The data comes in two packets. *)
Lemma down6_transfer_correct_witness :
  ∃ (p1 : process (W:=world)) st e q' p',
    serve_all ex_interval ex_lim p1 [(ex_memory, BLKDATA (pi_signature ex_info) 0 1 [65]); (ex_memory, BLKDATA (pi_signature ex_info) 1 2 [66; 67])] =
      Ok (if tolerated st then Served None p' else Exited st p') ∧
    inserted (ps_pq p1) (Product (relayed ex_info "upstream.edu") [65; 66; 67]) e q' ∧ st = down_code e.
Proof.
  destruct ex_told_spec as (p & p1 & Hp & [Hr _] & Hroom & Hi & Hup & _ & Hrun & Hroom1 & Hal1 & _).
  pose proof (down6_transfer_correct ex_interval ex_lim [(ex_memory, (0, [65]))] p ex_memory ex_info 3 p1 ex_memory 1 [66; 67]
    Hr Hroom Hi eq_refl Hrun) as H. cbv zeta in H. rewrite Hup in H.
  destruct H as [[_ H]|(st & e & q' & p' & H1 & H2 & _ & H3 & _)].
  - exact Hroom1.
  - unfold fits. rewrite Hal1. assert (xlen_prod_i (relayed ex_info "upstream.edu") < 1000) as Hx by (vm_compute; reflexivity).
    unfold PQ_FRAGMENT_HEURISTIC. lia.
  - discriminate.
  - reflexivity.
  - by destruct world_not_refused.
  - exists p1, st, e, q', p'. split; [exact H1|]. split; [exact H2|].
    destruct H3 as [H3|[_ [H3|H3]]]; [exact H3|discriminate H3|discriminate H3].
Defined.

Lemma downstream_safe_witness :
  ∃ (p p1 : process (W:=world)) r, ex_down = Ok p ∧ downstream ex_interval ex_lim p p1 ∧
    serve ex_interval ex_lim p1 ex_memory (BLKDATA (pi_signature ex_info) 0 5 [1; 2; 3; 4; 5]) = Ok r.
Proof.
  destruct ex_told_spec as (p & p1 & Hp & Hs & Hroom & Hi & Hup & _ & Hrun & Hroom1 & Hal1 & (b & Hx)).
  assert (downstream ex_interval ex_lim p p1) as Hd.
  { eapply ds_serve; [apply ds_start|exact Hroom| |exact Hrun]. split; [exact Hi|reflexivity]. }
  destruct (downstream_safe ex_interval ex_lim p p1 ex_memory (BLKDATA (pi_signature ex_info) 0 5 [1; 2; 3; 4; 5]) Hs Hd Hroom1)
    as [[_ H]|(r & H)].
  - split; [reflexivity|]. split.
    + rewrite (ho_used _ _ _ (xp_holds _ _ _ _ Hx)). simpl. lia.
    + intros info Hin. rewrite (xp_info _ _ _ _ Hx) in Hin. injection Hin as <-. unfold fits. rewrite Hal1.
      assert (xlen_prod_i (relayed ex_info "upstream.edu") < 1000) as Hl by (vm_compute; reflexivity).
      unfold PQ_FRAGMENT_HEURISTIC. lia.
  - by destruct world_not_refused.
  - exists p, p1, r. split; [exact Hp|]. split; [exact Hd|exact H].
Defined.

Lemma hereis_intrudes_correct_witness :
  ∃ (p1 p' : process (W:=world)) b, expecting p1 (relayed ex_info "upstream.edu") b [] ∧
    serve ex_interval ex_lim p1 ex_memory (HEREIS ex_other ex_other_data) = Ok (Served None p') ∧
    _expectBlkdata (ps_down p') = true ∧ _datap (ps_down p') = Some (b, 0) ∧ xd_blocks (ps_xd p') !! b = None.
Proof.
  destruct ex_told_spec as (p & p1 & Hp & _ & _ & _ & _ & _ & Hrun & _ & Hal1 & (b & Hx)).
  pose proof ex_told_class as Hc. rewrite ex_told_eq, Hp, bind_Ok, Hrun, bind_Ok in Hc. injection Hc as Hc Hm.
  destruct (hereis_intrudes_correct ex_interval ex_lim p1 _ b [] ex_memory ex_other ex_other_data Hx)
    as (p' & H1 & H2 & _ & _ & H5 & H6).
  - apply ex_info_ok; [rewrite Hal1; lia|reflexivity|reflexivity|simpl; lia].
  - simpl. lia.
  - reflexivity.
  - reflexivity.
  - intros c now w Hcl Hclk. rewrite Hcl in Hc. injection Hclk as <- _. cbn [fmap option_fmap option_map] in Hc.
    injection Hc as Hc. exact (proj1 (bool_decide_eq_false _) Hc).
  - discriminate.
  - exists p1, p', b. split; [exact Hx|]. split; [exact H1|]. split; [exact H2|]. split; [exact H5|].
    apply H6. rewrite Hm. reflexivity.
Defined.
