(* ===== verification/SemRWLock.v ===== *)
(** * The read/write lock of the registry (src/misc/semRWLock.c)

    A lock that processes share: a set of two System V semaphores, and in every process a
    structure that counts how often the process has locked it.  A system call is a
    point at which other processes run, so that a function of the module is a tree of its calls to
    [semop()] ([call]); the processes that take turns are a step
    relation, in which a process can be killed at any point.  The kernel then undoes what
    the process did to the semaphores with [SEM_UNDO]. *)

From S2P Require Import Prelude.

Definition RWL_SUCCESS : Z := 0.
Definition RWL_INVALID : Z := 1.
Definition RWL_EXIST : Z := 2.
Definition RWL_SYSTEM : Z := 3.

(** ** semop(2) *)

Inductive sem_num := SI_LOCK | SI_NUM_READERS.

#[global] Instance sem_num_eq_dec : EqDecision sem_num.
Proof. solve_decision. Defined.

Record sembuf := Sembuf { sb_num : sem_num; sb_op : Z; sb_undo : bool }.

#[global] Instance sembuf_eq_dec : EqDecision sembuf.
Proof. solve_decision. Defined.

(** One number for each of the two semaphores: their values, or what is to be added to
    them when a process ends ("semadj"). *)
Record semset := Semset { sv_lock : Z; sv_readers : Z }.

#[global] Instance semset_eq_dec : EqDecision semset.
Proof. solve_decision. Defined.

Definition sem_val (v : semset) (n : sem_num) : Z := match n with SI_LOCK => sv_lock v | SI_NUM_READERS => sv_readers v end.
Definition sem_add (v : semset) (n : sem_num) (z : Z) : semset :=
  match n with
  | SI_LOCK => Semset (sv_lock v + z) (sv_readers v)
  | SI_NUM_READERS => Semset (sv_lock v) (sv_readers v + z)
  end.

(** One operation on the values [v] by a process with the adjustments [adj]; [None]: it has
    to wait. *)
Definition sem_do (o : sembuf) (s : semset * semset) : option (semset * semset) :=
  let '(v, adj) := s in
  let go := if sb_op o =? 0 then sem_val v (sb_num o) =? 0 else 0 <=? sem_val v (sb_num o) + sb_op o in
  if go then Some (sem_add v (sb_num o) (sb_op o), if sb_undo o then sem_add adj (sb_num o) (- sb_op o) else adj)
  else None.

(** All operations, or none. *)
Fixpoint semop (ops : list sembuf) (s : semset * semset) : option (semset * semset) :=
  match ops with
  | [] => Some s
  | o :: ops => match sem_do o s with None => None | Some s => semop ops s end
  end.

(** ** The operations of the module *)

Definition acquireLock : sembuf := Sembuf SI_LOCK (-1) true.
Definition releaseLock : sembuf := Sembuf SI_LOCK 1 true.

Definition writeLockOps : list sembuf := [acquireLock; Sembuf SI_NUM_READERS 0 false].
Definition readLockOps : list sembuf := [acquireLock; Sembuf SI_NUM_READERS 1 true].
Definition shareOps : list sembuf := [releaseLock].
Definition writeUnlockOps : list sembuf := [releaseLock].
Definition readUnlockOps : list sembuf := [Sembuf SI_NUM_READERS (-1) true].

(** [struct srwl_Lock], for the only set of semaphores. *)
Record srwl_Lock := Lock { isValid : bool; lk_pid : Z; numReadLocks : Z; numWriteLocks : Z }.

(** A run of a function up to its next call of [semop()], which returns 0 or -1. *)
Inductive call (A : Type) := Return (a : A) | Semop (ops : list sembuf) (k : bool → call A).
Arguments Return {A} a.
Arguments Semop {A} ops k.

(** [pid] is the process that calls. *)
Definition vet (lock : srwl_Lock) (pid : Z) : Z * srwl_Lock :=
  if negb (isValid lock) then (RWL_INVALID, lock)
  else if negb (pid =? lk_pid lock) then (RWL_SUCCESS, Lock (isValid lock) pid 0 0)
  else (RWL_SUCCESS, lock).

Definition set_reads (l : srwl_Lock) (n : Z) : srwl_Lock := Lock (isValid l) (lk_pid l) n (numWriteLocks l).
Definition set_writes (l : srwl_Lock) (n : Z) : srwl_Lock := Lock (isValid l) (lk_pid l) (numReadLocks l) n.

Definition srwl_writeLock (lock : srwl_Lock) (pid : Z) : call (Z * srwl_Lock) :=
  let '(status, lock) := vet lock pid in
  if status =? RWL_SUCCESS then
    if 0 <? numReadLocks lock then Return (RWL_EXIST, lock)
    else if 0 <? numWriteLocks lock then
      Return (RWL_SUCCESS, set_writes lock (u32 (numWriteLocks lock + 1)))
    else Semop writeLockOps (λ ok,
      if ok then Return (RWL_SUCCESS, set_writes lock 1) else Return (RWL_SYSTEM, lock))
  else Return (status, lock).

Definition srwl_readLock (lock : srwl_Lock) (pid : Z) : call (Z * srwl_Lock) :=
  let '(status, lock) := vet lock pid in
  if status =? RWL_SUCCESS then
    if 0 <? numWriteLocks lock then Return (RWL_EXIST, lock)
    else if 0 <? numReadLocks lock then
      Return (RWL_SUCCESS, set_reads lock (u32 (numReadLocks lock + 1)))
    else Semop readLockOps (λ ok,
      if ok then Semop shareOps (λ ok,
        if ok then Return (RWL_SUCCESS, set_reads lock 1) else Return (RWL_SYSTEM, lock))
      else Return (RWL_SYSTEM, lock))
  else Return (status, lock).

Definition srwl_unlock (lock : srwl_Lock) (pid : Z) : call (Z * srwl_Lock) :=
  let '(status, lock) := vet lock pid in
  if status =? RWL_SUCCESS then
    if 1 <? numWriteLocks lock then Return (status, set_writes lock (numWriteLocks lock - 1))
    else if 1 =? numWriteLocks lock then
      Semop writeUnlockOps (λ ok,
        if ok then Return (status, set_writes lock (numWriteLocks lock - 1)) else Return (RWL_SYSTEM, lock))
    else if 1 <? numReadLocks lock then Return (status, set_reads lock (numReadLocks lock - 1))
    else if 1 =? numReadLocks lock then
      Semop readUnlockOps (λ ok,
        if ok then Return (status, set_reads lock (numReadLocks lock - 1)) else Return (RWL_SYSTEM, lock))
    else Return (status, lock)
  else Return (status, lock).

(** The structure is [None] when it is freed. *)
Definition srwl_free (lock : option srwl_Lock) (pid : Z) : Z * option srwl_Lock :=
  match lock with
  | None => (RWL_SUCCESS, None)
  | Some lock =>
      let '(status, lock) := vet lock pid in
      if status =? RWL_SUCCESS then
        if negb (0 =? numWriteLocks lock) || negb (0 =? numReadLocks lock) then (RWL_EXIST, Some lock)
        else (RWL_SUCCESS, None)
      else (status, Some lock)
  end.

(** [sem] is the set of the key, if there is one; [del], [ok] and [set] say whether
    [semctl(IPC_RMID)], [semget()] and [semctl(SETALL)] succeed.  A set that exists is
    deleted first. *)
Definition createLock (sem : option semset) (del ok set : bool) : Z * option semset :=
  match (if del then None else sem) with
  | Some v => (RWL_SYSTEM, Some v)
  | None => if ok && set then (RWL_SUCCESS, Some (Semset 1 0)) else (RWL_SYSTEM, None)
  end.

Definition getLock (sem : option semset) : Z :=
  match sem with None => RWL_EXIST | Some _ => RWL_SUCCESS end.

(** [mem]: there is memory for the structure. *)
Definition initLock (create : bool) (sem : option semset) (pid : Z) (mem del ok set : bool) :
    Z * option srwl_Lock * option semset :=
  if negb mem then (RWL_SYSTEM, None, sem)
  else
    let '(status, sem) := if create then createLock sem del ok set else (getLock sem, sem) in
    if negb (RWL_SUCCESS =? status) then (status, None, sem)
    else (status, Some (Lock true pid 0 0), sem).

(** [rmid]: [semctl(IPC_RMID)] succeeds.  The structure is [None] when it is freed. *)
Definition srwl_delete (lock : srwl_Lock) (pid : Z) (sem : option semset) (rmid : bool) :
    Z * option srwl_Lock * option semset :=
  let '(status, lock) := vet lock pid in
  if status =? RWL_SUCCESS then
    match sem with
    | Some _ => if rmid then (RWL_SUCCESS, None, None) else (RWL_SYSTEM, Some lock, sem)
    | None => (RWL_SYSTEM, Some lock, sem)
    end
  else (status, Some lock, sem).

(** [ok]: [semget()] fails only when there is no set. *)
Definition srwl_deleteByKey (sem : option semset) (ok rmid : bool) : Z * option semset :=
  if negb ok then (RWL_SYSTEM, sem)
  else
    match sem with
    | None => (RWL_EXIST, None)
    | Some _ => if rmid then (RWL_SUCCESS, None) else (RWL_SYSTEM, sem)
    end.

Definition srwl_create := initLock true.
Definition srwl_get := initLock false.

(** ** Processes *)

Inductive op := WriteLock | ReadLock | Unlock.

Definition run (o : op) : srwl_Lock → Z → call (Z * srwl_Lock) :=
  match o with WriteLock => srwl_writeLock | ReadLock => srwl_readLock | Unlock => srwl_unlock end.

(** A process: its structure, its adjustments, and the rest of the call that it is in. *)
Record proc := Proc { pr_lock : srwl_Lock; pr_adj : semset; pr_call : option (call (Z * srwl_Lock)) }.

Record system := System_ { sy_sem : semset; sy_procs : gmap Z proc }.

Definition no_adj : semset := Semset 0 0.

(** The operations that wait for the lock, and can be interrupted by a signal. *)
Definition waits (ops : list sembuf) : bool := bool_decide (acquireLock ∈ ops).

(** The counts of locks of a process are below the maximum of an unsigned integer. *)
Definition shallow (l : srwl_Lock) : Prop := numReadLocks l < 2 ^ 32 - 1 ∧ numWriteLocks l < 2 ^ 32 - 1.

Inductive step (s : system) : system → Prop :=
  | st_get pid lock sem mem :
      sy_procs s !! pid = None → srwl_get (Some (sy_sem s)) pid mem true true true = (RWL_SUCCESS, Some lock, sem) →
      step s (System_ (sy_sem s) (<[pid := Proc lock no_adj None]> (sy_procs s)))
  | st_call pid p o :
      sy_procs s !! pid = Some p → pr_call p = None → shallow (pr_lock p) →
      step s (System_ (sy_sem s) (<[pid := Proc (pr_lock p) (pr_adj p) (Some (run o (pr_lock p) pid))]> (sy_procs s)))
  | st_semop pid p ops k v adj :
      sy_procs s !! pid = Some p → pr_call p = Some (Semop ops k) → semop ops (sy_sem s, pr_adj p) = Some (v, adj) →
      step s (System_ v (<[pid := Proc (pr_lock p) adj (Some (k true))]> (sy_procs s)))
  | st_interrupted pid p ops k :
      sy_procs s !! pid = Some p → pr_call p = Some (Semop ops k) → waits ops = true →
      step s (System_ (sy_sem s) (<[pid := Proc (pr_lock p) (pr_adj p) (Some (k false))]> (sy_procs s)))
  | st_return pid p status lock :
      sy_procs s !! pid = Some p → pr_call p = Some (Return (status, lock)) →
      step s (System_ (sy_sem s) (<[pid := Proc lock (pr_adj p) None]> (sy_procs s)))
  | st_fork pid p child :
      sy_procs s !! pid = Some p → pr_call p = None → sy_procs s !! child = None → lk_pid (pr_lock p) ≠ child →
      step s (System_ (sy_sem s) (<[child := Proc (pr_lock p) no_adj None]> (sy_procs s)))
  | st_exit pid p :
      sy_procs s !! pid = Some p →
      step s (System_ (Semset (sv_lock (sy_sem s) + sv_lock (pr_adj p)) (sv_readers (sy_sem s) + sv_readers (pr_adj p)))
                (delete pid (sy_procs s))).

(** The states from a new set on. *)
Inductive reachable : system → Prop :=
  | reach_start v : createLock None true true true = (RWL_SUCCESS, Some v) → reachable (System_ v ∅)
  | reach_step s s' : reachable s → step s s' → reachable s'.

(** What a process holds, outside of a call. *)
Definition writing (pid : Z) (p : proc) : Prop :=
  pr_call p = None ∧ lk_pid (pr_lock p) = pid ∧ 0 < numWriteLocks (pr_lock p).
Definition shares (pid : Z) (p : proc) : Prop :=
  pr_call p = None ∧ lk_pid (pr_lock p) = pid ∧ 0 < numReadLocks (pr_lock p).

(** ** Totals over the processes *)

Definition total (f : proc → Z) (m : gmap Z proc) : Z := map_fold (λ _ p acc, f p + acc) 0 m.

Lemma total_insert f m i p : m !! i = None → total f (<[i := p]> m) = f p + total f m.
Proof. intros Hi. unfold total. rewrite map_fold_insert_L; [done|intros; lia|done]. Qed.

Lemma total_delete f m i p : m !! i = Some p → total f m = f p + total f (delete i m).
Proof. intros Hi. unfold total. rewrite (map_fold_delete_L _ _ i p) by (done || (intros; lia)). done. Qed.

Lemma total_update f m i p p' : m !! i = Some p → total f (<[i := p']> m) = total f m - f p + f p'.
Proof.
  intros Hi. rewrite <- insert_delete_eq, total_insert by apply lookup_delete_eq.
  rewrite (total_delete f m i p Hi). lia.
Qed.

Lemma total_nonneg f m : (∀ i p, m !! i = Some p → 0 ≤ f p) → 0 ≤ total f m.
Proof.
  induction m as [|i p m Hi IH] using map_ind; intros Hf; [done|]. rewrite total_insert by done.
  specialize (Hf i p) as Hp. rewrite lookup_insert_eq in Hp. specialize (Hp eq_refl).
  assert (0 ≤ total f m); [|lia]. apply IH. intros j q Hq. apply (Hf j). rewrite lookup_insert_ne; [done|congruence].
Qed.

Lemma total_zero f m : (∀ i p, m !! i = Some p → f p = 0) → total f m = 0.
Proof.
  induction m as [|i p m Hi IH] using map_ind; intros Hf; [done|]. rewrite total_insert by done.
  rewrite IH; [rewrite (Hf i p); [done|by rewrite lookup_insert_eq]|].
  intros j q Hq. apply (Hf j). rewrite lookup_insert_ne; [done|congruence].
Qed.

Lemma total_le f m i p : m !! i = Some p → (∀ i p, m !! i = Some p → 0 ≤ f p) → f p ≤ total f m.
Proof.
  intros Hi Hf. rewrite (total_delete f m i p Hi). assert (0 ≤ total f (delete i m)); [|lia].
  apply total_nonneg. intros j q [_ Hq]%lookup_delete_Some. by apply (Hf j).
Qed.

Lemma total_le2 f m i p j q :
  m !! i = Some p → m !! j = Some q → i ≠ j → (∀ i p, m !! i = Some p → 0 ≤ f p) → f p + f q ≤ total f m.
Proof.
  intros Hi Hj Hne Hf. rewrite (total_delete f m i p Hi). assert (f q ≤ total f (delete i m)); [|lia].
  apply (total_le f _ j); [by rewrite lookup_delete_ne|]. intros k r [_ Hr]%lookup_delete_Some. by apply (Hf k).
Qed.

(** ** The invariant *)

(** What a call of [semop()] does to the adjustments of its process. *)
Inductive turns : semset → list sembuf → semset → Prop :=
  | turn_write : turns (Semset 0 0) writeLockOps (Semset 1 0)
  | turn_read : turns (Semset 0 0) readLockOps (Semset 1 (-1))
  | turn_share : turns (Semset 1 (-1)) shareOps (Semset 0 (-1))
  | turn_wunlock : turns (Semset 1 0) writeUnlockOps (Semset 0 0)
  | turn_runlock : turns (Semset 0 (-1)) readUnlockOps (Semset 0 0).

Definition lock_adj (pid : Z) (l : srwl_Lock) : semset :=
  if lk_pid l =? pid then
    if 0 <? numWriteLocks l then Semset 1 0 else if 0 <? numReadLocks l then Semset 0 (-1) else no_adj
  else no_adj.

Definition rw_lock_ok (l : srwl_Lock) : Prop :=
  isValid l = true ∧ 0 ≤ numReadLocks l ∧ 0 ≤ numWriteLocks l ∧ (numReadLocks l = 0 ∨ numWriteLocks l = 0).

Fixpoint call_ok (pid : Z) (adj : semset) (c : call (Z * srwl_Lock)) : Prop :=
  match c with
  | Return (_, l) => rw_lock_ok l ∧ adj = lock_adj pid l
  | Semop ops k => ∃ adj', turns adj ops adj' ∧ call_ok pid adj' (k true) ∧ (waits ops = true → call_ok pid adj (k false))
  end.

Definition rw_proc_ok (pid : Z) (p : proc) : Prop :=
  match pr_call p with
  | None => rw_lock_ok (pr_lock p) ∧ pr_adj p = lock_adj pid (pr_lock p)
  | Some c => call_ok pid (pr_adj p) c
  end.

Definition adj_lock (p : proc) : Z := sv_lock (pr_adj p).
Definition adj_readers (p : proc) : Z := - sv_readers (pr_adj p).

Record sys_ok (s : system) : Prop := {
  so_procs pid p : sy_procs s !! pid = Some p → rw_proc_ok pid p;
  so_lock : sv_lock (sy_sem s) + total adj_lock (sy_procs s) = 1 ∧ 0 ≤ sv_lock (sy_sem s);
  so_readers : sv_readers (sy_sem s) = total adj_readers (sy_procs s);
  so_writer pid p : sy_procs s !! pid = Some p → pr_adj p = Semset 1 0 → sv_readers (sy_sem s) = 0;
}.

Lemma turns_semop adj ops adj' v :
  turns adj ops adj' →
  semop ops (v, adj) =
    (if (if bool_decide (ops = writeLockOps) then (1 <=? sv_lock v) && (sv_readers v =? 0)
         else if bool_decide (ops = readLockOps) then (1 <=? sv_lock v) && (0 <=? sv_readers v + 1)
         else if bool_decide (ops = readUnlockOps) then 1 <=? sv_readers v else 0 <=? sv_lock v + 1)
     then Some (Semset (sv_lock v + (sv_lock adj - sv_lock adj')) (sv_readers v + (sv_readers adj - sv_readers adj')), adj')
     else None).
Proof.
  destruct v as [vl vr]. intros Ht. inversion Ht; subst; cbn -[Z.add Z.leb Z.opp Z.sub].
  - replace (0 <=? vl + -1) with (1 <=? vl) by lia. destruct (1 <=? vl); [|done]. cbn -[Z.add Z.leb Z.opp Z.sub].
    destruct (vr =? 0); [|done]. cbn -[Z.add Z.leb Z.opp Z.sub]. do 3 f_equal; lia.
  - replace (0 <=? vl + -1) with (1 <=? vl) by lia. destruct (1 <=? vl); [|done]. cbn -[Z.add Z.leb Z.opp Z.sub].
    destruct (0 <=? vr + 1); [|done]. cbn -[Z.add Z.leb Z.opp Z.sub]. do 3 f_equal; lia.
  - destruct (0 <=? vl + 1); [|done]. do 3 f_equal; lia.
  - destruct (0 <=? vl + 1); [|done]. do 3 f_equal; lia.
  - replace (0 <=? vr + -1) with (1 <=? vr) by lia. destruct (1 <=? vr); [|done]. do 3 f_equal; lia.
Qed.

Lemma vet_spec lock pid :
  rw_lock_ok lock →
  ∃ l, vet lock pid = (RWL_SUCCESS, l) ∧ rw_lock_ok l ∧ lk_pid l = pid ∧ lock_adj pid l = lock_adj pid lock ∧
    (shallow lock → shallow l).
Proof.
  intros Hok. pose proof Hok as (Hv & Hr & Hw & Hor). unfold vet. rewrite Hv. cbn [negb].
  destruct (Z.eqb_spec pid (lk_pid lock)) as [->|Hne]; cbn [negb].
  - by exists lock.
  - eexists. split; [done|]. split; [split; [done|simpl; lia]|]. split; [done|]. split.
    + unfold lock_adj. cbn [lk_pid numWriteLocks numReadLocks]. by rewrite Z.eqb_refl, (proj2 (Z.eqb_neq _ _) (not_eq_sym Hne)).
    + intros _. split; simpl; lia.
Qed.

(** What a process with valid counts holds. *)
Lemma lock_adj_cases pid l :
  rw_lock_ok l → lk_pid l = pid →
  (lock_adj pid l = Semset 1 0 ∧ 0 < numWriteLocks l ∧ numReadLocks l = 0) ∨
  (lock_adj pid l = Semset 0 (-1) ∧ 0 < numReadLocks l ∧ numWriteLocks l = 0) ∨
  (lock_adj pid l = no_adj ∧ numReadLocks l = 0 ∧ numWriteLocks l = 0).
Proof.
  intros (_ & Hr & Hw & Hor) <-. unfold lock_adj. rewrite Z.eqb_refl.
  destruct (Z.ltb_spec 0 (numWriteLocks l)); [left; split; [done|lia]|right].
  destruct (Z.ltb_spec 0 (numReadLocks l)); [left; split; [done|lia]|right; split; [done|lia]].
Qed.

(** Structures that count the same locks. *)
Lemma return_ok pid (l : srwl_Lock) r w adj st :
  isValid l = true → lk_pid l = pid → 0 ≤ r → 0 ≤ w → r = 0 ∨ w = 0 →
  adj = (if 0 <? w then Semset 1 0 else if 0 <? r then Semset 0 (-1) else no_adj) →
  call_ok pid adj (Return (st, Lock (isValid l) (lk_pid l) r w)).
Proof.
  intros Hv Hp Hr Hw Hor ->. split; [by split|]. unfold lock_adj. simpl. by rewrite Hp, Z.eqb_refl.
Qed.

Lemma run_ok pid lock o :
  rw_lock_ok lock → shallow lock → call_ok pid (lock_adj pid lock) (run o lock pid).
Proof.
  intros Hok Hsh. destruct (vet_spec lock pid Hok) as (l & Hvet & Hl & Hp & <- & Hsh').
  destruct (Hsh' Hsh) as [Hs1 Hs2]. pose proof Hl as (Hv & _).
  assert (∀ st, call_ok pid (lock_adj pid l) (Return (st, l))) as Hsame by (intros; by split).
  destruct o; cbn [run]; unfold srwl_writeLock, srwl_readLock, srwl_unlock; rewrite Hvet; cbn [Z.eqb RWL_SUCCESS];
    destruct (lock_adj_cases pid l Hl Hp) as [(Ha & H1 & H2)|[(Ha & H1 & H2)|(Ha & H1 & H2)]]; rewrite ?H2, ?H1.
  - rewrite Z.ltb_irrefl, (proj2 (Z.ltb_lt _ _) H1), Ha. unfold u32, set_writes. rewrite Z.mod_small by lia.
    apply return_ok; [done|done|lia|lia|by left|]. by rewrite (proj2 (Z.ltb_lt 0 (_ + 1))) by lia.
  - rewrite (proj2 (Z.ltb_lt _ _) H1). apply Hsame.
  - rewrite !Z.ltb_irrefl, Ha. exists (Semset 1 0). split; [constructor|]. unfold set_writes. rewrite H1.
    split; [by apply return_ok; try lia|]. intros _. rewrite <- Ha. apply Hsame.
  - rewrite (proj2 (Z.ltb_lt _ _) H1). apply Hsame.
  - rewrite Z.ltb_irrefl, (proj2 (Z.ltb_lt _ _) H1), Ha. unfold u32, set_reads. rewrite Z.mod_small by lia.
    rewrite H2. apply return_ok; [done|done|lia|lia|by right|]. rewrite Z.ltb_irrefl. by rewrite (proj2 (Z.ltb_lt 0 (_ + 1))) by lia.
  - rewrite !Z.ltb_irrefl, Ha. exists (Semset 1 (-1)). split; [constructor|]. split; [|intros _; rewrite <- Ha; apply Hsame].
    exists (Semset 0 (-1)). split; [constructor|]. unfold set_reads. rewrite H2.
    split; [by apply return_ok; try lia|]. intros H; discriminate H.
  - destruct (Z.ltb_spec 1 (numWriteLocks l)); unfold set_writes; rewrite Ha, ?H2.
    + apply return_ok; [done|done|lia|lia|by left|]. by rewrite (proj2 (Z.ltb_lt 0 (_ - 1))) by lia.
    + assert (numWriteLocks l = 1) as -> by lia. cbn [Z.eqb]. exists no_adj. split; [constructor|].
      split; [by apply return_ok; try lia|intros H'; discriminate H'].
  - cbn [Z.ltb Z.eqb Z.compare]. destruct (Z.ltb_spec 1 (numReadLocks l)); unfold set_reads; rewrite Ha, ?H2.
    + apply return_ok; [done|done|lia|lia|by right|]. rewrite Z.ltb_irrefl. by rewrite (proj2 (Z.ltb_lt 0 (_ - 1))) by lia.
    + assert (numReadLocks l = 1) as -> by lia. cbn [Z.eqb]. exists no_adj. split; [constructor|].
      split; [by apply return_ok; try lia|intros H'; discriminate H'].
  - cbn [Z.ltb Z.eqb Z.compare]. apply Hsame.
Qed.

(** ** It is kept *)

Lemma turns_adj adj ops adj' : turns adj ops adj' → 0 ≤ sv_lock adj ≤ 1 ∧ 0 ≤ - sv_readers adj ≤ 1.
Proof. intros []; simpl; lia. Qed.

Lemma proc_adj pid p : rw_proc_ok pid p → 0 ≤ adj_lock p ≤ 1 ∧ 0 ≤ adj_readers p ≤ 1.
Proof.
  unfold rw_proc_ok, adj_lock, adj_readers.
  assert (∀ l, 0 ≤ sv_lock (lock_adj pid l) ≤ 1 ∧ 0 ≤ - sv_readers (lock_adj pid l) ≤ 1) as Hl.
  { intros l. unfold lock_adj. repeat case_match; simpl; lia. }
  destruct (pr_call p) as [[[st l]|ops k]|].
  - intros [_ ->]. apply Hl.
  - intros (adj' & Ht & _). by eapply turns_adj.
  - intros [_ ->]. apply Hl.
Qed.

Section kept.
Context (s : system) (Hs : sys_ok s).

Lemma sys_nonneg i p : sy_procs s !! i = Some p → 0 ≤ adj_lock p ∧ 0 ≤ adj_readers p.
Proof using Hs. intros Hp. destruct (proc_adj i p (so_procs s Hs i p Hp)). lia. Qed.

(** A process whose adjustments do not change. *)
Lemma same_adj pid p p' :
  sy_procs s !! pid = Some p → pr_adj p' = pr_adj p → rw_proc_ok pid p' → sys_ok (System_ (sy_sem s) (<[pid := p']> (sy_procs s))).
Proof using Hs.
  intros Hp Ha Hok. destruct Hs as [H1 H2 H3 H4]. split; cbn [sy_sem sy_procs].
  - intros i q [[-> <-]|[Hne Hq]]%lookup_insert_Some; [exact Hok|by apply H1].
  - rewrite (total_update _ _ _ p) by done. unfold adj_lock at 2 3. rewrite Ha. lia.
  - rewrite (total_update _ _ _ p) by done. unfold adj_readers at 2 3. rewrite Ha. lia.
  - intros i q [[-> <-]|[Hne Hq]]%lookup_insert_Some; [rewrite Ha; exact (H4 _ _ Hp)|exact (H4 _ _ Hq)].
Qed.

(** A new process. *)
Lemma new_proc pid lock :
  sy_procs s !! pid = None → rw_lock_ok lock → lock_adj pid lock = no_adj →
  sys_ok (System_ (sy_sem s) (<[pid := Proc lock no_adj None]> (sy_procs s))).
Proof using Hs.
  intros Hp Hl Ha. destruct Hs as [H1 H2 H3 H4]. split; cbn [sy_sem sy_procs].
  - intros i q [[-> <-]|[Hne Hq]]%lookup_insert_Some; [by split|by apply H1].
  - by rewrite total_insert by done.
  - by rewrite total_insert by done.
  - intros i q [[-> <-]|[Hne Hq]]%lookup_insert_Some; [done|exact (H4 _ _ Hq)].
Qed.
End kept.

(** The values after an operation. *)
Lemma semop_ok s pid p ops k v adj :
  sys_ok s → sy_procs s !! pid = Some p → pr_call p = Some (Semop ops k) → semop ops (sy_sem s, pr_adj p) = Some (v, adj) →
  sys_ok (System_ v (<[pid := Proc (pr_lock p) adj (Some (k true))]> (sy_procs s))).
Proof.
  intros Hs Hp Hc Hrun. pose proof (so_procs s Hs pid p Hp) as Hok. unfold rw_proc_ok in Hok. rewrite Hc in Hok.
  destruct Hok as (adj' & Ht & Hk & _). rewrite (turns_semop _ _ _ _ Ht) in Hrun.
  destruct (if bool_decide (ops = writeLockOps) then _ else _) eqn:Hgo in Hrun; [|done]. injection Hrun as <- <-.
  pose proof (sys_nonneg s Hs) as Hn. destruct Hs as [H1 [H2 H2'] H3 H4].
  assert (∀ i q, sy_procs s !! i = Some q → 0 ≤ adj_lock q) as Hn1 by (intros i q Hq; destruct (Hn i q Hq); lia).
  assert (∀ i q, sy_procs s !! i = Some q → 0 ≤ adj_readers q) as Hn2 by (intros i q Hq; destruct (Hn i q Hq); lia).
  pose proof (total_le _ _ _ _ Hp Hn1) as Hle1. pose proof (total_le _ _ _ _ Hp Hn2) as Hle2.
  unfold adj_lock at 1 in Hle1. unfold adj_readers at 1 in Hle2.
  split; cbn [sy_sem sy_procs sv_lock sv_readers].
  - intros i q [[-> <-]|[Hne Hq]]%lookup_insert_Some; [exact Hk|by apply H1].
  - rewrite (total_update _ _ _ p) by done. unfold adj_lock at 2 3. cbn [pr_adj]. split; [lia|].
    inversion Ht as [Ha Ho|Ha Ho|Ha Ho|Ha Ho|Ha Ho]; subst; rewrite <- Ha in *; simpl in *; try lia.
    all: apply andb_prop in Hgo as [Hgo _]; lia.
  - rewrite (total_update _ _ _ p) by done. unfold adj_readers at 2 3. cbn [pr_adj]. lia.
  - intros i q [[-> <-]|[Hne Hq]]%lookup_insert_Some; cbn [pr_adj].
    + intros ->. inversion Ht as [Ha Ho|Ha Ho|Ha Ho|Ha Ho|Ha Ho]; subst. rewrite <- Ha in *. simpl in *.
      apply andb_prop in Hgo as [_ Hgo]. lia.
    + intros Hw. pose proof (H4 i q Hq Hw) as Hr.
      pose proof (total_le2 _ _ _ _ _ _ Hp Hq (not_eq_sym (not_eq_sym Hne)) Hn1) as Hle. unfold adj_lock at 1 2 in Hle. rewrite Hw in Hle. simpl in Hle.
      inversion Ht as [Ha Ho|Ha Ho|Ha Ho|Ha Ho|Ha Ho]; subst; rewrite <- Ha in *; simpl in *; try lia.
      all: apply andb_prop in Hgo as [Hgo _]; lia.
Qed.

Lemma exit_ok s pid p :
  sys_ok s → sy_procs s !! pid = Some p →
  sys_ok (System_ (Semset (sv_lock (sy_sem s) + sv_lock (pr_adj p)) (sv_readers (sy_sem s) + sv_readers (pr_adj p)))
            (delete pid (sy_procs s))).
Proof.
  intros Hs Hp. pose proof (sys_nonneg s Hs) as Hn. destruct Hs as [H1 [H2 H2'] H3 H4].
  destruct (Hn pid p Hp) as [Ha1 Ha2]. unfold adj_lock, adj_readers in Ha1, Ha2.
  assert (∀ i q, delete pid (sy_procs s) !! i = Some q → 0 ≤ adj_readers q) as Hn2.
  { intros i q [_ Hq]%lookup_delete_Some. destruct (Hn i q Hq). lia. }
  split; cbn [sy_sem sy_procs sv_lock sv_readers].
  - intros i q [_ Hq]%lookup_delete_Some. by apply H1.
  - rewrite (total_delete adj_lock _ _ _ Hp) in H2. unfold adj_lock at 1 in H2. lia.
  - rewrite (total_delete adj_readers _ _ _ Hp) in H3. unfold adj_readers at 1 in H3. lia.
  - intros i q [_ Hq]%lookup_delete_Some Hw. pose proof (H4 i q Hq Hw) as Hr.
    rewrite (total_delete adj_readers _ _ _ Hp) in H3. unfold adj_readers at 1 in H3.
    pose proof (total_nonneg _ _ Hn2). lia.
Qed.

Lemma rw_step_ok s s' : sys_ok s → step s s' → sys_ok s'.
Proof.
  intros Hs Hst. destruct Hst as [pid lock sem mem Hp Hget|pid p o Hp Hc Hsh|pid p ops k v adj Hp Hc Hrun|pid p ops k Hp Hc Hw|pid p st lock Hp Hc|pid p child Hp Hc Hch Hne|pid p Hp].
  - unfold srwl_get, initLock in Hget. destruct mem; [|done]. injection Hget as <- _.
    apply new_proc; [done|done|split; [done|simpl; lia]|]. unfold lock_adj. simpl. by rewrite Z.eqb_refl.
  - pose proof (so_procs s Hs pid p Hp) as Hok. unfold rw_proc_ok in Hok. rewrite Hc in Hok. destruct Hok as [Hl Ha].
    eapply same_adj; [done|done|done|]. unfold rw_proc_ok. cbn [pr_call pr_adj]. rewrite Ha. by apply run_ok.
  - by eapply semop_ok.
  - eapply same_adj; [done|done|done|]. pose proof (so_procs s Hs pid p Hp) as Hok. unfold rw_proc_ok in *.
    rewrite Hc in Hok. destruct Hok as (adj' & _ & _ & Hf). by apply Hf.
  - eapply same_adj; [done|done|done|]. pose proof (so_procs s Hs pid p Hp) as Hok. unfold rw_proc_ok in *.
    rewrite Hc in Hok. exact Hok.
  - pose proof (so_procs s Hs pid p Hp) as Hok. unfold rw_proc_ok in Hok. rewrite Hc in Hok. destruct Hok as [Hl _].
    apply new_proc; [done|done|done|]. unfold lock_adj. by rewrite (proj2 (Z.eqb_neq _ _) Hne).
  - by apply exit_ok.
Qed.

Lemma reachable_ok s : reachable s → sys_ok s.
Proof.
  intros Hr. induction Hr as [v Hv|s s' _ IH Hst]; [|by eapply rw_step_ok]. injection Hv as <-. split; simpl; try done.
Qed.

(** ** Theorems *)

Lemma idle_adj pid p :
  rw_proc_ok pid p → pr_call p = None →
  (writing pid p ∧ pr_adj p = Semset 1 0) ∨ (shares pid p ∧ pr_adj p = Semset 0 (-1)) ∨ pr_adj p = no_adj.
Proof.
  unfold rw_proc_ok, writing, shares. intros Hok Hc. rewrite Hc in Hok. destruct Hok as [Hl ->].
  destruct (Z.eqb_spec (lk_pid (pr_lock p)) pid) as [Hp|Hp].
  - destruct (lock_adj_cases pid _ Hl Hp) as [(-> & ? & _)|[(-> & ? & _)|(-> & _)]]; auto 10.
  - right. right. unfold lock_adj. by rewrite (proj2 (Z.eqb_neq _ _) Hp).
Qed.

Lemma writing_adj pid p : rw_proc_ok pid p → writing pid p → pr_adj p = Semset 1 0.
Proof.
  intros Hok (Hc & Hp & Hw). unfold rw_proc_ok in Hok. rewrite Hc in Hok. destruct Hok as [_ ->].
  unfold lock_adj. by rewrite Hp, Z.eqb_refl, (proj2 (Z.ltb_lt _ _) Hw).
Qed.

Lemma shares_adj pid p : rw_proc_ok pid p → shares pid p → pr_adj p = Semset 0 (-1).
Proof.
  intros Hok (Hc & Hp & Hw). unfold rw_proc_ok in Hok. rewrite Hc in Hok. destruct Hok as [(_ & _ & _ & Hor) ->].
  unfold lock_adj. rewrite Hp, Z.eqb_refl, (proj2 (Z.ltb_ge 0 (numWriteLocks (pr_lock p)))) by lia.
  by rewrite (proj2 (Z.ltb_lt _ _) Hw).
Qed.

(** C5: mutual exclusion.  However calls of processes are interleaved, interrupted by
    signals, and cut short by the end of a process, and whatever processes fork: while a process has
    the lock for writing no other one has it for writing or for reading. *)
Theorem srwl_mutual_exclusion s i p j q :
  reachable s → sy_procs s !! i = Some p → writing i p → sy_procs s !! j = Some q → j ≠ i →
  ¬ writing j q ∧ ¬ shares j q.
Proof.
  intros Hr Hp Hw Hq Hne. pose proof (reachable_ok s Hr) as Hs. pose proof (sys_nonneg s Hs) as Hn.
  destruct Hs as [H1 [H2 H2'] H3 H4]. pose proof (writing_adj i p (H1 i p Hp) Hw) as Ha. split; intros Hh.
  - assert (adj_lock p + adj_lock q ≤ total adj_lock (sy_procs s)) as Hle
      by (apply (total_le2 _ _ i _ j); auto; intros k r Hk; by apply (Hn k)).
    unfold adj_lock at 1 2 in Hle. rewrite Ha, (writing_adj j q (H1 j q Hq) Hh) in Hle. simpl in Hle. lia.
  - assert (adj_readers q ≤ total adj_readers (sy_procs s)) as Hle
      by (apply (total_le _ _ j); auto; intros k r Hk; by apply (Hn k)).
    unfold adj_readers at 1 in Hle. rewrite (shares_adj j q (H1 j q Hq) Hh) in Hle. simpl in Hle.
    pose proof (H4 i p Hp Ha). lia.
Qed.

(** C8: availability.  No process that was killed, at whatever point of a call, leaves the lock
    locked: when every other process is outside of a call and holds nothing, a process
    that locks the lock does not wait.  Sharing and unlocking never wait. *)
Theorem srwl_available s i p ops k :
  reachable s → sy_procs s !! i = Some p → pr_call p = Some (Semop ops k) →
  (waits ops = true → ∀ j q, j ≠ i → sy_procs s !! j = Some q → pr_call q = None ∧ ¬ writing j q ∧ ¬ shares j q) →
  is_Some (semop ops (sy_sem s, pr_adj p)).
Proof.
  intros Hr Hp Hc Hothers. pose proof (reachable_ok s Hr) as Hs. pose proof (sys_nonneg s Hs) as Hn.
  destruct Hs as [H1 [H2 H2'] H3 H4]. pose proof (H1 i p Hp) as Hok. unfold rw_proc_ok in Hok. rewrite Hc in Hok.
  destruct Hok as (adj' & Ht & _). rewrite (turns_semop _ _ _ _ Ht).
  assert (waits ops = true → pr_adj p = no_adj → sv_lock (sy_sem s) = 1 ∧ sv_readers (sy_sem s) = 0) as Hfree.
  { intros Hw Ha. assert (∀ j q, sy_procs s !! j = Some q → pr_adj q = no_adj) as Hno.
    { intros j q Hq. destruct (decide (j = i)) as [->|Hne]; [congruence|].
      destruct (Hothers Hw j q Hne Hq) as (Hcq & Hnw & Hnr). by destruct (idle_adj j q (H1 j q Hq) Hcq) as [[? _]|[[? _]|?]]. }
    rewrite (total_zero adj_lock) in H2 by (intros j q Hq; unfold adj_lock; by rewrite (Hno j q Hq)).
    rewrite (total_zero adj_readers) in H3 by (intros j q Hq; unfold adj_readers; by rewrite (Hno j q Hq)). lia. }
  assert (∀ j q, sy_procs s !! j = Some q → 0 ≤ adj_readers q) as Hn2 by (intros j q Hq; by apply (Hn j)).
  pose proof (total_le _ _ _ _ Hp Hn2) as Hle. unfold adj_readers at 1 in Hle.
  inversion Ht as [Ha Ho|Ha Ho|Ha Ho|Ha Ho|Ha Ho]; subst ops; rewrite <- Ha in *; simpl in Hle.
  1,2: destruct (Hfree eq_refl eq_refl) as [-> ->]; by eexists.
  - rewrite !bool_decide_false, (proj2 (Z.leb_le _ _)) by (done || lia). by eexists.
  - rewrite !bool_decide_false, (proj2 (Z.leb_le _ _)) by (done || lia). by eexists.
  - rewrite !bool_decide_false, bool_decide_true, (proj2 (Z.leb_le _ _)) by (done || lia). by eexists.
Qed.

(** ** Witnesses *)

(** Two processes get the lock, and the first one locks it for writing. *)
Definition ex_lock1 : srwl_Lock := Lock true 1 0 0.
Definition ex_lock2 : srwl_Lock := Lock true 2 0 0.
Definition ex_rw_written : system :=
  System_ (Semset 0 0) (<[1 := Proc (Lock true 1 0 1) (Semset 1 0) None]> {[2 := Proc ex_lock2 no_adj None]}).

Lemma ex_written_reachable : reachable ex_rw_written.
Proof.
  pose proof (reach_start (Semset 1 0) eq_refl) as R.
  match type of R with reachable ?s => pose proof (reach_step s _ R (st_get s 2 ex_lock2 (Some (Semset 1 0)) true eq_refl eq_refl)) as R1 end.
  match type of R1 with reachable ?s => pose proof (reach_step s _ R1 (st_get s 1 ex_lock1 (Some (Semset 1 0)) true eq_refl eq_refl)) as R2 end.
  match type of R2 with reachable ?s => pose proof (reach_step s _ R2 (st_call s 1 (Proc ex_lock1 no_adj None) WriteLock eq_refl eq_refl (conj eq_refl eq_refl))) as R3 end.
  match type of R3 with reachable ?s => pose proof (reach_step s _ R3 (st_semop s 1 (Proc ex_lock1 no_adj (Some (srwl_writeLock ex_lock1 1)))
    writeLockOps _ (Semset 0 0) (Semset 1 0) eq_refl eq_refl eq_refl)) as R4 end.
  match type of R4 with reachable ?s => exact (reach_step s _ R4 (st_return s 1 (Proc ex_lock1 (Semset 1 0) (Some (Return (0, Lock true 1 0 1)))) 0
    (Lock true 1 0 1) eq_refl eq_refl)) end.
Qed.

Lemma srwl_mutual_exclusion_witness :
  reachable ex_rw_written ∧ writing 1 (Proc (Lock true 1 0 1) (Semset 1 0) None) ∧
  ¬ writing 2 (Proc ex_lock2 no_adj None) ∧ ¬ shares 2 (Proc ex_lock2 no_adj None).
Proof.
  split; [exact ex_written_reachable|]. assert (writing 1 (Proc (Lock true 1 0 1) (Semset 1 0) None)) as Hw by done.
  split; [exact Hw|].
  apply (srwl_mutual_exclusion ex_rw_written 1 (Proc (Lock true 1 0 1) (Semset 1 0) None) 2 (Proc ex_lock2 no_adj None)
    ex_written_reachable eq_refl Hw eq_refl). discriminate.
Defined.

(** The first process is killed, and the second one locks the lock for reading. *)
Definition ex_killed : system :=
  System_ (Semset 1 0) (<[2 := Proc ex_lock2 no_adj (Some (srwl_readLock ex_lock2 2))]> (delete 1 (sy_procs ex_rw_written))).

Lemma srwl_available_witness : reachable ex_killed ∧ is_Some (semop readLockOps (sy_sem ex_killed, no_adj)).
Proof.
  assert (reachable ex_killed) as Hr.
  { pose proof (reach_step _ _ ex_written_reachable
      (st_exit ex_rw_written 1 (Proc (Lock true 1 0 1) (Semset 1 0) None) eq_refl)) as R.
    match type of R with reachable ?s => exact (reach_step s _ R (st_call s 2 (Proc ex_lock2 no_adj None) ReadLock
      eq_refl eq_refl (conj eq_refl eq_refl))) end. }
  split; [exact Hr|].
  refine (srwl_available ex_killed 2 (Proc ex_lock2 no_adj (Some (srwl_readLock ex_lock2 2))) readLockOps _ Hr eq_refl eq_refl _).
  intros _ j q Hne Hq. exfalso. unfold ex_killed, ex_rw_written in Hq. cbn [sy_procs] in Hq.
  apply lookup_insert_Some in Hq as [[Hj _]|[_ Hq]]; [congruence|].
  apply lookup_delete_Some in Hq as [H1 Hq]. apply lookup_insert_Some in Hq as [[Hj _]|[_ Hq]]; [congruence|].
  apply lookup_singleton_Some in Hq as [Hj _]. congruence.
Defined.
