(* ===== verification/Uldb.v ===== *)
(** * The registry of upstream LDM processes (src/protocol2/uldb.c)

    The processes that send products to other hosts are entered in a segment of shared
    memory, so that a new one can be vetted against those that feed the same
    host.  Entries have different sizes and lie one after the other, as do the
    specifications of products in them: an array of bytes is a map from the
    offsets at which objects begin, and to read at any other offset is a fault.

    The state [uldb] is the module's static variables together with what the process shares:
    the segment that the key of the database stands for, which is [None] when there is
    none.  [ul_calls] are the outcomes of the system calls to come that can fail, [true] for
    success; [ul_killed] are the processes that were sent SIGTERM.  Formatting of entries for the log is
    not modelled. *)

From stdpp Require Import strings.
From S2P Require Import Prelude Timestamp Xlen ProdClass SemRWLock.

Definition ULDB_SUCCESS : Z := 0.
Definition ULDB_ARG : Z := 1.
Definition ULDB_INIT : Z := 2.
Definition ULDB_EXIST : Z := 3.
Definition ULDB_SYSTEM : Z := 4.

(** ** Sizes *)

Definition roundUp (value base : Z) : Z := u64 (u64 (value + (base - 1)) / base * base).

Fixpoint getAlignment_loop (alignments : list Z) (size : Z) : Z :=
  match alignments with
  | [] => size
  | a :: l => if size mod a =? 0 then a else getAlignment_loop l size
  end.
(** The sizes of [double], [long], [int] and [short]. *)
Definition getAlignment (size : Z) : Z := getAlignment_loop [8; 8; 4; 2] size.

(** The sizes of the structures on an LP64 machine. *)
Definition sizeof_EntryProdSpec : Z := 16.
Definition sizeof_EntryProdClass : Z := 56.
Definition sizeof_Entry : Z := 96.
Definition sizeof_Segment : Z := 120.

Definition prodSpecAlignment : Z := getAlignment sizeof_EntryProdSpec.
Definition prodClassAlignment : Z := getAlignment sizeof_EntryProdClass.
Definition entryAlignment : Z := getAlignment sizeof_Entry.

Record sockaddr_in := Sockaddr { sin_port : Z; sin_addr : Z }.

Definition ipAddressesAreEqual (addr1 addr2 : sockaddr_in) : bool := sin_addr addr1 =? sin_addr addr2.

(** ** Objects *)

Record EntryProdSpec := EntryProdSpec_ { eps_size : Z; eps_feedtype : Z; eps_pattern : string }.

Record EntryProdClass := EntryProdClass_ {
  epc_from : timestampt; epc_to : timestampt; epc_prodSpecsSize : Z; epc_prodSpecs : gmap Z EntryProdSpec }.

Record uldb_Entry := Entry_ {
  en_size : Z; en_sockAddr : sockaddr_in; en_pid : Z; en_protoVers : Z; en_isNotifier : bool; en_isPrimary : bool;
  en_prodClass : EntryProdClass }.

Record Segment := Segment_ {
  entriesCapacity : Z; entriesSize : Z; numEntries : Z; sg_entries : gmap Z uldb_Entry }.

Section uldb.
Context {Re : Regex}.

(** *** Specifications: a pointer into [prodSpecs] is an offset *)

Definition eps_sizeof (pattern : string) : Z := roundUp (sizeof_EntryProdSpec + strlen pattern) prodSpecAlignment.

Definition eps_init (feedtype : Z) (pattern : string) : EntryProdSpec :=
  EntryProdSpec_ (eps_sizeof pattern) feedtype pattern.

Definition eps_next (m : gmap Z EntryProdSpec) (prodSpec : Z) : res Z :=
  let! e := rd m prodSpec in Ok (prodSpec + eps_size e).

(** A null pattern is a null pointer. *)
Definition pattern_of (ps : prod_spec) : res string :=
  match sp_pattern ps with None => Err OutOfBounds | Some p => Ok p end.

Definition eps_remove_prod_spec (e : EntryProdSpec) (ps : prod_spec) : res prod_spec :=
  let! p := pattern_of ps in
  Ok (if bool_decide (eps_pattern e = p) then Spec (Z.ldiff (sp_feedtype ps) (eps_feedtype e)) (sp_pattern ps) (sp_rgx ps) else ps).

Definition eps_isSubsetOf (e : EntryProdSpec) (ps : prod_spec) : res bool :=
  if Z.ldiff (eps_feedtype e) (sp_feedtype ps) =? 0
  then let! p := pattern_of ps in Ok (bool_decide (eps_pattern e = p))
  else Ok false.

Definition epc_sizeof_internal (prodSpecsSize : Z) : Z :=
  roundUp (u64 (sizeof_EntryProdClass - sizeof_EntryProdSpec + prodSpecsSize)) prodClassAlignment.

Definition epc_getSize (epc : EntryProdClass) : Z := epc_sizeof_internal (epc_prodSpecsSize epc).

(** [n] specifications from [val + i] on. *)
Fixpoint epc_sizeof_loop (n i : nat) (val : list prod_spec) (size : Z) : res Z :=
  match n with
  | O => Ok size
  | S n => let! ps := at_ix val i in let! p := pattern_of ps in epc_sizeof_loop n (S i) val (u64 (size + eps_sizeof p))
  end.

Definition epc_sizeof (prodClass : prod_class) : res Z :=
  let! size := epc_sizeof_loop (psa_len prodClass) 0 (psa_val prodClass) 0 in Ok (epc_sizeof_internal size).

Fixpoint epc_init_loop (n i : nat) (val : list prod_spec) (eps : Z) (m : gmap Z EntryProdSpec) :
    res (Z * gmap Z EntryProdSpec) :=
  match n with
  | O => Ok (eps, m)
  | S n =>
      let! ps := at_ix val i in
      let! p := pattern_of ps in
      let m := <[eps := eps_init (sp_feedtype ps) p]> m in
      let! eps := eps_next m eps in
      epc_init_loop n (S i) val eps m
  end.

Definition epc_init (prodClass : prod_class) : res EntryProdClass :=
  let! '(eps, m) := epc_init_loop (psa_len prodClass) 0 (psa_val prodClass) 0 ∅ in
  Ok (EntryProdClass_ (cl_from prodClass) (cl_to prodClass) eps m).

Definition epc_firstProdSpec (epc : EntryProdClass) : option Z :=
  if epc_prodSpecsSize epc =? 0 then None else Some 0.

Definition epc_nextProdSpec (epc : EntryProdClass) (prodSpec : Z) : res (option Z) :=
  let! nextProdSpec := eps_next (epc_prodSpecs epc) prodSpec in
  Ok (if nextProdSpec <? epc_prodSpecsSize epc then Some nextProdSpec else None).

Definition epc_fuel (epc : EntryProdClass) : nat := S (size (epc_prodSpecs epc)).

(** The loops over the specifications of an entry. *)
Fixpoint epc_fold {A} (fuel : nat) (epc : EntryProdClass) (f : EntryProdSpec → A → res (A + A)) (eps : option Z) (a : A) :
    res A :=
  match fuel with
  | O => Err OutOfFuel
  | S fuel =>
      match eps with
      | None => Ok a
      | Some off =>
          let! e := rd (epc_prodSpecs epc) off in
          let! r := f e a in
          match r with
          | inl a => Ok a
          | inr a => let! next := epc_nextProdSpec epc off in epc_fold fuel epc f next a
          end
      end
  end.

Definition epc_loop {A} (epc : EntryProdClass) (f : EntryProdSpec → A → res (A + A)) (a : A) : res A :=
  epc_fold (epc_fuel epc) epc f (epc_firstProdSpec epc) a.

Definition epc_numProdSpecs (epc : EntryProdClass) : res Z :=
  epc_loop epc (λ _ n, Ok (inr (u32 (n + 1)))) 0.

(** [n] specifications of the given subscription from [val + i] on. *)
Fixpoint epc_remove_loop (n i : nat) (epc : EntryProdClass) (val : list prod_spec) : res (list prod_spec) :=
  match n with
  | O => Ok val
  | S n =>
      let! ps := at_ix val i in
      let! ps := epc_loop epc (λ e ps, let! ps := eps_remove_prod_spec e ps in Ok (inr ps)) ps in
      epc_remove_loop n (S i) epc (<[i := ps]> val)
  end.

Definition epc_remove_prod_specs (epc : EntryProdClass) (givenSub : prod_class) : res prod_class :=
  let! val := epc_remove_loop (psa_len givenSub) 0 epc (psa_val givenSub) in
  Ok (Class_ (cl_from givenSub) (cl_to givenSub) (psa_len givenSub) val).

(** Whether one of [n] specifications from [val + i] on contains [e]. *)
Fixpoint subset_loop (n i : nat) (e : EntryProdSpec) (val : list prod_spec) : res bool :=
  match n with
  | O => Ok false
  | S n =>
      let! ps := at_ix val i in
      let! sub := eps_isSubsetOf e ps in
      if sub then Ok true else subset_loop n (S i) e val
  end.

Definition epc_isSubsetOf (epc : EntryProdClass) (givenSub : prod_class) : res bool :=
  epc_loop epc (λ e _,
    let! found := subset_loop (psa_len givenSub) 0 e (psa_val givenSub) in
    Ok (if found then inr true else inl false)) true.

(** [mem]: there is memory for the pattern. *)
Definition eps_get (e : EntryProdSpec) (ps : prod_spec) (mem : bool) : res (Z * prod_spec) :=
  let! '(status, ps) := cp_prod_spec ps (Spec (eps_feedtype e) (Some (eps_pattern e)) regex_zero) mem in
  Ok (if negb (status =? 0) then ULDB_SYSTEM else 0, ps).

Definition epc_getEverythingButProdSpecs (epc : EntryProdClass) (mem : bool) : res (Z * option prod_class) :=
  let! len := epc_numProdSpecs epc in
  Ok (match new_prod_class (Z.to_nat len) mem with
      | None => (ULDB_SYSTEM, None)
      | Some pc => (ULDB_SUCCESS, Some (Class_ (epc_from epc) (epc_to epc) (psa_len pc) (psa_val pc)))
      end).

(** *** Entries *)

Definition entry_sizeof_internal (prodClassSize : Z) : Z :=
  roundUp (u64 (sizeof_Entry - sizeof_EntryProdClass + prodClassSize)) entryAlignment.

Definition entry_sizeof (prodClass : prod_class) : res Z :=
  let! size := epc_sizeof prodClass in Ok (entry_sizeof_internal size).

Definition entry_init (pid protoVers : Z) (isNotifier isPrimary : bool) (sockAddr : sockaddr_in) (prodClass : prod_class) :
    res uldb_Entry :=
  let! epc := epc_init prodClass in
  Ok (Entry_ (entry_sizeof_internal (epc_getSize epc)) sockAddr pid protoVers isNotifier isPrimary epc).

Definition entry_isSubsetOf (entry : uldb_Entry) (givenSub : prod_class) : res bool :=
  epc_isSubsetOf (en_prodClass entry) givenSub.

Definition entry_removeSubscriptionFrom (entry : uldb_Entry) (sub : prod_class) : res prod_class :=
  let! sub := epc_remove_prod_specs (en_prodClass entry) sub in clss_scrunch sub.

(** The pointer [ps] is an index. *)
Definition get_spec (mems : nat → bool) (e : EntryProdSpec) (a : Z * nat * list prod_spec) :
    res (Z * nat * list prod_spec + Z * nat * list prod_spec) :=
  let '(_, ps, val) := a in
  let! old := at_ix val ps in
  let! '(status, new) := eps_get e old (mems ps) in
  let val := <[ps := new]> val in
  Ok (if negb (status =? 0) then inl (status, ps, val) else inr (status, S ps, val)).

Definition entry_getProdClass (entry : uldb_Entry) (mem : bool) (mems : nat → bool) : res (Z * option prod_class) :=
  let epc := en_prodClass entry in
  let! '(status, pc) := epc_getEverythingButProdSpecs epc mem in
  match pc with
  | None => Ok (status, None)
  | Some pc =>
      let! '(status, _, val) := epc_loop epc (get_spec mems) (ULDB_SUCCESS, O, psa_val pc) in
      Ok (status, if negb (status =? 0) then None else Some (Class_ (cl_from pc) (cl_to pc) (psa_len pc) val))
  end.

(** *** Segments: a pointer to an entry is an offset *)

Definition seg_size (capacity : Z) : Z := u64 (sizeof_Segment - sizeof_Entry + roundUp capacity entryAlignment).
Definition seg_entriesCapacity (nbytes : Z) : Z := u64 (nbytes - sizeof_Segment + sizeof_Entry).

Definition seg_init (nbytes : Z) : Segment := Segment_ (seg_entriesCapacity nbytes) 0 0 ∅.

Definition seg_getNeededCapacity (segment : Segment) (size : Z) : Z := u64 (entriesSize segment + size).

(** The objects of [m] that begin in the [n] bytes from [src] on, moved to [dst]. *)
Definition shm_moved {A} (m : gmap Z A) (dst src n : Z) : gmap Z A :=
  kmap (λ o, o - src + dst) (filter (λ p, src ≤ p.1 < src + n) m).

(** The result and the destination. *)
Definition seg_copy (dest src : Segment) : Z * Segment :=
  if entriesCapacity dest <? entriesSize src then (ULDB_SYSTEM, dest)
  else (ULDB_SUCCESS, Segment_ (entriesCapacity dest) (entriesSize src) (numEntries src) (shm_moved (sg_entries src) 0 0 (entriesSize src))).

(** [mem]: there is memory. *)
Definition seg_clone (segment : Segment) (mem : bool) : Z * option Segment :=
  let nbytes := seg_size (entriesCapacity segment) in
  if negb mem then (ULDB_SYSTEM, None)
  else
    let '(status, copy) := seg_copy (seg_init nbytes) segment in
    if negb (status =? 0) then (status, None) else (ULDB_SUCCESS, Some copy).

Definition seg_firstEntry (segment : Segment) : option Z := if entriesSize segment =? 0 then None else Some 0.

Definition seg_nextEntry (segment : Segment) (entry : Z) : res (option Z) :=
  let! e := rd (sg_entries segment) entry in
  let nextEntry := entry + en_size e in
  Ok (if entriesSize segment <=? nextEntry then None else Some nextEntry).

Definition seg_tailEntry (segment : Segment) : Z := entriesSize segment.

Definition seg_fuel (segment : Segment) : nat := S (size (sg_entries segment)).

(** ** The state *)

Record uldb := Uldb {
  ul_open : bool;
  ul_lock : option srwl_Lock;
  ul_attached : bool;
  ul_shm : option Segment;
  ul_sem : bool;
  ul_calls : list bool;
  ul_killed : list Z }.

Implicit Types (u : uldb) (segment : Segment).

Definition set_open u b : uldb := Uldb b (ul_lock u) (ul_attached u) (ul_shm u) (ul_sem u) (ul_calls u) (ul_killed u).
Definition set_lock u l : uldb := Uldb (ul_open u) l (ul_attached u) (ul_shm u) (ul_sem u) (ul_calls u) (ul_killed u).
Definition set_attached u b : uldb := Uldb (ul_open u) (ul_lock u) b (ul_shm u) (ul_sem u) (ul_calls u) (ul_killed u).
Definition set_shm u s : uldb := Uldb (ul_open u) (ul_lock u) (ul_attached u) s (ul_sem u) (ul_calls u) (ul_killed u).
Definition set_sem u b : uldb := Uldb (ul_open u) (ul_lock u) (ul_attached u) (ul_shm u) b (ul_calls u) (ul_killed u).
Definition set_calls u l : uldb := Uldb (ul_open u) (ul_lock u) (ul_attached u) (ul_shm u) (ul_sem u) l (ul_killed u).
Definition set_killed u l : uldb := Uldb (ul_open u) (ul_lock u) (ul_attached u) (ul_shm u) (ul_sem u) (ul_calls u) l.

(** The outcome of the next system call. *)
Definition ask u : bool * uldb :=
  match ul_calls u with [] => (true, u) | b :: l => (b, set_calls u l) end.

(** The segment that [sm->segment] points to. *)
Definition attached u : res Segment :=
  if ul_attached u then match ul_shm u with None => Err OutOfBounds | Some s => Ok s end else Err OutOfBounds.

(** ** Shared memory *)

Definition sm_clear u : uldb := set_attached u false.

Definition sm_setShmId u : Z * uldb :=
  let '(ok, u) := ask u in
  (if negb ok then ULDB_SYSTEM else match ul_shm u with None => ULDB_EXIST | Some _ => ULDB_SUCCESS end, u).

Definition sm_attach u : Z * uldb :=
  let '(status, u) := sm_setShmId u in
  if status =? 0 then
    let '(ok, u) := ask u in
    if negb ok then (ULDB_SYSTEM, u) else (ULDB_SUCCESS, set_attached u true)
  else (status, u).

Definition sm_detach u : Z * uldb :=
  if negb (ul_attached u) then (ULDB_SUCCESS, u)
  else
    let '(ok, u) := ask u in
    (if ok then ULDB_SUCCESS else ULDB_SYSTEM, set_attached u false).

Definition sm_init u : Z * uldb :=
  let '(status, u) := sm_attach (sm_clear u) in
  if status =? 0 then sm_detach u else (status, u).

Definition sm_delete u : Z * uldb :=
  let '(status, u) := sm_setShmId u in
  if negb (status =? 0) then (status, u)
  else
    let '(ok, u) := ask u in
    if negb ok then (ULDB_SYSTEM, u) else (ULDB_SUCCESS, set_shm u None).

(** With a structure of its own. *)
Definition sm_deleteByKey u : Z * uldb :=
  let '(status, u') := sm_init u in
  let '(status, u') := if ULDB_SUCCESS =? status then sm_delete u' else (status, u') in
  (status, set_attached u' (ul_attached u)).

(** The memory of a new segment is zero. *)
Definition sm_create u (size : Z) : Z * uldb :=
  let nbytes := seg_size size in
  let u := sm_clear u in
  let '(ok, u) := ask u in
  if negb ok then (ULDB_SYSTEM, u)
  else
    match ul_shm u with
    | Some _ => (ULDB_EXIST, u)
    | None =>
        let u := set_shm u (Some (Segment_ 0 0 0 ∅)) in
        let '(status, u) := sm_attach u in
        if negb (status =? 0) then let '(_, u) := sm_delete u in (status, u)
        else sm_detach (set_shm u (Some (seg_init nbytes)))
    end.

(** [size] is an unsigned integer. *)
Definition sm_ensureSpaceForEntry u (size : Z) : res (Z * uldb) :=
  let! segment := attached u in
  let neededCapacity := seg_getNeededCapacity segment size in
  if neededCapacity <=? entriesCapacity segment then Ok (ULDB_SUCCESS, u)
  else
    let '(mem, u) := ask u in
    match seg_clone segment mem with
    | (status, None) => Ok (status, u)
    | (_, Some clone) =>
        let '(status, u) := sm_detach u in
        if negb (status =? 0) then Ok (status, u)
        else
          let '(status, u) := sm_delete u in
          if negb (status =? 0) then Ok (status, u)
          else
            let '(status, u) := sm_create u (u64 (2 * neededCapacity)) in
            if negb (status =? 0) then Ok (status, u)
            else
              let '(status, u) := sm_attach u in
              if negb (status =? 0) then Ok (status, u)
              else
                let! segment := attached u in
                let '(status, segment) := seg_copy segment clone in
                Ok (status, set_shm u (Some segment))
    end.

(** An entry is written within the capacity of the segment. *)
Definition sm_append u (pid protoVers : Z) (isNotifier isPrimary : bool) (sockAddr : sockaddr_in) (prodClass : prod_class) :
    res uldb :=
  let! segment := attached u in
  let entry := seg_tailEntry segment in
  let! e := entry_init pid protoVers isNotifier isPrimary sockAddr prodClass in
  if entriesCapacity segment <? entry + en_size e then Err OutOfBounds
  else Ok (set_shm u (Some (Segment_ (entriesCapacity segment) (u64 (entriesSize segment + en_size e))
                              (u32 (numEntries segment + 1)) (<[entry := e]> (sg_entries segment))))).

Definition sm_addUpstreamLdm u (pid protoVers : Z) (isNotifier isPrimary : bool) (sockAddr : sockaddr_in)
    (prodClass : prod_class) : res (Z * uldb) :=
  let! size := entry_sizeof prodClass in
  let! '(status, u) := sm_ensureSpaceForEntry u (u32 size) in
  if negb (status =? 0) then Ok (status, u)
  else let! u := sm_append u pid protoVers isNotifier isPrimary sockAddr prodClass in Ok (ULDB_SUCCESS, u).

(** The entries from [entry] on. *)
Fixpoint vet_loop (fuel : nat) segment (entry : option Z) (myPid protoVers : Z) (isNotifier : bool) (sockAddr : sockaddr_in)
    (allow : prod_class) u : res (Z * prod_class * uldb) :=
  match fuel with
  | O => Err OutOfFuel
  | S fuel =>
      match entry with
      | None => Ok (0, allow, u)
      | Some off =>
          let! e := rd (sg_entries segment) off in
          let continue allow u :=
            let! next := seg_nextEntry segment off in
            vet_loop fuel segment next myPid protoVers isNotifier sockAddr allow u in
          if myPid =? en_pid e then Ok (ULDB_EXIST, allow, u)
          else if (protoVers =? en_protoVers e) && ipAddressesAreEqual sockAddr (en_sockAddr e)
                  && negb isNotifier && negb (en_isNotifier e) then
            let! sub := entry_isSubsetOf e allow in
            if sub then
              let '(ok, u) := ask u in
              continue allow (if ok then set_killed u (ul_killed u ++ [en_pid e]) else u)
            else
              let! allow := entry_removeSubscriptionFrom e allow in
              if (psa_len allow <=? 0)%nat then Ok (0, allow, u) else continue allow u
          else continue allow u
      end
  end.

Definition sm_vetUpstreamLdm u (myPid protoVers : Z) (isNotifier : bool) (sockAddr : sockaddr_in) (desired : prod_class) :
    res (Z * option prod_class * uldb) :=
  let! segment := attached u in
  let '(mem, u) := ask u in
  let '(mems, u) := ask u in
  let! allow := dup_prod_class desired mem (λ _, mems) in
  match allow with
  | None => Ok (ULDB_SYSTEM, None, u)
  | Some allow =>
      let! '(status, allow, u) :=
        vet_loop (seg_fuel segment) segment (seg_firstEntry segment) myPid protoVers isNotifier sockAddr allow u in
      Ok (status, if negb (status =? 0) then None else Some allow, u)
  end.

(** [antiDos] is the result of [isAntiDosEnabled()]. *)
Definition sm_add u (antiDos : bool) (pid protoVers : Z) (isNotifier isPrimary : bool) (sockAddr : sockaddr_in)
    (desired : prod_class) : res (Z * option prod_class * uldb) :=
  let! '(status, sub, u) :=
    if antiDos then sm_vetUpstreamLdm u pid protoVers isNotifier sockAddr desired
    else
      let '(mem, u) := ask u in
      let '(mems, u) := ask u in
      let! sub := dup_prod_class desired mem (λ _, mems) in
      Ok (match sub with None => ULDB_SYSTEM | Some _ => 0 end, sub, u) in
  match sub with
  | Some sub =>
      if status =? 0 then
        let! '(status, u) :=
          if (0 <? psa_len sub)%nat then sm_addUpstreamLdm u pid protoVers isNotifier isPrimary sockAddr sub
          else Ok (status, u) in
        Ok (status, if negb (status =? 0) then None else Some sub, u)
      else Ok (status, None, u)
  | None => Ok (status, None, u)
  end.

Fixpoint find_loop (fuel : nat) segment (pid : Z) (entry : option Z) : res (option Z) :=
  match fuel with
  | O => Err OutOfFuel
  | S fuel =>
      match entry with
      | None => Ok None
      | Some off =>
          let! e := rd (sg_entries segment) off in
          if en_pid e =? pid then Ok (Some off)
          else let! next := seg_nextEntry segment off in find_loop fuel segment pid next
      end
  end.

Definition sm_remove u (pid : Z) : res (Z * uldb) :=
  let! segment := attached u in
  let! entry := find_loop (seg_fuel segment) segment pid (seg_firstEntry segment) in
  match entry with
  | None => Ok (ULDB_EXIST, u)
  | Some off =>
      let! e := rd (sg_entries segment) off in
      let entrySize := u32 (en_size e) in
      let! nextEntry := seg_nextEntry segment off in
      let size := u64 (entriesSize segment - entrySize) in
      (* the objects up to the new end *)
      let entries :=
        match nextEntry with
        | None => shm_moved (sg_entries segment) 0 0 off
        | Some next => shm_moved (sg_entries segment) 0 0 off ∪ shm_moved (sg_entries segment) off next (seg_tailEntry segment - next)
        end in
      Ok (ULDB_SUCCESS, set_shm u (Some (Segment_ (entriesCapacity segment) size (u32 (numEntries segment - 1)) entries)))
  end.

(** ** The database

    [getpid] is the process that calls. *)

Definition db_verifyOpen u : Z := if ul_open u then ULDB_SUCCESS else ULDB_INIT.
Definition db_verifyClosed u : Z := if negb (ul_open u) then ULDB_SUCCESS else ULDB_INIT.

(** A function of the lock, whose calls of [semop()] have the next outcomes. *)
Fixpoint finish {A} (c : call A) u : A * uldb :=
  match c with
  | Return a => (a, u)
  | Semop _ k => let '(ok, u) := ask u in finish (k ok) u
  end.

Definition with_lock u (f : srwl_Lock → Z → call (Z * srwl_Lock)) (getpid : Z) : res (Z * uldb) :=
  match ul_lock u with
  | None => Err OutOfBounds
  | Some lock => let '((status, lock), u) := finish (f lock getpid) u in Ok (status, set_lock u (Some lock))
  end.

Definition db_lock u (forWriting : bool) (getpid : Z) : res (Z * uldb) :=
  let status := db_verifyOpen u in
  if ULDB_SUCCESS =? status then
    let! '(status, u) := with_lock u (if forWriting then srwl_writeLock else srwl_readLock) getpid in
    if negb (status =? 0) then Ok (ULDB_SYSTEM, u)
    else
      let '(status, u) := sm_attach u in
      if negb (status =? 0) then let! '(_, u) := with_lock u srwl_unlock getpid in Ok (status, u)
      else Ok (status, u)
  else Ok (status, u).

Definition db_readLock u := db_lock u false.
Definition db_writeLock u := db_lock u true.

Definition db_unlock u (getpid : Z) : res (Z * uldb) :=
  let '(status, u) := sm_detach u in
  if negb (status =? 0) then Ok (status, u)
  else
    let! '(st, u) := with_lock u srwl_unlock getpid in
    Ok (if negb (st =? 0) then ULDB_SYSTEM else status, u).

Definition uldb_getKey u : Z * uldb := let '(ok, u) := ask u in (if ok then ULDB_SUCCESS else ULDB_SYSTEM, u).

Definition uldb_init u : Z * uldb :=
  let status := db_verifyClosed u in
  if negb (status =? 0) then (status, u) else uldb_getKey u.

(** [srwl_create()] or [srwl_get()], and whether it succeeded. *)
Definition new_lock u (create : bool) (getpid : Z) : bool * uldb :=
  let '(mem, u) := ask u in
  let '(del, u) := ask u in
  let '(ok, u) := ask u in
  let '(set, u) := ask u in
  let found := if create then ul_sem u else ul_sem u && ok in
  let '(status, lock, sem) := initLock create (if found then Some (Semset 1 0) else None) getpid mem del ok set in
  (status =? RWL_SUCCESS, set_sem (match lock with None => u | Some l => set_lock u (Some l) end)
     (if create && mem then bool_decide (sem ≠ None) else ul_sem u)).

Definition uldb_create u (capacity : Z) (getpid : Z) : Z * uldb :=
  let '(status, u) := uldb_init u in
  if negb (status =? 0) then (status, u)
  else
    let '(status, u) := sm_create u capacity in
    if negb (status =? 0) then (status, u)
    else
      let '(ok, u) := new_lock u true getpid in
      if negb ok then let '(_, u) := sm_delete u in (ULDB_SYSTEM, u)
      else (ULDB_SUCCESS, set_open u true).

Definition uldb_open u (getpid : Z) : Z * uldb :=
  let '(status, u) := uldb_init u in
  if negb (status =? 0) then (status, u)
  else
    let '(status, u) := sm_init u in
    if status =? 0 then
      let '(ok, u) := new_lock u false getpid in
      if negb ok then (ULDB_SYSTEM, u) else (ULDB_SUCCESS, set_open u true)
    else (status, u).

Definition uldb_close u (getpid : Z) : Z * uldb :=
  if ul_open u then
    let '(status, lock) := srwl_free (ul_lock u) getpid in
    if status =? RWL_SUCCESS then (ULDB_SUCCESS, set_open (set_lock u None) false)
    else (ULDB_SYSTEM, set_lock u lock)
  else (ULDB_INIT, u).

(** The set of semaphores is that of the key. *)
Definition uldb_delete u : Z * uldb :=
  let '(status, u) := uldb_getKey u in
  let '(status, u) :=
    if negb (status =? 0) then (status, u)
    else
      let '(status, u) := sm_deleteByKey u in
      if negb (status =? 0) && negb (ULDB_EXIST =? status) then (status, u)
      else
        let '(ok, u) := ask u in
        let '(rmid, u) := ask u in
        let '(lockStatus, sem) := srwl_deleteByKey (if ul_sem u then Some (Semset 1 0) else None) ok rmid in
        (if negb (lockStatus =? 0) then
           if negb (RWL_EXIST =? lockStatus) then ULDB_SYSTEM
           else if ULDB_SUCCESS =? status then ULDB_EXIST else status
         else status, set_sem u (bool_decide (sem ≠ None))) in
  (status, set_open u false).

Definition uldb_getSize u (getpid : Z) : res (Z * option Z * uldb) :=
  let! '(status, u) := db_readLock u getpid in
  if negb (status =? 0) then Ok (status, None, u)
  else
    let! segment := attached u in
    let! '(status, u) := db_unlock u getpid in
    Ok (status, Some (numEntries segment), u).

Definition uldb_addProcess u (antiDos : bool) (pid protoVers : Z) (sockAddr : sockaddr_in) (desired : prod_class)
    (isNotifier isPrimary : bool) (getpid : Z) : res (Z * option prod_class * uldb) :=
  if pid <=? 0 then Ok (ULDB_ARG, None, u)
  else
    let! '(status, u) := db_writeLock u getpid in
    if negb (status =? 0) then Ok (status, None, u)
    else
      let! '(status, sub, u) := sm_add u antiDos pid protoVers isNotifier isPrimary sockAddr desired in
      let! '(unlockStatus, u) := db_unlock u getpid in
      let status := if negb (unlockStatus =? 0) then ULDB_SYSTEM else status in
      Ok (status, if negb (status =? 0) then None else sub, u).

Definition uldb_remove u (pid : Z) (getpid : Z) : res (Z * uldb) :=
  if pid <=? 0 then Ok (ULDB_ARG, u)
  else
    let! '(status, u) := db_writeLock u getpid in
    if negb (status =? 0) then Ok (status, u)
    else
      let! '(status, u) := sm_remove u pid in
      let! '(status, u) := db_unlock u getpid in
      Ok (if negb (status =? 0) then ULDB_SYSTEM else status, u).

Definition uldb_readLock := db_readLock.
Definition uldb_writeLock := db_writeLock.
Definition uldb_unlock := db_unlock.

(** The iterator: a snapshot, and the offset of the current entry. *)
Record uldb_Iter := Iter { it_segment : Segment; it_entry : option Z }.

Definition uldb_getIterator u (mem : bool) (getpid : Z) : res (Z * option uldb_Iter * uldb) :=
  if negb mem then Ok (ULDB_SYSTEM, None, u)
  else
    let! '(status, u) := db_readLock u getpid in
    if negb (status =? 0) then Ok (status, None, u)
    else
      let! segment := attached u in
      let '(ok, u) := ask u in
      let '(status, clone) := seg_clone segment ok in
      let! '(st, u) := db_unlock u getpid in
      let status := if negb (st =? 0) && (ULDB_SUCCESS =? status) then ULDB_SYSTEM else status in
      Ok (status, if negb (status =? 0) then None else (λ s, Iter s None) <$> clone, u).

Definition uldb_iter_firstEntry (iter : uldb_Iter) : option Z * uldb_Iter :=
  let entry := seg_firstEntry (it_segment iter) in (entry, Iter (it_segment iter) entry).

Definition uldb_iter_nextEntry (iter : uldb_Iter) : res (option Z * uldb_Iter) :=
  match it_entry iter with
  | None => Err OutOfBounds
  | Some off => let! entry := seg_nextEntry (it_segment iter) off in Ok (entry, Iter (it_segment iter) entry)
  end.
End uldb.
