(* ===== verification/UldbOk.v ===== *)
(** * The registry of upstream LDM processes on a well-formed segment

    Objects that lie one after the other are a list ([lay]), and the loops over them are
    loops over the list; the segment of the registry is a list of entries. *)

From stdpp Require Import strings.
From S2P Require Import Prelude Timestamp Xlen ProdClass SemRWLock Uldb.

(** ** Objects one after the other *)

Section lay.
Context {A : Type} (sz : A → Z).
Implicit Types (l : list A).

Fixpoint lay (off : Z) l : gmap Z A := match l with [] => ∅ | x :: l => <[off := x]> (lay (off + sz x) l) end.
Fixpoint span l : Z := match l with [] => 0 | x :: l => sz x + span l end.

Definition sized l : Prop := Forall (λ x, 0 < sz x) l.

Lemma span_app l1 l2 : span (l1 ++ l2) = span l1 + span l2.
Proof. induction l1 as [|x l1 IH]; simpl; [done|]. rewrite IH. lia. Qed.

Lemma span_nonneg l : sized l → 0 ≤ span l.
Proof. induction 1; simpl; lia. Qed.

Lemma span_zero l : sized l → span l = 0 → l = [].
Proof. intros Hs. destruct Hs as [|x l Hx Hs]; [done|]. simpl. pose proof (span_nonneg l Hs). lia. Qed.

Lemma lay_range off l o x : sized l → lay off l !! o = Some x → off ≤ o ∧ o + sz x ≤ off + span l ∧ 0 < sz x.
Proof.
  intros Hs. revert off. induction Hs as [|y l Hy Hs IH]; intros off; simpl; [by rewrite lookup_empty|].
  pose proof (span_nonneg l Hs). intros [[<- <-]|[_ H1]]%lookup_insert_Some; [lia|]. apply IH in H1. lia.
Qed.

Lemma lay_outside off l o : sized l → o < off ∨ off + span l ≤ o → lay off l !! o = None.
Proof.
  intros Hs Ho. destruct (lay off l !! o) as [x|] eqn:Hx; [|done]. apply (lay_range _ _ _ _ Hs) in Hx. lia.
Qed.

Lemma lay_app off l1 l2 : sized l1 → sized l2 → lay off (l1 ++ l2) = lay off l1 ∪ lay (off + span l1) l2.
Proof.
  intros Hs1 Hs2. revert off. induction Hs1 as [|x l1 Hx Hs1 IH]; intros off; simpl.
  - rewrite (left_id_L ∅ (∪)). by rewrite Z.add_0_r.
  - rewrite IH, insert_union_l. by rewrite Z.add_assoc.
Qed.

Lemma lay_snoc l x : sized l → 0 < sz x → lay 0 (l ++ [x]) = <[span l := x]> (lay 0 l).
Proof.
  intros Hs Hx. rewrite lay_app by (done || by repeat constructor). simpl.
  rewrite insert_empty, <- insert_union_singleton_r by (apply lay_outside; [done|lia]). done.
Qed.

Lemma lay_at off l1 x l2 : sized (l1 ++ x :: l2) → lay off (l1 ++ x :: l2) !! (off + span l1) = Some x.
Proof.
  intros Hs. apply Forall_app in Hs as [Hs1 Hs2]. rewrite lay_app by done.
  rewrite lookup_union_r by (apply lay_outside; [done|lia]). simpl. apply lookup_insert_eq.
Qed.

Lemma lay_size off l : sized l → size (lay off l) = length l.
Proof.
  intros Hs. revert off. induction Hs as [|x l Hx Hs IH]; intros off; simpl; [done|].
  rewrite map_size_insert_None by (apply lay_outside; [done|lia]). by rewrite IH.
Qed.

Lemma lay_shift off d l o : lay (off + d) l !! (o + d) = lay off l !! o.
Proof.
  revert off. induction l as [|x l IH]; intros off; simpl; [done|]. destruct (decide (off = o)) as [->|Hne].
  - by rewrite !lookup_insert_eq.
  - rewrite !lookup_insert_ne by lia. rewrite <- IH. by replace (off + d + sz x) with (off + sz x + d) by lia.
Qed.

Lemma shm_moved_lookup (m : gmap Z A) dst src n o :
  shm_moved m dst src n !! o = if decide (dst ≤ o < dst + n) then m !! (o - dst + src) else None.
Proof.
  unfold shm_moved. set (f := λ o, o - src + dst). assert (Inj (=) (=) f) as Hinj by (intros x y; unfold f; lia).
  assert (∀ m' : gmap Z A, (kmap f m' : gmap Z A) !! o = m' !! (o - dst + src)) as Hk.
  { intros m'. rewrite <- (lookup_kmap (M1:=gmap Z) (M2:=gmap Z) f m' (o - dst + src)). f_equal. unfold f. lia. }
  rewrite Hk, map_lookup_filter. destruct (m !! (o - dst + src)) as [x|] eqn:Hx; simpl.
  - destruct (decide (dst ≤ o < dst + n)).
    + rewrite option_guard_True by lia. done.
    + rewrite option_guard_False by lia. done.
  - by destruct (decide _).
Qed.

Lemma shm_moved_lay l1 l2 l3 dst :
  sized (l1 ++ l2 ++ l3) → shm_moved (lay 0 (l1 ++ l2 ++ l3)) dst (span l1) (span l2) = lay dst l2.
Proof.
  intros Hs. apply Forall_app in Hs as [Hs1 [Hs2 Hs3]%Forall_app]. apply map_eq. intros o.
  rewrite shm_moved_lookup. destruct (decide _) as [Ho|Ho].
  - rewrite !lay_app by (try apply Forall_app; done). rewrite Z.add_0_l.
    rewrite lookup_union_r by (apply lay_outside; [done|lia]).
    rewrite lookup_union_l by (apply lay_outside; [done|lia]).
    rewrite <- (lay_shift dst (span l1 - dst) l2 o). f_equal; [lia|f_equal; lia].
  - symmetry. apply lay_outside; [done|lia].
Qed.
End lay.

Section ok.
Context {Re : Regex}.

(** The pointer to the objects [l] after [pre]. *)
Definition obj_ptr {A} (sz : A → Z) (pre l : list A) : option Z := match l with [] => None | _ => Some (span sz pre) end.

Lemma obj_ptr_next {A} (sz : A → Z) pre x l :
  sized sz (pre ++ x :: l) →
  obj_ptr sz (pre ++ [x]) l = if span sz (pre ++ x :: l) <=? span sz pre + sz x then None else Some (span sz pre + sz x).
Proof.
  intros Hs. apply Forall_app in Hs as [_ Hs]. inversion_clear Hs as [|? ? Hx Hl].
  rewrite span_app. cbn [span]. destruct l as [|y l]; cbn [obj_ptr span].
  - rewrite (proj2 (Z.leb_le _ _)) by lia. done.
  - inversion_clear Hl as [|? ? Hy Hl']. pose proof (span_nonneg sz l Hl').
    rewrite (proj2 (Z.leb_gt _ _)) by lia. rewrite span_app. simpl. f_equal. lia.
Qed.

(** ** Subscriptions of entries *)

Record epc_rep (epc : EntryProdClass) (ss : list EntryProdSpec) : Prop := {
  er_specs : epc_prodSpecs epc = lay eps_size 0 ss;
  er_size : epc_prodSpecsSize epc = span eps_size ss;
  er_sized : sized eps_size ss;
}.

Fixpoint list_loop {A} (f : EntryProdSpec → A → res (A + A)) (ss : list EntryProdSpec) (a : A) : res A :=
  match ss with
  | [] => Ok a
  | e :: ss => let! r := f e a in match r with inl a => Ok a | inr a => list_loop f ss a end
  end.

Lemma epc_at epc pre e ss : epc_rep epc (pre ++ e :: ss) → rd (epc_prodSpecs epc) (span eps_size pre) = Ok e.
Proof. intros [H1 _ H3]. unfold rd. rewrite H1. by rewrite (lay_at eps_size 0 pre e ss H3 : _ !! span eps_size pre = _). Qed.

Lemma epc_next epc pre e ss :
  epc_rep epc (pre ++ e :: ss) → epc_nextProdSpec epc (span eps_size pre) = Ok (obj_ptr eps_size (pre ++ [e]) ss).
Proof.
  intros Hr. unfold epc_nextProdSpec, eps_next. rewrite (epc_at _ _ _ _ Hr), !bind_Ok. destruct Hr as [_ H2 H3].
  rewrite (obj_ptr_next _ _ _ _ H3), H2, Z.ltb_antisym. by destruct (_ <=? _).
Qed.

Lemma epc_fold_spec {A} fuel epc (f : EntryProdSpec → A → res (A + A)) pre ss a :
  epc_rep epc (pre ++ ss) → (length ss < fuel)%nat → epc_fold fuel epc f (obj_ptr eps_size pre ss) a = list_loop f ss a.
Proof.
  revert fuel pre a. induction ss as [|e ss IH]; intros fuel pre a Hr Hf; (destruct fuel as [|fuel]; [simpl in Hf; lia|]); [done|].
  cbn [epc_fold obj_ptr list_loop length] in *. rewrite (epc_at _ _ _ _ Hr), bind_Ok.
  destruct (f e a) as [[a'|a']|]; [done| |done]. rewrite !bind_Ok, (epc_next _ _ _ _ Hr), bind_Ok.
  apply IH; [by rewrite <- app_assoc|lia].
Qed.

Lemma epc_loop_spec {A} epc (f : EntryProdSpec → A → res (A + A)) ss a : epc_rep epc ss → epc_loop epc f a = list_loop f ss a.
Proof.
  intros Hr. unfold epc_loop. assert (epc_firstProdSpec epc = obj_ptr eps_size [] ss) as ->.
  { unfold epc_firstProdSpec. destruct Hr as [_ -> Hs]. destruct ss as [|e ss]; [done|]. cbn [span obj_ptr].
    inversion_clear Hs as [|? ? He Hs']. pose proof (span_nonneg eps_size ss Hs'). by rewrite (proj2 (Z.eqb_neq _ _)) by lia. }
  apply epc_fold_spec; [done|]. unfold epc_fuel. destruct Hr as [-> _ Hs]. rewrite lay_size by done. lia.
Qed.

(** A bit of a feedtype with a pattern: what an entry feeds, and what a subscription asks for. *)
Definition feeds (e : uldb_Entry) (n : Z) (p : string) : Prop :=
  ∃ o s, epc_prodSpecs (en_prodClass e) !! o = Some s ∧ eps_pattern s = p ∧ Z.testbit (eps_feedtype s) n = true.
Definition demands (sub : prod_class) (n : Z) (p : string) : Prop :=
  ∃ s, s ∈ specs sub ∧ sp_pattern s = Some p ∧ Z.testbit (sp_feedtype s) n = true.

Definition has_pattern (s : prod_spec) : Prop := is_Some (sp_pattern s).
Definition sub_ok (sub : prod_class) : Prop := class_wf sub ∧ Forall has_pattern (specs sub).

Lemma lay_elem {A} (sz : A → Z) l x : sized sz l → (∃ o, lay sz 0 l !! o = Some x) ↔ x ∈ l.
Proof.
  intros Hs. split.
  - intros [o Ho]. revert Ho. generalize 0. clear Hs. induction l as [|y l IH]; intros off; simpl; [by rewrite lookup_empty|].
    intros [[_ ->]|[_ H]]%lookup_insert_Some; [constructor|]. constructor 2. by eapply IH.
  - intros (l1 & l2 & ->)%list_elem_of_split. eexists. by apply lay_at.
Qed.

Lemma feeds_elem e ss n p :
  epc_rep (en_prodClass e) ss → feeds e n p ↔ ∃ s, s ∈ ss ∧ eps_pattern s = p ∧ Z.testbit (eps_feedtype s) n = true.
Proof.
  intros [H1 _ H3]. unfold feeds. rewrite H1. split.
  - intros (o & s & Ho & H). exists s. split; [|done]. apply (lay_elem eps_size ss s H3). eauto.
  - intros (s & Hs & H). apply (lay_elem eps_size ss s H3) in Hs as [o Ho]. eauto.
Qed.

(** *** Subsets *)

Lemma ldiff_zero a b n : Z.ldiff a b = 0 → Z.testbit a n = true → Z.testbit b n = true.
Proof.
  intros Hd Ha. pose proof (Z.ldiff_spec a b n) as Hn. rewrite Hd, Z.bits_0, Ha in Hn. by destruct (Z.testbit b n).
Qed.

Lemma subset_loop_spec n i e val :
  (i + n ≤ length val)%nat → Forall has_pattern (take n (drop i val)) →
  ∃ b, subset_loop n i e val = Ok b ∧
    (b = true ↔ ∃ s, s ∈ take n (drop i val) ∧ Z.ldiff (eps_feedtype e) (sp_feedtype s) = 0 ∧ sp_pattern s = Some (eps_pattern e)).
Proof.
  revert i. induction n as [|n IH]; intros i Hl Hp.
  - exists false. split; [done|]. split; [done|]. by intros (s & Hs%elem_of_nil & _).
  - destruct (lookup_lt_is_Some_2 val i) as [ps Hps]; [lia|]. rewrite (drop_S _ _ _ Hps) in Hp |- *. cbn [take] in Hp |- *.
    inversion_clear Hp as [|? ? [p Hpp] Hp']. cbn [subset_loop]. rewrite (at_ix_Some _ _ _ Hps), bind_Ok.
    unfold eps_isSubsetOf, pattern_of. rewrite Hpp. destruct (IH (S i)) as (b & -> & Hb); [lia|exact Hp'|].
    destruct (Z.eqb_spec (Z.ldiff (eps_feedtype e) (sp_feedtype ps)) 0) as [Hd|Hd]; rewrite !bind_Ok;
      [destruct (decide (eps_pattern e = p)) as [<-|Hne]; [rewrite bool_decide_true by done|rewrite bool_decide_false by done]|].
    + exists true. split; [done|]. split; [|done]. intros _. exists ps. split; [constructor|done].
    + exists b. split; [done|]. rewrite Hb. split.
      * intros (s & Hs & H). exists s. split; [by constructor 2|done].
      * intros (s & [->|Hs]%elem_of_cons & H1 & H2); [congruence|]. by exists s.
    + exists b. split; [done|]. rewrite Hb. split.
      * intros (s & Hs & H). exists s. split; [by constructor 2|done].
      * intros (s & [->|Hs]%elem_of_cons & H1 & H2); [congruence|]. by exists s.
Qed.

Definition contained (ss : list EntryProdSpec) (sub : prod_class) : Prop :=
  ∀ e, e ∈ ss → ∃ s, s ∈ specs sub ∧ Z.ldiff (eps_feedtype e) (sp_feedtype s) = 0 ∧ sp_pattern s = Some (eps_pattern e).

Lemma isSubsetOf_spec epc ss sub :
  epc_rep epc ss → sub_ok sub → ∃ b, epc_isSubsetOf epc sub = Ok b ∧ (b = true ↔ contained ss sub).
Proof.
  intros Hr [Hwf Hp]. unfold epc_isSubsetOf. rewrite (epc_loop_spec _ _ _ _ Hr). clear Hr.
  induction ss as [|e ss IH]; [exists true; split; [done|]; split; [|done]; by intros _ e He%elem_of_nil|]. cbn [list_loop].
  destruct (subset_loop_spec (psa_len sub) 0 e (psa_val sub)) as (b & -> & Hb); [done|exact Hp|]. rewrite !bind_Ok.
  rewrite drop_0 in Hb. fold (specs sub) in Hb. destruct b; cycle 1.
  - exists false. split; [done|]. split; [done|]. intros Hc. apply Hb. apply Hc. constructor.
  - destruct IH as (b & Hrun & Hb2). exists b. split; [exact Hrun|]. rewrite Hb2. split.
    + intros Hc e' [->|He']%elem_of_cons; [by apply Hb|by apply Hc].
    + intros Hc e' He'. apply Hc. by constructor 2.
Qed.

Lemma contained_demands e ss sub n p :
  epc_rep (en_prodClass e) ss → contained ss sub → feeds e n p → demands sub n p.
Proof.
  intros Hr Hc (s & Hs & <- & Hn)%(feeds_elem _ _ _ _ Hr). destruct (Hc s Hs) as (d & Hd & Hz & Hp).
  exists d. split; [done|]. split; [done|]. by eapply ldiff_zero.
Qed.

(** *** Removal *)

Definition reduce1 (e : EntryProdSpec) (ps : prod_spec) : prod_spec :=
  if decide (sp_pattern ps = Some (eps_pattern e)) then Spec (Z.ldiff (sp_feedtype ps) (eps_feedtype e)) (sp_pattern ps) (sp_rgx ps) else ps.

Definition reduce (ss : list EntryProdSpec) (ps : prod_spec) : prod_spec := foldl (λ ps e, reduce1 e ps) ps ss.

Lemma reduce_pattern ss ps : sp_pattern (reduce ss ps) = sp_pattern ps.
Proof.
  revert ps. induction ss as [|e ss IH]; intros ps; simpl; [done|]. rewrite IH. unfold reduce1. by destruct (decide _).
Qed.

Lemma reduce_bit ss ps n :
  Z.testbit (sp_feedtype (reduce ss ps)) n = true ↔
  Z.testbit (sp_feedtype ps) n = true ∧ ¬ ∃ s, s ∈ ss ∧ sp_pattern ps = Some (eps_pattern s) ∧ Z.testbit (eps_feedtype s) n = true.
Proof.
  revert ps. induction ss as [|e ss IH]; intros ps; simpl.
  - split; [intros H; split; [done|]; by intros (s & Hs%elem_of_nil & _)|tauto].
  - rewrite IH. unfold reduce1. destruct (decide (sp_pattern ps = Some (eps_pattern e))) as [Hp|Hp]; cbn [sp_feedtype sp_pattern].
    + rewrite Z.ldiff_spec, andb_true_iff, negb_true_iff. split.
      * intros [[H1 H2] H3]. split; [done|]. intros (s & [->|Hs]%elem_of_cons & H4 & H5); [congruence|]. apply H3. eauto.
      * intros [H1 H2]. split; [split; [done|]|].
        -- destruct (Z.testbit (eps_feedtype e) n) eqn:He; [|done]. exfalso. apply H2. exists e. split; [constructor|done].
        -- intros (s & Hs & H). apply H2. exists s. split; [by constructor 2|done].
    + split.
      * intros [H1 H2]. split; [done|]. intros (s & [->|Hs]%elem_of_cons & H); [by destruct H|]. apply H2. eauto.
      * intros [H1 H2]. split; [done|]. intros (s & Hs & H). apply H2. exists s. split; [by constructor 2|done].
Qed.

Lemma remove_spec_loop epc ss ps :
  epc_rep epc ss → has_pattern ps →
  epc_loop epc (λ e ps, let! ps := eps_remove_prod_spec e ps in Ok (inr ps)) ps = Ok (reduce ss ps).
Proof.
  intros Hr. rewrite (epc_loop_spec _ _ _ _ Hr). clear Hr. revert ps. induction ss as [|e ss IH]; intros ps Hp; [done|].
  cbn [list_loop reduce foldl]. destruct Hp as [p Hp]. unfold eps_remove_prod_spec, pattern_of. rewrite Hp, !bind_Ok.
  assert ((if bool_decide (eps_pattern e = p) then Spec (Z.ldiff (sp_feedtype ps) (eps_feedtype e)) (Some p) (sp_rgx ps) else ps)
    = reduce1 e ps) as Hred.
  { unfold reduce1. destruct (decide (eps_pattern e = p)) as [<-|Hne].
    - rewrite bool_decide_true, decide_True by done. by rewrite Hp.
    - rewrite bool_decide_false, decide_False; [done|congruence|done]. }
  rewrite Hred. apply IH. exists p. unfold reduce1. by destruct (decide _).
Qed.

Lemma epc_remove_loop_spec epc ss P S T :
  epc_rep epc ss → Forall has_pattern S →
  epc_remove_loop (length S) (length P) epc (P ++ S ++ T) = Ok (P ++ (reduce ss <$> S) ++ T).
Proof.
  intros Hr Hp. revert P. induction Hp as [|ps S Hps Hp IH]; intros P; [done|]. cbn [length epc_remove_loop].
  rewrite (at_ix_Some _ _ ps) by apply (list_lookup_middle P (S ++ T) ps _ eq_refl). rewrite bind_Ok.
  rewrite (remove_spec_loop _ _ _ Hr Hps), bind_Ok. cbn [app fmap list_fmap].
  replace (length P) with (length P + 0)%nat at 2 by lia. rewrite insert_app_r. cbn [insert list_insert].
  specialize (IH (P ++ [reduce ss ps])). rewrite length_app, <- !app_assoc in IH. cbn [length app] in IH.
  rewrite Nat.add_1_r in IH. exact IH.
Qed.

Lemma removeSubscription_spec e ss sub :
  epc_rep (en_prodClass e) ss → sub_ok sub →
  ∃ sub', entry_removeSubscriptionFrom e sub = Ok sub' ∧ sub_ok sub' ∧ cl_from sub' = cl_from sub ∧ cl_to sub' = cl_to sub ∧
    specs sub' = filter keep (reduce ss <$> specs sub) ∧
    ∀ n p, demands sub' n p ↔ demands sub n p ∧ ¬ feeds e n p.
Proof.
  intros Hr [Hwf Hp]. unfold entry_removeSubscriptionFrom, epc_remove_prod_specs. unfold class_wf in Hwf.
  pose proof (epc_remove_loop_spec _ ss [] (specs sub) (drop (psa_len sub) (psa_val sub)) Hr Hp) as Hrun.
  unfold specs in Hrun at 1 2. rewrite length_take_le in Hrun by done. cbn [app length] in Hrun. rewrite take_drop in Hrun.
  rewrite Hrun, !bind_Ok. set (sub1 := Class_ _ _ _ _).
  assert (specs sub1 = reduce ss <$> specs sub) as Hs1.
  { unfold sub1, specs. cbn [psa_len psa_val]. rewrite take_app_le by (rewrite length_fmap, length_take_le; lia).
    apply take_ge. rewrite length_fmap, length_take_le; lia. }
  destruct (clss_scrunch_spec sub1) as (sub' & -> & Hwf' & Hs' & Hf & Ht).
  { unfold class_wf, sub1. cbn [psa_len psa_val]. rewrite length_app, length_fmap, length_drop. unfold specs. rewrite length_take_le; lia. }
  exists sub'. split; [done|]. rewrite Hs1 in Hs'. split.
  { split; [done|]. rewrite Hs'. apply Forall_forall. intros s [_ Hs]%list_elem_of_filter.
    apply list_elem_of_fmap in Hs as (s0 & -> & Hs0). unfold has_pattern. rewrite reduce_pattern.
    rewrite Forall_forall in Hp. by apply Hp. }
  split; [done|]. split; [done|]. split; [done|]. intros n p. unfold demands. rewrite Hs'. split.
  - intros (s & [_ Hs]%list_elem_of_filter & Hpp & Hn). apply list_elem_of_fmap in Hs as (s0 & -> & Hs0).
    rewrite reduce_pattern in Hpp. apply reduce_bit in Hn as [Hn Hno]. split; [by exists s0|].
    intros (x & Hx & Hxp & Hxn)%(feeds_elem _ _ _ _ Hr). apply Hno. exists x. split; [done|]. split; [congruence|done].
  - intros [(s0 & Hs0 & Hpp & Hn) Hno]. exists (reduce ss s0).
    assert (Z.testbit (sp_feedtype (reduce ss s0)) n = true) as Hb.
    { apply reduce_bit. split; [done|]. intros (x & Hx & Hxp & Hxn). apply Hno. apply (feeds_elem _ _ _ _ Hr).
      exists x. split; [done|]. split; [congruence|done]. }
    split; [|split; [by rewrite reduce_pattern|exact Hb]]. apply list_elem_of_filter. split.
    + unfold keep, NONE. intros Hz. by rewrite Hz, Z.bits_0 in Hb.
    + apply list_elem_of_fmap. by exists s0.
Qed.

Definition patterns (sub : prod_class) : list (option string) := sp_pattern <$> specs sub.

Lemma kept_patterns ss (l : list prod_spec) : sp_pattern <$> filter keep (reduce ss <$> l) `sublist_of` (sp_pattern <$> l).
Proof.
  induction l as [|x l IH]; [done|]. cbn [fmap list_fmap]. rewrite filter_cons. destruct (decide _); cbn [fmap list_fmap].
  - rewrite reduce_pattern. by constructor.
  - by constructor.
Qed.

(** ** Sizes *)

Lemma roundUp_spec v : 0 ≤ v < 2 ^ 62 → v ≤ roundUp v 8 ≤ v + 7 ∧ roundUp v 8 mod 8 = 0.
Proof.
  intros Hv. unfold roundUp, u64. rewrite (Z.mod_small (v + (8 - 1))) by lia.
  pose proof (Z.div_mod (v + (8 - 1)) 8 ltac:(lia)). pose proof (Z.mod_pos_bound (v + (8 - 1)) 8 ltac:(lia)).
  rewrite Z.mod_small by lia. split; [lia|]. by apply Z_mod_mult.
Qed.

Lemma roundUp_id v : 0 ≤ v < 2 ^ 62 → v mod 8 = 0 → roundUp v 8 = v.
Proof.
  intros Hv Hm. destruct (roundUp_spec v Hv) as [Hle Hm']. apply Z.div_exact in Hm; [|lia]. apply Z.div_exact in Hm'; [|lia]. lia.
Qed.

(** A subscription as an entry stores it. *)
Definition stored (s : prod_spec) : EntryProdSpec := eps_init (sp_feedtype s) (default ""%string (sp_pattern s)).
Definition stored_specs (sub : prod_class) : list EntryProdSpec := stored <$> specs sub.

Definition small (sub : prod_class) : Prop :=
  Forall (λ s, strlen (default ""%string (sp_pattern s)) < 2 ^ 31) (specs sub) ∧ span eps_size (stored_specs sub) < 2 ^ 31.

Lemma span_patterns l1 l2 :
  (sp_pattern <$> l1) `sublist_of` (sp_pattern <$> l2) →
  Forall (λ s, strlen (default ""%string (sp_pattern s)) < 2 ^ 31) l2 →
  Forall (λ s, strlen (default ""%string (sp_pattern s)) < 2 ^ 31) l1 ∧
  span eps_size (stored <$> l1) ≤ span eps_size (stored <$> l2).
Proof.
  revert l1. induction l2 as [|y l2 IH]; intros l1 Hsub Hl2.
  - apply sublist_nil_r in Hsub. destruct l1; [|done]. done.
  - inversion_clear Hl2 as [|? ? Hy Hl2']. assert (0 ≤ eps_size (stored y)) as Hpos.
    { cbn [stored eps_init eps_size]. unfold eps_sizeof, roundUp, u64. apply Z.mod_pos_bound. lia. }
    cbn [fmap list_fmap] in Hsub. inversion Hsub as [|p k1 k2 Hk Hk1 Hk2|p k1 k2 Hk Hk1 Hk2]; subst.
    + destruct l1 as [|x l1]; [done|]. cbn [fmap list_fmap] in Hk1. injection Hk1 as Hp Hk1. subst k1.
      destruct (IH l1 Hk Hl2') as [H1 H2]. split; [constructor; [by rewrite <- Hp|done]|]. rewrite !fmap_cons; cbn [span].
      assert (eps_size (stored x) = eps_size (stored y)) as -> by (unfold stored; by rewrite Hp). lia.
    + destruct (IH l1 Hk Hl2') as [H1 H2]. split; [done|]. rewrite !fmap_cons; cbn [span]. lia.
Qed.

Lemma small_sublist a a' :
  patterns a' `sublist_of` patterns a → small a → small a' ∧ span eps_size (stored_specs a') ≤ span eps_size (stored_specs a).
Proof.
  intros Hs [H1 H2]. destruct (span_patterns _ _ Hs H1) as [H3 H4]. unfold small, stored_specs in *. split; [split; [done|lia]|done].
Qed.

Lemma strlen_nonneg s : 0 ≤ strlen s.
Proof. unfold strlen. lia. Qed.

Lemma eps_sizeof_range p : strlen p < 2 ^ 31 → 16 ≤ eps_sizeof p < 2 ^ 32.
Proof.
  intros Hp. pose proof (strlen_nonneg p). unfold eps_sizeof, sizeof_EntryProdSpec. change prodSpecAlignment with 8.
  pose proof (roundUp_spec (16 + strlen p) ltac:(lia)). lia.
Qed.

Lemma stored_sized l : Forall (λ s, strlen (default ""%string (sp_pattern s)) < 2 ^ 31) l → sized eps_size (stored <$> l).
Proof.
  induction 1 as [|s l Hs _ IH]; [constructor|]. constructor; [|exact IH]. simpl. pose proof (eps_sizeof_range _ Hs). lia.
Qed.

Lemma epc_sizeof_loop_spec S P T size :
  Forall has_pattern S → Forall (λ s, strlen (default ""%string (sp_pattern s)) < 2 ^ 31) S → 0 ≤ size →
  size + span eps_size (stored <$> S) < 2 ^ 62 →
  epc_sizeof_loop (length S) (length P) (P ++ S ++ T) size = Ok (size + span eps_size (stored <$> S)).
Proof.
  intros Hp Hs. revert P size. induction S as [|s S IH]; intros P size Hz Hlt.
  - simpl. by rewrite Z.add_0_r.
  - inversion_clear Hp as [|? ? [p Hpp] Hp']. inversion_clear Hs as [|? ? Hs1 Hs']. cbn [length epc_sizeof_loop app].
    rewrite (at_ix_Some _ _ s) by apply (list_lookup_middle P (S ++ T) s _ eq_refl). rewrite bind_Ok.
    unfold pattern_of. rewrite Hpp, bind_Ok. cbn [fmap list_fmap span] in *.
    pose proof (span_nonneg eps_size _ (stored_sized S Hs')) as Hn. rewrite Hpp in Hs1. cbn [default] in Hs1.
    pose proof (eps_sizeof_range p Hs1) as He.
    assert (eps_size (stored s) = eps_sizeof p) as Hst by (unfold stored; by rewrite Hpp). fold (stored <$> S) in *. rewrite Hst in *.
    unfold u64. rewrite Z.mod_small by lia. specialize (IH Hp' Hs' (P ++ [s]) (size + eps_sizeof p)).
    rewrite length_app, <- app_assoc, Nat.add_1_r in IH. cbn [app] in IH. rewrite IH by lia. f_equal. lia.
Qed.

Lemma epc_init_loop_spec S P T pre :
  Forall has_pattern S → Forall (λ s, strlen (default ""%string (sp_pattern s)) < 2 ^ 31) S → sized eps_size pre →
  epc_init_loop (length S) (length P) (P ++ S ++ T) (span eps_size pre) (lay eps_size 0 pre) =
    Ok (span eps_size (pre ++ (stored <$> S)), lay eps_size 0 (pre ++ (stored <$> S))).
Proof.
  intros Hp Hs. revert P pre. induction S as [|s S IH]; intros P pre Hpre.
  - simpl. by rewrite app_nil_r.
  - inversion_clear Hp as [|? ? [p Hpp] Hp']. inversion_clear Hs as [|? ? Hs1 Hs']. cbn [length epc_init_loop app].
    rewrite (at_ix_Some _ _ s) by apply (list_lookup_middle P (S ++ T) s _ eq_refl). rewrite bind_Ok.
    unfold pattern_of. rewrite Hpp, bind_Ok. cbv zeta. assert (stored s = eps_init (sp_feedtype s) p) as Hst by (unfold stored; by rewrite Hpp).
    rewrite <- Hst. rewrite Hpp in Hs1. cbn [default] in Hs1. pose proof (eps_sizeof_range p Hs1) as He.
    assert (0 < eps_size (stored s)) as Hpos by (rewrite Hst; simpl; lia).
    rewrite <- (lay_snoc eps_size pre (stored s) Hpre Hpos). unfold eps_next, rd.
    rewrite (lay_snoc eps_size pre (stored s) Hpre Hpos) at 1. rewrite lookup_insert_eq, !bind_Ok.
    replace (span eps_size pre + eps_size (stored s)) with (span eps_size (pre ++ [stored s])) by (rewrite span_app; simpl; lia).
    specialize (IH Hp' Hs' (P ++ [s]) (pre ++ [stored s])).
    rewrite length_app, <- !app_assoc, Nat.add_1_r in IH. cbn [app] in IH. cbn [fmap list_fmap]. apply IH.
    apply Forall_app. split; [done|by repeat constructor].
Qed.

(** ** Entries *)

Definition entry_wf (e : uldb_Entry) : Prop := (∃ ss, epc_rep (en_prodClass e) ss) ∧ 0 < en_size e < 2 ^ 32.

Lemma entry_init_spec pid proto notif prim addr sub :
  sub_ok sub → small sub →
  ∃ e, entry_init pid proto notif prim addr sub = Ok e ∧ entry_sizeof sub = Ok (en_size e) ∧ entry_wf e ∧
    epc_rep (en_prodClass e) (stored_specs sub) ∧
    en_pid e = pid ∧ en_protoVers e = proto ∧ en_isNotifier e = notif ∧ en_isPrimary e = prim ∧ en_sockAddr e = addr.
Proof.
  intros [Hwf Hp] [Hlen Hspan]. unfold class_wf in Hwf. pose proof (stored_sized _ Hlen) as Hsz.
  pose proof (span_nonneg eps_size _ Hsz) as Hn. fold (stored_specs sub) in Hsz, Hn.
  pose proof (epc_init_loop_spec (specs sub) [] (drop (psa_len sub) (psa_val sub)) [] Hp Hlen ltac:(constructor)) as Hi.
  pose proof (epc_sizeof_loop_spec (specs sub) [] (drop (psa_len sub) (psa_val sub)) 0 Hp Hlen ltac:(lia)) as Hs.
  fold (stored_specs sub) in Hi, Hs. unfold specs in Hi, Hs. rewrite length_take_le in Hi, Hs by done. cbn [app length] in Hi, Hs.
  rewrite take_drop in Hi, Hs. change (span eps_size []) with 0 in Hi. change (lay eps_size 0 []) with (∅ : gmap Z EntryProdSpec) in Hi.
  unfold entry_init, epc_init. rewrite Hi, !bind_Ok. unfold entry_sizeof, epc_sizeof.
  rewrite Hs, !bind_Ok by lia. rewrite Z.add_0_l. eexists. split; [reflexivity|]. split; [reflexivity|].
  cbn [en_prodClass en_size]. unfold epc_getSize. cbn [epc_prodSpecsSize].
  assert (epc_rep (EntryProdClass_ (cl_from sub) (cl_to sub) (span eps_size (stored_specs sub)) (lay eps_size 0 (stored_specs sub)))
    (stored_specs sub)) as Hr by (by split).
  split; [|by split]. split; [by eexists|]. cbn [en_size].
  unfold entry_sizeof_internal, epc_sizeof_internal, sizeof_Entry, sizeof_EntryProdClass, sizeof_EntryProdSpec, u64.
  change prodClassAlignment with 8. change entryAlignment with 8.
  clear -Hspan Hn. set (x := span eps_size (stored_specs sub)) in *.
  rewrite (Z.mod_small (56 - 16 + x) (2 ^ 64)) by lia. pose proof (roundUp_spec (56 - 16 + x) ltac:(lia)) as H1.
  set (y := roundUp (56 - 16 + x) 8) in *. rewrite (Z.mod_small (96 - 56 + y) (2 ^ 64)) by lia.
  pose proof (roundUp_spec (96 - 56 + y) ltac:(lia)). lia.
Qed.

(** ** Segments *)

Record seg_rep (sg : Segment) (l : list uldb_Entry) : Prop := {
  sr_entries : sg_entries sg = lay en_size 0 l;
  sr_size : entriesSize sg = span en_size l;
  sr_num : numEntries sg = Z.of_nat (length l);
  sr_wf : Forall entry_wf l;
  sr_cap : span en_size l ≤ entriesCapacity sg < 2 ^ 32 ∧ entriesCapacity sg mod 8 = 0;
}.

Lemma wf_sized l : Forall entry_wf l → sized en_size l.
Proof. induction 1 as [|e l [_ He] _ IH]; constructor; [lia|exact IH]. Qed.

Lemma length_span l : Forall entry_wf l → Z.of_nat (length l) ≤ span en_size l.
Proof. induction 1 as [|e l [_ He] _ IH]; cbn [length span]; lia. Qed.

Lemma seg_at sg pre e l : seg_rep sg (pre ++ e :: l) → rd (sg_entries sg) (span en_size pre) = Ok e.
Proof.
  intros [H1 _ _ H3 _]. unfold rd. rewrite H1.
  by rewrite (lay_at en_size 0 pre e l (wf_sized _ H3) : _ !! span en_size pre = _).
Qed.

Lemma seg_next sg pre e l :
  seg_rep sg (pre ++ e :: l) → seg_nextEntry sg (span en_size pre) = Ok (obj_ptr en_size (pre ++ [e]) l).
Proof.
  intros Hr. unfold seg_nextEntry. rewrite (seg_at _ _ _ _ Hr), bind_Ok. destruct Hr as [_ H2 _ H3 _].
  by rewrite (obj_ptr_next _ _ _ _ (wf_sized _ H3)), H2.
Qed.

Lemma seg_first sg l : seg_rep sg l → seg_firstEntry sg = obj_ptr en_size [] l.
Proof.
  intros [_ H2 _ H3 _]. unfold seg_firstEntry. rewrite H2. pose proof (wf_sized _ H3) as Hs.
  destruct l as [|e l]; [done|]. cbn [span obj_ptr]. inversion_clear Hs as [|? ? He Hs'].
  pose proof (span_nonneg en_size l Hs'). by rewrite (proj2 (Z.eqb_neq _ _)) by lia.
Qed.

Lemma seg_fuel_spec sg l : seg_rep sg l → seg_fuel sg = S (length l).
Proof. intros [H1 _ _ H3 _]. unfold seg_fuel. rewrite H1, lay_size by by apply wf_sized. done. Qed.

(** The objects of a segment, copied. *)
Lemma shm_moved_all l : Forall entry_wf l → shm_moved (lay en_size 0 l) 0 0 (span en_size l) = lay en_size 0 l.
Proof.
  intros Hl. pose proof (shm_moved_lay en_size [] l [] 0) as Hm. rewrite app_nil_r in Hm. cbn [app span] in Hm.
  apply Hm. by apply wf_sized.
Qed.

Lemma seg_init_cap size : 0 ≤ size < 2 ^ 32 → entriesCapacity (seg_init (seg_size size)) = roundUp size 8.
Proof.
  intros Hs. unfold seg_init, seg_entriesCapacity, seg_size, sizeof_Segment, sizeof_Entry, u64. change entryAlignment with 8.
  pose proof (roundUp_spec size ltac:(lia)). cbn [entriesCapacity]. rewrite (Z.mod_small (120 - 96 + _)) by lia.
  rewrite Z.mod_small by lia. lia.
Qed.

Lemma seg_copy_spec dest src l :
  seg_rep src l → span en_size l ≤ entriesCapacity dest < 2 ^ 32 ∧ entriesCapacity dest mod 8 = 0 →
  ∃ sg, seg_copy dest src = (ULDB_SUCCESS, sg) ∧ seg_rep sg l ∧ entriesCapacity sg = entriesCapacity dest.
Proof.
  intros [H1 H2 H3 H4 H5] Hcap. unfold seg_copy. rewrite (proj2 (Z.ltb_ge _ _)) by lia. eexists. split; [done|].
  split; [|done]. split; cbn [sg_entries entriesSize numEntries entriesCapacity]; try done. by rewrite H1, H2, shm_moved_all.
Qed.

(** An entry is found, and removed. *)
Lemma find_loop_spec fuel sg pid pre l :
  seg_rep sg (pre ++ l) → (length l < fuel)%nat →
  find_loop fuel sg pid (obj_ptr en_size pre l) = Ok (
    match list_find (λ e, en_pid e = pid) l with None => None | Some (i, _) => Some (span en_size (pre ++ take i l)) end).
Proof.
  revert fuel pre. induction l as [|e l IH]; intros fuel pre Hr Hf; (destruct fuel as [|fuel]; [simpl in Hf; lia|]); [done|].
  cbn [find_loop obj_ptr list_find length] in *. rewrite (seg_at _ _ _ _ Hr), bind_Ok.
  destruct (Z.eqb_spec (en_pid e) pid) as [He|He].
  - rewrite decide_True by done. simpl. by rewrite app_nil_r.
  - rewrite decide_False by done. rewrite (seg_next _ _ _ _ Hr), bind_Ok, IH by (try rewrite <- app_assoc; done || lia).
    destruct (list_find _ l) as [[i x]|]; simpl; [|done]. by rewrite <- app_assoc.
Qed.

(** ** Vetting *)

Section vet.
Context (myPid protoVers : Z) (isNotifier : bool) (sockAddr : sockaddr_in).

(** An entry of a process that feeds the same host by the same protocol. *)
Definition rival (e : uldb_Entry) : bool :=
  (protoVers =? en_protoVers e) && ipAddressesAreEqual sockAddr (en_sockAddr e) && negb isNotifier && negb (en_isNotifier e).

(** [vets l a st a' k s]: vetting the subscription [a] against the entries [l] ends with the
    status [st] and the subscription [a']; the processes of [k] are redundant, [s] are
    the other entries.  An entry of the same host is redundant exactly when its
    subscription is contained in [a]; otherwise what it feeds is taken from [a], and
    the vetting ends when nothing is left. *)
Inductive vets : list uldb_Entry → prod_class → Z → prod_class → list uldb_Entry → list uldb_Entry → Prop :=
  | vt_end a : vets [] a 0 a [] []
  | vt_exists e l a : en_pid e = myPid → vets (e :: l) a ULDB_EXIST a [] (e :: l)
  | vt_other e l a st a' k s :
      en_pid e ≠ myPid → rival e = false → vets l a st a' k s → vets (e :: l) a st a' k (e :: s)
  | vt_redundant e ss l a st a' k s :
      en_pid e ≠ myPid → rival e = true → epc_rep (en_prodClass e) ss → contained ss a →
      vets l a st a' k s → vets (e :: l) a st a' (e :: k) s
  | vt_reduced e ss l a a1 st a' k s :
      en_pid e ≠ myPid → rival e = true → epc_rep (en_prodClass e) ss → ¬ contained ss a →
      (∀ n p, demands a1 n p ↔ demands a n p ∧ ¬ feeds e n p) → specs a1 ≠ [] →
      vets l a1 st a' k s → vets (e :: l) a st a' k (e :: s)
  | vt_empty e ss l a a1 :
      en_pid e ≠ myPid → rival e = true → epc_rep (en_prodClass e) ss → ¬ contained ss a →
      (∀ n p, demands a1 n p ↔ demands a n p ∧ ¬ feeds e n p) → specs a1 = [] →
      vets (e :: l) a 0 a1 [] (e :: l).

Definition fed (s : list uldb_Entry) (n : Z) (p : string) : Prop := ∃ e, e ∈ s ∧ rival e = true ∧ feeds e n p.

Lemma fed_cons e s n p : fed s n p → fed (e :: s) n p.
Proof. intros (x & Hx & H). exists x. split; [by constructor 2|done]. Qed.

Lemma feeds_dec e n p : (∃ ss, epc_rep (en_prodClass e) ss) → feeds e n p ∨ ¬ feeds e n p.
Proof.
  intros [ss Hr]. rewrite (feeds_elem _ _ _ _ Hr). clear Hr. induction ss as [|s ss IH].
  - right. by intros (x & Hx%elem_of_nil & _).
  - destruct IH as [(x & Hx & H)|Hno]; [left; exists x; split; [by constructor 2|done]|].
    destruct (decide (eps_pattern s = p)) as [Hp|Hp]; [destruct (Z.testbit (eps_feedtype s) n) eqn:Hn|].
    + left. exists s. split; [constructor|done].
    + right. intros (x & [->|Hx]%elem_of_cons & H1 & H2); [congruence|]. apply Hno. eauto.
    + right. intros (x & [->|Hx]%elem_of_cons & H1 & H2); [congruence|]. apply Hno. eauto.
Qed.

(** Nothing is lost: what was asked for is granted, or a process that goes on feeds it. *)
Lemma vets_covers l a a' k s :
  Forall entry_wf l → vets l a 0 a' k s →
  (∀ n p, demands a n p → demands a' n p ∨ fed s n p) ∧
  (∀ e n p, e ∈ k → rival e = true ∧ (feeds e n p → demands a' n p ∨ fed s n p)).
Proof.
  intros Hwf Hv. remember 0 as st eqn:Hst. revert Hwf.
  induction Hv as [a|e l a He|e l a st a' k s He Hriv Hv IH|e ss l a st a' k s He Hriv Hr Hc Hv IH|e ss l a a1 st a' k s He Hriv Hr Hc Hd Hne Hv IH|e ss l a a1 He Hriv Hr Hc Hd Hnil];
    intros Hwf; subst; [split; [by left|by intros e n p Hx%elem_of_nil]|done|inversion_clear Hwf as [|? ? [Hee _] Hwf']..].
  - destruct (IH eq_refl Hwf') as [H1 H2]. split.
    + intros n p Hn. destruct (H1 n p Hn); [by left|right; by apply fed_cons].
    + intros x n p Hx. destruct (H2 x n p Hx) as [H3 H4]. split; [done|]. intros Hf. destruct (H4 Hf); [by left|right; by apply fed_cons].
  - destruct (IH eq_refl Hwf') as [H1 H2]. split; [exact H1|]. intros x n p [->|Hx]%elem_of_cons; [|by apply H2].
    split; [done|]. intros Hf. apply H1. by eapply contained_demands.
  - destruct (IH eq_refl Hwf') as [H1 H2]. split.
    + intros n p Hn. destruct (feeds_dec e n p Hee) as [Hf|Hf]; [right; exists e; split; [constructor|done]|].
      destruct (H1 n p); [by apply Hd|by left|right; by apply fed_cons].
    + intros x n p Hx. destruct (H2 x n p Hx) as [H3 H4]. split; [done|]. intros Hf. destruct (H4 Hf); [by left|right; by apply fed_cons].
  - split; [|by intros x n p Hx%elem_of_nil]. intros n p Hn.
    destruct (feeds_dec e n p Hee) as [Hf|Hf]; [right; exists e; split; [constructor|done]|left; by apply Hd].
Qed.

(** Nothing is granted that was not asked for, or that another process feeds. *)
Lemma vets_disjoint l a a' k s :
  vets l a 0 a' k s → ∀ n p, demands a' n p → demands a n p ∧ ¬ fed s n p.
Proof.
  intros Hv. remember 0 as st eqn:Hst.
  induction Hv as [a|e l a He|e l a st a' k s He Hriv Hv IH|e ss l a st a' k s He Hriv Hr Hc Hv IH|e ss l a a1 st a' k s He Hriv Hr Hc Hd Hne Hv IH|e ss l a a1 He Hriv Hr Hc Hd Hnil];
    subst; intros n p Hn.
  - split; [done|]. by intros (e & He%elem_of_nil & _).
  - done.
  - destruct (IH eq_refl n p Hn) as [H1 H2]. split; [done|]. intros (x & [->|Hx]%elem_of_cons & H3 & H4); [congruence|].
    apply H2. by exists x.
  - by apply IH.
  - destruct (IH eq_refl n p Hn) as [[H1 H1']%Hd H2]. split; [done|]. intros (x & [->|Hx]%elem_of_cons & H3 & H4); [done|].
    apply H2. by exists x.
  - destruct Hn as (x & Hx & _). rewrite Hnil in Hx. by apply elem_of_nil in Hx.
Qed.

Lemma vets_split l a st a' k s : vets l a st a' k s → l ≡ₚ k ++ s.
Proof.
  induction 1 as [a|e l a He|e l a st a' k s He Hriv Hv IH|e ss l a st a' k s He Hriv Hr Hc Hv IH|e ss l a a1 st a' k s He Hriv Hr Hc Hd Hne Hv IH|e ss l a a1 He Hriv Hr Hc Hd Hnil];
    simpl; rewrite ?IH; done || by rewrite Permutation_middle.
Qed.

Lemma ask_nil u : ul_calls u = [] → ask u = (true, u).
Proof. unfold ask. by intros ->. Qed.

Lemma vet_loop_spec fuel sg pre l a u :
  seg_rep sg (pre ++ l) → (length l < fuel)%nat → sub_ok a → ul_calls u = [] →
  ∃ st a' k s, vet_loop fuel sg (obj_ptr en_size pre l) myPid protoVers isNotifier sockAddr a u =
      Ok (st, a', set_killed u (ul_killed u ++ (en_pid <$> k))) ∧
    vets l a st a' k s ∧ sub_ok a' ∧ cl_from a' = cl_from a ∧ cl_to a' = cl_to a ∧
    patterns a' `sublist_of` patterns a.
Proof.
  revert fuel pre a u. induction l as [|e l IH]; intros fuel pre a u Hr Hf Ha Hu; (destruct fuel as [|fuel]; [simpl in Hf; lia|]).
  - exists 0, a, [], []. split; [simpl; rewrite app_nil_r; by destruct u|]. split; [constructor|]. split; [done|]. do 2 (split; [done|]). done.
  - cbn [vet_loop obj_ptr length] in *. rewrite (seg_at _ _ _ _ Hr), bind_Ok. cbv zeta.
    assert (∃ ss, epc_rep (en_prodClass e) ss) as [ss Hss].
    { pose proof (sr_wf _ _ Hr) as [_ Hw]%Forall_app. by inversion_clear Hw as [|? ? [? _] _]. }
    assert (seg_rep sg ((pre ++ [e]) ++ l)) as Hr' by by rewrite <- app_assoc.
    destruct (Z.eqb_spec myPid (en_pid e)) as [He|He].
    { exists ULDB_EXIST, a, [], (e :: l). split; [simpl; rewrite app_nil_r; by destruct u|]. split; [by constructor|]. split; [done|]. do 2 (split; [done|]). done. }
    fold (rival e). destruct (rival e) eqn:Hriv; cycle 1.
    { rewrite (seg_next _ _ _ _ Hr), bind_Ok. destruct (IH fuel (pre ++ [e]) a u Hr' ltac:(lia) Ha Hu) as (st & a' & k & s & Hrun & Hv & H).
      exists st, a', k, (e :: s). split; [exact Hrun|]. split; [by constructor|exact H]. }
    unfold entry_isSubsetOf. destruct (isSubsetOf_spec _ ss a Hss Ha) as (b & -> & Hb). rewrite bind_Ok. destruct b.
    + rewrite (ask_nil _ Hu), (seg_next _ _ _ _ Hr), bind_Ok.
      destruct (IH fuel (pre ++ [e]) a (set_killed u (ul_killed u ++ [en_pid e])) Hr' ltac:(lia) Ha Hu) as (st & a' & k & s & Hrun & Hv & H).
      exists st, a', (e :: k), s. split; [rewrite Hrun; cbn [set_killed ul_killed fmap list_fmap]; by rewrite <- app_assoc|].
      split; [|exact H]. apply (vt_redundant e ss); [congruence|done|done|by apply Hb|done].
    + destruct (removeSubscription_spec e ss a Hss Ha) as (a1 & -> & Ha1 & Hf1 & Ht1 & Hs1 & Hd1). rewrite bind_Ok.
      assert (patterns a1 `sublist_of` patterns a) as Hsub by (unfold patterns; rewrite Hs1; apply kept_patterns).
      destruct (Nat.leb_spec (psa_len a1) 0) as [Hz|Hz].
      * exists 0, a1, [], (e :: l). split; [simpl; rewrite app_nil_r; by destruct u|].
        split; [apply (vt_empty e ss l a a1); [congruence|done|done|intros Hct; by apply Hb in Hct|done|]|done]. unfold specs. by replace (psa_len a1) with O by lia.
      * rewrite (seg_next _ _ _ _ Hr), bind_Ok.
        destruct (IH fuel (pre ++ [e]) a1 u Hr' ltac:(lia) Ha1 Hu) as (st & a' & k & s & Hrun & Hv & H1 & H2 & H3 & H4).
        exists st, a', k, (e :: s). split; [exact Hrun|]. split; [apply (vt_reduced e ss l a a1); [congruence|done|done|intros Hct; by apply Hb in Hct|done| |done]|].
        { destruct Ha1 as [Hwf1 _]. unfold specs, class_wf in *. intros Hn%(f_equal length). rewrite length_take in Hn. simpl in Hn. lia. }
        split; [done|]. split; [congruence|]. split; [congruence|].
        by etrans.
Qed.
End vet.

(** ** The database *)

(** The lock is free for the process [g]. *)
Definition lock_free (g : Z) (lk : srwl_Lock) : Prop :=
  isValid lk = true ∧ (lk_pid lk = g → numReadLocks lk = 0 ∧ numWriteLocks lk = 0).

(** The database is open and not in use by this process, its entries are [l], and no
    system call fails. *)
Record db_ok (u : uldb) (l : list uldb_Entry) (g : Z) : Prop := {
  do_open : ul_open u = true;
  do_lock : ∃ lk, ul_lock u = Some lk ∧ lock_free g lk;
  do_attached : ul_attached u = false;
  do_seg : ∃ sg, ul_shm u = Some sg ∧ seg_rep sg l;
  do_calls : ul_calls u = [];
}.

(** It is locked by this process, which has it attached. *)
Definition in_session (u : uldb) (l : list uldb_Entry) (g : Z) : Prop :=
  ∃ r w sg, u = Uldb true (Some (Lock true g r w)) true (Some sg) (ul_sem u) [] (ul_killed u) ∧
    ((r = 0 ∧ w = 1) ∨ (r = 1 ∧ w = 0)) ∧ seg_rep sg l.

Lemma db_lock_spec u l g forWriting :
  db_ok u l g →
  ∃ u1, db_lock u forWriting g = Ok (0, u1) ∧ in_session u1 l g ∧ ul_killed u1 = ul_killed u.
Proof.
  intros [H1 (lk & H2 & Hv & Hf) H3 (sg & H4 & Hr) H5]. destruct u as [op lo at' sh se ca ki]. simpl in *. subst.
  unfold db_lock, with_lock. cbn [db_verifyOpen ul_open ul_lock Z.eqb ULDB_SUCCESS].
  assert (∃ lk', vet lk g = (RWL_SUCCESS, lk') ∧ lk' = Lock true g 0 0) as (lk' & Hvet & ->).
  { unfold vet. rewrite Hv. cbn [negb]. destruct (Z.eqb_spec g (lk_pid lk)) as [->|Hne]; cbn [negb]; [|by eexists].
    destruct (Hf eq_refl) as [Hr0 Hw0]. exists lk. split; [done|]. destruct lk; simpl in *; by subst. }
  unfold srwl_writeLock, srwl_readLock.
  destruct forWriting; rewrite Hvet; cbn -[Z.add]; (eexists; split; [reflexivity|]; split; [|done]).
  - exists 0, 1, sg. split; [done|]. split; [by left|done].
  - exists 1, 0, sg. split; [done|]. split; [by right|done].
Qed.

Lemma db_unlock_spec u l g :
  in_session u l g → ∃ u', db_unlock u g = Ok (0, u') ∧ db_ok u' l g ∧ ul_killed u' = ul_killed u.
Proof.
  intros (r & w & sg & Hu & Hrw & Hr). rewrite Hu. unfold db_unlock, with_lock, srwl_unlock, vet. cbn -[Z.add Z.sub].
  rewrite Z.eqb_refl. cbn -[Z.add Z.sub].
  destruct Hrw as [[-> ->]|[-> ->]]; cbn; (eexists; split; [reflexivity|]; split; [|done]).
  - split; cbn; eauto. eexists. split; [done|]. by split.
  - split; cbn; eauto. eexists. split; [done|]. by split.
Qed.

(** Space for an entry: the entries are the same. *)
Lemma ensureSpace_spec u l g size :
  in_session u l g → 0 < size → 2 * (span en_size l + size) + 8 < 2 ^ 32 →
  ∃ u' sg, sm_ensureSpaceForEntry u size = Ok (0, u') ∧ in_session u' l g ∧ ul_killed u' = ul_killed u ∧
    ul_shm u' = Some sg ∧ span en_size l + size ≤ entriesCapacity sg.
Proof.
  intros (r & w & sg & Hu & Hrw & Hr) Hs Hlt. rewrite Hu. unfold sm_ensureSpaceForEntry. cbn [attached ul_attached ul_shm].
  rewrite bind_Ok. cbv zeta. unfold seg_getNeededCapacity, u64. rewrite (sr_size _ _ Hr).
  pose proof (span_nonneg en_size l (wf_sized _ (sr_wf _ _ Hr))) as Hn. rewrite Z.mod_small by lia.
  destruct (Z.leb_spec (span en_size l + size) (entriesCapacity sg)) as [Hle|Hgt].
  { exists u, sg. rewrite <- Hu. split; [done|]. split; [by exists r, w, sg|]. split; [done|]. by rewrite Hu. }
  unfold seg_clone. cbn [ask ul_calls negb]. pose proof (sr_cap _ _ Hr) as Hcap.
  pose proof (seg_init_cap (entriesCapacity sg) ltac:(lia)) as Hc1. rewrite roundUp_id in Hc1 by lia.
  destruct (seg_copy_spec (seg_init (seg_size (entriesCapacity sg))) sg l Hr) as (sg1 & -> & Hr1 & _); [rewrite Hc1; exact Hcap|].
  rewrite Z.mod_small by lia. cbn -[Z.mul seg_copy seg_init seg_size Z.add].
  pose proof (seg_init_cap (2 * (span en_size l + size)) ltac:(lia)) as Hc2.
  pose proof (roundUp_spec (2 * (span en_size l + size)) ltac:(lia)) as Hru2.
  destruct (seg_copy_spec (seg_init (seg_size (2 * (span en_size l + size)))) sg1 l Hr1) as (sg2 & -> & Hr2 & Hcap2); [rewrite Hc2; split; [lia|apply Hru2]|].
  eexists _, sg2. split; [reflexivity|]. split; [exists r, w, sg2; by split|]. split; [done|]. split; [done|]. lia.
Qed.

Lemma seg_append_rep sg l e :
  seg_rep sg l → entry_wf e → span en_size l + en_size e ≤ entriesCapacity sg →
  seg_rep (Segment_ (entriesCapacity sg) (u64 (entriesSize sg + en_size e)) (u32 (numEntries sg + 1))
    (<[seg_tailEntry sg := e]> (sg_entries sg))) (l ++ [e]).
Proof.
  intros [H1 H2 H3 H4 H5] He Hcap. pose proof He as [_ Hsz]. pose proof (wf_sized _ H4) as Hs.
  pose proof (span_nonneg en_size l Hs). pose proof (length_span l H4).
  assert (span en_size (l ++ [e]) = span en_size l + en_size e) as Hsp by (rewrite span_app; simpl; lia).
  split; cbn [sg_entries entriesSize numEntries entriesCapacity].
  - unfold seg_tailEntry. rewrite H1, H2. symmetry. apply lay_snoc; [done|lia].
  - rewrite H2, Hsp. unfold u64. rewrite Z.mod_small by lia. done.
  - rewrite H3, length_app. unfold u32. rewrite Z.mod_small by lia. simpl. lia.
  - apply Forall_app. split; [done|constructor; [exact He|constructor]].
  - rewrite Hsp. lia.
Qed.

Lemma addUpstream_spec u l g pid proto notif prim addr sub :
  in_session u l g → sub_ok sub → small sub → 2 * span en_size l + 2 ^ 30 + 2 * span eps_size (stored_specs sub) < 2 ^ 32 →
  ∃ u' e, sm_addUpstreamLdm u pid proto notif prim addr sub = Ok (0, u') ∧ in_session u' (l ++ [e]) g ∧
    ul_killed u' = ul_killed u ∧ entry_init pid proto notif prim addr sub = Ok e.
Proof.
  intros Hin Hok Hsm Hlt. destruct (entry_init_spec pid proto notif prim addr sub Hok Hsm) as (e & He & Hsize & Hwf & Hrep & _).
  unfold sm_addUpstreamLdm. rewrite Hsize, bind_Ok. pose proof Hwf as [_ Hsz]. unfold u32. rewrite Z.mod_small by lia.
  assert (en_size e ≤ span eps_size (stored_specs sub) + 200) as Hes.
  { unfold entry_init, epc_init in He. clear Hsize. destruct (epc_init_loop _ _ _ _ _) as [[o m]|] eqn:Hl in He; [|done].
    rewrite !bind_Ok in He. injection He as <-. destruct Hrep as [_ Hr2 _]. cbn [en_prodClass en_size epc_prodSpecsSize] in *. subst o.
    unfold entry_sizeof_internal, epc_getSize, epc_sizeof_internal, sizeof_Entry, sizeof_EntryProdClass, sizeof_EntryProdSpec, u64.
    cbn [epc_prodSpecsSize]. change prodClassAlignment with 8. change entryAlignment with 8. destruct Hsm as [Hlen Hspan].
    pose proof (span_nonneg eps_size _ (stored_sized _ Hlen)) as Hn. fold (stored_specs sub) in Hn.
    clear -Hspan Hn. set (x := span eps_size (stored_specs sub)) in *.
    rewrite (Z.mod_small (56 - 16 + x) (2 ^ 64)) by lia. pose proof (roundUp_spec (56 - 16 + x) ltac:(lia)) as H1.
    set (y := roundUp (56 - 16 + x) 8) in *. rewrite (Z.mod_small (96 - 56 + y) (2 ^ 64)) by lia.
    pose proof (roundUp_spec (96 - 56 + y) ltac:(lia)). lia. }
  destruct (ensureSpace_spec u l g (en_size e) Hin) as (u1 & sg & -> & (r & w & sg1 & Hu1 & Hrw & Hr1) & Hk & Hsg & Hcap); [lia|lia|].
  rewrite bind_Ok. cbn [negb Z.eqb]. rewrite Hu1 in Hsg. cbn [ul_shm] in Hsg. injection Hsg as ->.
  unfold sm_append. rewrite Hu1. cbn [attached ul_attached ul_shm]. rewrite bind_Ok, He, bind_Ok. cbv zeta.
  unfold seg_tailEntry at 1. rewrite (sr_size _ _ Hr1), (proj2 (Z.ltb_ge _ _)), bind_Ok by lia.
  eexists _, e. split; [reflexivity|]. split; [|by rewrite <- Hk, Hu1].
  rewrite <- (sr_size _ _ Hr1). cbn [set_shm ul_open ul_lock ul_attached ul_sem ul_calls ul_killed].
  eexists r, w, _. split; [reflexivity|]. split; [done|]. by apply seg_append_rep.
Qed.

(** ** Removal of an entry *)

Lemma remove_rep sg l1 e l2 :
  seg_rep sg (l1 ++ e :: l2) →
  ∃ sg', seg_rep sg' (l1 ++ l2) ∧
    sg' = Segment_ (entriesCapacity sg) (u64 (entriesSize sg - u32 (en_size e))) (u32 (numEntries sg - 1))
      (match obj_ptr en_size (l1 ++ [e]) l2 with
       | None => shm_moved (sg_entries sg) 0 0 (span en_size l1)
       | Some next => shm_moved (sg_entries sg) 0 0 (span en_size l1) ∪
                      shm_moved (sg_entries sg) (span en_size l1) next (seg_tailEntry sg - next)
       end).
Proof.
  intros [H1 H2 H3 H4 H5]. eexists. split; [|reflexivity]. pose proof (wf_sized _ H4) as Hs.
  pose proof (length_span _ H4) as Hlen. pose proof H4 as [Hw1 Hw2]%Forall_app. inversion_clear Hw2 as [|? ? He Hw2'].
  pose proof (wf_sized _ Hw1) as Hs1. pose proof (wf_sized _ Hw2') as Hs2.
  pose proof (span_nonneg en_size l1 Hs1). pose proof (span_nonneg en_size l2 Hs2). destruct He as [_ He].
  rewrite span_app in H2, H5, Hlen. cbn [span] in H2, H5, Hlen. rewrite length_app in H3, Hlen. cbn [length] in H3, Hlen.
  assert (shm_moved (sg_entries sg) 0 0 (span en_size l1) = lay en_size 0 l1) as Hm1.
  { rewrite H1. apply (shm_moved_lay en_size [] l1 (e :: l2) 0). done. }
  split; cbn [sg_entries entriesSize numEntries entriesCapacity].
  - rewrite lay_app, Z.add_0_l by done. rewrite Hm1. destruct l2 as [|e2 l2]; cbn [obj_ptr].
    + simpl. by rewrite (right_id_L ∅ (∪)).
    + f_equal. unfold seg_tailEntry. rewrite H2, span_app. rewrite H1. cbn [span].
      replace (span en_size l1 + (en_size e + (en_size e2 + span en_size l2)) - (span en_size l1 + (en_size e + 0)))
        with (span en_size (e2 :: l2)) by (simpl; lia).
      pose proof (shm_moved_lay en_size (l1 ++ [e]) (e2 :: l2) [] (span en_size l1)) as Hm2.
      rewrite app_nil_r, <- app_assoc, span_app in Hm2. cbn [app] in Hm2. apply Hm2. done.
  - rewrite H2, span_app. unfold u32, u64. rewrite (Z.mod_small (en_size e)) by lia. rewrite Z.mod_small by lia. lia.
  - rewrite H3, length_app. unfold u32. rewrite Z.mod_small by lia. lia.
  - by apply Forall_app.
  - rewrite span_app. lia.
Qed.
End ok.
