(* ===== verification/UldbThms.v ===== *)
(** * Theorems about the registry of upstream LDM processes

    The properties of [uldb_create()], [uldb_addProcess()], [uldb_remove()] and of the
    iterator, with witnesses. *)

From stdpp Require Import strings.
From S2P Require Import Prelude Timestamp Xlen ProdClass SemRWLock Uldb UldbOk.

Section thms.
Context {Re : Regex}.
Implicit Types (u : uldb) (l : list uldb_Entry).

(** What is left of [uldb_addProcess()] after vetting ended with [st] and [a]: the entry is
    appended when something is granted. *)
Definition added u' l (g pid proto : Z) (notif prim : bool) (addr : sockaddr_in) (st : Z) (a : prod_class)
    (status : Z) (out : option prod_class) : Prop :=
  status = st ∧
  if st =? 0 then
    out = Some a ∧
    match specs a with
    | [] => db_ok u' l g
    | _ => ∃ e, entry_init pid proto notif prim addr a = Ok e ∧ db_ok u' (l ++ [e]) g
    end
  else out = None ∧ db_ok u' l g.

Lemma class_len (a : prod_class) : class_wf a → (0 <? psa_len a)%nat = match specs a with [] => false | _ => true end.
Proof.
  unfold class_wf, specs. intros Hwf. destruct (psa_len a) as [|n] eqn:Hn; [done|].
  destruct (psa_val a) as [|x v]; [simpl in Hwf; lia|done].
Qed.

(** The end of [sm_add()] and of the session. *)
Lemma add_end u l g pid proto notif prim addr a :
  in_session u l g → sub_ok a → small a → 2 * span en_size l + 2 ^ 30 + 2 * span eps_size (stored_specs a) < 2 ^ 32 →
  ∃ u1 u', (if (0 <? psa_len a)%nat then sm_addUpstreamLdm u pid proto notif prim addr a else Ok (0, u)) = Ok (0, u1) ∧
    db_unlock u1 g = Ok (0, u') ∧ ul_killed u' = ul_killed u ∧ added u' l g pid proto notif prim addr 0 a 0 (Some a).
Proof.
  intros Hin [Hwf Hp] Hsm Hlt. unfold added. rewrite (class_len a Hwf). destruct (specs a) as [|x sp] eqn:Hspecs.
  - destruct (db_unlock_spec u l g Hin) as (u' & Hun & Hok & Hk). by exists u, u'.
  - destruct (addUpstream_spec u l g pid proto notif prim addr a Hin) as (u1 & e & Hrun & Hin1 & Hk1 & He);
      [split; [done|by rewrite Hspecs]|done|done|].
    destruct (db_unlock_spec u1 _ g Hin1) as (u' & Hun & Hok & Hk). exists u1, u'. rewrite Hk, Hk1.
    split; [done|]. split; [done|]. split; [done|]. split; [done|]. split; [done|]. by exists e.
Qed.

Lemma dup_ok (desired : prod_class) :
  class_wf desired → Forall spec_good (specs desired) →
  ∃ a, dup_prod_class desired true (λ _, true) = Ok (Some a) ∧ sub_ok a ∧ specs a = spec_copy <$> specs desired ∧
    cl_from a = cl_from desired ∧ cl_to a = cl_to desired.
Proof.
  intros Hwf Hg. destruct (dup_prod_class_spec desired (λ _, true) Hwf (λ _, eq_refl) Hg) as (a & Hd & Hwa & Hs & Hf & Ht & _).
  exists a. split; [done|]. split; [|done]. split; [done|]. rewrite Hs. apply Forall_forall.
  intros x (y & -> & Hy)%list_elem_of_fmap. rewrite Forall_forall in Hg. destruct (Hg y Hy) as (p & Hp & _).
  unfold has_pattern, spec_copy. rewrite Hp. by eexists.
Qed.

(** The registry has room for the subscription. *)
Definition fits_registry l (desired : prod_class) : Prop :=
  ∀ a, specs a = spec_copy <$> specs desired →
    small a ∧ 2 * span en_size l + 2 ^ 30 + 2 * span eps_size (stored_specs a) < 2 ^ 32.

Lemma addProcess_spec u l g (antiDos : bool) pid proto addr desired notif prim :
  db_ok u l g → 0 < pid → class_wf desired → Forall spec_good (specs desired) → fits_registry l desired →
  ∃ a0 st a k s status out u',
    dup_prod_class desired true (λ _, true) = Ok (Some a0) ∧
    (if antiDos then vets pid proto notif addr l a0 st a k s else st = 0 ∧ a = a0 ∧ k = []) ∧
    uldb_addProcess u antiDos pid proto addr desired notif prim g = Ok (status, out, u') ∧
    ul_killed u' = ul_killed u ++ (en_pid <$> k) ∧
    added u' l g pid proto notif prim addr st a status out.
Proof.
  intros Hok Hpid Hwf Hg Hfit. destruct (dup_ok desired Hwf Hg) as (a0 & Hdup & Ha0 & Hs0 & _).
  destruct (Hfit a0 Hs0) as [Hsm Hlt]. unfold uldb_addProcess. rewrite (proj2 (Z.leb_gt _ _)) by lia.
  destruct (db_lock_spec u l g true Hok) as (u1 & Hlock & Hin & Hk1). unfold db_writeLock. rewrite Hlock, bind_Ok.
  cbn [negb Z.eqb]. pose proof Hin as (r & w & sg & Hu1 & Hrw & Hr). unfold sm_add, sm_vetUpstreamLdm. destruct antiDos.
  - rewrite Hu1. cbn [attached ul_attached ul_shm ask ul_calls]. rewrite bind_Ok, Hdup, bind_Ok, (seg_first _ _ Hr).
    destruct (vet_loop_spec pid proto notif addr (seg_fuel sg) sg [] l a0
      (Uldb true (Some (Lock true g r w)) true (Some sg) (ul_sem u1) [] (ul_killed u1)) Hr)
      as (st & a & k & s & -> & Hv & Ha & _ & _ & Hpat); [rewrite (seg_fuel_spec _ _ Hr); lia|done|done|].
    rewrite !bind_Ok. set (u2 := set_killed _ _). assert (in_session u2 l g) as Hin2 by (exists r, w, sg; by split).
    destruct (small_sublist _ _ Hpat Hsm) as [Hsma Hle].
    exists a0, st, a, k, s. destruct (Z.eqb_spec st 0) as [->|Hst]; cbn [negb].
    + destruct (add_end u2 l g pid proto notif prim addr a Hin2 Ha Hsma) as (u3 & u' & -> & Hun & Hk & Hadd); [lia|].
      rewrite !bind_Ok, Hun, bind_Ok. cbn [negb Z.eqb]. eexists 0, (Some a), u'. do 2 (split; [done|]). split; [done|].
      split; [rewrite Hk; unfold u2; cbn [set_killed ul_killed]; by rewrite Hk1|exact Hadd].
    + destruct (db_unlock_spec u2 l g Hin2) as (u' & Hun & Hok' & Hk). rewrite !bind_Ok, Hun, bind_Ok. cbn [negb Z.eqb].
      rewrite (proj2 (Z.eqb_neq _ _) Hst). cbn [negb].
      eexists st, None, u'. do 2 (split; [done|]). split; [done|].
      split; [rewrite Hk; unfold u2; cbn [set_killed ul_killed]; by rewrite Hk1|].
      unfold added. by rewrite (proj2 (Z.eqb_neq _ _) Hst).
  - assert (ul_calls u1 = []) as Hc by by rewrite Hu1. rewrite !(ask_nil u1 Hc), Hdup, !bind_Ok. cbn [Z.eqb].
    destruct (add_end u1 l g pid proto notif prim addr a0 Hin Ha0 Hsm Hlt) as (u3 & u' & -> & Hun & Hk & Hadd).
    rewrite !bind_Ok, Hun, bind_Ok. cbn [negb Z.eqb].
    exists a0, 0, a0, [], []. eexists 0, (Some a0), u'. split; [done|]. split; [done|]. split; [done|].
    split; [cbn [fmap list_fmap]; rewrite app_nil_r; congruence|exact Hadd].
Qed.

(** C6: registering a process.  [uldb_addProcess()] ends without a fault, also when the
    segment has to grow: the entries are the same but for a new one at the end, which
    stores the granted subscription; nothing is entered when nothing is granted or
    when the process is registered already.  The processes that vetting found redundant are
    sent SIGTERM, and no others. *)
Theorem uldb_addProcess_correct u l g (antiDos : bool) pid proto addr desired notif prim :
  db_ok u l g → 0 < pid → class_wf desired → Forall spec_good (specs desired) → fits_registry l desired →
  ∃ a0 st a k s status out u',
    dup_prod_class desired true (λ _, true) = Ok (Some a0) ∧
    (if antiDos then vets pid proto notif addr l a0 st a k s else st = 0 ∧ a = a0 ∧ k = []) ∧
    uldb_addProcess u antiDos pid proto addr desired notif prim g = Ok (status, out, u') ∧
    ul_killed u' = ul_killed u ++ (en_pid <$> k) ∧
    added u' l g pid proto notif prim addr st a status out.
Proof. apply addProcess_spec. Qed.

(** C7: vetting loses nothing and grants nothing twice.  When [uldb_addProcess()] grants the
    subscription [a], every bit of a feedtype that was desired with some pattern is granted or is fed to
    the same host by another process that goes on; what a process that is
    terminated fed is granted or fed by another, too; and nothing is
    granted that was not desired or that another process feeds. *)
Theorem uldb_vet_covers u l g pid proto addr desired notif prim a u' :
  db_ok u l g → 0 < pid → class_wf desired → Forall spec_good (specs desired) → fits_registry l desired →
  uldb_addProcess u true pid proto addr desired notif prim g = Ok (0, Some a, u') →
  ∃ a0 k s, dup_prod_class desired true (λ _, true) = Ok (Some a0) ∧ l ≡ₚ k ++ s ∧
    ul_killed u' = ul_killed u ++ (en_pid <$> k) ∧
    (∀ n p, demands a0 n p → demands a n p ∨ fed proto notif addr s n p) ∧
    (∀ e n p, e ∈ k → feeds e n p → demands a n p ∨ fed proto notif addr s n p) ∧
    (∀ n p, demands a n p → demands a0 n p ∧ ¬ fed proto notif addr s n p).
Proof.
  intros Hok Hpid Hwf Hg Hfit Hrun.
  destruct (addProcess_spec u l g true pid proto addr desired notif prim Hok Hpid Hwf Hg Hfit)
    as (a0 & st & a' & k & s & status & out & u2 & Hdup & Hv & Hrun2 & Hk & Hadd).
  rewrite Hrun in Hrun2. injection Hrun2 as <- <- <-. destruct Hadd as [<- Hadd]. cbn [Z.eqb] in Hadd.
  destruct Hadd as [[= <-] _]. destruct (do_seg _ _ _ Hok) as (sg & _ & Hr).
  destruct (vets_covers pid proto notif addr l a0 a k s (sr_wf _ _ Hr) Hv) as [H1 H2].
  exists a0, k, s. split; [done|]. split; [by eapply vets_split|]. split; [done|]. split; [done|].
  split; [intros e n p He; by apply H2|by eapply vets_disjoint].
Qed.

(** C20: removing a process.  [uldb_remove()] removes the entry of the process and moves those
    behind it down; the status is [ULDB_SUCCESS] whether or not there is one. *)
Theorem uldb_remove_correct u l g pid :
  db_ok u l g → 0 < pid →
  ∃ u', uldb_remove u pid g = Ok (ULDB_SUCCESS, u') ∧ ul_killed u' = ul_killed u ∧
    db_ok u' (match list_find (λ e, en_pid e = pid) l with None => l | Some (i, _) => delete i l end) g.
Proof.
  intros Hok Hpid. unfold uldb_remove. rewrite (proj2 (Z.leb_gt _ _)) by lia.
  destruct (db_lock_spec u l g true Hok) as (u1 & Hlock & Hin & Hk1). unfold db_writeLock. rewrite Hlock, bind_Ok.
  cbn [negb Z.eqb]. pose proof Hin as (r & w & sg & Hu1 & Hrw & Hr). unfold sm_remove.
  assert (attached u1 = Ok sg) as -> by by rewrite Hu1. rewrite bind_Ok, (seg_first _ _ Hr).
  rewrite (find_loop_spec _ _ _ [] l Hr) by (rewrite (seg_fuel_spec _ _ Hr); lia). rewrite bind_Ok. cbn [app].
  destruct (list_find _ l) as [[i e]|] eqn:Hfind.
  - apply list_find_Some in Hfind as (Hi & _). pose proof (take_drop_middle l i e Hi) as Hl.
    assert (seg_rep sg (take i l ++ e :: drop (S i) l)) as Hr' by by rewrite Hl.
    rewrite (seg_at _ _ _ _ Hr'), bind_Ok. cbv zeta. rewrite (seg_next _ _ _ _ Hr'), bind_Ok.
    destruct (remove_rep sg _ _ _ Hr') as (sg' & Hrep & Hsg). rewrite <- Hsg, bind_Ok.
    set (u2 := set_shm u1 (Some sg')). assert (in_session u2 (take i l ++ drop (S i) l) g) as Hin2.
    { unfold u2. rewrite Hu1. exists r, w, sg'. by split. }
    destruct (db_unlock_spec u2 _ g Hin2) as (u' & -> & Hok' & Hk). rewrite bind_Ok.
    exists u'. split; [done|]. split; [by rewrite Hk|]. by rewrite delete_take_drop.
  - rewrite bind_Ok. destruct (db_unlock_spec u1 _ g Hin) as (u' & -> & Hok' & Hk). rewrite bind_Ok.
    exists u'. split; [done|]. split; [by rewrite Hk|done].
Qed.

(** The entries that an iterator returns, from the pointer on. *)
Fixpoint iter_rest (fuel : nat) (iter : uldb_Iter) (entry : option Z) : res (list uldb_Entry) :=
  match fuel with
  | O => Err OutOfFuel
  | S fuel =>
      match entry with
      | None => Ok []
      | Some off =>
          let! e := rd (sg_entries (it_segment iter)) off in
          let! '(next, iter) := uldb_iter_nextEntry iter in
          let! es := iter_rest fuel iter next in Ok (e :: es)
      end
  end.

Definition iter_all (fuel : nat) (iter : uldb_Iter) : res (list uldb_Entry) :=
  let '(entry, iter) := uldb_iter_firstEntry iter in iter_rest fuel iter entry.

Lemma iter_rest_spec fuel sg pre l :
  seg_rep sg (pre ++ l) → (length l < fuel)%nat → iter_rest fuel (Iter sg (obj_ptr en_size pre l)) (obj_ptr en_size pre l) = Ok l.
Proof.
  revert fuel pre. induction l as [|e l IH]; intros fuel pre Hr Hf; (destruct fuel as [|fuel]; [simpl in Hf; lia|]); [done|].
  cbn [iter_rest obj_ptr length it_segment] in *. rewrite (seg_at _ _ _ _ Hr), bind_Ok.
  unfold uldb_iter_nextEntry. cbn [it_entry it_segment]. rewrite (seg_next _ _ _ _ Hr), !bind_Ok.
  rewrite IH by (try rewrite <- app_assoc; done || lia). done.
Qed.

(** C22: reading the registry.  The iterator of [uldb_getIterator()] returns the entries in the
    order of their registration, from a copy: the database is the same, and unlocked. *)
Theorem uldb_iterator_correct u l g :
  db_ok u l g →
  ∃ it u', uldb_getIterator u true g = Ok (ULDB_SUCCESS, Some it, u') ∧ db_ok u' l g ∧
    iter_all (S (length l)) it = Ok l.
Proof.
  intros Hok. unfold uldb_getIterator. cbn [negb]. destruct (db_lock_spec u l g false Hok) as (u1 & Hlock & Hin & Hk1).
  unfold db_readLock. rewrite Hlock, bind_Ok. cbn [negb Z.eqb]. pose proof Hin as (r & w & sg & Hu1 & Hrw & Hr).
  assert (attached u1 = Ok sg) as -> by by rewrite Hu1. assert (ul_calls u1 = []) as Hc by by rewrite Hu1.
  rewrite bind_Ok, (ask_nil u1 Hc). unfold seg_clone. cbn [negb].
  pose proof (sr_cap _ _ Hr) as Hcap. pose proof (span_nonneg en_size l (wf_sized _ (sr_wf _ _ Hr))).
  pose proof (seg_init_cap (entriesCapacity sg) ltac:(lia)) as Hc1. rewrite roundUp_id in Hc1 by lia.
  destruct (seg_copy_spec (seg_init (seg_size (entriesCapacity sg))) sg l Hr) as (sg1 & -> & Hr1 & _); [rewrite Hc1; exact Hcap|].
  cbn [negb Z.eqb ULDB_SUCCESS]. destruct (db_unlock_spec u1 l g Hin) as (u' & -> & Hok' & _).
  rewrite bind_Ok. cbn [negb Z.eqb andb fmap option_fmap option_map].
  eexists _, u'. split; [reflexivity|]. split; [done|]. unfold iter_all, uldb_iter_firstEntry. cbn [it_segment].
  rewrite (seg_first _ _ Hr1). apply (iter_rest_spec _ sg1 [] l); [exact Hr1|lia].
Qed.
Lemma create_spec u capacity g :
  ul_calls u = [] → 0 ≤ capacity < 2 ^ 32 - 8 → ul_open u = false →
  match ul_shm u with
  | Some sg => ∃ u', uldb_create u capacity g = (ULDB_EXIST, u') ∧ ul_shm u' = Some sg ∧ ul_open u' = false
  | None => ∃ u', uldb_create u capacity g = (ULDB_SUCCESS, u') ∧ db_ok u' [] g
  end.
Proof.
  intros Hc Hcap Ho. destruct u as [op lk at' sh se ca ki]. cbn in Hc, Ho. subst. cbn [ul_shm].
  destruct sh as [sg|]; [by eexists|].
  pose proof (seg_init_cap capacity ltac:(lia)) as Hc1. pose proof (roundUp_spec capacity ltac:(lia)) as Hr.
  assert (seg_rep (seg_init (seg_size capacity)) []) as Hrep.
  { split; [done|done|done|constructor|]. rewrite Hc1. cbn [span]. split; [lia|apply Hr]. }
  unfold uldb_create, uldb_init, uldb_getKey, sm_create, sm_attach, sm_setShmId, sm_detach, sm_clear, new_lock, initLock, createLock.
  cbn -[seg_init seg_size]. eexists. split; [destruct se; reflexivity|].
  split; cbn -[seg_init seg_size]; try done; [|by eexists].
  eexists. split; [done|]. by split.
Qed.

(** C21: the life of the database.  [uldb_create()] refuses a database that exists, and leaves it alone;
    otherwise the database is open, without entries, and unlocked.  After
    [uldb_delete()] neither the segment nor the set of semaphores is left, and the status tells whether both were
    there; the database can be created again. *)
Theorem uldb_create_correct u capacity g :
  ul_calls u = [] → 0 ≤ capacity < 2 ^ 32 - 8 →
  (ul_open u = false →
   match ul_shm u with
   | Some sg => ∃ u', uldb_create u capacity g = (ULDB_EXIST, u') ∧ ul_shm u' = Some sg ∧ ul_open u' = false
   | None => ∃ u', uldb_create u capacity g = (ULDB_SUCCESS, u') ∧ db_ok u' [] g
   end) ∧
  ∃ u1 u2, uldb_delete u = (if ul_sem u && bool_decide (is_Some (ul_shm u)) then ULDB_SUCCESS else ULDB_EXIST, u1) ∧
    ul_shm u1 = None ∧ ul_sem u1 = false ∧ uldb_create u1 capacity g = (ULDB_SUCCESS, u2) ∧ db_ok u2 [] g.
Proof.
  intros Hc Hcap. split; [intros Ho; by apply create_spec|]. destruct u as [op lk at' sh se ca ki]. cbn in Hc. subst ca.
  destruct (create_spec (Uldb false lk at' None false [] ki) capacity g eq_refl Hcap eq_refl) as (u2 & H1 & H2).
  eexists _, u2. split; [by destruct sh, se|]. by destruct sh, se.
Qed.
Lemma numProdSpecs_loop (ss : list EntryProdSpec) n :
  0 ≤ n → n + Z.of_nat (length ss) < 2 ^ 32 →
  list_loop (λ _ n, Ok (inr (u32 (n + 1)))) ss n = Ok (n + Z.of_nat (length ss)).
Proof.
  revert n. induction ss as [|e ss IH]; intros n Hn Hlt; [simpl; f_equal; lia|]. cbn [list_loop length] in *. rewrite bind_Ok.
  unfold u32. rewrite Z.mod_small by lia. rewrite IH by lia. f_equal. lia.
Qed.

Lemma get_spec_loop P R :
  Forall spec_good R →
  list_loop (get_spec (λ _, true)) (stored <$> R) (0, length P, (spec_copy <$> P) ++ replicate (length R) spec_zero) =
    Ok (0, length (P ++ R), spec_copy <$> (P ++ R)).
Proof.
  intros Hg. revert P. induction Hg as [|s R (p & Hp & Hc) Hg IH]; intros P; [simpl; by rewrite !app_nil_r|].
  cbn [fmap list_fmap list_loop length replicate]. unfold get_spec at 1.
  rewrite (at_ix_Some _ _ spec_zero) by (apply list_lookup_middle; by rewrite length_fmap). rewrite bind_Ok.
  unfold eps_get, cp_prod_spec. cbn [sp_pattern sp_feedtype]. rewrite bool_decide_true, assert_Ok by done.
  assert (eps_feedtype (stored s) = sp_feedtype s ∧ eps_pattern (stored s) = p) as [-> ->] by (unfold stored; by rewrite Hp).
  cbn [negb]. destruct (regcomp (re_vetSpec p).2) as [ok r] eqn:Hr. cbn [fst] in Hc. subst ok. rewrite !bind_Ok. cbn [negb Z.eqb].
  rewrite insert_app_r_alt by by rewrite length_fmap. rewrite length_fmap, Nat.sub_diag. cbn [insert list_insert].
  specialize (IH (P ++ [s])). rewrite length_app, fmap_app, <- !app_assoc, Nat.add_1_r in IH. cbn [app fmap list_fmap] in IH.
  assert (spec_copy s = Spec (sp_feedtype s) (Some (re_vetSpec p).2) r) as Hs by (unfold spec_copy; rewrite Hp; cbn [default from_option id]; unfold id; by rewrite Hr).
  rewrite Hs in IH. exact IH.
Qed.

(** C23: the subscription of an entry.  What [uldb_entry_getProdClass()] makes of an entry is the
    subscription that the entry was made of, with the patterns vetted and compiled
    anew; of patterns that are vetted already, nothing changes. *)
Theorem entry_getProdClass_roundtrip pid proto notif prim addr sub :
  sub_ok sub → small sub → Forall spec_good (specs sub) →
  ∃ e c, entry_init pid proto notif prim addr sub = Ok e ∧
    entry_getProdClass e true (λ _, true) = Ok (ULDB_SUCCESS, Some c) ∧ class_wf c ∧
    cl_from c = cl_from sub ∧ cl_to c = cl_to sub ∧ specs c = spec_copy <$> specs sub ∧
    ((∀ s p, s ∈ specs sub → sp_pattern s = Some p → re_isPathological p = false) →
     spec_key <$> specs c = spec_key <$> specs sub).
Proof.
  intros Hok Hsm Hg. destruct (entry_init_spec pid proto notif prim addr sub Hok Hsm) as (e & He & _ & _ & Hrep & _).
  assert (epc_from (en_prodClass e) = cl_from sub ∧ epc_to (en_prodClass e) = cl_to sub) as [Hf Ht].
  { unfold entry_init, epc_init in He. destruct (epc_init_loop _ _ _ _ _) as [[o m]|]; [|done]. rewrite !bind_Ok in He. by injection He as <-. }
  set (c := Class_ (cl_from sub) (cl_to sub) (length (specs sub)) (spec_copy <$> specs sub)).
  exists e, c. split; [exact He|].
  assert (specs c = spec_copy <$> specs sub) as Hs by (apply take_ge; cbn [c psa_val]; by rewrite length_fmap).
  assert (Z.of_nat (length (specs sub)) < 2 ^ 31) as Hlen.
  { destruct Hsm as [Hl Hspan]. revert Hspan. unfold stored_specs. clear -Hl.
    enough (Z.of_nat (length (specs sub)) ≤ span eps_size (stored <$> specs sub)) by lia.
    induction Hl as [|s l Hs _ IH]; [done|]. rewrite fmap_cons. cbn [span length stored eps_init eps_size].
    pose proof (eps_sizeof_range _ Hs). lia. }
  split; [|split; [unfold class_wf, c; cbn [psa_len psa_val]; by rewrite length_fmap|do 3 (split; [done|])]].
  - unfold entry_getProdClass, epc_getEverythingButProdSpecs, epc_numProdSpecs. rewrite (epc_loop_spec _ _ _ _ Hrep).
    rewrite numProdSpecs_loop by (unfold stored_specs; rewrite ?length_fmap; lia). rewrite !bind_Ok.
    unfold new_prod_class. cbn [negb psa_len psa_val cl_from cl_to]. rewrite (epc_loop_spec _ _ _ _ Hrep).
    unfold stored_specs. rewrite length_fmap, Z.add_0_l, Nat2Z.id. pose proof (get_spec_loop [] (specs sub) Hg) as Hl.
    cbn [length app fmap list_fmap] in Hl. change ULDB_SUCCESS with 0. rewrite Hl, bind_Ok. cbn [negb Z.eqb].
    by rewrite Hf, Ht.
  - intros Hv. rewrite Hs, <- list_fmap_compose. apply list_fmap_ext. intros i s Hi%list_elem_of_lookup_2.
    rewrite Forall_forall in Hg. destruct (Hg s Hi) as (p & Hp & _). unfold compose, spec_key, spec_copy. rewrite Hp. cbn.
    do 2 f_equal. apply re_vet_loop_spec. by eapply Hv.
Qed.
End thms.

(** ** Witnesses *)

#[local] Existing Instance prefix_regex.

(** Two processes feed the same host: the one sends what is desired anyway, the other
    one more of it than is desired. *)
Definition ex_addr : sockaddr_in := Sockaddr 388 9.

Definition ex_epc (feedtype : Z) (pattern : string) : EntryProdClass :=
  EntryProdClass_ TS_ZERO TS_ENDT (eps_sizeof pattern) {[0 := eps_init feedtype pattern]}.

Definition ex_entry (pid feedtype : Z) (pattern : string) : uldb_Entry :=
  Entry_ (entry_sizeof_internal (epc_getSize (ex_epc feedtype pattern))) ex_addr pid 6 false true (ex_epc feedtype pattern).

Definition ex_entries : list uldb_Entry := [ex_entry 7 1 "SAUS"; ex_entry 9 12 "KWBC"].

Definition ex_uldb : uldb :=
  Uldb true (Some (Lock true 1 0 0)) false
    (Some (Segment_ 240 (span en_size ex_entries) 2 (lay en_size 0 ex_entries))) true [] [].

Lemma ex_entry_wf pid ft p : p = "SAUS"%string ∨ p = "KWBC"%string → entry_wf (ex_entry pid ft p).
Proof.
  intros Hp. split; [exists [eps_init ft p]; split; [done| |]|]; destruct Hp as [-> | ->];
    first [done | by constructor | split; vm_compute; done].
Qed.

Lemma ex_uldb_ok : db_ok ex_uldb ex_entries 1.
Proof.
  split; [done|by eexists|done| |done]. eexists. split; [done|]. split; [done|done|done| |by vm_compute].
  constructor; [apply ex_entry_wf; by left|]. constructor; [apply ex_entry_wf; by right|constructor].
Qed.

Lemma ex_fits : fits_registry ex_entries ex_class.
Proof.
  intros a Ha. unfold small, stored_specs. rewrite Ha. split; [split|]; [|by vm_compute..].
  cbn [ex_class specs psa_len psa_val take fmap list_fmap]. by repeat constructor.
Qed.

(** The process 12 asks for what they feed, too. *)
Lemma uldb_addProcess_correct_witness :
  db_ok ex_uldb ex_entries 1 ∧
  ∃ a0 st a k s status out u',
    dup_prod_class ex_class true (λ _, true) = Ok (Some a0) ∧
    vets 12 6 false ex_addr ex_entries a0 st a k s ∧
    uldb_addProcess ex_uldb true 12 6 ex_addr ex_class false true 1 = Ok (status, out, u') ∧
    ul_killed u' = [] ++ (en_pid <$> k) ∧
    added u' ex_entries 1 12 6 false true ex_addr st a status out.
Proof.
  split; [exact ex_uldb_ok|].
  exact (uldb_addProcess_correct ex_uldb ex_entries 1 true 12 6 ex_addr ex_class false true ex_uldb_ok eq_refl ex_class_wf ex_class_good ex_fits).
Defined.

Lemma uldb_vet_covers_witness :
  ∃ a u', uldb_addProcess ex_uldb true 12 6 ex_addr ex_class false true 1 = Ok (0, Some a, u') ∧
    specs a = [Spec 1 (Some "SAUS"%string) "SAUS"%string] ∧ ul_killed u' = [7] ∧
    ∃ a0 k s, dup_prod_class ex_class true (λ _, true) = Ok (Some a0) ∧ ex_entries ≡ₚ k ++ s ∧
      ul_killed u' = [] ++ (en_pid <$> k) ∧
      (∀ n p, demands a0 n p → demands a n p ∨ fed 6 false ex_addr s n p) ∧
      (∀ e n p, e ∈ k → feeds e n p → demands a n p ∨ fed 6 false ex_addr s n p) ∧
      (∀ n p, demands a n p → demands a0 n p ∧ ¬ fed 6 false ex_addr s n p).
Proof.
  destruct (uldb_addProcess ex_uldb true 12 6 ex_addr ex_class false true 1) as [[[st [a|]] u']|] eqn:Hrun;
    pose proof Hrun as Hr; vm_compute in Hr; try discriminate Hr.
  exists a, u'. assert (st = 0) as -> by congruence. split; [done|].
  injection Hr as Ha Hu. split; [by rewrite <- Ha|]. split; [by rewrite <- Hu|].
  exact (uldb_vet_covers ex_uldb ex_entries 1 12 6 ex_addr ex_class false true a u' ex_uldb_ok eq_refl ex_class_wf ex_class_good ex_fits Hrun).
Defined.

Lemma uldb_remove_correct_witness :
  ∃ u', uldb_remove ex_uldb 7 1 = Ok (ULDB_SUCCESS, u') ∧ ul_killed u' = [] ∧ db_ok u' [ex_entry 9 12 "KWBC"] 1.
Proof. exact (uldb_remove_correct ex_uldb ex_entries 1 7 ex_uldb_ok eq_refl). Defined.

Lemma uldb_iterator_correct_witness :
  ∃ it u', uldb_getIterator ex_uldb true 1 = Ok (ULDB_SUCCESS, Some it, u') ∧ db_ok u' ex_entries 1 ∧ iter_all 3 it = Ok ex_entries.
Proof. exact (uldb_iterator_correct ex_uldb ex_entries 1 ex_uldb_ok). Defined.

Lemma uldb_create_correct_witness :
  ∃ u1 u2, uldb_delete ex_uldb = (ULDB_SUCCESS, u1) ∧ ul_shm u1 = None ∧ ul_sem u1 = false ∧
    uldb_create u1 1000 1 = (ULDB_SUCCESS, u2) ∧ db_ok u2 [] 1.
Proof. apply (uldb_create_correct ex_uldb 1000 1); [reflexivity|lia]. Defined.

Lemma ex_class_small : sub_ok ex_class ∧ small ex_class.
Proof.
  split; [split; [exact ex_class_wf|]|split; [|by vm_compute]];
    cbn [ex_class specs psa_len psa_val take]; repeat constructor; by eexists.
Qed.

Lemma entry_getProdClass_roundtrip_witness :
  ∃ e c, entry_init 12 6 false true ex_addr ex_class = Ok e ∧
    entry_getProdClass e true (λ _, true) = Ok (ULDB_SUCCESS, Some c) ∧ specs c = spec_copy <$> specs ex_class.
Proof.
  destruct (entry_getProdClass_roundtrip 12 6 false true ex_addr ex_class (proj1 ex_class_small) (proj2 ex_class_small) ex_class_good)
    as (e & c & H1 & H2 & _ & _ & _ & H3 & _). exists e, c. split; [exact H1|]. split; [exact H2|exact H3].
Defined.

(** When the segment of the key cannot be created anew, the entries are lost. *)
Example growth_loses_entries :
  ∃ u', sm_ensureSpaceForEntry (Uldb true (Some (Lock true 1 0 1)) true (ul_shm ex_uldb) true
      [true; true; true; true; false] []) 100 = Ok (ULDB_SYSTEM, u') ∧ ul_shm u' = None.
Proof. eexists. split; reflexivity. Qed.
